(* ===== verification/_CoqProject ===== *)
-Q . S2P
Prelude.v
Str.v
Core.v
Cidr.v
Nft.v
Effect.v
Os.v
Entries.v
Registry.v
Json.v
Snapshots.v
Runtime.v
Locks.v
Checkpoint.v
Sequence.v
Api.v
OciBase.v
Tree.v
Extract.v
ExtractInv.v
ExtractBudget.v
Oci.v
OciPull.v
OciPullInv.v
Record.v
Sse.v
SseInv.v
Atif.v
AgentLog.v
Review.v
ReviewInv.v
ReviewAny.v
Proxy.v
ProxyInv.v
Client.v
Terminal.v
Codex.v
Approvals.v
Worker.v
Files.v
Workspace.v
Config.v
DaemonConfig.v
Executor.v
Supervisor.v
Reaper.v
Bridges.v
Control.v
Cli.v
Launchd.v
Conn.v
ConnInv.v
Socket.v
Advertise.v
App.v
ExecSession.v
ExecStream.v
OadClient.v
Oadctl.v
LogTail.v
Envoy.v
Network.v
NetworkInv.v
Observability.v
Lifecycle.v
LifecycleInv.v
Handlers.v
Demo.v
Startup.v
HandlersInv.v
