(* ===== verification/Prelude.v ===== *)
(** * OmniAgent: a verification development for the sandbox daemon and the agent runner

    OmniAgent runs coding agents in gVisor sandboxes.  The repository's Rust
    crates (src/crates/) are modelled here; its Elixir applications (src/apps/)
    are not.  This file is the root of the development; its second half is the
    prelude that every other file loads (results, options and lists, machine
    integers, tactics).

    ** The program

    The daemon [oad] (crates/oad) serves an HTTP interface ([main.rs]).  A
    sandbox is a directory with a record of its status ([registry.rs]), the
    specification it was created from, a network of its own ([network.rs]:
    a /30 subnet, a namespace, nftables rules) and the bundles of its
    containers, which oad-oci prepares from images it pulls.  oad-runtime drives
    [runsc] to start, checkpoint, restore and delete the containers;
    [snapshots.rs] stores named checkpoints; [background_exec.rs] runs processes
    in containers and streams their output.  oad-core holds the shared data and
    writes files atomically.  The runner [omniagent] (crates/omniagent-cli)
    works on the agents' side: it records the traffic with model providers and
    drives agents over a connection to the server.

    ** How programs are modelled

    The definitions follow the code, function by function, under its names.
    - Pure functions are Rocq functions; [Result] is [result] (this file),
      strings are their bytes (Str.v), JSON is [Value] (Json.v), integers are
      [Z] with the wrap-around or the check of their width written out.
    - Functions that use the system are state transformers with outcomes
      (Effect.v): a value, an error that [?] propagates, or a crash at that
      call.  The state holds the files and the calls made so far; an
      environment decides from these whether each call succeeds, fails or is the
      last (Os.v).  The theorems quantify over the environment, hence over every
      combination of I/O errors and a crash at any point.  Unpacking of layers
      has a file system of its own, with symbolic and hard links (Tree.v).
    - Code that interleaves with other tasks is a step relation whose steps are
      the critical sections (Locks.v, ExecSession.v, ExecStream.v, Record.v, Conn.v).
    - Code that is not in the repository is an argument or a class: parsers and
      encoders of JSON ([Codec], [JsonText]), SHA-256, the url crate, tar and
      gzip readers, servers, [runsc], mkfs.erofs, clocks and uuids.  What is
      assumed of them is a law of the class or a hypothesis, and every theorem
      that has hypotheses is applied to a concrete input by its witness.

    ** Files

    Shared: Prelude.v, Str.v, Json.v, Effect.v, Os.v (with [write_atomic_file]
    and the rest of oad-core that writes files), Tree.v, Entries.v (a family of
    files, one in each sandbox directory), Demo.v (concrete inputs).

    The daemon of sandboxes:
    - oad-core: Core.v (names, records, specifications, paths).
    - crates/oad/src/network.rs: Cidr.v (addresses), Nft.v (policies and the
      firewall), Envoy.v (the configuration of Envoy, the DNS proxy), Network.v
      (allocation and the manager's state machine).
    - crates/oad/src/registry.rs: Registry.v (records in memory and on disk),
      Locks.v (a lock per sandbox and per snapshot).
    - crates/oad/src/snapshots.rs: Snapshots.v.
    - oad-runtime: Runtime.v (arguments and sequences of runsc calls).
    - oad-api: Api.v.
    - oad-oci: OciBase.v, Extract.v (layers), Oci.v (references, hosts, names,
      configuration), OciPull.v (registries, caches, bundles).
    - crates/oad/src/background_exec.rs: ExecSession.v; the event stream of
      main.rs: ExecStream.v.
    - crates/oad/src/config.rs: DaemonConfig.v; observability.rs: Observability.v.
    - crates/oad/src/main.rs: App.v (errors, authentication, request checks),
      Lifecycle.v (create, fork, suspend, resume, snapshot, delete, startup and
      shutdown), LogTail.v, Handlers.v (the remaining handlers and the routes),
      Startup.v ([main], over all of these).
    - crates/oad-cli: OadClient.v (client.rs), Oadctl.v (main.rs).

    The runner, crates/omniagent-cli:
    - The traffic: Record.v (record.rs), Sse.v (sse.rs), Review.v (review.rs),
      Proxy.v (proxy.rs), which uses these; Atif.v (atif.rs) and AgentLog.v
      (agent_log.rs) make trajectories.
    - The agents: Executor.v (executor/), Terminal.v (agent.rs, cast.rs), Codex.v
      (codex/), Approvals.v (what codex asks leave for,
      at the gate of Review.v), Worker.v (worker.rs, the interface to both agents).
    - The host: Files.v (files.rs, git.rs), Workspace.v (workspace.rs), Config.v
      (config.rs, session.rs).
    - The connection: Client.v (client/mod.rs, protocol.rs), Conn.v (one channel of
      client/conn.rs, with the server's channel in apps/), Socket.v (all channels
      of it), Advertise.v (what the daemon tells of itself over them).
    - Sessions, client/supervisor.rs: Supervisor.v (from the request to the
      agent), Bridges.v (commands of the server), Reaper.v (the end, with
      upload.rs).
    - The daemon: Control.v (control.rs, daemon.rs), Cli.v (main.rs, service.rs),
      Launchd.v (service.rs on macOS).

    The properties of a file X are in X itself or in XInv; Checkpoint.v and
    Sequence.v hold those of Runtime.v, ExtractBudget.v one of Extract.v, ReviewAny.v
    what Review.v keeps when ids of items meet.  What
    one component promises another is a class or a record with laws: [Executor]
    (agents to the supervisor), [SupervisorOps] (the supervisor to the daemon),
    [AgentWorker] (an agent to the bridges), [GitHost] (git to workspaces).

    ** What is proved

    Where a claim needs a condition that the code does not secure, the theorem has
    it and an example beside it shows what happens without; both are named here.

    - Isolation: the paths of sandboxes and snapshots never meet
      ([Core.layout_isolation]); subnets, interfaces and state files stay apart
      through every operation, as long as the state files can be listed
      ([NetworkInv.networks_stay_apart], [unlisted_directory_shares_subnet]); the
      generated rules enforce the policy on forwarded traffic, and no value breaks
      out of the ruleset's syntax (Nft.v); the exec sessions of a sandbox are
      neither changed by requests about another nor make a difference to them
      ([HandlersInv.exec_sessions_apart]).
    - The life of a sandbox: every handler, whatever fails in it, refines a
      small machine on the status of one sandbox
      ([LifecycleInv.handlers_refine_lifecycle]); the errors of handlers map to the
      documented statuses and to five that are missing there
      ([Handlers.serve_answers], [HandlersInv.undocumented_answered]).
    - Durability: atomic writes, registry updates and checkpoint directories
      leave the old state or the new one after any error or crash (Os.v,
      Registry.v, Checkpoint.v); the order of runsc calls (Sequence.v);
      reservations never touch stored snapshots (Snapshots.v).
    - Concurrency: locks exclude and make progress (Locks.v); sessions number
      their events without gaps and streams deliver them in order (ExecSession.v,
      ExecStream.v); recorded exchanges get distinct numbers (Record.v).
    - Images: unpacking hostile layers writes inside the root file system, as long
      as the status of files can be read, and within its budget (ExtractInv.v,
      [unreadable_status_escapes]; ExtractBudget.v); a pulled image is built from
      what its digests say, the build itself being an argument there, requests go
      to remote hosts only (OciPullInv.v); names of images and caches (Oci.v).
    - Streams: reassembly never panics and gives back what was streamed
      (SseInv.v; of nested answers the last one's usage, [nested_usage_replaced]);
      the last lines of a log ([LogTail.log_tail_spec]).
    - Delivery: events reach the server's log or stay in the outbox, whatever
      breaks, from a server whose mark covers its log (ConnInv.v,
      [restart_loses_an_event]); no channel is forgotten between connections, and
      a session is registered again only while no reply was read
      ([Socket.channels_served], [registered_twice]); what a terminal prints
      reaches those who watch, in order and up to where they are
      ([Terminal.terminal_streamed], [final_output_lost]).
    - Recording: requests go to their provider with their secrets and on record
      without ([ProxyInv.secrets_not_recorded]), every answer an agent gets is on
      record and was approved where that is asked ([ProxyInv.answers_on_record],
      [ReviewInv.review_decides]), codex goes on only where the gate approved its
      call, also when ids of calls meet ([Approvals.approvals_answered],
      [approval_crosses]); trajectories are numbered, with fields where they may
      be, and results with their calls (Atif.v where the conversation answers its
      calls, [gemini_references]; AgentLog.v, in a build that does not check its
      arithmetic or where tokens fit, [claude_metrics_overflow]); spans match
      connections, and are errors where any flag is set
      ([Observability.connections_traced]).
    - Sessions: they run in a workspace whose repository the policy allows, after
      the setup script the configuration has ([Supervisor.sessions_confined],
      [existing_worktree_anywhere]), the console reads nothing outside the
      workspace ([Files.files_stay_inside]), their end loses nothing, in a build
      for release ([Reaper.session_finalized]), and a daemon waits for all of them
      where none is resumed while it is live ([Reaper.shutdown_waits],
      [resumed_is_lost]); replies find their requests, but for one made after the
      reader ended ([Codex.rpc_replies], [late_request_waits];
      [Control.daemon_answers]).
    - The command lines: attaching mirrors the process ([Oadctl.attach_mirrors]);
      uninstalling removes what was confirmed ([Cli.uninstall_guarded]); settings
      are kept ([Config.config_updates], [Cli.setup_saves],
      [DaemonConfig.load_config_spec], [Startup.boot_servable]).

    ** Fuel and bounds

    Recursion in the code is structural, or bounded by what it consumes: the
    fuel of [trim_start] is the length of the string, of [show_dec] the number
    of bits, of redirects [MAX_REGISTRY_REDIRECTS] ([OciPullInv.send_fuel_enough]
    shows that more is never used), of resolving a path its links
    ([Tree.MAX_LINKS], the kernel's limit).  Streams and waiting loops are step
    relations; that they end is a theorem about their steps
    ([ExecStream.stream_catches_up], [Locks.locks_progress],
    [Terminal.terminal_streamed], [Reaper.shutdown_waits]).  Memory is
    unbounded: the findings name the places where input decides its use.

    ** Not modelled

    - The Elixir applications (src/apps/), their JavaScript, the deployment and
      build files, and the tests: another language, or no part of the running
      program.  Of the server, only the channel that [Conn] talks to is modelled.
    - The declarations of command-line arguments (clap derives) and of the OpenAPI
      document (utoipa derives), the set-up of tracing, the signal handlers, and
      the build scripts: declarations for a library, without a behaviour of their
      own in the source.
    - HTTP servers and clients, WebSockets, gRPC, TLS, terminals and processes of
      the operating system: libraries.  Their promises are named where they are
      used.
    - Of oad-runtime, the copying of bytes between an attached process and its
      channels, which is the runtime's (tokio).
    - What axum's extractors answer to a request they reject.
    - Time: timeouts, intervals and retries appear as nondeterministic steps or
      environment answers; what waits for how long is not stated. *)

From stdpp Require Export base tactics option list list_numbers numbers strings gmap sets fin_maps.
From Stdlib Require Export ZArith Lia Ascii.
From Corelib Require Export ssreflect.
#[global] Open Scope general_if_scope.

#[export] Set Default Goal Selector "!".

Declare Scope rust_scope.
Delimit Scope rust_scope with rust.

(** ** Results: Rust's [Result<A, E>] *)

Inductive result (E A : Type) : Type :=
| Ok (a : A)
| Err (e : E).
Arguments Ok {E A} a.
Arguments Err {E A} e.

Definition result_bind {E A B} (r : result E A) (k : A → result E B) : result E B :=
  match r with Ok a => k a | Err e => Err e end.

Definition result_map {E A B} (f : A → B) (r : result E A) : result E B :=
  match r with Ok a => Ok (f a) | Err e => Err e end.

(** [map_err] of the standard library. *)
Definition map_err {E F A} (f : E → F) (r : result E A) : result F A :=
  match r with Ok a => Ok a | Err e => Err (f e) end.

Definition ok_or {E A} (o : option A) (e : E) : result E A :=
  match o with Some a => Ok a | None => Err e end.

Definition is_ok {E A} (r : result E A) : bool :=
  match r with Ok _ => true | Err _ => false end.

Notation "x <-? e ;; k" := (result_bind e (λ x, k))
  (at level 100, e at next level, k at level 200, right associativity) : rust_scope.
Notation "e ?;; k" := (result_bind e (λ _, k))
  (at level 100, k at level 200, right associativity) : rust_scope.

#[global] Instance result_eq_dec {E A} `{EqDecision E, EqDecision A} : EqDecision (result E A).
Proof. solve_decision. Defined.

Lemma ok_inj {E A} (a b : A) : @Ok E A a = Ok b → a = b.
Proof. congruence. Qed.

Lemma result_bind_ok {E A B} (r : result E A) (k : A → result E B) b :
  result_bind r k = Ok b ↔ ∃ a, r = Ok a ∧ k a = Ok b.
Proof. destruct r; naive_solver. Qed.

Lemma result_bind_err {E A B} (r : result E A) (k : A → result E B) e :
  result_bind r k = Err e ↔ r = Err e ∨ ∃ a, r = Ok a ∧ k a = Err e.
Proof. destruct r; naive_solver. Qed.

Lemma map_err_ok {E F A} (f : E → F) (r : result E A) a :
  map_err f r = Ok a ↔ r = Ok a.
Proof. destruct r; naive_solver. Qed.

(** ** Machine integers

    A value of a [w]-bit unsigned type is a [Z] in [[0, 2^w)]. *)

Definition u8_max : Z := 255.
Definition u16_max : Z := 65535.
Definition u32_max : Z := 4294967295.
Definition u64_max : Z := 18446744073709551615.

Definition wrap32 (n : Z) : Z := n mod 4294967296.
Definition wrap64 (n : Z) : Z := n mod 18446744073709551616.

Definition is_u8 (n : Z) : Prop := (0 ≤ n ≤ u8_max)%Z.
Definition is_u16 (n : Z) : Prop := (0 ≤ n ≤ u16_max)%Z.
Definition is_u32 (n : Z) : Prop := (0 ≤ n ≤ u32_max)%Z.
Definition is_u64 (n : Z) : Prop := (0 ≤ n ≤ u64_max)%Z.

Definition saturating_add64 (a b : Z) : Z := Z.min u64_max (a + b).

Ltac unfold_widths :=
  unfold is_u8, is_u16, is_u32, is_u64, wrap32, wrap64, u8_max, u16_max, u32_max, u64_max in *.

(** [width_lia]: linear arithmetic after exposing the widths. *)
Ltac width_lia := unfold_widths; lia.

(** [div_lia]: linear arithmetic with divisions by constants. *)
Ltac div_lia := Z.to_euclidean_division_equations; lia.

(** ** Lists *)

(** [iter().find_map]: the first [Some]. *)
Fixpoint find_map {A B} (f : A → option B) (l : list A) : option B :=
  match l with
  | [] => None
  | x :: l => match f x with Some y => Some y | None => find_map f l end
  end.

(** [iter().find]: the first element that satisfies the predicate. *)
Fixpoint find_first {A} (p : A → bool) (l : list A) : option A :=
  match l with
  | [] => None
  | x :: l => if p x then Some x else find_first p l
  end.

(** [(lo..lo+n).find_map(f)]: the range is halved, so that a range of [2^32]
    elements is searched without being built; elements are tried in order. *)
Fixpoint search {A} (p : positive) (f : Z → option A) (lo : Z) : option A :=
  match p with
  | xH => f lo
  | xO q => match search q f lo with
      | Some x => Some x
      | None => search q f (lo + Zpos q)
      end
  | xI q => match f lo with
      | Some x => Some x
      | None => match search q f (lo + 1) with
          | Some x => Some x
          | None => search q f (lo + 1 + Zpos q)
          end
      end
  end.

Definition find_range {A} (f : Z → option A) (lo n : Z) : option A :=
  match n with Zpos p => search p f lo | _ => None end.

(** A loop that fails at the first error, as [for x in l { f(x)?; }] does. *)
Fixpoint for_each {E A} (f : A → result E unit) (l : list A) : result E unit :=
  match l with
  | [] => Ok tt
  | x :: l => (f x ?;; for_each f l)%rust
  end.

(** [for x in l { out.extend(f(x)?); }]. *)
Fixpoint flat_map_result {E A B} (f : A → result E (list B)) (l : list A) : result E (list B) :=
  match l with
  | [] => Ok []
  | x :: l => (a <-? f x ;; b <-? flat_map_result f l ;; Ok (a ++ b)%list)%rust
  end.

Lemma flat_map_result_ok {E A B} (f : A → result E (list B)) (g : A → list B) (l : list A) :
  Forall (λ x, f x = Ok (g x)) l → flat_map_result f l = Ok (flat_map g l).
Proof. induction 1 as [|x l Hx _ IH]; simpl; [done|]. by rewrite Hx IH. Qed.

Lemma flat_map_singleton {A B} (f : A → B) (l : list A) : flat_map (λ x, [f x]) l = map f l.
Proof. induction l; simpl; congruence. Qed.

Lemma for_each_ok {E A} (f : A → result E unit) (l : list A) :
  for_each f l = Ok tt ↔ Forall (λ x, f x = Ok tt) l.
Proof.
  induction l as [|x l IH]; simpl; [by split|].
  rewrite result_bind_ok Forall_cons -IH. split.
  - by intros ([] & ? & ?).
  - intros [??]. by exists tt.
Qed.

(** Which errors a fallible computation can end with. *)
Definition errs {E A} (P : E → Prop) (r : result E A) : Prop := match r with Ok _ => True | Err e => P e end.

Lemma errs_bind {E A B} (P : E → Prop) (r : result E A) (k : A → result E B) :
  errs P r → (∀ a, errs P (k a)) → errs P (result_bind r k).
Proof. destruct r; simpl; auto. Qed.

Lemma errs_for_each {E A} (P : E → Prop) (f : A → result E unit) (l : list A) :
  (∀ x, errs P (f x)) → errs P (for_each f l).
Proof. intros Hf. induction l as [|x l IH]; simpl; [done|]. apply errs_bind; [apply Hf|done]. Qed.

Lemma errs_ok_or {E A} (P : E → Prop) (o : option A) e : P e → errs P (ok_or o e).
Proof. by destruct o. Qed.

Lemma errs_map_err {E F A} (P : F → Prop) (f : E → F) (r : result E A) : errs (λ e, P (f e)) r → errs P (map_err f r).
Proof. by destruct r. Qed.

Lemma find_first_some {A} (p : A → bool) (l : list A) x :
  find_first p l = Some x → x ∈ l ∧ p x = true.
Proof.
  induction l as [|y l IH]; simpl; [done|].
  destruct (p y) eqn:E; intros H; simplify_eq; [split; [left|done]|].
  destruct (IH H). split; [by right|done].
Qed.

Lemma find_first_none {A} (p : A → bool) (l : list A) :
  find_first p l = None ↔ Forall (λ x, p x = false) l.
Proof.
  induction l as [|y l IH]; simpl; [split; [constructor|done]|].
  rewrite Forall_cons -IH. destruct (p y); naive_solver.
Qed.

Lemma find_first_is_some {A} (p : A → bool) (l : list A) x :
  x ∈ l → p x = true → is_Some (find_first p l).
Proof.
  intros Hx Hp. destruct (find_first p l) eqn:E; [done|].
  apply find_first_none in E. rewrite Forall_forall in E.
  by specialize (E x Hx); rewrite Hp in E.
Qed.

(** [search] finds the first hit of the range, and fails only if there is none. *)
Lemma search_spec {A} (f : Z → option A) (p : positive) (lo : Z) :
  match search p f lo with
  | Some x => ∃ i, (lo ≤ i < lo + Zpos p)%Z ∧ f i = Some x ∧ ∀ j, (lo ≤ j < i)%Z → f j = None
  | None => ∀ i, (lo ≤ i < lo + Zpos p)%Z → f i = None
  end.
Proof.
  revert lo. induction p as [p IH|p IH|]; intros lo; simpl.
  - destruct (f lo) as [y|] eqn:E0; [exists lo; split_and!; [lia..|done|lia]|].
    pose proof (IH (lo + 1)%Z) as IH1. pose proof (IH (lo + 1 + Zpos p)%Z) as IH2.
    destruct (search p f (lo + 1)).
    + destruct IH1 as (i & ? & ? & Hn). exists i. split_and!; [lia..|done|].
      intros j ?. destruct (decide (j = lo)) as [->|]; [done|]. apply Hn; lia.
    + destruct (search p f (lo + 1 + Zpos p)).
      * destruct IH2 as (i & ? & ? & Hn). exists i. split_and!; [lia..|done|].
        intros j ?. destruct (decide (j = lo)) as [->|]; [done|].
        destruct (decide (j < lo + 1 + Zpos p)%Z); [apply IH1|apply Hn]; lia.
      * intros i ?. destruct (decide (i = lo)) as [->|]; [done|].
        destruct (decide (i < lo + 1 + Zpos p)%Z); [apply IH1|apply IH2]; lia.
  - pose proof (IH lo) as IH1. pose proof (IH (lo + Zpos p)%Z) as IH2.
    destruct (search p f lo).
    + destruct IH1 as (i & ? & ? & Hn). exists i. split_and!; [lia..|done|done].
    + destruct (search p f (lo + Zpos p)).
      * destruct IH2 as (i & ? & ? & Hn). exists i. split_and!; [lia..|done|].
        intros j ?. destruct (decide (j < lo + Zpos p)%Z); [apply IH1|apply Hn]; lia.
      * intros i ?. destruct (decide (i < lo + Zpos p)%Z); [apply IH1|apply IH2]; lia.
  - destruct (f lo) eqn:E; [exists lo; split_and!; [lia..|done|lia]|].
    intros i ?. by replace i with lo by lia.
Qed.

Lemma find_range_some {A} (f : Z → option A) lo n x :
  find_range f lo n = Some x →
  ∃ i, (lo ≤ i < lo + n)%Z ∧ f i = Some x ∧ ∀ j, (lo ≤ j < i)%Z → f j = None.
Proof.
  destruct n as [|p|p]; simpl; try done. intros E.
  pose proof (search_spec f p lo) as H. by rewrite E in H.
Qed.

Lemma find_range_none {A} (f : Z → option A) lo n :
  find_range f lo n = None → ∀ i, (lo ≤ i < lo + n)%Z → f i = None.
Proof.
  destruct n as [|p|p]; simpl; try lia. intros E.
  pose proof (search_spec f p lo) as H. by rewrite E in H.
Qed.

(** ** Automation *)

(** Splits a chain of [?]s that returned [Ok]. *)
Ltac inv_ok :=
  repeat match goal with
  | H : result_bind ?r _ = Ok _ |- _ =>
      apply result_bind_ok in H; let a := fresh "a" in destruct H as (a & ? & H)
  | H : map_err _ _ = Ok _ |- _ => apply map_err_ok in H
  | H : Ok _ = Ok _ |- _ => apply ok_inj in H; try subst
  | H : Err _ = Ok _ |- _ => discriminate H
  | H : Ok _ = Err _ |- _ => discriminate H
  end.

(** Splits an [option] bind chain that returned [Some]. *)
Ltac inv_some H :=
  repeat (
    let x := fresh "x" in let E := fresh "E" in
    match type of H with
    | mbind _ ?o = Some _ =>
        destruct o as [x|] eqn:E; [cbn [mbind option_bind] in H|discriminate H];
        try match type of x with prod _ _ => destruct x; cbn beta iota in H end
    end).

Create HintDb rust.
#[export] Hint Resolve find_first_some : rust.
#[export] Hint Rewrite @result_bind_ok @result_bind_err @for_each_ok : rust.

Lemma existsb_false {A} (f : A → bool) l : existsb f l = false ↔ ∀ x, x ∈ l → f x = false.
Proof.
  induction l as [|y l IH]; simpl; [split; [intros _ x Hx; by apply not_elem_of_nil in Hx|done]|].
  rewrite orb_false_iff IH. split; [intros [Hy Hl] x [->|Hx]%elem_of_cons; auto|].
  intros H. split; [apply H; constructor|intros x Hx; apply H; by constructor].
Qed.
