(* ===== verification/Str.v ===== *)
(** * Rust strings, and the parsers of the standard library the program uses

    A Rust [str] is its UTF-8 byte sequence, a Stdlib [string] here; [len()] is
    therefore [String.length].  The functions below are the ones of [core] and
    [std] that src/ calls: character iteration, trimming, splitting, integer
    and address parsing and formatting. *)
From stdpp Require Import sorting.
From S2P Require Import Prelude.

#[global] Open Scope string_scope.
#[global] Arguments String.append !s1 s2 : simpl nomatch.
#[global] Arguments ascii_dec : simpl never.
#[global] Arguments Ascii.eqb : simpl never.
Notation "s1 ++ s2" := (String.append s1 s2) : string_scope.

(** ** Bytes and characters *)

Definition code (a : ascii) : Z := Z.of_N (N_of_ascii a).

Definition chr (n : Z) : ascii := ascii_of_N (Z.to_N n).

Definition nl : string := String "010" EmptyString.
Definition crlf : string := String "013" nl.
Definition dquote : string := String "034" EmptyString.

Fixpoint str_forallb (p : ascii → bool) (s : string) : bool :=
  match s with
  | EmptyString => true
  | String a s => p a && str_forallb p s
  end.

Definition is_digit (a : ascii) : bool := (48 <=? code a)%Z && (code a <=? 57)%Z.

(** [char::is_ascii_alphanumeric], on the code point. *)
Definition is_ascii_alphanumeric (c : Z) : bool :=
  ((48 <=? c) && (c <=? 57) || (65 <=? c) && (c <=? 90) || (97 <=? c) && (c <=? 122))%Z.

(** A decoded scalar of a multi-byte sequence.  An overlong sequence cannot
    occur in a [str]; it decodes to U+FFFD. *)
Definition multi (v : Z) : Z := if (v <? 128)%Z then 65533%Z else v.

Definition cont (b : ascii) : Z := Z.land (code b) 63.

(** [str::chars]. *)
Fixpoint chars (s : string) : list Z :=
  match s with
  | EmptyString => []
  | String a s1 =>
      let c := code a in
      if (c <? 128)%Z then c :: chars s1
      else match s1 with
        | EmptyString => [65533%Z]
        | String b s2 =>
            if (c <? 224)%Z then multi (Z.shiftl (Z.land c 31) 6 + cont b) :: chars s2
            else match s2 with
              | EmptyString => [65533%Z]
              | String d s3 =>
                  if (c <? 240)%Z
                  then multi (Z.shiftl (Z.land c 15) 12 + Z.shiftl (cont b) 6 + cont d) :: chars s3
                  else match s3 with
                    | EmptyString => [65533%Z]
                    | String e s4 =>
                        multi (Z.shiftl (Z.land c 7) 18 + Z.shiftl (cont b) 12
                               + Z.shiftl (cont d) 6 + cont e) :: chars s4
                    end
              end
        end
  end.

(** ** Searching and splitting *)

Fixpoint strip_prefix (p s : string) : option string :=
  match p with
  | EmptyString => Some s
  | String a p => match s with
      | EmptyString => None
      | String b s => if ascii_dec a b then strip_prefix p s else None
      end
  end.

Definition starts_with (p s : string) : bool :=
  match strip_prefix p s with Some _ => true | None => false end.

Fixpoint str_rev_app (s acc : string) : string :=
  match s with EmptyString => acc | String a s => str_rev_app s (String a acc) end.

Definition str_rev (s : string) : string := str_rev_app s "".

Definition strip_suffix (p s : string) : option string :=
  str_rev <$> strip_prefix (str_rev p) (str_rev s).

Definition ends_with (p s : string) : bool :=
  match strip_suffix p s with Some _ => true | None => false end.

(** [str::contains] of a substring. *)
Fixpoint str_contains (p s : string) : bool :=
  starts_with p s || match s with EmptyString => false | String _ s => str_contains p s end.

(** [str::split_once] at an ASCII character. *)
Fixpoint split_once (c : ascii) (s : string) : option (string * string) :=
  match s with
  | EmptyString => None
  | String a s =>
      if ascii_dec a c then Some ("", s)
      else '(l, r) ← split_once c s; Some (String a l, r)
  end.

(** [str::rfind] and [str::rsplit_once] of an ASCII character. *)
Fixpoint rfind (c : ascii) (s : string) : option nat :=
  match s with
  | EmptyString => None
  | String a s =>
      match rfind c s with
      | Some n => Some (S n)
      | None => if ascii_dec a c then Some 0 else None
      end
  end.

Fixpoint str_take (n : nat) (s : string) : string :=
  match n, s with S n, String a s => String a (str_take n s) | _, _ => "" end.
Fixpoint str_drop (n : nat) (s : string) : string :=
  match n, s with S n, String _ s => str_drop n s | _, _ => s end.

Definition rsplit_once (c : ascii) (s : string) : option (string * string) :=
  (λ n, (str_take n s, str_drop (S n) s)) <$> rfind c s.

(** [str::split] at an ASCII character. *)
Fixpoint split_char (c : ascii) (s : string) : list string :=
  match s with
  | EmptyString => [""]
  | String a s =>
      if ascii_dec a c then "" :: split_char c s
      else match split_char c s with
        | [] => [String a ""]
        | l :: ls => String a l :: ls
        end
  end.

(** [str::lines]: split at line feeds, a final empty piece dropped, and one
    carriage return before the line feed dropped. *)
Definition drop_cr (s : string) : string :=
  match strip_suffix (String "013" "") s with Some s => s | None => s end.

Fixpoint lines_go (l : list string) : list string :=
  match l with
  | [] => []
  | [last] => if decide (last = "") then [] else [last]
  | x :: l => drop_cr x :: lines_go l
  end.

Definition lines (s : string) : list string := lines_go (split_char "010" s).

(** [slice::join]. *)
Fixpoint str_join (sep : string) (l : list string) : string :=
  match l with
  | [] => ""
  | [x] => x
  | x :: l => x ++ sep ++ str_join sep l
  end.

Fixpoint str_concat (l : list string) : string :=
  match l with [] => "" | x :: l => x ++ str_concat l end.

(** [char::is_whitespace]: the UTF-8 encodings of the White_Space characters. *)
Definition bytes_str (l : list Z) : string :=
  foldr (λ n s, String (chr n) s) "" l.

(** [Path::join] of a relative name, as text. *)
Definition join_text (d name : string) : string :=
  if decide (d = "") then name else if ends_with "/" d then (d ++ name)%string else (d ++ "/" ++ name)%string.

Fixpoint str_map (f : ascii → ascii) (s : string) : string :=
  match s with EmptyString => EmptyString | String c s => String (f c) (str_map f s) end.

Definition to_ascii_lowercase : string → string :=
  str_map (λ a, if (65 <=? code a)%Z && (code a <=? 90)%Z then chr (code a + 32) else a).

(** [split_once] at a string. *)
Fixpoint split_once_str (p s : string) : option (string * string) :=
  match strip_prefix p s with
  | Some rest => Some (EmptyString, rest)
  | None => match s with
      | EmptyString => None
      | String c s => '(a, b) ← split_once_str p s; Some (String c a, b)
      end
  end.

Definition whitespace : list string :=
  map bytes_str
    ([[9]; [10]; [11]; [12]; [13]; [32]; [194; 133]; [194; 160]; [225; 154; 128];
      [226; 128; 168]; [226; 128; 169]; [226; 128; 175]; [226; 129; 159]; [227; 128; 128]]
     ++ map (λ k, [226; 128; 128 + k])%Z [0; 1; 2; 3; 4; 5; 6; 7; 8; 9; 10])%list%Z.

Fixpoint trim_start_with (ws : list string) (fuel : nat) (s : string) : string :=
  match fuel with
  | O => s
  | S fuel => match find_map (λ w, strip_prefix w s) ws with
      | Some s => trim_start_with ws fuel s
      | None => s
      end
  end.

Definition trim_start (s : string) : string :=
  trim_start_with whitespace (String.length s) s.

Definition trim_end (s : string) : string :=
  str_rev (trim_start_with (map str_rev whitespace) (String.length s) (str_rev s)).

(** [str::trim]. *)
Definition trim (s : string) : string := trim_end (trim_start s).

(** [trim_matches] of one ASCII character. *)
Fixpoint trim_start_char (c : ascii) (s : string) : string :=
  match s with
  | EmptyString => EmptyString
  | String a s' => if ascii_dec a c then trim_start_char c s' else s
  end.

Definition trim_end_char (c : ascii) (s : string) : string := str_rev (trim_start_char c (str_rev s)).

Definition trim_matches_char (c : ascii) (s : string) : string :=
  str_rev (trim_start_char c (str_rev (trim_start_char c s))).

(** ** Formatting of integers *)

Definition digit (n : Z) : ascii := chr (48 + n).

Fixpoint dec_go (fuel : nat) (n : Z) (acc : string) : string :=
  match fuel with
  | O => acc
  | S fuel =>
      let acc := String (digit (n mod 10)) acc in
      if (n <? 10)%Z then acc else dec_go fuel (n / 10) acc
  end.

(** [{}] of an unsigned integer.  [log2 n + 1] bounds the number of digits. *)
Definition show_dec (n : Z) : string := dec_go (S (Z.to_nat (Z.log2 n))) n "".

Definition hex_digit (n : Z) : ascii := chr (if n <? 10 then 48 + n else 87 + n)%Z.

Fixpoint hex_pad_go (width : nat) (n : Z) (acc : string) : string :=
  match width with
  | O => acc
  | S width => hex_pad_go width (n / 16) (String (hex_digit (n mod 16)) acc)
  end.

(** [{:0wx}] of an integer below [16^w]. *)
Definition show_hex_pad (width : nat) (n : Z) : string := hex_pad_go width n "".

(** ** Integer parsing: [u8::from_str], [u16::from_str], ... *)

Fixpoint parse_dec (max acc : Z) (s : string) : option Z :=
  match s with
  | EmptyString => Some acc
  | String a s =>
      if is_digit a then
        let acc := (acc * 10 + (code a - 48))%Z in
        if (max <? acc)%Z then None else parse_dec max acc s
      else None
  end.

Definition parse_uint (max : Z) (s : string) : option Z :=
  match s with
  | EmptyString => None
  | String a s' =>
      if ascii_dec a "+" then
        match s' with EmptyString => None | _ => parse_dec max 0 s' end
      else parse_dec max 0 s
  end.

(** ** [core::net::parser] *)

Definition to_digit (radix : Z) (a : ascii) : option Z :=
  let c := code a in
  let v := if ((48 <=? c) && (c <=? 57))%Z then (c - 48)%Z
           else if ((97 <=? c) && (c <=? 122))%Z then (c - 87)%Z
           else if ((65 <=? c) && (c <=? 90))%Z then (c - 55)%Z
           else radix in
  if (v <? radix)%Z then Some v else None.

Definition exceeds_nat (limit : option nat) (n : nat) : bool :=
  match limit with Some m => (m <? n)%nat | None => false end.

Definition exceeds (limit : option Z) (n : Z) : bool :=
  match limit with Some m => (m <? n)%Z | None => false end.

Fixpoint read_digits (radix : Z) (max_digits : option nat) (checked : option Z)
    (res : Z) (count : nat) (s : string) : option (Z * nat * string) :=
  match s with
  | EmptyString => Some (res, count, s)
  | String a s' => match to_digit radix a with
      | None => Some (res, count, s)
      | Some d =>
          let res := (res * radix + d)%Z in
          if exceeds_nat max_digits (S count) || exceeds checked res then None
          else read_digits radix max_digits checked res (S count) s'
      end
  end.

Definition read_number (radix : Z) (max_digits : option nat) (allow_zero_prefix : bool)
    (max : Z) (s : string) : option (Z * string) :=
  let checked := match max_digits with Some _ => None | None => Some max end in
  '(v, count, rest) ← read_digits radix max_digits checked 0 0 s;
  if Nat.eqb count 0 then None
  else if negb allow_zero_prefix && starts_with "0" s && (1 <? count)%nat then None
  else if (max <? v)%Z then None else Some (v, rest).

Definition read_given_char (c : ascii) (s : string) : option string :=
  strip_prefix (String c "") s.

(** An IPv4 address is its [u32] value. *)
Definition of_octets (a b c d : Z) : Z := (a * 16777216 + b * 65536 + c * 256 + d)%Z.

Definition read_octet : string → option (Z * string) := read_number 10 (Some 3) false u8_max.

Definition read_ipv4_addr (s : string) : option (Z * string) :=
  '(a, s) ← read_octet s;
  s ← read_given_char "." s; '(b, s) ← read_octet s;
  s ← read_given_char "." s; '(c, s) ← read_octet s;
  s ← read_given_char "." s; '(d, s) ← read_octet s;
  Some (of_octets a b c d, s).

(** [Ipv4Addr::from_str]: at most 15 bytes, all of them consumed. *)
Definition parse_ipv4 (s : string) : option Z :=
  if (15 <? String.length s)%nat then None
  else '(ip, rest) ← read_ipv4_addr s; if decide (rest = "") then Some ip else None.

(** [{}] of an [Ipv4Addr]. *)
Definition show_ipv4 (ip : Z) : string :=
  show_dec (ip / 16777216) ++ "." ++ show_dec (ip / 65536 mod 256) ++ "." ++
  show_dec (ip / 256 mod 256) ++ "." ++ show_dec (ip mod 256).

(** [read_groups] of the IPv6 parser: up to [limit - i] more groups, then
    whether a trailing IPv4 address was read. *)
Fixpoint read_groups (n : nat) (i limit : nat) (s : string) : list Z * bool * string :=
  match n with
  | O => ([], false, s)
  | S n =>
      let sep := λ s, match i with O => Some s | _ => read_given_char ":" s end in
      let group := match s1 ← sep s; read_number 16 (Some 4) true u16_max s1 with
        | Some (g, s2) => let '(gs, v4, rest) := read_groups n (S i) limit s2 in (g :: gs, v4, rest)
        | None => ([], false, s)
        end in
      if (S i <? limit)%nat then
        match s1 ← sep s; read_ipv4_addr s1 with
        | Some (ip, s2) => ([(ip / 65536)%Z; (ip mod 65536)%Z], true, s2)
        | None => group
        end
      else group
  end.

Definition read_ipv6_addr (s : string) : option (list Z * string) :=
  let '(head, v4, rest) := read_groups 8 0 8 s in
  if Nat.eqb (length head) 8 then Some (head, rest)
  else if v4 then None
  else
    rest ← read_given_char ":" rest; rest ← read_given_char ":" rest;
    let limit := (8 - (length head + 1))%nat in
    let '(tail, _, rest) := read_groups limit 0 limit rest in
    Some ((head ++ replicate (8 - length head - length tail) 0%Z ++ tail)%list, rest).

Inductive SocketAddr : Type :=
| SocketAddrV4 (ip port : Z)
| SocketAddrV6 (groups : list Z) (scope port : Z).

Definition read_port (s : string) : option (Z * string) :=
  s ← read_given_char ":" s; read_number 10 None true u16_max s.

Definition read_socket_addr_v4 (s : string) : option (SocketAddr * string) :=
  '(ip, s) ← read_ipv4_addr s; '(port, s) ← read_port s; Some (SocketAddrV4 ip port, s).

Definition read_scope_id (s : string) : option (Z * string) :=
  s ← read_given_char "%" s; read_number 10 None true u32_max s.

Definition read_socket_addr_v6 (s : string) : option (SocketAddr * string) :=
  s ← read_given_char "[" s; '(groups, s) ← read_ipv6_addr s;
  let '(scope, s) := default (0%Z, s) (read_scope_id s) in
  s ← read_given_char "]" s; '(port, s) ← read_port s;
  Some (SocketAddrV6 groups scope port, s).

(** [SocketAddr::from_str]. *)
Definition parse_socket_addr (s : string) : option SocketAddr :=
  '(addr, rest) ← match read_socket_addr_v4 s with Some r => Some r | None => read_socket_addr_v6 s end;
  if decide (rest = "") then Some addr else None.

Definition port_of (a : SocketAddr) : Z :=
  match a with SocketAddrV4 _ p => p | SocketAddrV6 _ _ p => p end.

Example parse_socket_addr_v4 :
  port_of <$> parse_socket_addr "0.0.0.0:15001" = Some 15001%Z.
Proof. vm_compute. reflexivity. Qed.

Example parse_socket_addr_v6 :
  parse_socket_addr "[::1%2]:8080" = Some (SocketAddrV6 [0; 0; 0; 0; 0; 0; 0; 1]%Z 2 8080).
Proof. vm_compute. reflexivity. Qed.

Example parse_ipv4_octal : parse_ipv4 "10.0.0.01" = None.
Proof. vm_compute. reflexivity. Qed.

Example trim_examples : trim "  a b	" = "a b" ∧ lines ("a" ++ nl ++ "b" ++ nl) = ["a"; "b"].
Proof. vm_compute. split; reflexivity. Qed.

(** The entries of a [BTreeMap<String, _>], in its order. *)
Definition key_le {V} (a b : string * V) : Prop := String.leb a.1 b.1 = true.

#[global] Instance key_le_dec {V} : RelDecision (@key_le V).
Proof. intros a b. unfold key_le. apply _. Defined.

Definition btree_entries {V} (m : gmap string V) : list (string * V) := merge_sort key_le (map_to_list m).
Definition btree_values {V} (m : gmap string V) : list V := map snd (btree_entries m).

(** ** Lemmas on strings *)

Lemma app_assoc_s (a b c : string) : (a ++ b) ++ c = a ++ b ++ c.
Proof. induction a; simpl; congruence. Qed.

Lemma app_nil_r_s (a : string) : a ++ "" = a.
Proof. induction a; simpl; congruence. Qed.

Lemma length_app_s (a b : string) :
  String.length (a ++ b) = (String.length a + String.length b)%nat.
Proof. induction a; simpl; congruence. Qed.

Lemma app_inj_l_s (a b c : string) : a ++ b = a ++ c → b = c.
Proof. induction a; simpl; [done|]. intros H. injection H. auto. Qed.

Lemma str_forallb_app p (a b : string) :
  str_forallb p (a ++ b) = str_forallb p a && str_forallb p b.
Proof. induction a as [|x a IH]; simpl; [done|]. by rewrite IH andb_assoc. Qed.

Lemma str_forallb_impl (p q : ascii → bool) (s : string) :
  (∀ a, p a = true → q a = true) → str_forallb p s = true → str_forallb q s = true.
Proof. intros Hpq. induction s; simpl; [done|]. rewrite !andb_true_iff. naive_solver. Qed.

Lemma strip_prefix_app (p s : string) : strip_prefix p (p ++ s) = Some s.
Proof. induction p as [|a p IH]; simpl; [done|]. by destruct (ascii_dec a a). Qed.

Lemma strip_prefix_some (p s r : string) : strip_prefix p s = Some r ↔ s = p ++ r.
Proof.
  split; [|intros ->; apply strip_prefix_app].
  revert s. induction p as [|a p IH]; intros s; simpl; [congruence|].
  destruct s as [|b s]; [done|]. destruct (ascii_dec a b) as [->|]; [|done].
  intros H. by rewrite (IH s H).
Qed.

Definition not_char (c a : ascii) : bool := negb (Ascii.eqb a c).

Lemma not_char_neq c a : not_char c a = true ↔ a ≠ c.
Proof.
  unfold not_char. destruct (Ascii.eqb_spec a c); simpl; split; done.
Qed.

Lemma split_char_none (c : ascii) (s : string) :
  str_forallb (not_char c) s = true → split_char c s = [s].
Proof.
  induction s as [|a s IH]; simpl; [done|].
  rewrite andb_true_iff not_char_neq. intros [Hne Hs].
  rewrite IH; [done|]. by destruct (ascii_dec a c).
Qed.

Lemma split_char_app (c : ascii) (s r : string) :
  str_forallb (not_char c) s = true →
  split_char c (s ++ String c r) = s :: split_char c r.
Proof.
  induction s as [|a s IH]; simpl.
  - intros _. by destruct (ascii_dec c c).
  - rewrite andb_true_iff not_char_neq. intros [Hne Hs].
    rewrite IH; [done|]. by destruct (ascii_dec a c).
Qed.

Lemma split_once_app (c : ascii) (l r : string) :
  str_forallb (not_char c) l = true → split_once c (l ++ String c r) = Some (l, r).
Proof.
  induction l as [|a l IH]; simpl.
  - intros _. by destruct (ascii_dec c c).
  - rewrite andb_true_iff not_char_neq. intros [Hne Hs].
    rewrite IH; [done|]. by destruct (ascii_dec a c).
Qed.

Lemma split_once_some (c : ascii) (s l r : string) :
  split_once c s = Some (l, r) → s = l ++ String c r ∧ str_forallb (not_char c) l = true.
Proof.
  revert l. induction s as [|a s IH]; intros l; simpl; [done|].
  destruct (ascii_dec a c) as [->|Hne]; [intros [= <- <-]; done|].
  destruct (split_once c s) as [[l' r']|] eqn:E; [|done].
  intros [= <- <-]. destruct (IH l' eq_refl) as [-> Hl]. simpl.
  by rewrite Hl andb_true_r not_char_neq.
Qed.

(** A character test that only accepts ASCII can be read byte by byte. *)
Lemma multi_ge v : (128 ≤ multi v)%Z.
Proof. unfold multi. destruct (v <? 128)%Z eqn:E; lia. Qed.

Lemma chars_forallb (p : Z → bool) (s : string) :
  (∀ c, p c = true → (c < 128)%Z) →
  forallb p (chars s) = str_forallb (λ a, p (code a)) s.
Proof.
  intros Hp. assert (Hp' : ∀ c, (128 ≤ c)%Z → p c = false).
  { intros c Hc. destruct (p c) eqn:E; [|done]. apply Hp in E. lia. }
  induction s as [|a s IH]; simpl; [done|].
  destruct (Z.ltb_spec (code a) 128) as [Hlt|Hge].
  { simpl. by rewrite IH. }
  rewrite (Hp' (code a)) //=.
  destruct s as [|b s]; simpl; [by rewrite Hp'|].
  destruct (code a <? 224)%Z; simpl; [by rewrite Hp'; [apply multi_ge|]|].
  destruct s as [|d s]; simpl; [by rewrite Hp'|].
  destruct (code a <? 240)%Z; simpl; [by rewrite Hp'; [apply multi_ge|]|].
  destruct s as [|e s]; simpl; [by rewrite Hp'|].
  by rewrite Hp'; [apply multi_ge|].
Qed.

Lemma chars_nil (s : string) : chars s = [] → s = "".
Proof. destruct s as [|a s]; simpl; [done|]. by repeat case_match. Qed.

#[export] Hint Rewrite app_assoc_s app_nil_r_s length_app_s str_forallb_app : strs.

(** ** Printed integers *)

Lemma code_chr n : (0 ≤ n < 256)%Z → code (chr n) = n.
Proof.
  intros Hn. unfold code, chr. rewrite N_ascii_embedding; [|lia].
  apply N2Z.inj_lt. rewrite Z2N.id; simpl; lia.
Qed.

Lemma is_digit_digit d : (0 ≤ d ≤ 9)%Z → is_digit (digit d) = true.
Proof. intros Hd. unfold is_digit, digit. rewrite code_chr; lia. Qed.

Lemma dec_go_digits fuel n acc :
  str_forallb is_digit acc = true → str_forallb is_digit (dec_go fuel n acc) = true.
Proof.
  revert n acc. induction fuel as [|fuel IH]; intros n acc Hacc; [done|].
  assert (is_digit (digit (n mod 10)) = true) as Hd.
  { apply is_digit_digit. pose proof (Z.mod_pos_bound n 10). lia. }
  cbn [dec_go]. destruct (n <? 10)%Z; [|apply IH]; simpl; by rewrite Hd.
Qed.

Lemma show_dec_digits n : str_forallb is_digit (show_dec n) = true.
Proof. by apply dec_go_digits. Qed.

Lemma split_once_none (c : ascii) (s : string) : split_once c s = None → str_forallb (not_char c) s = true.
Proof.
  induction s as [|a s IH]; simpl; [done|]. destruct (ascii_dec a c) as [|Hne]; [done|].
  destruct (split_once c s) as [[l r]|]; [done|]. intros _. rewrite IH // andb_true_r. by apply not_char_neq.
Qed.

(** The pieces before and after a separator. *)
Lemma split_char_sep (c : ascii) (s r : string) :
  split_char c (s ++ String c r) = app (split_char c s) (split_char c r).
Proof.
  induction s as [|a s IH]; simpl; [by destruct (ascii_dec c c)|].
  rewrite IH. destruct (ascii_dec a c); [done|].
  assert (Hne : split_char c s ≠ []).
  { destruct s as [|b s']; simpl; [done|]. destruct (ascii_dec b c); [done|]. by destruct (split_char c s'). }
  by destruct (split_char c s).
Qed.

(** The text of a list of terminated lines splits back into the lines. *)
Lemma split_lines (l : list string) :
  Forall (λ x, str_forallb (not_char "010") x = true) l →
  split_char "010" (str_concat (map (λ x, x ++ nl) l)) = app l [""].
Proof.
  induction 1 as [|x l Hx _ IH]; simpl; [done|].
  rewrite app_assoc_s. change (nl ++ ?r) with (String "010" r).
  rewrite split_char_app //. by rewrite IH.
Qed.

(** A line as [lines] gives it back. *)
Definition one_line (x : string) : Prop := str_forallb (not_char "010") x = true ∧ strip_suffix (String "013" "") x = None.

Lemma lines_concat (l : list string) : Forall one_line l → lines (str_concat (map (λ x, x ++ nl) l)) = l.
Proof.
  intros Hl. unfold lines. rewrite split_lines; [by eapply Forall_impl; [exact Hl|]; intros x []|].
  induction Hl as [|x l [_ Hcr] _ IH]; [done|]. cbn [app lines_go] in *. unfold drop_cr at 1. rewrite Hcr.
  destruct l as [|y l]; [done|]. cbn [app] in *. by rewrite IH.
Qed.

(** ** Reversal and suffixes *)

Lemma str_rev_app_eq s acc : str_rev_app s acc = str_rev s ++ acc.
Proof.
  unfold str_rev. revert acc. induction s as [|a s IH]; intros acc; [done|]. simpl.
  by rewrite IH (IH (String a "")) app_assoc_s.
Qed.

Lemma str_rev_concat a b : str_rev (a ++ b) = str_rev b ++ str_rev a.
Proof.
  induction a as [|x a IH]; [by rewrite app_nil_r_s|]. unfold str_rev at 1 3. simpl.
  by rewrite !str_rev_app_eq IH app_assoc_s.
Qed.

Lemma forallb_rev p s : str_forallb p (str_rev s) = str_forallb p s.
Proof.
  induction s as [|a s IH]; [done|]. change (String a s) with (String a "" ++ s) at 1. rewrite str_rev_concat str_forallb_app IH.
  cbn. by destruct (p a), (str_forallb p s).
Qed.

Lemma str_rev_involutive s : str_rev (str_rev s) = s.
Proof.
  induction s as [|a s IH]; [done|]. unfold str_rev at 2. simpl. by rewrite str_rev_app_eq str_rev_concat IH.
Qed.

Lemma ends_with_iff p s : ends_with p s = true ↔ ∃ q, s = q ++ p.
Proof.
  unfold ends_with, strip_suffix. destruct (strip_prefix _ _) as [r|] eqn:E; simpl; split; try done.
  - intros _. apply strip_prefix_some in E. exists (str_rev r).
    by rewrite -(str_rev_involutive s) E str_rev_concat str_rev_involutive.
  - intros [q ->]. by rewrite str_rev_concat strip_prefix_app in E.
Qed.

Lemma ends_with_false p s : ends_with p s = false ↔ ¬ ∃ q, s = q ++ p.
Proof. rewrite -ends_with_iff. by destruct (ends_with p s). Qed.

Lemma app_inj_r_s (a b c : string) : a ++ c = b ++ c → a = b.
Proof.
  intros H. assert (Hr : str_rev c ++ str_rev a = str_rev c ++ str_rev b) by (rewrite -!str_rev_concat; by f_equal).
  apply app_inj_l_s in Hr. by rewrite -(str_rev_involutive a) Hr str_rev_involutive.
Qed.

(** ** Searching from the right *)

Lemma rfind_none c s : str_forallb (not_char c) s = true → rfind c s = None.
Proof.
  induction s as [|a s IH]; [done|]. simpl. rewrite andb_true_iff not_char_neq. intros [Ha Hs].
  rewrite (IH Hs). by destruct (ascii_dec a c).
Qed.

Lemma rfind_skip c a b : str_forallb (not_char c) b = true → rfind c (a ++ b) = rfind c a.
Proof. intros Hb. induction a as [|x a IH]; simpl; [by apply rfind_none|]. by rewrite IH. Qed.

Lemma rfind_app c a b : str_forallb (not_char c) b = true → rfind c (a ++ String c b) = Some (String.length a).
Proof.
  intros Hb. induction a as [|x a IH]; simpl; [|by rewrite IH].
  rewrite rfind_none //. by destruct (ascii_dec c c).
Qed.

Lemma rfind_lt c s n : rfind c s = Some n → (n < String.length s)%nat.
Proof.
  revert n. induction s as [|a s IH]; intros n; simpl; [done|].
  destruct (rfind c s) as [k|]; [intros [= <-]; specialize (IH k eq_refl); lia|].
  destruct (ascii_dec a c); [intros [= <-]; lia|done].
Qed.

Lemma str_take_app a b : str_take (String.length a) (a ++ b) = a.
Proof. induction a; simpl; [by destruct b|congruence]. Qed.

Lemma str_drop_app a c b : str_drop (S (String.length a)) (a ++ String c b) = b.
Proof. induction a; simpl in *; congruence. Qed.

Lemma rsplit_once_app c a b : str_forallb (not_char c) b = true → rsplit_once c (a ++ String c b) = Some (a, b).
Proof. intros Hb. unfold rsplit_once. rewrite (rfind_app c a b Hb). unfold fmap, option_fmap, option_map. by rewrite str_take_app str_drop_app. Qed.

Lemma rsplit_once_none c s : str_forallb (not_char c) s = true → rsplit_once c s = None.
Proof. intros Hs. unfold rsplit_once. by rewrite rfind_none. Qed.
