(* ===== verification/Core.v ===== *)
(** * oad-core: identifiers, records, network policies, paths
    (crates/oad-core/src/lib.rs)

    The data model shared by the daemon's components, the validation of the
    user-supplied names that become path segments, and the on-disk layout. *)
From S2P Require Import Prelude Str.

(** ** Validation of path segments *)

Definition PAUSE_CONTAINER : string := "pause".
Definition MAX_ID_SEGMENT_LEN : nat := 128.

Inductive ValidationError : Type :=
| Empty
| TooLong (max : nat)
| ReservedPathSegment (value : string)
| UnsupportedCharacter (ch : Z)
| ReservedContainerName (value : string).

#[global] Instance ValidationError_eq_dec : EqDecision ValidationError.
Proof. solve_decision. Defined.

(** The character test of the loop of [validate_id_segment]. *)
Definition supported_char (ch : Z) : bool :=
  is_ascii_alphanumeric ch || (ch =? 45)%Z || (ch =? 95)%Z || (ch =? 46)%Z.

Fixpoint validate_chars (l : list Z) : result ValidationError unit :=
  match l with
  | [] => Ok tt
  | ch :: l => if supported_char ch then validate_chars l else Err (UnsupportedCharacter ch)
  end.

Definition validate_id_segment (value : string) : result ValidationError unit :=
  if decide (value = "") then Err Empty
  else if decide (value = "." ∨ value = "..") then Err (ReservedPathSegment value)
  else if (MAX_ID_SEGMENT_LEN <? String.length value)%nat then Err (TooLong MAX_ID_SEGMENT_LEN)
  else validate_chars (chars value).

Definition validate_container_name (value : string) : result ValidationError unit :=
  (validate_id_segment value ?;;
   if decide (value = PAUSE_CONTAINER) then Err (ReservedContainerName value) else Ok tt)%rust.

Definition validate_snapshot_name (value : string) : result ValidationError unit :=
  validate_id_segment value.

(** [SandboxId(String)]: built by [SandboxId::new], [generate] and the
    conversions that call [new]. *)
Record SandboxId : Type := mkSandboxId { as_str : string }.

#[global] Instance SandboxId_eq_dec : EqDecision SandboxId.
Proof. solve_decision. Defined.

#[global] Program Instance SandboxId_countable : Countable SandboxId :=
  inj_countable' as_str mkSandboxId _.
Next Obligation. by intros []. Qed.

Definition SandboxId_new (value : string) : result ValidationError SandboxId :=
  (validate_id_segment value ?;; Ok (mkSandboxId value))%rust.

(** ** Sandbox records *)

Inductive SandboxStatus : Type :=
| Pending | Running | Stopping | Stopped | Suspended | Error | Unknown.

#[global] Instance SandboxStatus_eq_dec : EqDecision SandboxStatus.
Proof. solve_decision. Defined.

(** Times are nanoseconds of the UTC clock. *)
Record SandboxRecord : Type := mkSandboxRecord {
  rec_id : SandboxId;
  rec_status : SandboxStatus;
  rec_containers : list string;
  rec_created_at : Z;
  rec_updated_at : Z;
  rec_last_error : option string;
  rec_origin_snapshot : option string;
}.

#[global] Instance SandboxRecord_eq_dec : EqDecision SandboxRecord.
Proof. solve_decision. Defined.

Definition new_pending (now : Z) (id : SandboxId) (containers : list string) : SandboxRecord :=
  {| rec_id := id; rec_status := Pending; rec_containers := containers;
     rec_created_at := now; rec_updated_at := now;
     rec_last_error := None; rec_origin_snapshot := None |}.

Definition set_status (now : Z) (status : SandboxStatus) (r : SandboxRecord) : SandboxRecord :=
  {| rec_id := rec_id r; rec_status := status; rec_containers := rec_containers r;
     rec_created_at := rec_created_at r; rec_updated_at := now;
     rec_last_error := rec_last_error r; rec_origin_snapshot := rec_origin_snapshot r |}.

Definition set_error (now : Z) (error : string) (r : SandboxRecord) : SandboxRecord :=
  {| rec_id := rec_id r; rec_status := Error; rec_containers := rec_containers r;
     rec_created_at := rec_created_at r; rec_updated_at := now;
     rec_last_error := Some error; rec_origin_snapshot := rec_origin_snapshot r |}.

(** [record.last_error = e], as the handlers' update closures do. *)
Definition with_last_error (e : option string) (r : SandboxRecord) : SandboxRecord :=
  {| rec_id := rec_id r; rec_status := rec_status r; rec_containers := rec_containers r;
     rec_created_at := rec_created_at r; rec_updated_at := rec_updated_at r;
     rec_last_error := e; rec_origin_snapshot := rec_origin_snapshot r |}.

Definition with_origin_snapshot (o : option string) (r : SandboxRecord) : SandboxRecord :=
  {| rec_id := rec_id r; rec_status := rec_status r; rec_containers := rec_containers r;
     rec_created_at := rec_created_at r; rec_updated_at := rec_updated_at r;
     rec_last_error := rec_last_error r; rec_origin_snapshot := o |}.

(** ** Container and network specifications *)

Record EnvVar : Type := mkEnvVar { env_name : string; env_value : string }.

#[global] Instance EnvVar_eq_dec : EqDecision EnvVar.
Proof. solve_decision. Defined.

Record ContainerSpec : Type := mkContainerSpec {
  ct_name : string; ct_image : string;
  ct_command : list string; ct_args : list string; ct_env : list EnvVar;
}.

#[global] Instance ContainerSpec_eq_dec : EqDecision ContainerSpec.
Proof. solve_decision. Defined.

Definition argv (c : ContainerSpec) : list string := (ct_command c ++ ct_args c)%list.

Definition container_names (containers : list ContainerSpec) : list string :=
  PAUSE_CONTAINER :: map ct_name containers.

Inductive EgressDestination : Type := Cidr (cidr : string).
Inductive Protocol : Type := All | Tcp | Udp | Icmp.
Record PortRange : Type := mkPortRange { port_start : Z; port_end : Z }.

Record EgressRule : Type := mkEgressRule {
  destination : EgressDestination; protocol : Protocol; ports : list PortRange;
}.

Inductive EgressPolicy : Type := AllowAll | DenyAll | Rules (rules : list EgressRule).

Record TrafficShapingPolicy : Type := mkShaping {
  upload_bps : option Z; download_bps : option Z; burst_bytes : option Z; latency_ms : option Z;
}.

Record L7EgressPolicy : Type := mkL7 { transparent_tcp : bool }.

Record UdpEgressPolicy : Type := mkUdp {
  dns_redirect : bool; block_quic : bool; allow : list EgressRule;
}.

Record SandboxNetworkSpec : Type := mkNetworkSpec {
  egress : EgressPolicy; shaping : TrafficShapingPolicy; l7 : L7EgressPolicy; udp : UdpEgressPolicy;
}.

#[global] Instance EgressDestination_eq_dec : EqDecision EgressDestination.
Proof. solve_decision. Defined.
#[global] Instance Protocol_eq_dec : EqDecision Protocol.
Proof. solve_decision. Defined.
#[global] Instance PortRange_eq_dec : EqDecision PortRange.
Proof. solve_decision. Defined.
#[global] Instance EgressRule_eq_dec : EqDecision EgressRule.
Proof. solve_decision. Defined.
#[global] Instance EgressPolicy_eq_dec : EqDecision EgressPolicy.
Proof. solve_decision. Defined.
#[global] Instance Shaping_eq_dec : EqDecision TrafficShapingPolicy.
Proof. solve_decision. Defined.
#[global] Instance L7_eq_dec : EqDecision L7EgressPolicy.
Proof. solve_decision. Defined.
#[global] Instance Udp_eq_dec : EqDecision UdpEgressPolicy.
Proof. solve_decision. Defined.
#[global] Instance SandboxNetworkSpec_eq_dec : EqDecision SandboxNetworkSpec.
Proof. solve_decision. Defined.

Definition shaping_default : TrafficShapingPolicy := mkShaping None None None None.
Definition l7_default : L7EgressPolicy := mkL7 true.
Definition udp_default : UdpEgressPolicy := mkUdp true true [].

Definition network_default : SandboxNetworkSpec :=
  mkNetworkSpec AllowAll shaping_default l7_default udp_default.

Inductive NetworkMode : Type := ModeSandbox | ModeHost.

#[global] Instance NetworkMode_eq_dec : EqDecision NetworkMode.
Proof. solve_decision. Defined.

Record SandboxSpec : Type := mkSandboxSpec {
  spec_pause_image : string; spec_containers : list ContainerSpec;
  spec_network : SandboxNetworkSpec; spec_network_mode : option NetworkMode;
}.

#[global] Instance SandboxSpec_eq_dec : EqDecision SandboxSpec.
Proof. solve_decision. Defined.

(** ** Daemon configuration *)

Inductive ManagedNetworkBackend : Type := Hostinet | Netstack.

Record NetworkRuntimeConfig : Type := mkNetworkRuntimeConfig {
  net_enabled : bool; net_backend : ManagedNetworkBackend; sandbox_cidr : string;
  envoy_listener : string; dns_listener : string; dns_upstream : string;
}.

Definition network_runtime_default : NetworkRuntimeConfig :=
  {| net_enabled := true; net_backend := Netstack; sandbox_cidr := "10.90.0.0/16";
     envoy_listener := "0.0.0.0:15001"; dns_listener := "0.0.0.0:15053";
     dns_upstream := "1.1.1.1:53" |}.

Record ObservabilityConfig : Type := mkObservability { obs_enabled : bool }.
Record HttpConfig : Type := mkHttpConfig { bind : string; bearer_token : string }.

(** ** Paths

    A [Path] is the list of its components, as [Path::components] yields them:
    empty and [.] segments are gone, [..] is kept. *)

Notation Path := (list string).

Definition components (s : string) : Path :=
  filter (λ c, c ≠ "" ∧ c ≠ ".") (split_char "/" s).

(** [Path::join]: an absolute argument replaces the receiver. *)
Definition join (p : Path) (s : string) : Path :=
  if starts_with "/" s then components s else (p ++ components s)%list.

Definition parent (p : Path) : option Path :=
  match p with [] => None | _ => Some (removelast p) end.

(** [Path::file_name]: [None] when the path ends in [..]. *)
Definition file_name (p : Path) : option string :=
  match last p with
  | Some n => if decide (n = "..") then None else Some n
  | None => None
  end.

Definition with_file_name (p : Path) (name : string) : Path :=
  join (match file_name p with Some _ => removelast p | None => p end) name.

Record RuntimeConfig : Type := mkRuntimeConfig {
  rt_base_dir : Path; rt_pause_image : string; rt_network_namespace : option Path;
  rt_network : NetworkRuntimeConfig; rt_observability : ObservabilityConfig;
}.

Record DaemonConfig : Type := mkDaemonConfig { http : HttpConfig; runtime : RuntimeConfig }.

Record OadPaths : Type := mkOadPaths { base_dir : Path }.

Definition sandboxes_dir (p : OadPaths) : Path := join (base_dir p) "sandboxes".
Definition cache_dir (p : OadPaths) : Path := join (base_dir p) "cache".
Definition layer_cache_dir (p : OadPaths) : Path := join (cache_dir p) "layers".
Definition manifest_cache_dir (p : OadPaths) : Path := join (cache_dir p) "manifests".
Definition rootfs_cache_dir (p : OadPaths) : Path := join (cache_dir p) "rootfs".
Definition sandbox_dir (p : OadPaths) (id : SandboxId) : Path := join (sandboxes_dir p) (as_str id).
Definition state_file (p : OadPaths) (id : SandboxId) : Path := join (sandbox_dir p id) "state.json".
Definition bundles_dir (p : OadPaths) (id : SandboxId) : Path := join (sandbox_dir p id) "bundles".
Definition bundle_dir (p : OadPaths) (id : SandboxId) (container : string) : Path :=
  join (bundles_dir p id) container.
Definition rootfs_dir (p : OadPaths) (id : SandboxId) (c : string) : Path :=
  join (bundle_dir p id c) "rootfs".
Definition rootfs_overlay_dir (p : OadPaths) (id : SandboxId) (c : string) : Path :=
  join (bundle_dir p id c) "rootfs-overlay".
Definition checkpoint_dir (p : OadPaths) (id : SandboxId) : Path :=
  join (sandbox_dir p id) "checkpoint".
Definition sandbox_spec (p : OadPaths) (id : SandboxId) : Path := join (sandbox_dir p id) "spec.json".
Definition network_dir (p : OadPaths) : Path := join (base_dir p) "network".
Definition sandbox_network_state (p : OadPaths) (id : SandboxId) : Path :=
  join (sandbox_dir p id) "network.json".
Definition sandbox_resolv_conf (p : OadPaths) (id : SandboxId) : Path :=
  join (sandbox_dir p id) "resolv.conf".
Definition envoy_config (p : OadPaths) : Path := join (network_dir p) "envoy.json".
Definition envoy_log (p : OadPaths) : Path := join (network_dir p) "envoy.log".
Definition envoy_access_log_socket (p : OadPaths) : Path := join (network_dir p) "envoy-access.sock".
Definition snapshots_dir (p : OadPaths) : Path := join (cache_dir p) "snapshots".
Definition snapshot_dir (p : OadPaths) (name : string) : Path := join (snapshots_dir p) name.
Definition snapshot_checkpoint_dir (p : OadPaths) (name : string) : Path :=
  join (snapshot_dir p name) "checkpoint".
Definition snapshot_manifest (p : OadPaths) (name : string) : Path :=
  join (snapshot_dir p name) "manifest.json".
Definition rootfs_staging_dir (p : OadPaths) (id : SandboxId) (c : string) : Path :=
  join (bundle_dir p id c) "rootfs-staging".
Definition rootfs_erofs (p : OadPaths) (id : SandboxId) (c : string) : Path :=
  join (bundle_dir p id c) "rootfs.erofs".
Definition config_json (p : OadPaths) (id : SandboxId) (c : string) : Path :=
  join (bundle_dir p id c) "config.json".
Definition runsc_state_dir (p : OadPaths) (id : SandboxId) : Path :=
  join (sandbox_dir p id) "runsc-state".
Definition pidfiles_dir (p : OadPaths) (id : SandboxId) : Path := join (sandbox_dir p id) "pidfiles".
Definition pidfile (p : OadPaths) (id : SandboxId) (c : string) : Path :=
  join (pidfiles_dir p id) (c ++ ".pid").
Definition logs_dir (p : OadPaths) (id : SandboxId) : Path := join (sandbox_dir p id) "logs".
Definition container_log (p : OadPaths) (id : SandboxId) (c : string) : Path :=
  join (logs_dir p id) (c ++ ".jsonl").

(** [temp_path]: a sibling name made unique by the process id, the clock and a
    process-wide counter, which [sequence] is the next value of. *)
Definition temp_path (pid nanos sequence : Z) (path : Path) : Path :=
  let name := default "file" (file_name path) in
  with_file_name path
    ("." ++ name ++ "." ++ show_dec pid ++ "." ++ show_dec nanos ++ "." ++
     show_dec sequence ++ ".tmp").

(** ** Validation: what the accepted names are *)

Lemma supported_char_ascii c : supported_char c = true → (c < 128)%Z.
Proof. unfold supported_char, is_ascii_alphanumeric. lia. Qed.

Lemma validate_chars_ok l : validate_chars l = Ok tt ↔ forallb supported_char l = true.
Proof.
  induction l as [|c l IH]; simpl; [done|].
  destruct (supported_char c); simpl; [done|]. by split.
Qed.

(** A name all of whose bytes are ASCII alphanumerics, [-], [_] or [.]. *)
Definition supported_bytes (s : string) : bool :=
  str_forallb (λ a, supported_char (code a)) s.

Record valid_segment (s : string) : Prop := {
  seg_nonempty : s ≠ "";
  seg_not_dot : s ≠ ".";
  seg_not_dotdot : s ≠ "..";
  seg_length : (String.length s ≤ 128)%nat;
  seg_bytes : supported_bytes s = true;
}.

Lemma validate_id_segment_valid value :
  validate_id_segment value = Ok tt ↔ valid_segment value.
Proof.
  unfold validate_id_segment, MAX_ID_SEGMENT_LEN.
  assert (Hc := chars_forallb supported_char value supported_char_ascii).
  assert (Hv := validate_chars_ok (chars value)).
  case_decide; [split; [done|]; by intros []|].
  case_decide as Hd; [split; [done|]; intros []; naive_solver|].
  destruct (Nat.ltb_spec 128 (String.length value)) as [|Hl].
  { split; [done|]. intros []; lia. }
  rewrite Hv Hc. split; [|by intros []].
  intros Hb. constructor; try done; naive_solver.
Qed.

Lemma validate_container_name_valid c :
  validate_container_name c = Ok tt ↔ valid_segment c ∧ c ≠ PAUSE_CONTAINER.
Proof.
  unfold validate_container_name.
  destruct (validate_id_segment c) as [[]|e] eqn:E; simpl.
  - apply validate_id_segment_valid in E. case_decide; naive_solver.
  - split; [done|]. rewrite -validate_id_segment_valid E. by intros [? _].
Qed.

Lemma SandboxId_new_valid v id :
  SandboxId_new v = Ok id → id = mkSandboxId v ∧ valid_segment v.
Proof.
  unfold SandboxId_new. intros H. inv_ok. split; [done|].
  destruct a. by apply validate_id_segment_valid.
Qed.

(** ** Paths: a valid segment is one component *)

Lemma valid_no_slash s : valid_segment s → str_forallb (not_char "/") s = true.
Proof.
  intros [_ _ _ _ H]. revert H. apply str_forallb_impl. intros a Ha.
  apply not_char_neq. by intros ->.
Qed.

Lemma components_valid s : valid_segment s → components s = [s].
Proof.
  intros H. unfold components. rewrite split_char_none; [by apply valid_no_slash|].
  rewrite filter_cons_True; [|done]. by destruct H.
Qed.

Lemma join_valid p s : valid_segment s → join p s = (p ++ [s])%list.
Proof.
  intros H. unfold join. rewrite components_valid; [done|].
  unfold starts_with. destruct (strip_prefix "/" s) eqn:E; [|done].
  apply strip_prefix_some in E. subst. by apply valid_no_slash in H.
Qed.

Lemma valid_segment_literal s :
  validate_id_segment s = Ok tt → valid_segment s.
Proof. apply validate_id_segment_valid. Qed.

Lemma valid_append s suffix :
  valid_segment s → supported_bytes suffix = true → (3 ≤ String.length suffix)%nat →
  components (s ++ suffix) = [s ++ suffix].
Proof.
  intros Hs Hx Hl. unfold components. rewrite split_char_none.
  - rewrite str_forallb_app andb_true_iff. split; [by apply valid_no_slash|].
    revert Hx. apply str_forallb_impl. intros a Ha. apply not_char_neq. by intros ->.
  - assert (String.length (s ++ suffix) ≥ 3)%nat by (rewrite length_app_s; lia).
    rewrite filter_cons_True; [|done]. split; intros E; rewrite E in H; simpl in H; lia.
Qed.

Lemma join_append p s suffix :
  valid_segment s → supported_bytes suffix = true → (3 ≤ String.length suffix)%nat →
  join p (s ++ suffix) = app p [s ++ suffix].
Proof.
  intros Hs Hx Hl. unfold join. rewrite valid_append //.
  unfold starts_with. destruct (strip_prefix "/" (s ++ suffix)) eqn:E; [|done].
  apply strip_prefix_some in E. destruct s as [|a s]; [by destruct Hs|].
  apply valid_no_slash in Hs. injection E as -> _. done.
Qed.

(** Closes [valid_segment] goals: hypotheses, or literals by computation. *)
Ltac solve_segment :=
  match goal with
  | |- valid_segment (String _ _) =>
      apply validate_id_segment_valid; vm_compute; reflexivity
  | |- valid_segment _ => assumption
  end.

(** Turns every [join] of a valid segment of the goal into a list append. *)
Ltac simpl_paths :=
  unfold state_file, rootfs_dir, rootfs_overlay_dir, rootfs_staging_dir, rootfs_erofs,
    config_json, pidfile, container_log, bundle_dir, bundles_dir, checkpoint_dir, sandbox_spec,
    sandbox_network_state, sandbox_resolv_conf, runsc_state_dir, pidfiles_dir, logs_dir,
    snapshot_checkpoint_dir, snapshot_manifest, sandbox_dir, snapshot_dir, sandboxes_dir,
    snapshots_dir, cache_dir;
  simpl as_str;
  repeat first [ rewrite -> join_valid by solve_segment
               | rewrite -> join_append by (solve [solve_segment | vm_compute; lia | reflexivity]) ];
  rewrite <- ?app_assoc; simpl app.

(** Every path the daemon derives from a sandbox id and a container name. *)
Definition sandbox_paths (p : OadPaths) (id : SandboxId) (c : string) : list Path :=
  [ sandbox_dir p id; state_file p id; bundles_dir p id; bundle_dir p id c; rootfs_dir p id c;
    rootfs_overlay_dir p id c; checkpoint_dir p id; sandbox_spec p id; sandbox_network_state p id;
    sandbox_resolv_conf p id; rootfs_staging_dir p id c; rootfs_erofs p id c; config_json p id c;
    runsc_state_dir p id; pidfiles_dir p id; pidfile p id c; logs_dir p id; container_log p id c ].

Definition snapshot_paths (p : OadPaths) (name : string) : list Path :=
  [ snapshot_dir p name; snapshot_checkpoint_dir p name; snapshot_manifest p name ].

Lemma prefix_app_cons (p : Path) a b (l l' : Path) :
  (p ++ a :: l)%list `prefix_of` (p ++ b :: l')%list → a = b.
Proof. intros H%prefix_app_inv. by apply prefix_cons_inv_1 in H. Qed.

Lemma sandbox_paths_inside p id c q :
  valid_segment (as_str id) → valid_segment c → q ∈ sandbox_paths p id c →
  ∃ tail, q = (base_dir p ++ "sandboxes" :: as_str id :: tail)%list.
Proof.
  intros Hid Hc Hq. unfold sandbox_paths in Hq. destruct id as [id].
  repeat (apply elem_of_cons in Hq as [->|Hq]; [eexists; by simpl_paths|]). set_solver.
Qed.

Lemma snapshot_paths_inside p name q :
  valid_segment name → q ∈ snapshot_paths p name →
  ∃ tail, q = (base_dir p ++ "cache" :: "snapshots" :: name :: tail)%list.
Proof.
  intros Hn Hq. unfold snapshot_paths in Hq.
  repeat (apply elem_of_cons in Hq as [->|Hq]; [eexists; by simpl_paths|]). set_solver.
Qed.

Lemma sandbox_dir_eq p id :
  valid_segment (as_str id) → sandbox_dir p id = (base_dir p ++ ["sandboxes"; as_str id])%list.
Proof. intros H. by simpl_paths. Qed.

Lemma snapshot_dir_eq p name :
  valid_segment name → snapshot_dir p name = (base_dir p ++ ["cache"; "snapshots"; name])%list.
Proof. intros H. by simpl_paths. Qed.

(** Two valid identifiers never share a file, and no path of one sandbox is
    inside (or above) the directory of another. *)
Lemma sandbox_dirs_disjoint p id1 id2 c q :
  valid_segment (as_str id1) → valid_segment (as_str id2) → valid_segment c → id1 ≠ id2 →
  q ∈ sandbox_paths p id1 c →
  ¬ sandbox_dir p id2 `prefix_of` q ∧ ¬ q `prefix_of` sandbox_dir p id2.
Proof.
  intros H1 H2 Hc Hne Hq.
  destruct (sandbox_paths_inside p id1 c q) as [tail ->]; [done..|].
  rewrite sandbox_dir_eq //.
  assert (as_str id1 ≠ as_str id2) by (intros E; apply Hne; destruct id1, id2; simpl in *; congruence).
  split; intros Hp; apply prefix_app_inv, prefix_cons_inv_2, prefix_cons_inv_1 in Hp; congruence.
Qed.

(** C1. The layout isolates sandboxes.  For ids and container names that the
    constructors accept, every path the daemon derives lies strictly under the
    sandbox's own directory, which is a direct child of [sandboxes]; no path of
    a sandbox lies in, or contains, the directory of a different sandbox; and
    the snapshot store is disjoint from all of them. *)
Theorem layout_isolation (p : OadPaths) (v1 v2 c name : string) (id1 id2 : SandboxId) (q : Path) :
  SandboxId_new v1 = Ok id1 → SandboxId_new v2 = Ok id2 → v1 ≠ v2 →
  validate_container_name c = Ok tt → validate_snapshot_name name = Ok tt →
  q ∈ sandbox_paths p id1 c →
  sandbox_dir p id1 = (sandboxes_dir p ++ [v1])%list ∧
  sandbox_dir p id1 `prefix_of` q ∧
  ¬ sandbox_dir p id2 `prefix_of` q ∧ ¬ q `prefix_of` sandbox_dir p id2 ∧
  ¬ snapshot_dir p name `prefix_of` q ∧ ¬ q `prefix_of` snapshot_dir p name.
Proof.
  intros H1 H2 Hne Hc Hn Hq.
  apply SandboxId_new_valid in H1 as [-> H1]. apply SandboxId_new_valid in H2 as [-> H2].
  apply validate_container_name_valid in Hc as [Hc _].
  apply validate_id_segment_valid in Hn.
  destruct (sandbox_dirs_disjoint p (mkSandboxId v1) (mkSandboxId v2) c q) as [Ha Hb];
    [done..|congruence|done|].
  destruct (sandbox_paths_inside p (mkSandboxId v1) c q) as [tail ->]; [done..|].
  rewrite snapshot_dir_eq //.
  split_and!; try done.
  - by simpl_paths.
  - rewrite sandbox_dir_eq //=. apply prefix_app. by exists tail.
  - by intros ?%prefix_app_cons.
  - by intros ?%prefix_app_cons.
Qed.

Lemma layout_isolation_witness :
  let p := mkOadPaths ["run"; "oad"] in
  let q := pidfile p (mkSandboxId "a") "web" in
  ¬ sandbox_dir p (mkSandboxId "b") `prefix_of` q.
Proof.
  intros p q.
  refine (proj1 (proj2 (proj2 (layout_isolation p "a" "b" "web" "snap"
    (mkSandboxId "a") (mkSandboxId "b") q _ _ _ _ _ _)))); try (vm_compute; reflexivity); try done.
  unfold sandbox_paths, q. set_solver.
Defined.

(** [validate_id_segment] on every branch: it accepts exactly the non-empty
    names of at most 128 bytes, other than [.] and [..], made of ASCII
    alphanumerics, [-], [_] and [.]; and each error is the first of the four
    tests that fails, the character reported being the first unsupported one. *)
Theorem validate_id_segment_spec (value : string) :
  (validate_id_segment value = Ok tt ↔ valid_segment value) ∧
  (validate_id_segment value = Err Empty ↔ value = "") ∧
  (∀ s, validate_id_segment value = Err (ReservedPathSegment s) ↔
        s = value ∧ (value = "." ∨ value = "..")) ∧
  (∀ n, validate_id_segment value = Err (TooLong n) ↔
        n = 128%nat ∧ (128 < String.length value)%nat) ∧
  (∀ ch, validate_id_segment value = Err (UnsupportedCharacter ch) ↔
        value ≠ "." ∧ value ≠ ".." ∧ (String.length value ≤ 128)%nat ∧
        ∃ l r, chars value = (l ++ ch :: r)%list ∧ Forall (λ c, supported_char c = true) l ∧
               supported_char ch = false) ∧
  (∀ s, validate_id_segment value ≠ Err (ReservedContainerName s)).
Proof.
  split; [apply validate_id_segment_valid|].
  assert (Hch : ∀ l e, validate_chars l = Err e ↔
    ∃ ch l1 l2, e = UnsupportedCharacter ch ∧ l = (l1 ++ ch :: l2)%list ∧
      Forall (λ c, supported_char c = true) l1 ∧ supported_char ch = false).
  { induction l as [|c l IH]; intros e; simpl.
    - split; [done|]. by intros (? & [] & ? & _ & ? & _).
    - destruct (supported_char c) eqn:Hc.
      + rewrite IH. split.
        * intros (ch & l1 & l2 & -> & -> & ? & ?). exists ch, (c :: l1), l2.
          split_and!; try done. by constructor.
        * intros (ch & l1 & l2 & -> & E & Hl1 & ?).
          destruct l1 as [|c' l1]; simplify_eq/=; [congruence|].
          apply Forall_cons in Hl1 as [??]. by exists ch, l1, l2.
      + split.
        * intros [= <-]. by exists c, [], l.
        * intros (ch & l1 & l2 & -> & E & Hl1 & ?).
          destruct l1 as [|c' l1]; simplify_eq/=; [done|].
          apply Forall_cons in Hl1 as [??]. congruence. }
  unfold validate_id_segment, MAX_ID_SEGMENT_LEN.
  case_decide as He; [subst; simpl; naive_solver lia|].
  case_decide as Hd.
  { destruct Hd as [-> | ->]; simpl; naive_solver lia. }
  destruct (Nat.ltb_spec 128 (String.length value)).
  { naive_solver lia. }
  setoid_rewrite Hch. naive_solver lia.
Qed.
