(* ===== verification/Cidr.v ===== *)
(** * IPv4 CIDRs and their /30 blocks (crates/oad/src/network.rs)

    Parsing of the CIDRs a policy or the configuration names, the capacity of
    the sandbox CIDR in /30 blocks, and the address pair of each block.  An
    [Ipv4Addr] is its [u32] value; arithmetic is written with the wrap-around
    of the width, and the theorems show that it never happens. *)
From S2P Require Import Prelude Str Core.

(** [NetworkError].  The text of an [InvalidConfig] is represented by what it
    reports. *)
Inductive ConfigProblem : Type :=
| InvalidCidr (value : string)
| InvalidPrefix (value : string)
| SandboxCidrTooSmall
| SubnetIndexExceeds (index capacity : Z)
| NoFreeSubnet (cidr : string)
| InvalidPortRange (first last : Z)
| ZeroLatency
| UnsupportedNftProtocol (protocol : string)
| NoStdin (program : string).

Inductive NetworkError : Type :=
| InvalidConfig (problem : ConfigProblem)
| Command (program : string) (args : list string) (status : string)
| AddrParse (value : string)
| NetJson
| NetIo (kind : string).

Record Ipv4Cidr : Type := mkCidr { network : Z; prefix : Z }.

#[global] Instance Ipv4Cidr_eq_dec : EqDecision Ipv4Cidr.
Proof. solve_decision. Defined.

Definition cidr_mask (prefix : Z) : Z :=
  if (prefix =? 0)%Z then 0%Z else wrap32 (Z.shiftl u32_max (32 - prefix)).

Definition parse_ipv4_cidr (value : string) : result NetworkError Ipv4Cidr :=
  (ip_prefix <-? ok_or (split_once "/" value) (InvalidConfig (InvalidCidr value)) ;;
   let '(ip, prefix) := ip_prefix in
   ip <-? ok_or (parse_ipv4 ip) (InvalidConfig (InvalidCidr value)) ;;
   prefix <-? ok_or (parse_uint u8_max prefix) (InvalidConfig (InvalidPrefix value)) ;;
   if (32 <? prefix)%Z then Err (InvalidConfig (InvalidPrefix value))
   else Ok (mkCidr (Z.land ip (cidr_mask prefix)) prefix))%rust.

(** [impl Display for Ipv4Cidr]. *)
Definition show_cidr (c : Ipv4Cidr) : string := show_ipv4 (network c) ++ "/" ++ show_dec (prefix c).

Definition block_count_30 (c : Ipv4Cidr) : result NetworkError Z :=
  if (30 <? prefix c)%Z then Err (InvalidConfig SandboxCidrTooSmall)
  else Ok (wrap32 (Z.shiftl 1 (30 - prefix c))).

Definition nth_30_pair (c : Ipv4Cidr) (index : Z) : result NetworkError (Z * Z) :=
  (block_count <-? block_count_30 c ;;
   if (block_count <=? index)%Z then Err (InvalidConfig (SubnetIndexExceeds index block_count))
   else let base := wrap32 (network c + wrap32 (index * 4)) in
        Ok (wrap32 (base + 1), wrap32 (base + 2)))%rust.

(** ** Parsing: what the accepted texts are *)

Lemma to_digit_10 a d : to_digit 10 a = Some d → is_digit a = true ∧ (0 ≤ d ≤ 9)%Z.
Proof.
  unfold to_digit, is_digit. intros H.
  destruct ((48 <=? code a) && (code a <=? 57))%Z eqn:E1; simpl in H.
  - destruct (_ <? _)%Z; simplify_eq. split; [done|lia].
  - destruct ((97 <=? code a) && (code a <=? 122))%Z eqn:E2; simpl in H.
    { destruct (Z.ltb_spec (code a - 87) 10); simplify_eq. lia. }
    destruct ((65 <=? code a) && (code a <=? 90))%Z eqn:E3; simpl in H; [|done].
    destruct (Z.ltb_spec (code a - 55) 10); simplify_eq. lia.
Qed.

Lemma read_digits_10 limit checked res count s v n rest :
  (0 ≤ res)%Z → read_digits 10 limit checked res count s = Some (v, n, rest) →
  (0 ≤ v)%Z ∧ ∃ ds, s = ds ++ rest ∧ str_forallb is_digit ds = true.
Proof.
  revert res count. induction s as [|a s IH]; intros res count Hres; cbn [read_digits].
  { intros [= -> -> <-]. split; [done|]. by exists "". }
  destruct (to_digit 10 a) as [d|] eqn:Ed.
  - apply to_digit_10 in Ed as [Ha Hd]. destruct (_ || _); [done|].
    intros H. apply IH in H as [Hv (ds & -> & Hds)]; [|lia].
    split; [done|]. exists (String a ds). simpl. by rewrite Ha.
  - intros [= -> -> <-]. split; [done|]. by exists "".
Qed.

Lemma read_octet_some s v rest :
  read_octet s = Some (v, rest) →
  is_u8 v ∧ ∃ ds, s = ds ++ rest ∧ str_forallb is_digit ds = true.
Proof.
  unfold read_octet, read_number. intros H.
  destruct (read_digits _ _ _ _ _ _) as [[[v' n] rest']|] eqn:E; simpl in H; [|done].
  apply read_digits_10 in E as [Hv Hds]; [|done].
  destruct (Nat.eqb n 0); [done|]. destruct (starts_with _ _ && _); [done|].
  destruct (Z.ltb_spec u8_max v'); simplify_eq. split; [width_lia|done].
Qed.

Definition ipv4_char (a : ascii) : bool := is_digit a || Ascii.eqb a ".".
Definition cidr_char (a : ascii) : bool := ipv4_char a || Ascii.eqb a "/" || Ascii.eqb a "+".

Lemma digits_ipv4 ds : str_forallb is_digit ds = true → str_forallb ipv4_char ds = true.
Proof. apply str_forallb_impl. unfold ipv4_char. by intros a ->. Qed.

Lemma read_ipv4_addr_some s ip rest :
  read_ipv4_addr s = Some (ip, rest) →
  is_u32 ip ∧ ∃ p, s = p ++ rest ∧ str_forallb ipv4_char p = true.
Proof.
  unfold read_ipv4_addr, read_given_char. intros H. inv_some H. simplify_eq.
  repeat match goal with
  | H : strip_prefix _ _ = Some _ |- _ => apply strip_prefix_some in H
  | H : read_octet _ = Some _ |- _ => apply read_octet_some in H as [? (? & ? & ?)]
  end. subst.
  split; [unfold of_octets; width_lia|].
  match goal with
  | |- ∃ _, ?d1 ++ String _ "" ++ ?d2 ++ String _ "" ++ ?d3 ++ String _ "" ++ ?d4 ++ _ = _ ∧ _ =>
      exists (d1 ++ "." ++ d2 ++ "." ++ d3 ++ "." ++ d4)
  end.
  split; [by rewrite !app_assoc_s|].
  rewrite !str_forallb_app !andb_true_iff. split_and!; auto using digits_ipv4.
Qed.

Lemma parse_ipv4_some s ip :
  parse_ipv4 s = Some ip → is_u32 ip ∧ str_forallb ipv4_char s = true.
Proof.
  unfold parse_ipv4. destruct (15 <? _)%nat; [done|].
  destruct (read_ipv4_addr s) as [[ip' rest]|] eqn:E; simpl; [|done].
  case_decide; [|done]. intros [= <-]. subst.
  apply read_ipv4_addr_some in E as [? (p & -> & Hp)]. by rewrite app_nil_r_s.
Qed.

Lemma parse_dec_some max acc s v :
  (0 ≤ acc ≤ max)%Z → parse_dec max acc s = Some v →
  (0 ≤ v ≤ max)%Z ∧ str_forallb is_digit s = true.
Proof.
  revert acc. induction s as [|a s IH]; intros acc Hacc; cbn [parse_dec str_forallb].
  { by intros [= <-]. }
  destruct (is_digit a) eqn:Ha; [|done].
  destruct (Z.ltb_spec max (acc * 10 + (code a - 48))); [done|].
  intros Hp. apply IH in Hp; [done|]. unfold is_digit in Ha. lia.
Qed.

Lemma parse_uint_some max s v :
  (0 ≤ max)%Z → parse_uint max s = Some v →
  (0 ≤ v ≤ max)%Z ∧ str_forallb (λ a, is_digit a || Ascii.eqb a "+") s = true.
Proof.
  intros Hmax. unfold parse_uint. destruct s as [|a s]; [done|].
  assert (Himpl : ∀ s, str_forallb is_digit s = true →
            str_forallb (λ a, is_digit a || Ascii.eqb a "+") s = true).
  { intros s'. apply str_forallb_impl. by intros ? ->. }
  destruct (ascii_dec a "+") as [->|].
  - destruct s as [|b s]; [done|]. intros H. apply parse_dec_some in H as [? ?]; [|lia].
    split; [done|]. by apply (Himpl (String b s)).
  - intros H. apply parse_dec_some in H as [? ?]; [|lia]. auto.
Qed.

(** ** Well-formed CIDRs *)

Definition cidr_size (c : Ipv4Cidr) : Z := 2 ^ (32 - prefix c).

Record wf_cidr (c : Ipv4Cidr) : Prop := {
  wf_prefix : (0 ≤ prefix c ≤ 32)%Z;
  wf_network : is_u32 (network c);
  wf_aligned : (network c mod cidr_size c = 0)%Z;
}.

Lemma cidr_mask_land ip p :
  is_u32 ip → (0 ≤ p ≤ 32)%Z →
  Z.land ip (cidr_mask p) = (ip - ip mod 2 ^ (32 - p))%Z.
Proof.
  intros Hip Hp. unfold cidr_mask. unfold_widths.
  destruct (Z.eqb_spec p 0) as [->|].
  { rewrite Z.land_0_r. rewrite Z.mod_small; [simpl; lia|lia]. }
  replace (ip - ip mod 2 ^ (32 - p))%Z with (Z.shiftl (Z.shiftr ip (32 - p)) (32 - p)).
  2:{ rewrite Z.shiftl_mul_pow2 ?Z.shiftr_div_pow2; try lia.
      pose proof (Z.div_mod ip (2 ^ (32 - p))). lia. }
  apply Z.bits_inj'. intros i Hi.
  change 4294967296%Z with (2 ^ 32)%Z. change 4294967295%Z with (Z.ones 32).
  rewrite Z.land_spec Z.shiftl_spec //.
  destruct (decide (i < 32)%Z) as [Hlt|Hge].
  - rewrite Z.mod_pow2_bits_low // Z.shiftl_spec //.
    destruct (decide (i < 32 - p)%Z).
    + rewrite !(Z.testbit_neg_r _ (i - (32 - p))); [lia..|]. by rewrite andb_false_r.
    + rewrite Z.shiftr_spec; [lia|]. rewrite Z.ones_spec_low; [lia|].
      rewrite andb_true_r. f_equal. lia.
  - rewrite Z.mod_pow2_bits_high; [lia|]. rewrite andb_false_r.
    rewrite Z.shiftr_spec; [lia|]. replace (i - (32 - p) + (32 - p))%Z with i by lia.
    symmetry. destruct (decide (ip = 0)%Z) as [->|]; [by rewrite Z.testbit_0_l|].
    apply Z.bits_above_log2; [lia|].
    assert (Z.log2 ip < 32)%Z by (apply Z.log2_lt_pow2; lia). lia.
Qed.

Lemma parse_ipv4_cidr_inv value c :
  parse_ipv4_cidr value = Ok c →
  ∃ ip_text prefix_text ip,
    value = ip_text ++ "/" ++ prefix_text ∧ parse_ipv4 ip_text = Some ip ∧
    parse_uint u8_max prefix_text = Some (prefix c) ∧ (prefix c ≤ 32)%Z ∧
    network c = Z.land ip (cidr_mask (prefix c)).
Proof.
  unfold parse_ipv4_cidr. destruct (split_once "/" value) as [[l r]|] eqn:E; simpl; [|done].
  apply split_once_some in E as [-> _].
  destruct (parse_ipv4 l) as [ip|] eqn:Eip; simpl; [|done].
  destruct (parse_uint u8_max r) as [p|] eqn:Ep; simpl; [|done].
  destruct (Z.ltb_spec 32 p); [done|]. intros [= <-]. by exists l, r, ip.
Qed.

Lemma parse_ipv4_cidr_wf value c : parse_ipv4_cidr value = Ok c → wf_cidr c.
Proof.
  intros H. apply parse_ipv4_cidr_inv in H as (l & r & ip & -> & Hip & Hp & Hle & Hn).
  apply parse_ipv4_some in Hip as [Hip _].
  apply parse_uint_some in Hp as [Hp _]; [|done].
  assert (Hpow : (1 ≤ 2 ^ (32 - prefix c) )%Z) by (pose proof (Z.pow_pos_nonneg 2 (32 - prefix c)); lia).
  rewrite cidr_mask_land in Hn; [done|lia|].
  pose proof (Z.mod_pos_bound ip (2 ^ (32 - prefix c))).
  constructor; [lia| |].
  - rewrite Hn. pose proof (Z.mod_le ip (2 ^ (32 - prefix c))). width_lia.
  - unfold cidr_size. rewrite Hn Zminus_mod_idemp_r Z.sub_diag Z.mod_0_l; lia.
Qed.

Lemma pow2_split p : (0 ≤ p ≤ 30)%Z → (2 ^ (32 - p) = 4 * 2 ^ (30 - p))%Z.
Proof. intros H. replace (32 - p)%Z with (2 + (30 - p))%Z by lia. rewrite Z.pow_add_r; lia. Qed.

Lemma block_count_30_ok c :
  wf_cidr c → (prefix c ≤ 30)%Z → block_count_30 c = Ok (2 ^ (30 - prefix c))%Z.
Proof.
  intros [Hp _ _] Hle. unfold block_count_30.
  destruct (Z.ltb_spec 30 (prefix c)); [lia|]. f_equal.
  rewrite Z.shiftl_mul_pow2 ?Z.mul_1_l; [lia|]. unfold_widths.
  rewrite Z.mod_small //. split; [apply Z.pow_nonneg; lia|].
  change 4294967296%Z with (2 ^ 32)%Z. apply Z.pow_lt_mono_r; lia.
Qed.

Lemma block_count_30_inv c n :
  wf_cidr c → block_count_30 c = Ok n → (prefix c ≤ 30)%Z ∧ n = (2 ^ (30 - prefix c))%Z.
Proof.
  intros Hwf H. assert (prefix c ≤ 30)%Z as Hle.
  { unfold block_count_30 in H. destruct (Z.ltb_spec 30 (prefix c)); [done|lia]. }
  split; [done|]. rewrite block_count_30_ok // in H. congruence.
Qed.

(** A sandbox CIDR fits below [2^32]. *)
Lemma cidr_fits c : wf_cidr c → (network c + cidr_size c ≤ 2 ^ 32)%Z.
Proof.
  intros [Hp Hn Ha]. unfold cidr_size in *. set (k := (32 - prefix c)%Z) in *.
  assert (0 < 2 ^ k)%Z by (apply Z.pow_pos_nonneg; lia).
  assert (2 ^ 32 = 2 ^ k * 2 ^ (32 - k))%Z as E by (rewrite -Z.pow_add_r; f_equal; lia).
  pose proof (Z.div_mod (network c) (2 ^ k) ltac:(lia)) as Hd.
  rewrite Ha Z.add_0_r in Hd.
  assert (network c / 2 ^ k < 2 ^ (32 - k))%Z.
  { apply Z.div_lt_upper_bound; [done|]. width_lia. }
  width_lia || nia.
Qed.

(** The exact values of a pair: no [u32] operation of [nth_30_pair] wraps. *)
Lemma nth_30_pair_ok c n index :
  wf_cidr c → block_count_30 c = Ok n → (0 ≤ index < n)%Z →
  nth_30_pair c index = Ok (network c + 4 * index + 1, network c + 4 * index + 2)%Z ∧
  (network c + 4 * index + 3 < network c + cidr_size c)%Z.
Proof.
  intros Hwf Hn Hi. pose proof (cidr_fits c Hwf) as Hfit.
  unfold nth_30_pair. rewrite Hn. cbn [result_bind].
  destruct (Z.leb_spec n index); [lia|].
  apply block_count_30_inv in Hn as [Hle ->]; [|done].
  assert (cidr_size c = 4 * 2 ^ (30 - prefix c))%Z as Es
    by (unfold cidr_size; apply pow2_split; destruct Hwf; lia).
  assert (is_u32 (network c)) by apply Hwf.
  unfold_widths. rewrite !(Z.mod_small (index * 4)) ?(Z.mod_small (network c + index * 4)); [lia..|].
  rewrite !Z.mod_small; [lia..|]. split; [do 2 f_equal; lia|lia].
Qed.

Lemma nth_30_pair_inv c index pair :
  wf_cidr c → (0 ≤ index)%Z → nth_30_pair c index = Ok pair →
  ∃ n, block_count_30 c = Ok n ∧ (index < n)%Z ∧
    pair = (network c + 4 * index + 1, network c + 4 * index + 2)%Z.
Proof.
  intros Hwf Hi H. unfold nth_30_pair in H.
  destruct (block_count_30 c) as [n|] eqn:En; [|done]. cbn [result_bind] in H.
  destruct (Z.leb_spec n index); [done|]. exists n. split_and!; [done..|].
  destruct (nth_30_pair_ok c n index Hwf En) as [E _]; [lia|].
  unfold nth_30_pair in E. rewrite En in E. cbn [result_bind] in E.
  destruct (Z.leb_spec n index); [lia|]. congruence.
Qed.

(** The /30 blocks of a CIDR.  For a CIDR that the parser accepts and an
    index below its capacity, [nth_30_pair] succeeds; none of its [u32]
    operations wraps; the host and sandbox addresses are the two usable
    addresses of the [index]-th /30 of the CIDR; and blocks of different
    indices have no address in common. *)
Theorem nth_30_pair_spec (value : string) (c : Ipv4Cidr) (n i j : Z) :
  parse_ipv4_cidr value = Ok c → block_count_30 c = Ok n →
  (0 ≤ i < n)%Z → (0 ≤ j < n)%Z →
  ∃ host sandbox, nth_30_pair c i = Ok (host, sandbox) ∧
    host = (network c + 4 * i + 1)%Z ∧ sandbox = (host + 1)%Z ∧
    (network c < host)%Z ∧ (sandbox + 1 < network c + cidr_size c ≤ 4294967296)%Z ∧
    (i ≠ j → ∀ host' sandbox', nth_30_pair c j = Ok (host', sandbox') →
       ∀ a, ¬ (host - 1 ≤ a ≤ sandbox + 1 ∧ host' - 1 ≤ a ≤ sandbox' + 1)%Z).
Proof.
  intros Hc Hn Hi Hj. apply parse_ipv4_cidr_wf in Hc as Hwf.
  destruct (nth_30_pair_ok c n i Hwf Hn Hi) as [E Hlt].
  pose proof (cidr_fits c Hwf).
  eexists _, _. split; [exact E|]. split_and!; [lia..|].
  intros Hne host' sandbox' E' a.
  destruct (nth_30_pair_ok c n j Hwf Hn Hj) as [E'' _].
  rewrite E'' in E'. injection E' as <- <-. lia.
Qed.

Lemma nth_30_pair_spec_witness :
  ∃ host sandbox, nth_30_pair (mkCidr 173670400 16) 16383 = Ok (host, sandbox) ∧
    host = 173735933%Z ∧ sandbox = (host + 1)%Z.
Proof.
  destruct (nth_30_pair_spec "10.90.7.9/16" (mkCidr 173670400 16) 16384 16383 0)
    as (h & s & E & Hh & Hs & _); [vm_compute; reflexivity..|lia|lia|].
  by exists h, s.
Defined.

(** ** Printing and parsing back *)

(** Every octet is printed so that the address parser reads it back, whether
    a dot, a slash or nothing follows. *)
Lemma read_octet_show o r :
  is_u8 o → read_octet (show_dec o ++ String "." r) = Some (o, String "." r) ∧
            read_octet (show_dec o) = Some (o, "").
Proof.
  intros Ho.
  assert (H : Forall (λ o, read_octet (show_dec o ++ String "." r) = Some (o, String "." r) ∧
                           read_octet (show_dec o) = Some (o, "")) (seqZ 0 256)).
  { let l := eval vm_compute in (seqZ 0 256) in change (seqZ 0 256) with l.
    repeat (constructor; [split; reflexivity|]). constructor. }
  rewrite Forall_forall in H. apply H. apply elem_of_seqZ. width_lia.
Qed.

Lemma show_octet_chars o :
  is_u8 o → str_forallb is_digit (show_dec o) = true ∧ (String.length (show_dec o) ≤ 3)%nat ∧
            parse_uint u8_max (show_dec o) = Some o.
Proof.
  intros Ho.
  assert (H : Forall (λ o, str_forallb is_digit (show_dec o) &&
              (String.length (show_dec o) <=? 3)%nat &&
              bool_decide (parse_uint u8_max (show_dec o) = Some o) = true) (seqZ 0 256)).
  { apply Forall_forall. intros x Hx.
    assert (forallb (λ o, str_forallb is_digit (show_dec o) &&
              (String.length (show_dec o) <=? 3)%nat &&
              bool_decide (parse_uint u8_max (show_dec o) = Some o)) (seqZ 0 256) = true) as Hall
      by (vm_compute; reflexivity).
    rewrite forallb_forall in Hall. apply Hall. by apply list_elem_of_In. }
  rewrite Forall_forall in H. specialize (H o ltac:(apply elem_of_seqZ; width_lia)).
  rewrite !andb_true_iff Nat.leb_le bool_decide_eq_true in H. naive_solver.
Qed.

Lemma octets_of ip :
  is_u32 ip →
  is_u8 (ip / 16777216) ∧ is_u8 (ip / 65536 mod 256) ∧ is_u8 (ip / 256 mod 256) ∧ is_u8 (ip mod 256) ∧
  of_octets (ip / 16777216) (ip / 65536 mod 256) (ip / 256 mod 256) (ip mod 256) = ip.
Proof. unfold of_octets. unfold_widths. intros H. div_lia. Qed.

Lemma parse_ipv4_show ip : is_u32 ip → parse_ipv4 (show_ipv4 ip) = Some ip.
Proof.
  intros Hip. destruct (octets_of ip Hip) as (Ha & Hb & Hc & Hd & Hsum).
  unfold parse_ipv4, show_ipv4.
  destruct (show_octet_chars _ Ha) as (_ & La & _), (show_octet_chars _ Hb) as (_ & Lb & _),
    (show_octet_chars _ Hc) as (_ & Lc & _), (show_octet_chars _ Hd) as (_ & Ld & _).
  destruct (Nat.ltb_spec 15 (String.length (show_dec (ip / 16777216) ++ "." ++
    show_dec (ip / 65536 mod 256) ++ "." ++ show_dec (ip / 256 mod 256) ++ "." ++ show_dec (ip mod 256))))
    as [Hl|_].
  { rewrite !length_app_s in Hl. simpl in Hl. rewrite ?length_app_s in Hl. simpl in Hl.
    rewrite ?length_app_s in Hl. simpl in Hl. lia. }
  unfold read_ipv4_addr, read_given_char. simpl app.
  rewrite (proj1 (read_octet_show _ _ Ha)). cbn [mbind option_bind].
  rewrite (strip_prefix_app "." _). cbn [mbind option_bind].
  rewrite (proj1 (read_octet_show _ _ Hb)). cbn [mbind option_bind].
  rewrite (strip_prefix_app "." _). cbn [mbind option_bind].
  rewrite (proj1 (read_octet_show _ _ Hc)). cbn [mbind option_bind].
  rewrite (strip_prefix_app "." _). cbn [mbind option_bind].
  rewrite (proj2 (read_octet_show _ "" Hd)). cbn [mbind option_bind].
  case_decide; [by rewrite Hsum|done].
Qed.

Lemma digits_no_slash ds : str_forallb is_digit ds = true → str_forallb (not_char "/") ds = true.
Proof. apply str_forallb_impl. intros a Ha. apply not_char_neq. by intros ->. Qed.

Lemma show_ipv4_no_slash ip : is_u32 ip → str_forallb (not_char "/") (show_ipv4 ip) = true.
Proof.
  intros Hip. destruct (octets_of ip Hip) as (Ha & Hb & Hc & Hd & _). unfold show_ipv4.
  rewrite !str_forallb_app !andb_true_iff.
  split_and!; try reflexivity; apply digits_no_slash; by apply show_octet_chars.
Qed.

(** [Display] and the parser agree: the text the daemon prints for a
    well-formed CIDR (the one it writes in the masquerade rule) parses back to
    that CIDR, and every CIDR that the parser returns is well-formed: prefix
    at most 32 and network aligned on its size. *)
Theorem cidr_roundtrip (c : Ipv4Cidr) :
  (wf_cidr c → parse_ipv4_cidr (show_cidr c) = Ok c) ∧
  (∀ value, parse_ipv4_cidr value = Ok c → wf_cidr c).
Proof.
  split; [|intros value; apply parse_ipv4_cidr_wf]. intros [Hp Hn Ha].
  unfold parse_ipv4_cidr, show_cidr.
  rewrite (split_once_app "/" (show_ipv4 (network c)) (show_dec (prefix c)));
    [by apply show_ipv4_no_slash|].
  cbn [ok_or result_bind]. rewrite parse_ipv4_show //. cbn [ok_or result_bind].
  destruct (show_octet_chars (prefix c)) as (_ & _ & ->); [width_lia|]. cbn [ok_or result_bind].
  destruct (Z.ltb_spec 32 (prefix c)); [lia|].
  rewrite cidr_mask_land; [done..|]. unfold cidr_size in Ha. rewrite Ha Z.sub_0_r. by destruct c.
Qed.

(** ** The characters of an accepted CIDR *)

Lemma parse_ipv4_cidr_chars value c :
  parse_ipv4_cidr value = Ok c → str_forallb cidr_char value = true.
Proof.
  intros H. apply parse_ipv4_cidr_inv in H as (l & r & ip & -> & Hip & Hp & _ & _).
  apply parse_ipv4_some in Hip as [_ Hl]. apply parse_uint_some in Hp as [_ Hr]; [|done].
  rewrite !str_forallb_app !andb_true_iff. split_and!; try done.
  - revert Hl. apply str_forallb_impl. unfold cidr_char. by intros a ->.
  - revert Hr. apply str_forallb_impl. unfold cidr_char, ipv4_char. intros a.
    by destruct (is_digit a), (Ascii.eqb a "."), (Ascii.eqb a "/").
Qed.

(** The parser of the prefix length accepts a leading [+], which no CIDR
    notation has. *)
Example cidr_plus_accepted : parse_ipv4_cidr "10.0.0.0/+8" = Ok (mkCidr 167772160 8).
Proof. vm_compute. reflexivity. Qed.
