(* ===== verification/Nft.v ===== *)
(** * Firewall rendering (crates/oad/src/network.rs)

    The nftables ruleset and the host firewall rules that the network manager
    generates from the sandboxes' network states, and the validation of the
    policies they are generated from.  The text written with [writeln!] is the
    list of its lines, which [ruleset_text] terminates. *)
From S2P Require Import Prelude Str Core Cidr.

Record SandboxNetworkState : Type := mkNetState {
  ns_sandbox_id : SandboxId;
  token : string;
  netns_name : string;
  host_veth : string;
  sandbox_ip : Z;
  host_ip : Z;
  prefix_len : Z;
  subnet_index : Z;
  ns_spec : SandboxNetworkSpec;
}.

#[global] Instance SandboxNetworkState_eq_dec : EqDecision SandboxNetworkState.
Proof. solve_decision. Defined.

(** ** Validation of policies *)

Definition validate_port (p : PortRange) : result NetworkError unit :=
  if (port_end p <? port_start p)%Z
  then Err (InvalidConfig (InvalidPortRange (port_start p) (port_end p))) else Ok tt.

Definition cidr_of (d : EgressDestination) : string := let '(Cidr cidr) := d in cidr.

Definition validate_rules (rules : list EgressRule) : result NetworkError unit :=
  for_each (λ rule,
    (parse_ipv4_cidr (cidr_of (destination rule)) ?;;
     for_each validate_port (ports rule))%rust) rules.

Definition validate_spec (spec : SandboxNetworkSpec) : result NetworkError unit :=
  (match egress spec with
   | AllowAll | DenyAll => Ok tt
   | Rules rules => validate_rules rules
   end ?;;
   validate_rules (allow (udp spec)) ?;;
   match latency_ms (shaping spec) with
   | Some latency => if (latency =? 0)%Z then Err (InvalidConfig ZeroLatency) else Ok tt
   | None => Ok tt
   end)%rust.

(** ** The nftables ruleset *)

Definition NFT_TABLE : string := "oad".
Definition NFT_FAMILY : string := "inet".

(** [    iifname "{}" ...]. *)
Definition iif (veth rest : string) : string :=
  "    iifname " ++ dquote ++ veth ++ dquote ++ " " ++ rest.

Fixpoint port_list (first : bool) (l : list PortRange) : string :=
  match l with
  | [] => ""
  | p :: l =>
      (if first then "" else ", ") ++
      (if (port_start p =? port_end p)%Z then show_dec (port_start p)
       else show_dec (port_start p) ++ "-" ++ show_dec (port_end p)) ++
      port_list false l
  end.

Definition nft_port_set (ports : list PortRange) : string :=
  match ports with
  | [p] => if (port_start p =? port_end p)%Z then show_dec (port_start p)
           else "{ " ++ port_list true ports ++ " }"
  | _ => "{ " ++ port_list true ports ++ " }"
  end.

Definition write_nft_rule (iifname protocol : string) (destination : EgressDestination)
    (ports : list PortRange) (verdict : string) : result NetworkError (list string) :=
  let cidr := cidr_of destination in
  (parse_ipv4_cidr cidr ?;;
   if decide (protocol = "icmp") then
     Ok [iif iifname ("ip daddr " ++ cidr ++ " icmp type echo-request " ++ verdict)]
   else if decide (protocol = "tcp" ∨ protocol = "udp") then
     match ports with
     | [] => Ok [iif iifname ("ip daddr " ++ cidr ++ " meta l4proto " ++ protocol ++ " " ++ verdict)]
     | _ => Ok [iif iifname ("ip daddr " ++ cidr ++ " " ++ protocol ++ " dport " ++
                             nft_port_set ports ++ " " ++ verdict)]
     end
   else Err (InvalidConfig (UnsupportedNftProtocol protocol)))%rust.

Definition write_tcp_redirect_rules (state : SandboxNetworkState) (envoy_port : Z)
    : result NetworkError (list string) :=
  match egress (ns_spec state) with
  | AllowAll => Ok [iif (host_veth state) ("meta l4proto tcp redirect to :" ++ show_dec envoy_port)]
  | DenyAll => Ok []
  | Rules rules => flat_map_result (λ rule,
      match protocol rule with
      | Tcp | All => write_nft_rule (host_veth state) "tcp" (destination rule) (ports rule)
                       ("redirect to :" ++ show_dec envoy_port)
      | _ => Ok []
      end) rules
  end.

(** The lines of one rule of the policy in the forward chain. *)
Definition write_forward_rule (state : SandboxNetworkState) (rule : EgressRule)
    : result NetworkError (list string) :=
  let veth := host_veth state in
  let dest := destination rule in
  match protocol rule with
  | Tcp => if transparent_tcp (l7 (ns_spec state)) then Ok []
           else write_nft_rule veth "tcp" dest (ports rule) "accept"
  | Udp => write_nft_rule veth "udp" dest (ports rule) "accept"
  | Icmp => write_nft_rule veth "icmp" dest [] "accept"
  | All =>
      (t <-? (if negb (transparent_tcp (l7 (ns_spec state)))
              then write_nft_rule veth "tcp" dest (ports rule) "accept" else Ok []) ;;
       u <-? write_nft_rule veth "udp" dest (ports rule) "accept" ;;
       i <-? write_nft_rule veth "icmp" dest [] "accept" ;;
       Ok (t ++ u ++ i)%list)%rust
  end.

Definition write_forward_rules (state : SandboxNetworkState) : result NetworkError (list string) :=
  let veth := host_veth state in
  (udp_lines <-? flat_map_result (λ rule,
     write_nft_rule veth "udp" (destination rule) (ports rule) "accept") (allow (udp (ns_spec state))) ;;
   egress_lines <-? match egress (ns_spec state) with
     | AllowAll => Ok [iif veth "accept"]
     | DenyAll => Ok [iif veth "reject"]
     | Rules rules =>
         (lines <-? flat_map_result (write_forward_rule state) rules ;;
          Ok (lines ++ [iif veth "reject"])%list)
     end ;;
   Ok (udp_lines ++ egress_lines)%list)%rust.

(** The lines of one sandbox in each chain of [render_nft_ruleset]. *)
Definition prerouting_lines (envoy_port dns_port : Z) (state : SandboxNetworkState)
    : result NetworkError (list string) :=
  let veth := host_veth state in
  let dns := if dns_redirect (udp (ns_spec state)) then
      [iif veth ("udp dport 53 redirect to :" ++ show_dec dns_port);
       iif veth ("tcp dport 53 redirect to :" ++ show_dec dns_port)] else [] in
  (tcp <-? (if transparent_tcp (l7 (ns_spec state)) then
      lines <-? write_tcp_redirect_rules state envoy_port ;;
      Ok (iif veth ("ip daddr " ++ show_ipv4 (host_ip state) ++ " tcp dport { " ++
            show_dec envoy_port ++ ", " ++ show_dec dns_port ++ " } accept") :: lines)
    else Ok []) ;;
   Ok (dns ++ tcp)%list)%rust.

Definition input_lines (envoy_port dns_port : Z) (state : SandboxNetworkState) : list string :=
  let veth := host_veth state in
  let pair := "ip saddr " ++ show_ipv4 (sandbox_ip state) ++ " ip daddr " ++ show_ipv4 (host_ip state) in
  [ iif veth (pair ++ " udp dport " ++ show_dec dns_port ++ " accept");
    iif veth (pair ++ " tcp dport { " ++ show_dec envoy_port ++ ", " ++ show_dec dns_port ++ " } accept") ].

Definition forward_lines (state : SandboxNetworkState) : result NetworkError (list string) :=
  let quic := if block_quic (udp (ns_spec state))
              then [iif (host_veth state) "udp dport 443 reject"] else [] in
  (lines <-? write_forward_rules state ;; Ok (quic ++ lines)%list)%rust.

Definition config_port (addr : string) : result NetworkError Z :=
  result_map port_of (ok_or (parse_socket_addr addr) (AddrParse addr)).

Definition render_nft_ruleset (config : NetworkRuntimeConfig) (states : list SandboxNetworkState)
    : result NetworkError (list string) :=
  (cidr <-? parse_ipv4_cidr (sandbox_cidr config) ;;
   envoy_port <-? config_port (envoy_listener config) ;;
   dns_port <-? config_port (dns_listener config) ;;
   prerouting <-? flat_map_result (prerouting_lines envoy_port dns_port) states ;;
   forward <-? flat_map_result forward_lines states ;;
   Ok ([ "add table " +:+ NFT_FAMILY +:+ " " +:+ NFT_TABLE;
         "delete table " +:+ NFT_FAMILY +:+ " " +:+ NFT_TABLE;
         "table " +:+ NFT_FAMILY +:+ " " +:+ NFT_TABLE +:+ " {";
         "  chain prerouting { type nat hook prerouting priority dstnat; policy accept;" ]
       ++ prerouting ++
       [ "  }"; "  chain input { type filter hook input priority -300; policy accept;" ]
       ++ flat_map (input_lines envoy_port dns_port) states ++
       [ "  }"; "  chain forward { type filter hook forward priority -300; policy accept;" ]
       ++ forward ++
       [ "  }";
         "  chain postrouting { type nat hook postrouting priority srcnat; policy accept;";
         "    ip saddr " +:+ show_cidr cidr +:+ " masquerade";
         "  }"; "}" ])%list)%rust.

(** The script passed to [nft -f -]. *)
Definition ruleset_text (lines : list string) : string :=
  str_concat (map (λ l, l ++ nl) lines).

(** ** Host firewall rules *)

Record HostFirewallRule : Type := mkHostRule { chain : string; rule_args : list string }.

Definition invocation (rule : HostFirewallRule) (op : string) (extra : list string) : list string :=
  (["-w"; "2"; op; chain rule] ++ extra ++ rule_args rule)%list.

Definition host_input_accept_rule (state : SandboxNetworkState)
    (source destination protocol port comment : string) : HostFirewallRule :=
  mkHostRule "INPUT"
    ["-i"; host_veth state; "-s"; source; "-d"; destination; "-p"; protocol; "--dport"; port;
     "-m"; "comment"; "--comment"; comment; "-j"; "ACCEPT"].

Definition host_forward_out_rule (state : SandboxNetworkState) (source comment : string)
    : HostFirewallRule :=
  mkHostRule "FORWARD"
    ["-i"; host_veth state; "-s"; source; "-m"; "comment"; "--comment"; comment; "-j"; "ACCEPT"].

Definition host_forward_in_rule (state : SandboxNetworkState) (sandbox_destination comment : string)
    : HostFirewallRule :=
  mkHostRule "FORWARD"
    ["-o"; host_veth state; "-d"; sandbox_destination; "-m"; "conntrack"; "--ctstate";
     "RELATED,ESTABLISHED"; "-m"; "comment"; "--comment"; comment; "-j"; "ACCEPT"].

Definition host_firewall_rules (config : NetworkRuntimeConfig) (state : SandboxNetworkState)
    : result NetworkError (list HostFirewallRule) :=
  (dns_port <-? config_port (dns_listener config) ;;
   envoy_port <-? config_port (envoy_listener config) ;;
   let source := show_ipv4 (sandbox_ip state) ++ "/32" in
   let destination := show_ipv4 (host_ip state) ++ "/32" in
   let comment_prefix := "oad:" ++ as_str (ns_sandbox_id state) in
   Ok [ host_input_accept_rule state source destination "udp" (show_dec dns_port) (comment_prefix ++ ":dns-udp");
        host_input_accept_rule state source destination "tcp" (show_dec dns_port) (comment_prefix ++ ":dns-tcp");
        host_input_accept_rule state source destination "tcp" (show_dec envoy_port) (comment_prefix ++ ":envoy-tcp");
        host_forward_out_rule state source (comment_prefix ++ ":forward-out");
        host_forward_in_rule state source (comment_prefix ++ ":forward-in") ])%rust.

(** [NetworkManager::new]: the checks on the configuration. *)
Definition NetworkManager_new (config : NetworkRuntimeConfig) : result NetworkError unit :=
  if net_enabled config then
    (parse_ipv4_cidr (sandbox_cidr config) ?;;
     config_port (envoy_listener config) ?;;
     config_port (dns_listener config) ?;;
     config_port (dns_upstream config) ?;; Ok tt)%rust
  else Ok tt.

(** ** Validated policies render *)

Definition valid_rule (rule : EgressRule) : Prop :=
  ∃ c, parse_ipv4_cidr (cidr_of (destination rule)) = Ok c.

Record valid_spec (spec : SandboxNetworkSpec) : Prop := {
  valid_egress : match egress spec with Rules rules => Forall valid_rule rules | _ => True end;
  valid_allow : Forall valid_rule (allow (udp spec));
}.

Lemma validate_rules_valid rules : validate_rules rules = Ok tt → Forall valid_rule rules.
Proof.
  unfold validate_rules. rewrite for_each_ok. intros Hall. eapply Forall_impl; [exact Hall|].
  intros rule H. simpl in H. inv_ok. eexists. eassumption.
Qed.

Lemma validate_spec_valid spec : validate_spec spec = Ok tt → valid_spec spec.
Proof.
  unfold validate_spec. intros H. inv_ok.
  repeat match goal with u : unit |- _ => destruct u end.
  constructor; [|by apply validate_rules_valid].
  destruct (egress spec); [done..|]. by apply validate_rules_valid.
Qed.

(** *** Structured rules, and the text of each *)

Inductive NftMatch : Type :=
| MAll
| MUdp443
| MProto (cidr protocol : string)
| MPorts (cidr protocol : string) (ports : list PortRange)
| MIcmpEcho (cidr : string).

Inductive Verdict : Type := Accept | Reject.

Record NftRule : Type := mkNftRule { r_iif : string; r_match : NftMatch; r_verdict : Verdict }.

Definition print_match (m : NftMatch) : string :=
  match m with
  | MAll => ""
  | MUdp443 => "udp dport 443 "
  | MProto cidr protocol => "ip daddr " ++ cidr ++ " meta l4proto " ++ protocol ++ " "
  | MPorts cidr protocol ports =>
      "ip daddr " ++ cidr ++ " " ++ protocol ++ " dport " ++ nft_port_set ports ++ " "
  | MIcmpEcho cidr => "ip daddr " ++ cidr ++ " icmp type echo-request "
  end.

Definition print_verdict (v : Verdict) : string :=
  match v with Accept => "accept" | Reject => "reject" end.

Definition print_rule (r : NftRule) : string :=
  iif (r_iif r) (print_match (r_match r) ++ print_verdict (r_verdict r)).

Definition dest_match (protocol : string) (dest : EgressDestination) (ports : list PortRange) : NftMatch :=
  match ports with
  | [] => MProto (cidr_of dest) protocol
  | _ => MPorts (cidr_of dest) protocol ports
  end.

(** The matches under which a policy rule lets forwarded traffic through. *)
Definition rule_matches (spec : SandboxNetworkSpec) (rule : EgressRule) : list NftMatch :=
  let tcp := dest_match "tcp" (destination rule) (ports rule) in
  let udp := dest_match "udp" (destination rule) (ports rule) in
  let icmp := MIcmpEcho (cidr_of (destination rule)) in
  match protocol rule with
  | Tcp => if transparent_tcp (l7 spec) then [] else [tcp]
  | Udp => [udp]
  | Icmp => [icmp]
  | All => ((if transparent_tcp (l7 spec) then [] else [tcp]) ++ [udp; icmp])%list
  end.

Definition udp_match (rule : EgressRule) : NftMatch :=
  dest_match "udp" (destination rule) (ports rule).

Definition forward_rules (state : SandboxNetworkState) : list NftRule :=
  let spec := ns_spec state in
  let rule := mkNftRule (host_veth state) in
  ((if block_quic (udp spec) then [rule MUdp443 Reject] else [])
   ++ map (λ r, rule (udp_match r) Accept) (allow (udp spec))
   ++ match egress spec with
      | AllowAll => [rule MAll Accept]
      | DenyAll => [rule MAll Reject]
      | Rules rules =>
          map (λ m, rule m Accept) (flat_map (rule_matches spec) rules) ++ [rule MAll Reject]
      end)%list.

Lemma write_nft_rule_dest veth protocol dest ports verdict :
  protocol = "tcp" ∨ protocol = "udp" →
  (∃ c, parse_ipv4_cidr (cidr_of dest) = Ok c) →
  write_nft_rule veth protocol dest ports verdict =
    Ok [iif veth (print_match (dest_match protocol dest ports) ++ verdict)].
Proof.
  intros Hp [c Hc]. unfold write_nft_rule. rewrite Hc. cbn [result_bind].
  case_decide; [by destruct Hp; simplify_eq|]. case_decide; [|done].
  unfold dest_match. destruct ports; cbn [print_match]; unfold iif; by rewrite !app_assoc_s.
Qed.

Lemma write_nft_rule_icmp veth dest verdict :
  (∃ c, parse_ipv4_cidr (cidr_of dest) = Ok c) →
  write_nft_rule veth "icmp" dest [] verdict =
    Ok [iif veth (print_match (MIcmpEcho (cidr_of dest)) ++ verdict)].
Proof.
  intros [c Hc]. unfold write_nft_rule. rewrite Hc. cbn [result_bind].
  case_decide; [|done]. cbn [print_match]. unfold iif. by rewrite !app_assoc_s.
Qed.

Lemma write_forward_rule_matches state rule :
  valid_rule rule →
  write_forward_rule state rule =
    Ok (map (λ m, print_rule (mkNftRule (host_veth state) m Accept))
            (rule_matches (ns_spec state) rule)).
Proof.
  intros H. unfold write_forward_rule, rule_matches, print_rule. cbn [r_iif r_match r_verdict print_verdict].
  destruct (protocol rule), (transparent_tcp (l7 (ns_spec state)));
    cbn [negb]; rewrite ?(write_nft_rule_dest _ "tcp") ?(write_nft_rule_dest _ "udp")
      ?write_nft_rule_icmp; auto.
Qed.

Lemma flat_map_map {A B C} (f : A → list B) (g : B → C) (l : list A) :
  flat_map (λ x, map g (f x)) l = map g (flat_map f l).
Proof. induction l as [|x l IH]; simpl; [done|]. by rewrite map_app IH. Qed.

(** The forward lines of a sandbox are the text of its structured rules. *)
Lemma forward_lines_rules state :
  valid_spec (ns_spec state) → forward_lines state = Ok (map print_rule (forward_rules state)).
Proof.
  intros [He Ha]. unfold forward_lines, write_forward_rules, forward_rules.
  erewrite (flat_map_result_ok _ (λ r, [print_rule (mkNftRule (host_veth state) (udp_match r) Accept)])).
  2:{ eapply Forall_impl; [exact Ha|]. intros r Hr. rewrite write_nft_rule_dest; auto. }
  rewrite flat_map_singleton. cbn [result_bind].
  destruct (egress (ns_spec state)) as [| |rules]; cbn [result_bind].
  - rewrite !map_app !map_map. by destruct (block_quic _).
  - rewrite !map_app !map_map. by destruct (block_quic _).
  - rewrite (flat_map_result_ok _ _ _ (Forall_impl _ _ _ He (write_forward_rule_matches state))).
    cbn [result_bind]. rewrite flat_map_map !map_app !map_map. by destruct (block_quic _).
Qed.

Lemma redirect_lines_ok state port :
  valid_spec (ns_spec state) →
  ∃ rests, write_tcp_redirect_rules state port = Ok (map (iif (host_veth state)) rests) ∧
    Forall (λ r, r = "meta l4proto tcp redirect to :" ++ show_dec port ∨
      ∃ rule, r = print_match (dest_match "tcp" (destination rule) (ports rule))
                    ++ "redirect to :" ++ show_dec port ∧ valid_rule rule) rests.
Proof.
  intros [He _]. unfold write_tcp_redirect_rules.
  destruct (egress (ns_spec state)) as [| |rules].
  - eexists [_]. split; [done|]. constructor; [by left|constructor].
  - exists []. split; [done|constructor].
  - induction He as [|rule rules Hr _ (rests & IH & Hall)]; [exists []; split; [done|constructor]|].
    cbn [flat_map_result]. rewrite IH.
    destruct (protocol rule); rewrite ?(write_nft_rule_dest _ "tcp"); auto; cbn [result_bind];
      first [ exists rests; split; [done|exact Hall]
            | eexists (_ :: rests); split; [done|]; constructor; [right; by exists rule|exact Hall] ].
Qed.

Lemma prerouting_lines_ok envoy dns state :
  valid_spec (ns_spec state) → ∃ lines, prerouting_lines envoy dns state = Ok lines.
Proof.
  intros H. unfold prerouting_lines.
  destruct (redirect_lines_ok state envoy H) as (rests & -> & _).
  destruct (transparent_tcp _); cbn [result_bind]; by eexists.
Qed.

Lemma flat_map_result_total {E A B} (f : A → result E (list B)) (l : list A) :
  Forall (λ x, ∃ y, f x = Ok y) l → ∃ y, flat_map_result f l = Ok y.
Proof.
  induction 1 as [|x l [y Hy] _ [ys IH]]; simpl; [by eexists|].
  rewrite Hy IH. by eexists.
Qed.

(** ** The text of a rule is free of user-controlled syntax *)

(** Characters with no meaning of their own to [nft -f]: no newline, quote,
    semicolon, backslash or comment sign. *)
Definition plain_char (a : ascii) : bool :=
  supported_char (code a) || existsb (Ascii.eqb a) [" "; "/"; "+"; ":"; ","; "{"; "}"]%char.

Definition plain (s : string) : bool := str_forallb plain_char s.

Lemma plain_app a b : plain (a ++ b) = plain a && plain b.
Proof. apply str_forallb_app. Qed.

Lemma plain_dec n : plain (show_dec n) = true.
Proof.
  unfold plain. eapply str_forallb_impl; [|apply show_dec_digits].
  intros a. unfold is_digit, plain_char, supported_char, is_ascii_alphanumeric. intros ->. done.
Qed.

Lemma plain_cidr cidr c : parse_ipv4_cidr cidr = Ok c → plain cidr = true.
Proof.
  intros H%parse_ipv4_cidr_chars. unfold plain. eapply str_forallb_impl; [|exact H].
  intros a. unfold cidr_char, ipv4_char, plain_char, supported_char, is_ascii_alphanumeric, is_digit.
  destruct ((48 <=? code a)%Z && (code a <=? 57)%Z); [done|].
  rewrite !orb_true_iff. intros [[[|E]|E]|E]; [done|..]; apply Ascii.eqb_eq in E; subst; auto.
Qed.

Lemma plain_ipv4 ip : plain (show_ipv4 ip) = true.
Proof. unfold show_ipv4. by rewrite !plain_app !plain_dec. Qed.

Lemma plain_port_list b l : plain (port_list b l) = true.
Proof.
  revert b. induction l as [|p l IH]; intros b; [done|]. cbn [port_list].
  rewrite !plain_app IH. destruct b, (port_start p =? port_end p)%Z; by rewrite ?plain_app ?plain_dec.
Qed.

Lemma plain_port_set l : plain (nft_port_set l) = true.
Proof.
  assert (∀ l, plain ("{ " ++ port_list true l ++ " }") = true) as Hset.
  { intros l'. by rewrite (plain_app "{ ") (plain_app (port_list _ _)) plain_port_list. }
  unfold nft_port_set. destruct l as [|p [|q l]]; [apply Hset| |apply Hset].
  destruct (_ =? _)%Z; [apply plain_dec|apply Hset].
Qed.

(** Proves [plain] of a concatenation piece by piece; no constant is unfolded. *)
Ltac solve_plain :=
  lazymatch goal with
  | |- plain (String.append ?a ?b) = true =>
      rewrite (plain_app a b); apply andb_true_iff; split; solve_plain
  | |- plain (show_dec _) = true => apply plain_dec
  | |- plain (show_ipv4 _) = true => apply plain_ipv4
  | |- plain (nft_port_set _) = true => apply plain_port_set
  | |- _ => first [assumption | reflexivity | idtac]
  end.

Lemma plain_dest_match protocol dest ports :
  plain protocol = true → (∃ c, parse_ipv4_cidr (cidr_of dest) = Ok c) →
  plain (print_match (dest_match protocol dest ports)) = true.
Proof.
  intros Hp [c Hc%plain_cidr]. unfold dest_match.
  destruct ports; cbn [print_match]; solve_plain.
Qed.

(** A line that matches on the interface of one of the sandboxes. *)
Definition sandbox_line (states : list SandboxNetworkState) (line : string) : Prop :=
  ∃ state rest, state ∈ states ∧ line = iif (host_veth state) rest ∧ plain rest = true.

Lemma forward_rules_plain state r :
  valid_spec (ns_spec state) → r ∈ forward_rules state →
  r_iif r = host_veth state ∧ plain (print_match (r_match r) ++ print_verdict (r_verdict r)) = true.
Proof.
  intros [He Ha] Hr. unfold forward_rules in Hr.
  assert (Hv : ∀ m v, plain (print_match m) = true → plain (print_match m ++ print_verdict v) = true).
  { intros m v Hm. rewrite plain_app Hm. by destruct v. }
  rewrite !elem_of_app in Hr. destruct Hr as [Hr|[Hr|Hr]].
  - destruct (block_quic _); [|by apply not_elem_of_nil in Hr].
    apply list_elem_of_singleton in Hr as ->. done.
  - apply list_elem_of_In, in_map_iff in Hr as (rule & <- & Hin%list_elem_of_In). split; [done|].
    apply Hv, plain_dest_match; [done|]. rewrite Forall_forall in Ha. by apply Ha.
  - destruct (egress (ns_spec state)) as [| |rules].
    1-2: apply list_elem_of_singleton in Hr as ->; done.
    apply elem_of_app in Hr as [Hr|Hr]; [|apply list_elem_of_singleton in Hr as ->; done].
    apply list_elem_of_In, in_map_iff in Hr as (m & <- & Hin). split; [done|]. apply Hv.
    apply in_flat_map in Hin as (rule & Hin%list_elem_of_In & Hm%list_elem_of_In).
    rewrite Forall_forall in He. specialize (He rule Hin).
    assert (plain (print_match (MIcmpEcho (cidr_of (destination rule)))) = true) as Hi.
    { destruct He as [c Hc%plain_cidr]. cbn [print_match]. solve_plain. }
    unfold rule_matches in Hm.
    destruct (protocol rule), (transparent_tcp (l7 (ns_spec state))); simpl in Hm;
      repeat (apply elem_of_cons in Hm as [->|Hm]; [first [exact Hi|by apply plain_dest_match]|]);
      by apply not_elem_of_nil in Hm.
Qed.

Lemma sandbox_line_mono states1 states2 l :
  (∀ s, s ∈ states1 → s ∈ states2) → sandbox_line states1 l → sandbox_line states2 l.
Proof. intros Hs (s & r & ? & ? & ?). exists s, r. auto. Qed.

Lemma flat_map_result_forall {E A B} (f : A → result E (list B)) (P : A → B → Prop) l ys :
  (∀ x y, x ∈ l → f x = Ok y → Forall (P x) y) → flat_map_result f l = Ok ys →
  Forall (λ y, ∃ x, x ∈ l ∧ P x y) ys.
Proof.
  revert ys. induction l as [|x l IH]; intros ys Hf H; simpl in H.
  { simplify_eq. constructor. }
  inv_ok. apply Forall_app. split.
  - eapply Forall_impl; [apply (Hf x); [left|eassumption]|]. intros y Hy. exists x. split; [left|done].
  - eapply Forall_impl; [apply IH; [|eassumption]|].
    + intros x' y ?. apply Hf. by right.
    + intros y (x' & ? & ?). exists x'. split; [by right|done].
Qed.

Definition own_line (state : SandboxNetworkState) (line : string) : Prop :=
  ∃ rest, line = iif (host_veth state) rest ∧ plain rest = true.

Lemma forward_lines_own state lines :
  valid_spec (ns_spec state) → forward_lines state = Ok lines → Forall (own_line state) lines.
Proof.
  intros Hv H. rewrite forward_lines_rules // in H. apply ok_inj in H as <-.
  apply Forall_forall. intros l Hl. apply list_elem_of_In, in_map_iff in Hl as (r & <- & Hr%list_elem_of_In).
  apply forward_rules_plain in Hr as [E Hr]; [|done]. eexists. unfold print_rule. by rewrite E.
Qed.

Lemma prerouting_lines_own envoy dns state lines :
  valid_spec (ns_spec state) → prerouting_lines envoy dns state = Ok lines →
  Forall (own_line state) lines.
Proof.
  intros Hv H. unfold prerouting_lines in H.
  destruct (redirect_lines_ok state envoy Hv) as (rests & E & Hall). rewrite E in H. clear E.
  assert (Hr : Forall (own_line state) (map (iif (host_veth state)) rests)).
  { apply Forall_forall. intros l Hl. apply list_elem_of_In, in_map_iff in Hl as (r & <- & Hr%list_elem_of_In).
    exists r. split; [done|]. rewrite Forall_forall in Hall.
    destruct (Hall r Hr) as [->|(rule & -> & Hrule)].
    - solve_plain.
    - solve_plain. by apply plain_dest_match. }
  assert (Hd : Forall (own_line state) (if dns_redirect (udp (ns_spec state)) then
      [iif (host_veth state) ("udp dport 53 redirect to :" ++ show_dec dns);
       iif (host_veth state) ("tcp dport 53 redirect to :" ++ show_dec dns)] else [])).
  { destruct (dns_redirect _); [|constructor].
    repeat constructor; eexists; (split; [reflexivity|]); solve_plain. }
  destruct (transparent_tcp _); cbn [result_bind] in H; apply ok_inj in H as <-;
    apply Forall_app; split; auto.
  constructor; [|done]. eexists. split; [reflexivity|].
  solve_plain.
Qed.

Lemma input_lines_own envoy dns state : Forall (own_line state) (input_lines envoy dns state).
Proof.
  unfold input_lines. repeat constructor; (eexists; split; [reflexivity|solve_plain]).
Qed.

Lemma own_lines_sandbox states lines :
  Forall (λ l, ∃ s, s ∈ states ∧ own_line s l) lines → Forall (sandbox_line states) lines.
Proof.
  intros H. eapply Forall_impl; [exact H|]. intros l (s & ? & rest & ? & ?). by exists s, rest.
Qed.

Lemma plain_no_nl s : plain s = true → str_forallb (not_char "010") s = true.
Proof.
  apply str_forallb_impl. intros a Ha. apply not_char_neq. by intros ->.
Qed.

Lemma sandbox_line_no_nl states l :
  Forall (λ s, plain (host_veth s) = true) states → sandbox_line states l →
  str_forallb (not_char "010") l = true.
Proof.
  intros Hv (s & rest & Hs & -> & Hrest). rewrite Forall_forall in Hv. specialize (Hv s Hs).
  apply plain_no_nl in Hv, Hrest. unfold iif.
  rewrite (str_forallb_app _ "    iifname ") (str_forallb_app _ dquote).
  rewrite (str_forallb_app _ (host_veth s)) (str_forallb_app _ dquote) (str_forallb_app _ " ").
  by rewrite Hv Hrest.
Qed.

(** C3. Rendering never fails and cannot be hijacked.  With a configuration
    that [NetworkManager::new] accepts and policies that [validate_spec]
    accepts, [render_nft_ruleset] succeeds whatever the policies say; the
    script splits, line by line, into a fixed skeleton and lines that each
    match on the interface of one of the sandboxes and contain no newline,
    quote or separator: the text of a policy cannot add, end or comment out a
    rule, nor touch another interface. *)
Theorem render_nft_ruleset_safe (config : NetworkRuntimeConfig) (states : list SandboxNetworkState) :
  net_enabled config = true → NetworkManager_new config = Ok tt →
  Forall (λ s, validate_spec (ns_spec s) = Ok tt ∧ plain (host_veth s) = true) states →
  ∃ cidr prerouting input forward,
    parse_ipv4_cidr (sandbox_cidr config) = Ok cidr ∧
    Forall (sandbox_line states) prerouting ∧ Forall (sandbox_line states) input ∧
    Forall (sandbox_line states) forward ∧
    let lines :=
      (["add table inet oad"; "delete table inet oad"; "table inet oad {";
        "  chain prerouting { type nat hook prerouting priority dstnat; policy accept;"] ++ prerouting ++
       ["  }"; "  chain input { type filter hook input priority -300; policy accept;"] ++ input ++
       ["  }"; "  chain forward { type filter hook forward priority -300; policy accept;"] ++ forward ++
       ["  }"; "  chain postrouting { type nat hook postrouting priority srcnat; policy accept;";
        "    ip saddr " +:+ show_cidr cidr +:+ " masquerade"; "  }"; "}"])%list in
    render_nft_ruleset config states = Ok lines ∧
    split_char "010" (ruleset_text lines) = (lines ++ [""])%list.
Proof.
  intros Hen Hnew Hst. unfold NetworkManager_new in Hnew. rewrite Hen in Hnew. inv_ok.
  assert (Hvs : Forall (λ s, valid_spec (ns_spec s)) states).
  { eapply Forall_impl; [exact Hst|]. intros s [? _]. by apply validate_spec_valid. }
  assert (Hpl : Forall (λ s, plain (host_veth s) = true) states).
  { eapply Forall_impl; [exact Hst|]. by intros s [_ ?]. }
  rewrite Forall_forall in Hvs.
  rename select (parse_ipv4_cidr _ = _) into Hcidr.
  rename select (config_port (envoy_listener _) = _) into Henvoy.
  rename select (config_port (dns_listener _) = _) into Hdns.
  destruct (flat_map_result_total (prerouting_lines a0 a1) states) as [pre Hpre].
  { apply Forall_forall. intros s Hs. by apply prerouting_lines_ok, Hvs. }
  destruct (flat_map_result_total forward_lines states) as [fwd Hfwd].
  { apply Forall_forall. intros s Hs. eexists. by apply forward_lines_rules, Hvs. }
  exists a, pre, (flat_map (input_lines a0 a1) states), fwd.
  assert (Forall (sandbox_line states) pre) as Hpre'.
  { apply own_lines_sandbox. eapply flat_map_result_forall; [|exact Hpre].
    intros s y Hs. by apply prerouting_lines_own, Hvs. }
  assert (Forall (sandbox_line states) fwd) as Hfwd'.
  { apply own_lines_sandbox. eapply flat_map_result_forall; [|exact Hfwd].
    intros s y Hs. by apply forward_lines_own, Hvs. }
  assert (Forall (sandbox_line states) (flat_map (input_lines a0 a1) states)) as Hinp'.
  { apply own_lines_sandbox, Forall_forall. intros l Hl.
    apply list_elem_of_In, in_flat_map in Hl as (s & Hs%list_elem_of_In & Hl%list_elem_of_In).
    exists s. split; [done|]. pose proof (input_lines_own a0 a1 s) as Hi.
    rewrite Forall_forall in Hi. by apply Hi. }
  split_and!; [done..|]. intros lines. split.
  - unfold render_nft_ruleset. rewrite Hcidr. cbn [result_bind]. rewrite Henvoy. cbn [result_bind].
    rewrite Hdns. cbn [result_bind]. rewrite Hpre. cbn [result_bind]. by rewrite Hfwd.
  - apply split_lines. unfold lines.
    assert (∀ ls, Forall (sandbox_line states) ls → Forall (λ x, str_forallb (not_char "010") x = true) ls) as Hnl.
    { intros ls Hls. eapply Forall_impl; [exact Hls|]. intros l. by apply sandbox_line_no_nl. }
    assert (plain ("    ip saddr " +:+ show_cidr a +:+ " masquerade") = true) as Hm%plain_no_nl.
    { unfold show_cidr. solve_plain. }
    repeat (apply Forall_app; split); auto; repeat constructor; done.
Qed.

Definition demo_state (id veth : string) (host sandbox : Z) (spec : SandboxNetworkSpec) : SandboxNetworkState :=
  mkNetState (mkSandboxId id) "0000000001" "oad-0000000001" veth sandbox host 30 0 spec.

Definition demo_spec : SandboxNetworkSpec :=
  mkNetworkSpec (Rules [mkEgressRule (Cidr "10.0.0.0/8") Tcp [mkPortRange 443 443];
                        mkEgressRule (Cidr "1.1.1.1/32") Udp [mkPortRange 53 60; mkPortRange 99 99]])
    shaping_default (mkL7 false) udp_default.

Lemma render_nft_ruleset_safe_witness :
  ∃ lines, render_nft_ruleset network_runtime_default
             [demo_state "a" "oadh0000000001" 173670401 173670402 demo_spec] = Ok lines.
Proof.
  destruct (render_nft_ruleset_safe network_runtime_default
     [demo_state "a" "oadh0000000001" 173670401 173670402 demo_spec]) as (c & p & i & f & _ & _ & _ & _ & E & _);
    [reflexivity|vm_compute; reflexivity|repeat constructor; vm_compute; reflexivity|].
  eexists. exact E.
Defined.

(** ** What the forward chain enforces

    The packet filter is the kernel's.  What the ruleset relies on is its
    documented behaviour: a base chain tries its rules in order, the first one
    whose expressions all match decides, and a chain with [policy accept]
    accepts what no rule matches. *)

Record Packet : Type := mkPacket {
  pk_iif : string;          (* the interface the packet came in by *)
  pk_daddr : Z;
  pk_proto : string;        (* meta l4proto *)
  pk_dport : Z;
  pk_echo : bool;           (* ICMP echo request *)
}.

Definition in_net (c : Ipv4Cidr) (ip : Z) : bool := (Z.land ip (cidr_mask (prefix c)) =? network c)%Z.

Definition in_range (p : Z) (r : PortRange) : bool := (port_start r <=? p)%Z && (p <=? port_end r)%Z.

Class Nft (nft_matches : NftMatch → Packet → bool) (nft_eval : list NftRule → Packet → Verdict) := {
  nft_all p : nft_matches MAll p = true;
  nft_udp443 p : nft_matches MUdp443 p = bool_decide (pk_proto p = "udp") && (pk_dport p =? 443)%Z;
  nft_proto cidr c proto p : parse_ipv4_cidr cidr = Ok c →
    nft_matches (MProto cidr proto) p = in_net c (pk_daddr p) && bool_decide (pk_proto p = proto);
  nft_ports cidr c proto ports p : parse_ipv4_cidr cidr = Ok c → ports ≠ [] →
    nft_matches (MPorts cidr proto ports) p =
      in_net c (pk_daddr p) && bool_decide (pk_proto p = proto) && existsb (in_range (pk_dport p)) ports;
  nft_echo cidr c p : parse_ipv4_cidr cidr = Ok c →
    nft_matches (MIcmpEcho cidr) p = in_net c (pk_daddr p) && pk_echo p;
  nft_nil p : nft_eval [] p = Accept;
  nft_cons r rules p : nft_eval (r :: rules) p =
    if bool_decide (r_iif r = pk_iif p) && nft_matches (r_match r) p
    then r_verdict r else nft_eval rules p;
}.

(** The policy, read without reference to nftables. *)
Definition dest_covers (d : EgressDestination) (p : Packet) : bool :=
  match parse_ipv4_cidr (cidr_of d) with Ok c => in_net c (pk_daddr p) | Err _ => false end.

Definition ports_cover (ports : list PortRange) (p : Packet) : bool :=
  match ports with [] => true | _ => existsb (in_range (pk_dport p)) ports end.

Definition flow_covers (proto : string) (rule : EgressRule) (p : Packet) : bool :=
  dest_covers (destination rule) p && bool_decide (pk_proto p = proto) && ports_cover (ports rule) p.

Definition echo_covers (rule : EgressRule) (p : Packet) : bool :=
  dest_covers (destination rule) p && pk_echo p.

(** TCP that is proxied transparently is redirected before it is forwarded. *)
Definition rule_permits (spec : SandboxNetworkSpec) (rule : EgressRule) (p : Packet) : bool :=
  let tcp := negb (transparent_tcp (l7 spec)) && flow_covers "tcp" rule p in
  match protocol rule with
  | Tcp => tcp
  | Udp => flow_covers "udp" rule p
  | Icmp => echo_covers rule p
  | All => tcp || flow_covers "udp" rule p || echo_covers rule p
  end.

Definition policy_verdict (spec : SandboxNetworkSpec) (p : Packet) : Verdict :=
  let to_verdict (b : bool) := if b then Accept else Reject in
  if block_quic (udp spec) && bool_decide (pk_proto p = "udp") && (pk_dport p =? 443)%Z then Reject
  else if existsb (λ rule, flow_covers "udp" rule p) (allow (udp spec)) then Accept
  else match egress spec with
       | AllowAll => Accept
       | DenyAll => Reject
       | Rules rules => to_verdict (existsb (λ rule, rule_permits spec rule p) rules)
       end.

Section enforcement.
Context {nft_matches nft_eval} `{!Nft nft_matches nft_eval}.

Lemma dest_match_covers proto rule p :
  valid_rule rule →
  nft_matches (dest_match proto (destination rule) (ports rule)) p = flow_covers proto rule p.
Proof.
  intros [c Hc]. unfold flow_covers, dest_covers, ports_cover, dest_match. rewrite Hc.
  destruct (ports rule) as [|r rs]; [by rewrite (nft_proto _ _ _ _ Hc) andb_true_r|].
  by rewrite (nft_ports _ _ _ _ _ Hc).
Qed.

Lemma icmp_match_covers rule p :
  valid_rule rule → nft_matches (MIcmpEcho (cidr_of (destination rule))) p = echo_covers rule p.
Proof. intros [c Hc]. unfold echo_covers, dest_covers. by rewrite Hc (nft_echo _ _ _ Hc). Qed.

Lemma nft_eval_other rules rest p :
  Forall (λ r, r_iif r ≠ pk_iif p) rules → nft_eval (rules ++ rest)%list p = nft_eval rest p.
Proof.
  induction 1 as [|r rules Hr _ IH]; [done|]. simpl. rewrite nft_cons bool_decide_false //.
Qed.

(** A block of accepting rules decides when one of its matches holds. *)
Lemma nft_eval_accepts {A} (f : A → NftMatch) l rest p :
  nft_eval (map (λ x, mkNftRule (pk_iif p) (f x) Accept) l ++ rest)%list p =
  if existsb (λ x, nft_matches (f x) p) l then Accept else nft_eval rest p.
Proof.
  induction l as [|x l IH]; [done|]. simpl. rewrite nft_cons bool_decide_true //= IH.
  by destruct (nft_matches (f x) p).
Qed.

Lemma existsb_flat_map {A B} (f : A → list B) (q : B → bool) l :
  existsb q (flat_map f l) = existsb (λ x, existsb q (f x)) l.
Proof. induction l as [|x l IH]; [done|]. simpl. by rewrite existsb_app IH. Qed.

Lemma existsb_ext_forall {A} (f g : A → bool) l : Forall (λ x, f x = g x) l → existsb f l = existsb g l.
Proof. induction 1 as [|x l Hx _ IH]; [done|]. simpl. by rewrite Hx IH. Qed.

Lemma rule_matches_permits spec rule p :
  valid_rule rule →
  existsb (λ m, nft_matches m p) (rule_matches spec rule) = rule_permits spec rule p.
Proof.
  intros Hv. unfold rule_matches, rule_permits.
  pose proof (dest_match_covers "tcp" rule p Hv) as Ht.
  pose proof (dest_match_covers "udp" rule p Hv) as Hu. pose proof (icmp_match_covers rule p Hv) as Hi.
  destruct (protocol rule), (transparent_tcp (l7 spec)); simpl; rewrite ?Ht ?Hu ?Hi ?orb_false_r ?orb_assoc //.
Qed.

(** The rules of a sandbox decide every packet that comes from it, as its policy says. *)
Lemma forward_rules_verdict state rest p :
  valid_spec (ns_spec state) → pk_iif p = host_veth state →
  nft_eval (forward_rules state ++ rest)%list p = policy_verdict (ns_spec state) p.
Proof.
  intros [He Ha] Hp. unfold forward_rules, policy_verdict. rewrite -Hp.
  assert (Hallow : existsb (λ r, nft_matches (udp_match r) p) (allow (udp (ns_spec state))) =
                   existsb (λ r, flow_covers "udp" r p) (allow (udp (ns_spec state)))).
  { apply existsb_ext_forall. eapply Forall_impl; [exact Ha|]. intros r. apply dest_match_covers. }
  assert (Htail : ∀ rest', nft_eval ((map (λ r, mkNftRule (pk_iif p) (udp_match r) Accept)
        (allow (udp (ns_spec state))) ++ match egress (ns_spec state) with
           | AllowAll => [mkNftRule (pk_iif p) MAll Accept]
           | DenyAll => [mkNftRule (pk_iif p) MAll Reject]
           | Rules rules => map (λ m, mkNftRule (pk_iif p) m Accept)
               (flat_map (rule_matches (ns_spec state)) rules) ++ [mkNftRule (pk_iif p) MAll Reject]
           end) ++ rest')%list p =
        if existsb (λ rule, flow_covers "udp" rule p) (allow (udp (ns_spec state))) then Accept
        else match egress (ns_spec state) with
             | AllowAll => Accept | DenyAll => Reject
             | Rules rules => if existsb (λ rule, rule_permits (ns_spec state) rule p) rules
                              then Accept else Reject
             end).
  { intros rest'. rewrite -app_assoc nft_eval_accepts Hallow.
    destruct (existsb (λ rule, flow_covers "udp" rule p) _); [reflexivity|].
    destruct (egress (ns_spec state)) as [| |rules].
    1-2: by rewrite /= nft_cons /= bool_decide_true // nft_all.
    rewrite -app_assoc (nft_eval_accepts (λ m, m)) existsb_flat_map.
    rewrite (existsb_ext_forall _ (λ rule, rule_permits (ns_spec state) rule p)).
    { eapply Forall_impl; [exact He|]. intros r. apply rule_matches_permits. }
    case_match; [reflexivity|]. by rewrite /= nft_cons /= bool_decide_true // nft_all. }
  destruct (block_quic _); [|by rewrite app_nil_l Htail].
  rewrite -app_assoc /= nft_cons /= bool_decide_true // nft_udp443 /=.
  destruct (_ && _); [done|]. apply Htail.
Qed.

Lemma forward_rules_iif state r : r ∈ forward_rules state → r_iif r = host_veth state.
Proof.
  unfold forward_rules. rewrite !elem_of_app. intros [H|[H|H]].
  - destruct (block_quic _); [by apply list_elem_of_singleton in H as ->|by apply not_elem_of_nil in H].
  - by apply list_elem_of_In, in_map_iff in H as (? & <- & _).
  - destruct (egress _); [by apply list_elem_of_singleton in H as ->..|].
    apply elem_of_app in H as [H|H]; [|by apply list_elem_of_singleton in H as ->].
    by apply list_elem_of_In, in_map_iff in H as (? & <- & _).
Qed.

Lemma nft_eval_states states p :
  Forall (λ s, valid_spec (ns_spec s)) states → NoDup (map host_veth states) →
  nft_eval (flat_map forward_rules states) p =
    match find_first (λ s, bool_decide (host_veth s = pk_iif p)) states with
    | Some state => policy_verdict (ns_spec state) p
    | None => Accept
    end.
Proof.
  induction 1 as [|s states Hs _ IH]; simpl; intros Hnd; [apply nft_nil|].
  apply NoDup_cons in Hnd as [_ Hnd]. case_bool_decide as E.
  - by apply forward_rules_verdict.
  - rewrite nft_eval_other ?IH //. apply Forall_forall. intros r ->%forward_rules_iif. done.
Qed.
End enforcement.

(** C4. The forward chain enforces the policies.  For validated policies of
    sandboxes with interfaces of their own, the lines rendered for the forward
    chain are the text of rules under which the packet filter decides every
    packet from a sandbox exactly as that sandbox's policy says (QUIC block,
    UDP exceptions, the egress rules in order with a final reject), whatever
    the other sandboxes' policies are, and leaves packets from any other
    interface alone. *)
Theorem forward_chain_enforces_policy {nft_matches nft_eval} `{!Nft nft_matches nft_eval}
    (states : list SandboxNetworkState) :
  Forall (λ s, validate_spec (ns_spec s) = Ok tt) states → NoDup (map host_veth states) →
  ∃ rules, flat_map_result forward_lines states = Ok (map print_rule rules) ∧
    (∀ state p, state ∈ states → pk_iif p = host_veth state →
       nft_eval rules p = policy_verdict (ns_spec state) p) ∧
    (∀ p, pk_iif p ∉ map host_veth states → nft_eval rules p = Accept).
Proof.
  intros Hv Hnd. exists (flat_map forward_rules states).
  assert (Forall (λ s, valid_spec (ns_spec s)) states) as Hvs.
  { eapply Forall_impl; [exact Hv|]. intros s. apply validate_spec_valid. }
  split_and!.
  - rewrite (flat_map_result_ok _ (λ s, map print_rule (forward_rules s))); last first.
    + f_equal. clear. induction states as [|s states IH]; [done|]. cbn [flat_map]. by rewrite map_app IH.
    + eapply Forall_impl; [exact Hvs|]. intros s. apply forward_lines_rules.
  - intros state p Hs Hp. rewrite nft_eval_states //.
    destruct (find_first_is_some (λ s, bool_decide (host_veth s = pk_iif p)) states state) as [s Es];
      [done|by apply bool_decide_true|].
    rewrite Es. apply find_first_some in Es as [Hin Hq%bool_decide_eq_true].
    assert (s = state) as ->; [|done].
    apply (list_elem_of_lookup_1 states) in Hin as [i Hi]. apply (list_elem_of_lookup_1 states) in Hs as [j Hj].
    assert (i = j) as ->; [|by simplify_eq].
    eapply NoDup_lookup; [exact Hnd|..]; rewrite list_lookup_fmap ?Hi ?Hj //=. by rewrite Hq Hp.
  - intros p Hp. rewrite nft_eval_states //. destruct (find_first _ _) as [s|] eqn:E; [|done].
    apply find_first_some in E as [Hin Hq%bool_decide_eq_true]. destruct Hp. rewrite -Hq.
    by apply list_elem_of_In, in_map, list_elem_of_In.
Qed.

(** A packet filter with the documented behaviour. *)
Definition ref_matches (m : NftMatch) (p : Packet) : bool :=
  let net cidr := match parse_ipv4_cidr cidr with Ok c => in_net c (pk_daddr p) | Err _ => false end in
  match m with
  | MAll => true
  | MUdp443 => bool_decide (pk_proto p = "udp") && (pk_dport p =? 443)%Z
  | MProto cidr proto => net cidr && bool_decide (pk_proto p = proto)
  | MPorts cidr proto ports => net cidr && bool_decide (pk_proto p = proto) && existsb (in_range (pk_dport p)) ports
  | MIcmpEcho cidr => net cidr && pk_echo p
  end.

Fixpoint ref_eval (rules : list NftRule) (p : Packet) : Verdict :=
  match rules with
  | [] => Accept
  | r :: rules => if bool_decide (r_iif r = pk_iif p) && ref_matches (r_match r) p
                  then r_verdict r else ref_eval rules p
  end.

#[global] Instance ref_nft : Nft ref_matches ref_eval.
Proof. split; intros; simpl; rewrite ?H //; by repeat case_match. Qed.

Lemma forward_chain_enforces_policy_witness :
  let s1 := demo_state "a" "oadh0000000001" 173670401 173670402 demo_spec in
  let s2 := demo_state "b" "oadh0000000002" 173670405 173670406 network_default in
  ∃ rules, flat_map_result forward_lines [s1; s2] = Ok (map print_rule rules) ∧
    ref_eval rules (mkPacket "oadh0000000001" 16843009 "udp" 55 false) = Accept ∧
    ref_eval rules (mkPacket "oadh0000000001" 16843009 "udp" 98 false) = Reject ∧
    ref_eval rules (mkPacket "oadh0000000002" 16843009 "udp" 98 false) = Accept.
Proof.
  intros s1 s2.
  destruct (forward_chain_enforces_policy (nft_matches := ref_matches) (nft_eval := ref_eval) [s1; s2])
    as (rules & E & H & _).
  - repeat constructor; vm_compute; reflexivity.
  - apply (bool_decide_unpack _). vm_compute. exact I.
  - exists rules. split; [exact E|]. split_and!.
    + rewrite (H s1); [left|reflexivity|vm_compute; reflexivity].
    + rewrite (H s1); [left|reflexivity|vm_compute; reflexivity].
    + rewrite (H s2); [right; left|reflexivity|vm_compute; reflexivity].
Defined.
