(* ===== verification/Effect.v ===== *)
(** * Effectful code: state, errors and crashes

    The daemon's asynchronous functions are state transformers whose outcome is
    a value, an error that [?] propagates, or [Crash]: the process dies, or the
    future is dropped, at that point.  A crash cannot be caught, so a property
    that holds whatever the outcome covers every interruption. *)
From S2P Require Import Prelude.

Inductive outcome (E A : Type) : Type :=
| Ret (a : A)
| Throw (e : E)
| Crash.
Arguments Ret {E A} a.
Arguments Throw {E A} e.
Arguments Crash {E A}.

Definition M (S E A : Type) : Type := S → outcome E A * S.

#[global] Instance M_ret {S E} : MRet (M S E) := λ A a s, (Ret a, s).

#[global] Instance M_bind {S E} : MBind (M S E) := λ A B k m s,
  match m s with
  | (Ret a, s') => k a s'
  | (Throw e, s') => (Throw e, s')
  | (Crash, s') => (Crash, s')
  end.

#[global] Instance M_fmap {S E} : FMap (M S E) := λ A B f m s,
  match m s with
  | (Ret a, s') => (Ret (f a), s')
  | (Throw e, s') => (Throw e, s')
  | (Crash, s') => (Crash, s')
  end.

Section monad.
Context {S E : Type}.

Definition throw {A} (e : E) : M S E A := λ s, (Throw e, s).
(** [panic!], and a failed [expect]. *)
Definition panic {A} : M S E A := λ s, (Crash, s).
Definition get_state : M S E S := λ s, (Ret s, s).
Definition gets {A} (f : S → A) : M S E A := λ s, (Ret (f s), s).
Definition modify (f : S → S) : M S E () := λ s, (Ret tt, f s).
Definition lift_result {A} (r : result E A) : M S E A := λ s,
  (match r with Ok a => Ret a | Err e => Throw e end, s).

(** [m.await] inspected with [match]: the error becomes a value. *)
Definition attempt {F A} (m : M S E A) : M S F (result E A) := λ s,
  match m s with
  | (Ret a, s') => (Ret (Ok a), s')
  | (Throw e, s') => (Ret (Err e), s')
  | (Crash, s') => (Crash, s')
  end.

(** [let _ = m.await;] *)
Definition ignore {F A} (m : M S E A) : M S F () := (attempt m : M S F (result E A)) ;; mret tt.

Definition mapE {F A} (f : E → F) (m : M S E A) : M S F A := λ s,
  match m s with
  | (Ret a, s') => (Ret a, s')
  | (Throw e, s') => (Throw (f e), s')
  | (Crash, s') => (Crash, s')
  end.

(** [let result = async { m }.await; if result.is_err() { cleanup }; result]. *)
Definition on_error {A} (cleanup : M S E ()) (m : M S E A) : M S E A := λ s,
  match m s with
  | (Throw e, s') => match cleanup s' with
      | (Crash, s'') => (Crash, s'')
      | (_, s'') => (Throw e, s'')
      end
  | r => r
  end.

(** [for x in l { f(x)?; }] *)
Fixpoint forM {A} (l : list A) (f : A → M S E ()) : M S E () :=
  match l with
  | [] => mret tt
  | x :: l => f x ;; forM l f
  end.

Fixpoint mapM_ {A B} (f : A → M S E B) (l : list A) : M S E (list B) :=
  match l with
  | [] => mret []
  | x :: l => y ← f x; ys ← mapM_ f l; mret (y :: ys)
  end.
End monad.

(** Runs code on a part of the state. *)
Definition zoom {S S' E A} (get : S → S') (set : S' → S → S) (m : M S' E A) : M S E A := λ s,
  let '(o, s') := m (get s) in (o, set s' s).

(** ** Weakest preconditions

    [wp m Q s]: run from [s], [m] ends with an outcome and a state in [Q]. *)
Definition wp {S E A} (m : M S E A) (Q : outcome E A → S → Prop) (s : S) : Prop :=
  let '(o, s') := m s in Q o s'.

Section wp.
Context {S E : Type}.
Implicit Types s : S.

Lemma wp_mono {A} (m : M S E A) (Q Q' : outcome E A → S → Prop) s :
  wp m Q s → (∀ o s', Q o s' → Q' o s') → wp m Q' s.
Proof. unfold wp. destruct (m s). auto. Qed.

Lemma wp_ret {A} (a : A) Q s : wp (mret a : M S E A) Q s ↔ Q (Ret a) s.
Proof. done. Qed.

Lemma wp_throw {A} e (Q : outcome E A → S → Prop) s : wp (throw e) Q s ↔ Q (Throw e) s.
Proof. done. Qed.

Lemma wp_bind {A B} (m : M S E A) (k : A → M S E B) Q s :
  wp (m ≫= k) Q s ↔
  wp m (λ o s', match o with
    | Ret a => wp (k a) Q s' | Throw e => Q (Throw e) s' | Crash => Q Crash s' end) s.
Proof. unfold wp, mbind, M_bind. by destruct (m s) as [[]]. Qed.

Lemma wp_attempt {F A} (m : M S E A) (Q : outcome F (result E A) → S → Prop) s :
  wp (attempt m) Q s ↔
  wp m (λ o s', match o with
    | Ret a => Q (Ret (Ok a)) s' | Throw e => Q (Ret (Err e)) s' | Crash => Q Crash s' end) s.
Proof. unfold wp, attempt. by destruct (m s) as [[]]. Qed.

Lemma wp_ignore {F A} (m : M S E A) (Q : outcome F () → S → Prop) s :
  wp (ignore m) Q s ↔
  wp m (λ o s', match o with Crash => Q Crash s' | _ => Q (Ret tt) s' end) s.
Proof. unfold wp, ignore, attempt, mbind, M_bind, mret, M_ret. by destruct (m s) as [[]]. Qed.

Lemma wp_mapE {F A} (f : E → F) (m : M S E A) Q s :
  wp (mapE f m) Q s ↔
  wp m (λ o s', match o with
    | Ret a => Q (Ret a) s' | Throw e => Q (Throw (f e)) s' | Crash => Q Crash s' end) s.
Proof. unfold wp, mapE. by destruct (m s) as [[]]. Qed.

Lemma wp_on_error {A} (c : M S E ()) (m : M S E A) Q s :
  wp (on_error c m) Q s ↔
  wp m (λ o s', match o with
    | Throw e => wp c (λ o' s'', match o' with Crash => Q Crash s'' | _ => Q (Throw e) s'' end) s'
    | o => Q o s' end) s.
Proof. unfold wp, on_error. destruct (m s) as [[a|e|] s']; try done. by destruct (c s') as [[]]. Qed.

Lemma wp_zoom {S' A} (get : S → S') (set : S' → S → S) (m : M S' E A) Q s :
  wp (zoom get set m) Q s ↔ wp m (λ o t, Q o (set t s)) (get s).
Proof. unfold wp, zoom. by destruct (m (get s)). Qed.
End wp.

(** ** Relations every step respects

    [steps R m]: whatever the outcome, [m] relates the states before and after
    by [R].  With [R] a preorder it holds of a program when it holds of its
    parts; an invariant [I] is [R s s' := I s → I s']. *)
Definition steps {S E A} (R : S → S → Prop) (m : M S E A) : Prop := ∀ s, R s (m s).2.

Section steps.
Context {S E : Type} (R : S → S → Prop) `{!PreOrder R}.

Lemma steps_pure {A} (m : M S E A) : (∀ s, (m s).2 = s) → steps R m.
Proof using Type*. intros H s. rewrite H. reflexivity. Qed.

Lemma steps_ret {A} (a : A) : steps R (mret a : M S E A).
Proof using Type*. by apply steps_pure. Qed.

Lemma steps_throw {A} (e : E) : steps R (throw e : M S E A).
Proof using Type*. by apply steps_pure. Qed.

Lemma steps_panic {A} : steps R (panic : M S E A).
Proof using Type*. by apply steps_pure. Qed.

Lemma steps_gets {A} (f : S → A) : steps R (gets f : M S E A).
Proof using Type*. by apply steps_pure. Qed.

Lemma steps_lift {A} (r : result E A) : steps R (lift_result r : M S E A).
Proof using Type*. by apply steps_pure. Qed.

Lemma steps_bind {A B} (m : M S E A) (k : A → M S E B) :
  steps R m → (∀ a, steps R (k a)) → steps R (m ≫= k).
Proof using Type*.
  intros Hm Hk s. unfold mbind, M_bind. specialize (Hm s).
  destruct (m s) as [[a|e|] s']; simpl in *; [|done..]. etrans; [exact Hm|apply Hk].
Qed.

Lemma steps_lift_bind {A B} (r : result E A) (k : A → M S E B) :
  (∀ a, r = Ok a → steps R (k a)) → steps R (lift_result r ≫= k).
Proof using Type*. intros Hk s. unfold mbind, M_bind, lift_result. destruct r as [a|e]; [by apply Hk|simpl; reflexivity]. Qed.

Lemma steps_attempt {F A} (m : M S E A) : steps R m → steps R (attempt m : M S F (result E A)).
Proof using Type*. intros Hm s. unfold attempt. specialize (Hm s). by destruct (m s) as [[a|e|] s']. Qed.

Lemma steps_mapE {F A} (f : E → F) (m : M S E A) : steps R m → steps R (mapE f m).
Proof using Type*. intros Hm s. unfold mapE. specialize (Hm s). by destruct (m s) as [[a|e|] s']. Qed.

Lemma steps_on_error {A} (c : M S E ()) (m : M S E A) :
  steps R c → steps R m → steps R (on_error c m).
Proof using Type*.
  intros Hc Hm s. unfold on_error. specialize (Hm s).
  destruct (m s) as [[a|e|] s']; simpl in *; [done| |done].
  specialize (Hc s'). destruct (c s') as [[]]; simpl in *; etrans; eassumption.
Qed.

Lemma steps_forM {A} (l : list A) (f : A → M S E ()) : (∀ x, steps R (f x)) → steps R (forM l f).
Proof using Type*. intros Hf. induction l as [|x l IH]; simpl; [apply steps_ret|]. apply steps_bind; auto. Qed.

Lemma steps_mapM {A B} (l : list A) (f : A → M S E B) : (∀ x, steps R (f x)) → steps R (mapM_ f l).
Proof using Type*.
  intros Hf. induction l as [|x l IH]; simpl; [apply steps_ret|].
  apply steps_bind; [apply Hf|]. intros b. apply steps_bind; [apply IH|]. intros bs. apply steps_ret.
Qed.
End steps.

Lemma steps_ignore {S E F A} (R : S → S → Prop) `{!PreOrder R} (m : M S E A) :
  steps R m → steps R (ignore m : M S F ()).
Proof. intros Hm. apply steps_bind; [done|by apply steps_attempt|]. intros r. by apply steps_ret. Qed.

Lemma steps_wp {S E A} (R : S → S → Prop) (m : M S E A) s :
  steps R m → wp m (λ _ s', R s s') s.
Proof. intros H. specialize (H s). unfold wp. by destruct (m s). Qed.

(** ** Which errors a program can end with *)

Definition throws {S E A} (P : E → Prop) (m : M S E A) : Prop :=
  ∀ s, match (m s).1 with Throw e => P e | _ => True end.

Section throws.
Context {S E : Type} (P : E → Prop).

Lemma throws_weaken {A} (Q : E → Prop) (m : M S E A) : throws Q m → (∀ e, Q e → P e) → throws P m.
Proof. intros Hm HQ s. specialize (Hm s). destruct (m s) as [[a|e|] s']; simpl in *; auto. Qed.

Lemma throws_ret {A} (a : A) : throws P (mret a : M S E A).
Proof. done. Qed.

Lemma throws_gets {A} (f : S → A) : throws P (gets f : M S E A).
Proof. done. Qed.

Lemma throws_modify (f : S → S) : throws P (modify f : M S E ()).
Proof. done. Qed.

Lemma throws_throw {A} (e : E) : P e → throws P (throw e : M S E A).
Proof. by intros H s. Qed.

Lemma throws_lift {A} (r : result E A) : errs P r → throws P (lift_result r : M S E A).
Proof. intros H s. unfold lift_result. by destruct r. Qed.

Lemma throws_bind {A A'} (m : M S E A) (k : A → M S E A') :
  throws P m → (∀ a, throws P (k a)) → throws P (m ≫= k).
Proof.
  intros Hm Hk s. specialize (Hm s). unfold mbind, M_bind. destruct (m s) as [[a|e|] s']; simpl in *; [apply Hk|done..].
Qed.

Lemma throws_attempt {F A} (m : M S F A) : throws P (attempt m : M S E (result F A)).
Proof. intros s. unfold attempt. by destruct (m s) as [[a|e|] s']. Qed.

Lemma throws_ignore {F A} (m : M S F A) : throws P (ignore m : M S E ()).
Proof. apply throws_bind; [apply throws_attempt|]. intros. apply throws_ret. Qed.

Lemma throws_mapE {F A} (f : F → E) (m : M S F A) : (∀ e, P (f e)) → throws P (mapE f m).
Proof. intros H s. unfold mapE. destruct (m s) as [[a|e|] s']; simpl; auto. Qed.

Lemma throws_mapE_only {F A} (f : F → E) (m : M S F A) : throws (λ e, P (f e)) m → throws P (mapE f m).
Proof. intros Hm s. specialize (Hm s). unfold mapE. by destruct (m s) as [[a|e|] s']. Qed.

Lemma throws_zoom {S' A} (get : S' → S) (set : S → S' → S') (m : M S E A) : throws P m → throws P (zoom get set m).
Proof. intros Hm s. specialize (Hm (get s)). unfold zoom. by destruct (m (get s)). Qed.

Lemma throws_mapM {A A'} (f : A → M S E A') (l : list A) : (∀ x, throws P (f x)) → throws P (mapM_ f l).
Proof.
  intros Hf. induction l as [|x l IH]; simpl; [apply throws_ret|]. apply throws_bind; [apply Hf|]. intros y.
  apply throws_bind; [exact IH|]. intros. apply throws_ret.
Qed.

Lemma throws_on_error {A} (c : M S E ()) (m : M S E A) : throws P m → throws P (on_error c m).
Proof.
  intros Hm s. specialize (Hm s). unfold on_error. destruct (m s) as [[a|e|] s']; simpl in *; try done.
  by destruct (c s') as [[] s''].
Qed.

Lemma throws_forM {A} (l : list A) (f : A → M S E ()) : (∀ x, throws P (f x)) → throws P (forM l f).
Proof. intros Hf. induction l as [|x l IH]; simpl; [apply throws_ret|by apply throws_bind]. Qed.
End throws.

(** ** Triples on a view of the state

    [triple_on view P m Q]: of the state only what [view] shows matters to the
    assertions; [Q] judges the outcome together with the view after it. *)
Definition triple_on {S V E A} (view : S → V) (P : V → Prop) (m : M S E A) (Q : outcome E A → V → Prop) : Prop :=
  ∀ s, P (view s) → wp m (λ o s', Q o (view s')) s.

Section triple_on.
Context {S V E : Type} (view : S → V).
Implicit Types P : V → Prop.

Lemma triple_on_bind {A A'} P (m : M S E A) R (k : A → M S E A') Q :
  triple_on view P m R →
  (∀ a, triple_on view (R (Ret a)) (k a) Q) →
  (∀ e v, R (Throw e) v → Q (Throw e) v) → (∀ v, R Crash v → Q Crash v) →
  triple_on view P (m ≫= k) Q.
Proof.
  intros Hm Hk Ht Hc s Hs. rewrite wp_bind. eapply wp_mono; [apply Hm, Hs|].
  intros [a|e|] s' H; simpl in *; [by apply Hk|auto..].
Qed.

Lemma triple_on_ret {A} (a : A) P (Q : outcome E A → V → Prop) :
  (∀ v, P v → Q (Ret a) v) → triple_on view P (mret a) Q.
Proof. intros H s Hs. by apply H. Qed.

Lemma triple_on_throw {A} (e : E) P (Q : outcome E A → V → Prop) :
  (∀ v, P v → Q (Throw e) v) → triple_on view P (throw e) Q.
Proof. intros H s Hs. by apply H. Qed.

Lemma triple_on_weaken {A} P P' (m : M S E A) Q Q' :
  triple_on view P m Q → (∀ v, P' v → P v) → (∀ o v, Q o v → Q' o v) → triple_on view P' m Q'.
Proof. intros Hm HP HQ s Hs. eapply wp_mono; [apply Hm, HP, Hs|]. auto. Qed.

Lemma triple_on_on_error {A} P (c : M S E ()) (m : M S E A) R Q :
  triple_on view P m R → (∀ a v, R (Ret a) v → Q (Ret a) v) → (∀ v, R Crash v → Q Crash v) →
  (∀ e, triple_on view (R (Throw e)) c (λ o v, match o with Crash => Q Crash v | _ => Q (Throw e) v end)) →
  triple_on view P (on_error c m) Q.
Proof.
  intros Hm Hr Hcr Hc s Hs. rewrite wp_on_error. eapply wp_mono; [apply Hm, Hs|].
  intros [a|e|] s' H; simpl in *; auto. eapply wp_mono; [exact (Hc e s' H)|]. by intros [].
Qed.

Lemma triple_on_ignore {F A} P (m : M S E A) (Q : outcome F () → V → Prop) :
  triple_on view P m (λ o v, match o with Crash => Q Crash v | _ => Q (Ret tt) v end) →
  triple_on view P (ignore m) Q.
Proof. intros H s Hs. rewrite wp_ignore. eapply wp_mono; [apply H, Hs|]. by intros []. Qed.

Lemma triple_on_attempt {F A} P (m : M S E A) (Q : outcome F (result E A) → V → Prop) :
  triple_on view P m (λ o v, match o with
    | Ret a => Q (Ret (Ok a)) v | Throw e => Q (Ret (Err e)) v | Crash => Q Crash v end) →
  triple_on view P (attempt m) Q.
Proof. intros H s Hs. rewrite wp_attempt. eapply wp_mono; [apply H, Hs|]. by intros []. Qed.

Lemma triple_on_mapE {F A} P (f : E → F) (m : M S E A) (Q : outcome F A → V → Prop) :
  triple_on view P m (λ o v, match o with
    | Ret a => Q (Ret a) v | Throw e => Q (Throw (f e)) v | Crash => Q Crash v end) →
  triple_on view P (mapE f m) Q.
Proof. intros H s Hs. rewrite wp_mapE. eapply wp_mono; [apply H, Hs|]. by intros []. Qed.

Lemma triple_on_lift {A} (r : result E A) P (Q : outcome E A → V → Prop) :
  (∀ v, P v → Q (match r with Ok a => Ret a | Err e => Throw e end) v) → triple_on view P (lift_result r) Q.
Proof. intros H s Hs. by apply H. Qed.

(** Code that leaves the view alone keeps every assertion. *)
Lemma triple_on_steps {A} P (m : M S E A) :
  steps (λ s s', view s' = view s) m → triple_on view P m (λ _, P).
Proof.
  intros H s Hs. specialize (H s). unfold wp. destruct (m s) as [o s']. simpl in H. by rewrite H.
Qed.
End triple_on.

Create HintDb steps.
#[export] Hint Resolve steps_ret steps_throw steps_panic steps_gets steps_lift steps_bind steps_attempt
  steps_mapE steps_on_error steps_forM steps_mapM steps_ignore : steps.

(** [wp_step]: computes a precondition one construct at a time. *)
Ltac wp_step :=
  first [ rewrite wp_bind | rewrite wp_ret | rewrite wp_throw | rewrite wp_attempt
        | rewrite wp_ignore | rewrite wp_mapE | rewrite wp_on_error | rewrite wp_zoom ].
