(* ===== verification/Os.v ===== *)
(** * Files and commands (crates/oad-core/src/lib.rs, and what every crate uses of the system)

    The file system is a finite map from paths to nodes.  Every system call
    consults the environment, which decides from the calls made so far whether
    the call proceeds, fails, or is the last the process makes; a call that is
    not atomic may stop half way.  The theorems quantify over all environments,
    so they hold under every combination of I/O errors and under a crash at any
    point.  The part of [oad-core] that writes files atomically is built on
    these calls. *)
From S2P Require Import Prelude Str Core Effect.

(** [std::io::Error], by kind. *)
Inductive IoError : Type :=
| NotFound
| AlreadyExists
| NotADirectory
| IsADirectory
| DirectoryNotEmpty
| IoOther (message : string).

#[global] Instance IoError_eq_dec : EqDecision IoError.
Proof. solve_decision. Defined.

(** [Path::display] of an absolute path. *)
Definition display (p : Path) : string := "/" ++ str_join "/" p.

Definition show_io_error (e : IoError) : string :=
  match e with
  | NotFound => "entity not found"
  | AlreadyExists => "entity already exists"
  | NotADirectory => "not a directory"
  | IsADirectory => "is a directory"
  | DirectoryNotEmpty => "directory not empty"
  | IoOther m => m
  end.

Definition show_status (code : option Z) : string :=
  match code with Some c => "exit status: " ++ show_dec c | None => "signal" end.

Inductive node (B : Type) : Type :=
| File (contents : B)
| Dir.
Arguments File {B} contents.
Arguments Dir {B}.

#[global] Instance node_eq_dec {B} `{EqDecision B} : EqDecision (node B).
Proof. solve_decision. Defined.

(** The contents of files are a type of their own: [text] is a string's UTF-8
    bytes, and a [Codec] is what [serde_json] does for a type. *)
Class Bytes (B : Type) := {
  text : string → B;
  to_text : B → string;         (* String::from_utf8_lossy *)
  bytes_empty : B;
  bytes_len : B → Z;
  bytes_from : Z → B → B;       (* from an offset on *)
}.

Class Codec (B A : Type) := {
  to_json : A → B;
  from_json : B → option A;
  from_to_json a : from_json (to_json a) = Some a;
}.

Inductive Call (B : Type) : Type :=
| CRead (p : Path)
| CExists (p : Path)
| CStat (p : Path)
| CReadDir (p : Path)
| CCreateDir (p : Path)
| CCreateNew (p : Path)
| CWrite (p : Path) (b : B)
| CAppend (p : Path)
| CCopy (src dst : Path)
| CRename (src dst : Path)
| CRemoveFile (p : Path)
| CRemoveDirAll (p : Path)
| CSync (p : Path)
| CBind (protocol addr : string)
| CRun (program : string) (args : list string) (stdin : option string).
Arguments CRead {B}. Arguments CExists {B}. Arguments CStat {B}. Arguments CReadDir {B}.
Arguments CCreateDir {B}. Arguments CCreateNew {B}. Arguments CWrite {B}. Arguments CAppend {B}.
Arguments CCopy {B}. Arguments CRename {B}. Arguments CRemoveFile {B}. Arguments CRemoveDirAll {B}.
Arguments CSync {B}. Arguments CBind {B}. Arguments CRun {B}.

Record Os (B : Type) : Type := mkOs {
  files : gmap Path (node B);
  calls : list (Call B);      (* latest first *)
  temp_counter : Z;           (* the static counter of [temp_path] *)
}.
Arguments mkOs {B}. Arguments files {B}. Arguments calls {B}. Arguments temp_counter {B}.

Inductive Reply : Type := Go | Fail (e : IoError) | Killed.

(** What became of a child process: it could not be spawned, it exited
    (successfully or not) with its output, or the daemon died meanwhile. *)
Inductive RunReply : Type :=
| SpawnFailed (e : IoError)
| Exited (success : bool) (code : option Z) (stdout stderr : string)
| RunKilled.

Class Env (B : Type) := {
  env_reply : list (Call B) → Call B → Reply;
  env_partial : list (Call B) → B;               (* left by an interrupted write *)
  env_survives : list (Call B) → Path → bool;    (* by an interrupted removal *)
  env_run : list (Call B) → Call B → RunReply;
  env_alive : list (Call B) → bool;              (* does a child still run? *)
  env_effect : list (Call B) → Call B → gmap Path (node B) → gmap Path (node B);
  env_pid : Z;
  env_nanos : list (Call B) → Z;
  env_tempfile : list (Call B) → string;         (* the random part of a name *)
}.

(** An environment that is never in the way. *)
Definition quiet {B} (e : Env B) : Prop := ∀ h c, env_reply (Env := e) h c = Go.

Section calls.
Context {B : Type} `{!Bytes B, !Env B}.
Notation IO := (M (Os B) IoError).
Implicit Types fs : gmap Path (node B).

Definition record_call (c : Call B) (s : Os B) : Os B := mkOs (files s) (c :: calls s) (temp_counter s).
Definition set_files fs (s : Os B) : Os B := mkOs fs (calls s) (temp_counter s).

(** A call: [run] is its effect, [broken] what an interruption leaves. *)
Definition sys {A : Type} (c : Call B) (run : gmap Path (node B) → result IoError (A * gmap Path (node B)))
    (broken : list (Call B) → gmap Path (node B) → gmap Path (node B)) : IO A := λ s,
  let s' := record_call c s in
  match env_reply (calls s) c with
  | Go => match run (files s) with
      | Ok (a, fs) => (Ret a, set_files fs s')
      | Err e => (Throw e, s')
      end
  | Fail e => (Throw e, set_files (broken (calls s) (files s)) s')
  | Killed => (Crash, set_files (broken (calls s) (files s)) s')
  end.

Definition atomic {A : Type} (c : Call B) run : IO A := sys c run (λ _ fs, fs).

(** A call that only looks. *)
Definition look {A : Type} (c : Call B) (f : gmap Path (node B) → result IoError A) : IO A :=
  atomic c (λ fs, match f fs with Ok a => Ok (a, fs) | Err e => Err e end).

(** The root is a directory that always exists. *)
Definition node_at fs (p : Path) : option (node B) :=
  match p with [] => Some Dir | _ => fs !! p end.

(** The error of a path that is not there. *)
Fixpoint missing_under fs (pre rest : Path) : IoError :=
  match rest with
  | [] => NotFound
  | c :: rest => match node_at fs pre with
      | Some (File _) => NotADirectory
      | _ => missing_under fs (pre ++ [c])%list rest
      end
  end.
Definition missing fs (p : Path) : IoError := missing_under fs [] p.

Definition read_file (p : Path) : IO B := look (CRead p) (λ fs,
  match node_at fs p with
  | Some (File b) => Ok b
  | Some Dir => Err IsADirectory
  | None => Err (missing fs p)
  end).

Definition try_exists (p : Path) : IO bool := look (CExists p) (λ fs,
  match node_at fs p with
  | Some _ => Ok true
  | None => match missing fs p with NotFound => Ok false | e => Err e end
  end).

Definition is_dir (p : Path) : IO bool := look (CStat p) (λ fs,
  match node_at fs p with
  | Some Dir => Ok true
  | Some (File _) => Ok false
  | None => Err (missing fs p)
  end).

(** The names in a directory, in the order of the map. *)
Definition children fs (p : Path) : list string :=
  omap (λ q : Path, match last q with
        | Some name => if decide (q = p ++ [name])%list then Some name else None
        | None => None
        end) (map fst (map_to_list fs)).

Definition read_dir (p : Path) : IO (list string) := look (CReadDir p) (λ fs,
  match node_at fs p with
  | Some Dir => Ok (children fs p)
  | Some (File _) => Err NotADirectory
  | None => Err (missing fs p)
  end).

Definition create_dir_entry (p : Path) : IO () := atomic (CCreateDir p) (λ fs,
  match node_at fs p with
  | Some Dir => Ok (tt, fs)
  | Some (File _) => Err AlreadyExists
  | None => Ok (tt, <[p := Dir]> fs)
  end).

Definition parent_is_dir fs (p : Path) : bool :=
  match parent p with
  | Some d => match node_at fs d with Some Dir => true | _ => false end
  | None => false
  end.

(** [fs::create_dir]. *)
Definition create_dir (p : Path) : IO () := atomic (CCreateDir p) (λ fs,
  match node_at fs p with
  | Some _ => Err AlreadyExists
  | None => if parent_is_dir fs p then Ok (tt, <[p := Dir]> fs) else Err (missing fs p)
  end).

Fixpoint create_dirs (pre rest : Path) : IO () :=
  match rest with
  | [] => mret tt
  | c :: rest => create_dir_entry (pre ++ [c])%list ;; create_dirs (pre ++ [c])%list rest
  end.

(** [fs::create_dir_all]. *)
Definition create_dir_all (p : Path) : IO () := create_dirs [] p.

(** [OpenOptions::new().write(true).create_new(true).open(p)]. *)
Definition create_new (p : Path) : IO () := atomic (CCreateNew p) (λ fs,
  match node_at fs p with
  | Some _ => Err AlreadyExists
  | None => if parent_is_dir fs p then Ok (tt, <[p := File bytes_empty]> fs)
            else Err (missing fs p)
  end).

(** [file.write_all(body)] on a file just opened. *)
Definition write_all (p : Path) (b : B) : IO () := sys (CWrite p b)
  (λ fs, Ok (tt, <[p := File b]> fs))
  (λ h fs, <[p := File (env_partial h)]> fs).

Definition copy_file (src dst : Path) : IO () := sys (CCopy src dst)
  (λ fs, match node_at fs src, node_at fs dst with
     | Some (File b), Some Dir => Err IsADirectory
     | Some (File b), _ => if parent_is_dir fs dst then Ok (tt, <[dst := File b]> fs)
                           else Err (missing fs dst)
     | Some Dir, _ => Err (IoOther "the source path is neither a regular file nor a symlink to a regular file")
     | None, _ => Err (missing fs src)
     end)
  (λ h fs, <[dst := File (env_partial h)]> fs).

(** [rename]: the subtree at [src] becomes the subtree at [dst]. *)
Definition rename_files (src dst : Path) fs : gmap Path (node B) :=
  list_to_map (map (λ pn : Path * node B, (dst ++ drop (length src) pn.1, pn.2)%list)
                   (List.filter (λ pn, bool_decide (src `prefix_of` pn.1)) (map_to_list fs)))
  ∪ filter (λ pn : Path * node B, ¬ src `prefix_of` pn.1 ∧ ¬ dst `prefix_of` pn.1) fs.

Definition rename_run (src dst : Path) fs : result IoError (() * gmap Path (node B)) :=
  match fs !! src with
  | None => Err (missing fs src)
  | Some n =>
      if bool_decide (src = dst) then Ok (tt, fs) else
      if bool_decide (src `prefix_of` dst) then Err (IoOther "Invalid argument") else
      if negb (parent_is_dir fs dst) then Err (missing fs dst) else
      match n, fs !! dst with
      | File _, Some Dir => Err IsADirectory
      | Dir, Some (File _) => Err NotADirectory
      | Dir, Some Dir => match children fs dst with
          | [] => Ok (tt, rename_files src dst fs)
          | _ => Err DirectoryNotEmpty
          end
      | _, _ => Ok (tt, rename_files src dst fs)
      end
  end.

Definition rename (src dst : Path) : IO () := atomic (CRename src dst) (rename_run src dst).

Definition remove_file (p : Path) : IO () := atomic (CRemoveFile p) (λ fs,
  match node_at fs p with
  | Some (File _) => Ok (tt, delete p fs)
  | Some Dir => Err IsADirectory
  | None => Err (missing fs p)
  end).

(** [fs::remove_dir_all]: interrupted, it leaves any part of the tree. *)
Definition remove_dir_all (p : Path) : IO () := sys (CRemoveDirAll p)
  (λ fs, match fs !! p with
     | Some Dir => Ok (tt, filter (λ pn : Path * node B, ¬ p `prefix_of` pn.1) fs)
     | Some (File _) => Err NotADirectory
     | None => Err (missing fs p)
     end)
  (λ h fs, filter (λ pn : Path * node B, ¬ p `prefix_of` pn.1 ∨ env_survives h pn.1 = true) fs).

(** [File::open(p)?.sync_all()], for [sync_file] and [sync_dir]. *)
Definition sync_path (p : Path) : IO () := look (CSync p) (λ fs,
  match node_at fs p with Some _ => Ok tt | None => Err (missing fs p) end).
Definition sync_file := sync_path.
Definition sync_dir := sync_path.

(** [OpenOptions::new().create(true).append(true).open(p)]. *)
Definition open_append (p : Path) : IO () := atomic (CAppend p) (λ fs,
  match node_at fs p with
  | Some (File _) => Ok (tt, fs)
  | Some Dir => Err IsADirectory
  | None => if parent_is_dir fs p then Ok (tt, <[p := File bytes_empty]> fs)
            else Err (missing fs p)
  end).

(** A child process run to its end.  What it does to the file system is the
    environment's, whether it succeeds or not. *)
Definition run_command (program : string) (args : list string) (stdin : option string)
    : M (Os B) IoError (bool * option Z * string * string) := λ s,
  let c := CRun program args stdin in
  let s' := record_call c s in
  let after := set_files (env_effect (calls s) c (files s)) s' in
  match env_run (calls s) c with
  | SpawnFailed e => (Throw e, s')
  | Exited success code out err => (Ret (success, code, out, err), after)
  | RunKilled => (Crash, after)
  end.

(** A server socket. *)
Definition bind_socket (protocol addr : string) : IO () := look (CBind protocol addr) (λ _, Ok tt).

Definition fresh_temp_path (p : Path) : IO Path := λ s,
  (Ret (temp_path env_pid (env_nanos (calls s)) (temp_counter s) p),
   mkOs (files s) (calls s) (wrap64 (temp_counter s + 1))).

(** ** oad-core: files written atomically *)

Definition on_parent (p : Path) (f : Path → IO ()) : IO () :=
  match parent p with Some d => f d | None => mret tt end.

Definition publish_atomic_file (tmp path : Path) : IO () :=
  on_parent path create_dir_all ;;
  sync_file tmp ;;
  rename tmp path ;;
  on_parent path sync_dir.

Definition write_atomic_file (path : Path) (body : B) : IO () :=
  on_parent path create_dir_all ;;
  tmp ← fresh_temp_path path;
  on_error (ignore (remove_file tmp))
    (create_new tmp ;;
     write_all tmp body ;;
     publish_atomic_file tmp path).
End calls.

(** ** Facts about the calls *)

Section call_facts.
Context {B : Type} `{!Bytes B, !Env B}.
Notation IO := (M (Os B) IoError).
Implicit Types fs : gmap Path (node B).
Implicit Types s : Os B.

Lemma wp_sys {A : Type} (c : Call B)
    (run : gmap Path (node B) → result IoError (A * gmap Path (node B)))
    (broken : list (Call B) → gmap Path (node B) → gmap Path (node B)) (Q : outcome IoError A → Os B → Prop) s :
  (∀ a fs, run (files s) = Ok (a, fs) → Q (Ret a) (set_files fs (record_call c s))) →
  (∀ e, Q (Throw e) (record_call c s)) →
  (∀ e, Q (Throw e) (set_files (broken (calls s) (files s)) (record_call c s))) →
  Q Crash (set_files (broken (calls s) (files s)) (record_call c s)) →
  wp (sys c run broken) Q s.
Proof.
  intros Hok Herr Hbr Hcr. unfold wp, sys. destruct (env_reply _ _); [|done..].
  destruct (run (files s)) as [[a fs]|e] eqn:E; auto.
Qed.

(** Of the state only the files matter: the form every file property below has. *)
Definition triple {E A : Type} (P : gmap Path (node B) → Prop) (m : M (Os B) E A)
    (Q : outcome E A → gmap Path (node B) → Prop) : Prop := triple_on files P m Q.

Lemma triple_bind {E A A' : Type} (P : gmap Path (node B) → Prop) (m : M (Os B) E A) R (k : A → M (Os B) E A') Q :
  triple P m R →
  (∀ a, triple (R (Ret a)) (k a) Q) →
  (∀ e fs, R (Throw e) fs → Q (Throw e) fs) → (∀ fs, R Crash fs → Q Crash fs) →
  triple P (m ≫= k) Q.
Proof. apply triple_on_bind. Qed.

Lemma triple_ret {E A : Type} (a : A) (P : gmap Path (node B) → Prop) (Q : outcome E A → gmap Path (node B) → Prop) :
  (∀ fs, P fs → Q (Ret a) fs) → triple P (mret a) Q.
Proof. apply triple_on_ret. Qed.

Lemma triple_weaken {E A : Type} (P P' : gmap Path (node B) → Prop) (m : M (Os B) E A) Q Q' :
  triple P m Q → (∀ fs, P' fs → P fs) → (∀ o fs, Q o fs → Q' o fs) → triple P' m Q'.
Proof. apply triple_on_weaken. Qed.

Lemma triple_on_error {E A : Type} (P : gmap Path (node B) → Prop) (c : M (Os B) E ()) (m : M (Os B) E A) R Q :
  triple P m R → (∀ a fs, R (Ret a) fs → Q (Ret a) fs) → (∀ fs, R Crash fs → Q Crash fs) →
  (∀ e, triple (R (Throw e)) c (λ o fs, match o with Crash => Q Crash fs | _ => Q (Throw e) fs end)) →
  triple P (on_error c m) Q.
Proof. apply triple_on_on_error. Qed.

Lemma triple_ignore {E F A : Type} (P : gmap Path (node B) → Prop) (m : M (Os B) E A) (Q : outcome F () → gmap Path (node B) → Prop) :
  triple P m (λ o fs, match o with Crash => Q Crash fs | _ => Q (Ret tt) fs end) →
  triple P (ignore m) Q.
Proof. apply triple_on_ignore. Qed.

Lemma triple_attempt {E F A : Type} (P : gmap Path (node B) → Prop) (m : M (Os B) E A)
    (Q : outcome F (result E A) → gmap Path (node B) → Prop) :
  triple P m (λ o fs, match o with
    | Ret a => Q (Ret (Ok a)) fs | Throw e => Q (Ret (Err e)) fs | Crash => Q Crash fs end) →
  triple P (attempt m) Q.
Proof. apply triple_on_attempt. Qed.

Lemma triple_mapE {E F A : Type} (P : gmap Path (node B) → Prop) (f : E → F) (m : M (Os B) E A)
    (Q : outcome F A → gmap Path (node B) → Prop) :
  triple P m (λ o fs, match o with
    | Ret a => Q (Ret a) fs | Throw e => Q (Throw (f e)) fs | Crash => Q Crash fs end) →
  triple P (mapE f m) Q.
Proof. apply triple_on_mapE. Qed.

Lemma triple_throw {E A : Type} (e : E) (P : gmap Path (node B) → Prop)
    (Q : outcome E A → gmap Path (node B) → Prop) :
  (∀ fs, P fs → Q (Throw e) fs) → triple P (throw e) Q.
Proof. apply triple_on_throw. Qed.

(** An atomic call either has its effect or leaves the files alone. *)
Lemma triple_atomic {A : Type} (c : Call B)
    (run : gmap Path (node B) → result IoError (A * gmap Path (node B))) (P : gmap Path (node B) → Prop) (Q : outcome IoError A → gmap Path (node B) → Prop) :
  (∀ fs a fs', P fs → run fs = Ok (a, fs') → Q (Ret a) fs') →
  (∀ fs e, P fs → Q (Throw e) fs) → (∀ fs, P fs → Q Crash fs) →
  triple P (atomic c run) Q.
Proof. intros H1 H2 H3 s Hs. apply wp_sys; simpl; eauto. Qed.

Lemma triple_sys {A : Type} (c : Call B)
    (run : gmap Path (node B) → result IoError (A * gmap Path (node B)))
    (broken : list (Call B) → gmap Path (node B) → gmap Path (node B)) (P : gmap Path (node B) → Prop) (Q : outcome IoError A → gmap Path (node B) → Prop) :
  (∀ fs a fs', P fs → run fs = Ok (a, fs') → Q (Ret a) fs') →
  (∀ fs e, P fs → Q (Throw e) fs) → (∀ fs h e, P fs → Q (Throw e) (broken h fs)) →
  (∀ fs h, P fs → Q Crash (broken h fs)) →
  triple P (sys c run broken) Q.
Proof. intros H1 H2 H3 H4 s Hs. apply wp_sys; simpl; eauto. Qed.

Lemma triple_look {A : Type} (c : Call B) (f : gmap Path (node B) → result IoError A) (P : gmap Path (node B) → Prop) (Q : outcome IoError A → gmap Path (node B) → Prop) :
  (∀ fs a, P fs → f fs = Ok a → Q (Ret a) fs) →
  (∀ fs e, P fs → Q (Throw e) fs) → (∀ fs, P fs → Q Crash fs) →
  triple P (look c f) Q.
Proof.
  intros H1 H2 H3. apply triple_atomic; auto. intros fs a fs' HP E.
  destruct (f fs) eqn:Ef; simplify_eq. eauto.
Qed.

(** Code that changes no file. *)
Definition same_files s s' : Prop := files s' = files s.
Definition readonly {E A : Type} (m : M (Os B) E A) : Prop := steps same_files m.

#[global] Instance same_files_preorder : PreOrder same_files.
Proof. split; [by intros s|]. intros s1 s2 s3 H1 H2. unfold same_files in *. congruence. Qed.

Lemma look_readonly {A : Type} (c : Call B) (f : gmap Path (node B) → result IoError A) :
  readonly (look c f).
Proof.
  intros s. unfold look, atomic, sys, same_files. destruct (env_reply _ _); [|done..].
  by destruct (f (files s)).
Qed.

Lemma triple_readonly {E A : Type} (P : gmap Path (node B) → Prop) (m : M (Os B) E A) :
  readonly m → triple P m (λ _, P).
Proof. apply triple_on_steps. Qed.

Lemma children_elem fs (p : Path) name : name ∈ children fs p ↔ is_Some (fs !! (p ++ [name])%list).
Proof.
  unfold children. rewrite list_elem_of_omap. split.
  - intros (q & Hq & E). destruct (last q) as [x|]; [|done]. case_decide; [|done]. simplify_eq.
    apply list_elem_of_fmap in Hq as ([q' n] & Hq & Hin). simpl in Hq. rewrite Hq.
    apply elem_of_map_to_list in Hin. eauto.
  - intros [n Hn]. exists (p ++ [name])%list. split.
    + apply list_elem_of_fmap. exists ((p ++ [name])%list, n). split; [done|]. by apply elem_of_map_to_list.
    + rewrite last_snoc. by rewrite decide_True.
Qed.

(** *** Directories are only added *)

Definition adds_dirs (D : Path → Prop) fs fs' : Prop :=
  ∀ q, fs' !! q = fs !! q ∨ D q ∧ fs !! q = None ∧ fs' !! q = Some Dir.

#[global] Instance adds_dirs_preorder D : PreOrder (adds_dirs D).
Proof.
  split; [intros fs q; by left|]. intros fs1 fs2 fs3 H1 H2 q.
  destruct (H1 q) as [E1|(?&?&E1)], (H2 q) as [E2|(?&?&E2)];
    [left; congruence| | |congruence]; right; split_and!; done || congruence.
Qed.

Lemma adds_dirs_other D fs fs' q : adds_dirs D fs fs' → ¬ D q → fs' !! q = fs !! q.
Proof. intros H Hq. destruct (H q) as [?|[? _]]; done. Qed.

Lemma create_dirs_adds fs0 pre rest :
  triple (adds_dirs (λ q, q `prefix_of` (pre ++ rest)%list) fs0) (create_dirs pre rest)
    (λ _, adds_dirs (λ q, q `prefix_of` (pre ++ rest)%list) fs0).
Proof.
  revert pre. induction rest as [|c rest IH]; intros pre; simpl; [by apply triple_ret|].
  specialize (IH (pre ++ [c])%list). rewrite -app_assoc in IH.
  eapply triple_bind with (R := λ _, adds_dirs (λ q, q `prefix_of` (pre ++ c :: rest)%list) fs0);
    [|intros []; exact IH|done..].
  apply triple_atomic; auto. intros fs a fs' HP E.
  destruct (node_at fs _) as [[|]|] eqn:En; simplify_eq; [done|].
  etrans; [exact HP|]. intros q. destruct (decide (q = pre ++ [c])%list) as [->|].
  - right. rewrite lookup_insert_eq. split; [|split; [by destruct pre|done]].
    exists rest. by rewrite -app_assoc.
  - left. rewrite lookup_insert_ne; [by apply not_eq_sym|done].
Qed.

Lemma create_dir_all_adds fs0 p :
  triple (λ fs, fs = fs0) (create_dir_all p) (λ _, adds_dirs (λ q, q `prefix_of` p) fs0).
Proof.
  eapply triple_weaken; [apply (create_dirs_adds fs0 [] p)| |done]. intros fs ->. reflexivity.
Qed.

(** *** Renaming *)

Lemma rename_lookup src dst fs q :
  rename_files src dst fs !! q =
    if bool_decide (dst `prefix_of` q) then fs !! (src ++ drop (length dst) q)%list
    else if bool_decide (src `prefix_of` q) then None else fs !! q.
Proof.
  unfold rename_files.
  set (moved := map _ (List.filter _ _)).
  assert (Hin : ∀ p n, (p, n) ∈ moved ↔ ∃ r, p = (dst ++ r)%list ∧ fs !! (src ++ r)%list = Some n).
  { intros p n. unfold moved. rewrite list_elem_of_fmap. split.
    - intros ([q' n'] & Heq & Hf). apply list_elem_of_In, filter_In in Hf as [Hf Hp].
      apply list_elem_of_In, elem_of_map_to_list in Hf. simpl in Hp, Heq. apply bool_decide_eq_true in Hp as [r ->].
      simplify_eq. exists r. by rewrite drop_app_length.
    - intros (r & -> & Hl). exists ((src ++ r)%list, n). simpl. rewrite drop_app_length. split; [done|].
      apply list_elem_of_In, filter_In. split; [by apply list_elem_of_In, elem_of_map_to_list|].
      apply bool_decide_eq_true. by exists r. }
  assert (Hnd : NoDup moved.*1).
  { unfold moved. rewrite -list_fmap_compose. apply NoDup_fmap_2_strong.
    - intros [p1 n1] [p2 n2] H1 H2 Heq. simpl in *.
      apply list_elem_of_In, filter_In in H1 as [H1 P1].
      apply list_elem_of_In, filter_In in H2 as [H2 P2].
      apply list_elem_of_In, elem_of_map_to_list in H1, H2. simpl in P1, P2, Heq.
      apply bool_decide_eq_true in P1 as [r1 ->], P2 as [r2 ->].
      rewrite !drop_app_length in Heq. apply app_inv_head in Heq as ->. by simplify_eq.
    - apply NoDup_ListNoDup, List.NoDup_filter, NoDup_ListNoDup, NoDup_map_to_list. }
  case_bool_decide as Hd.
  - destruct Hd as [r ->]. rewrite drop_app_length.
    destruct (fs !! (src ++ r)%list) as [n|] eqn:E.
    + apply lookup_union_Some_l, elem_of_list_to_map_1; [done|]. apply Hin. eauto.
    + apply lookup_union_None. split.
      * apply not_elem_of_list_to_map_1. intros ([p n] & Heq & H)%list_elem_of_fmap.
        apply Hin in H as (r' & -> & H'). simpl in Heq. apply app_inv_head in Heq as ->. congruence.
      * apply map_lookup_filter_None. right. intros n _ [_ []]. by exists r.
  - rewrite lookup_union_r.
    { apply not_elem_of_list_to_map_1. intros ([p n] & -> & H)%list_elem_of_fmap.
        apply Hin in H as (r' & Heq & _). simpl in Heq. destruct Hd. by exists r'. }
    case_bool_decide as Hs.
    + apply map_lookup_filter_None. right. by intros n _ [[]].
    + destruct (fs !! q) as [n|] eqn:E.
      * by apply map_lookup_filter_Some.
      * apply map_lookup_filter_None. by left.
Qed.

Lemma rename_ok src dst fs a fs' :
  rename_run src dst fs = Ok (a, fs') →
  src ≠ dst → parent_is_dir fs dst = true ∧ fs' = rename_files src dst fs.
Proof.
  unfold rename_run. intros H Hne. destruct (fs !! src) as [n|]; [|done]. rewrite bool_decide_false // in H.
  destruct (bool_decide _); [done|]. destruct (parent_is_dir fs dst); [|done]. split; [done|].
  simpl in H. repeat case_match; naive_solver.
Qed.
End call_facts.

(** ** Temporary names *)

(** A component a path can end with. *)
Record path_name (n : string) : Prop := {
  name_no_slash : str_forallb (not_char "/") n = true;
  name_nonempty : n ≠ "";
  name_not_dot : n ≠ ".";
  name_not_dotdot : n ≠ "..";
}.

Lemma valid_path_name n : valid_segment n → path_name n.
Proof. intros H. split; [by apply valid_no_slash|by destruct H..]. Qed.

Lemma join_name d n : path_name n → join d n = (d ++ [n])%list.
Proof.
  intros [Hs Hne Hd _]. unfold join, components.
  rewrite split_char_none // filter_cons_True //.
  unfold starts_with. destruct (strip_prefix "/" n) eqn:E; [|done].
  apply strip_prefix_some in E. by subst.
Qed.

Lemma dec_no_slash n : str_forallb (not_char "/") (show_dec n) = true.
Proof.
  eapply str_forallb_impl; [|apply show_dec_digits]. intros a Ha. apply not_char_neq. by intros ->.
Qed.

Lemma file_name_app d n : path_name n → file_name (d ++ [n])%list = Some n.
Proof. intros H. unfold file_name. rewrite last_snoc. case_decide; [|done]. by destruct H. Qed.

Lemma with_file_name_app d n m :
  path_name n → path_name m → with_file_name (d ++ [n])%list m = (d ++ [m])%list.
Proof.
  intros Hn Hm. unfold with_file_name. by rewrite file_name_app // removelast_last join_name.
Qed.

Lemma parent_app d n : parent (d ++ [n])%list = Some d.
Proof.
  unfold parent. destruct (d ++ [n])%list eqn:E; [by apply app_nil in E as [_ ?]|].
  by rewrite -E removelast_last.
Qed.

Lemma temp_path_app pid nanos seq d n :
  path_name n →
  ∃ m, temp_path pid nanos seq (d ++ [n])%list = (d ++ [m])%list ∧ path_name m ∧ m ≠ n ∧
    starts_with "." m = true.
Proof.
  intros Hn. unfold temp_path. rewrite file_name_app //. cbn [default].
  match goal with |- context [with_file_name _ ?x] => set (m := x) end.
  assert (Hlen : (String.length n < String.length m)%nat).
  { unfold m. rewrite !length_app_s. simpl. lia. }
  assert (Hm : path_name m).
  { assert (Hl : (String.length m > 2)%nat).
    { unfold m. rewrite !length_app_s. simpl. lia. }
    split; try (intros E; rewrite E in Hl; simpl in Hl; lia).
    unfold m. do 8 rewrite str_forallb_app. by rewrite !dec_no_slash (name_no_slash _ Hn). }
  exists m. split_and!; [by apply with_file_name_app|done| |done]. intros E. rewrite E in Hlen. lia.
Qed.

Section atomic_write.
Context {B : Type} `{!Bytes B, !Env B}.
Notation IO := (M (Os B) IoError).
Implicit Types fs : gmap Path (node B).

(** The files agree except below [path] and [tmp], and for new directories
    above them. *)
Definition elsewhere (d : Path) (path tmp : Path) fs fs' : Prop :=
  ∀ q, ¬ path `prefix_of` q → ¬ tmp `prefix_of` q →
    fs' !! q = fs !! q ∨ q `prefix_of` d ∧ fs !! q = None ∧ fs' !! q = Some Dir.

Lemma elsewhere_insert d path tmp fs fs' v :
  elsewhere d path tmp fs fs' → elsewhere d path tmp fs (<[tmp := v]> fs').
Proof.
  intros H q Hp Ht. rewrite lookup_insert_ne; [|by apply H]. by intros ->.
Qed.

Lemma elsewhere_rename d path tmp fs fs' :
  elsewhere d path tmp fs fs' → elsewhere d path tmp fs (rename_files tmp path fs').
Proof.
  intros H q Hp Ht. rewrite rename_lookup !bool_decide_false //. by apply H.
Qed.

Lemma elsewhere_dirs d path tmp fs fs' fs'' :
  elsewhere d path tmp fs fs' → adds_dirs (λ q, q `prefix_of` d) fs' fs'' →
  elsewhere d path tmp fs fs''.
Proof.
  intros H H' q Hp Ht. destruct (H q Hp Ht) as [E|(?&?&E)], (H' q) as [E'|(?&?&E')];
    [left|right|right|]; try split_and!; congruence.
Qed.

Lemma sibling_not_prefix (d : Path) (n m : string) : n ≠ m → ¬ (d ++ [n])%list `prefix_of` (d ++ [m])%list.
Proof. intros Hne H%prefix_app_inv. destruct H as [k Hk]. by destruct k; simplify_eq/=. Qed.

Lemma child_not_prefix (d : Path) (n : string) : ¬ (d ++ [n])%list `prefix_of` d.
Proof. intros H%prefix_length. rewrite length_app /= in H. lia. Qed.

Lemma adds_dirs_child (d : Path) (n : string) fs fs' :
  adds_dirs (λ q, q `prefix_of` d) fs fs' → fs' !! (d ++ [n])%list = fs !! (d ++ [n])%list.
Proof. intros H. eapply adds_dirs_other; [exact H|apply child_not_prefix]. Qed.

Lemma node_at_child fs (d : Path) (n : string) : node_at fs (d ++ [n])%list = fs !! (d ++ [n])%list.
Proof. by destruct d. Qed.

Lemma parent_is_dir_app fs (d : Path) (n : string) :
  parent_is_dir fs (d ++ [n])%list = true → node_at fs d = Some Dir.
Proof. unfold parent_is_dir. rewrite parent_app. by destruct (node_at fs d) as [[]|]. Qed.

Lemma rename_keeps_dir fs (d : Path) (n m : string) :
  node_at fs d = Some Dir → node_at (rename_files (d ++ [m])%list (d ++ [n])%list fs) d = Some Dir.
Proof.
  intros Hd. destruct d as [|x d']; [done|]. unfold node_at in Hd |- *.
  rewrite rename_lookup !bool_decide_false //; apply child_not_prefix.
Qed.

Lemma delete_keeps_dir fs (d : Path) (m : string) :
  node_at fs d = Some Dir → node_at (delete (d ++ [m])%list fs) d = Some Dir.
Proof.
  intros Hd. destruct d as [|x d']; [done|]. unfold node_at in Hd |- *.
  rewrite lookup_delete_ne //. intros E%(f_equal length). rewrite length_app /= in E. lia.
Qed.

(** Publishing: [path] holds the old node or the temporary file's contents. *)
Lemma publish_atomic_file_triple fs0 (d : Path) (n m : string) body :
  n ≠ m →
  triple (λ fs, elsewhere d (d ++ [n])%list (d ++ [m])%list fs0 fs ∧
                fs !! (d ++ [n])%list = fs0 !! (d ++ [n])%list ∧ fs !! (d ++ [m])%list = Some (File body))
    (publish_atomic_file (d ++ [m])%list (d ++ [n])%list)
    (λ o fs, elsewhere d (d ++ [n])%list (d ++ [m])%list fs0 fs ∧
       (fs !! (d ++ [n])%list = fs0 !! (d ++ [n])%list ∧ (∀ a, o ≠ Ret a) ∨
        fs !! (d ++ [n])%list = Some (File body) ∧ fs !! (d ++ [m])%list = None ∧ node_at fs d = Some Dir)).
Proof.
  intros Hne. set (path := (d ++ [n])%list). set (tmp := (d ++ [m])%list).
  unfold publish_atomic_file, on_parent. unfold path at 1 3. rewrite parent_app.
  eapply triple_bind with (R := λ _ fs, elsewhere d path tmp fs0 fs ∧
      fs !! path = fs0 !! path ∧ fs !! tmp = Some (File body)).
  { intros s (He & Hp & Ht). eapply wp_mono; [by apply create_dir_all_adds|]. intros o s' Hd. cbn beta in Hd.
    split; [eapply elsewhere_dirs; eassumption|].
    unfold path, tmp. by rewrite !(adds_dirs_child _ _ _ _ Hd). }
  2-3: intros; naive_solver.
  intros [].
  eapply triple_bind with (R := λ _ fs, elsewhere d path tmp fs0 fs ∧
      fs !! path = fs0 !! path ∧ fs !! tmp = Some (File body)).
  { by apply triple_look. }
  2-3: intros; naive_solver.
  intros [].
  eapply triple_bind with (R := λ o fs, elsewhere d path tmp fs0 fs ∧
       (fs !! path = fs0 !! path ∧ (∀ a, o ≠ Ret a) ∨ fs !! path = Some (File body) ∧ fs !! tmp = None ∧ node_at fs d = Some Dir)).
  - apply triple_atomic; [|naive_solver..]. intros fs a fs' (He & Hp & Ht) E.
    apply rename_ok in E as [Hd%parent_is_dir_app ->]; [|intros E'; simplify_list_eq].
    split; [by apply elsewhere_rename|right].
    rewrite !rename_lookup. rewrite bool_decide_true; [reflexivity|]. rewrite drop_ge // app_nil_r.
    rewrite bool_decide_false; [by apply sibling_not_prefix|]. rewrite bool_decide_true //.
    split_and!; [done|done|by apply rename_keeps_dir].
  - intros []. apply triple_look; naive_solver.
  - naive_solver.
  - naive_solver.
Qed.

Lemma write_atomic_file_triple fs0 (d : Path) (n : string) body :
  path_name n →
  triple (λ fs, fs = fs0) (write_atomic_file (d ++ [n])%list body) (λ o fs, ∃ m, (m ≠ n ∧ starts_with "." m = true) ∧
     elsewhere d (d ++ [n])%list (d ++ [m])%list fs0 fs ∧
     (fs !! (d ++ [n])%list = fs0 !! (d ++ [n])%list ∧ (∀ a, o ≠ Ret a) ∨
      fs !! (d ++ [n])%list = Some (File body) ∧ fs !! (d ++ [m])%list = None ∧ node_at fs d = Some Dir)).
Proof.
  intros Hn. unfold write_atomic_file, on_parent. rewrite parent_app.
  destruct (temp_path_app 0 0 0 d n Hn) as (m0 & _ & _ & Hm0 & Hdot0).
  eapply triple_bind; [apply create_dir_all_adds| | |]; simpl.
  2-3: intros; exists m0; split; [done|]; split;
    [by intros q _ _|left; split; [by apply adds_dirs_child|naive_solver]].
  set (path := (d ++ [n])%list).
  intros []. eapply triple_bind with (R := λ o fs, ∃ m, o = Ret (d ++ [m])%list ∧ (m ≠ n ∧ starts_with "." m = true) ∧
      elsewhere d path (d ++ [m])%list fs0 fs ∧ fs !! path = fs0 !! path).
  { intros s Hs. unfold wp, fresh_temp_path.
    destruct (temp_path_app env_pid (env_nanos (calls s)) (temp_counter s) d n Hn) as (m & Em & Hm & Hne & Hdot).
    exists m. split; [by rewrite -Em|]. split; [done|]. split; [intros q _ _; apply Hs|by apply adds_dirs_child]. }
  2-3: naive_solver.
  intros tmp s (m & E & [Hne Hdot] & He & Hp). injection E as ->. set (tmp := (d ++ [m])%list).
  set (J := λ (o : outcome IoError ()) fs, elsewhere d path tmp fs0 fs ∧
      (fs !! path = fs0 !! path ∧ (∀ a, o ≠ Ret a) ∨
       fs !! path = Some (File body) ∧ fs !! tmp = None ∧ node_at fs d = Some Dir)).
  enough (Ht : triple (λ fs, elsewhere d path tmp fs0 fs ∧ fs !! path = fs0 !! path)
    (on_error (ignore (remove_file tmp)) (create_new tmp ;; write_all tmp body ;;
       publish_atomic_file tmp path)) J).
  { eapply wp_mono; [by apply Ht|]. intros o s' HJ. by exists m. }
  assert (HJ : ∀ o o' fs, J o fs → (∀ a, o' ≠ Ret a) → J o' fs).
  { intros o o' fs [H1 [[H2 _]|H2]] Ho; (split; [exact H1|]); auto. }
  assert (Hneq : tmp ≠ path) by (intros E; unfold tmp, path in E; simplify_list_eq).
  eapply triple_on_error with (R := J); [|done..|].
  - eapply triple_bind with (R := λ _ fs, elsewhere d path tmp fs0 fs ∧ fs !! path = fs0 !! path).
    { apply triple_atomic; [|done..]. intros fs a fs' [He' Hp'] E'. repeat case_match; simplify_eq.
      split; [by apply elsewhere_insert|by rewrite lookup_insert_ne]. }
    2-3: unfold J; naive_solver.
    intros []. eapply triple_bind with (R := λ o fs, elsewhere d path tmp fs0 fs ∧
        fs !! path = fs0 !! path ∧ (o = Ret tt → fs !! tmp = Some (File body))).
    { apply triple_sys; [|naive_solver| |].
      - intros fs a fs' [He' Hp'] E'. simplify_eq. rewrite lookup_insert_eq lookup_insert_ne //.
        split; [by apply elsewhere_insert|done].
      - intros fs h e [He' Hp']. rewrite (lookup_insert_ne _ tmp path) //.
        split; [by apply elsewhere_insert|done].
      - intros fs h [He' Hp']. rewrite (lookup_insert_ne _ tmp path) //.
        split; [by apply elsewhere_insert|done]. }
    2-3: unfold J; naive_solver.
    intros []. eapply triple_weaken; [apply (publish_atomic_file_triple fs0 d n m body); by apply not_eq_sym| |done].
    naive_solver.
  - intros e. apply triple_ignore, triple_atomic; [|simpl; intros; eapply HJ; [eassumption|done]..].
    intros fs a fs' [He' Hp'] E'. destruct (node_at fs tmp) as [[]|] eqn:En; simplify_eq.
    split.
    + intros q Hq Ht. rewrite lookup_delete_ne; [by intros ->|by apply He'].
    + rewrite lookup_delete_ne // lookup_delete_eq.
      destruct Hp' as [[? _]|(? & _ & ?)]; [by left|right].
      split_and!; [done|done|by apply delete_keeps_dir].
Qed.

(** C10. Whether it returns, fails or dies half way, a write leaves the old
    contents or the new ones, nothing in between; once it has returned, the
    new ones, and no temporary file. *)
Theorem write_atomic_file_atomic (d : Path) (n : string) (body : B) (s : Os B) :
  path_name n →
  let path := (d ++ [n])%list in
  let o := (write_atomic_file path body s).1 in
  let s' := (write_atomic_file path body s).2 in
  (files s' !! path = files s !! path ∨ files s' !! path = Some (File body)) ∧
  (o = Ret tt → files s' !! path = Some (File body) ∧ node_at (files s') d = Some Dir) ∧
  ∃ tmp, parent tmp = Some d ∧ tmp ≠ path ∧ (o = Ret tt → files s' !! tmp = None) ∧
    ∀ q, ¬ path `prefix_of` q → ¬ tmp `prefix_of` q →
      files s' !! q = files s !! q ∨ q `prefix_of` d ∧ files s !! q = None ∧ files s' !! q = Some Dir.
Proof.
  intros Hn path. pose proof (write_atomic_file_triple (files s) d n body Hn s eq_refl) as H.
  unfold wp in H. intros o s'. unfold o, s'. clear o s'. fold path in H.
  destruct (write_atomic_file path body s) as [o s']. simpl. destruct H as (m & [Hm _] & He & Hp). split; [naive_solver|]. split; [naive_solver|].
  exists (d ++ [m])%list. rewrite parent_app. split_and!; [done| |naive_solver|done].
  intros E; unfold path in E; simplify_list_eq.
Qed.
End atomic_write.

(** ** Calls that succeed *)

Section quiet.
Context {B : Type} `{!Bytes B, Henv : !Env B} (Hquiet : quiet Henv).
Implicit Types fs : gmap Path (node B).
Implicit Types s : Os B.

Lemma sys_go {A : Type} (c : Call B)
    (run : gmap Path (node B) → result IoError (A * gmap Path (node B)))
    (broken : list (Call B) → gmap Path (node B) → gmap Path (node B)) s a fs :
  run (files s) = Ok (a, fs) → sys c run broken s = (Ret a, set_files fs (record_call c s)).
Proof using Hquiet. intros H. unfold sys. by rewrite Hquiet H. Qed.

Lemma look_go {A : Type} (c : Call B) (f : gmap Path (node B) → result IoError A) s a :
  f (files s) = Ok a → look c f s = (Ret a, record_call c s).
Proof using Hquiet.
  intros H. unfold look, atomic. rewrite (sys_go _ _ _ _ a (files s)); [by rewrite H|]. by destruct s.
Qed.

Lemma look_quiet {A : Type} (c : Call B) (f : gmap Path (node B) → result IoError A) s :
  look c f s = (match f (files s) with Ok a => Ret a | Err e => Throw e end, record_call c s).
Proof using Hquiet.
  unfold look, atomic, sys. rewrite Hquiet. destruct (f (files s)); [by destruct s|done].
Qed.

Definition no_file_above fs (p : Path) : Prop :=
  ∀ q b, q `prefix_of` p → node_at fs q ≠ Some (File b).

Lemma create_dirs_go pre rest s :
  no_file_above (files s) (pre ++ rest)%list →
  node_at (files s) pre = Some Dir →
  ∃ s', create_dirs pre rest s = (Ret tt, s') ∧ temp_counter s' = temp_counter s ∧
    adds_dirs (λ q, q `prefix_of` (pre ++ rest)%list) (files s) (files s') ∧
    node_at (files s') (pre ++ rest)%list = Some Dir.
Proof using Hquiet.
  revert pre s. induction rest as [|c rest IH]; intros pre s Hno Hdir.
  { exists s. rewrite app_nil_r. split_and!; [done..|reflexivity|done]. }
  assert (∃ s1, create_dir_entry (pre ++ [c])%list s = (Ret tt, s1) ∧
      temp_counter s1 = temp_counter s ∧
      adds_dirs (λ q, q `prefix_of` (pre ++ c :: rest)%list) (files s) (files s1) ∧
      node_at (files s1) (pre ++ [c])%list = Some Dir) as (s1 & E1 & Ec & Ha & Hd).
  { assert (Hpre : (pre ++ [c])%list `prefix_of` (pre ++ c :: rest)%list).
    { exists rest. by rewrite -app_assoc. }
    unfold create_dir_entry, atomic. destruct (node_at (files s) (pre ++ [c])%list) as [[b|]|] eqn:En.
    - by destruct (Hno _ b Hpre).
    - eexists. split; [eapply sys_go; by rewrite En|]. split_and!; [done|reflexivity|done].
    - eexists. split; [eapply sys_go; by rewrite En|]. simpl. split_and!; [done| |].
      + intros q. destruct (decide (q = pre ++ [c])%list) as [->|Hq].
        * right. rewrite lookup_insert_eq. split_and!; [done|by destruct pre|done].
        * left. rewrite lookup_insert_ne; [by apply not_eq_sym|done].
      + destruct pre; simpl; by rewrite lookup_insert_eq. }
  destruct (IH (pre ++ [c])%list s1) as (s2 & E2 & Ec2 & Ha2 & Hd2); [|done|].
  { intros q b Hq. rewrite -app_assoc in Hq. specialize (Hno q b Hq).
    destruct q as [|x q]; [done|]. simpl in *. destruct (Ha (x :: q)) as [->|(_ & _ & ->)]; done. }
  rewrite -app_assoc in Ha2 Hd2. exists s2. simpl. unfold mbind, M_bind. rewrite E1.
  split_and!; [done|congruence|etrans; eassumption|done].
Qed.

(** Creating directories that exist changes nothing. *)
Lemma create_dir_all_go p s :
  no_file_above (files s) p →
  ∃ s', create_dir_all p s = (Ret tt, s') ∧ temp_counter s' = temp_counter s ∧
    adds_dirs (λ q, q `prefix_of` p) (files s) (files s') ∧ node_at (files s') p = Some Dir.
Proof using Hquiet. intros H. by apply (create_dirs_go [] p). Qed.

Lemma on_parent_app (d : Path) (n : string) (f : Path → M (Os B) IoError ()) :
  on_parent (d ++ [n])%list f = f d.
Proof using Type. unfold on_parent. by rewrite parent_app. Qed.

(** C23. With a quiet environment and nothing in the way, a write returns. *)
Theorem write_atomic_file_returns (d : Path) (n : string) (body : B) (s : Os B) :
  path_name n → no_file_above (files s) d → files s !! (d ++ [n])%list ≠ Some Dir →
  (∀ h, files s !! temp_path env_pid (env_nanos h) (temp_counter s) (d ++ [n])%list = None) →
  ∃ s', write_atomic_file (d ++ [n])%list body s = (Ret tt, s').
Proof using Hquiet.
  intros Hn Hno Hdir Htmp. unfold write_atomic_file. rewrite on_parent_app.
  destruct (create_dir_all_go d s Hno) as (s1 & E1 & Ec1 & Ha1 & Hd1).
  unfold mbind at 1, M_bind at 1. rewrite E1.
  unfold mbind at 1, M_bind at 1, fresh_temp_path. rewrite Ec1.
  specialize (Htmp (calls s1)).
  destruct (temp_path_app env_pid (env_nanos (calls s1)) (temp_counter s) d n Hn) as (m & Em & Hm & Hne & Hdot).
  rewrite Em in Htmp |- *. set (tmp := (d ++ [m])%list) in *. set (path := (d ++ [n])%list) in *.
  rewrite -(adds_dirs_child _ _ _ _ Ha1) in Htmp. rewrite -(adds_dirs_child _ _ _ _ Ha1) in Hdir.
  set (s2 := mkOs _ _ _). assert (Hf : files s2 = files s1) by done.
  assert (Hnode : ∀ fs m', node_at fs (d ++ [m'])%list = fs !! (d ++ [m'])%list) by (intros; by destruct d).
  assert (Hpd : ∀ fs m', node_at fs d = Some Dir → parent_is_dir fs (d ++ [m'])%list = true).
  { intros fs m' E. unfold parent_is_dir. by rewrite parent_app E. }
  assert (Hins : ∀ (v : node B) fs, node_at fs d = Some Dir → node_at (<[tmp := v]> fs) d = Some Dir).
  { intros v fs. destruct d as [|x d']; [done|]. simpl. rewrite lookup_insert_ne; [|done].
    intros E%(f_equal length). unfold tmp in E. rewrite length_app /= in E. lia. }
  unfold on_error, create_new, atomic. unfold mbind at 1, M_bind at 1.
  rewrite (sys_go _ _ _ _ tt (<[tmp := File bytes_empty]> (files s1))).
  { rewrite Hf /tmp Hnode Hpd //. by fold tmp; rewrite Htmp. }
  unfold mbind at 1, M_bind at 1, write_all.
  erewrite (sys_go _ _ _ _ tt) by reflexivity. simpl files.
  set (s3 := set_files _ _).
  assert (Hd3 : node_at (files s3) d = Some Dir) by (simpl; auto).
  unfold publish_atomic_file. rewrite !on_parent_app.
  assert (Hno3 : no_file_above (files s3) d).
  { intros q b Hq. simpl. specialize (Hno q b Hq). destruct q as [|x q]; [done|]. simpl in *.
    rewrite !lookup_insert_ne; [by intros Eq; rewrite -Eq in Hq; apply child_not_prefix in Hq..|].
    destruct (Ha1 (x :: q)) as [->|(_ & _ & ->)]; done. }
  destruct (create_dir_all_go d s3 Hno3) as (s4 & E4 & _ & Ha4 & Hd4).
  unfold mbind at 1, M_bind at 1. rewrite E4.
  assert (Ht4 : files s4 !! tmp = Some (File body)).
  { unfold tmp. rewrite (adds_dirs_child _ _ _ _ Ha4). apply lookup_insert_eq. }
  assert (Hp4 : files s4 !! path ≠ Some Dir).
  { unfold path. rewrite (adds_dirs_child _ _ _ _ Ha4). simpl.
    rewrite !lookup_insert_ne //; intros Eq; unfold tmp in Eq; simplify_list_eq. }
  unfold mbind at 1, M_bind at 1, sync_file, sync_path.
  erewrite look_go by (by rewrite /tmp Hnode Ht4). simpl files.
  unfold mbind at 1, M_bind at 1, rename, atomic.
  erewrite sys_go.
  2:{ simpl files. unfold rename_run. rewrite Ht4 !bool_decide_false.
      - intros Eq. unfold tmp, path in Eq. simplify_list_eq.
      - by apply sibling_not_prefix.
      - rewrite Hpd //=. destruct (files s4 !! path) as [[|]|]; done. }
  unfold sync_dir, sync_path. erewrite look_go; [by eexists|]. simpl files.
  assert (node_at (rename_files tmp path (files s4)) d = Some Dir) as ->; [|done].
  destruct d as [|x d']; [done|]. simpl in Hd4 |- *.
  rewrite rename_lookup !bool_decide_false //; apply child_not_prefix.
Qed.
End quiet.

(** ** A concrete environment, for examples *)

#[global] Instance string_bytes : Bytes string :=
  {| text s := s; to_text s := s; bytes_empty := ""; bytes_len s := Z.of_nat (String.length s);
     bytes_from n s := String.substring (Z.to_nat n) (String.length s) s |}.

Definition quiet_env {B} `{!Bytes B} : Env B := {|
  env_reply _ _ := Go; env_partial _ := bytes_empty; env_survives _ _ := true;
  env_run _ _ := Exited true (Some 0%Z) "" ""; env_alive _ := true; env_effect _ _ fs := fs;
  env_pid := 42%Z; env_nanos _ := 7%Z; env_tempfile _ := "x1y2z3" |}.

(** The [n]-th call fails, or is the last. *)
Definition faulty_env {B} `{!Bytes B} (n : nat) (r : Reply) : Env B := {|
  env_reply h _ := if decide (length h = n) then r else Go;
  env_partial _ := bytes_empty; env_survives _ _ := false;
  env_run _ _ := Exited true (Some 0%Z) "" ""; env_alive _ := true; env_effect _ _ fs := fs;
  env_pid := 42%Z; env_nanos _ := 7%Z; env_tempfile _ := "x1y2z3" |}.

Lemma quiet_env_quiet {B} `{!Bytes B} : quiet (quiet_env (B := B)).
Proof. by intros h c. Qed.

(** Contents that are text, or a value of one type. *)
#[global] Instance sum_bytes {A} : Bytes (string + A) :=
  {| text := inl; to_text b := match b with inl s => s | inr _ => "" end; bytes_empty := inl "";
     bytes_len b := match b with inl s => Z.of_nat (String.length s) | inr _ => 0%Z end;
     bytes_from n b := match b with inl s => inl (String.substring (Z.to_nat n) (String.length s) s) | b => b end |}.

#[global] Program Instance sum_codec {A} : Codec (string + A) A :=
  {| to_json := inr; from_json x := match x with inl _ => None | inr a => Some a end |}.
Next Obligation. done. Qed.

Definition demo_os (fs : gmap Path (node string)) : Os string := mkOs fs [] 0.

Lemma write_atomic_file_atomic_witness :
  let s := demo_os {[ ["srv"] := Dir; ["srv"; "state.json"] := File "old" ]} in
  let s' := (write_atomic_file (Env0 := faulty_env 3 Killed) (["srv"] ++ ["state.json"])%list "new" s).2 in
  files s' !! ["srv"; "state.json"] = Some (File "old") ∨
  files s' !! ["srv"; "state.json"] = Some (File "new").
Proof.
  intros s s'.
  apply (write_atomic_file_atomic (Env0 := faulty_env 3 Killed) ["srv"] "state.json" "new" s).
  split; done.
Defined.

Lemma write_atomic_file_returns_witness :
  ∃ s', write_atomic_file (Env0 := quiet_env) (["srv"] ++ ["state.json"])%list "new" (demo_os ∅) = (Ret tt, s').
Proof.
  apply (write_atomic_file_returns (Henv := quiet_env)).
  - intros h c. reflexivity.
  - split; done.
  - intros [|x q] b _; [done|]. simpl. by rewrite lookup_empty.
  - by rewrite lookup_empty.
  - intros h. by rewrite lookup_empty.
Defined.

Example write_interrupted :
  let run n := write_atomic_file (Env0 := faulty_env n Killed) ["srv"; "state.json"] "new"
                 (demo_os {[ ["srv"] := Dir; ["srv"; "state.json"] := File "old" ]}) in
  map (λ n, files (run n).2 !! ["srv"; "state.json"]) (seq 0 8) =
    [Some (File "old"); Some (File "old"); Some (File "old"); Some (File "old"); Some (File "old");
     Some (File "old"); Some (File "new"); Some (File "new")].
Proof. vm_compute. reflexivity. Qed.
