(* ===== verification/Entries.v ===== *)
(** * One JSON file in each sandbox directory

    The registry keeps [state.json] and the network manager [network.json] in
    the directory of each sandbox, and both list the directories at startup.
    What such a family of files needs, for a file name [f] and a type [A], is
    proved here once: reading, writing one atomically without disturbing the
    others, and writing elsewhere. *)
From S2P Require Import Prelude Str Core Effect Os.

(** Neither path contains the other. *)
Definition diverge (a b : Path) : Prop := ¬ a `prefix_of` b ∧ ¬ b `prefix_of` a.

Lemma diverge_app (a b x y : Path) : diverge a b → ¬ (a ++ x)%list `prefix_of` (b ++ y)%list.
Proof.
  intros [H1 H2] H.
  assert (Ha : a `prefix_of` (b ++ y)%list) by (etrans; [|exact H]; by exists x).
  assert (Hb : b `prefix_of` (b ++ y)%list) by (by exists y).
  destruct (prefix_weak_total _ _ _ Ha Hb); auto.
Qed.

Section entries.
Context {B A : Type} `{!Bytes B, !Codec B A}.
Implicit Types fs : gmap Path (node B).
Context (paths : OadPaths) (f : string) (get_id : A → string).
Context (Hf : path_name f) (Hdot : starts_with "." f = false).

Definition entry_dir (k : string) : Path := (sandboxes_dir paths ++ [k])%list.
Definition entry_file (k : string) : Path := (sandboxes_dir paths ++ [k; f])%list.

(** The value a sandbox directory holds. *)
Definition disk_value fs (k : string) : option A :=
  match fs !! entry_file k with Some (File b) => from_json b | _ => None end.

(** Every file of the family lies in a directory and names that directory. *)
Record disk_ok fs : Prop := {
  disk_root : node_at fs (sandboxes_dir paths) = Some Dir;
  disk_dirs k : is_Some (fs !! entry_file k) → is_Some (fs !! entry_dir k);
  disk_ids k v : disk_value fs k = Some v → get_id v = k;
}.

Lemma entry_file_app k : entry_file k = (entry_dir k ++ [f])%list.
Proof using Type. unfold entry_file, entry_dir. by rewrite -app_assoc. Qed.

Lemma sandboxes_dir_eq : sandboxes_dir paths = (base_dir paths ++ ["sandboxes"])%list.
Proof using Type. apply join_valid. solve_segment. Qed.

Lemma entry_join k : join (sandboxes_dir paths ++ [k])%list f = entry_file k.
Proof using Hf. rewrite join_name //. by rewrite entry_file_app. Qed.

(** *** Changes that keep the family as it is *)

Record keeps_entries fs fs' : Prop := {
  keeps_root : node_at fs (sandboxes_dir paths) = Some Dir → node_at fs' (sandboxes_dir paths) = Some Dir;
  keeps_files k : fs' !! entry_file k = fs !! entry_file k;
  keeps_dirs k : is_Some (fs !! entry_dir k) → is_Some (fs' !! entry_dir k);
}.

#[global] Instance keeps_entries_preorder : PreOrder keeps_entries.
Proof using Type.
  split; [by split|]. intros fs1 fs2 fs3 [] []. split; [auto|congruence|auto].
Qed.

Lemma keeps_disk_value fs fs' k : keeps_entries fs fs' → disk_value fs' k = disk_value fs k.
Proof using Type. intros H. unfold disk_value. by rewrite (keeps_files _ _ H). Qed.

Lemma keeps_disk_ok fs fs' : keeps_entries fs fs' → disk_ok fs → disk_ok fs'.
Proof using Type.
  intros H [H1 H2 H3]. split; [by apply (keeps_root _ _ H)|..].
  - intros k. rewrite (keeps_files _ _ H). intros Hk. by apply (keeps_dirs _ _ H), H2.
  - intros k v. rewrite (keeps_disk_value _ _ _ H). apply H3.
Qed.

Lemma root_node fs : node_at fs (sandboxes_dir paths) = fs !! sandboxes_dir paths.
Proof using Type. rewrite sandboxes_dir_eq. apply node_at_child. Qed.

(** Directories that appear are no obstacle, unless a file of the family is above them. *)
Lemma adds_dirs_keeps (D : Path → Prop) fs fs' :
  adds_dirs D fs fs' → (∀ k, ¬ D (entry_file k)) → keeps_entries fs fs'.
Proof using Type.
  intros H Hno. split.
  - rewrite !root_node. destruct (H (sandboxes_dir paths)) as [->|(_ & _ & ->)]; done.
  - intros k. by eapply adds_dirs_other.
  - intros k. destruct (H (entry_dir k)) as [->|(_ & _ & ->)]; [done|by eexists].
Qed.

Lemma entry_file_length k : length (entry_file k) = S (S (S (length (base_dir paths)))).
Proof using Type. unfold entry_file. rewrite sandboxes_dir_eq !length_app /=. lia. Qed.

(** Any single path outside the sandboxes directory. *)
Lemma insert_keeps fs p v :
  ¬ sandboxes_dir paths `prefix_of` p → keeps_entries fs (<[p := v]> fs).
Proof using Type.
  intros Hp.
  assert (Hne : ∀ l : Path, p ≠ (sandboxes_dir paths ++ l)%list) by (intros l ->; apply Hp; by exists l).
  split.
  - rewrite !root_node lookup_insert_ne; [intros ->; by apply Hp|done].
  - intros k. by rewrite lookup_insert_ne; [apply Hne|].
  - intros k. by rewrite lookup_insert_ne; [apply Hne|].
Qed.

(** What an atomic write leaves, when it is not to a file of the family. *)
Lemma elsewhere_keeps d path tmp fs fs' :
  elsewhere d path tmp fs fs' →
  (∀ k, ¬ path `prefix_of` entry_file k) → (∀ k, ¬ tmp `prefix_of` entry_file k) →
  (∀ k, ¬ entry_file k `prefix_of` d) → keeps_entries fs fs'.
Proof using Type.
  intros H Hp Ht Hd.
  assert (Hup : ∀ p q : Path, (∀ k, ¬ p `prefix_of` entry_file k) →
            q = sandboxes_dir paths ∨ (∃ k, q = entry_dir k) → ¬ p `prefix_of` q).
  { intros p q Hpk Hq Hpq. destruct Hq as [->|[k ->]].
    - apply (Hpk ""). etrans; [exact Hpq|]. by eexists.
    - apply (Hpk k). etrans; [exact Hpq|]. rewrite entry_file_app. by eexists. }
  split.
  - rewrite !root_node.
    destruct (H (sandboxes_dir paths)) as [->|(_ & _ & ->)]; [by eapply Hup; [|left]..|done|done].
  - intros k. destruct (H (entry_file k) (Hp k) (Ht k)) as [E|(Hk & _)]; [done|]. by destruct (Hd k).
  - intros k. destruct (H (entry_dir k)) as [->|(_ & _ & ->)];
      [by eapply Hup; [|right; eexists]..|done|by eexists].
Qed.

(** Writing a file in a directory outside the sandboxes. *)
Lemma write_outside_keeps `{!Env B} d n body fs0 :
  path_name n → diverge d (sandboxes_dir paths) →
  triple (λ fs, fs = fs0) (write_atomic_file (d ++ [n])%list body) (λ _, keeps_entries fs0).
Proof using Type.
  intros Hn Hdv. eapply triple_weaken; [by apply (write_atomic_file_triple fs0 d n)|done|].
  intros o fs (m & _ & He & _). eapply elsewhere_keeps; [exact He|..].
  - intros k. by apply diverge_app.
  - intros k. by apply diverge_app.
  - intros k Hp. destruct Hdv as [_ Hdv]. apply Hdv. etrans; [|exact Hp]. by eexists.
Qed.

(** Writing another file of a sandbox directory. *)
Lemma write_sibling_keeps `{!Env B} k0 g body fs0 :
  path_name g → g ≠ f →
  triple (λ fs, fs = fs0) (write_atomic_file (entry_dir k0 ++ [g])%list body) (λ _, keeps_entries fs0).
Proof using Hdot.
  intros Hg Hne. eapply triple_weaken; [by apply (write_atomic_file_triple fs0 (entry_dir k0) g)|done|].
  intros o fs (m & [Hm Hmdot] & He & _).
  assert (Hother : ∀ x k, x ≠ f → ¬ (entry_dir k0 ++ [x])%list `prefix_of` entry_file k).
  { intros x k Hx Hp. unfold entry_dir, entry_file in Hp. rewrite -app_assoc in Hp.
    apply prefix_app_inv in Hp. destruct Hp as [l Hl]. simpl in Hl. by simplify_eq. }
  eapply elsewhere_keeps; [exact He|..].
  - intros k. by apply Hother.
  - intros k. apply Hother. intros ->. congruence.
  - intros k Hp%prefix_length. unfold entry_dir, entry_file in Hp. rewrite !length_app /= in Hp. lia.
Qed.

(** *** Writing a value of the family *)

Lemma write_entry_disk `{!Env B} (v : A) fs0 :
  disk_ok fs0 →
  let k := get_id v in
  triple (λ fs, fs = fs0) (write_atomic_file (entry_file k) (to_json v)) (λ o fs,
    disk_ok fs ∧ (∀ k', k' ≠ k → disk_value fs k' = disk_value fs0 k') ∧
    (disk_value fs k = disk_value fs0 k ∧ (∀ a, o ≠ Ret a) ∨ disk_value fs k = Some v)).
Proof using Hf Hdot.
  intros Hok k. rewrite entry_file_app.
  eapply triple_weaken; [by apply (write_atomic_file_triple fs0 (entry_dir k) f)|done|].
  intros o fs (m & _ & He & Hp). rewrite -entry_file_app in He Hp.
  assert (Hsub : ∀ (n : string) k' (l : Path), k' ≠ k →
            ¬ (entry_dir k ++ [n])%list `prefix_of` (sandboxes_dir paths ++ k' :: l)%list).
  { intros n k' l Hne Hx. unfold entry_dir in Hx. rewrite -app_assoc in Hx. apply prefix_app_inv in Hx.
    destruct Hx as [x Hx]. simpl in Hx. by simplify_eq. }
  assert (Hother : ∀ k' l, k' ≠ k → fs !! (sandboxes_dir paths ++ k' :: l)%list =
                                   fs0 !! (sandboxes_dir paths ++ k' :: l)%list).
  { intros k' l Hne. rewrite entry_file_app in He.
    destruct (He (sandboxes_dir paths ++ k' :: l)%list) as [E|([x Hx] & _)]; [by apply Hsub..|done|].
    unfold entry_dir in Hx. rewrite -app_assoc in Hx. apply app_inv_head in Hx. by simplify_eq/=. }
  assert (Hrec : ∀ k', k' ≠ k → disk_value fs k' = disk_value fs0 k').
  { intros k' Hne. unfold disk_value, entry_file. by rewrite Hother. }
  assert (Hk : disk_value fs k = disk_value fs0 k ∧ (∀ a, o ≠ Ret a) ∨ disk_value fs k = Some v).
  { unfold disk_value. destruct Hp as [[-> Ho]|(-> & _)]; [by left|right]. apply from_to_json. }
  assert (Hshort : ∀ n, ¬ (entry_dir k ++ [n])%list `prefix_of` entry_dir k).
  { intros n. apply child_not_prefix. }
  assert (Hshorter : ∀ n, ¬ (entry_dir k ++ [n])%list `prefix_of` sandboxes_dir paths).
  { intros n Hx%prefix_length. unfold entry_dir in Hx. rewrite !length_app /= in Hx. lia. }
  split_and!; [split|done|done].
  - pose proof (disk_root _ Hok) as Hr. rewrite !root_node in Hr |- *. rewrite entry_file_app in He.
    destruct (He (sandboxes_dir paths)) as [E|(_ & E & _)]; [auto..|congruence|congruence].
  - intros k'. destruct (decide (k' = k)) as [->|Hne].
    + destruct Hp as [[-> _]|(_ & _ & Hd)].
      * intros Hs%(disk_dirs _ Hok). rewrite entry_file_app in He.
        destruct (He (entry_dir k)) as [->|(_ & _ & ->)]; [auto..|done|by eexists].
      * intros _. unfold entry_dir in Hd |- *. rewrite node_at_child in Hd. by rewrite Hd.
    + unfold entry_file, entry_dir. rewrite !Hother //. by apply (disk_dirs _ Hok).
  - intros k' v'. destruct (decide (k' = k)) as [->|Hne].
    + destruct Hk as [[-> _]| ->]; [by apply (disk_ids _ Hok)|]. by intros [= <-].
    + rewrite Hrec //. by apply (disk_ids _ Hok).
Qed.
End entries.
