(* ===== verification/Registry.v ===== *)
(** * The sandbox registry (crates/oad/src/registry.rs)

    The in-memory map of records and its copies on disk.  The registry's state
    is the map beside the system's; the locks of the same file are in Locks.v. *)
From stdpp Require Import sorting.
From S2P Require Import Prelude Str Core Effect Os Entries.

Record RegWorld (B : Type) : Type := mkRegWorld {
  reg_os : Os B;
  reg_records : gmap string SandboxRecord;
}.
Arguments mkRegWorld {B}. Arguments reg_os {B}. Arguments reg_records {B}.

Section registry.
Context {B : Type} `{!Bytes B, !Env B, !Codec B SandboxRecord}.
Notation RegM := (M (RegWorld B) IoError).
Implicit Types w : RegWorld B.

Definition os {E A} (m : M (Os B) E A) : M (RegWorld B) E A :=
  zoom reg_os (λ o w, mkRegWorld o (reg_records w)) m.

Definition upd_records (f : gmap string SandboxRecord → gmap string SandboxRecord) : RegM () :=
  modify (λ w, mkRegWorld (reg_os w) (f (reg_records w))).

(** Serializing a record cannot fail: only the write can. *)
Definition write_json_atomic {A} `{!Codec B A} (path : Path) (value : A) : M (Os B) IoError () :=
  write_atomic_file path (to_json value).

Definition read_record (path : Path) : M (Os B) IoError SandboxRecord :=
  body ← read_file path;
  lift_result (ok_or (from_json body) (IoOther "json")).

Definition persist (paths : OadPaths) (record : SandboxRecord) : RegM () :=
  os (write_json_atomic (state_file paths (rec_id record)) record).

Definition insert_memory (record : SandboxRecord) : RegM () :=
  upd_records (λ m, <[as_str (rec_id record) := record]> m).

Definition registry_insert (paths : OadPaths) (record : SandboxRecord) : RegM () :=
  persist paths record ;; insert_memory record.

Definition registry_get (id : SandboxId) : RegM (option SandboxRecord) :=
  gets (λ w, reg_records w !! as_str id).

Definition registry_contains (id : SandboxId) : RegM bool :=
  gets (λ w, bool_decide (is_Some (reg_records w !! as_str id))).

Definition registry_remove (id : SandboxId) : RegM (option SandboxRecord) :=
  r ← registry_get id; upd_records (delete (as_str id)) ;; mret r.

Definition registry_list : RegM (list SandboxRecord) := gets (λ w, btree_values (reg_records w)).

(** The record is read again after it was persisted, the lock having been
    released in between. *)
Definition registry_update (paths : OadPaths) (id : SandboxId) (update : SandboxRecord → SandboxRecord)
    : RegM (option SandboxRecord) :=
  found ← registry_get id;
  match found with
  | None => mret None
  | Some record =>
      let updated := update record in
      persist paths updated ;;
      found ← registry_get id;
      match found with
      | None => mret None
      | Some _ => upd_records (<[as_str id := updated]>) ;; mret (Some updated)
      end
  end.

(** [recover]: an entry that cannot be read is skipped. *)
Definition recover_entry (sandboxes : Path) (name : string) : RegM () :=
  r ← attempt (os (read_record (join (sandboxes ++ [name])%list "state.json")));
  match r with
  | Ok record => insert_memory record
  | Err _ => mret tt
  end.

Definition recover (paths : OadPaths) : RegM () :=
  upd_records (λ _, ∅) ;;
  entries ← attempt (os (read_dir (sandboxes_dir paths)));
  match entries with
  | Err _ => mret tt
  | Ok names => forM names (recover_entry (sandboxes_dir paths))
  end.
End registry.

(** ** Memory and disk *)

Section coherence.
Context {B : Type} `{!Bytes B, !Codec B SandboxRecord}.
Context (paths : OadPaths).

Definition record_key (r : SandboxRecord) : string := as_str (rec_id r).

Notation entry_file := (entry_file paths "state.json").
Notation disk_record := (disk_value paths "state.json").
Notation registry_disk_ok := (disk_ok paths "state.json" record_key).

(** Memory and disk agree. *)
Record synced (w : RegWorld B) : Prop := {
  synced_disk : registry_disk_ok (files (reg_os w));
  synced_records k : disk_record (files (reg_os w)) k = reg_records w !! k;
}.

Lemma state_json_name : path_name "state.json".
Proof. by split. Qed.

Lemma state_file_entry id : valid_segment (as_str id) → state_file paths id = entry_file (as_str id).
Proof. intros H. unfold Entries.entry_file. destruct id as [v]. simpl in *. by simpl_paths. Qed.

(** *** Recovery reads back what is on disk *)

Lemma read_record_quiet {Henv : Env B} (w : RegWorld B) k :
  quiet Henv →
  ∃ o, (attempt (os (read_record (entry_file k))) : M _ IoError _) w =
    (Ret (match disk_record (files (reg_os w)) k with Some r => Ok r | None => Err o end),
     mkRegWorld (record_call (CRead (entry_file k)) (reg_os w)) (reg_records w)).
Proof.
  intros Hq. unfold attempt, os, zoom, read_record, read_file. unfold mbind, M_bind.
  rewrite (look_quiet Hq). cbn beta. unfold disk_value. rewrite entry_file_app node_at_child -entry_file_app.
  destruct (_ !! entry_file k) as [[b|]|]; [|by eexists..].
  destruct (from_json b) as [r|]; simpl; [by exists NotFound|by eexists].
Qed.

Lemma recover_entry_quiet {Henv : Env B} (w : RegWorld B) k :
  quiet Henv → registry_disk_ok (files (reg_os w)) →
  recover_entry (sandboxes_dir paths) k w =
    (Ret tt, mkRegWorld (record_call (CRead (entry_file k)) (reg_os w))
      match disk_record (files (reg_os w)) k with
      | Some r => <[k := r]> (reg_records w)
      | None => reg_records w
      end).
Proof.
  intros Hq Hok. unfold recover_entry. rewrite entry_join; [apply state_json_name|]. unfold mbind, M_bind.
  destruct (read_record_quiet w k Hq) as [o ->].
  destruct (disk_record (files (reg_os w)) k) as [r|] eqn:Er; [|done].
  by rewrite -(disk_ids _ _ _ _ Hok k r Er).
Qed.

Lemma recover_entries {Henv : Env B} (names : list string) (w : RegWorld B) :
  quiet Henv → registry_disk_ok (files (reg_os w)) →
  ∃ w', forM names (recover_entry (sandboxes_dir paths)) w = (Ret tt, w') ∧
    files (reg_os w') = files (reg_os w) ∧
    ∀ k, reg_records w' !! k =
      if decide (k ∈ names) then match disk_record (files (reg_os w)) k with
                                 | Some r => Some r | None => reg_records w !! k end
      else reg_records w !! k.
Proof.
  intros Hq. revert w. induction names as [|n names IH]; intros w Hok.
  { exists w. split_and!; [done..|]. intros k.
    case_decide as H; [by apply not_elem_of_nil in H|done]. }
  cbn [forM]. unfold mbind, M_bind. rewrite recover_entry_quiet //.
  edestruct IH as (w' & -> & Hf & Hk); [|exists w'; split; [done|]; split; [exact Hf|]]; [done|].
  intros k. rewrite Hk. simpl. destruct (decide (k = n)) as [->|Hne].
  - destruct (disk_record _ n) eqn:Er; repeat case_decide; rewrite ?lookup_insert_eq; try done; set_solver.
  - assert (match disk_record (files (reg_os w)) n with
            | Some r => <[n := r]> (reg_records w) | None => reg_records w end !! k = reg_records w !! k) as ->.
    { destruct (disk_record _ n); [|done]. rewrite lookup_insert_ne; [by apply not_eq_sym|done]. }
    repeat case_decide; try done; set_solver.
Qed.

Lemma recover_quiet {Henv : Env B} (w : RegWorld B) :
  quiet Henv → registry_disk_ok (files (reg_os w)) →
  ∃ w', recover paths w = (Ret tt, w') ∧ files (reg_os w') = files (reg_os w) ∧
    ∀ k, reg_records w' !! k = disk_record (files (reg_os w)) k.
Proof.
  intros Hq Hok. unfold recover, mbind, M_bind, upd_records, modify. simpl.
  unfold attempt at 1, os at 1, zoom, read_dir. rewrite (look_quiet Hq). simpl.
  rewrite (disk_root _ _ _ _ Hok).
  edestruct (recover_entries (children (files (reg_os w)) (sandboxes_dir paths))) as (w' & E & Hf & Hk);
    [exact Hq| |]; last first.
  { exists w'. split; [exact E|]. split; [exact Hf|]. intros k. rewrite Hk. simpl.
    rewrite lookup_empty. destruct (decide _) as [_|Hno]; [by destruct (disk_record _ _)|].
    destruct (disk_record (files (reg_os w)) k) as [r|] eqn:Er; [|done]. destruct Hno.
    apply children_elem. apply (disk_dirs _ _ _ _ Hok). unfold disk_value in Er. by destruct (_ !! _). }
  done.
Qed.

(** *** Persisting one record *)

Lemma persist_disk {Henv : Env B} (w : RegWorld B) (r : SandboxRecord) :
  valid_segment (as_str (rec_id r)) → registry_disk_ok (files (reg_os w)) →
  let k := as_str (rec_id r) in
  wp (persist paths r) (λ o w', registry_disk_ok (files (reg_os w')) ∧ reg_records w' = reg_records w ∧
    (∀ k', k' ≠ k → disk_record (files (reg_os w')) k' = disk_record (files (reg_os w)) k') ∧
    (disk_record (files (reg_os w')) k = disk_record (files (reg_os w)) k ∧ (∀ a, o ≠ Ret a) ∨
     disk_record (files (reg_os w')) k = Some r)) w.
Proof.
  intros Hid Hok k. unfold persist, os. rewrite wp_zoom. unfold write_json_atomic.
  rewrite state_file_entry //.
  eapply wp_mono; [apply (write_entry_disk paths "state.json" record_key state_json_name eq_refl r
    (files (reg_os w)) Hok); done|].
  intros o t (Hok' & Hoth & Hself). done.
Qed.
End coherence.

(** C26. Updates are durable and atomic.  Start with memory and disk in
    agreement and update a record, under any combination of I/O errors and with
    a crash at any call.  A daemon that then starts and recovers finds every
    other sandbox as it was, and this one as it was or as updated; if the update
    returned, as updated, with memory and disk in agreement again; if it did
    not return, memory is untouched. *)
Theorem registry_update_durable {B} `{!Bytes B, !Codec B SandboxRecord, Henv : !Env B}
    (paths : OadPaths) (id : SandboxId) (f : SandboxRecord → SandboxRecord) (w : RegWorld B) :
  valid_segment (as_str id) → synced paths w → (∀ r, rec_id (f r) = rec_id r) →
  let o := (registry_update paths id f w).1 in
  let w1 := (registry_update paths id f w).2 in
  ∀ (Henv' : Env B) memory, quiet Henv' →
  ∃ w2, recover (Env0 := Henv') paths (mkRegWorld (reg_os w1) memory) = (Ret tt, w2) ∧
    (∀ k, k ≠ as_str id → reg_records w2 !! k = reg_records w !! k) ∧
    (reg_records w2 !! as_str id = reg_records w !! as_str id ∨
     reg_records w2 !! as_str id = f <$> reg_records w !! as_str id) ∧
    (∀ a, o = Ret a → a = f <$> reg_records w !! as_str id ∧ synced paths w1 ∧
       reg_records w2 !! as_str id = f <$> reg_records w !! as_str id) ∧
    ((∀ a, o ≠ Ret a) → reg_records w1 = reg_records w).
Proof.
  intros Hid [Hok Hmem] Hf o w1.
  enough (H : wp (registry_update paths id f) (λ o w1, disk_ok paths "state.json" record_key (files (reg_os w1)) ∧
      (∀ k, k ≠ as_str id → disk_value paths "state.json" (files (reg_os w1)) k = reg_records w !! k) ∧
      (disk_value paths "state.json" (files (reg_os w1)) (as_str id) = reg_records w !! as_str id ∨
       disk_value paths "state.json" (files (reg_os w1)) (as_str id) = f <$> reg_records w !! as_str id) ∧
      (∀ a, o = Ret a → a = f <$> reg_records w !! as_str id ∧
         (∀ k, disk_value paths "state.json" (files (reg_os w1)) k = reg_records w1 !! k) ∧
         disk_value paths "state.json" (files (reg_os w1)) (as_str id) = f <$> reg_records w !! as_str id) ∧
      ((∀ a, o ≠ Ret a) → reg_records w1 = reg_records w)) w).
  { intros Henv' memory Hq. unfold wp in H. unfold o, w1. clear o w1. revert H.
    destruct (registry_update paths id f w) as [o' w1']. simpl. intros H.
    destruct H as (Hok1 & Hoth & Hself & Hret & Hthr).
    destruct (recover_quiet paths (mkRegWorld (reg_os w1') memory) Hq Hok1) as (w2 & E & _ & Hrec).
    exists w2. simpl in Hrec. split_and!; [exact E|..|exact Hthr].
    - intros k Hk. rewrite Hrec. by apply Hoth.
    - by rewrite Hrec.
    - intros a Ha. destruct (Hret a Ha) as (-> & Hs & Hd). split_and!; [done|by split|by rewrite Hrec]. }
  unfold registry_update, registry_get. rewrite wp_bind. unfold wp at 1, gets.
  destruct (reg_records w !! as_str id) as [r|] eqn:Er.
  2:{ apply wp_ret. split_and!; [done|naive_solver|rewrite Hmem; by left| |done].
      intros a [= <-]. split_and!; [done..|]. by rewrite Hmem. }
  assert (Hrid : as_str (rec_id (f r)) = as_str id).
  { rewrite Hf. apply (disk_ids _ _ _ _ Hok). by rewrite Hmem. }
  rewrite wp_bind. eapply wp_mono; [apply persist_disk; [by rewrite Hrid|exact Hok]|].
  rewrite Hrid. intros o1 w' (Hok' & Hrecs & Hoth & Hself). simpl.
  destruct o1 as [[]|e|].
  - destruct Hself as [[_ Hc]|Hself]; [by destruct (Hc tt)|].
    rewrite wp_bind. unfold wp at 1, gets. rewrite Hrecs Er wp_bind.
    unfold wp at 1, upd_records, modify. apply wp_ret. simpl. rewrite Hrecs.
    split_and!; [done|intros k Hk; by rewrite Hoth|by right| |naive_solver].
    intros a [= <-]. split_and!; [done| |done]. intros k.
    destruct (decide (k = as_str id)) as [->|Hne]; [by rewrite lookup_insert_eq|].
    rewrite lookup_insert_ne; [by apply not_eq_sym|]. by rewrite Hoth // Hmem.
  - split_and!; [done|intros k Hk; by rewrite Hoth| |done|done].
    destruct Hself as [[-> _]| ->]; [left; by rewrite Hmem|by right].
  - split_and!; [done|intros k Hk; by rewrite Hoth| |done|done].
    destruct Hself as [[-> _]| ->]; [left; by rewrite Hmem|by right].
Qed.

Definition demo_paths : OadPaths := mkOadPaths ["srv"].
Definition demo_record (v : string) : SandboxRecord := new_pending 0 (mkSandboxId v) ["pause"; "main"].

Definition demo_disk {A} (v : string) (a : A) : gmap Path (node (string + A)) :=
  {[ ["srv"] := Dir; ["srv"; "sandboxes"] := Dir; ["srv"; "sandboxes"; v] := Dir;
     ["srv"; "sandboxes"; v; "state.json"] := File (inr a) ]}.

Definition demo_world : RegWorld (string + SandboxRecord) :=
  mkRegWorld (mkOs (demo_disk "a" (demo_record "a")) [] 0) {[ "a" := demo_record "a" ]}.

Lemma demo_synced : synced demo_paths demo_world.
Proof.
  assert (H : ∀ k, disk_value demo_paths "state.json" (files (reg_os demo_world)) k = reg_records demo_world !! k).
  { intros k. unfold disk_value, entry_file.
    change (sandboxes_dir demo_paths) with ["srv"; "sandboxes"]. unfold demo_world, demo_disk. simpl.
    rewrite !lookup_insert !lookup_empty. repeat case_decide; simplify_eq/=; done. }
  split; [split|exact H].
  - reflexivity.
  - intros k. unfold entry_file, entry_dir.
    change (sandboxes_dir demo_paths) with ["srv"; "sandboxes"]. unfold demo_world, demo_disk. simpl.
    rewrite !lookup_insert !lookup_empty. intros [n Hn].
    repeat case_decide; simplify_eq/=; try done; by eexists.
  - intros k r. rewrite H. unfold demo_world. simpl. rewrite lookup_insert lookup_empty.
    case_decide; [|done]. intros [= <-]. by subst.
Qed.

Lemma registry_update_durable_witness :
  let f := set_status 5 Running in
  let w1 := (registry_update (Env0 := faulty_env 5 Killed) demo_paths (mkSandboxId "a") f demo_world).2 in
  ∃ w2, recover (Env0 := quiet_env) demo_paths (mkRegWorld (reg_os w1) ∅) = (Ret tt, w2) ∧
    (reg_records w2 !! "a" = Some (demo_record "a") ∨ reg_records w2 !! "a" = Some (f (demo_record "a"))).
Proof.
  intros f w1.
  destruct (registry_update_durable (Henv := faulty_env 5 Killed) demo_paths (mkSandboxId "a") f demo_world
    (valid_segment_literal "a" eq_refl) demo_synced (λ _, eq_refl) quiet_env ∅ quiet_env_quiet)
    as (w2 & E & _ & H & _).
  exists w2. split; [exact E|exact H].
Defined.

(** A crash while the new record is written; recovery reads the old one. *)
Example update_killed :
  let w1 := (registry_update (Env0 := faulty_env 5 Killed) demo_paths (mkSandboxId "a")
               (set_status 5 Running) demo_world).2 in
  reg_records (recover (Env0 := quiet_env) demo_paths (mkRegWorld (reg_os w1) ∅)).2 !! "a" =
    Some (demo_record "a").
Proof. vm_compute. reflexivity. Qed.
