(* ===== verification/Json.v ===== *)
(** * JSON values (serde_json)

    [serde_json::Value] as the crates use it: objects are maps ordered by key
    (the [preserve_order] feature is off), kept here as association lists sorted
    by key, and the parser of JSON text is a parameter. *)
From S2P Require Import Prelude Str.

(** [serde_json::Number]: an integer in the range of [i64] or [u64], or a
    double, known by its bits. *)
Inductive Number : Type :=
| NInt (z : Z)
| NFloat (bits : Z).

#[global] Instance Number_eq_dec : EqDecision Number.
Proof. solve_decision. Defined.

Inductive Value : Type :=
| Null
| Bool (b : bool)
| Num (n : Number)
| Str (s : string)
| Array (l : list Value)
| Object (fields : list (string * Value)).

(** The parser of [serde_json::from_str::<Value>]. *)
Class JsonText := { json_from_str : string → option Value }.

(** [Value::to_string], and [serde_json::to_vec] of a value. *)
Class JsonShow := { json_to_string : Value → string }.

Fixpoint value_eqb (a b : Value) : bool :=
  match a, b with
  | Null, Null => true
  | Bool x, Bool y => Bool.eqb x y
  | Num x, Num y => bool_decide (x = y)
  | Str x, Str y => String.eqb x y
  | Array l, Array l' =>
      (fix eqs l l' := match l, l' with
       | [], [] => true
       | x :: l, y :: l' => value_eqb x y && eqs l l'
       | _, _ => false end) l l'
  | Object l, Object l' =>
      (fix eqs (l l' : list (string * Value)) := match l, l' with
       | [], [] => true
       | (k, x) :: l, (k', y) :: l' => String.eqb k k' && value_eqb x y && eqs l l'
       | _, _ => false end) l l'
  | _, _ => false
  end.

(** ** Objects *)

Fixpoint obj_get (k : string) (l : list (string * Value)) : option Value :=
  match l with
  | [] => None
  | (k', v) :: l => if String.eqb k k' then Some v else obj_get k l
  end.

Fixpoint obj_insert (k : string) (v : Value) (l : list (string * Value)) : list (string * Value) :=
  match l with
  | [] => [(k, v)]
  | (k', v') :: l =>
      if String.eqb k k' then (k, v) :: l
      else if String.ltb k k' then (k, v) :: (k', v') :: l
      else (k', v') :: obj_insert k v l
  end.

Fixpoint obj_remove (k : string) (l : list (string * Value)) : list (string * Value) :=
  match l with
  | [] => []
  | (k', v') :: l => if String.eqb k k' then l else (k', v') :: obj_remove k l
  end.

(** [Value::get] with a string, [Value::as_str] and the like. *)
Definition v_get (k : string) (v : Value) : option Value :=
  match v with Object l => obj_get k l | _ => None end.

Definition as_string (v : Value) : option string := match v with Str s => Some s | _ => None end.
Definition as_array (v : Value) : option (list Value) := match v with Array l => Some l | _ => None end.
Definition as_object (v : Value) : option (list (string * Value)) :=
  match v with Object l => Some l | _ => None end.
Definition as_bool (v : Value) : option bool := match v with Bool b => Some b | _ => None end.

Definition as_u64 (v : Value) : option Z :=
  match v with
  | Num (NInt z) => if (0 <=? z)%Z && (z <=? u64_max)%Z then Some z else None
  | _ => None
  end.

Definition as_i64 (v : Value) : option Z :=
  match v with
  | Num (NInt z) => if (-9223372036854775808 <=? z)%Z && (z <=? 9223372036854775807)%Z then Some z else None
  | _ => None
  end.

Definition is_null (v : Value) : bool := match v with Null => true | _ => false end.

(** An object built by [json!] or collected, in key order. *)
Definition num (n : Z) : Value := Num (NInt n).
Definition obj (fields : list (string * Value)) : Value :=
  Object (foldl (λ l kv, obj_insert kv.1 kv.2 l) [] fields).

Fixpoint sorted_keys (l : list (string * Value)) : bool :=
  match l with
  | [] => true
  | (k, _) :: l' => match l' with
      | [] => true
      | (k', _) :: _ => String.ltb k k' && sorted_keys l'
      end
  end.

Lemma obj_get_insert k k' v l :
  obj_get k' (obj_insert k v l) = if String.eqb k' k then Some v else obj_get k' l.
Proof.
  induction l as [|[k0 v0] l IH]; simpl; [done|].
  destruct (String.eqb_spec k k0) as [->|Hne]; simpl.
  - by destruct (String.eqb_spec k' k0).
  - destruct (String.ltb k k0); simpl; [done|]. rewrite IH.
    destruct (String.eqb_spec k' k0) as [->|]; [|done].
    by destruct (String.eqb_spec k0 k) as [->|].
Qed.

Lemma as_u64_num n : (0 ≤ n ≤ u64_max)%Z → as_u64 (num n) = Some n.
Proof. intros [Hl Hu]. unfold as_u64, num. apply Z.leb_le in Hl as ->. by apply Z.leb_le in Hu as ->. Qed.

Lemma as_i64_num n : (-9223372036854775808 ≤ n ≤ 9223372036854775807)%Z → as_i64 (num n) = Some n.
Proof. intros [Hl Hu]. unfold as_i64, num. apply Z.leb_le in Hl as ->. by apply Z.leb_le in Hu as ->. Qed.

Lemma as_u64_bound v n : as_u64 v = Some n → is_u64 n.
Proof.
  destruct v as [| |[z|]| | |]; try done. simpl. unfold is_u64.
  destruct (Z.leb_spec 0 z), (Z.leb_spec z u64_max); simpl; intros; simplify_eq; lia.
Qed.
