(* ===== verification/Snapshots.v ===== *)
(** * The snapshot store (crates/oad/src/snapshots.rs)

    A snapshot is a directory under [cache/snapshots] with a manifest and a
    checkpoint image.  It counts as existing when its manifest does. *)
From S2P Require Import Prelude Str Core Effect Os Entries Registry.

Record SnapshotManifest : Type := mkManifest {
  man_name : string;
  man_pause_image : string;
  man_containers : list ContainerSpec;
  man_network : SandboxNetworkSpec;
  man_created_at : Z;
}.

#[global] Instance SnapshotManifest_eq_dec : EqDecision SnapshotManifest.
Proof. solve_decision. Defined.

Definition SnapshotManifest_new (now : Z) (name pause_image : string) (containers : list ContainerSpec)
    (network : SandboxNetworkSpec) : SnapshotManifest :=
  mkManifest name pause_image containers network now.

Definition manifest_container_names (m : SnapshotManifest) : list string :=
  container_names (man_containers m).

Section snapshots.
Context {B : Type} `{!Bytes B, !Env B, !Codec B SnapshotManifest}.
Notation IO := (M (Os B) IoError).
Context (paths : OadPaths).

Definition write_manifest (manifest : SnapshotManifest) : IO () :=
  write_json_atomic (snapshot_manifest paths (man_name manifest)) manifest.

Definition read_manifest (name : string) : IO SnapshotManifest :=
  body ← read_file (snapshot_manifest paths name);
  lift_result (ok_or (from_json body) (IoOther "json")).

Definition snapshot_exists (name : string) : IO bool :=
  r ← attempt (try_exists (snapshot_manifest paths name));
  mret match r with Ok b => b | Err _ => false end.

Definition snapshot_delete (name : string) : IO bool :=
  r ← attempt (remove_dir_all (snapshot_dir paths name));
  match r with
  | Ok _ => mret true
  | Err err => if decide (err = NotFound) then mret false else throw err
  end.

(** [Ok(())] of [create_dir] is [true], [AlreadyExists] is [other]. *)
Definition create_dir_or (path : Path) (other : IO bool) : IO bool :=
  r ← attempt (create_dir path);
  match r with
  | Ok _ => mret true
  | Err err => if decide (err = AlreadyExists) then other else throw err
  end.

Definition reserve (name : string) : IO bool :=
  create_dir_all (snapshots_dir paths) ;;
  create_dir_or (snapshot_dir paths name)
    (manifest ← attempt (read_manifest name);
     if is_ok manifest then mret false else
     snapshot_delete name ;;
     create_dir_or (snapshot_dir paths name) (mret false)).

Definition list_entry (name : string) : IO (list SnapshotManifest) :=
  r ← attempt (read_manifest name);
  mret match r with Ok manifest => [manifest] | Err _ => [] end.

Definition snapshot_list : IO (list SnapshotManifest) :=
  entries ← attempt (read_dir (snapshots_dir paths));
  match entries with
  | Err _ => mret []
  | Ok names => out ← mapM_ list_entry names; mret (concat out)
  end.
End snapshots.

(** ** Reserving a name *)

(** Every entry of the file system has a directory above it. *)
Definition tree_ok {B} (fs : gmap Path (node B)) : Prop :=
  ∀ q c, is_Some (fs !! (q ++ [c])%list) → node_at fs q = Some Dir.

Lemma tree_ok_absent {B} (fs : gmap Path (node B)) (p : Path) :
  tree_ok fs → p ≠ [] → fs !! p = None → ∀ q, p `prefix_of` q → fs !! q = None.
Proof.
  intros Hok Hp Hn q [r ->]. induction r as [|c r IH] using rev_ind; [by rewrite app_nil_r|].
  destruct (fs !! (p ++ r ++ [c])%list) eqn:E; [|done]. rewrite app_assoc in E.
  assert (H : node_at fs (p ++ r)%list = Some Dir) by (apply (Hok _ c); by rewrite E).
  destruct (p ++ r)%list eqn:Er; [by apply app_nil in Er as [-> _]|]. simpl in H. congruence.
Qed.

Section reserve.
Context {B : Type} `{!Bytes B, Henv : !Env B, !Codec B SnapshotManifest}.
Context (paths : OadPaths) (name : string).
Implicit Types fs : gmap Path (node B).

Notation dir := (snapshot_dir paths name).

(** Outside the snapshot nothing changes, but for directories above it. *)
Definition reserve_frame fs0 fs : Prop :=
  ∀ q, ¬ dir `prefix_of` q →
    fs !! q = fs0 !! q ∨ (q `prefix_of` snapshots_dir paths ∧ fs0 !! q = None ∧ fs !! q = Some Dir).

(** The snapshot is there, and can be read. *)
Definition snapshot_stored fs : Prop :=
  fs !! dir = Some Dir ∧
  ∃ b m, fs !! snapshot_manifest paths name = Some (File b) ∧ from_json b = Some (m : SnapshotManifest).

Definition below_kept fs0 fs : Prop := ∀ q, dir `prefix_of` q → fs !! q = fs0 !! q.

(** An empty directory. *)
Definition dir_empty fs : Prop := fs !! dir = Some Dir ∧ ∀ q, dir `prefix_of` q → q ≠ dir → fs !! q = None.

Context (Hname : valid_segment name).
Context (Hread : ∀ h, env_reply h (CRead (snapshot_manifest paths name)) = Go).
Context (Hremove : ∀ h, env_reply h (CRemoveDirAll dir) ≠ Fail NotFound).

Lemma dir_app : dir = (snapshots_dir paths ++ [name])%list.
Proof using Hname. unfold snapshot_dir. by rewrite join_name; [apply valid_path_name|]. Qed.

Lemma manifest_app : snapshot_manifest paths name = (dir ++ ["manifest.json"])%list.
Proof using Type. unfold snapshot_manifest. by rewrite join_name; [split|]. Qed.

Lemma node_at_dir fs : node_at fs dir = fs !! dir.
Proof using Hname. rewrite dir_app. apply node_at_child. Qed.

Lemma stored_kept fs0 fs : snapshot_stored fs0 → below_kept fs0 fs → snapshot_stored fs.
Proof using Type.
  intros [Hd (b & m & Hb & Hm)] Hk. split; [by rewrite Hk|]. exists b, m. split; [|done].
  rewrite Hk //. rewrite manifest_app. by apply prefix_app_r.
Qed.

Lemma read_manifest_stored (s : Os B) :
  snapshot_stored (files s) → ∃ m s', read_manifest paths name s = (Ret m, s') ∧ files s' = files s.
Proof using Hname Hread.
  intros [_ (b & m & Hb & Hm)]. unfold read_manifest, read_file, mbind, M_bind.
  unfold look, atomic, sys. rewrite Hread.
  assert (node_at (files s) (snapshot_manifest paths name) = Some (File b)) as ->
    by (rewrite -Hb manifest_app; apply node_at_child).
  exists m. eexists. rewrite Hm. split; [reflexivity|]. done.
Qed.

Definition reserved fs0 (o : outcome IoError bool) fs : Prop :=
  reserve_frame fs0 fs ∧ (snapshot_stored fs0 → below_kept fs0 fs ∧ o ≠ Ret true) ∧
  (o = Ret true → dir_empty fs).

Lemma create_dir_frame fs0 (other : M (Os B) IoError bool) (P : gmap Path (node B) → Prop) :
  (∀ fs, P fs → reserve_frame fs0 fs) →
  (∀ fs, P fs → snapshot_stored fs0 → fs !! dir = Some Dir ∧ below_kept fs0 fs) →
  (∀ fs, P fs → fs !! dir = None → ∀ q, dir `prefix_of` q → fs !! q = None) →
  triple P other (reserved fs0) →
  triple P (create_dir_or dir other) (reserved fs0).
Proof using Hname.
  intros Hf Hk Ho Hother. unfold create_dir_or.
  eapply triple_bind with (R := λ o fs, match o with
    | Ret (Ok _) => reserve_frame fs0 fs ∧ ¬ snapshot_stored fs0 ∧ dir_empty fs
    | _ => P fs end).
  - apply triple_attempt, triple_atomic; [|done..].
    intros fs a fs' HP E. rewrite node_at_dir in E. destruct (fs !! dir) eqn:Ed; [done|].
    destruct (parent_is_dir fs dir); [|done]. simplify_eq. split_and!.
    + intros q Hq. rewrite lookup_insert_ne; [intros <-; by apply Hq|by apply Hf].
    + intros Hst. destruct (Hk fs HP Hst). congruence.
    + split; [by rewrite lookup_insert_eq|]. intros q Hq Hne. rewrite lookup_insert_ne; [by apply not_eq_sym|].
      by apply (Ho fs HP Ed).
  - intros [a|e].
    + apply triple_ret. intros fs (H1 & H2 & H3). by split_and!.
    + destruct (decide (e = AlreadyExists)); [done|]. apply triple_throw. intros fs HP.
      split_and!; [by apply Hf| |done]. intros Hst. split; [|done]. by apply (Hk fs).
  - intros e fs HP. split_and!; [by apply Hf| |done]. intros Hst. split; [|done]. by apply (Hk fs).
  - intros fs HP. split_and!; [by apply Hf| |done]. intros Hst. split; [|done]. by apply (Hk fs).
Qed.

Lemma create_parents_kept fs0 :
  triple (λ fs, fs = fs0) (create_dir_all (snapshots_dir paths))
    (λ _ fs, reserve_frame fs0 fs ∧ below_kept fs0 fs).
Proof using Hname.
  eapply triple_weaken; [apply (create_dir_all_adds fs0 (snapshots_dir paths))|done|].
  intros o fs Hd. split; [by intros q _|]. intros q Hq. eapply adds_dirs_other; [exact Hd|].
  intros Hq'. apply (child_not_prefix (snapshots_dir paths) name). rewrite -dir_app. etrans; eassumption.
Qed.

(** Removing the directory: once it returned the directory is gone, with all
    below it. *)
Lemma snapshot_delete_gone fs0 :
  tree_ok fs0 →
  triple (λ fs, reserve_frame fs0 fs ∧ below_kept fs0 fs) (snapshot_delete paths name)
    (λ o fs, reserve_frame fs0 fs ∧ (∀ b, o = Ret b → fs !! dir = None → ∀ q, dir `prefix_of` q → fs !! q = None)).
Proof using Hname Hremove.
  intros Hok. unfold snapshot_delete.
  assert (Hcut : ∀ fs (P : Path → Prop) `{∀ q, Decision (P q)}, reserve_frame fs0 fs →
            (∀ q, ¬ dir `prefix_of` q → P q) → reserve_frame fs0 (filter (λ pn : Path * node B, P pn.1) fs)).
  { intros fs P Hdec Hf HP q Hq. assert (filter (λ pn : Path * node B, P pn.1) fs !! q = fs !! q) as ->.
    { destruct (fs !! q) eqn:E; [apply map_lookup_filter_Some; auto|apply map_lookup_filter_None; auto]. }
    by apply Hf. }
  assert (Habs : ∀ fs, below_kept fs0 fs → fs !! dir = None → ∀ q, dir `prefix_of` q → fs !! q = None).
  { intros fs Hk Hn q Hq. rewrite Hk //. apply (tree_ok_absent _ dir Hok); [|by rewrite -Hk|done].
    rewrite dir_app. intros E. by apply app_nil in E as [_ ?]. }
  eapply triple_bind with (R := λ o fs, reserve_frame fs0 fs ∧ match o with
    | Ret (Ok _) | Ret (Err NotFound) => ∀ q, dir `prefix_of` q → fs !! dir = None → fs !! q = None
    | _ => True end).
  - intros s [Hf Hk].
    pose proof (Hcut (files s) (λ q, ¬ dir `prefix_of` q ∨ env_survives (calls s) q = true)
      ltac:(apply _) Hf (λ q H, or_introl H)) as Hbroken.
    rewrite wp_attempt. unfold remove_dir_all. unfold wp, sys. cbn [fst snd].
    pose proof (Hremove (calls s)) as Hne. destruct (env_reply (calls s) _) as [|e|].
    + destruct (files s !! dir) as [[b|]|] eqn:E.
      * done.
      * split; [exact (Hcut (files s) (λ q, ¬ dir `prefix_of` q) ltac:(apply _) Hf (λ q H, H))|]. intros q Hq _. simpl. apply map_lookup_filter_None. right. by intros n _ [].
      * split; [done|]. case_match; try done. intros q Hq _. by apply (Habs (files s)).
    + split; [exact Hbroken|]. destruct e; try done.
    + split; [exact Hbroken|done].
  - intros [u|e].
    + apply triple_ret. intros fs [Hf H]. split; [done|]. intros b _ Hn q Hq. by apply H.
    + destruct (decide (e = NotFound)) as [->|].
      * apply triple_ret. intros fs [Hf H]. split; [done|]. intros b _ Hn q Hq. by apply H.
      * apply triple_throw. intros fs [Hf _]. split; [done|]. by intros b [=].
  - intros e fs [Hf _]. split; [done|]. by intros b [=].
  - intros fs [Hf _]. split; [done|]. by intros b [=].
Qed.

Lemma read_manifest_triple fs0 :
  triple (λ fs, reserve_frame fs0 fs ∧ below_kept fs0 fs) (attempt (read_manifest paths name) : M _ IoError _)
    (λ o fs, (reserve_frame fs0 fs ∧ below_kept fs0 fs) ∧ (snapshot_stored fs0 → ∀ e, o ≠ Ret (Err e))).
Proof using Hname Hread.
  intros s [Hf Hk]. rewrite wp_attempt.
  assert (Hro : readonly (read_manifest paths name)).
  { unfold readonly, read_manifest. apply steps_bind; [apply _|apply look_readonly|]. intros b. by apply steps_lift; apply _. }
  pose proof (Hro s) as Hs. unfold same_files in Hs. unfold wp.
  destruct (read_manifest paths name s) as [o s'] eqn:E. simpl in Hs. rewrite -Hs in Hf, Hk.
  destruct o; (split; [done|]); [done| |done]. intros Hst. rewrite Hs in Hk.
  destruct (read_manifest_stored s (stored_kept _ _ Hst Hk)) as (m & s'' & E' & _). congruence.
Qed.

Lemma reserve_triple fs0 :
  tree_ok fs0 → triple (λ fs, fs = fs0) (reserve paths name) (reserved fs0).
Proof using Hname Hread Hremove.
  intros Hok. unfold reserve.
  assert (Hkeep : ∀ o fs, reserve_frame fs0 fs ∧ below_kept fs0 fs → (∀ b : bool, o = Ret b → b = false) →
            reserved fs0 o fs).
  { intros o fs [Hf Hk] Ho. split; [done|]. split; [intros _; split; [done|]|]; intros E; by specialize (Ho _ E). }
  assert (Habs : ∀ fs, below_kept fs0 fs → fs !! dir = None → ∀ q, dir `prefix_of` q → fs !! q = None).
  { intros fs Hk Hn q Hq. rewrite Hk //. apply (tree_ok_absent _ dir Hok); [|by rewrite -Hk|done].
    rewrite dir_app. intros E. by apply app_nil in E as [_ ?]. }
  eapply triple_bind; [apply create_parents_kept| |intros; by apply Hkeep..].
  intros []. apply create_dir_frame; [by intros fs []| |intros fs []; by apply Habs|].
  { intros fs [_ Hk] Hst. split; [|done]. by destruct (stored_kept _ _ Hst Hk). }
  eapply triple_bind; [apply read_manifest_triple| |intros ? fs []; by apply Hkeep|intros fs []; by apply Hkeep].
  intros [m|e]; simpl.
  { apply triple_ret. intros fs [H _]. apply Hkeep; [done|]. by intros b [= <-]. }
  intros s [HP Hst].
  assert (Hno : ¬ snapshot_stored fs0) by (intros H; by apply (Hst H e)).
  clear Hst. revert s HP.
  assert (Hfail : ∀ o fs, reserve_frame fs0 fs → (∀ b : bool, o = Ret b → b = false) → reserved fs0 o fs).
  { intros o fs Hf Ho. split; [done|]. split; [done|]. intros E. by specialize (Ho _ E). }
  change (triple (λ fs, reserve_frame fs0 fs ∧ below_kept fs0 fs)
    (snapshot_delete paths name ;; create_dir_or dir (mret false)) (reserved fs0)).
  eapply triple_bind; [by apply snapshot_delete_gone| |intros ? fs []; by apply Hfail|intros fs []; by apply Hfail].
  intros b. apply create_dir_frame.
  - by intros fs [].
  - done.
  - intros fs [_ H]. by apply (H b).
  - apply triple_ret. intros fs [Hf _]. apply Hfail; [done|]. by intros ? [= <-].
Qed.
End reserve.

(** Reserving a snapshot's name never touches a snapshot that is there, and
    never hands out its name; a name it hands out comes with an empty
    directory; and outside that directory only missing parents are made.  So it
    is whatever calls fail and wherever the daemon dies, as long as the
    manifest of the stored snapshot can be read. *)
Theorem reserve_exclusive {B} `{!Bytes B, !Env B, !Codec B SnapshotManifest}
    (paths : OadPaths) (name : string) (s : Os B) :
  validate_snapshot_name name = Ok tt → tree_ok (files s) →
  (∀ h, env_reply h (CRead (snapshot_manifest paths name)) = Go) →
  (∀ h, env_reply h (CRemoveDirAll (snapshot_dir paths name)) ≠ Fail NotFound) →
  let '(o, s') := reserve paths name s in
  reserve_frame paths name (files s) (files s') ∧
  (snapshot_stored paths name (files s) → below_kept paths name (files s) (files s') ∧ o ≠ Ret true) ∧
  (o = Ret true → dir_empty paths name (files s')).
Proof.
  intros Hname Hok Hread Hremove. assert (Hv : valid_segment name) by by apply validate_id_segment_valid in Hname.
  exact (reserve_triple paths name Hv Hread Hremove (files s) Hok s eq_refl).
Qed.

Definition demo_manifest : SnapshotManifest :=
  mkManifest "base" "pause:1" [mkContainerSpec "main" "alpine:3" [] [] []] network_default 0.

(** A store with one snapshot, in a file system that lists every parent. *)
Definition demo_store : Os (string + SnapshotManifest) :=
  mkOs {[ ["srv"] := Dir; ["srv"; "cache"] := Dir; ["srv"; "cache"; "snapshots"] := Dir;
          ["srv"; "cache"; "snapshots"; "base"] := Dir;
          ["srv"; "cache"; "snapshots"; "base"; "manifest.json"] := File (inr demo_manifest) ]} [] 0.

Lemma demo_store_tree : tree_ok (files demo_store).
Proof.
  set (dir_at p := match node_at (files demo_store) p with Some Dir => true | _ => false end).
  assert (H : map_Forall (λ p _, dir_at (removelast p) = true) (files demo_store))
    by (apply (bool_decide_unpack _); vm_compute; exact I).
  intros q c [n Hn]. specialize (H _ _ Hn). cbn beta in H. rewrite removelast_last in H.
  unfold dir_at in H. by destruct (node_at (files demo_store) q) as [[]|].
Qed.

Lemma reserve_exclusive_witness :
  let '(o, s') := reserve (Env0 := quiet_env) demo_paths "base" demo_store in
  o = Ret false ∧ below_kept demo_paths "base" (files demo_store) (files s').
Proof.
  pose proof (reserve_exclusive (Env0 := quiet_env) demo_paths "base" demo_store eq_refl demo_store_tree
    (λ _, eq_refl) (λ _, ltac:(discriminate))) as H.
  assert (E : (reserve (Env0 := quiet_env) demo_paths "base" demo_store).1 = Ret false) by (vm_compute; reflexivity).
  destruct (reserve _ _ _) as [o s']. split; [exact E|]. apply (proj1 (proj1 (proj2 H) ltac:(split; [reflexivity|
    eexists _, demo_manifest; split; reflexivity]))).
Defined.

(** A manifest that cannot be read for a moment (here: too many open files) is
    taken for a snapshot that was never finished: the stored snapshot is
    deleted and its name handed out. *)
Example unreadable_manifest_deletes_snapshot :
  let e : Env (string + SnapshotManifest) := faulty_env 4 (Fail (IoOther "too many open files")) in
  let '(o, s') := reserve (Env0 := e) demo_paths "base" demo_store in
  calls s' !! 1 = Some (CRemoveDirAll (snapshot_dir demo_paths "base")) ∧
  o = Ret true ∧ files s' !! snapshot_dir demo_paths "base" = Some Dir ∧
  files s' !! snapshot_manifest demo_paths "base" = None.
Proof. vm_compute. repeat split. Qed.
