(* ===== verification/Runtime.v ===== *)
(** * Driving runsc (crates/oad-runtime/src/lib.rs)

    The argument lists of the [runsc] invocations, and the sequences of calls
    that start, checkpoint, snapshot, restore and delete the containers of a
    sandbox and that publish checkpoint images. [runsc] itself is the
    environment's: a command that succeeds or not and changes files as it likes. *)
From S2P Require Import Prelude Str Core Effect Os Json.

Definition RUNSC : string := "runsc".
Definition RUNSC_CHECKPOINT_IMAGE : string := "checkpoint.img".
Definition RUNSC_ERROR_LOG_TAIL_BYTES : Z := 64 * 1024.
Definition SAVE_RESTORE_NETSTACK_ARG : string := "-save-restore-netstack=true".

Inductive RunscNetworkMode : Type := RunscSandbox | RunscHost.

Definition runsc_network_mode (m : NetworkMode) : RunscNetworkMode :=
  match m with ModeSandbox => RunscSandbox | ModeHost => RunscHost end.
Definition core_network_mode (m : RunscNetworkMode) : NetworkMode :=
  match m with RunscSandbox => ModeSandbox | RunscHost => ModeHost end.

Inductive RestoreSpecValidation : Type := Enforce | Warning.

Definition as_runsc_arg (v : RestoreSpecValidation) : string :=
  match v with Enforce => "enforce" | Warning => "warning" end.

Record Runsc : Type := mkRunsc { state_dir : Path; network_mode : RunscNetworkMode }.

Definition Runsc_new (state_dir : Path) : Runsc := mkRunsc state_dir RunscSandbox.

Record RestoreConfig : Type := mkRestoreConfig {
  rc_bundle_dir : Path; rc_image_dir : Path; rc_pidfile : Path; rc_overlay_dir : Path;
  rc_spec_validation : RestoreSpecValidation; rc_log_path : Path;
}.

Inductive RuntimeError : Type :=
| SpawnError (e : IoError)
| ExitError (code : option Z) (args : list string) (stdout stderr : string)
| RtIo (e : IoError)
| TeardownFailures (failures : list (string * string)).

(** [RuntimeError]'s [Display], up to the quoting of its [Debug] fields. *)
Definition show_runtime_error (e : RuntimeError) : string :=
  match e with
  | SpawnError e => "failed to spawn runsc: " ++ show_io_error e
  | ExitError code args out err =>
      "runsc exited with " ++ show_status code ++ "; args=" ++ str_join "," args ++
      "; stdout=" ++ out ++ "; stderr=" ++ err
  | RtIo e => "i/o error: " ++ show_io_error e
  | TeardownFailures fs => "failed to delete containers after checkpoint: " ++
      str_join "," (map (λ f : string * string, f.1 ++ ": " ++ f.2) fs)
  end.

(** ** Arguments *)

Section args.
Context (r : Runsc).

Definition base_args (log_path : option Path) : list string :=
  (["-log-format"; "json"]
   ++ match log_path with Some log => ["-log"; display log] | None => [] end
   ++ ["-root"; display (state_dir r)])%list.

Definition base_args_with_network (log_path : option Path) : list string :=
  (base_args log_path
   ++ match network_mode r with RunscHost => ["-network"; "host"] | RunscSandbox => [] end)%list.

Definition overlay_arg (overlay_dir : Path) : string :=
  "--overlay2=root:dir=" ++ display overlay_dir.

Definition create_args (bundle_dir pidfile : Path) (container : string) (overlay_dir : Path)
    : list string :=
  (base_args_with_network None ++ [overlay_arg overlay_dir] ++
   ["create"; "-bundle"; display bundle_dir; "-pid-file"; display pidfile; container])%list.

Definition start_args (container : string) (overlay_dir : Path) : list string :=
  (base_args_with_network None ++ ["-net-disconnect-ok=true"; SAVE_RESTORE_NETSTACK_ARG] ++
   [overlay_arg overlay_dir] ++ ["start"; container])%list.

Definition checkpoint_args (container : string) (image_dir overlay_dir : Path)
    (leave_running : bool) : list string :=
  (base_args None ++ [overlay_arg overlay_dir] ++ ["checkpoint"] ++
   (if leave_running then ["-leave-running"] else []) ++
   ["-image-path"; display image_dir; container])%list.

Definition restore_args (container : string) (bundle_dir image_dir pidfile overlay_dir : Path)
    (spec_validation : RestoreSpecValidation) : list string :=
  (base_args_with_network None ++ [SAVE_RESTORE_NETSTACK_ARG] ++ [overlay_arg overlay_dir] ++
   ["-restore-spec-validation"; as_runsc_arg spec_validation] ++
   ["restore"; "-bundle"; display bundle_dir; "-image-path"; display image_dir;
    "-pid-file"; display pidfile; "-detach"; container])%list.

Definition delete_args (container : string) (log_path : option Path) : list string :=
  (base_args log_path ++ ["delete"; "-force"; container])%list.

Definition state_args (container : string) (log_path : option Path) : list string :=
  (base_args log_path ++ ["state"; container])%list.

Definition exec_args (container : string) (command env : list string) (cwd : option string)
    (log_path : option Path) : list string :=
  (base_args log_path ++ ["exec"]
   ++ match cwd with Some cwd => ["-cwd"; cwd] | None => [] end
   ++ flat_map (λ var, ["-env"; var]) env
   ++ ["--"; container] ++ command)%list.
End args.

Record ExecOutput : Type := mkExecOutput { exit_code : Z; exec_stdout : string; exec_stderr : string }.

Record PtySizeSpec : Type := mkPtySize { rows : Z; cols : Z }.

Record PtyExecConfig : Type := mkPtyExec {
  pty_container : string; pty_command : list string; pty_env : list string;
  pty_cwd : option string; pty_log_path : option Path; pty_size : PtySizeSpec;
}.

Section runsc.
Context {B : Type} `{!Bytes B, !Env B}.
Notation RtM := (M (Os B) RuntimeError).

Definition io {A} (m : M (Os B) IoError A) : RtM A := mapE RtIo m.

(** ** Running it *)

Definition read_tail (path : Path) (max_bytes : Z) : M (Os B) IoError string :=
  body ← read_file path;
  mret (to_text (bytes_from (Z.max 0 (bytes_len body - max_bytes)) body)).

Definition runsc_log_error (log_path : Path) : RtM string :=
  r ← attempt (read_tail log_path RUNSC_ERROR_LOG_TAIL_BYTES);
  mret match r with
  | Ok log => if decide (trim log = "") then "see " ++ display log_path ++ " (log was empty)"
              else "see " ++ display log_path ++ "; log tail:" ++ nl ++ log
  | Err err => "see " ++ display log_path ++ " (failed to read log: " ++ show_io_error err ++ ")"
  end.

Definition run_logged (args : list string) (log_path : Path) : RtM () :=
  io (on_parent log_path create_dir_all) ;;
  io (open_append log_path) ;;
  st ← mapE SpawnError (run_command RUNSC args None);
  let '(success, code, _, _) := st in
  if (success : bool) then mret tt else
  stderr ← runsc_log_error log_path;
  throw (ExitError code args "" stderr).

Definition run (args : list string) : RtM string :=
  st ← mapE SpawnError (run_command RUNSC args None);
  let '(success, code, stdout, stderr) := st in
  if (success : bool) then mret stdout else throw (ExitError code args stdout stderr).

(** [temp_runsc_log]: a fresh file in the temporary directory, removed when
    the handle is dropped. *)
Definition temp_runsc_log : RtM Path := io (λ s,
  let p := ["tmp"; "oad-runsc-" ++ env_tempfile (calls s) ++ ".jsonl"] in
  look (CCreateNew p) (λ _, Ok p) s).

Definition runsc_create (r : Runsc) (bundle_dir pidfile : Path) (container : string)
    (overlay_dir log_path : Path) : RtM () :=
  run_logged (create_args r bundle_dir pidfile container overlay_dir) log_path.

Definition runsc_start (r : Runsc) (container : string) (overlay_dir log_path : Path) : RtM () :=
  run_logged (start_args r container overlay_dir) log_path.

Definition runsc_checkpoint (r : Runsc) (container : string) (image_dir overlay_dir log_path : Path)
    (leave_running : bool) : RtM () :=
  run_logged (checkpoint_args r container image_dir overlay_dir leave_running) log_path.

Definition runsc_restore (r : Runsc) (container : string) (c : RestoreConfig) : RtM () :=
  run_logged (restore_args r container (rc_bundle_dir c) (rc_image_dir c) (rc_pidfile c)
                (rc_overlay_dir c) (rc_spec_validation c)) (rc_log_path c).

Definition runsc_delete (r : Runsc) (container : string) : RtM () :=
  log ← temp_runsc_log; run (delete_args r container (Some log)) ;; mret tt.

Definition runsc_state (r : Runsc) (container : string) : RtM string :=
  log ← temp_runsc_log; run (state_args r container (Some log)).

(** A command that ran and failed is a result, not an error. *)
Definition runsc_exec (r : Runsc) (container : string) (command env : list string)
    (cwd : option string) : RtM ExecOutput :=
  log ← temp_runsc_log;
  st ← mapE SpawnError (run_command RUNSC (exec_args r container command env cwd (Some log)) None);
  let '(_, code, stdout, stderr) := st in
  mret (mkExecOutput (default (-1)%Z code) stdout stderr).

(** Spawning without waiting; the piped streams are always there to be taken. *)
Definition spawn (args : list string) : RtM () :=
  mapE SpawnError (look (CRun RUNSC args None) (λ _, Ok tt)).

Definition create_log_dir (log_path : option Path) : RtM () :=
  match log_path with Some log => io (on_parent log create_dir_all) | None => mret tt end.

Definition runsc_spawn_exec (r : Runsc) (container : string) (command env : list string)
    (cwd : option string) (log_path : option Path) : RtM () :=
  create_log_dir log_path ;; spawn (exec_args r container command env cwd log_path).

Definition runsc_spawn_pty_exec (r : Runsc) (c : PtyExecConfig) : RtM () :=
  create_log_dir (pty_log_path c) ;;
  spawn (exec_args r (pty_container c) (pty_command c) (pty_env c) (pty_cwd c) (pty_log_path c)).
End runsc.

(** ** Which containers are checkpointed, and how *)

Definition is_pause (c : string) : bool := bool_decide (c = PAUSE_CONTAINER).

Definition checkpoint_target_names (containers : list string) : list string :=
  let workloads := List.filter (λ c, negb (is_pause c)) containers in
  if existsb is_pause containers then PAUSE_CONTAINER :: workloads else workloads.

Definition checkpoint_targets (containers : list string) : list (string * bool) :=
  map (λ c, (c, true)) (checkpoint_target_names containers).

Definition checkpoint_suspend_targets (containers : list string) : list (string * bool) :=
  let names := checkpoint_target_names containers in
  let last_index := Nat.pred (length names) in
  imap (λ index c, (c, negb (Nat.eqb index last_index))) names.

Definition container_checkpoint_dir (image_dir : Path) (container : string) : Path :=
  join image_dir container.

Definition backup_checkpoint_dir (image_dir : Path) : Path :=
  with_file_name image_dir ("." ++ default "checkpoint" (file_name image_dir) ++ ".backup").

Section sequences.
Context {B : Type} `{!Bytes B, !Env B}.
Notation RtM := (M (Os B) RuntimeError).
Context (paths : OadPaths) (sandbox_id : SandboxId).

Definition runsc_for_sandbox : Runsc := Runsc_new (runsc_state_dir paths sandbox_id).
Definition runsc_for_sandbox_with_network (mode : RunscNetworkMode) : Runsc :=
  mkRunsc (runsc_state_dir paths sandbox_id) mode.

Definition create_sandbox_dirs : RtM () :=
  io (create_dir_all (runsc_state_dir paths sandbox_id)) ;;
  io (create_dir_all (pidfiles_dir paths sandbox_id)) ;;
  io (create_dir_all (logs_dir paths sandbox_id)).

Definition create_and_start (r : Runsc) (container : string) : RtM () :=
  let overlay := rootfs_overlay_dir paths sandbox_id container in
  let log := container_log paths sandbox_id container in
  runsc_create r (bundle_dir paths sandbox_id container) (pidfile paths sandbox_id container)
    container overlay log ;;
  runsc_start r container overlay log.

Definition start_container_sequence (containers : list string) (mode : RunscNetworkMode) : RtM () :=
  create_sandbox_dirs ;;
  forM containers (create_and_start (runsc_for_sandbox_with_network mode)).

(** *** Deleting *)

(** One container: skipped when [runsc state] fails. *)
Definition delete_if_visible (r : Runsc) (container : string)
    : RtM (list (string * string)) :=
  st ← attempt (runsc_state r container);
  match st with
  | Err _ => mret []
  | Ok _ =>
      d ← attempt (runsc_delete r container);
      match d with
      | Ok _ => mret []
      | Err err => mret [(container, show_runtime_error err)]
      end
  end.

Definition delete_visible_containers (r : Runsc) (containers : list string)
    : RtM (list (string * string)) :=
  failures ← mapM_ (delete_if_visible r) (rev containers);
  mret (concat failures).

Definition delete_visible_container_sequence (containers : list string)
    : RtM (list (string * string)) :=
  delete_visible_containers runsc_for_sandbox containers.

(** *** Publishing a checkpoint image *)

Definition remove_dir_if_exists (path : Path) : RtM () :=
  r ← attempt (remove_dir_all path);
  match r with
  | Ok _ => mret tt
  | Err err => if decide (err = NotFound) then mret tt else throw (RtIo err)
  end.

Definition path_exists (path : Path) : RtM bool := io (try_exists path).

Definition sync_container_dir (image_dir : Path) (name : string) : RtM () :=
  let container_dir := (image_dir ++ [name])%list in
  dir ← io (is_dir container_dir);
  if (dir : bool) then
    io (sync_file (join container_dir RUNSC_CHECKPOINT_IMAGE)) ;; io (sync_dir container_dir)
  else mret tt.

Definition sync_checkpoint_dir (image_dir : Path) : RtM () :=
  let top_level_image := join image_dir RUNSC_CHECKPOINT_IMAGE in
  top ← io (try_exists top_level_image);
  (if (top : bool) then io (sync_file top_level_image)
   else names ← io (read_dir image_dir); forM names (sync_container_dir image_dir)) ;;
  io (sync_dir image_dir).

Definition publish_checkpoint_dir (tmp_image_dir image_dir : Path) : RtM () :=
  sync_checkpoint_dir tmp_image_dir ;;
  io (on_parent image_dir create_dir_all) ;;
  let backup := backup_checkpoint_dir image_dir in
  remove_dir_if_exists backup ;;
  exists_ ← path_exists image_dir;
  moved_existing_to_backup ← (if (exists_ : bool) then
      io (rename image_dir backup) ;; io (on_parent image_dir sync_dir) ;; mret true
    else mret false);
  r ← attempt (rename tmp_image_dir image_dir);
  match r with
  | Err err =>
      (if (moved_existing_to_backup : bool) then
         ignore (rename backup image_dir) ;; ignore (on_parent image_dir sync_dir)
       else mret tt) ;;
      throw (RtIo err)
  | Ok _ =>
      io (on_parent image_dir sync_dir) ;;
      remove_dir_if_exists backup
  end.

(** *** Which images are there *)

Definition checkpoint_dir_has_image (image_dir : Path) : M (Os B) RuntimeError bool :=
  r ← attempt (try_exists (join image_dir RUNSC_CHECKPOINT_IMAGE));
  mret match r with Ok b => b | Err _ => false end.

Fixpoint all_have_image (image_dir : Path) (targets : list string) : RtM bool :=
  match targets with
  | [] => mret true
  | c :: targets =>
      has ← checkpoint_dir_has_image (container_checkpoint_dir image_dir c);
      if (has : bool) then all_have_image image_dir targets else mret false
  end.

Definition checkpoint_tree_complete_for_containers (image_dir : Path) (containers : list string) : RtM bool :=
  match checkpoint_target_names containers with
  | [] => mret false
  | targets => all_have_image image_dir targets
  end.

(** [has_image(dir) || tree_complete(dir)]: the second is only asked if needed. *)
Definition image_or_tree (dir : Path) (containers : list string) : RtM bool :=
  has ← checkpoint_dir_has_image dir;
  if (has : bool) then mret true else checkpoint_tree_complete_for_containers dir containers.

Definition recover_backup_checkpoint_dir_for_containers (image_dir : Path)
    (containers : list string) : RtM bool :=
  let backup := backup_checkpoint_dir image_dir in
  ok ← image_or_tree backup containers;
  if negb ok then mret false else
  ignore (remove_dir_if_exists image_dir) ;;
  r ← attempt (rename backup image_dir);
  match r with
  | Ok _ => ignore (on_parent image_dir sync_dir) ;; mret true
  | Err _ => image_or_tree image_dir containers
  end.

Definition checkpoint_image_complete_for_containers (image_dir : Path)
    (containers : list string) : RtM bool :=
  ok ← image_or_tree image_dir containers;
  if (ok : bool) then ignore (remove_dir_if_exists (backup_checkpoint_dir image_dir)) ;; mret true
  else recover_backup_checkpoint_dir_for_containers image_dir containers.

Definition no_image_error (container : string) (image_dir : Path) : RuntimeError :=
  RtIo (IoOther ("no checkpoint image for container " ++ container ++ " under " ++ display image_dir)).

Definition checkpoint_image_dir_for_container (image_dir : Path) (container : string) : RtM Path :=
  let container_image_dir := container_checkpoint_dir image_dir container in
  has ← checkpoint_dir_has_image container_image_dir;
  if (has : bool) then mret container_image_dir else
  has ← checkpoint_dir_has_image image_dir;
  if (has : bool) then mret image_dir else
  throw (no_image_error container image_dir).

(** *** Checkpoint, snapshot, copy, restore *)

Definition checkpoint_container_image (r : Runsc) (image_dir : Path) (target : string * bool) : RtM () :=
  let '(container, leave_running) := target in
  let container_image_dir := container_checkpoint_dir image_dir container in
  io (create_dir_all container_image_dir) ;;
  runsc_checkpoint r container container_image_dir (rootfs_overlay_dir paths sandbox_id container)
    (container_log paths sandbox_id container) leave_running.

Definition checkpoint_container_images (targets : list (string * bool)) (image_dir : Path) : RtM () :=
  forM targets (checkpoint_container_image runsc_for_sandbox image_dir).

(** The steps in a temporary directory, which is removed if they fail. *)
Definition in_temp_image_dir (image_dir : Path) (fill : Path → RtM ()) : RtM () :=
  tmp_image_dir ← io (fresh_temp_path image_dir);
  on_error (ignore (remove_dir_all tmp_image_dir))
    (remove_dir_if_exists tmp_image_dir ;;
     io (create_dir_all tmp_image_dir) ;;
     fill tmp_image_dir ;;
     publish_checkpoint_dir tmp_image_dir image_dir).

Definition checkpoint_sandbox (containers : list string) (image_dir : Path) : RtM () :=
  in_temp_image_dir image_dir (λ tmp_image_dir,
    checkpoint_container_images (checkpoint_suspend_targets containers) tmp_image_dir ;;
    failures ← delete_visible_containers runsc_for_sandbox containers;
    match failures with
    | [] => mret tt
    | _ => throw (TeardownFailures failures)
    end).

Definition snapshot_sandbox (containers : list string) (image_dir : Path) : RtM () :=
  in_temp_image_dir image_dir (λ tmp_image_dir,
    checkpoint_container_images (checkpoint_targets containers) tmp_image_dir).

(** The body of the loop over a directory's entries: the directories found are
    created and given back, to be pushed on the stack in turn. *)
Fixpoint copy_entries (from to : Path) (names : list string) : RtM (list (Path * Path)) :=
  match names with
  | [] => mret []
  | name :: names =>
      let entry := (from ++ [name])%list in
      let target := (to ++ [name])%list in
      dir ← io (is_dir entry);
      if (dir : bool) then
        io (create_dir_all target) ;;
        found ← copy_entries from to names; mret ((entry, target) :: found)
      else io (copy_file entry target) ;; copy_entries from to names
  end.

(** [while let Some((from, to)) = stack.pop()]: each round takes one directory. *)
Fixpoint copy_stack (fuel : nat) (stack : list (Path * Path)) : RtM () :=
  match fuel, stack with
  | _, [] => mret tt
  | O, _ => panic
  | S fuel, (from, to) :: stack =>
      names ← io (read_dir from);
      found ← copy_entries from to names;
      copy_stack fuel (rev found ++ stack)
  end.

(** One round per directory of the source, so no more than there are paths. *)
Definition copy_dir_recursive (src dst : Path) : RtM () := λ s,
  copy_stack (S (size (files s))) [(src, dst)] s.

Definition copy_checkpoint_image (src_image_dir dst_image_dir : Path) (containers : list string) : RtM () :=
  complete ← checkpoint_image_complete_for_containers src_image_dir containers;
  if negb complete then
    throw (RtIo (IoOther ("no checkpoint image at " ++ display src_image_dir)))
  else in_temp_image_dir dst_image_dir (copy_dir_recursive src_image_dir).

Definition restore_container (r : Runsc) (legacy_checkpoint : bool) (image_dir : Path)
    (spec_validation : RestoreSpecValidation) (container : string) : RtM () :=
  let bundle := bundle_dir paths sandbox_id container in
  let pid := pidfile paths sandbox_id container in
  let overlay := rootfs_overlay_dir paths sandbox_id container in
  let log := container_log paths sandbox_id container in
  has ← (if legacy_checkpoint then mret true
         else checkpoint_dir_has_image (container_checkpoint_dir image_dir container));
  if (has : bool) then
    container_image_dir ← checkpoint_image_dir_for_container image_dir container;
    runsc_restore r container
      (mkRestoreConfig bundle container_image_dir pid overlay spec_validation log)
  else if is_pause container then
    runsc_create r bundle pid container overlay log ;;
    runsc_start r container overlay log
  else throw (no_image_error container image_dir).

Definition restore_sandbox (containers : list string) (image_dir : Path)
    (spec_validation : RestoreSpecValidation) (mode : RunscNetworkMode) : RtM () :=
  create_sandbox_dirs ;;
  legacy_checkpoint ← checkpoint_dir_has_image image_dir;
  forM containers (restore_container (runsc_for_sandbox_with_network mode) legacy_checkpoint
                     image_dir spec_validation).

(** *** Exec and state *)

Definition exec_in_container (container : string) (argv env : list string) (cwd : option string)
    : RtM ExecOutput := runsc_exec runsc_for_sandbox container argv env cwd.

Definition spawn_exec_in_container (container : string) (argv env : list string)
    (cwd : option string) (log_path : option Path) : RtM () :=
  runsc_spawn_exec runsc_for_sandbox container argv env cwd log_path.

Definition spawn_pty_exec_in_container (config : PtyExecConfig) : RtM () :=
  runsc_spawn_pty_exec runsc_for_sandbox config.

Context `{!JsonText}.

Definition parse_runsc_status (state_json : string) : option string :=
  v ← json_from_str state_json; s ← v_get "status" v; as_string s.

Definition container_running_result (container : string) : RtM bool :=
  state ← runsc_state runsc_for_sandbox container;
  mret (bool_decide (parse_runsc_status state = Some "running")).

Definition container_running (container : string) : RtM bool :=
  r ← attempt (container_running_result container);
  mret match r with Ok b => b | Err _ => false end.
End sequences.
