(* ===== verification/Locks.v ===== *)
(** * Locks per name (crates/oad/src/registry.rs)

    [NamedLocks] (one mutex per snapshot name) and the lifecycle locks of the
    registry (one per sandbox id) are the same algorithm: a map from names to a
    mutex and a count of the guards and waiters that use it; the entry is
    created by the first and removed by the last.  A request can be cancelled
    while it waits.  The mutexes are the async runtime's: all that is used of
    them is that a held one is not granted. *)
From S2P Require Import Prelude Str Core.

(** [NamedLockSlot], [LockSlot]; the identity of the [Arc<Mutex>] is a number. *)
Record Slot : Type := mkSlot { slot_lock : nat; holders : nat }.

Notation LockMap := (gmap string Slot).

(** The synchronous part of [acquire]: the slot is found or made, its count
    incremented. [fresh] names the mutex a new slot would get. *)
Definition enter_slot (fresh : nat) (key : string) (locks : LockMap) : nat * LockMap :=
  let slot := default (mkSlot fresh 0) (locks !! key) in
  (slot_lock slot, <[key := mkSlot (slot_lock slot) (S (holders slot))]> locks).

(** The drop of a guard, and of a pending holder: [None] is the panic of a count
    that would go below zero. *)
Definition release_holder (key : string) (locks : LockMap) : option LockMap :=
  match locks !! key with
  | None => Some locks
  | Some (mkSlot lock 0) => None
  | Some (mkSlot lock 1) => Some (delete key locks)
  | Some (mkSlot lock (S n)) => Some (<[key := mkSlot lock n]> locks)
  end.

(** ** Requests as processes *)

(** Where a request is: it has not asked; it awaits the mutex of a key, its
    pending holder armed; it has the guard; the guard's [drop] has run and its
    mutex is about to be released. *)
Inductive Phase : Type :=
| Idle
| Waiting (key : string) (lock : nat)
| Holding (key : string) (lock : nat)
| Releasing (lock : nat).

Record LockWorld : Type := mkLockWorld {
  lock_map : LockMap;
  fresh_lock : nat;
  phases : gmap nat Phase;    (* by request; absent when idle *)
}.

Definition phase (w : LockWorld) (t : nat) : Phase := default Idle (phases w !! t).

Definition set_phase (t : nat) (p : Phase) (w : LockWorld) : LockWorld :=
  mkLockWorld (lock_map w) (fresh_lock w)
    match p with Idle => delete t (phases w) | _ => <[t := p]> (phases w) end.

Definition set_map (locks : LockMap) (fresh : nat) (w : LockWorld) : LockWorld :=
  mkLockWorld locks fresh (phases w).

Definition owns (p : Phase) (lock : nat) : Prop :=
  match p with Holding _ l | Releasing l => l = lock | _ => False end.

#[global] Instance owns_dec p lock : Decision (owns p lock).
Proof. destruct p; simpl; apply _. Defined.

Definition free (w : LockWorld) (lock : nat) : Prop := ∀ t, ¬ owns (phase w t) lock.

(** The steps of the requests, interleaved in any order. *)
Inductive lock_step (w : LockWorld) : LockWorld → Prop :=
| step_enter t key :
    phase w t = Idle →
    let '(lock, locks) := enter_slot (fresh_lock w) key (lock_map w) in
    lock_step w (set_phase t (Waiting key lock) (set_map locks (S (fresh_lock w)) w))
| step_grant t key lock :
    phase w t = Waiting key lock → free w lock →
    lock_step w (set_phase t (Holding key lock) w)
| step_cancel t key lock locks :
    phase w t = Waiting key lock → release_holder key (lock_map w) = Some locks →
    lock_step w (set_phase t Idle (set_map locks (fresh_lock w) w))
| step_drop t key lock locks :
    phase w t = Holding key lock → release_holder key (lock_map w) = Some locks →
    lock_step w (set_phase t (Releasing lock) (set_map locks (fresh_lock w) w))
| step_unlock t lock :
    phase w t = Releasing lock → lock_step w (set_phase t Idle w).

Definition lock_init : LockWorld := mkLockWorld ∅ 0 ∅.

(** ** The invariant *)

(** The key a request counts for in the map. *)
Definition counts_for (p : Phase) : option (string * nat) :=
  match p with Waiting k l | Holding k l => Some (k, l) | _ => None end.

Definition counted (key : string) (p : Phase) : Prop := fst <$> counts_for p = Some key.

#[global] Instance counted_dec key p : Decision (counted key p).
Proof. unfold counted. apply _. Defined.

(** The requests that count for a key. *)
Definition users (key : string) (w : LockWorld) : gmap nat Phase :=
  filter (λ tp, counted key tp.2) (phases w).

Record lock_inv (w : LockWorld) : Prop := {
  inv_count key : from_option holders 0 (lock_map w !! key) = size (users key w);
  inv_positive key slot : lock_map w !! key = Some slot → holders slot ≠ 0;
  inv_lock t key lock : counts_for (phase w t) = Some (key, lock) →
    slot_lock <$> lock_map w !! key = Some lock;
  inv_distinct k1 k2 s1 s2 : lock_map w !! k1 = Some s1 → lock_map w !! k2 = Some s2 →
    slot_lock s1 = slot_lock s2 → k1 = k2;
  inv_fresh key slot : lock_map w !! key = Some slot → slot_lock slot < fresh_lock w;
  inv_owned t lock : owns (phase w t) lock → lock < fresh_lock w;
  inv_owner t1 t2 lock : owns (phase w t1) lock → owns (phase w t2) lock → t1 = t2;
  inv_stored t : phases w !! t ≠ Some Idle;
}.

(** ** Counting *)

Definition one_if (P : Prop) `{Decision P} : nat := if decide P then 1 else 0.

Lemma phase_set t t' p w : phase (set_phase t p w) t' = if decide (t = t') then p else phase w t'.
Proof.
  unfold phase, set_phase. simpl. case_decide as H.
  - subst. destruct p; by simplify_map_eq.
  - destruct p; by simplify_map_eq.
Qed.

Lemma map_set t p w : lock_map (set_phase t p w) = lock_map w.
Proof. done. Qed.

Lemma phase_set_map locks fresh w t : phase (set_map locks fresh w) t = phase w t.
Proof. done. Qed.

Lemma users_set key t p w :
  size (users key (set_phase t p w)) + one_if (counted key (phase w t)) =
  size (users key w) + one_if (counted key p).
Proof.
  set (U := users key w).
  assert (HU : size (delete t U) + one_if (counted key (phase w t)) = size U).
  { unfold phase, one_if. destruct (U !! t) as [q|] eqn:E.
    - pose proof E as E'. unfold U, users in E. rewrite map_lookup_filter_Some in E. destruct E as [E Hq].
      rewrite E /=. simpl in Hq. destruct (decide (counted key q)); [|done].
      rewrite (map_size_delete_Some _ _ (mk_is_Some _ _ E')).
      assert (size U ≠ 0) by (intros H0%map_size_empty_inv; rewrite H0 in E'; done). lia.
    - rewrite (map_size_delete_None _ _ E). unfold U, users in E. rewrite map_lookup_filter_None in E.
      case_decide as Hc; [|lia]. destruct (phases w !! t) as [q|] eqn:Eq; simpl in Hc; [|done].
      destruct E as [E|E]; [done|]. by destruct (E q eq_refl). }
  assert (Hs : users key (set_phase t p w) =
               if decide (counted key p) then <[t:=p]> (delete t U) else delete t U).
  { apply map_eq. intros i. unfold U, users. apply option_eq. intros q.
    rewrite map_lookup_filter_Some. unfold set_phase. simpl.
    destruct (decide (i = t)) as [->|Hi].
    - case_decide as Hc; [|split; [|by rewrite lookup_delete_eq]].
      + destruct p; [done|..]; rewrite !lookup_insert_eq; naive_solver.
      + intros [E Hq]. destruct p; [by rewrite lookup_delete_eq in E|..];
          rewrite lookup_insert_eq in E; by simplify_eq.
    - assert (El : (match p with Idle => delete t (phases w) | _ => <[t:=p]> (phases w) end) !! i = phases w !! i).
      { destruct p; by simplify_map_eq. }
      rewrite El. case_decide; simplify_map_eq; by rewrite map_lookup_filter_Some. }
  rewrite Hs. unfold one_if at 2. case_decide; [|lia].
  rewrite map_size_insert_None; [by rewrite lookup_delete_eq|lia].
Qed.

Lemma users_pos key w t : counted key (phase w t) → size (users key w) ≠ 0.
Proof.
  intros Hc H%map_size_empty_inv. unfold phase in Hc. destruct (phases w !! t) as [q|] eqn:E; [|done].
  assert (Hu : users key w !! t = Some q) by by apply map_lookup_filter_Some.
  by rewrite H in Hu.
Qed.

Lemma counts_counted p key lock : counts_for p = Some (key, lock) → counted key p.
Proof. unfold counted. by intros ->. Qed.

Lemma one_if_counted p key key' lock :
  counts_for p = Some (key, lock) → one_if (counted key' p) = one_if (key = key').
Proof.
  intros H. assert (counted key' p ↔ key = key') by (unfold counted; rewrite H /=; split; congruence).
  unfold one_if. repeat case_decide; tauto.
Qed.

Lemma one_if_none p key : counts_for p = None → one_if (counted key p) = 0.
Proof.
  intros H. unfold one_if. case_decide as Hc; [|done]. unfold counted in Hc. by rewrite H in Hc.
Qed.

Lemma one_if_same p q key :
  counts_for p = counts_for q → one_if (counted key p) = one_if (counted key q).
Proof.
  intros H. assert (counted key p ↔ counted key q) by (unfold counted; by rewrite H).
  unfold one_if. repeat case_decide; tauto.
Qed.

(** What releasing does to the map: one count less for the key, no other change. *)
Lemma release_holder_spec key locks locks' :
  release_holder key locks = Some locks' → is_Some (locks !! key) →
  (∀ k slot, locks !! k = Some slot → holders slot ≠ 0) →
  (∀ k, from_option holders 0 (locks' !! k) + one_if (key = k) = from_option holders 0 (locks !! k)) ∧
  (∀ k slot, locks' !! k = Some slot →
     holders slot ≠ 0 ∧ slot_lock <$> locks !! k = Some (slot_lock slot)).
Proof.
  intros H [[lock n] E] Hpos. unfold release_holder in H. rewrite E in H. unfold one_if.
  destruct n as [|[|n]]; simplify_eq; split; intros k.
  - destruct (decide (key = k)) as [->|Hk]; simplify_map_eq; lia.
  - intros slot Hs. destruct (decide (key = k)) as [->|Hk]; simplify_map_eq; eauto.
  - destruct (decide (key = k)) as [->|Hk]; simplify_map_eq; lia.
  - intros slot Hs. destruct (decide (key = k)) as [->|Hk]; simplify_map_eq; eauto.
Qed.

Lemma release_holder_ok w t key lock :
  lock_inv w → counts_for (phase w t) = Some (key, lock) →
  is_Some (lock_map w !! key) ∧ is_Some (release_holder key (lock_map w)).
Proof.
  intros Hinv Hc. pose proof (inv_lock w Hinv t key lock Hc) as Hl.
  destruct (lock_map w !! key) as [[l n]|] eqn:E; [|done]. split; [done|].
  unfold release_holder. rewrite E. pose proof (inv_positive w Hinv key _ E) as Hn. simpl in Hn.
  by destruct n as [|[|n]].
Qed.

(** ** The invariant is kept *)

(** A change of phase that keeps what the request counts for, and takes a mutex
    only if it is free. *)
Lemma inv_rephase w t p :
  lock_inv w → p ≠ Idle ∨ counts_for (phase w t) = None → counts_for p = counts_for (phase w t) →
  (∀ l, owns p l → owns (phase w t) l ∨ (free w l ∧ l < fresh_lock w)) →
  lock_inv (set_phase t p w).
Proof.
  intros Hinv Hp Hc Ho. split.
  - intros key. rewrite map_set (inv_count w Hinv key). pose proof (users_set key t p w) as H.
    rewrite (one_if_same _ _ key Hc) in H. lia.
  - apply (inv_positive w Hinv).
  - intros t' key lock. rewrite phase_set map_set. case_decide as Ht; [subst t'; rewrite Hc|]; apply (inv_lock w Hinv).
  - apply (inv_distinct w Hinv).
  - apply (inv_fresh w Hinv).
  - intros t' lock. rewrite phase_set. case_decide as Ht; [|apply (inv_owned w Hinv)].
    intros [H|[_ H]]%Ho; [by apply (inv_owned w Hinv) in H|done].
  - intros t1 t2 lock. rewrite !phase_set. intros H1 H2.
    repeat case_decide; subst; [done|..].
    + apply Ho in H2 as [H2|[H2 _]]; [by apply (inv_owner w Hinv t1 t2 lock)|by destruct (H2 t1)].
    + apply Ho in H1 as [H1|[H1 _]]; [by apply (inv_owner w Hinv t1 t2 lock)|by destruct (H1 t2)].
    + by apply (inv_owner w Hinv t1 t2 lock).
  - intros t'. unfold set_phase. simpl. pose proof (inv_stored w Hinv t') as Hs.
    destruct (decide (t = t')) as [<-|]; destruct p; by simplify_map_eq.
Qed.

(** Leaving the map: cancelling a wait, dropping a guard. *)
Lemma inv_release w t key lock locks p :
  lock_inv w → counts_for (phase w t) = Some (key, lock) →
  release_holder key (lock_map w) = Some locks → counts_for p = None →
  (∀ l, owns p l → owns (phase w t) l) →
  lock_inv (set_phase t p (set_map locks (fresh_lock w) w)).
Proof.
  intros Hinv Hc Hr Hp Ho.
  destruct (release_holder_spec key (lock_map w) locks Hr) as [Hcount Hsub];
    [exact (proj1 (release_holder_ok w t key lock Hinv Hc))|apply (inv_positive w Hinv)|].
  assert (Hback : ∀ t' l, owns (if decide (t = t') then p else phase w t') l → owns (phase w t') l).
  { intros t' l H. case_decide; subst; auto. }
  assert (Hn : ∀ k, from_option holders 0 (locks !! k) =
                    size (users k (set_phase t p (set_map locks (fresh_lock w) w)))).
  { intros k. pose proof (users_set k t p (set_map locks (fresh_lock w) w)) as Hu.
    rewrite phase_set_map (one_if_counted _ key k lock Hc) (one_if_none p k Hp) in Hu.
    change (users k (set_map locks (fresh_lock w) w)) with (users k w) in Hu.
    specialize (Hcount k). rewrite (inv_count w Hinv k) in Hcount. lia. }
  split.
  - exact Hn.
  - intros k slot Hs. apply (Hsub k slot Hs).
  - intros t' k l. rewrite phase_set phase_set_map. simpl. case_decide as Ht; [by rewrite Hp|]. intros Hc'.
    pose proof (inv_lock w Hinv t' k l Hc') as Hl. specialize (Hn k).
    assert (Hpos : size (users k (set_phase t p (set_map locks (fresh_lock w) w))) ≠ 0).
    { apply (users_pos k _ t'). rewrite phase_set phase_set_map. case_decide; [done|]. by apply (counts_counted _ k l). }
    destruct (locks !! k) as [slot|] eqn:E; [|simpl in Hn; lia].
    destruct (Hsub k slot E) as [_ E']. simpl. congruence.
  - intros k1 k2 s1 s2 E1 E2 He. apply Hsub in E1 as [_ E1], E2 as [_ E2].
    destruct (lock_map w !! k1) eqn:F1, (lock_map w !! k2) eqn:F2; try done. simpl in *.
    apply (inv_distinct w Hinv k1 k2 _ _ F1 F2). congruence.
  - intros k slot E. apply Hsub in E as [_ E]. destruct (lock_map w !! k) eqn:F; [|done].
    apply (inv_fresh w Hinv) in F. simpl in *. congruence.
  - intros t' l. rewrite phase_set phase_set_map. intros H%Hback. by apply (inv_owned w Hinv t' l).
  - intros t1 t2 l. rewrite !phase_set !phase_set_map. intros H1%Hback H2%Hback. by apply (inv_owner w Hinv t1 t2 l).
  - intros t'. unfold set_phase, set_map. simpl. pose proof (inv_stored w Hinv t') as Hs.
    destruct (decide (t = t')) as [<-|]; destruct p; by simplify_map_eq.
Qed.

Lemma inv_enter w t key :
  lock_inv w → phase w t = Idle →
  let '(lock, locks) := enter_slot (fresh_lock w) key (lock_map w) in
  lock_inv (set_phase t (Waiting key lock) (set_map locks (S (fresh_lock w)) w)).
Proof.
  intros Hinv Hi. unfold enter_slot. set (slot := default _ _).
  set (w' := set_phase _ _ _).
  assert (Hslot : lock_map w !! key = Some slot ∨
                  lock_map w !! key = None ∧ slot = mkSlot (fresh_lock w) 0).
  { unfold slot. destruct (lock_map w !! key); auto. }
  assert (Hlt : slot_lock slot < S (fresh_lock w)).
  { destruct Hslot as [E|[_ ->]]; simpl; [|lia]. apply (inv_fresh w Hinv) in E. lia. }
  (* a lookup in the new map *)
  assert (Hmap : ∀ k s, lock_map w' !! k = Some s →
            (k = key ∧ slot_lock s = slot_lock slot) ∨ (k ≠ key ∧ lock_map w !! k = Some s)).
  { intros k s. unfold w'. simpl. destruct (decide (k = key)) as [->|Hk]; intros E; simplify_map_eq; auto. }
  assert (Hne : ∀ k s, k ≠ key → lock_map w !! k = Some s → slot_lock s ≠ slot_lock slot).
  { intros k s Hk E He. destruct Hslot as [E'|[_ ->]].
    - by apply Hk, (inv_distinct w Hinv k key s slot).
    - apply (inv_fresh w Hinv) in E. simpl in He. lia. }
  split.
  - intros k. pose proof (users_set k t (Waiting key (slot_lock slot)) (set_map (lock_map w') (S (fresh_lock w)) w)) as H.
    change (set_phase t _ _) with w' in H. rewrite phase_set_map Hi in H.
    rewrite (one_if_none Idle k eq_refl) (one_if_counted (Waiting key (slot_lock slot)) key k _ eq_refl) in H.
    change (users k (set_map _ _ w)) with (users k w) in H. rewrite -(inv_count w Hinv k) in H.
    revert H. unfold one_if, w'. simpl. destruct (decide (key = k)) as [<-|Hk]; simplify_map_eq; [|lia].
    destruct Hslot as [->|[-> ->]]; simpl; lia.
  - intros k s E. destruct (decide (k = key)) as [->|Hk].
    + unfold w' in E. simpl in E. by simplify_map_eq.
    + apply Hmap in E as [[? _]|[_ E]]; [done|]. by apply (inv_positive w Hinv) in E.
  - intros t' k l. unfold w' at 1. rewrite phase_set phase_set_map. case_decide as Ht.
    + intros [= <- <-]. simpl. by simplify_map_eq.
    + intros E%(inv_lock w Hinv). unfold w'. simpl. destruct (decide (k = key)) as [->|Hk]; simplify_map_eq; [|done].
      destruct Hslot as [E'|[E' _]]; rewrite E' in E; by simplify_eq/=.
  - intros k1 k2 s1 s2 E1 E2 He. destruct (Hmap _ _ E1) as [[-> H1]|[N1 F1]], (Hmap _ _ E2) as [[-> H2]|[N2 F2]].
    + done.
    + destruct (Hne k2 s2 N2 F2). congruence.
    + destruct (Hne k1 s1 N1 F1). congruence.
    + by apply (inv_distinct w Hinv k1 k2 s1 s2).
  - intros k s E. simpl. destruct (Hmap _ _ E) as [[_ ->]|[_ F]]; [done|].
    apply (inv_fresh w Hinv) in F. lia.
  - intros t' l. unfold w'. rewrite phase_set phase_set_map. simpl. case_decide; [done|].
    intros Ho%(inv_owned w Hinv). lia.
  - intros t1 t2 l. unfold w'. rewrite !phase_set !phase_set_map.
    repeat case_decide; try done. apply (inv_owner w Hinv).
  - intros t'. unfold w', set_phase, set_map. simpl. pose proof (inv_stored w Hinv t') as Hs.
    destruct (decide (t = t')) as [<-|]; by simplify_map_eq.
Qed.

Lemma lock_step_inv w w' : lock_step w w' → lock_inv w → lock_inv w'.
Proof.
  intros Hstep Hinv. destruct Hstep as [t key Hi|t key lock Hw Hf|t key lock locks Hw Hr|t key lock locks Hw Hr|t lock Hw].
  - by apply inv_enter.
  - apply inv_rephase; [done|by left|by rewrite Hw|]. simpl. intros l <-. right. split; [done|].
    pose proof (inv_lock w Hinv t key lock) as Hl. rewrite Hw in Hl. specialize (Hl eq_refl).
    destruct (lock_map w !! key) eqn:E; [|done]. apply (inv_fresh w Hinv) in E. simpl in Hl. congruence.
  - apply (inv_release w t key lock); [done|by rewrite Hw|done..].
  - apply (inv_release w t key lock); [done|by rewrite Hw|done|done|]. by rewrite Hw.
  - apply inv_rephase; [done|right; by rewrite Hw|by rewrite Hw|done].
Qed.

Lemma lock_init_inv : lock_inv lock_init.
Proof. split; intros; by simplify_map_eq. Qed.

Lemma reachable_inv w : rtc lock_step lock_init w → lock_inv w.
Proof.
  intros H. assert (Hg : ∀ u, rtc lock_step u w → lock_inv u → lock_inv w).
  { clear H. intros u Hu. induction Hu as [|u v w Hs _ IH]; [done|]. intros Hi. apply IH. by apply (lock_step_inv u). }
  apply (Hg lock_init H), lock_init_inv.
Qed.

(** C30. Two requests never hold the lock of one name at a time, whatever the others
    do, cancel or have queued up.  The counts never go wrong: dropping a guard
    and cancelling a wait cannot panic.  The map is no larger than needed: a
    name has an entry exactly while some request waits for it or holds it. *)
Theorem locks_exclude (w : LockWorld) :
  rtc lock_step lock_init w →
  (∀ t1 t2 key l1 l2, phase w t1 = Holding key l1 → phase w t2 = Holding key l2 → t1 = t2) ∧
  (∀ t key lock, phase w t = Waiting key lock ∨ phase w t = Holding key lock →
     is_Some (release_holder key (lock_map w))) ∧
  (∀ key, is_Some (lock_map w !! key) ↔
     ∃ t lock, phase w t = Waiting key lock ∨ phase w t = Holding key lock).
Proof.
  intros Hinv%reachable_inv. split_and!.
  - intros t1 t2 key l1 l2 H1 H2.
    pose proof (inv_lock w Hinv t1 key l1) as E1. pose proof (inv_lock w Hinv t2 key l2) as E2.
    rewrite H1 in E1. rewrite H2 in E2. specialize (E1 eq_refl). specialize (E2 eq_refl).
    apply (inv_owner w Hinv t1 t2 l1); rewrite ?H1 ?H2 /=; congruence.
  - intros t key lock H. apply (release_holder_ok w t key lock Hinv). by destruct H as [-> | ->].
  - intros key. split.
    + intros [slot E]. pose proof (inv_count w Hinv key) as Hc. rewrite E /= in Hc.
      apply (inv_positive w Hinv) in E. destruct (map_choose (users key w)) as (t & p & Hp).
      { intros H0. rewrite H0 map_size_empty in Hc. lia. }
      apply map_lookup_filter_Some in Hp as [Hp Hk]. exists t.
      assert (Ht : phase w t = p) by (unfold phase; by rewrite Hp). rewrite Ht.
      unfold counted in Hk. destruct p; simplify_eq/=; eauto.
    + intros (t & lock & H). apply (release_holder_ok w t key lock Hinv). by destruct H as [-> | ->].
Qed.

(** No request waits in vain: as long as one waits for a name, that request can
    be granted the lock at once, or the mutex is with a request of the same
    name that can be finished by its own steps, without any of the others. *)
Theorem locks_progress (w : LockWorld) (t : nat) (key : string) (lock : nat) :
  rtc lock_step lock_init w → phase w t = Waiting key lock →
  lock_step w (set_phase t (Holding key lock) w) ∨
  ∃ t', t' ≠ t ∧
    ((phase w t' = Holding key lock ∧
      ∃ locks, lock_step w (set_phase t' (Releasing lock) (set_map locks (fresh_lock w) w))) ∨
     (phase w t' = Releasing lock ∧ lock_step w (set_phase t' Idle w) ∧ free (set_phase t' Idle w) lock)).
Proof.
  intros Hinv%reachable_inv Hw.
  destruct (decide (Exists (λ tp, owns (phase w tp.1) lock) (map_to_list (phases w)))) as [He|Hn].
  - right. apply Exists_exists in He as ([t' p] & _ & Ho). simpl in Ho. exists t'.
    split; [intros ->; by rewrite Hw in Ho|].
    destruct (phase w t') as [| |key' l|l] eqn:E; simpl in Ho; try done; subst l.
    + left. assert (key' = key) as ->.
      { pose proof (inv_lock w Hinv t key lock) as H1. pose proof (inv_lock w Hinv t' key' lock) as H2.
        rewrite Hw in H1. rewrite E in H2. specialize (H1 eq_refl). specialize (H2 eq_refl).
        destruct (lock_map w !! key) eqn:F1, (lock_map w !! key') eqn:F2; try done. simpl in *.
        apply (inv_distinct w Hinv key' key _ _ F2 F1). congruence. }
      split; [done|]. destruct (release_holder_ok w t' key lock Hinv) as [_ [locks Hr]]; [by rewrite E|].
      exists locks. by apply (step_drop w t' key).
    + right. split_and!; [done|by apply (step_unlock w t' lock)|].
      intros u. rewrite phase_set. case_decide as Hu; [done|]. intros Ho. apply Hu.
      apply (inv_owner w Hinv t' u lock); [by rewrite E|done].
  - left. apply step_grant; [done|]. intros t' Ho. apply Hn, Exists_exists.
    unfold phase in *. destruct (phases w !! t') as [p|] eqn:E; [|done].
    exists (t', p). split; [by apply elem_of_map_to_list|]. simpl. by rewrite E.
Qed.

(** ** One call of [acquire_lifecycle]

    The same counting under the ids of sandboxes.  A pending holder is dropped
    however the call ends, and counts only while it is armed. *)

Record PendingLifecycleHolder : Type := mkPending { armed : bool; pending_id : SandboxId }.

Definition disarm (p : PendingLifecycleHolder) : PendingLifecycleHolder := mkPending false (pending_id p).

Definition drop_pending_lifecycle (p : PendingLifecycleHolder) (locks : LockMap) : option LockMap :=
  if armed p then release_holder (as_str (pending_id p)) locks else Some locks.

(** Up to the wait, and from the grant on; the drop of the guard. *)
Definition acquire_lifecycle (fresh : nat) (id : SandboxId) (locks : LockMap) : PendingLifecycleHolder * nat * LockMap :=
  let '(lock, locks) := enter_slot fresh (as_str id) locks in (mkPending true id, lock, locks).

Definition lifecycle_granted (p : PendingLifecycleHolder) (locks : LockMap) : option LockMap := drop_pending_lifecycle (disarm p) locks.

Definition drop_lifecycle_guard (id : SandboxId) (locks : LockMap) : option LockMap := release_holder (as_str id) locks.

Lemma enter_release fresh key locks : (∀ slot, locks !! key = Some slot → holders slot ≠ 0) →
  release_holder key (enter_slot fresh key locks).2 = Some locks.
Proof.
  intros Hpos. unfold release_holder, enter_slot. cbn [snd]. rewrite lookup_insert_eq. destruct (locks !! key) as [[l n]|] eqn:E; cbn.
  - destruct n as [|n]; [by destruct (Hpos _ eq_refl)|]. by rewrite insert_insert_eq insert_id.
  - by rewrite delete_insert_eq delete_id.
Qed.

(** However a call ends, the map is afterwards as it was before: when it is
    cancelled while it waits, and when its guard is dropped; the grant itself
    changes nothing, and in between the sandbox has an entry and the others have
    theirs. *)
Theorem acquire_lifecycle_balanced fresh id locks : map_Forall (λ _ slot, holders slot ≠ 0) locks →
  let '(p, lock, held) := acquire_lifecycle fresh id locks in
  drop_pending_lifecycle p held = Some locks ∧ lifecycle_granted p held = Some held ∧ drop_lifecycle_guard id held = Some locks ∧
  slot_lock <$> held !! as_str id = Some lock ∧ ∀ key, key ≠ as_str id → held !! key = locks !! key.
Proof.
  intros Hpos. pose proof (enter_release fresh (as_str id) locks (λ s, Hpos (as_str id) s)) as Hr.
  unfold acquire_lifecycle. destruct (enter_slot fresh (as_str id) locks) as [lock held] eqn:E. cbn in Hr. split_and!; try done.
  all: unfold enter_slot in E; injection E as <- <-.
  - by rewrite lookup_insert_eq.
  - intros key Hk. rewrite lookup_insert_ne; [|done]. congruence.
Qed.

(** ** A run: one request holds "box", another waits for it *)

Definition demo_waiting : LockWorld :=
  mkLockWorld {[ "box" := mkSlot 0 2 ]} 2 {[ 0 := Holding "box" 0; 1 := Waiting "box" 0 ]}.

Lemma demo_waiting_reachable : rtc lock_step lock_init demo_waiting.
Proof.
  eapply rtc_l; [exact (step_enter lock_init 0 "box" eq_refl)|].
  eapply rtc_l; [apply (step_grant _ 0 "box" 0); [reflexivity|]|].
  { intros t. unfold phase. simpl. destruct (decide (t = 0)) as [->|Ht]; by simplify_map_eq. }
  eapply rtc_l; [refine (step_enter _ 1 "box" _); reflexivity|]. vm_compute. apply rtc_refl.
Qed.

Lemma locks_exclude_witness :
  phase demo_waiting 0 = Holding "box" 0 ∧ release_holder "box" (lock_map demo_waiting) = Some {[ "box" := mkSlot 0 1 ]} ∧
  is_Some (release_holder "box" (lock_map demo_waiting)).
Proof.
  split_and!; [reflexivity|reflexivity|].
  apply (proj1 (proj2 (locks_exclude demo_waiting demo_waiting_reachable)) 0 "box" 0). right. reflexivity.
Defined.

Lemma locks_progress_witness :
  phase demo_waiting 1 = Waiting "box" 0 ∧ ∃ t', t' ≠ 1 ∧ owns (phase demo_waiting t') 0.
Proof.
  split; [reflexivity|].
  destruct (locks_progress demo_waiting 1 "box" 0 demo_waiting_reachable eq_refl) as [H|(t' & Ht & H)].
  - exists 0. split; [discriminate|reflexivity].
  - exists t'. split; [exact Ht|]. destruct H as [[-> _]|[-> _]]; reflexivity.
Defined.
