(* ===== verification/Checkpoint.v ===== *)
(** * Publishing checkpoint images is crash-safe

    Facts about the directory protocol of Runtime.v ([publish_checkpoint_dir]
    and [checkpoint_image_complete_for_containers], crates/oad-runtime/src/lib.rs):
    siblings of one parent directory that are renamed over each other, with
    errors and crashes at any call. *)
From S2P Require Import Prelude Str Core Effect Os Json Runtime.

(** A subtree: what a directory holds, relative to it. *)
Definition same_tree {B} (fs fs' : gmap Path (node B)) (p p' : Path) : Prop :=
  ∀ r : Path, fs' !! (p' ++ r)%list = fs !! (p ++ r)%list.

Definition no_tree {B} (fs : gmap Path (node B)) (p : Path) : Prop :=
  ∀ r : Path, fs !! (p ++ r)%list = None.

Section siblings.
Context {B : Type} `{!Bytes B, !Env B}.
Implicit Types fs : gmap Path (node B).
Implicit Types d : Path.
Implicit Types a b c n m : string.

Lemma sibling_tree_prefix d a c (r : Path) : a ≠ c → ¬ (d ++ [a])%list `prefix_of` ((d ++ [c]) ++ r)%list.
Proof.
  intros Hne H. rewrite -app_assoc in H. apply prefix_app_inv in H as [k Hk]. by simplify_eq/=.
Qed.

(** Renaming [a] to its sibling [b]. *)
Lemma rename_moves fs d a b : same_tree fs (rename_files (d ++ [a])%list (d ++ [b])%list fs) (d ++ [a])%list (d ++ [b])%list.
Proof.
  intros r. rewrite rename_lookup bool_decide_true; [by exists r|]. by rewrite drop_app_length.
Qed.

Lemma rename_leaves fs d a b : a ≠ b → no_tree (rename_files (d ++ [a])%list (d ++ [b])%list fs) (d ++ [a])%list.
Proof.
  intros Hne r. rewrite rename_lookup bool_decide_false; [by apply sibling_tree_prefix, not_eq_sym|].
  rewrite bool_decide_true //. by exists r.
Qed.

Lemma rename_other fs d a b c :
  a ≠ c → b ≠ c → same_tree fs (rename_files (d ++ [a])%list (d ++ [b])%list fs) (d ++ [c])%list (d ++ [c])%list.
Proof. intros Ha Hb r. rewrite rename_lookup !bool_decide_false //; by apply sibling_tree_prefix. Qed.

Lemma rename_sibling_ok fs d a b fs' x :
  a ≠ b → rename_run (d ++ [a])%list (d ++ [b])%list fs = Ok (x, fs') →
  node_at fs d = Some Dir ∧ fs' = rename_files (d ++ [a])%list (d ++ [b])%list fs.
Proof.
  intros Hne E. apply rename_ok in E as [H%parent_is_dir_app ->]; [done|].
  intros E'. simplify_list_eq.
Qed.

Lemma filter_other fs d a c (P : Path → Prop) `{!∀ pn : Path * node B, Decision (P pn.1)} :
  a ≠ c → (∀ q, ¬ (d ++ [a])%list `prefix_of` q → P q) →
  same_tree fs (filter (λ pn : Path * node B, P pn.1) fs) (d ++ [c])%list (d ++ [c])%list.
Proof.
  intros Hne HP r. destruct (fs !! _) as [v|] eqn:E.
  - apply map_lookup_filter_Some. split; [done|]. by apply HP, sibling_tree_prefix.
  - apply map_lookup_filter_None. by left.
Qed.

Lemma adds_dirs_tree d c fs fs' :
  adds_dirs (λ q, q `prefix_of` d) fs fs' → same_tree fs fs' (d ++ [c])%list (d ++ [c])%list.
Proof.
  intros H r. eapply adds_dirs_other; [exact H|]. intros Hp%prefix_length.
  rewrite !length_app /= in Hp. lia.
Qed.

Lemma same_tree_refl fs p : same_tree fs fs p p.
Proof. by intros r. Qed.

Lemma same_tree_trans fs1 fs2 fs3 p1 p2 p3 :
  same_tree fs1 fs2 p1 p2 → same_tree fs2 fs3 p2 p3 → same_tree fs1 fs3 p1 p3.
Proof. intros H1 H2 r. by rewrite H2 H1. Qed.

Lemma no_tree_same fs fs' p : no_tree fs p → same_tree fs fs' p p → no_tree fs' p.
Proof. intros H1 H2 r. by rewrite H2. Qed.
Lemma remove_sibling_triple d b (P : gmap Path (node B) → Prop) :
  (∀ fs fs', P fs → (∀ c, c ≠ b → same_tree fs fs' (d ++ [c])%list (d ++ [c])%list) → P fs') →
  triple P (remove_dir_if_exists (d ++ [b])%list) (λ _, P).
Proof.
  intros HP. unfold remove_dir_if_exists.
  assert (Hrm : triple P (attempt (remove_dir_all (d ++ [b])%list) : M (Os B) RuntimeError _) (λ _, P)).
  { apply triple_attempt, triple_sys; [|done|..].
    - intros fs a fs' H E. destruct (fs !! (d ++ [b])%list) as [[]|]; simplify_eq. eapply HP; [exact H|].
      intros c Hc.
      apply (filter_other _ d b c (λ q, ¬ (d ++ [b])%list `prefix_of` q)); [by apply not_eq_sym|done].
    - intros fs h e H. eapply HP; [exact H|]. intros c Hc.
      apply (filter_other _ d b c (λ q, ¬ (d ++ [b])%list `prefix_of` q ∨ env_survives h q = true));
        [by apply not_eq_sym|by left].
    - intros fs h H. eapply HP; [exact H|]. intros c Hc.
      apply (filter_other _ d b c (λ q, ¬ (d ++ [b])%list `prefix_of` q ∨ env_survives h q = true));
        [by apply not_eq_sym|by left]. }
  eapply triple_bind; [exact Hrm| |done..]. intros [[]|e]; [by apply triple_ret|].
  case_decide; [by apply triple_ret|by apply triple_throw].
Qed.

End siblings.

Section publish.
Context {B : Type} `{!Bytes B, !Env B}.
Implicit Types fs : gmap Path (node B).
Context (d : Path) (n m : string).
Context (Hn : path_name n) (Hm : path_name m) (Hmn : m ≠ n).

(** The names: the image, its backup and the temporary directory are siblings. *)
Definition backup_name : string := "." ++ n ++ ".backup".
Context (Hmb : m ≠ backup_name).

Notation image := (d ++ [n])%list.
Notation tmp := (d ++ [m])%list.
Notation backup := (d ++ [backup_name])%list.

Lemma backup_path_name : path_name backup_name.
Proof using Hn.
  assert (Hl : (String.length backup_name > 2)%nat).
  { unfold backup_name. rewrite !length_app_s. simpl. lia. }
  split; try (intros E; rewrite E in Hl; simpl in Hl; lia).
  unfold backup_name. do 2 rewrite str_forallb_app. by rewrite (name_no_slash _ Hn).
Qed.

Lemma backup_ne : backup_name ≠ n.
Proof using Type.
  intros E. apply (f_equal String.length) in E. unfold backup_name in E.
  rewrite !length_app_s /= in E. lia.
Qed.

Lemma backup_dir : backup_checkpoint_dir image = backup.
Proof using Hn.
  unfold backup_checkpoint_dir. rewrite file_name_app //. cbn [default].
  apply with_file_name_app; [done|apply backup_path_name].
Qed.

(** *** Read-only parts *)

Lemma readonly_io {A : Type} (x : M (Os B) IoError A) : readonly x → readonly (io x).
Proof using Type. by apply steps_mapE, _. Qed.

Lemma sync_checkpoint_dir_readonly p : readonly (sync_checkpoint_dir p).
Proof using Type.
  unfold sync_checkpoint_dir, sync_container_dir, io, sync_file, sync_dir, sync_path, is_dir, read_dir, try_exists.
  repeat first [ apply look_readonly | apply steps_mapE; [apply _|]
    | apply steps_bind; [apply _| |intros] | apply steps_forM; [apply _|intros]
    | apply steps_ret; apply _ | case_match ].
Qed.

Lemma sync_parent_readonly (p : Path) : readonly (on_parent p sync_dir).
Proof using Type.
  unfold on_parent. destruct (parent p); [apply look_readonly|apply steps_ret, _].
Qed.

(** *** The states between the steps, relative to the files at the start *)

Context (fs0 : gmap Path (node B)).

Definition Kept fs : Prop := same_tree fs0 fs image image ∧ same_tree fs0 fs tmp tmp.
Definition Moved fs : Prop :=
  no_tree fs image ∧ same_tree fs0 fs image backup ∧ node_at fs d = Some Dir.
Definition Published fs : Prop := same_tree fs0 fs tmp image.

(** What any interruption leaves. *)
Definition recoverable (ret : Prop) fs : Prop :=
  Published fs ∨ ¬ ret ∧ (same_tree fs0 fs image image ∨ Moved fs).

Lemma kept_recoverable (ret : Prop) fs : ¬ ret → Kept fs → recoverable ret fs.
Proof using Type. intros Hr [H _]. right. auto. Qed.

Lemma kept_stable fs fs' :
  Kept fs → (∀ c, c ≠ backup_name → same_tree fs fs' (d ++ [c])%list (d ++ [c])%list) → Kept fs'.
Proof using All.
  intros [H1 H2] H. split; (eapply same_tree_trans; [eassumption|apply H]); [|done].
  apply not_eq_sym, backup_ne.
Qed.

Lemma published_stable fs fs' :
  Published fs → (∀ c, c ≠ backup_name → same_tree fs fs' (d ++ [c])%list (d ++ [c])%list) → Published fs'.
Proof using All.
  intros H1 H. eapply same_tree_trans; [exact H1|apply H]. apply not_eq_sym, backup_ne.
Qed.

Lemma rename_triple (P : gmap Path (node B) → Prop) (a b : string) (Q : gmap Path (node B) → Prop) :
  a ≠ b →
  (∀ fs, P fs → node_at fs d = Some Dir → Q (rename_files (d ++ [a])%list (d ++ [b])%list fs)) →
  triple P (rename (d ++ [a])%list (d ++ [b])%list) (λ o fs, match o with Ret _ => Q fs | _ => P fs end).
Proof using All.
  intros Hne H. apply triple_atomic; [|done..]. intros fs x fs' HP E.
  apply rename_sibling_ok in E as [Hd ->]; [|done]. by apply H.
Qed.

Lemma path_exists_triple :
  fs0 !! image = Some Dir →
  triple Kept (path_exists image) (λ o fs, Kept fs ∧ ∀ b, o = Ret b → b = true).
Proof using All.
  intros Hdir. apply triple_mapE, triple_look; [|naive_solver..]. intros fs a HK E. split; [done|].
  intros b [= <-]. destruct HK as [HK _]. specialize (HK []). rewrite !app_nil_r in HK.
  rewrite node_at_child HK Hdir in E. congruence.
Qed.

(** The old image is moved out of the way. *)
Lemma move_existing_triple :
  triple Kept (io (rename image backup) ;; io (on_parent image sync_dir) ;; mret true)
    (λ o fs, match o with
       | Ret b => b = true ∧ Moved fs ∧ same_tree fs0 fs tmp tmp
       | _ => Kept fs ∨ Moved fs ∧ same_tree fs0 fs tmp tmp
       end).
Proof using All.
  eapply triple_bind with (R := λ o fs, match o with
     | Ret _ => Moved fs ∧ same_tree fs0 fs tmp tmp | _ => Kept fs end).
  - apply triple_mapE. eapply triple_weaken; [apply (rename_triple Kept n backup_name
      (λ fs, Moved fs ∧ same_tree fs0 fs tmp tmp)); [apply not_eq_sym, backup_ne|]|by intros|by intros [] ?].
    intros fs [H1 H2] Hd. split; [split_and!|].
    + apply rename_leaves, not_eq_sym, backup_ne.
    + eapply same_tree_trans; [exact H1|]. apply rename_moves.
    + by apply rename_keeps_dir.
    + eapply same_tree_trans; [exact H2|]. apply rename_other; by apply not_eq_sym.
  - intros []. eapply triple_bind with (R := λ _ fs, Moved fs ∧ same_tree fs0 fs tmp tmp);
      [apply triple_readonly, readonly_io, sync_parent_readonly| |by right..].
    intros []. by apply triple_ret.
  - by left.
  - by left.
Qed.

Lemma publish_checkpoint_dir_triple :
  fs0 !! image = Some Dir →
  triple (λ fs, fs = fs0) (publish_checkpoint_dir tmp image) (λ o fs, recoverable (o = Ret tt) fs).
Proof using All.
  intros Hdir. unfold publish_checkpoint_dir. rewrite backup_dir.
  eapply triple_bind with (R := λ _, Kept).
  { eapply triple_weaken; [apply (triple_readonly Kept), sync_checkpoint_dir_readonly| |done].
    intros fs ->. split; apply same_tree_refl. }
  2-3: intros; by apply kept_recoverable.
  intros []. eapply triple_bind with (R := λ _, Kept).
  { apply triple_mapE. unfold on_parent at 1. rewrite parent_app. intros s HK.
    eapply wp_mono; [by apply create_dir_all_adds|]. intros o s' Ha.
    assert (Kept (files s')) by (eapply kept_stable; [exact HK|intros; by apply adds_dirs_tree]).
    by destruct o. }
  2-3: intros; by apply kept_recoverable.
  intros []. eapply triple_bind with (R := λ _, Kept); [apply remove_sibling_triple, kept_stable|..].
  2-3: intros; by apply kept_recoverable.
  intros [].
  eapply triple_bind; [apply path_exists_triple, Hdir| | |]; cbn beta iota.
  2:{ intros e fs [HK _]. by apply kept_recoverable. }
  2:{ intros fs [HK _]. by apply kept_recoverable. }
  intros [|]; [|intros s [_ Hex]; by specialize (Hex false eq_refl)].
  eapply triple_weaken with (P := Kept); [|by intros fs [? _]|intros o fs H; exact H].
  eapply triple_bind; [apply move_existing_triple| | |]; cbn beta iota.
  2:{ intros e fs [HK|[HM _]]; [by apply kept_recoverable|right; auto]. }
  2:{ intros fs [HK|[HM _]]; [by apply kept_recoverable|right; auto]. }
  intros b.
  apply (triple_bind _ _ (λ o fs, match o with
    | Ret (Ok _) => Published fs | Ret (Err _) => b = true ∧ Moved fs
    | _ => Moved fs end)).
  - apply triple_attempt. eapply triple_weaken; [apply (rename_triple
      (λ fs, b = true ∧ Moved fs ∧ same_tree fs0 fs tmp tmp) m n Published Hmn)| |].
    + intros fs (_ & _ & Ht) _. eapply same_tree_trans; [exact Ht|apply rename_moves].
    + done.
    + intros [|e|] fs; [done|naive_solver..].
  - intros [[]|e].
    + eapply triple_bind with (R := λ _, Published);
        [by apply triple_readonly, readonly_io, sync_parent_readonly| |by left..].
      intros []. eapply triple_weaken; [apply remove_sibling_triple, published_stable|done|by left].
    + intros s [-> HM]. revert s HM. change (triple Moved
        ((ignore (rename backup image) ;; ignore (on_parent image sync_dir)) ;; throw (RtIo e))
        (λ o fs, recoverable (o = Ret tt) fs)).
      set (J := λ fs, same_tree fs0 fs image image ∨ Moved fs).
      eapply triple_bind with (R := λ _, J); [| |by right..].
      * eapply triple_bind with (R := λ _, J); [| |done..].
        { apply triple_ignore. eapply triple_weaken; [apply (rename_triple Moved backup_name n
            (λ fs, same_tree fs0 fs image image) backup_ne)|done|].
          - intros fs (_ & H & _) _. eapply same_tree_trans; [exact H|apply rename_moves].
          - intros [|x|] fs; [by left|by right..]. }
        intros []. apply triple_ignore.
        eapply triple_weaken; [apply (triple_readonly J), sync_parent_readonly|done|by intros []].
      * intros []. apply triple_throw. by right.
  - intros e fs HM. right. split; [done|by right].
  - intros fs HM. right. split; [done|by right].
Qed.
End publish.

(** ** Which images a directory holds *)

Definition has_image {B} (fs : gmap Path (node B)) (dir : Path) : bool :=
  bool_decide (is_Some (fs !! (dir ++ [RUNSC_CHECKPOINT_IMAGE])%list)).

(** One image at the top, or one for each container that is checkpointed. *)
Definition image_complete {B} (fs : gmap Path (node B)) (dir : Path) (containers : list string) : bool :=
  has_image fs dir ||
  match checkpoint_target_names containers with
  | [] => false
  | targets => forallb (λ c, has_image fs (dir ++ [c])%list) targets
  end.

Lemma image_name_ok : path_name RUNSC_CHECKPOINT_IMAGE.
Proof. by split. Qed.

Lemma pause_name_ok : path_name PAUSE_CONTAINER.
Proof. by split. Qed.

Lemma target_names_ok containers :
  Forall path_name containers → Forall path_name (checkpoint_target_names containers).
Proof.
  intros H. unfold checkpoint_target_names.
  assert (Forall path_name (List.filter (λ c, negb (is_pause c)) containers)) as Hw.
  { apply Forall_forall. intros c Hc. apply list_elem_of_In, filter_In in Hc as [Hc _].
    apply list_elem_of_In in Hc. rewrite Forall_forall in H. auto. }
  destruct (existsb _ _); [|done]. constructor; [apply pause_name_ok|done].
Qed.

Lemma has_image_same {B} (fs fs' : gmap Path (node B)) p p' r :
  same_tree fs fs' p p' → has_image fs' (p' ++ r)%list = has_image fs (p ++ r)%list.
Proof. intros H. unfold has_image. by rewrite -!app_assoc H. Qed.

Lemma image_complete_same {B} (fs fs' : gmap Path (node B)) p p' containers :
  same_tree fs fs' p p' → image_complete fs' p' containers = image_complete fs p containers.
Proof.
  intros H. unfold image_complete.
  pose proof (has_image_same _ _ _ _ [] H) as E. rewrite !app_nil_r in E. rewrite E. f_equal.
  destruct (checkpoint_target_names containers) as [|t ts]; [done|].
  induction (t :: ts) as [|c l IH]; [done|]. simpl. by rewrite (has_image_same _ _ _ _ [c] H) IH.
Qed.

Lemma image_complete_none {B} (fs : gmap Path (node B)) p containers :
  no_tree fs p → image_complete fs p containers = false.
Proof.
  intros H. unfold image_complete, has_image. rewrite H. simpl.
  destruct (checkpoint_target_names containers) as [|t ts]; [done|]. simpl.
  by rewrite -app_assoc H.
Qed.

Section recovery.
Context {B : Type} `{!Bytes B, Henv : !Env B} (Hquiet : quiet Henv).
Implicit Types s : Os B.

(** [m] returns [a] and changes no file. *)
Definition answers {E A : Type} (m : M (Os B) E A) (a : A) s : Prop :=
  ∃ s', m s = (Ret a, s') ∧ files s' = files s.

Lemma answers_bind {E A A' : Type} (m : M (Os B) E A) (k : A → M (Os B) E A') a a' s :
  answers m a s → (∀ s', files s' = files s → answers (k a) a' s') → answers (m ≫= k) a' s.
Proof using Type.
  intros (s1 & E1 & F1) H. destruct (H s1 F1) as (s2 & E2 & F2). exists s2.
  unfold mbind, M_bind. rewrite E1. split; [done|congruence].
Qed.

Lemma has_image_answers dir s : answers (checkpoint_dir_has_image dir) (has_image (files s) dir) s.
Proof using Hquiet.
  unfold checkpoint_dir_has_image. rewrite join_name; [apply image_name_ok|].
  unfold answers, mbind, M_bind, attempt, try_exists. rewrite (look_quiet Hquiet) node_at_child.
  unfold has_image. destruct (_ !! _) as [v|]; [by eexists|].
  destruct (missing _ _); by eexists.
Qed.

Lemma all_have_image_answers dir targets s :
  Forall path_name targets →
  answers (all_have_image dir targets) (forallb (λ c, has_image (files s) (dir ++ [c])%list) targets) s.
Proof using Hquiet.
  intros H. revert s. induction H as [|c l Hc _ IH]; intros s; simpl; [by eexists|].
  eapply answers_bind; [apply has_image_answers|]. intros s' E.
  unfold container_checkpoint_dir. rewrite join_name //.
  destruct (has_image (files s) (dir ++ [c])%list); simpl; [|by eexists]. rewrite -E. apply IH.
Qed.

Lemma image_or_tree_answers dir containers s :
  Forall path_name containers →
  answers (image_or_tree dir containers) (image_complete (files s) dir containers) s.
Proof using Hquiet.
  intros H%target_names_ok. unfold image_or_tree.
  eapply answers_bind; [apply has_image_answers|]. intros s' E.
  unfold image_complete. destruct (has_image (files s) dir); simpl; [by eexists|].
  unfold checkpoint_tree_complete_for_containers. destruct (checkpoint_target_names containers) as [|t ts]; [by eexists|].
  rewrite -E. by apply all_have_image_answers.
Qed.

(** Calls whose failure is ignored return, in a quiet environment. *)
Lemma ignore_returns {E F A : Type} (m : M (Os B) E A) s :
  (m s).1 ≠ Crash → ∃ s', (ignore m : M (Os B) F ()) s = (Ret tt, s').
Proof using Type.
  intros H. unfold ignore, attempt, mbind, M_bind. destruct (m s) as [[a|e|] s']; simpl in *;
    [by eexists..|done].
Qed.

Lemma sys_no_crash {A : Type} (c : Call B) run broken s :
  (sys (A := A) c run broken s).1 ≠ Crash.
Proof using Hquiet. unfold sys. rewrite Hquiet. by destruct (run (files s)) as [[]|]. Qed.

Lemma remove_if_exists_no_crash p s : (remove_dir_if_exists p s).1 ≠ Crash.
Proof using Hquiet.
  unfold remove_dir_if_exists, attempt, mbind, M_bind.
  assert (H : (remove_dir_all p s).1 ≠ Crash) by apply sys_no_crash.
  destruct (remove_dir_all p s) as [[[]|e|] s']; simpl in *; [done| |done].
  by case_decide.
Qed.

Lemma sync_parent_no_crash p s : (on_parent p sync_dir s).1 ≠ Crash.
Proof using Hquiet. unfold on_parent. destruct (parent p); [apply sys_no_crash|done]. Qed.
End recovery.

Section crash_safety.
Context {B : Type} `{!Bytes B}.
Context (d : Path) (n : string) (Hn : path_name n).
Context (containers : list string) (Hcs : Forall path_name containers).

Notation image := (d ++ [n])%list.
Notation backup := (d ++ [backup_name n])%list.

(** A complete image is recognized, and survives. *)
Lemma complete_in_place {Henv : Env B} (s : Os B) :
  quiet Henv → image_complete (files s) image containers = true →
  ∃ s', checkpoint_image_complete_for_containers image containers s = (Ret true, s') ∧
    same_tree (files s) (files s') image image.
Proof using All.
  intros Hq Hc. unfold checkpoint_image_complete_for_containers.
  destruct (image_or_tree_answers Hq image containers s Hcs) as (s1 & E1 & F1).
  unfold mbind at 1, M_bind at 1. rewrite E1 Hc (backup_dir d n Hn).
  destruct (ignore_returns (F := RuntimeError) (remove_dir_if_exists backup) s1) as [s2 E2].
  { apply (remove_if_exists_no_crash Hq). }
  unfold mbind, M_bind. rewrite E2. exists s2. split; [done|].
  assert (Ht : triple (λ fs, same_tree (files s) fs image image)
     (ignore (remove_dir_if_exists backup) : M (Os B) RuntimeError ())
     (λ _ fs, same_tree (files s) fs image image)).
  { apply triple_ignore. eapply triple_weaken; [apply (remove_sibling_triple d (backup_name n) (λ fs, same_tree (files s) fs image image))|done|by intros []].
    intros fs fs' H Hk. eapply same_tree_trans; [exact H|]. apply Hk, not_eq_sym, backup_ne. }
  specialize (Ht s1). unfold wp in Ht. rewrite E2 in Ht. apply Ht. rewrite F1. apply same_tree_refl.
Qed.

(** An image that was moved to its backup is moved back. *)
Lemma complete_in_backup {Henv : Env B} (s : Os B) :
  quiet Henv → no_tree (files s) image → node_at (files s) d = Some Dir →
  files s !! backup = Some Dir → image_complete (files s) backup containers = true →
  ∃ s', checkpoint_image_complete_for_containers image containers s = (Ret true, s') ∧
    same_tree (files s) (files s') backup image.
Proof using All.
  intros Hq Hno Hd Hb Hc. unfold checkpoint_image_complete_for_containers.
  destruct (image_or_tree_answers Hq image containers s Hcs) as (s1 & E1 & F1).
  unfold mbind at 1, M_bind at 1. rewrite E1 image_complete_none //.
  unfold recover_backup_checkpoint_dir_for_containers. rewrite (backup_dir d n Hn).
  destruct (image_or_tree_answers Hq backup containers s1 Hcs) as (s2 & E2 & F2).
  unfold mbind at 1, M_bind at 1. rewrite E2 F1 Hc. cbn [negb].
  assert (Hi : files s !! image = None) by (specialize (Hno []); by rewrite app_nil_r in Hno).
  assert (∃ s3, (ignore (remove_dir_if_exists image) : M (Os B) RuntimeError ()) s2 = (Ret tt, s3) ∧
           files s3 = files s) as (s3 & E3 & F3).
  { unfold ignore, remove_dir_if_exists, attempt, remove_dir_all, sys, mbind, M_bind.
    rewrite Hq F2 F1 Hi. cbv iota beta. case_decide; eexists; (split; [reflexivity|]); simpl; congruence. }
  unfold mbind at 1, M_bind at 1. rewrite E3.
  unfold mbind at 1, M_bind at 1, attempt at 1, rename, atomic.
  rewrite (sys_go Hq _ _ _ _ tt (rename_files backup image (files s))).
  { rewrite F3. unfold rename_run. rewrite Hb Hi !bool_decide_false.
    - intros E. simplify_list_eq. by apply (backup_ne n).
    - apply sibling_not_prefix, backup_ne.
    - unfold parent_is_dir. by rewrite parent_app Hd. }
  unfold mbind at 1, M_bind at 1.
  destruct (ignore_returns (F := RuntimeError) (on_parent image sync_dir)
    (set_files (rename_files backup image (files s)) (record_call (CRename backup image) s3))) as [s5 E5].
  { apply (sync_parent_no_crash Hq). }
  rewrite E5. exists s5. split; [done|].
  assert (Ht : readonly (ignore (on_parent image sync_dir) : M (Os B) RuntimeError ())).
  { apply steps_ignore, sync_parent_readonly. apply _. }
  specialize (Ht (set_files (rename_files backup image (files s)) (record_call (CRename backup image) s3))).
  rewrite E5 in Ht. unfold same_files in Ht. simpl in Ht. rewrite Ht. apply rename_moves.
Qed.

(** C27. Publishing a checkpoint is atomic and recoverable.  [image] is a
    complete checkpoint; a complete new one in a temporary sibling directory
    is published over it, with any I/O errors and a crash at any call.  When
    the daemon next asks whether the image is complete, the answer is yes, and
    the directory then holds exactly the old image or exactly the new one; the
    new one if publishing returned. *)
Theorem publish_checkpoint_dir_crash_safe {Henv : Env B} (m : string) (s : Os B) :
  path_name m → m ≠ n → m ≠ backup_name n →
  files s !! image = Some Dir →
  image_complete (files s) image containers = true →
  image_complete (files s) (d ++ [m])%list containers = true →
  let o := (publish_checkpoint_dir (d ++ [m])%list image s).1 in
  let s1 := (publish_checkpoint_dir (d ++ [m])%list image s).2 in
  ∀ Henv' : Env B, quiet Henv' →
  ∃ s2, checkpoint_image_complete_for_containers (Env0 := Henv') image containers s1 = (Ret true, s2) ∧
    (same_tree (files s) (files s2) (d ++ [m])%list image ∨
     same_tree (files s) (files s2) image image ∧ o ≠ Ret tt).
Proof using All.
  intros Hm Hmn Hmb Hdir Hold Hnew o s1.
  pose proof (publish_checkpoint_dir_triple d n m Hn Hm Hmn Hmb (files s) Hdir s eq_refl) as H.
  unfold wp in H. intros Henv' Hq. unfold o, s1. clear o s1. revert H.
  destruct (publish_checkpoint_dir _ _ s) as [o s1]. simpl. intros [Hp|(Ho & [Hk|(Hno & Hb & Hd)])].
  - destruct (complete_in_place s1 Hq) as (s2 & E & Ht).
    { by rewrite (image_complete_same _ _ _ _ _ Hp). }
    exists s2. split; [exact E|]. left. by eapply same_tree_trans.
  - destruct (complete_in_place s1 Hq) as (s2 & E & Ht).
    { by rewrite (image_complete_same _ _ _ _ _ Hk). }
    exists s2. split; [exact E|]. right. split; [by eapply same_tree_trans|done].
  - destruct (complete_in_backup s1 Hq Hno Hd) as (s2 & E & Ht).
    { specialize (Hb []). by rewrite !app_nil_r Hdir in Hb. }
    { by rewrite (image_complete_same _ _ _ _ _ Hb). }
    exists s2. split; [exact E|]. right. split; [by eapply same_tree_trans|done].
Qed.
End crash_safety.

Definition demo_images : gmap Path (node string) := {[
  ["srv"] := Dir;
  ["srv"; "checkpoint"] := Dir;
  ["srv"; "checkpoint"; "checkpoint.img"] := File "old";
  ["srv"; "new.tmp"] := Dir;
  ["srv"; "new.tmp"; "pause"] := Dir;
  ["srv"; "new.tmp"; "pause"; "checkpoint.img"] := File "new pause";
  ["srv"; "new.tmp"; "main"] := Dir;
  ["srv"; "new.tmp"; "main"; "checkpoint.img"] := File "new main" ]}.

Lemma publish_checkpoint_dir_crash_safe_witness :
  let s1 := (publish_checkpoint_dir (Env0 := faulty_env 14 Killed) ["srv"; "new.tmp"]
               ["srv"; "checkpoint"] (demo_os demo_images)).2 in
  ∃ s2, checkpoint_image_complete_for_containers (Env0 := quiet_env) ["srv"; "checkpoint"]
          ["pause"; "main"] s1 = (Ret true, s2) ∧
    (same_tree demo_images (files s2) ["srv"; "new.tmp"] ["srv"; "checkpoint"] ∨
     same_tree demo_images (files s2) ["srv"; "checkpoint"] ["srv"; "checkpoint"]).
Proof.
  intros s1.
  destruct (publish_checkpoint_dir_crash_safe (B := string) ["srv"] "checkpoint" ltac:(split; done) ["pause"; "main"]
    ltac:(repeat constructor; done) (Henv := faulty_env 14 Killed) "new.tmp" (demo_os demo_images)
    ltac:(split; done) ltac:(done) ltac:(vm_compute; done) ltac:(reflexivity) ltac:(vm_compute; reflexivity)
    ltac:(vm_compute; reflexivity) quiet_env quiet_env_quiet) as (s2 & E & H).
  exists s2. split; [exact E|]. destruct H as [H|[H _]]; [left|right]; exact H.
Defined.

(** Killed between the two renames: the old image comes back from its backup. *)
Example publish_killed :
  let run n := (publish_checkpoint_dir (Env0 := faulty_env n Killed) ["srv"; "new.tmp"]
               ["srv"; "checkpoint"] (demo_os demo_images)).2 in
  let image n := files (checkpoint_image_complete_for_containers (Env0 := quiet_env) ["srv"; "checkpoint"]
               ["pause"; "main"] (run n)).2 !! ["srv"; "checkpoint"; "checkpoint.img"] in
  map (λ n, (files (run n) !! ["srv"; "checkpoint"; "checkpoint.img"], image n)) (seq 10 8) =
    [(Some (File "old"), Some (File "old")); (Some (File "old"), Some (File "old"));
     (Some (File "old"), Some (File "old")); (None, Some (File "old")); (None, Some (File "old"));
     (None, None); (None, None); (None, None)].
Proof. vm_compute. reflexivity. Qed.
