(* ===== verification/Sequence.v ===== *)
(** * The order of runsc invocations

    What the sequences of Runtime.v (crates/oad-runtime/src/lib.rs) invoke and in
    which order, whatever succeeds or fails. *)
From S2P Require Import Prelude Str Core Effect Os Json Runtime.

Section emits.
Context {B : Type} `{!Bytes B, !Env B}.

(** The commands run so far, oldest first. *)
Definition run_of (c : Call B) : option (string * list string) :=
  match c with CRun p args _ => Some (p, args) | _ => None end.
Definition runs (h : list (Call B)) : list (string * list string) := reverse (omap run_of h).

(** [m] runs the commands [l], in this order; all of them if it returns, the
    first ones if it fails or is interrupted. *)
Definition emits {E A : Type} (m : M (Os B) E A) (l : list (string * list string)) : Prop :=
  ∀ s, ∃ l', runs (calls (m s).2) = (runs (calls s) ++ l')%list ∧ l' `prefix_of` l ∧
    (∀ a, (m s).1 = Ret a → l' = l).

Lemma emits_bind {E A A' : Type} (m : M (Os B) E A) (k : A → M (Os B) E A') l1 l2 :
  emits m l1 → (∀ a, emits (k a) l2) → emits (m ≫= k) (l1 ++ l2)%list.
Proof.
  intros Hm Hk s. unfold mbind, M_bind. destruct (Hm s) as (l' & E1 & P1 & R1).
  destruct (m s) as [[a|e|] s1]; simpl in *.
  - destruct (Hk a s1) as (l'' & E2 & P2 & R2). rewrite (R1 a eq_refl) in E1.
    exists (l1 ++ l'')%list. split_and!.
    + by rewrite E2 E1 -app_assoc.
    + by apply prefix_app.
    + intros a' Ha. by rewrite (R2 a' Ha).
  - exists l'. split_and!; [done|by apply prefix_app_r|done].
  - exists l'. split_and!; [done|by apply prefix_app_r|done].
Qed.

Lemma emits_bind_l {E A A' : Type} (m : M (Os B) E A) (k : A → M (Os B) E A') l :
  emits m l → (∀ a, emits (k a) []) → emits (m ≫= k) l.
Proof. intros Hm Hk. pose proof (emits_bind m k l [] Hm Hk) as H. by rewrite app_nil_r in H. Qed.

Lemma emits_none {E A : Type} (m : M (Os B) E A) :
  (∀ s, runs (calls (m s).2) = runs (calls s)) → emits m [].
Proof. intros H s. exists []. rewrite app_nil_r. split_and!; [apply H|done|done]. Qed.

Lemma emits_ret {E A : Type} (a : A) : emits (mret a : M (Os B) E A) [].
Proof. by apply emits_none. Qed.

Lemma emits_throw {E A : Type} (e : E) l : emits (throw e : M (Os B) E A) l.
Proof. intros s. exists []. rewrite app_nil_r. split_and!; [done|apply prefix_nil|done]. Qed.

Lemma emits_mapE {E F A : Type} (f : E → F) (m : M (Os B) E A) l : emits m l → emits (mapE f m) l.
Proof.
  intros H s. destruct (H s) as (l' & E1 & P1 & R1). exists l'. unfold mapE.
  destruct (m s) as [[a|e|] s1]; simpl in *; split_and!; try done. intros a' [= <-]. by apply (R1 a).
Qed.

Lemma emits_attempt_none {E F A : Type} (m : M (Os B) E A) :
  emits m [] → emits (attempt m : M (Os B) F (result E A)) [].
Proof.
  intros H s. destruct (H s) as (l' & E1 & P1 & R1). apply prefix_nil_inv in P1 as ->.
  exists []. unfold attempt. by destruct (m s) as [[a|e|] s1].
Qed.

Lemma emits_sys {A : Type} (c : Call B) run broken : run_of c = None → emits (sys (A := A) c run broken) [].
Proof.
  intros Hc. apply emits_none. intros s. unfold sys, runs.
  destruct (env_reply _ _); [destruct (run (files s)) as [[]|]|..]; simpl; by rewrite Hc.
Qed.

Lemma emits_run program args stdin : emits (run_command program args stdin) [(program, args)].
Proof.
  intros s. exists [(program, args)]. unfold run_command, runs.
  destruct (env_run _ _); simpl; by rewrite reverse_cons.
Qed.

Lemma emits_create_dirs pre rest : emits (create_dirs pre rest) [].
Proof.
  revert pre. induction rest as [|c rest IH]; intros pre; simpl; [apply emits_ret|].
  apply (emits_bind _ _ [] []); [by apply emits_sys|intros; apply IH].
Qed.

Lemma emits_forM {E A : Type} (l : list A) (f : A → M (Os B) E ()) g :
  (∀ x, emits (f x) (g x)) → emits (forM l f) (flat_map g l).
Proof.
  intros H. induction l as [|x l IH]; simpl; [apply emits_ret|]. by apply emits_bind.
Qed.

Lemma emits_on_parent p (f : Path → M (Os B) IoError ()) : (∀ q, emits (f q) []) → emits (on_parent p f) [].
Proof. intros H. unfold on_parent. destruct (parent p); [apply H|apply emits_ret]. Qed.

Lemma emits_run_logged args log : emits (run_logged args log) [(RUNSC, args)].
Proof.
  unfold run_logged, io.
  apply (emits_bind _ _ [] [_]); [apply emits_mapE, emits_on_parent; intros; apply emits_create_dirs|intros _].
  apply (emits_bind _ _ [] [_]); [by apply emits_mapE, emits_sys|intros _].
  apply (emits_bind _ _ [_] []); [apply emits_mapE, emits_run|intros [[[success code] o] e]].
  destruct success; [apply emits_ret|].
  apply (emits_bind _ _ [] []); [|intros; apply emits_throw].
  unfold runsc_log_error. apply (emits_bind _ _ [] []); [|intros; apply emits_ret].
  apply emits_attempt_none. unfold read_tail.
  apply (emits_bind _ _ [] []); [by apply emits_sys|intros; apply emits_ret].
Qed.
End emits.

Section orders.
Context {B : Type} `{!Bytes B, !Env B}.
Context (paths : OadPaths) (id : SandboxId).

Definition create_run (r : Runsc) (c : string) : string * list string :=
  (RUNSC, create_args r (bundle_dir paths id c) (pidfile paths id c) c (rootfs_overlay_dir paths id c)).
Definition start_run (r : Runsc) (c : string) : string * list string :=
  (RUNSC, start_args r c (rootfs_overlay_dir paths id c)).
Definition checkpoint_run (r : Runsc) (image_dir : Path) (t : string * bool) : string * list string :=
  (RUNSC, checkpoint_args r t.1 (container_checkpoint_dir image_dir t.1) (rootfs_overlay_dir paths id t.1) t.2).

Lemma create_sandbox_dirs_emits : emits (create_sandbox_dirs paths id) [].
Proof.
  unfold create_sandbox_dirs, io, create_dir_all.
  repeat first [apply emits_mapE, emits_create_dirs | apply (emits_bind _ _ [] []); [|intros _]].
Qed.

(** Starting a sandbox creates and starts its containers one by one in the
    given order, a container being started before the next is created; a
    failure or crash stops the sequence there, and it returns only when all
    were created and started. *)
Theorem start_container_sequence_order (containers : list string) (mode : RunscNetworkMode) (s : Os B) :
  let r := runsc_for_sandbox_with_network paths id mode in
  let o := (start_container_sequence paths id containers mode s).1 in
  let s' := (start_container_sequence paths id containers mode s).2 in
  ∃ l, runs (calls s') = (runs (calls s) ++ l)%list ∧
    l `prefix_of` flat_map (λ c, [create_run r c; start_run r c]) containers ∧
    (o = Ret tt → l = flat_map (λ c, [create_run r c; start_run r c]) containers).
Proof.
  intros r o s'.
  assert (H : emits (start_container_sequence paths id containers mode)
                    (flat_map (λ c, [create_run r c; start_run r c]) containers)).
  { apply (emits_bind _ _ [] _); [apply create_sandbox_dirs_emits|intros _].
    apply emits_forM. intros c. apply (emits_bind _ _ [_] [_]); [apply emits_run_logged|intros _].
    apply emits_run_logged. }
  destruct (H s) as (l & E & P & R). exists l. split_and!; [exact E|exact P|]. apply R.
Qed.

Lemma checkpoint_container_images_emits targets image_dir :
  emits (checkpoint_container_images paths id targets image_dir)
    (map (checkpoint_run (runsc_for_sandbox paths id) image_dir) targets).
Proof.
  rewrite -flat_map_singleton. apply emits_forM. intros [c leave].
  apply (emits_bind _ _ [] [_]); [apply emits_mapE, emits_create_dirs|intros _]. apply emits_run_logged.
Qed.

Lemma emits_forM_none {E A : Type} (l : list A) (f : A → M (Os B) E ()) :
  (∀ x, emits (f x) []) → emits (forM l f) [].
Proof.
  intros H. induction l as [|x l IH]; simpl; [apply emits_ret|]. by apply (emits_bind _ _ [] []).
Qed.

Lemma emits_on_error {E A : Type} (c : M (Os B) E ()) (m : M (Os B) E A) l :
  emits c [] → emits m l → emits (on_error c m) l.
Proof.
  intros Hc Hm s. destruct (Hm s) as (l' & E1 & P1 & R1). exists l'. unfold on_error.
  destruct (m s) as [[a|e|] s1]; simpl in *; [done| |done].
  destruct (Hc s1) as (l'' & E2 & P2 & _). apply prefix_nil_inv in P2 as ->. rewrite app_nil_r in E2.
  destruct (c s1) as [[]]; simpl in *; split_and!; try done; congruence.
Qed.

Lemma emits_ignore {E F A : Type} (m : M (Os B) E A) : emits m [] → emits (ignore m : M (Os B) F ()) [].
Proof.
  intros H. apply (emits_bind _ _ [] []); [by apply emits_attempt_none|intros; apply emits_ret].
Qed.

Lemma emits_remove_dir_if_exists p : emits (remove_dir_if_exists p) [].
Proof.
  apply (emits_bind _ _ [] []); [by apply emits_attempt_none, emits_sys|].
  intros [[]|e]; [apply emits_ret|]. case_decide; [apply emits_ret|apply emits_throw].
Qed.

Lemma emits_look {A : Type} (c : Call B) f : run_of c = None → emits (look (A := A) c f) [].
Proof. apply emits_sys. Qed.

Lemma emits_sync_parent p : emits (on_parent p sync_dir) [].
Proof. apply emits_on_parent. intros q. by apply emits_look. Qed.

Lemma emits_publish tmp image_dir : emits (publish_checkpoint_dir tmp image_dir) [].
Proof.
  unfold publish_checkpoint_dir, sync_checkpoint_dir, sync_container_dir, path_exists, io.
  repeat first
    [ apply emits_ret | apply emits_throw | apply emits_remove_dir_if_exists
    | apply emits_sync_parent | apply emits_look; reflexivity | apply emits_sys; reflexivity
    | apply emits_mapE | apply emits_ignore | apply emits_attempt_none
    | apply emits_on_parent; intros; apply emits_create_dirs
    | apply emits_forM_none; intros | apply (emits_bind _ _ [] []); [|intros] | case_match ].
Qed.

(** A snapshot never stops the sandbox: the only commands it runs are
    checkpoints with [-leave-running], of every container, [pause] first, each
    into its own directory of one temporary image; if it returns, of all. *)
Theorem snapshot_sandbox_leaves_running (containers : list string) (image_dir : Path) (s : Os B) :
  let r := runsc_for_sandbox paths id in
  let tmp := temp_path env_pid (env_nanos (calls s)) (temp_counter s) image_dir in
  let all := map (λ c, checkpoint_run r tmp (c, true)) (checkpoint_target_names containers) in
  let o := (snapshot_sandbox paths id containers image_dir s).1 in
  let s' := (snapshot_sandbox paths id containers image_dir s).2 in
  ∃ l, runs (calls s') = (runs (calls s) ++ l)%list ∧ l `prefix_of` all ∧ (o = Ret tt → l = all).
Proof.
  intros r tmp all o s'. unfold o, s', snapshot_sandbox, in_temp_image_dir, io, mapE, fresh_temp_path,
    mbind at 1, M_bind at 1. fold tmp.
  set (s1 := mkOs (files s) (calls s) _). change (calls s) with (calls s1).
  match goal with |- context [on_error ?c ?m] => assert (H : emits (on_error c m) all) end.
  { apply emits_on_error; [by apply emits_ignore, emits_sys|].
    apply (emits_bind _ _ [] all); [apply emits_remove_dir_if_exists|intros _].
    apply (emits_bind _ _ [] all); [apply emits_mapE, emits_create_dirs|intros _].
    apply emits_bind_l; [|intros _; apply emits_publish].
    assert (all = map (checkpoint_run r tmp) (checkpoint_targets containers)) as ->.
    { unfold all, checkpoint_targets. by rewrite map_map. }
    apply (checkpoint_container_images_emits (checkpoint_targets containers) tmp). }
  destruct (H s1) as (l & E & P & R). exists l. split_and!; [exact E|exact P|]. apply R.
Qed.
End orders.

(** ** Suspend targets *)

Definition workloads (containers : list string) : list string :=
  List.filter (λ c, negb (is_pause c)) containers.

Lemma filter_pause_perm containers :
  NoDup containers →
  checkpoint_target_names containers ≡ₚ containers.
Proof.
  intros Hnd. unfold checkpoint_target_names. destruct (existsb is_pause containers) eqn:E.
  - apply existsb_exists in E as (c & Hc%list_elem_of_In & Hp%bool_decide_eq_true). subst c.
    apply list_elem_of_split in Hc as (l1 & l2 & ->).
    apply NoDup_app in Hnd as (_ & H1 & H2). apply NoDup_cons in H2 as [H2 _].
    rewrite List.filter_app /=.
    assert (Hid : ∀ l, PAUSE_CONTAINER ∉ l → List.filter (λ c, negb (is_pause c)) l = l).
    { intros l. induction l as [|x l IH]; intros Hin; [done|]. simpl. unfold is_pause at 1.
      case_bool_decide as Hx; simpl; [subst; destruct Hin; left|]. rewrite IH //. intros ?. apply Hin. by right. }
    rewrite !Hid; [by intros ?; apply (H1 PAUSE_CONTAINER); [|left]|done|]. by rewrite Permutation_middle.
  - assert (Hid : ∀ l, existsb is_pause l = false → List.filter (λ c, negb (is_pause c)) l = l).
    { intros l. induction l as [|x l IH]; intros Hl; [done|]. simpl in *.
      apply orb_false_iff in Hl as [-> Hl]. simpl. by rewrite IH. }
    by rewrite Hid.
Qed.

(** What a suspend checkpoints.  Of distinct containers each is checkpointed
    exactly once, [pause] before all others and the others in their order; every
    checkpoint leaves the sandbox running but the last one, which stops it. *)
Theorem checkpoint_suspend_targets_spec (containers : list string) :
  NoDup containers →
  let targets := checkpoint_suspend_targets containers in
  map fst targets ≡ₚ containers ∧
  (PAUSE_CONTAINER ∈ containers → head (map fst targets) = Some PAUSE_CONTAINER) ∧
  workloads (map fst targets) = workloads containers ∧
  (∀ i c leave_running, targets !! i = Some (c, leave_running) →
     leave_running = true ↔ (S i < length containers)%nat).
Proof.
  intros Hnd targets.
  assert (Hfst : map fst targets = checkpoint_target_names containers).
  { unfold targets, checkpoint_suspend_targets. change (map fst) with (fmap (M := list) (@fst string bool)).
    rewrite fmap_imap. apply list_eq. intros i. rewrite list_lookup_imap.
    by destruct (checkpoint_target_names containers !! i). }
  pose proof (filter_pause_perm containers Hnd) as Hperm. rewrite Hfst. split_and!; [done|..].
  - intros Hp. unfold checkpoint_target_names. destruct (existsb _ _) eqn:E; [done|].
    assert (existsb is_pause containers = true); [|congruence].
    apply existsb_exists. exists PAUSE_CONTAINER. split; [by apply list_elem_of_In|done].
  - unfold checkpoint_target_names, workloads.
    assert (Hff : ∀ l, List.filter (λ c, negb (is_pause c)) (List.filter (λ c, negb (is_pause c)) l)
                     = List.filter (λ c, negb (is_pause c)) l).
    { intros l. induction l as [|x l IH]; [done|]. simpl. destruct (is_pause x) eqn:Ex; simpl; [done|].
      by rewrite Ex /= IH. }
    destruct (existsb _ _); apply Hff.
  - intros i c leave H. unfold targets, checkpoint_suspend_targets in H.
    rewrite list_lookup_imap in H. destruct (_ !! i) as [x|] eqn:Ex; [|done]. simpl in H. simplify_eq.
    apply lookup_lt_Some in Ex. rewrite (Permutation_length Hperm) in Ex |- *.
    rewrite negb_true_iff Nat.eqb_neq. lia.
Qed.

Lemma checkpoint_suspend_targets_spec_witness :
  checkpoint_suspend_targets ["main"; "pause"; "db"] = [("pause", true); ("main", true); ("db", false)] ∧
  map fst (checkpoint_suspend_targets ["main"; "pause"; "db"]) ≡ₚ ["main"; "pause"; "db"].
Proof.
  split; [reflexivity|].
  apply (checkpoint_suspend_targets_spec ["main"; "pause"; "db"]). apply (bool_decide_unpack _). vm_compute. exact I.
Defined.
