(* ===== verification/Api.v ===== *)
(** * Requests, responses and events of the HTTP API (crates/oad-api/src/lib.rs)

    Bytes of streams are strings of 8-bit characters; their base64 text in JSON
    is the encoder's. *)
From S2P Require Import Prelude Str Core.

Record CreateSandboxRequest : Type := mkCreateRequest {
  cr_id : option string; cr_containers : list ContainerSpec;
  cr_from_snapshot : option string; cr_network : option SandboxNetworkSpec;
}.

Record CreateSnapshotRequest : Type := mkCreateSnapshotRequest { cs_name : option string }.

Record SnapshotInfo : Type := mkSnapshotInfo {
  si_name : string; si_containers : list string; si_created_at : string;
}.

Record LogsResponse : Type := mkLogsResponse {
  logs_sandbox_id : string; logs_container : string; logs_lines : list string;
}.

Record SandboxNetworkResponse : Type := mkSandboxNetworkResponse {
  nr_sandbox_id : string; nr_host_gateway_ip : string; nr_sandbox_ip : string;
}.

Record ExecRequest : Type := mkExecRequest {
  ex_container : option string; ex_command : list string; ex_env : list EnvVar; ex_cwd : option string;
}.

Record ExecResponse : Type := mkExecResponse {
  er_sandbox_id : string; er_container : string; er_exit_code : Z; er_stdout : string; er_stderr : string;
}.

Definition DEFAULT_PTY_ROWS : Z := 40.
Definition DEFAULT_PTY_COLS : Z := 120.

Record StartBackgroundExecRequest : Type := mkStartExecRequest {
  bx_container : option string; bx_command : list string; bx_env : list EnvVar; bx_cwd : option string;
  bx_pty : bool; bx_rows : option Z; bx_cols : option Z;
}.

Inductive BackgroundExecStatus : Type := ExecRunning | ExecExited | ExecFailed.

#[global] Instance BackgroundExecStatus_eq_dec : EqDecision BackgroundExecStatus.
Proof. solve_decision. Defined.

Record BackgroundExecInfo : Type := mkExecInfo {
  bi_id : string; bi_sandbox_id : string; bi_container : string; bi_command : list string;
  bi_pty : bool; bi_status : BackgroundExecStatus; bi_exit_code : option Z; bi_last_error : option string;
}.

Record BackgroundExecStdinRequest : Type := mkStdinRequest { stdin_data : string; stdin_close : bool }.
Record BackgroundExecResizeRequest : Type := mkResizeRequest { resize_rows : Z; resize_cols : Z }.

Inductive BackgroundExecEventKind : Type :=
| EvStdout (data : string)
| EvStderr (data : string)
| EvExited (exit_code : Z)
| EvFailed (message : string).

#[global] Instance BackgroundExecEventKind_eq_dec : EqDecision BackgroundExecEventKind.
Proof. solve_decision. Defined.

Record BackgroundExecEvent : Type := mkEvent {
  ev_sequence : Z; ev_exec_id : string; ev_event : BackgroundExecEventKind;
}.

#[global] Instance BackgroundExecEvent_eq_dec : EqDecision BackgroundExecEvent.
Proof. solve_decision. Defined.

Definition is_terminal (k : BackgroundExecEventKind) : bool :=
  match k with EvExited _ | EvFailed _ => true | _ => false end.

Record LogsQuery : Type := mkLogsQuery { lq_container : option string; lq_tail : option Z }.

Record ErrorBody : Type := mkErrorBody { err_code : string; err_message : string }.

#[global] Instance ErrorBody_eq_dec : EqDecision ErrorBody.
Proof. solve_decision. Defined.
