(* ===== verification/OciBase.v ===== *)
(** * Errors of image handling (crates/oad-oci/src/lib.rs) *)
From Stdlib Require Import String.
From S2P Require Import Prelude Str Core Os.
#[local] Open Scope string_scope.

(** [oad_oci::OciError] (crates/oad-oci/src/lib.rs); errors of other libraries
    are represented by their text. *)
Inductive OciError : Type :=
| InvalidReference (reference : string)
| OciHttp (error : string)
| OciIo (error : IoError)
| OciJson (error : string)
| JsonBody (kind body_source error preview : string)
| MissingAuthChallenge
| InvalidAuthChallenge
| MissingToken
| InvalidManifest (reason : string)
| PlatformUnavailable (platform : string)
| UnsupportedDigest (digest : string)
| DigestMismatch (expected actual : string)
| BodyTooLarge (kind : string) (limit : Z)
| UnsupportedTarEntry (entry : string)
| UnsafeArchivePath (path : string)
| NoCommand (container : string)
| MkfsErofsSpawn (error : IoError)
| MkfsErofsExit (status stdout stderr : string)
| OciJoin (error : string).

(** [{:?}] of a string, for texts without characters that need escaping. *)
Definition quoted (s : string) : string := dquote ++ s ++ dquote.

Definition show_oci_error (e : OciError) : string :=
  match e with
  | InvalidReference r => "invalid image reference " ++ quoted r
  | OciHttp e => "http error: " ++ e
  | OciIo e => "i/o error: " ++ show_io_error e
  | OciJson e => "json error: " ++ e
  | JsonBody kind source error preview =>
      kind ++ " JSON from " ++ quoted source ++ " is invalid: " ++ error ++ "; body starts with " ++ quoted preview
  | MissingAuthChallenge => "registry auth challenge is missing"
  | InvalidAuthChallenge => "registry auth challenge is invalid"
  | MissingToken => "registry token response is missing a token"
  | InvalidManifest r => "manifest is invalid: " ++ r
  | PlatformUnavailable p => "platform " ++ p ++ " is not available in image index"
  | UnsupportedDigest d => "unsupported digest " ++ quoted d
  | DigestMismatch expected actual => "digest mismatch: expected " ++ expected ++ ", got " ++ actual
  | BodyTooLarge kind limit => kind ++ " body exceeded " ++ show_dec limit ++ " bytes"
  | UnsupportedTarEntry e => "unsupported tar entry " ++ e
  | UnsafeArchivePath p => "archive path is unsafe: " ++ p
  | NoCommand c => "container " ++ quoted c ++ " has no command to execute"
  | MkfsErofsSpawn e => "failed to spawn mkfs.erofs: " ++ show_io_error e
  | MkfsErofsExit status out err =>
      "mkfs.erofs failed with " ++ status ++ ": stdout=" ++ quoted out ++ ", stderr=" ++ quoted err
  | OciJoin e => "background task failed: " ++ e
  end.

