(* ===== verification/Tree.v ===== *)
(** * A file system with symbolic and hard links

    What crates/oad-oci uses of the file system when it unpacks layers: paths
    are resolved through the symbolic links in it, as the kernel does; a file is
    an inode that several names may share.  Any operation may fail; a failed
    removal of a tree leaves any part of it. *)
From S2P Require Import Prelude Str Core Effect Os.

Inductive Entry : Type :=
| EDir (mode : Z)
| EReg (inode : Z)
| ESym (target : string).

Record Inode : Type := mkInode { i_mode : Z; i_data : string }.

Record Tree : Type := mkTree {
  entries : gmap Path Entry;       (* by real path: no component is a link *)
  inodes : gmap Z Inode;
  next_inode : Z;
  remaining : Z;                   (* the budget of the extraction *)
  t_ops : nat;                     (* operations so far *)
}.

(** Which operations fail: with what error, and which names an interrupted
    removal leaves. *)
Class Faults : Type := {
  fault : nat → option (IoError * (Path → bool));
  stat_fault : nat → option IoError;
  umask : Z;
}.

Notation dir_mode := 493%Z.

Definition entry_at (es : gmap Path Entry) (p : Path) : option Entry :=
  match p with [] => Some (EDir dir_mode) | _ => es !! p end.

Definition absolute (s : string) : bool := starts_with "/" s.

(** The real path of [cur/todo], every link followed; at most [links] of them. *)
Fixpoint walk (es : gmap Path Entry) (links : nat) : Path → list string → result IoError Path :=
  fix go (cur : Path) (todo : list string) : result IoError Path :=
    match todo with
    | [] => Ok cur
    | c :: rest =>
        if decide (c = "..") then go (removelast cur) rest else
        match entry_at es (cur ++ [c])%list with
        | None => Err NotFound
        | Some (EDir _) => go (cur ++ [c])%list rest
        | Some (EReg _) => match rest with [] => Ok (cur ++ [c])%list | _ => Err NotADirectory end
        | Some (ESym target) =>
            match links with
            | O => Err (IoOther "Too many levels of symbolic links")
            | S links => walk es links (if absolute target then [] else cur) (components target ++ rest)%list
            end
        end
    end.

Definition MAX_LINKS : nat := 40.

Definition real (es : gmap Path Entry) (p : Path) : result IoError Path := walk es MAX_LINKS [] p.

(** Where the last name of [p] is, itself not followed. *)
Definition locate (es : gmap Path Entry) (p : Path) : result IoError Path :=
  match last p with
  | None => Ok []
  | Some c =>
      (d <-? real es (removelast p) ;;
       match entry_at es d with Some (EDir _) => Ok (d ++ [c])%list | _ => Err NotADirectory end)%rust
  end.

Section ops.
Context `{!Faults}.
Notation FsM := (M Tree IoError).

Definition tick (t : Tree) : Tree :=
  mkTree (entries t) (inodes t) (next_inode t) (remaining t) (S (t_ops t)).
Definition with_entries (es : gmap Path Entry) (t : Tree) : Tree :=
  mkTree es (inodes t) (next_inode t) (remaining t) (t_ops t).
Definition with_inodes (ns : gmap Z Inode) (t : Tree) : Tree :=
  mkTree (entries t) ns (next_inode t) (remaining t) (t_ops t).

Definition op {A : Type} (run : Tree → result IoError (A * Tree)) (broken : (Path → bool) → Tree → Tree) : FsM A := λ t,
  match fault (t_ops t) with
  | Some (e, keep) => (Throw e, broken keep (tick t))
  | None => match run (tick t) with Ok (a, t') => (Ret a, t') | Err e => (Throw e, tick t) end
  end.

Definition simple {A : Type} (run : Tree → result IoError (A * Tree)) : FsM A := op run (λ _ t, t).

(** [fs::symlink_metadata]. *)
Definition lstat (p : Path) : FsM Entry := λ t,
  match stat_fault (t_ops t) with
  | Some e => (Throw e, tick t)
  | None =>
      match (q <-? locate (entries t) p ;; ok_or (entry_at (entries t) q) NotFound)%rust with
      | Ok e => (Ret e, tick t)
      | Err e => (Throw e, tick t)
      end
  end.

Definition follow (es : gmap Path Entry) (p : Path) : option Entry :=
  match real es p with Ok q => entry_at es q | Err _ => None end.

Definition is_dir_entry (e : option Entry) : bool := match e with Some (EDir _) => true | _ => false end.

(** [Path::exists] and [Path::is_dir]: an error is [false]. *)
Definition exists_path {E : Type} (p : Path) : M Tree E bool := λ t,
  (Ret match stat_fault (t_ops t) with
       | Some _ => false
       | None => match follow (entries t) p with Some _ => true | None => false end
       end, tick t).

Definition is_dir {E : Type} (p : Path) : M Tree E bool := λ t,
  (Ret match stat_fault (t_ops t) with Some _ => false | None => is_dir_entry (follow (entries t) p) end, tick t).

(** A name is put where there is none. *)
Definition put_new (p : Path) (e : Entry) : FsM () := simple (λ t,
  (q <-? locate (entries t) p ;;
   match entry_at (entries t) q with
   | Some _ => Err AlreadyExists
   | None => Ok (tt, with_entries (<[q := e]> (entries t)) t)
   end)%rust).

Definition mkdir (p : Path) : FsM () := put_new p (EDir dir_mode).
Definition symlink (target : string) (p : Path) : FsM () := put_new p (ESym target).

(** [fs::create_dir_all]; [n] bounds the ancestors it climbs. *)
Fixpoint create_dir_all_go (n : nat) (p : Path) : FsM () :=
  let again (e : IoError) : FsM () := d ← is_dir p; if (d : bool) then mret tt else throw e in
  r ← attempt (mkdir p);
  match r with
  | Ok _ => mret tt
  | Err NotFound =>
      match n, parent p with
      | S n, Some d =>
          create_dir_all_go n d ;;
          r ← attempt (mkdir p);
          match r with Ok _ => mret tt | Err e => again e end
      | _, _ => throw (IoOther "failed to create whole tree")
      end
  | Err e => again e
  end.

Definition create_dir_all (p : Path) : FsM () :=
  match p with [] => mret tt | _ => create_dir_all_go (length p) p end.

Definition remove_file (p : Path) : FsM () := simple (λ t,
  (q <-? locate (entries t) p ;;
   match entry_at (entries t) q with
   | None => Err NotFound
   | Some (EDir _) => Err IsADirectory
   | Some _ => Ok (tt, with_entries (delete q (entries t)) t)
   end)%rust).

(** What an interrupted removal leaves: a name survives with all above it. *)
Definition survives (keep : Path → bool) (q p : Path) : bool :=
  forallb (λ k, keep (take k p)) (seq (length q) (S (length p - length q))).

Definition without (q : Path) (keep : Path → bool) (es : gmap Path Entry) : gmap Path Entry :=
  filter (λ pe : Path * Entry, ¬ q `prefix_of` pe.1 ∨ keep pe.1 = true) es.

(** [fs::remove_dir_all]: links in the tree are removed, not followed. *)
Definition remove_dir_all (p : Path) : FsM () := op
  (λ t, (q <-? locate (entries t) p ;;
     match entry_at (entries t) q with
     | None => Err NotFound
     | Some (EDir _) => Ok (tt, with_entries (without q (λ _, false) (entries t)) t)
     | Some (ESym _) => Ok (tt, with_entries (delete q (entries t)) t)
     | Some (EReg _) => Err NotADirectory
     end)%rust)
  (λ keep t, match locate (entries t) p with
     | Ok q => with_entries (without q (survives keep q) (entries t)) t
     | Err _ => t
     end).

(** The names in a directory. *)
Definition names (es : gmap Path Entry) (d : Path) : list string :=
  omap (λ pe : Path * Entry, if bool_decide (pe.1 ≠ [] ∧ removelast pe.1 = d) then last pe.1 else None) (map_to_list es).

Definition read_dir (p : Path) : FsM (list string) := simple (λ t,
  (q <-? real (entries t) p ;;
   match entry_at (entries t) q with
   | Some (EDir _) => Ok (names (entries t) q, t)
   | _ => Err NotADirectory
   end)%rust).

Definition hard_link (source target : Path) : FsM () := simple (λ t,
  (s <-? locate (entries t) source ;;
   match entry_at (entries t) s with
   | None => Err NotFound
   | Some (EDir _) => Err (IoOther "Operation not permitted")
   | Some e =>
       q <-? locate (entries t) target ;;
       match entry_at (entries t) q with
       | Some _ => Err AlreadyExists
       | None => Ok (tt, with_entries (<[q := e]> (entries t)) t)
       end
   end)%rust).

(** [create_new] with [O_NOFOLLOW]: a new file under the umask. *)
Definition create_new (p : Path) (mode : Z) : FsM Z := simple (λ t,
  (q <-? locate (entries t) p ;;
   match entry_at (entries t) q with
   | Some _ => Err AlreadyExists
   | None =>
       let i := next_inode t in
       Ok (i, mkTree (<[q := EReg i]> (entries t)) (<[i := mkInode (Z.ldiff mode umask) EmptyString]> (inodes t))
                (i + 1) (remaining t) (t_ops t))
   end)%rust).

Definition on_inode (i : Z) (f : Inode → Inode) (t : Tree) : Tree :=
  match inodes t !! i with Some n => with_inodes (<[i := f n]> (inodes t)) t | None => t end.

Definition write_chunk (i : Z) (data : string) : FsM () :=
  simple (λ t, Ok (tt, on_inode i (λ n, mkInode (i_mode n) (i_data n ++ data)%string) t)).

(** [File::set_permissions]. *)
Definition fset_mode (i : Z) (mode : Z) : FsM () :=
  simple (λ t, Ok (tt, on_inode i (λ n, mkInode mode (i_data n)) t)).

(** [fs::set_permissions]: follows links. *)
Definition chmod (p : Path) (mode : Z) : FsM () := simple (λ t,
  (q <-? real (entries t) p ;;
   match entry_at (entries t) q with
   | Some (EDir _) => Ok (tt, match q with [] => t | _ => with_entries (<[q := EDir mode]> (entries t)) t end)
   | Some (EReg i) => Ok (tt, on_inode i (λ n, mkInode mode (i_data n)) t)
   | _ => Err NotFound
   end)%rust).
End ops.

(** ** The real path *)

Lemma prefix_snoc {A : Type} (q p : list A) c : q `prefix_of` (p ++ [c])%list → q = (p ++ [c])%list ∨ q `prefix_of` p.
Proof.
  intros [k Hk]. destruct k as [|x k _] using rev_ind; [left; by rewrite app_nil_r in Hk|right].
  rewrite app_assoc in Hk. apply app_inj_tail in Hk as [-> _]. by exists k.
Qed.

Lemma walk_cons es links cur c rest :
  walk es links cur (c :: rest) =
    if decide (c = "..") then walk es links (removelast cur) rest else
    match entry_at es (cur ++ [c])%list with
    | None => Err NotFound
    | Some (EDir _) => walk es links (cur ++ [c])%list rest
    | Some (EReg _) => match rest with [] => Ok (cur ++ [c])%list | _ => Err NotADirectory end
    | Some (ESym target) =>
        match links with
        | O => Err (IoOther "Too many levels of symbolic links")
        | S links => walk es links (if absolute target then [] else cur) (components target ++ rest)%list
        end
    end.
Proof. by destruct links. Qed.

Lemma walk_nil es links cur : walk es links cur [] = Ok cur.
Proof. by destruct links. Qed.

Lemma entry_at_snoc es (q : Path) c : entry_at es (q ++ [c])%list = es !! (q ++ [c])%list.
Proof. by destruct q. Qed.

(** All names along [p] are directories. *)
Definition dirs (es : gmap Path Entry) (p : Path) : Prop :=
  ∀ q, q ≠ [] → q `prefix_of` p → ∃ mode, es !! q = Some (EDir mode).

(** [p] leads to itself: through directories, to a directory or a file. *)
Definition canonical (es : gmap Path Entry) (p : Path) : Prop :=
  ".." ∉ p ∧ (dirs es p ∨ ∃ d c i, p = (d ++ [c])%list ∧ dirs es d ∧ es !! p = Some (EReg i)).

Lemma dirs_snoc es p c mode : dirs es p → es !! (p ++ [c])%list = Some (EDir mode) → dirs es (p ++ [c])%list.
Proof. intros Hp He q Hq [->|Hpre]%prefix_snoc; [by exists mode|by apply Hp]. Qed.

Lemma dirs_removelast es p : dirs es p ∧ ".." ∉ p → dirs es (removelast p) ∧ ".." ∉ removelast p.
Proof.
  destruct p as [|c p _] using rev_ind; [done|]. rewrite removelast_last. intros [Hp Hn]. split; [|set_solver].
  intros q Hq Hpre. apply Hp; [done|]. by apply prefix_app_r.
Qed.

Lemma walk_canonical es links : ∀ cur todo q, dirs es cur ∧ ".." ∉ cur → walk es links cur todo = Ok q → canonical es q.
Proof.
  induction links as [|links IHl]; intros cur todo; revert cur; induction todo as [|c rest IH]; intros cur q [Hd Hn];
    rewrite ?walk_nil ?walk_cons; try (intros [= <-]; split; [done|by left]);
    (destruct (decide (c = "..")) as [|Hc]; [by apply IH, dirs_removelast|]; rewrite entry_at_snoc;
     assert (Hn' : ".." ∉ (cur ++ [c])%list) by (rewrite elem_of_app list_elem_of_singleton; intros [?|?]; [done|congruence]);
     destruct (es !! (cur ++ [c])%list) as [[mode|i|target]|] eqn:E; try done;
     [apply IH; split; [exact (dirs_snoc _ _ _ _ Hd E)|done]|
      destruct rest; [intros [= <-]; split; [done|right; by exists cur, c, i]|done]|..]).
  apply IHl. destruct (absolute target); [|done]. split; [by intros r Hr ->%prefix_nil_inv|set_solver].
Qed.

(** What [canonicalize] answers leads to itself. *)
Lemma real_canonical es p q : real es p = Ok q → canonical es q.
Proof. apply walk_canonical. split; [by intros r Hr ->%prefix_nil_inv|set_solver]. Qed.

Lemma walk_along es links : ∀ p cur rest, dirs es (cur ++ p)%list → ".." ∉ p → walk es links cur (p ++ rest)%list = walk es links (cur ++ p)%list rest.
Proof.
  induction p as [|c p IH]; intros cur rest Hd Hn; [by rewrite app_nil_r|]. cbn [app]. rewrite walk_cons decide_False; [set_solver|].
  rewrite entry_at_snoc. destruct (Hd (cur ++ [c])%list) as [mode ->]; [by destruct cur|exists p; by rewrite -app_assoc|].
  rewrite IH; [by rewrite -app_assoc|set_solver|]. by rewrite -app_assoc.
Qed.

Lemma canonical_real es p : canonical es p → real es p = Ok p.
Proof.
  unfold real. intros [Hn [Hd|(d & c & i & -> & Hd & He)]].
  - pose proof (walk_along es MAX_LINKS p [] [] Hd Hn) as Hw. rewrite app_nil_r in Hw. by rewrite Hw walk_nil.
  - rewrite (walk_along es MAX_LINKS d [] [c] Hd); [set_solver|]. cbn [app]. rewrite walk_cons decide_False; [set_solver|].
    by rewrite entry_at_snoc He.
Qed.
