(* ===== verification/Extract.v ===== *)
(** * Unpacking the layers of an image (crates/oad-oci/src/lib.rs)

    Layers come from registries and are hostile: names with [..], links that
    lead out of the root file system, whiteouts, sizes without end.  An archive
    is the list of entries the tar reader yields, errors included. *)
From S2P Require Import Prelude Str Core Effect Os OciBase Tree.

Inductive EntryType : Type :=
| Regular | Link | Symlink | Char | Block | Directory | Fifo
| OtherType (debug : string).

Record TarEntry : Type := mkTarEntry {
  te_path : result IoError string;
  te_type : EntryType;
  te_mode : result IoError Z;
  te_link : result IoError (option string);
  te_chunks : list string;            (* what the reads of its contents return *)
  te_broken : option IoError;         (* ... and the error they end with *)
}.

Definition MAX_UNPACKED_IMAGE_BYTES : Z := 16 * 1024 * 1024 * 1024.

(** ** Paths of archives *)

Definition trivial_piece (p : string) : bool := bool_decide (p = "" ∨ p = ".").

Fixpoint drop_trivial (ps : list string) : list string :=
  match ps with p :: rest => if trivial_piece p then drop_trivial rest else ps | [] => [] end.

(** [Path::parent] of a path with a last name, as text. *)
Definition parent_text (s : string) : string :=
  let pieces := split_char "/" s in
  match reverse (drop_trivial (tail (drop_trivial (reverse pieces)))) with
  | [] => if absolute s then "/" else if bool_decide (head pieces = Some ".") then "." else ""
  | ps => str_join "/" ps
  end.

(** [path == Path::new(".")]. *)
Definition is_current_dir (s : string) : bool :=
  negb (absolute s) && bool_decide (components s = []) && bool_decide (s ≠ "").

Definition safe_join (rootfs : Path) (path : string) : result OciError Path :=
  if absolute path || bool_decide (".." ∈ components path) then Err (UnsafeArchivePath path)
  else Ok (rootfs ++ components path)%list.

(** [Path::strip_prefix]. *)
Fixpoint strip_path (prefix p : Path) : option Path :=
  match prefix, p with
  | [], _ => Some p
  | a :: prefix, b :: p => if decide (a = b) then strip_path prefix p else None
  | _ :: _, [] => None
  end.

Section extract.
Context `{!Faults}.
Notation OciM := (M Tree OciError).
Context (rootfs : Path).

Definition io {A : Type} (m : M Tree IoError A) : OciM A := mapE OciIo m.

Fixpoint check_components (cursor rest : Path) : OciM () :=
  match rest with
  | [] => mret tt
  | c :: rest =>
      let cursor := (cursor ++ [c])%list in
      r ← attempt (lstat cursor);
      match r with
      | Ok (ESym _) => throw (UnsafeArchivePath (display cursor))
      | _ => check_components cursor rest
      end
  end.

Definition ensure_parent_safe (target : Path) : OciM () :=
  match strip_path rootfs (default rootfs (parent target)) with
  | None => throw (UnsafeArchivePath (display target ++ " escapes " ++ display rootfs)%string)
  | Some relative => check_components rootfs relative
  end.

Definition remove_path_if_exists (path : Path) : OciM () :=
  r ← attempt (lstat path);
  match r with
  | Ok (EDir _) => io (remove_dir_all path)
  | Ok _ => io (remove_file path)
  | Err NotFound => mret tt
  | Err e => throw (OciIo e)
  end.

Definition set_mode (path : Path) (mode : Z) : OciM () := ignore (chmod path mode).

(** What stands where a directory is to be, unless it is one, is removed. *)
Definition clear_directory (target : Path) : OciM () :=
  r ← attempt (lstat target);
  match r with
  | Ok (EDir _) => mret tt
  | Ok _ => remove_path_if_exists target
  | Err NotFound => mret tt
  | Err e => throw (OciIo e)
  end.

Definition ensure_directory (target : Path) (mode : option Z) : OciM () :=
  ensure_parent_safe target ;;
  clear_directory target ;;
  io (create_dir_all target) ;;
  match mode with Some mode => set_mode target mode | None => mret tt end.

(** ** The budget of an image *)

Definition size (s : string) : Z := Z.of_nat (String.length s).

Definition take_budget (amount : Z) : OciM () := λ t,
  let next := (remaining t - amount)%Z in
  if (next <? 0)%Z then (Throw (BodyTooLarge "unpacked image" MAX_UNPACKED_IMAGE_BYTES), t)
  else (Ret tt, mkTree (entries t) (inodes t) (next_inode t) next (t_ops t)).

Definition copy (chunks : list string) (broken : option IoError) (file : Z) : OciM () :=
  forM chunks (λ chunk, take_budget (size chunk) ;; io (write_chunk file chunk)) ;;
  match broken with Some e => throw (OciIo e) | None => mret tt end.

Definition write_regular_file (target : Path) (mode : Z) (chunks : list string) (broken : option IoError) : OciM () :=
  ensure_parent_safe target ;;
  match parent target with Some d => io (create_dir_all d) | None => mret tt end ;;
  remove_path_if_exists target ;;
  let mode := Z.land mode 4095 in
  file ← io (create_new target mode);
  copy chunks broken file ;;
  ignore (fset_mode file mode).

Definition ensure_regular_file_exists (target : Path) (mode : Z) : OciM () :=
  ensure_parent_safe target ;;
  r ← attempt (lstat target);
  match r with
  | Ok (EReg _) => mret tt
  | Err e => if decide (e = NotFound) then write_regular_file target mode [] None else throw (OciIo e)
  | Ok _ => write_regular_file target mode [] None
  end.

(** ** Entries *)

Definition handle_whiteout (path : string) : OciM bool :=
  match file_name (components path) with
  | None => mret false
  | Some name =>
      if decide (name = ".wh..wh..opq") then
        parent ← lift_result (safe_join rootfs (parent_text path));
        ensure_parent_safe (parent ++ [".opq-check"])%list ;;
        there ← exists_path parent;
        (if (there : bool) then
           children ← io (read_dir parent);
           forM children (λ child, remove_path_if_exists (parent ++ [child])%list)
         else mret tt) ;;
        mret true
      else
        match strip_prefix ".wh." name with
        | Some stripped =>
            target ← lift_result (safe_join rootfs (join_text (parent_text path) stripped));
            ensure_parent_safe target ;;
            remove_path_if_exists target ;;
            mret true
        | None => mret false
        end
  end.

Definition io_result {A : Type} (r : result IoError A) : OciM A := lift_result (map_err OciIo r).

Definition link_target (path : string) (e : TarEntry) : OciM string :=
  link ← io_result (te_link e); lift_result (ok_or link (UnsafeArchivePath path)).

Definition make_parent (target : Path) : OciM () :=
  match parent target with Some d => io (create_dir_all d) | None => mret tt end.

Definition link_from (source target : Path) : OciM () :=
  ensure_parent_safe source ;;
  found ← io (lstat source);
  match found with
  | ESym _ => throw (UnsafeArchivePath (display source))
  | _ => make_parent target ;; remove_path_if_exists target ;; io (hard_link source target)
  end.

Definition extract_hard_link (path : string) (e : TarEntry) (target : Path) : OciM () :=
  link_name ← link_target path e;
  let relative := if absolute link_name then trim_start_char "/" link_name else link_name in
  source ← lift_result (safe_join rootfs relative);
  link_from source target.

Definition extract_symlink (path : string) (e : TarEntry) (target : Path) : OciM () :=
  link_name ← link_target path e;
  make_parent target ;;
  remove_path_if_exists target ;;
  io (symlink link_name target).

Definition extract_at (path : string) (e : TarEntry) (target : Path) : OciM () :=
  match te_type e with
  | Directory => mode ← io_result (te_mode e); ensure_directory target (Some mode)
  | Regular => mode ← io_result (te_mode e); write_regular_file target mode (te_chunks e) (te_broken e)
  | Symlink => extract_symlink path e target
  | Link => extract_hard_link path e target
  | Char | Block | Fifo => mret tt
  | OtherType debug => throw (UnsupportedTarEntry debug)
  end.

Definition extract_entry (entry : result IoError TarEntry) : OciM () :=
  e ← io_result entry;
  path ← io_result (te_path e);
  if is_current_dir path then mret tt else
  whiteout ← handle_whiteout path;
  if (whiteout : bool) then mret tt else
  target ← lift_result (safe_join rootfs path);
  ensure_parent_safe target ;;
  extract_at path e target.

Definition extract_layer_from_reader (archive : list (result IoError TarEntry)) : OciM () :=
  forM archive extract_entry.

Definition ensure_mount_points : OciM () :=
  forM ["dev"; "proc"; "sys"; "etc"; "tmp"] (λ dir, ensure_directory (rootfs ++ [dir])%list None) ;;
  ensure_regular_file_exists (rootfs ++ ["etc"; "resolv.conf"])%list 420.

(** The layers of an image, and the mount points of its container. *)
Definition unpack (layers : list (list (result IoError TarEntry))) : OciM () :=
  forM layers extract_layer_from_reader ;; ensure_mount_points.

Definition remove_dir_if_exists (path : Path) : OciM () :=
  r ← attempt (remove_dir_all path);
  match r with Ok _ | Err NotFound => mret tt | Err e => throw (OciIo e) end.

Definition set_budget (limit : Z) : OciM () :=
  modify (λ t, mkTree (entries t) (inodes t) (next_inode t) limit (t_ops t)).

(** [mkfs] builds the image; [layers]: the archives, opened and decompressed. *)
Definition build_erofs_from_staging (mkfs : OciM ()) (layers : list (list (result IoError TarEntry))) : OciM () :=
  remove_dir_if_exists rootfs ;;
  io (create_dir_all rootfs) ;;
  set_budget MAX_UNPACKED_IMAGE_BYTES ;;
  unpack layers ;;
  mkfs ;;
  remove_dir_if_exists rootfs.
End extract.
