(* ===== verification/ExtractInv.v ===== *)
(** * Unpacking stays inside the root file system

    Whatever the archives hold and whatever fails, nothing outside [rootfs] is
    created, changed or removed: not by name, not through a symbolic link a
    layer left, not through a file shared by a hard link. *)
From S2P Require Import Prelude Str Core Effect Os OciBase Tree Extract.

Local Open Scope list_scope.

(** Every entry lies in a directory. *)
Definition closed (es : gmap Path Entry) : Prop :=
  ∀ q c, is_Some (es !! (q ++ [c])%list) → is_dir_entry (entry_at es q) = true.

(** No name on the way along [p] is a link, nor [..]. *)
Definition safe (es : gmap Path Entry) (p : Path) : Prop :=
  ".." ∉ p ∧ ∀ q target, q ≠ [] → q `prefix_of` p → es !! q ≠ Some (ESym target).

Lemma walk_literal es links cur todo q :
  safe es (cur ++ todo)%list → walk es links cur todo = Ok q → q = (cur ++ todo)%list.
Proof.
  revert cur. induction todo as [|c todo IH]; intros cur [Hdots Hsym].
  { rewrite walk_nil app_nil_r. by intros [= ->]. }
  rewrite walk_cons. case_decide as Hc; [exfalso; apply Hdots; subst c; apply elem_of_app; right; by constructor|].
  rewrite entry_at_snoc. destruct (es !! (cur ++ [c])%list) as [[m|i|target]|] eqn:E; [|..|done].
  - intros Hw. rewrite (cons_middle c) app_assoc. apply IH; [|done]. by rewrite -app_assoc.
  - destruct todo; [by intros [= <-]|done].
  - exfalso. apply (Hsym (cur ++ [c])%list target); [by destruct cur| |done]. exists todo. by rewrite -app_assoc.
Qed.

Lemma real_literal es p q : safe es p → real es p = Ok q → q = p.
Proof. apply (walk_literal es MAX_LINKS []). Qed.

(** Everything on the way to an entry of a closed tree is a directory. *)
Lemma closed_prefix es p q :
  closed es → is_dir_entry (entry_at es p) = true → q `prefix_of` p → is_dir_entry (entry_at es q) = true.
Proof.
  intros Hc. induction p as [|c p IH] using rev_ind; intros Hp Hq.
  - by apply prefix_nil_inv in Hq as ->.
  - apply prefix_snoc in Hq as [->|Hq]; [done|]. apply IH; [|done]. apply (Hc p c).
    rewrite entry_at_snoc in Hp. by destruct (es !! (p ++ [c])%list).
Qed.

Lemma walk_dirs es links cur todo :
  closed es → ".." ∉ todo → is_dir_entry (entry_at es (cur ++ todo)) = true → walk es links cur todo = Ok (cur ++ todo).
Proof.
  intros Hcl. revert cur. induction todo as [|c todo IH]; intros cur Hdots Hd; [by rewrite walk_nil app_nil_r|].
  rewrite walk_cons. apply not_elem_of_cons in Hdots as [Hc Hdots]. case_decide as Hcc; [by subst c|].
  assert (Hcd : is_dir_entry (entry_at es (cur ++ [c])) = true).
  { apply (closed_prefix es (cur ++ c :: todo)); [done..|]. exists todo. by rewrite -app_assoc. }
  destruct (entry_at es (cur ++ [c])) as [[]|]; try done. rewrite IH -?app_assoc; done.
Qed.

Lemma locate_snoc es (d : Path) c :
  locate es (d ++ [c]) =
    (q <-? real es d ;; match entry_at es q with Some (EDir _) => Ok (q ++ [c]) | _ => Err NotADirectory end)%rust.
Proof. unfold locate. by rewrite last_snoc removelast_last. Qed.

Lemma locate_literal es (d : Path) c q :
  safe es d → locate es (d ++ [c]) = Ok q → q = d ++ [c] ∧ is_dir_entry (entry_at es d) = true.
Proof.
  intros Hs. rewrite locate_snoc. destruct (real es d) as [d'|] eqn:E; [|done]. apply real_literal in E as ->; [|done].
  simpl. destruct (entry_at es d) as [[]|]; try done. by intros [= <-].
Qed.

(** A name that cannot be reached is not there. *)
Lemma locate_missing es (d : Path) c e :
  closed es → ".." ∉ d → locate es (d ++ [c]) = Err e → es !! (d ++ [c]) = None.
Proof.
  intros Hc Hd. rewrite locate_snoc. destruct (es !! (d ++ [c])) eqn:E; [|done].
  assert (Hdir : is_dir_entry (entry_at es d) = true) by (apply (Hc d c); by rewrite E).
  unfold real. rewrite (walk_dirs es MAX_LINKS [] d Hc Hd Hdir). simpl. by destruct (entry_at es d) as [[]|].
Qed.

Lemma safe_snoc es (d : Path) c :
  safe es d → c ≠ ".." → (∀ target, es !! (d ++ [c]) ≠ Some (ESym target)) → safe es (d ++ [c]).
Proof.
  intros [Hd Hs] Hc Hl. split.
  - intros [?|?%list_elem_of_singleton]%elem_of_app; [done|congruence].
  - intros q target Hne [->|Hq]%prefix_snoc; [done|by apply Hs].
Qed.

Lemma safe_prefix es (p q : Path) : safe es p → q `prefix_of` p → safe es q.
Proof.
  intros [Hp Hs] Hq. split.
  - intros Hd. apply Hp. destruct Hq as [k ->]. apply elem_of_app. by left.
  - intros q' target Hne Hq'. apply Hs; [done|]. exact (transitivity Hq' Hq).
Qed.

(** ** What a change of the entries keeps *)

Lemma closed_insert es (d : Path) c e :
  closed es → is_dir_entry (entry_at es d) = true → es !! (d ++ [c]) = None → closed (<[d ++ [c] := e]> es).
Proof.
  intros Hc Hd Hn q c' Hq. destruct (decide (q = d ++ [c])) as [->|Hne].
  { exfalso. destruct (decide (d ++ [c] = (d ++ [c]) ++ [c'])) as [E|E].
    - apply (f_equal length) in E. rewrite !length_app /= in E. lia.
    - rewrite lookup_insert_ne in Hq; [done|]. apply Hc in Hq. by rewrite entry_at_snoc Hn in Hq. }
  assert (Hat : entry_at (<[d ++ [c] := e]> es) q = entry_at es q).
  { destruct q as [|x q]; [done|]. simpl. rewrite lookup_insert_ne; [congruence|done]. }
  rewrite Hat. destruct (decide (q ++ [c'] = d ++ [c])) as [E|E].
  - by apply app_inj_tail in E as [-> ->].
  - rewrite lookup_insert_ne in Hq; [congruence|]. by apply (Hc q c').
Qed.

(** Removing names together with all below them. *)
Lemma closed_remove es es' :
  closed es → (∀ q, es' !! q = None ∨ es' !! q = es !! q) →
  (∀ q c, is_Some (es !! q) → es' !! q = None → es' !! (q ++ [c]) = None) → closed es'.
Proof.
  intros Hc Hsub Hdown q c Hq. assert (Hq0 : is_Some (es !! (q ++ [c]))).
  { destruct (Hsub (q ++ [c])) as [E|E]; rewrite E in Hq; [by destruct Hq|done]. }
  apply Hc in Hq0 as Hdir. destruct q as [|x q]; [done|]. simpl in *.
  destruct (Hsub (x :: q)) as [E|E]; [|by rewrite E].
  exfalso. rewrite (Hdown (x :: q) c) in Hq; [|done|by destruct Hq].
  by destruct (es !! (x :: q)).
Qed.

Lemma without_lookup (q : Path) keep es p :
  without q keep es !! p = if bool_decide (q `prefix_of` p ∧ keep p = false) then None else es !! p.
Proof.
  unfold without. destruct (es !! p) as [e|] eqn:E; case_bool_decide as Hb.
  - apply map_lookup_filter_None. right. intros x _ [Hx|Hx]; simpl in *; destruct Hb; congruence.
  - apply map_lookup_filter_Some. split; [done|]. simpl.
    destruct (decide (q `prefix_of` p)); [right|by left]. destruct (keep p) eqn:Ek; [done|]. by destruct Hb.
  - apply map_lookup_filter_None. by left.
  - apply map_lookup_filter_None. by left.
Qed.

Lemma survives_snoc keep (q p : Path) c :
  q `prefix_of` p → survives keep q p = false → survives keep q (p ++ [c]) = false.
Proof.
  unfold survives. intros Hq%prefix_length Hs. destruct (forallb _ (seq _ (S (length (p ++ [c]) - _)))) eqn:E; [|done].
  rewrite -Hs. symmetry. rewrite forallb_forall in E. apply forallb_forall. intros k Hk. apply in_seq in Hk.
  rewrite -(E k); [apply in_seq; rewrite length_app /=; lia|]. by rewrite take_app_le; [lia|].
Qed.

Lemma closed_without es (q : Path) keep :
  closed es → (∀ p c, q `prefix_of` p → keep p = false → keep (p ++ [c]) = false) → closed (without q keep es).
Proof.
  intros Hc Hk. apply (closed_remove es); [done|..].
  - intros p. rewrite without_lookup. case_bool_decide; auto.
  - intros p c [x Hx]. rewrite !without_lookup. case_bool_decide as Hb; [|by rewrite Hx].
    intros _. rewrite bool_decide_eq_true_2; [|done]. destruct Hb as [Hq Hkp]. split; [|by apply Hk].
    by apply prefix_app_r.
Qed.

(** ** The invariant *)

Section inv.
Context {HF : Faults} (R : Path) (t0 : Tree).
Hypothesis (R_root : R ≠ []) (R_dots : ".." ∉ R).

(** The status of a name can be read, or it is not there. *)
Hypothesis stat_ok : ∀ n, stat_fault n = None.

Notation inside q := (R `prefix_of` q).

(** Files whose contents may be seen in the root: those unpacked, and those
    that were in it. *)
Definition own_file (i : Z) : Prop :=
  (next_inode t0 ≤ i)%Z ∨ ∃ q, inside q ∧ entries t0 !! q = Some (EReg i).

Record inv (t : Tree) : Prop := {
  inv_closed : closed (entries t);
  inv_root : is_dir_entry (entry_at (entries t) R) = true;
  inv_outside : ∀ q, ¬ inside q → entries t !! q = entries t0 !! q;
  inv_next : (next_inode t0 ≤ next_inode t)%Z;
  inv_inodes : ∀ i, (i < next_inode t0)%Z → inodes t !! i = inodes t0 !! i;
  inv_files : ∀ q i, inside q → entries t !! q = Some (EReg i) → own_file i;
}.

(** The directory [d] in the root is reached by no link. *)
Definition K (d : Path) (t : Tree) : Prop := inv t ∧ safe (entries t) d ∧ inside d.

Notation triple := (triple_on (λ t : Tree, t)).

Lemma inv_above t (p : Path) : inv t → p `prefix_of` R → is_dir_entry (entry_at (entries t) p) = true.
Proof. intros [Hc Hr _ _ _ _]. by apply closed_prefix. Qed.

Lemma inv_put t (d : Path) c e :
  inv t → inside d → is_dir_entry (entry_at (entries t) d) = true → entries t !! (d ++ [c]) = None →
  (∀ i, e = EReg i → own_file i) →
  inv (with_entries (<[d ++ [c] := e]> (entries t)) t).
Proof.
  intros [Hc Hr Ho Hn Hi Hf] Hin Hd Hnone He. assert (Hne : R ≠ d ++ [c]).
  { intros E. destruct Hin as [k ->]. apply (f_equal length) in E. rewrite !length_app /= in E. lia. }
  split; simpl; try done.
  - by apply closed_insert.
  - destruct R as [|x r]; [done|]. simpl. rewrite lookup_insert_ne; [congruence|done].
  - intros q Hq. rewrite lookup_insert_ne; [|by apply Ho]. intros <-. apply Hq.
    by apply prefix_app_r.
  - intros q i Hq. destruct (decide (q = d ++ [c])) as [->|]; [rewrite lookup_insert_eq; intros [= ->]; by apply He|].
    rewrite lookup_insert_ne; [congruence|by apply Hf].
Qed.

Lemma inv_remove t (d : Path) c keep :
  inv t → inside d → (∀ p x, d ++ [c] `prefix_of` p → keep p = false → keep (p ++ [x]) = false) →
  inv (with_entries (without (d ++ [c]) keep (entries t)) t).
Proof.
  intros [Hc Hr Ho Hn Hi Hf] Hin Hk. split; simpl; try done.
  - by apply closed_without.
  - destruct R as [|x r] eqn:E; [done|]. simpl. rewrite without_lookup bool_decide_eq_false_2; [|done].
    intros [Hp _]. apply prefix_length in Hp. apply prefix_length in Hin. rewrite length_app /= in Hp, Hin. lia.
  - intros q Hq. rewrite without_lookup bool_decide_eq_false_2; [|by apply Ho]. intros [Hp _]. apply Hq.
    exact (transitivity (prefix_app_r _ _ [c] Hin) Hp).
  - intros q i Hq. rewrite without_lookup. case_bool_decide; [done|by apply Hf].
Qed.

Lemma not_above (d : Path) c : ¬ d ++ [c] `prefix_of` d.
Proof. intros H%prefix_length. rewrite length_app /= in H. lia. Qed.

Lemma safe_insert es (d p : Path) e : safe es d → ¬ p `prefix_of` d → safe (<[p := e]> es) d.
Proof.
  intros [Hd Hs] Hp. split; [done|]. intros q target Hne Hq. rewrite lookup_insert_ne; [by intros ->|by apply Hs].
Qed.

Lemma safe_sub es es' (d : Path) : safe es d → (∀ q, es' !! q = None ∨ es' !! q = es !! q) → safe es' d.
Proof.
  intros [Hd Hs] Hsub. split; [done|]. intros q target Hne Hq. destruct (Hsub q) as [-> | ->]; [done|by apply Hs].
Qed.

Lemma K_put d c e t :
  K d t → is_dir_entry (entry_at (entries t) d) = true → entries t !! (d ++ [c]) = None →
  (∀ i, e = EReg i → own_file i) →
  K d (with_entries (<[d ++ [c] := e]> (entries t)) t).
Proof.
  intros (Hi & Hs & Hin) Hd Hn He. split_and!; [by apply inv_put| |done]. apply safe_insert; [done|]. apply not_above.
Qed.

Lemma K_remove d c keep t :
  K d t → (∀ p x, d ++ [c] `prefix_of` p → keep p = false → keep (p ++ [x]) = false) →
  K d (with_entries (without (d ++ [c]) keep (entries t)) t).
Proof.
  intros (Hi & Hs & Hin) Hk. split_and!; [by apply inv_remove| |done]. eapply safe_sub; [exact Hs|].
  intros q. simpl. rewrite without_lookup. case_bool_decide; auto.
Qed.

Lemma K_tick d t : K d t → K d (tick t).
Proof. intros ([] & Hs & Hin). split_and!; [by split|done|done]. Qed.
(** ** Operations *)

(** A call whose only effect is through [run]. *)
Lemma triple_simple {A : Type} (P : Tree → Prop) (Q : outcome IoError A → Tree → Prop) (run : Tree → result IoError (A * Tree)) :
  (∀ t, P t → P (tick t)) → (∀ e t, P t → Q (Throw e) t) →
  (∀ t a t', P t → run t = Ok (a, t') → Q (Ret a) t') → triple P (simple run) Q.
Proof.
  intros Htick Ht Hr t HP. unfold wp, simple, op. destruct (fault (t_ops t)) as [[e keep]|]; [by apply Ht, Htick|].
  destruct (run (tick t)) as [[a t']|e] eqn:E; [exact (Hr _ _ _ (Htick t HP) E)|by apply Ht, Htick].
Qed.

Lemma put_new_K d c e :
  (∀ i, e = EReg i → own_file i) →
  triple (K d) (put_new (d ++ [c]) e) (λ o t, K d t ∧ (o = Ret tt → entries t !! (d ++ [c]) = Some e)).
Proof.
  intros He. apply triple_simple; [apply K_tick|done|]. intros t [] t' HK. simpl.
  destruct (locate (entries t) (d ++ [c])) as [q|] eqn:El; [|done]. simpl.
  apply locate_literal in El as [-> Hd]; [|apply HK]. rewrite entry_at_snoc.
  destruct (entries t !! (d ++ [c])) eqn:En; [done|]. intros [= <-].
  split; [by apply K_put|]. intros _. simpl. by rewrite lookup_insert_eq.
Qed.

(** A directory on the way to [D], or [D] itself. *)
Lemma mkdir_K D p :
  p `prefix_of` D →
  triple (K D) (mkdir p) (λ o t, K D t ∧ (o = Ret tt → is_dir_entry (entry_at (entries t) p) = true)).
Proof.
  intros Hpre. apply triple_simple; [apply K_tick|done|]. intros t [] t' (Hi & Hs & Hin).
  destruct p as [|c d _] using rev_ind; [done|]. assert (Hd : safe (entries t) d).
  { apply (safe_prefix _ D); [done|]. exact (transitivity (prefix_app_r _ _ [c] (reflexivity d)) Hpre). }
  simpl. destruct (locate (entries t) (d ++ [c])) as [q|] eqn:El; [|done]. simpl.
  apply locate_literal in El as [-> Hdir]; [|done]. rewrite entry_at_snoc.
  destruct (entries t !! (d ++ [c])) eqn:En; [done|]. intros [= <-].
  assert (Hind : inside d).
  { destruct (prefix_weak_total R (d ++ [c]) D) as [H|H]; [done..| |].
    - apply prefix_snoc in H as [E|H]; [|done]. apply inv_root in Hi. by rewrite E entry_at_snoc En in Hi.
    - apply (inv_above t) in H; [|done]. by rewrite entry_at_snoc En in H. }
  split; [|intros _; cbn [with_entries entries]; by rewrite entry_at_snoc lookup_insert_eq]. split_and!; [by apply inv_put| |done].
  destruct Hs as [HDd Hs]. split; [done|]. intros q target Hne Hq. simpl.
  destruct (decide (q = d ++ [c])) as [->|]; [by rewrite lookup_insert_eq|]. rewrite lookup_insert_ne; [congruence|by apply Hs].
Qed.

Lemma is_dir_K {E : Type} D p :
  p `prefix_of` D →
  triple (K D) (is_dir p : M Tree E bool) (λ o t, K D t ∧ (o = Ret true → is_dir_entry (entry_at (entries t) p) = true)).
Proof.
  intros Hp t HK. unfold wp, is_dir. split; [by apply K_tick|]. destruct (stat_fault (t_ops t)); [done|].
  intros [= Hf]. unfold follow in Hf. destruct (real (entries t) p) as [q|] eqn:E'; [|done].
  apply real_literal in E' as ->; [done|]. apply (safe_prefix _ D); [apply HK|done].
Qed.

(** What [create_dir_all] leaves when it succeeds. *)
Definition made (D p : Path) (o : outcome IoError ()) (t : Tree) : Prop :=
  K D t ∧ (o = Ret tt → is_dir_entry (entry_at (entries t) p) = true).

Lemma again_K D p e :
  p `prefix_of` D →
  triple (K D) (d ← is_dir p; if (d : bool) then mret tt else throw e : M Tree IoError ()) (made D p).
Proof.
  intros Hp. eapply triple_on_bind; [by apply is_dir_K|intros []|by intros ? ? []|by intros ? []].
  - apply triple_on_ret. intros t [H1 H2]. split; [done|]. intros _. by apply H2.
  - apply triple_on_throw. by intros t [H1 _].
Qed.

Lemma attempt_mkdir_K D p :
  p `prefix_of` D →
  triple (K D) (attempt (mkdir p) : M Tree IoError (result IoError ()))
    (λ o t, match o with Ret (Ok _) => made D p (Ret tt) t | _ => K D t end).
Proof.
  intros Hpre. apply triple_on_attempt. eapply triple_on_weaken; [exact (mkdir_K D p Hpre)|auto|].
  intros [[]|e|] t [H1 H2]; [by split|done..].
Qed.

Lemma create_dir_all_go_K D n : ∀ p, p `prefix_of` D → triple (K D) (create_dir_all_go n p) (made D p).
Proof.
  induction n as [|n IH]; intros q Hq; simpl.
  - eapply triple_on_bind; [by apply attempt_mkdir_K| |done|done].
    intros [[]|[]]; try (by apply again_K); [by apply triple_on_ret|]. by apply triple_on_throw.
  - eapply triple_on_bind; [by apply attempt_mkdir_K| |done|done].
    intros [[]|[]]; try (by apply again_K); [by apply triple_on_ret|].
    destruct (parent q) as [d|] eqn:Ed; [|by apply triple_on_throw].
    assert (Hd : d `prefix_of` D).
    { destruct q as [|c q' _] using rev_ind; [done|]. unfold parent in Ed. rewrite removelast_last in Ed.
      destruct (q' ++ [c]) eqn:E; [by destruct q'|]. injection Ed as ->. rewrite -E in Hq.
      exact (transitivity (prefix_app_r _ _ [c] (reflexivity d)) Hq). }
    eapply triple_on_bind with (R := λ _, K D).
    + eapply triple_on_weaken; [by apply IH|auto|]. by intros o t [].
    + intros []. eapply triple_on_bind; [by apply attempt_mkdir_K| |done|done].
      intros [[]|e]; [by apply triple_on_ret|by apply again_K].
    + done.
    + done.
Qed.

Lemma create_dir_all_K D p : p `prefix_of` D → triple (K D) (create_dir_all p) (made D p).
Proof.
  intros Hp. unfold create_dir_all. destruct p as [|x p]; [by apply triple_on_ret|]. by apply create_dir_all_go_K.
Qed.

(** *** Looking at a name, and removing it *)

Lemma lstat_K {E : Type} d c :
  triple (K d) (attempt (lstat (d ++ [c])) : M Tree E (result IoError Entry))
    (λ o t, K d t ∧ match o with
       | Ret (Ok e) => entries t !! (d ++ [c]) = Some e
       | Ret (Err _) => entries t !! (d ++ [c]) = None
       | Throw _ => False
       | Crash => True end).
Proof.
  intros t HK. unfold wp, attempt, lstat. rewrite stat_ok.
  destruct (locate (entries t) (d ++ [c])) as [q|e] eqn:El; simpl.
  - apply locate_literal in El as [-> _]; [|apply HK]. rewrite entry_at_snoc.
    destruct (entries t !! (d ++ [c])) eqn:En; simpl; (split; [by apply K_tick|exact En]).
  - split; [by apply K_tick|]. destruct HK as ([Hc _ _ _ _ _] & [Hd _] & _). exact (locate_missing _ _ _ _ Hc Hd El).
Qed.

Lemma K_delete d c t :
  K d t → is_dir_entry (entries t !! (d ++ [c])) = false → K d (with_entries (delete (d ++ [c]) (entries t)) t).
Proof.
  intros ([Hc Hr Ho Hn Hi Hf] & Hs & Hin) Hdir.
  assert (Hsub : ∀ q, delete (d ++ [c]) (entries t) !! q = None ∨ delete (d ++ [c]) (entries t) !! q = entries t !! q).
  { intros q. destruct (decide (q = d ++ [c])) as [->|]; [left; apply lookup_delete_eq|right; rewrite lookup_delete_ne; [congruence|done]]. }
  split_and!; [|exact (safe_sub _ _ _ Hs Hsub)|done]. split; simpl; try done.
  - apply (closed_remove (entries t)); [done..|]. intros q x [e Hq] Hnone.
    destruct (decide (q = d ++ [c])) as [->|Hne]; [|rewrite lookup_delete_ne in Hnone; congruence].
    rewrite lookup_delete_ne.
    { intros E%(f_equal length). rewrite !length_app /= in E. lia. }
    destruct (entries t !! ((d ++ [c]) ++ [x])) eqn:E; [|done].
    assert (Hd : is_dir_entry (entry_at (entries t) (d ++ [c])) = true) by (apply (Hc (d ++ [c]) x); by rewrite E).
    rewrite entry_at_snoc in Hd. congruence.
  - destruct R as [|x r] eqn:E; [done|]. simpl. rewrite lookup_delete_ne; [|done]. intros E'.
    apply prefix_length in Hin. rewrite -E' length_app /= in Hin. lia.
  - intros q Hq. rewrite lookup_delete_ne; [|by apply Ho]. intros <-. apply Hq. by apply prefix_app_r.
  - intros q i Hq. destruct (Hsub q) as [-> | ->]; [done|by apply Hf].
Qed.

(** What a removal leaves. *)
Definition removed d c {E : Type} (o : outcome E ()) (t : Tree) : Prop :=
  K d t ∧ (o = Ret tt → entries t !! (d ++ [c]) = None).

Lemma remove_file_K d c : triple (K d) (remove_file (d ++ [c])) (removed d c).
Proof.
  apply triple_simple; [apply K_tick|done|]. intros t [] t' HK. simpl.
  destruct (locate (entries t) (d ++ [c])) as [q|] eqn:El; [|done]. simpl.
  apply locate_literal in El as [-> Hd]; [|apply HK]. rewrite entry_at_snoc.
  destruct (entries t !! (d ++ [c])) as [[]|] eqn:En; try done; intros [= <-]; (split; [|intros _; apply lookup_delete_eq]);
    apply K_delete; rewrite ?En; done.
Qed.

Lemma remove_dir_all_K d c : triple (K d) (remove_dir_all (d ++ [c])) (removed d c).
Proof.
  intros t HK. unfold wp, remove_dir_all, op. pose proof (K_tick d t HK) as HK'.
  destruct (fault (t_ops t)) as [[e keep]|].
  - destruct (locate (entries (tick t)) (d ++ [c])) as [q|] eqn:El; [|by split].
    apply locate_literal in El as [-> Hd]; [|apply HK]. split; [|done]. apply K_remove; [done|].
    intros p x Hp. by apply survives_snoc.
  - destruct (locate (entries (tick t)) (d ++ [c])) as [q|] eqn:El; simpl; [|by split].
    apply locate_literal in El as [-> Hd]; [|apply HK]. rewrite entry_at_snoc.
    change (entries (tick t)) with (entries t).
    destruct (entries t !! (d ++ [c])) as [[]|] eqn:En; simpl; try (by split).
    + split; [by apply (K_remove d c (λ _, false) (tick t))|]. intros _. simpl. rewrite without_lookup.
      by rewrite bool_decide_eq_true_2.
    + split; [|intros _; apply lookup_delete_eq]. apply (K_delete d c (tick t)); [done|]. simpl. by rewrite En.
Qed.

Lemma drop_pre {E A : Type} (P X : Tree → Prop) (m : M Tree E A) Q : triple P m Q → triple (λ t, P t ∧ X t) m Q.
Proof. intros Hm t [H _]. by apply Hm. Qed.

Lemma drop_post {E A : Type} (P : Tree → Prop) (m : M Tree E A) (Q Q' : outcome E A → Tree → Prop) :
  triple P m Q → (∀ o t, Q o t → Q' o t) → triple P m Q'.
Proof. intros Hm HQ. eapply triple_on_weaken; [exact Hm|auto|exact HQ]. Qed.

Lemma io_removed d c m : triple (K d) m (removed d c) → triple (K d) (io m) (removed d c).
Proof. intros Hm. apply triple_on_mapE. eapply drop_post; [exact Hm|].
  intros [[]| |] t [H1 H2]; (split; [exact H1|]); [intros _; by apply H2|discriminate..].
Qed.

Lemma remove_path_if_exists_K d c : triple (K d) (remove_path_if_exists (d ++ [c])) (removed d c).
Proof.
  eapply triple_on_bind; [apply lstat_K| |by intros e t []|by intros t []].
  intros [[]|[]]; try (by apply drop_pre, triple_on_throw).
  - apply drop_pre, io_removed, remove_dir_all_K.
  - apply drop_pre, io_removed, remove_file_K.
  - apply drop_pre, io_removed, remove_file_K.
  - apply triple_on_ret. by intros t [].
Qed.

(** ** The checks *)

Lemma check_components_K rest : ∀ d,
  ".." ∉ rest →
  triple (K d) (check_components d rest) (λ o t, inv t ∧ (o = Ret tt → K (d ++ rest) t)).
Proof.
  induction rest as [|c rest IH]; intros d Hdots; simpl.
  - apply triple_on_ret. rewrite app_nil_r. intros t HK. split; [apply HK|by intros _].
  - apply not_elem_of_cons in Hdots as [Hc Hdots].
    eapply triple_on_bind; [apply lstat_K| |by intros e t []|intros t [[Hi _] _]; done].
    assert (Hnext : ∀ t, K d t → (∀ target, entries t !! (d ++ [c]) ≠ Some (ESym target)) → K (d ++ [c]) t).
    { intros t (Hi & Hs & Hin) Hl. split_and!; [done|apply safe_snoc; [done|congruence|done]|by apply prefix_app_r]. }
    assert (Hgo : triple (K (d ++ [c])) (check_components (d ++ [c]) rest)
      (λ o t, inv t ∧ (o = Ret tt → K (d ++ c :: rest) t))).
    { specialize (IH (d ++ [c]) Hdots). by rewrite -app_assoc in IH. }
    intros [[]|e].
    + eapply triple_on_weaken; [exact Hgo| |auto]. intros t [HK He]. apply Hnext; [done|]. congruence.
    + eapply triple_on_weaken; [exact Hgo| |auto]. intros t [HK He]. apply Hnext; [done|]. congruence.
    + apply triple_on_throw. intros t [[Hi _] _]. done.
    + eapply triple_on_weaken; [exact Hgo| |auto]. intros t [HK He]. apply Hnext; [done|]. congruence.
Qed.

Lemma strip_path_some (q p r : Path) : strip_path q p = Some r → p = q ++ r.
Proof.
  revert p. induction q as [|x q IH]; intros p; simpl; [by intros [= ->]|].
  destruct p as [|y p]; [done|]. case_decide as E; [|done]. intros H. subst y. by rewrite (IH p H).
Qed.

(** [target] may be worked on: it is below the root, in a directory that no
    link leads to. *)
Definition checked (target : Path) {A : Type} (o : outcome OciError A) (t : Tree) : Prop :=
  inv t ∧ (∀ a, o = Ret a → ∃ d c, target = d ++ [c] ∧ K d t).

Lemma inv_K_root t : inv t → K R t.
Proof.
  intros Hi. split_and!; [done| |done]. split; [done|]. intros q target Hne Hq E.
  pose proof (inv_above t q Hi Hq) as Hd. destruct q as [|x q]; [done|]. simpl in Hd. by rewrite E in Hd.
Qed.

Lemma K_inv d t : K d t → inv t.
Proof. by intros [Hi _]. Qed.

Lemma parent_snoc (d : Path) c : parent (d ++ [c]) = Some d.
Proof. unfold parent. rewrite removelast_last. by destruct d. Qed.

Lemma ensure_parent_safe_inv target :
  target ≠ [] → ".." ∉ target → triple inv (ensure_parent_safe R target) (checked target).
Proof.
  intros Hne Hdots. unfold ensure_parent_safe. destruct target as [|c d _] using rev_ind; [done|].
  rewrite parent_snoc. change (default R (Some d)) with d.
  destruct (strip_path R d) as [relative|] eqn:E; [|apply triple_on_throw; intros t Hi; by split].
  apply strip_path_some in E as ->.
  eapply triple_on_weaken; [apply (check_components_K relative R)|apply inv_K_root|].
  - intros H. apply Hdots. apply elem_of_app. left. apply elem_of_app. by right.
  - intros o t [Hi HK]. split; [done|]. intros [] Ho. exists (R ++ relative), c. split; [done|]. by apply HK.
Qed.

(** Work on a name once its directory was checked. *)
Lemma checked_bind {A : Type} target (m : M Tree OciError A) :
  target ≠ [] → ".." ∉ target →
  (∀ d c, target = d ++ [c] → triple (K d) m (λ _, inv)) →
  triple inv (ensure_parent_safe R target ;; m) (λ _, inv).
Proof.
  intros Hne Hdots Hm. eapply triple_on_bind; [by apply ensure_parent_safe_inv| |by intros e t []|by intros t []].
  intros [] t [_ Hc]. destruct (Hc tt eq_refl) as (d & c & Ht & HK). by apply (Hm d c Ht).
Qed.

(** Code after which only the invariant matters. *)
Lemma bind_inv {A A' : Type} (P : Tree → Prop) (m : M Tree OciError A) (k : A → M Tree OciError A') :
  triple P m (λ _, inv) → (∀ a, triple inv (k a) (λ _, inv)) → triple P (m ≫= k) (λ _, inv).
Proof. intros Hm Hk. eapply triple_on_bind; [exact Hm|exact Hk|done|done]. Qed.

Lemma bind_K {A A' : Type} d (m : M Tree OciError A) (k : A → M Tree OciError A') :
  triple (K d) m (λ _, K d) → (∀ a, triple (K d) (k a) (λ _, inv)) → triple (K d) (m ≫= k) (λ _, inv).
Proof. intros Hm Hk. eapply triple_on_bind; [exact Hm|exact Hk|by intros e t []|by intros t []]. Qed.

Lemma io_keeps {A : Type} (P : Tree → Prop) (m : M Tree IoError A) : triple P m (λ _, P) → triple P (io m) (λ _, P).
Proof. intros Hm. apply triple_on_mapE. eapply drop_post; [exact Hm|]. by intros []. Qed.

Lemma create_dir_all_keeps D p : p `prefix_of` D → triple (K D) (io (create_dir_all p)) (λ _, K D).
Proof. intros Hp. apply io_keeps. eapply drop_post; [by apply create_dir_all_K|]. by intros o t []. Qed.

Lemma on_parent_keeps d c : triple (K d) (make_parent (d ++ [c])) (λ _, K d).
Proof. unfold make_parent. rewrite parent_snoc. by apply create_dir_all_keeps. Qed.

Lemma remove_keeps d c : triple (K d) (remove_path_if_exists (d ++ [c])) (λ _, K d).
Proof. eapply drop_post; [apply remove_path_if_exists_K|]. by intros o t []. Qed.

(** *** Files *)

Lemma on_inode_inv i f t : inv t → (next_inode t0 ≤ i)%Z → inv (on_inode i f t).
Proof.
  intros [H1 H2 H3 H4 H5 H6] Hi. unfold on_inode. destruct (inodes t !! i); [|done]. split; simpl; try done.
  intros j Hj. rewrite lookup_insert_ne; [lia|by apply H5].
Qed.

Lemma inv_tick t : inv t → inv (tick t).
Proof. intros []. by split. Qed.

Lemma write_chunk_inv i data : (next_inode t0 ≤ i)%Z → triple inv (write_chunk i data) (λ _, inv).
Proof.
  intros Hi. apply triple_simple; [apply inv_tick|done|]. intros t [] t' Ht [= <-]. by apply on_inode_inv.
Qed.

Lemma fset_mode_inv i mode : (next_inode t0 ≤ i)%Z → triple inv (fset_mode i mode) (λ _, inv).
Proof.
  intros Hi. apply triple_simple; [apply inv_tick|done|]. intros t [] t' Ht [= <-]. by apply on_inode_inv.
Qed.

Lemma take_budget_inv n : triple inv (take_budget n) (λ _, inv).
Proof. intros t []. unfold wp, take_budget. destruct (_ <? 0)%Z; by split. Qed.

Lemma forM_inv {A : Type} (l : list A) (f : A → M Tree OciError ()) :
  (∀ x, triple inv (f x) (λ _, inv)) → triple inv (forM l f) (λ _, inv).
Proof. intros Hf. induction l as [|x l IH]; simpl; [by apply triple_on_ret|by apply bind_inv]. Qed.

Lemma forM_Forall {A : Type} (l : list A) (f : A → M Tree OciError ()) :
  Forall (λ x, triple inv (f x) (λ _, inv)) l → triple inv (forM l f) (λ _, inv).
Proof. induction 1 as [|x l Hx _ IH]; simpl; [by apply triple_on_ret|by apply bind_inv]. Qed.

Lemma copy_inv chunks broken i : (next_inode t0 ≤ i)%Z → triple inv (copy chunks broken i) (λ _, inv).
Proof.
  intros Hi. apply bind_inv.
  - apply forM_inv. intros chunk. apply bind_inv; [apply take_budget_inv|]. intros []. by apply io_keeps, write_chunk_inv.
  - intros []. destruct broken; [by apply triple_on_throw|by apply triple_on_ret].
Qed.

Lemma create_new_K d c mode :
  triple (K d) (create_new (d ++ [c]) mode) (λ o t, inv t ∧ ∀ i, o = Ret i → (next_inode t0 ≤ i)%Z).
Proof.
  apply triple_simple; [apply K_tick|by intros e t [Hi _]|]. intros t i t' HK. simpl.
  destruct (locate (entries t) (d ++ [c])) as [q|] eqn:El; [|done]. simpl.
  apply locate_literal in El as [-> Hd]; [|apply HK]. rewrite entry_at_snoc.
  destruct (entries t !! (d ++ [c])) eqn:En; [done|]. intros [= <- <-].
  destruct (K_put d c (EReg (next_inode t)) t HK Hd En) as ([H1 H2 H3 H4 H5 H6] & _).
  { intros i [= <-]. left. apply (inv_next t). apply HK. }
  simpl in *.
  split; [|by intros i [= <-]]. split; simpl; try done; [lia|].
  intros j Hj. rewrite lookup_insert_ne; [lia|by apply H5].
Qed.

Lemma write_regular_file_inv target mode chunks broken :
  target ≠ [] → ".." ∉ target → triple inv (write_regular_file R target mode chunks broken) (λ _, inv).
Proof.
  intros Hne Hdots. apply checked_bind; [done..|]. intros d c ->.
  apply bind_K; [apply on_parent_keeps|]. intros [].
  apply bind_K; [apply remove_keeps|]. intros [].
  eapply triple_on_bind with (R := λ o t, inv t ∧ ∀ i, o = Ret i → (next_inode t0 ≤ i)%Z);
    [|intros i|by intros e t []|by intros t []].
  - apply triple_on_mapE. eapply drop_post; [apply create_new_K|].
    intros [i|e|] t [H1 H2]; (split; [done|]); [|done..]. intros j [= <-]. by apply H2.
  - intros t [Hi Hn]. specialize (Hn i eq_refl). revert t Hi.
    apply (bind_inv inv); [by apply copy_inv|]. intros []. apply triple_on_ignore.
    eapply drop_post; [by apply fset_mode_inv|]. by intros [].
Qed.

Lemma chmod_inv target mode :
  triple (λ t, K target t ∧ is_dir_entry (entry_at (entries t) target) = true) (chmod target mode) (λ _, inv).
Proof.
  apply triple_simple.
  - intros t [HK Hd]. split; [by apply K_tick|done].
  - by intros e t [[Hi _] _].
  - intros t [] t' [(Hi & Hs & Hin) Hd]. destruct (real (entries t) target) as [q|] eqn:E; [|done].
    apply real_literal in E as ->; [|done]. simpl. destruct target as [|x p]; [by apply prefix_nil_inv in Hin|].
    simpl in *. destruct (entries t !! (x :: p)) as [[m| |]|] eqn:En; try done. intros [= <-].
    destruct Hi as [Hc Hr Ho Hn Hi Hf].
    assert (Hat : ∀ q, is_dir_entry (entry_at (<[x :: p := EDir mode]> (entries t)) q) = is_dir_entry (entry_at (entries t) q)).
    { intros [|y q]; [done|]. simpl. destruct (decide (y :: q = x :: p)) as [->|].
      - by rewrite lookup_insert_eq En.
      - rewrite lookup_insert_ne; [congruence|done]. }
    split; simpl; try done.
    + intros q c Hq. rewrite Hat. apply (Hc q c). destruct (decide (q ++ [c] = x :: p)) as [->|]; [by rewrite En|].
      rewrite lookup_insert_ne in Hq; [congruence|done].
    + by rewrite Hat.
    + intros q Hq. rewrite lookup_insert_ne; [by intros <-|by apply Ho].
    + intros q i Hq. destruct (decide (q = x :: p)) as [->|]; [by rewrite lookup_insert_eq|].
      rewrite lookup_insert_ne; [congruence|by apply Hf].
Qed.

(** *** Directories *)

Lemma K_snoc d c t :
  K d t → c ≠ ".." → (∀ target, entries t !! (d ++ [c]) ≠ Some (ESym target)) → K (d ++ [c]) t.
Proof. intros (Hi & Hs & Hin) Hc Hl. split_and!; [done|by apply safe_snoc|by apply prefix_app_r]. Qed.

(** A link or a file in the place of a directory goes first. *)
Lemma clear_directory_K d c :
  c ≠ ".." →
  triple (K d) (clear_directory (d ++ [c])) (λ o t, inv t ∧ (o = Ret tt → K (d ++ [c]) t)).
Proof.
  intros Hc. eapply triple_on_bind; [apply lstat_K| |by intros e t []|intros t [[Hi _] _]; by split].
  assert (Hrem : triple (K d) (remove_path_if_exists (d ++ [c])) (λ o t, inv t ∧ (o = Ret tt → K (d ++ [c]) t))).
  { eapply drop_post; [apply remove_path_if_exists_K|]. intros o t [HK Hn]. split; [apply HK|]. intros Ho.
    apply K_snoc; [done..|]. by rewrite Hn. }
  assert (Hret : ∀ X : Tree → Prop, (∀ t, X t → ∀ target, entries t !! (d ++ [c]) ≠ Some (ESym target)) →
    triple (λ t, K d t ∧ X t) (mret tt : M Tree OciError ()) (λ o t, inv t ∧ (o = Ret tt → K (d ++ [c]) t))).
  { intros X HX. apply triple_on_ret. intros t [HK Hx]. split; [apply HK|]. intros _. by apply K_snoc; [| |apply HX]. }
  intros [[m| |]|[]]; try (apply triple_on_throw; intros t [[Hi _] _]; by split).
  - apply Hret. by intros t ->.
  - by apply drop_pre.
  - by apply drop_pre.
  - apply Hret. by intros t ->.
Qed.

Lemma ensure_directory_inv target mode :
  target ≠ [] → ".." ∉ target → triple inv (ensure_directory R target mode) (λ _, inv).
Proof.
  intros Hne Hdots. apply checked_bind; [done..|]. intros d c ->.
  assert (Hc : c ≠ "..") by (intros ->; apply Hdots; apply elem_of_app; right; by constructor).
  eapply triple_on_bind; [by apply clear_directory_K| |by intros e t []|by intros t []].
  intros []. eapply triple_on_weaken with (P := K (d ++ [c])) (Q := λ _, inv); [|by intros t [_ H]; apply H|done].
  eapply triple_on_bind with (R := λ o t, inv t ∧ ∀ a : (), o = Ret a →
      K (d ++ [c]) t ∧ is_dir_entry (entry_at (entries t) (d ++ [c])) = true).
  - apply triple_on_mapE. eapply drop_post; [by apply create_dir_all_K|].
    intros [[]|e|] t [HK Hd]; (split; [apply HK|]); [|done..]. intros [] _. split; [done|by apply Hd].
  - intros []. destruct mode as [mode|]; [|by apply triple_on_ret; intros t []].
    apply triple_on_ignore. eapply triple_on_weaken; [apply (chmod_inv (d ++ [c]) mode)| |by intros []].
    intros t [_ H]. by apply (H tt).
  - by intros e t [].
  - by intros t [].
Qed.

Lemma ensure_regular_file_inv target mode :
  target ≠ [] → ".." ∉ target → triple inv (ensure_regular_file_exists R target mode) (λ _, inv).
Proof.
  intros Hne Hdots. apply checked_bind; [done..|]. intros d c ->.
  eapply triple_on_bind with (R := λ _, inv); [|intros r|done|done].
  { eapply drop_post; [apply lstat_K|]. intros o t [HK _]. apply HK. }
  destruct r as [[]|e]; try (by apply triple_on_ret); try (by apply write_regular_file_inv).
  case_decide; [by apply write_regular_file_inv|by apply triple_on_throw].
Qed.

(** ** Entries *)

Lemma safe_join_ok s target :
  safe_join R s = Ok target → target ≠ [] ∧ ".." ∉ target ∧ R `prefix_of` target.
Proof.
  unfold safe_join. destruct (absolute s); [done|]. simpl. case_bool_decide as Hd; [done|]. intros [= <-].
  split_and!; [by destruct R|set_solver|by apply prefix_app_r].
Qed.

Lemma lift_join_inv {A : Type} (P : Tree → Prop) s (k : Path → M Tree OciError A) :
  (∀ t, P t → inv t) →
  (∀ target, target ≠ [] → ".." ∉ target → R `prefix_of` target → triple P (k target) (λ _, inv)) →
  triple P (lift_result (safe_join R s) ≫= k) (λ _, inv).
Proof.
  intros HP Hk. destruct (safe_join R s) as [target|e] eqn:E.
  - apply safe_join_ok in E as (H1 & H2 & H3). exact (Hk target H1 H2 H3).
  - intros t Ht. exact (HP t Ht).
Qed.

Lemma handle_whiteout_inv path : triple inv (handle_whiteout R path) (λ _, inv).
Proof.
  unfold handle_whiteout. destruct (file_name (components path)) as [name|]; [|by apply triple_on_ret].
  case_decide.
  - apply lift_join_inv; [done|]. intros d Hne Hdots Hin. apply checked_bind.
    + by destruct d.
    + intros [?|?%list_elem_of_singleton]%elem_of_app; done.
    + intros d' c [<- <-]%app_inj_tail. 
      apply bind_K; [intros t HK; by apply K_tick|]. intros there.
      apply (bind_inv (K d)); [|intros []; by apply triple_on_ret]. destruct there; [|by apply triple_on_ret; intros t []].
      apply bind_K.
      { apply io_keeps, triple_simple; [apply K_tick|done|]. intros t a t' HK. simpl.
        destruct (real (entries t) d) as [q|]; [|done]. simpl. destruct (entry_at (entries t) q) as [[]|]; try done.
        by intros [= _ <-]. }
      intros children. eapply drop_post with (Q := λ _, K d); [|by intros o t []].
      induction children as [|x l IH]; cbn [forM]; [by apply triple_on_ret|].
      eapply triple_on_bind; [apply remove_keeps|intros []; exact IH|done|done].
  - destruct (strip_prefix ".wh." name) as [stripped|]; [|by apply triple_on_ret].
    apply lift_join_inv; [done|]. intros target Hne Hdots Hin. apply checked_bind; [done..|]. intros d c ->.
    apply bind_K; [apply remove_keeps|]. intros []. apply triple_on_ret. by intros t [].
Qed.

Lemma io_result_inv {A : Type} (r : result IoError A) : triple inv (io_result r) (λ _, inv).
Proof. by apply triple_on_lift. Qed.

Lemma link_target_inv path e : triple inv (link_target path e) (λ _, inv).
Proof. apply bind_inv; [apply io_result_inv|]. intros link. by apply triple_on_lift. Qed.

Lemma link_target_keeps (P : Tree → Prop) path e : triple P (link_target path e) (λ _, P).
Proof.
  unfold link_target, io_result. eapply triple_on_bind with (R := λ _, P); [by apply triple_on_lift| |done|done].
  intros link. by apply triple_on_lift.
Qed.

Lemma extract_symlink_K path e d c : triple (K d) (extract_symlink path e (d ++ [c])) (λ _, inv).
Proof.
  apply bind_K; [apply link_target_keeps|]. intros name.
  apply bind_K; [apply on_parent_keeps|]. intros []. apply bind_K; [apply remove_keeps|]. intros [].
  eapply drop_post with (Q := λ _, K d); [|by intros o t []].
  apply io_keeps. eapply drop_post; [by apply put_new_K|]. by intros o t [].
Qed.

(** *** Code that makes no links *)

Definition no_new_link (t t' : Tree) : Prop :=
  ∀ q target, entries t' !! q = Some (ESym target) → entries t !! q = Some (ESym target).

#[local] Instance no_new_link_preorder : PreOrder no_new_link.
Proof. split; [intros t q target H; exact H|]. intros x y z Hxy Hyz q target Hq. by apply Hxy, Hyz. Qed.

Notation linkless := (steps no_new_link).

Lemma linkless_same {E A : Type} (m : M Tree E A) : (∀ t, entries (m t).2 = entries t) → linkless m.
Proof. intros H t q target. by rewrite H. Qed.

Lemma linkless_lstat p : linkless (lstat p).
Proof. apply linkless_same. intros t. unfold lstat. destruct (stat_fault _); [done|]. by case_match. Qed.

Lemma linkless_simple {A : Type} (run : Tree → result IoError (A * Tree)) :
  (∀ t a t', run t = Ok (a, t') → no_new_link t t') → linkless (simple run).
Proof.
  intros Hr t. unfold simple, op. destruct (fault _) as [[e keep]|]; [done|].
  destruct (run (tick t)) as [[a t']|] eqn:E; [|done]. simpl. by apply Hr in E.
Qed.

Lemma linkless_mkdir p : linkless (mkdir p).
Proof.
  apply linkless_simple. intros t [] t'. destruct (locate (entries t) p) as [q|]; [|done]. simpl.
  destruct (entry_at (entries t) q); [done|]. intros [= <-] q' target. simpl.
  destruct (decide (q' = q)) as [->|]; [by rewrite lookup_insert_eq|rewrite lookup_insert_ne; [congruence|done]].
Qed.

Lemma linkless_is_dir {E : Type} p : linkless (is_dir p : M Tree E bool).
Proof. by apply linkless_same. Qed.

Lemma linkless_create_dir_all p : linkless (create_dir_all p).
Proof.
  assert (Hgo : ∀ n p, linkless (create_dir_all_go n p)).
  { intros n. induction n as [|n IH]; intros q; simpl;
      repeat first [ apply linkless_mkdir | apply linkless_is_dir | apply (steps_attempt no_new_link)
                   | apply (steps_ret no_new_link) | apply (steps_throw no_new_link) | apply IH
                   | apply (steps_bind no_new_link); [|intros ?] | case_match ]. }
  unfold create_dir_all. destruct p; [apply (steps_ret no_new_link)|apply Hgo].
Qed.

Lemma no_new_link_delete q t : no_new_link t (with_entries (delete q (entries t)) t).
Proof.
  intros q' target. simpl. destruct (decide (q' = q)) as [->|]; [by rewrite lookup_delete_eq|].
  rewrite lookup_delete_ne; [congruence|done].
Qed.

Lemma no_new_link_without q keep t : no_new_link t (with_entries (without q keep (entries t)) t).
Proof. intros q' target. simpl. rewrite without_lookup. by case_bool_decide. Qed.

Lemma linkless_remove_file p : linkless (remove_file p).
Proof.
  apply linkless_simple. intros t [] t'. destruct (locate (entries t) p) as [q|]; [|done]. simpl.
  destruct (entry_at (entries t) q) as [[]|]; try done; intros [= <-]; apply no_new_link_delete.
Qed.

Lemma linkless_remove_dir_all p : linkless (remove_dir_all p).
Proof.
  intros t. unfold remove_dir_all, op. destruct (fault _) as [[e keep]|].
  - simpl. destruct (locate (entries t) p); [apply (no_new_link_without _ _ (tick t))|done].
  - simpl. destruct (locate (entries t) p) as [q|]; [|done]. simpl. destruct (entry_at (entries t) q) as [[]|]; try done; simpl.
    + apply (no_new_link_without _ _ (tick t)).
    + apply (no_new_link_delete _ (tick t)).
Qed.

Lemma linkless_remove p : linkless (remove_path_if_exists p).
Proof.
  unfold remove_path_if_exists, io.
  repeat first [ apply linkless_lstat | apply linkless_remove_file | apply linkless_remove_dir_all
               | apply (steps_attempt no_new_link) | apply (steps_mapE no_new_link) | apply (steps_ret no_new_link)
               | apply (steps_throw no_new_link) | apply (steps_bind no_new_link); [|intros ?] | case_match ].
Qed.

Lemma linkless_on_parent p : linkless (make_parent p).
Proof.
  unfold make_parent, io. case_match; [apply (steps_mapE no_new_link), linkless_create_dir_all|apply (steps_ret no_new_link)].
Qed.

Lemma linkless_check p : linkless (ensure_parent_safe R p).
Proof.
  assert (Hgo : ∀ l d, linkless (check_components d l)).
  { intros l. induction l as [|c l IH]; intros d; cbn [check_components]; [apply (steps_ret no_new_link)|].
    apply (steps_bind no_new_link); [apply (steps_attempt no_new_link), linkless_lstat|].
    intros [[]|]; first [apply IH|apply (steps_throw no_new_link)]. }
  unfold ensure_parent_safe. case_match; [apply Hgo|apply (steps_throw no_new_link)].
Qed.

Lemma safe_linkless t t' p : safe (entries t) p → no_new_link t t' → safe (entries t') p.
Proof. intros [Hd Hs] Hn. split; [done|]. intros q target Hne Hq E. by apply (Hs q target Hne Hq), Hn. Qed.

(** Such code keeps the way to a second directory safe. *)
Lemma keeps_second {E A : Type} (P : Tree → Prop) (m : M Tree E A) (Q : outcome E A → Tree → Prop) p :
  triple P m Q → linkless m →
  triple (λ t, P t ∧ safe (entries t) p) m (λ o t, Q o t ∧ safe (entries t) p).
Proof.
  intros Hm Hn t [HP Hs]. specialize (Hm t HP). specialize (Hn t). unfold wp in *. destruct (m t) as [o t'].
  split; [done|]. by apply (safe_linkless t).
Qed.

(** *** Hard links *)

Lemma hard_link_K ds cs d c :
  inside ds →
  triple (λ t, K d t ∧ safe (entries t) ds) (hard_link (ds ++ [cs]) (d ++ [c])) (λ _, inv).
Proof.
  intros Hds. apply triple_simple; [intros t [HK Hs]; split; [by apply K_tick|done]|by intros e t [[Hi _] _]|].
  intros t [] t' [HK Hs]. simpl.
  destruct (locate (entries t) (ds ++ [cs])) as [s|] eqn:Es; [|done]. apply locate_literal in Es as [-> _]; [|done]. simpl.
  rewrite entry_at_snoc. destruct (entries t !! (ds ++ [cs])) as [e|] eqn:Ee; [|done].
  destruct (locate (entries t) (d ++ [c])) as [q|] eqn:El; [|by destruct e].
  apply locate_literal in El as [-> Hd]; [|apply HK]. simpl. rewrite entry_at_snoc.
  destruct (entries t !! (d ++ [c])) eqn:En; [by destruct e|].
  assert (Hown : ∀ i, e = EReg i → own_file i).
  { intros i ->. apply (inv_files t (proj1 HK) (ds ++ [cs])); [by apply prefix_app_r|done]. }
  destruct e; [done| |]; intros [= <-]; apply (K_put d c _ t HK Hd En Hown).
Qed.

Lemma both_checked source d :
  source ≠ [] → ".." ∉ source →
  triple (K d) (ensure_parent_safe R source)
    (λ o t, K d t ∧ ∀ a, o = Ret a → ∃ ds cs, source = ds ++ [cs] ∧ K ds t).
Proof.
  intros Hne Hdots t (Hi & Hs & Hin).
  pose proof (keeps_second inv _ _ d (ensure_parent_safe_inv source Hne Hdots) (linkless_check source) t (conj Hi Hs)) as H.
  unfold wp in *. destruct (ensure_parent_safe R source t) as [o t']. destruct H as [[Hi' Hc] Hs']. by split.
Qed.

Lemma lstat_keeps (P : Tree → Prop) p : (∀ t, P t → P (tick t)) → triple P (lstat p) (λ _, P).
Proof. intros HP t Ht. unfold wp, lstat. destruct (stat_fault _); [by apply HP|].
  destruct (_ <-? _ ;; _)%rust; by apply HP.
Qed.

Lemma replace_by_link_K ds cs d c :
  inside ds →
  triple (λ t, K d t ∧ safe (entries t) ds)
    (make_parent (d ++ [c]) ;; remove_path_if_exists (d ++ [c]) ;; io (hard_link (ds ++ [cs]) (d ++ [c]))) (λ _, inv).
Proof.
  intros Hin. eapply triple_on_bind; [apply keeps_second; [apply on_parent_keeps|apply linkless_on_parent]|intros []
    |by intros e t [[Hi _] _]|by intros t [[Hi _] _]].
  eapply triple_on_bind; [apply keeps_second; [apply remove_keeps|apply linkless_remove]|intros []
    |by intros e t [[Hi _] _]|by intros t [[Hi _] _]].
  apply triple_on_mapE. eapply drop_post; [by apply hard_link_K|]. by intros [].
Qed.

Lemma link_checked_K ds cs d c :
  inside ds →
  triple (λ t, K d t ∧ safe (entries t) ds)
    (found ← io (lstat (ds ++ [cs]));
     match found with
     | ESym _ => throw (UnsafeArchivePath (display (ds ++ [cs])))
     | _ => make_parent (d ++ [c]) ;; remove_path_if_exists (d ++ [c]) ;; io (hard_link (ds ++ [cs]) (d ++ [c]))
     end) (λ _, inv).
Proof.
  intros Hin. eapply triple_on_bind with (R := λ _ t, K d t ∧ safe (entries t) ds);
    [|intros found|by intros e t [[Hi _] _]|by intros t [[Hi _] _]].
  - apply io_keeps, lstat_keeps. intros t [HK Hs]. split; [by apply K_tick|exact Hs].
  - destruct found; [by apply replace_by_link_K|by apply replace_by_link_K|]. apply triple_on_throw. by intros t [[Hi _] _].
Qed.

Lemma link_from_K source d c :
  source ≠ [] → ".." ∉ source → triple (K d) (link_from R source (d ++ [c])) (λ _, inv).
Proof.
  intros Hne Hdots. eapply triple_on_bind; [by apply both_checked| |by intros e t [[Hi _] _]|by intros t [[Hi _] _]].
  intros [] t [HK Hex]. destruct (Hex tt eq_refl) as (ds & cs & -> & Hi & Hs & Hin).
  exact (link_checked_K ds cs d c Hin t (conj HK Hs)).
Qed.

Lemma extract_hard_link_K path e d c : triple (K d) (extract_hard_link R path e (d ++ [c])) (λ _, inv).
Proof.
  apply bind_K; [apply link_target_keeps|]. intros name.
  apply lift_join_inv; [apply K_inv|]. intros source Hne Hdots Hin. by apply link_from_K.
Qed.

Lemma extract_entry_inv entry : triple inv (extract_entry R entry) (λ _, inv).
Proof.
  apply bind_inv; [apply io_result_inv|]. intros e. apply bind_inv; [apply io_result_inv|]. intros path.
  destruct (is_current_dir path); [by apply triple_on_ret|].
  apply bind_inv; [apply handle_whiteout_inv|]. intros [|]; [by apply triple_on_ret|].
  apply lift_join_inv; [done|]. intros target Hne Hdots Hin. apply checked_bind; [done..|]. intros d c ->.
  assert (Hmode : ∀ (m : Z → M Tree OciError ()), (∀ mode, triple inv (m mode) (λ _, inv)) →
    triple (K d) (io_result (te_mode e) ≫= m) (λ _, inv)).
  { intros m Hm. eapply triple_on_weaken with (P := inv) (Q := λ _, inv); [|by apply K_inv|done].
    apply bind_inv; [apply io_result_inv|exact Hm]. }
  unfold extract_at. destruct (te_type e).
  - apply Hmode. intros mode. by apply write_regular_file_inv.
  - apply extract_hard_link_K.
  - apply extract_symlink_K.
  - by apply triple_on_ret; intros t [].
  - by apply triple_on_ret; intros t [].
  - apply Hmode. intros mode. by apply ensure_directory_inv.
  - by apply triple_on_ret; intros t [].
  - by apply triple_on_throw; intros t [].
Qed.

Lemma unpack_inv layers : triple inv (unpack R layers) (λ _, inv).
Proof.
  assert (Hlit : ∀ l : Path, l ≠ [] → ".." ∉ l → R ++ l ≠ [] ∧ ".." ∉ R ++ l).
  { intros l Hne Hd. split; [by destruct R|]. by intros [?|?]%elem_of_app. }
  apply bind_inv; [apply forM_inv; intros l; apply forM_inv, extract_entry_inv|]. intros [].
  apply bind_inv.
  - apply forM_Forall, Forall_forall. intros dir Hdir. apply ensure_directory_inv; (apply Hlit; [done|]);
      intros <-%list_elem_of_singleton; revert Hdir; apply (bool_decide_unpack _); by vm_compute.
  - intros []. apply ensure_regular_file_inv; apply Hlit; try done; apply (bool_decide_unpack _); by vm_compute.
Qed.
End inv.

(** C11. Unpacking any layers into a directory that can be reached without links, as
    long as the status of a file that is there can be read: whatever else fails,
    nothing outside the directory is created, changed or removed; the files there
    were keep their contents and modes; and a file seen in the directory was
    unpacked there or had a name there before.  A status that cannot be read is
    taken for no file, and then a link leads outside ([unreadable_status_escapes]). *)
Theorem unpack_stays_inside `{!Faults} (rootfs : Path) (layers : list (list (result IoError TarEntry))) (t : Tree) :
  rootfs ≠ [] → ".." ∉ rootfs → closed (entries t) → is_dir_entry (entry_at (entries t) rootfs) = true →
  (∀ n, stat_fault n = None) →
  let t' := (unpack rootfs layers t).2 in
  (∀ q, ¬ rootfs `prefix_of` q → entries t' !! q = entries t !! q) ∧
  (∀ i, (i < next_inode t)%Z → inodes t' !! i = inodes t !! i) ∧
  (∀ q i, rootfs `prefix_of` q → entries t' !! q = Some (EReg i) →
     (next_inode t ≤ i)%Z ∨ ∃ q0, rootfs `prefix_of` q0 ∧ entries t !! q0 = Some (EReg i)).
Proof.
  intros Hne Hdots Hc Hd Hstat t'.
  assert (Hinv : inv rootfs t t) by (split; try done; [lia|]; intros q i Hq Hi; right; eauto).
  pose proof (unpack_inv rootfs t Hne Hdots Hstat layers t Hinv) as Hw. unfold wp in Hw. subst t'.
  destruct (unpack rootfs layers t) as [o t']. destruct Hw as [_ _ Ho _ Hi Hf]. by split_and!.
Qed.

(** ** A hostile image *)

#[local] Instance no_faults : Faults := {| fault _ := None; stat_fault _ := None; umask := 18 |}.

Definition file_entry (path data : string) : result IoError TarEntry :=
  Ok (mkTarEntry (Ok path) Regular (Ok 420%Z) (Ok None) [data] None).
Definition link_entry (path target : string) : result IoError TarEntry :=
  Ok (mkTarEntry (Ok path) Symlink (Ok 420%Z) (Ok (Some target)) [] None).

(** A host with a file in /etc, and an empty root file system. *)
Definition demo_tree : Tree :=
  mkTree {[ ["etc"] := EDir 493; ["etc"; "passwd"] := EReg 0; ["root"] := EDir 493 ]}
    {[ 0%Z := mkInode 420 "root" ]} 1 MAX_UNPACKED_IMAGE_BYTES 0.

(** A link out of the root, and a file through it. *)
Definition demo_layer : list (result IoError TarEntry) :=
  [file_entry "bin/sh" "sh"; link_entry "out" "/etc"; file_entry "out/passwd" "pwned"].

Lemma demo_tree_closed : closed (entries demo_tree).
Proof.
  assert (H : map_Forall (λ p _, is_dir_entry (entry_at (entries demo_tree) (removelast p)) = true) (entries demo_tree))
    by (apply (bool_decide_unpack _); vm_compute; exact I).
  intros q c [e He]. specialize (H _ _ He). cbn beta in H. by rewrite removelast_last in H.
Qed.

Lemma unpack_stays_inside_witness :
  let t' := (unpack ["root"] [demo_layer] demo_tree).2 in
  entries t' !! ["root"; "out"] = Some (ESym "/etc") ∧ entries t' !! ["etc"; "passwd"] = Some (EReg 0) ∧
  inodes t' !! 0%Z = Some (mkInode 420 "root").
Proof.
  split; [vm_compute; reflexivity|].
  destruct (unpack_stays_inside ["root"] [demo_layer] demo_tree ltac:(done) ltac:(set_solver) demo_tree_closed eq_refl
    (λ _, eq_refl)) as (Ho & Hi & _). split.
  - rewrite Ho; [|vm_compute; reflexivity]. intros [k E]. discriminate.
  - rewrite Hi; [done|vm_compute; reflexivity].
Defined.

(** A name whose status cannot be read counts as no link: one failure of
    [lstat] lets the second entry through the link of the first, and a file of
    the host is replaced. *)
Example unreadable_status_escapes :
  let f : Faults := {| fault _ := None; umask := 18;
    stat_fault n := if (n =? 4)%nat then Some (IoOther "input/output error") else None |} in
  entries (unpack ["root"] [[link_entry "out" "/etc"; link_entry "out/passwd" "pwned"]] demo_tree).2 !! ["etc"; "passwd"]
  = Some (ESym "pwned").
Proof. vm_compute. reflexivity. Qed.
