(* ===== verification/ExtractBudget.v ===== *)
(** * Unpacking respects the budget of the image

    The bytes written over all layers never exceed the budget the image started
    with, whatever the archives hold and whatever fails. *)
From S2P Require Import Prelude Str Core Effect Os OciBase Tree Extract.

Local Open Scope Z_scope.

(** The bytes in the files of a tree. *)
Definition usage (t : Tree) : Z := map_fold (λ _ n acc, size (i_data n) + acc) 0 (inodes t).

Notation used ns := (map_fold (λ (_ : Z) n acc, size (i_data n) + acc) 0 ns).

Lemma used_insert (ns : gmap Z Inode) i n :
  used (<[i := n]> ns) = size (i_data n) + used (delete i ns).
Proof.
  rewrite -insert_delete_eq. apply (map_fold_insert_L (λ (_ : Z) n acc, size (i_data n) + acc));
    [intros; lia|apply lookup_delete_eq].
Qed.

Lemma used_delete (ns : gmap Z Inode) i n :
  ns !! i = Some n → used ns = size (i_data n) + used (delete i ns).
Proof.
  intros Hi. apply (map_fold_delete_L (λ (_ : Z) n acc, size (i_data n) + acc)); [intros; lia|done].
Qed.

Lemma used_delete_le (ns : gmap Z Inode) i : used (delete i ns) ≤ used ns.
Proof.
  destruct (ns !! i) as [n|] eqn:E; [rewrite (used_delete ns i n E); unfold size; lia|rewrite delete_id; [done|lia]].
Qed.

(** Nothing is gained: what was left of the budget pays for what was written. *)
Definition paid (t t' : Tree) : Prop :=
  usage t' + remaining t' ≤ usage t + remaining t ∧ (0 ≤ remaining t → 0 ≤ remaining t').

#[local] Instance paid_preorder : PreOrder paid.
Proof. split; [intros t; unfold paid; lia|]. intros x y z [H1 H2] [H3 H4]. split; [lia|auto]. Qed.

Lemma paid_same t t' : inodes t' = inodes t → remaining t' = remaining t → paid t t'.
Proof. unfold paid, usage. intros -> ->. lia. Qed.

Section budget.
Context {HF : Faults} (rootfs : Path).
Notation pays := (steps paid).

Lemma pays_same {E A : Type} (m : M Tree E A) :
  (∀ t, inodes (m t).2 = inodes t ∧ remaining (m t).2 = remaining t) → pays m.
Proof. intros H t. destruct (H t) as [H1 H2]. by apply paid_same. Qed.

Lemma pays_simple {A : Type} (run : Tree → result IoError (A * Tree)) :
  (∀ t a t', run t = Ok (a, t') → paid t t') → pays (simple run).
Proof.
  intros Hr t. unfold simple, op. destruct (fault _) as [[e keep]|]; [by apply paid_same|].
  destruct (run (tick t)) as [[a t']|] eqn:E; [|by apply paid_same]. simpl. apply Hr in E. exact E.
Qed.

(** Calls that leave the files alone. *)
Lemma pays_names {A : Type} (run : Tree → result IoError (A * Tree)) :
  (∀ t a t', run t = Ok (a, t') → inodes t' = inodes t ∧ remaining t' = remaining t) → pays (simple run).
Proof.
  intros Hr. apply pays_simple. intros t a t' H. destruct (Hr t a t' H) as [H1 H2]. by apply paid_same.
Qed.

Ltac run_cases :=
  repeat match goal with
  | |- (result_bind ?r _ = _ → _) => destruct r; simpl; [|done]
  | |- (match ?e with _ => _ end = _ → _) => destruct e; try done
  | |- (Ok _ = Ok _ → _) => intros [= <- <-]; try done
  end.

Lemma pays_put_new p e : pays (put_new p e).
Proof. apply pays_names. intros t a t'. run_cases. Qed.
Lemma pays_lstat p : pays (lstat p).
Proof. apply pays_same. intros t. unfold lstat. destruct (stat_fault _); [done|]. by destruct (_ <-? _ ;; _)%rust. Qed.
Lemma pays_is_dir {E : Type} p : pays (is_dir p : M Tree E bool).
Proof. by apply pays_same. Qed.
Lemma pays_exists {E : Type} p : pays (exists_path p : M Tree E bool).
Proof. by apply pays_same. Qed.
Lemma pays_remove_file p : pays (remove_file p).
Proof. apply pays_names. intros t a t'. run_cases. Qed.
Lemma pays_read_dir p : pays (read_dir p).
Proof. apply pays_names. intros t a t'. run_cases. Qed.
Lemma pays_hard_link p q : pays (hard_link p q).
Proof. apply pays_names. intros t a t'. run_cases. Qed.

Lemma pays_remove_dir_all p : pays (remove_dir_all p).
Proof.
  apply pays_same. intros t. unfold remove_dir_all, op. destruct (fault _) as [[e keep]|]; simpl.
  - by destruct (locate (entries t) p).
  - destruct (locate (entries t) p) as [q|]; [|done]. simpl. by destruct (entry_at (entries t) q) as [[]|].
Qed.

(** A file gets new contents of at most [extra] more bytes. *)
Lemma usage_on_inode i f t extra :
  0 ≤ extra → (∀ n, size (i_data (f n)) ≤ size (i_data n) + extra) →
  usage (on_inode i f t) ≤ usage t + extra ∧ remaining (on_inode i f t) = remaining t.
Proof.
  intros He Hf. unfold on_inode, usage. destruct (inodes t !! i) as [n|] eqn:E; simpl; [|split; [lia|done]].
  split; [|done]. rewrite used_insert (used_delete (inodes t) i n E). specialize (Hf n). lia.
Qed.

Lemma pays_mode i f : (∀ n, i_data (f n) = i_data n) → ∀ t, paid t (on_inode i f t).
Proof.
  intros Hf t. destruct (usage_on_inode i f t 0) as [H1 H2]; [done|intros n; rewrite Hf; lia|]. split; [lia|by rewrite H2].
Qed.

Lemma pays_fset_mode i mode : pays (fset_mode i mode).
Proof. apply pays_simple. intros t a t' [= <- <-]. by apply pays_mode. Qed.

Lemma pays_chmod p mode : pays (chmod p mode).
Proof.
  apply pays_simple. intros t a t'. destruct (real (entries t) p) as [q|]; [|done]. simpl.
  destruct (entry_at (entries t) q) as [[]|]; try done; intros [= <- <-]; [by destruct q; apply paid_same|by apply pays_mode].
Qed.

Lemma pays_create_new p mode : pays (create_new p mode).
Proof.
  apply pays_simple. intros t a t'. destruct (locate (entries t) p) as [q|]; [|done]. simpl.
  destruct (entry_at (entries t) q); [done|]. intros [= <- <-]. unfold paid, usage. simpl. split; [|done].
  rewrite used_insert. pose proof (used_delete_le (inodes t) (next_inode t)) as Hd.
  change (size (i_data (mkInode (Z.ldiff mode umask) EmptyString))) with 0. revert Hd. generalize (used (inodes t)), (used (delete (next_inode t) (inodes t))). lia.
Qed.

(** A chunk is paid for before it is written. *)
Lemma pays_chunk i chunk : pays (take_budget (size chunk) ;; io (write_chunk i chunk)).
Proof.
  intros t. unfold mbind, M_bind, take_budget. destruct (Z.ltb_spec (remaining t - size chunk) 0); [by apply paid_same|].
  set (t1 := mkTree _ _ _ _ _). unfold io, mapE, write_chunk, simple, op.
  destruct (fault (t_ops t1)) as [[e keep]|]; simpl.
  - unfold paid, usage. simpl. unfold size in *. split; lia.
  - destruct (usage_on_inode i (λ n, mkInode (i_mode n) (i_data n ++ chunk)%string) (tick t1) (size chunk)) as [H1 H2].
    + unfold size. lia.
    + intros n. simpl. unfold size. rewrite length_app_s. lia.
    + unfold paid. rewrite H2. unfold usage in *. simpl in *. split; lia.
Qed.

Create HintDb pays discriminated.
#[local] Hint Constants Opaque : pays.
#[local] Hint Resolve pays_put_new pays_lstat pays_is_dir pays_exists pays_remove_file pays_read_dir
  pays_hard_link pays_remove_dir_all pays_fset_mode pays_chmod pays_create_new pays_chunk : pays.
#[local] Hint Resolve steps_attempt steps_ignore steps_mapE steps_ret steps_throw steps_lift steps_forM
  steps_bind paid_preorder : pays.
#[local] Hint Extern 10 (steps _ _) => case_match : pays.

Ltac pay := auto 60 with pays.

Lemma pays_create_dir_all p : pays (create_dir_all p).
Proof.
  assert (Hgo : ∀ n p, pays (create_dir_all_go n p)).
  { intros n. induction n as [|n IH]; intros q; simpl; unfold mkdir; pay. }
  unfold create_dir_all. case_match; [apply (steps_ret paid)|apply Hgo].
Qed.
#[local] Hint Resolve pays_create_dir_all : pays.

Lemma pays_check p : pays (ensure_parent_safe rootfs p).
Proof.
  assert (Hgo : ∀ l d, pays (check_components d l)).
  { intros l. induction l as [|c l IH]; intros d; simpl; pay. }
  unfold ensure_parent_safe. case_match; [apply Hgo|apply (steps_throw paid)].
Qed.
#[local] Hint Resolve pays_check : pays.

Lemma pays_remove p : pays (remove_path_if_exists p).
Proof. unfold remove_path_if_exists, io. pay. Qed.
#[local] Hint Resolve pays_remove : pays.

Lemma pays_copy chunks broken i : pays (copy chunks broken i).
Proof. unfold copy. pay. Qed.
#[local] Hint Resolve pays_copy : pays.

Lemma pays_make_parent p : pays (make_parent p).
Proof. unfold make_parent, io. case_match; [apply (steps_mapE paid), pays_create_dir_all|apply (steps_ret paid)]. Qed.
#[local] Hint Resolve pays_make_parent : pays.

Lemma pays_write p mode chunks broken : pays (write_regular_file rootfs p mode chunks broken).
Proof.
  unfold write_regular_file, io. pay.
Qed.
#[local] Hint Resolve pays_write : pays.

Lemma pays_directory p mode : pays (ensure_directory rootfs p mode).
Proof.
  unfold ensure_directory, clear_directory, set_mode, io. pay.
Qed.
#[local] Hint Resolve pays_directory : pays.

Lemma pays_whiteout path : pays (handle_whiteout rootfs path).
Proof. unfold handle_whiteout, io. pay. Qed.
#[local] Hint Resolve pays_whiteout : pays.

Lemma pays_at path e p : pays (extract_at rootfs path e p).
Proof.
  unfold extract_at, extract_symlink, extract_hard_link, link_from, link_target, io_result, io, symlink. pay.
Qed.
#[local] Hint Resolve pays_at : pays.

Lemma pays_entry entry : pays (extract_entry rootfs entry).
Proof.
  unfold extract_entry, io_result. pay.
Qed.
#[local] Hint Resolve pays_entry : pays.

Lemma pays_unpack layers : pays (unpack rootfs layers).
Proof.
  unfold unpack, ensure_mount_points, ensure_regular_file_exists, extract_layer_from_reader. pay.
Qed.
End budget.

(** C37. What unpacking leaves in files, over all the layers and whatever fails, is at
    most what was there and the budget; the budget is never overdrawn. *)
Theorem unpack_within_budget `{!Faults} (rootfs : Path) (layers : list (list (result IoError TarEntry))) (t : Tree) :
  0 ≤ remaining t →
  let t' := (unpack rootfs layers t).2 in
  0 ≤ remaining t' ∧ usage t' ≤ usage t + (remaining t - remaining t').
Proof. intros Hr t'. destruct (pays_unpack rootfs layers t) as [H1 H2]. fold t' in H1, H2. split; [auto|lia]. Qed.

(** ** A layer larger than what is left *)

#[local] Instance no_faults : Faults := {| fault _ := None; stat_fault _ := None; umask := 18 |}.

Definition small_budget : Tree := mkTree {[ ["root"] := EDir 493 ]} ∅ 0 10 0.

(** Two chunks of six bytes, ten bytes left. *)
Definition large_layer : list (result IoError TarEntry) :=
  [Ok (mkTarEntry (Ok "bomb") Regular (Ok 420) (Ok None) ["123456"; "123456"] None)].

Lemma unpack_within_budget_witness :
  let r := unpack ["root"] [large_layer] small_budget in
  r.1 = Throw (BodyTooLarge "unpacked image" MAX_UNPACKED_IMAGE_BYTES) ∧ usage r.2 = 6 ∧
  usage r.2 ≤ usage small_budget + (remaining small_budget - remaining r.2).
Proof.
  split; [vm_compute; reflexivity|]. split; [vm_compute; reflexivity|].
  refine (proj2 (unpack_within_budget ["root"] [large_layer] small_budget _)). vm_compute. discriminate.
Defined.
