(* ===== verification/Oci.v ===== *)
(** * Images: references, descriptors, digests and configuration (crates/oad-oci/src/lib.rs)

    The functions of the image client that neither read nor write: what a
    reference names, which hosts may be contacted, which names blobs and images
    have in the caches, and what the container of an image runs.  SHA-256 and
    the architecture of the host are arguments. *)
From Stdlib Require Import Btauto.
From stdpp Require Import sorting.
From S2P Require Import Prelude Str Core Os Json OciBase.

Definition DOCKER_HUB_REGISTRY : string := "registry-1.docker.io".
Definition DEFAULT_TAG : string := "latest".
Definition DEFAULT_PATH : string := "/usr/local/sbin:/usr/local/bin:/usr/sbin:/usr/bin:/sbin:/bin".
Definition GVISOR_ROOTFS_SOURCE_ANNOTATION : string := "dev.gvisor.spec.rootfs.source".
Definition GVISOR_ROOTFS_TYPE_ANNOTATION : string := "dev.gvisor.spec.rootfs.type".
Definition GVISOR_ROOTFS_OVERLAY_ANNOTATION : string := "dev.gvisor.spec.rootfs.overlay".
Definition DEFAULT_MANIFEST_CACHE_TTL : Z := 5 * 60.
Definition MAX_MANIFEST_BYTES : Z := 8 * 1024 * 1024.
Definition MAX_CONFIG_BYTES : Z := 16 * 1024 * 1024.
Definition MAX_TOKEN_BYTES : Z := 1024 * 1024.
Definition MAX_LAYER_BYTES : Z := 2 * 1024 * 1024 * 1024.
Definition MAX_LAYERS : nat := 512.
Definition MAX_REGISTRY_REDIRECTS : nat := 5.
Definition MANIFEST_ACCEPT : string := str_join ", "
  ["application/vnd.oci.image.manifest.v1+json"; "application/vnd.docker.distribution.manifest.v2+json";
   "application/vnd.oci.image.index.v1+json"; "application/vnd.docker.distribution.manifest.list.v2+json"].

(** ** References *)

Record ImageReference : Type := mkImageReference {
  registry : string; repository : string; reference : string; reference_is_digest : bool;
}.

(** The colon of a tag, after the last slash and its first character. *)
Definition tag_colon (name : string) : option nat :=
  let last_slash := match rfind "/" name with Some index => S index | None => 0 end in
  match rfind ":" name with
  | Some colon => if decide (last_slash < colon)%nat then Some colon else None
  | None => None
  end.

Definition strip_tag (name : string) : string :=
  match tag_colon name with Some colon => str_take colon name | None => name end.

Definition split_reference (input : string) : string * option string :=
  match rsplit_once "@" input with
  | Some (name, digest) => (strip_tag name, Some digest)
  | None =>
      match tag_colon input with
      | Some colon => (str_take colon input, Some (str_drop (S colon) input))
      | None => (input, None)
      end
  end.

Definition looks_like_registry (value : string) : bool :=
  bool_decide (value = "localhost") || str_contains "." value || str_contains ":" value.

Definition registry_and_repository (parts : list string) : string * string :=
  match parts with
  | first :: (_ :: _) as rest =>
      if looks_like_registry first then (first, str_join "/" rest) else (DOCKER_HUB_REGISTRY, str_join "/" parts)
  | [first] => (DOCKER_HUB_REGISTRY, "library/" ++ first)
  | [] => (DOCKER_HUB_REGISTRY, "")
  end.

Definition ImageReference_parse (input : string) : result OciError ImageReference :=
  if decide (input = "") then Err (InvalidReference input) else
  let is_digest := match rsplit_once "@" input with Some _ => true | None => false end in
  let '(name, reference) := split_reference input in
  let '(registry, repository) := registry_and_repository (split_char "/" name) in
  if decide (repository = "") then Err (InvalidReference input) else
  Ok (mkImageReference registry repository (default DEFAULT_TAG reference) is_digest).

(** ** Hosts that are never contacted *)

(** [url::Host]; an IPv4 address is a [u32], an IPv6 address its segments. *)
Inductive Host : Type :=
| Domain (domain : string)
| Ipv4 (addr : Z)
| Ipv6 (segments : list Z).

Definition octets (addr : Z) : Z * Z * Z * Z :=
  (Z.shiftr addr 24, Z.land (Z.shiftr addr 16) 255, Z.land (Z.shiftr addr 8) 255, Z.land addr 255).

Section v4.
Local Open Scope Z_scope.

(** The predicates of [std::net]. *)
Definition is_loopback (o : Z * Z * Z * Z) : bool := let '(a, _, _, _) := o in a =? 127.
Definition is_private (o : Z * Z * Z * Z) : bool :=
  let '(a, b, _, _) := o in
  (a =? 10) || ((a =? 172) && (16 <=? b) && (b <=? 31)) || ((a =? 192) && (b =? 168)).
Definition is_link_local (o : Z * Z * Z * Z) : bool := let '(a, b, _, _) := o in (a =? 169) && (b =? 254).
Definition is_multicast (o : Z * Z * Z * Z) : bool := let '(a, _, _, _) := o in (224 <=? a) && (a <=? 239).

Definition forbidden_ipv4_host (addr : Z) : bool :=
  let '(a, b, c, _) := octets addr in
  is_loopback (octets addr) || is_private (octets addr) || is_link_local (octets addr)
  || (addr =? 0) || is_multicast (octets addr) || (addr =? u32_max)
  || (a =? 0)
  || ((a =? 100) && (Z.land b 192 =? 64))
  || ((a =? 192) && (b =? 0) && (c =? 0)).

(** [Ipv6Addr::to_ipv4]. *)
Definition to_ipv4 (segments : list Z) : option Z :=
  match segments with
  | [0; 0; 0; 0; 0; m; ab; cd] => if (m =? 0) || (m =? 65535) then Some (Z.lor (Z.shiftl ab 16) cd) else None
  | _ => None
  end.

Definition forbidden_ipv6_host (segments : list Z) : bool :=
  match to_ipv4 segments with
  | Some v4 => forbidden_ipv4_host v4
  | None =>
      let first := default 0 (head segments) in
      bool_decide (segments = [0; 0; 0; 0; 0; 0; 0; 1]) || bool_decide (segments = [0; 0; 0; 0; 0; 0; 0; 0])
      || (Z.land first 65024 =? 64512) || (Z.land first 65472 =? 65152) || (Z.land first 65280 =? 65280)
  end.
End v4.

(** [to_ascii_lowercase]. *)
Definition lower_char (a : ascii) : ascii :=
  if (65 <=? code a)%Z && (code a <=? 90)%Z then chr (code a + 32) else a.
Fixpoint to_ascii_lowercase (s : string) : string :=
  match s with EmptyString => "" | String a s => String (lower_char a) (to_ascii_lowercase s) end.

Definition local_domain (domain : string) : bool :=
  bool_decide (to_ascii_lowercase domain = "localhost") || ends_with ".localhost" (to_ascii_lowercase domain).

(** [validate_remote_https_url] of a URL with this scheme and host. *)
Definition remote_https (scheme : string) (host : option Host) : bool :=
  bool_decide (scheme = "https") &&
  match host with
  | None => false
  | Some (Domain domain) => negb (local_domain domain)
  | Some (Ipv4 addr) => negb (forbidden_ipv4_host addr)
  | Some (Ipv6 segments) => negb (forbidden_ipv6_host segments)
  end.

(** ** What registries answer *)

Record Platform : Type := mkPlatform { os : string; architecture : string }.

Record Descriptor : Type := mkDescriptor {
  media_type : option string; digest : string; d_size : option Z; platform : option Platform;
}.

Record ImageManifest : Type := mkImageManifest {
  manifests : option (list Descriptor); config : option Descriptor; layers : list Descriptor;
}.

Record TokenResponse : Type := mkTokenResponse { token : option string; access_token : option string }.

(** The [config] of an image configuration. *)
Record ImageConfig : Type := mkImageConfig {
  ic_entrypoint : option (list string); ic_cmd : option (list string);
  ic_env : option (list string); ic_working_dir : option string;
}.

Definition entrypoint (c : ImageConfig) : list string := default [] (ic_entrypoint c).
Definition cmd (c : ImageConfig) : list string := default [] (ic_cmd c).

Definition env (c : ImageConfig) : list EnvVar :=
  omap (λ entry, '(name, value) ← split_once "=" entry; Some (mkEnvVar name value)) (default [] (ic_env c)).

Definition working_dir (c : ImageConfig) : option string :=
  match ic_working_dir c with Some v => if decide (v = "") then None else Some v | None => None end.

Definition descriptor_body_limit (descriptor : Descriptor) (default_limit : Z) (kind : string) : result OciError Z :=
  match d_size descriptor with
  | Some size => if (default_limit <? size)%Z then Err (BodyTooLarge kind default_limit) else Ok size
  | None => Ok default_limit
  end.

Definition oci_arch (arch : string) : string :=
  if decide (arch = "x86_64") then "amd64" else if decide (arch = "aarch64") then "arm64" else arch.

Definition runs_on (arch : string) (d : Descriptor) : bool :=
  match platform d with
  | Some p => bool_decide (os p = "linux") && bool_decide (architecture p = oci_arch arch)
  | None => false
  end.

Definition select_platform_manifest (arch : string) (manifests : list Descriptor) : result OciError Descriptor :=
  ok_or (find_first (runs_on arch) manifests) (PlatformUnavailable ("linux/" ++ oci_arch arch)).

(** ** The authentication challenge *)

Record BearerChallenge : Type := mkBearerChallenge { realm : string; service : option string; scope : option string }.

Definition challenge_piece (c : BearerChallenge) (piece : string) : BearerChallenge :=
  match split_once "=" (trim piece) with
  | None => c
  | Some (key, value) =>
      let value := trim_matches_char "034" value in
      if decide (key = "realm") then mkBearerChallenge value (service c) (scope c)
      else if decide (key = "service") then mkBearerChallenge (realm c) (Some value) (scope c)
      else if decide (key = "scope") then mkBearerChallenge (realm c) (service c) (Some value)
      else c
  end.

Definition BearerChallenge_parse (value : string) : result OciError BearerChallenge :=
  match strip_prefix "Bearer " value with
  | None => Err InvalidAuthChallenge
  | Some rest =>
      let challenge := foldl challenge_piece (mkBearerChallenge "" None None) (split_char "," rest) in
      if decide (realm challenge = "") then Err InvalidAuthChallenge else Ok challenge
  end.

(** ** Digests and the names of caches *)

Definition is_ascii_hexdigit (a : ascii) : bool :=
  is_digit a || ((65 <=? code a)%Z && (code a <=? 70)%Z) || ((97 <=? code a)%Z && (code a <=? 102)%Z).

Definition verify_digest_hex (actual expected : string) : result OciError () :=
  match strip_prefix "sha256:" expected with
  | None => Err (UnsupportedDigest expected)
  | Some hex_expected =>
      if decide (actual = hex_expected) then Ok tt else Err (DigestMismatch expected ("sha256:" ++ actual))
  end.

Definition blob_filename (digest : string) : result OciError string :=
  match strip_prefix "sha256:" digest with
  | None => Err (UnsupportedDigest digest)
  | Some hex_digest =>
      if negb (String.length hex_digest =? 64)%nat || negb (str_forallb is_ascii_hexdigit hex_digest)
      then Err (UnsupportedDigest digest)
      else Ok ("sha256-" ++ hex_digest ++ ".blob")
  end.

Section sha.
Context (sha256 : string → string).     (* hex::encode(Sha256::digest(..)) *)

Definition verify_digest (bytes expected : string) : result OciError () :=
  verify_digest_hex (sha256 bytes) expected.

Definition ROOTFS_BUILDER_VERSION : string := "2026-05-31".
Definition MANIFEST_CACHE_VERSION : string := "2026-05-31".

(** What is hashed for the name of a root file system. *)
Definition rootfs_key_text (digests : list string) : string :=
  ROOTFS_BUILDER_VERSION ++ nl ++ str_concat (map (λ d, d ++ nl) digests).

Definition rootfs_cache_key (layers : list Descriptor) : string :=
  sha256 (rootfs_key_text (map digest layers)).

Definition nul : string := String "000" "".

Definition manifest_cache_key (r : ImageReference) (manifest_ref : string) : string :=
  sha256 (MANIFEST_CACHE_VERSION ++ nul ++ registry r ++ nul ++ repository r ++ nul ++ manifest_ref).

Definition manifest_cache_path (cache_dir : Path) (r : ImageReference) (manifest_ref : string) : Path :=
  (cache_dir ++ [(manifest_cache_key r manifest_ref ++ ".json")%string])%list.
End sha.

(** Times in seconds; an entry from the future is fresh. *)
Definition manifest_cache_entry_is_fresh (modified now ttl : Z) : bool :=
  if (now <? modified)%Z then true else (now - modified <=? ttl)%Z.

Definition temp_name_text (pid n : Z) (stem : string) : string :=
  "." ++ stem ++ "." ++ show_dec pid ++ "." ++ show_dec n ++ ".tmp".

(** ** What a container runs *)

Definition resolve_args (container : ContainerSpec) (image_config : ImageConfig) : result OciError (list string) :=
  let args :=
    match ct_command container with
    | _ :: _ => argv container
    | [] =>
        match ct_args container with
        | _ :: _ => (entrypoint image_config ++ ct_args container)%list
        | [] => (entrypoint image_config ++ cmd image_config)%list
        end
    end in
  match args with [] => Err (NoCommand (ct_name container)) | _ => Ok args end.

Definition merged_map (image_env request_env : list EnvVar) : gmap string string :=
  foldl (λ m item, <[env_name item := env_value item]> m) {[ "PATH" := DEFAULT_PATH ]} (image_env ++ request_env)%list.

Definition merged_env (image_env request_env : list EnvVar) : list string :=
  map (λ '(name, value), name ++ "=" ++ value) (btree_entries (merged_map image_env request_env)).

Definition cwd_or_root (value : option string) : string :=
  match value with Some value => if starts_with "/" value then value else "/" | None => "/" end.

Record GvisorConfig : Type := mkGvisorConfig {
  container_name : string; g_args : list string; g_env : list string; g_cwd : string;
  g_rootfs : Path; g_rootfs_overlay : Path;
  network_namespace : option Path; g_resolv_conf : option Path;
  annotations : list (string * string);
}.

Definition strs (l : list string) : Value := Array (map Json.Str l).
Definition jint (n : Z) : Value := Num (NInt n).

Definition CAPABILITIES : Value := strs ["CAP_AUDIT_WRITE"; "CAP_KILL"; "CAP_NET_BIND_SERVICE"].

Definition namespaces (c : GvisorConfig) : list Value :=
  (map (λ t, obj [("type", Json.Str t)]) ["pid"; "ipc"; "uts"; "mount"] ++
   match network_namespace c with
   | Some netns => [obj [("type", Json.Str "network"); ("path", Json.Str (display netns))]]
   | None => []
   end)%list.

Definition all_annotations (c : GvisorConfig) : Value :=
  obj (map (λ '(k, v), (k, Json.Str v)) (annotations c ++
    [(GVISOR_ROOTFS_SOURCE_ANNOTATION, display (g_rootfs c)); (GVISOR_ROOTFS_TYPE_ANNOTATION, "erofs");
     (GVISOR_ROOTFS_OVERLAY_ANNOTATION, ("dir=" ++ display (g_rootfs_overlay c))%string)])%list).

Definition gvisor_config_json (c : GvisorConfig) : Value :=
  let resolv_conf := default ["etc"; "resolv.conf"] (g_resolv_conf c) in
  let mount (destination type source : string) (options : list (string * Value)) :=
    obj ([("destination", Json.Str destination); ("type", Json.Str type); ("source", Json.Str source)] ++ options)%list in
  obj [
    ("ociVersion", Json.Str "1.0.2");
    ("process", obj [
      ("terminal", Json.Bool false);
      ("user", obj [("uid", jint 0); ("gid", jint 0)]);
      ("args", strs (g_args c));
      ("env", strs (g_env c));
      ("cwd", Json.Str (g_cwd c));
      ("capabilities", obj [("bounding", CAPABILITIES); ("effective", CAPABILITIES);
                            ("inheritable", CAPABILITIES); ("permitted", CAPABILITIES)]);
      ("rlimits", Array [obj [("type", Json.Str "RLIMIT_NOFILE"); ("hard", jint 1024); ("soft", jint 1024)]]);
      ("noNewPrivileges", Json.Bool true)]);
    ("root", obj [("path", Json.Str "rootfs"); ("readonly", Json.Bool false)]);
    ("hostname", Json.Str "runsc");
    ("mounts", Array [
      mount "/proc" "proc" "proc" [];
      mount "/dev" "tmpfs" "tmpfs" [];
      mount "/sys" "sysfs" "sysfs" [("options", strs ["nosuid"; "noexec"; "nodev"; "ro"])];
      mount "/etc/resolv.conf" "bind" (display resolv_conf) [("options", strs ["ro"])]]);
    ("linux", obj [("namespaces", Array (namespaces c))]);
    ("annotations", all_annotations c)].

Lemma join_split c s : str_join (String c "") (split_char c s) = s.
Proof.
  induction s as [|a s IH]; [done|]. simpl.
  destruct (split_char c s) as [|l ls] eqn:E; [by destruct s; simpl in E; repeat case_match|].
  destruct (ascii_dec a c) as [->|_]; [simpl in *; by rewrite IH|]. revert IH.
  destruct ls; simpl; intros <-; done.
Qed.

(** ** References *)

Definition no_char (cs : list ascii) (s : string) : bool := forallb (λ c, str_forallb (not_char c) s) cs.

(** A component of a repository. *)
Definition part_ok (s : string) : bool := bool_decide (s ≠ "") && no_char ["/"; ":"; "@"]%char s.

Record legal (r : ImageReference) (parts : list string) : Prop := {
  legal_repository : repository r = str_join "/" parts;
  legal_parts : parts ≠ [] ∧ Forall (λ s, part_ok s = true) parts;
  legal_registry : looks_like_registry (registry r) = true ∧ no_char ["/"; "@"]%char (registry r) = true;
  legal_tag : reference_is_digest r = false → no_char ["/"; ":"]%char (reference r) = true;
  legal_reference : no_char ["@"]%char (reference r) = true;
}.

(** The names of a repository: in full, and as Docker Hub's are abbreviated. *)
Definition names_of (registry : string) (parts : list string) : list string :=
  (registry ++ "/" ++ str_join "/" parts) ::
  if decide (registry = DOCKER_HUB_REGISTRY) then
    match parts with
    | [library; n] => (if decide (library = "library") then [n] else []) ++
                      (if looks_like_registry library then [] else [str_join "/" parts])
    | first :: _ :: _ => if looks_like_registry first then [] else [str_join "/" parts]
    | _ => []
    end%list
  else [].

Definition suffix (r : ImageReference) : string :=
  (if reference_is_digest r then "@" else ":") ++ reference r.

(** A name ends with a component, alone or after a slash. *)
Definition named (name : string) : Prop :=
  str_forallb (not_char "@") name = true ∧
  ∃ pre last, name = pre ++ last ∧ part_ok last = true ∧ (pre = "" ∨ ∃ p, pre = p ++ "/").

Lemma no_char_forall cs s : no_char cs s = true → ∀ c, c ∈ cs → str_forallb (not_char c) s = true.
Proof. unfold no_char. rewrite forallb_forall. intros H c Hc. apply H. by apply list_elem_of_In. Qed.

Ltac no_char H := apply (no_char_forall _ _ H); repeat constructor.

Lemma part_ok_chars s c : part_ok s = true → c ∈ ["/"; ":"; "@"]%char → str_forallb (not_char c) s = true.
Proof. unfold part_ok. rewrite andb_true_iff. intros [_ H]. by apply no_char_forall. Qed.

Lemma slash_of pre last :
  part_ok last = true → (pre = "" ∨ ∃ p, pre = p ++ "/") → ∀ rest, str_forallb (not_char "/") rest = true →
  match rfind "/" (pre ++ last ++ rest) with Some index => S index | None => 0 end = String.length pre.
Proof.
  intros Hl Hpre rest Hr.
  assert (Hs : str_forallb (not_char "/") (last ++ rest) = true).
  { rewrite str_forallb_app Hr andb_true_r. apply (part_ok_chars last "/" Hl). constructor. }
  destruct Hpre as [->|[p ->]]; [by rewrite rfind_none|].
  rewrite app_assoc_s. change ("/" ++ ?x) with (String "/" x). rewrite (rfind_app "/" p _ Hs) length_app_s. simpl. lia.
Qed.

Lemma tag_colon_tag name t : named name → no_char ["/"; ":"]%char t = true →
  tag_colon (name ++ String ":" t) = Some (String.length name).
Proof.
  intros [_ (pre & last & -> & Hl & Hpre)] Ht. unfold tag_colon.
  rewrite (rfind_app ":" (pre ++ last) t); [no_char Ht|].
  rewrite app_assoc_s (slash_of pre last Hl Hpre).
  { simpl. apply (no_char_forall _ _ Ht). repeat constructor. }
  rewrite decide_True //. rewrite length_app_s. unfold part_ok in Hl. apply andb_true_iff in Hl as [Hne _].
  apply bool_decide_eq_true in Hne. destruct last; [done|simpl; lia].
Qed.

Lemma tag_colon_none name : named name → tag_colon name = None.
Proof.
  intros [_ (pre & last & -> & Hl & Hpre)]. unfold tag_colon.
  rewrite (rfind_skip ":" pre last); [apply (part_ok_chars _ _ Hl); repeat constructor|].
  rewrite -(app_nil_r_s (pre ++ last)) app_assoc_s (slash_of pre last Hl Hpre) //.
  destruct (rfind ":" pre) as [n|] eqn:E; [|done]. apply rfind_lt in E. case_decide; [lia|done].
Qed.

Lemma split_reference_named name r : named name →
  no_char ["@"]%char (reference r) = true →
  (reference_is_digest r = false → no_char ["/"; ":"]%char (reference r) = true) →
  split_reference (name ++ suffix r) = (name, Some (reference r)) ∧
  (match rsplit_once "@" (name ++ suffix r) with Some _ => true | None => false end) = reference_is_digest r.
Proof.
  intros Hn Ha Ht. unfold split_reference, suffix.
  assert (Hat : str_forallb (not_char "@") (reference r) = true) by no_char Ha.
  destruct (reference_is_digest r).
  - change ("@" ++ ?x) with (String "@" x). rewrite (rsplit_once_app "@" name _ Hat).
    unfold strip_tag. by rewrite (tag_colon_none name Hn).
  - change (":" ++ ?x) with (String ":" x). rewrite rsplit_once_none.
    { rewrite str_forallb_app. apply andb_true_iff. split; [apply Hn|]. by simpl. }
    rewrite (tag_colon_tag name _ Hn (Ht eq_refl)). by rewrite str_take_app str_drop_app.
Qed.

Lemma split_reference_bare name : named name →
  split_reference name = (name, None) ∧ rsplit_once "@" name = None.
Proof.
  intros Hn. unfold split_reference. rewrite rsplit_once_none; [apply Hn|]. by rewrite (tag_colon_none name Hn).
Qed.

Lemma join_snoc sep ps p : ps ≠ [] → str_join sep (ps ++ [p])%list = str_join sep ps ++ sep ++ p.
Proof.
  induction ps as [|x [|y ps] IH]; [done|done|]. intros _.
  change (str_join sep ((x :: y :: ps) ++ [p])%list) with (x ++ sep ++ str_join sep ((y :: ps) ++ [p])%list).
  rewrite IH //. simpl. by rewrite !app_assoc_s.
Qed.

Lemma named_join parts : parts ≠ [] → Forall (λ s, part_ok s = true) parts → named (str_join "/" parts).
Proof.
  intros Hne Hall. split.
  - clear Hne. induction Hall as [|s ps Hs _ IH]; [done|]. destruct ps as [|p ps]; [by apply (part_ok_chars _ _ Hs); repeat constructor|].
    change (str_join "/" (s :: p :: ps)) with (s ++ "/" ++ str_join "/" (p :: ps)).
    rewrite !str_forallb_app IH andb_true_r. apply andb_true_iff. split; [|done].
    apply (part_ok_chars _ _ Hs); repeat constructor.
  - destruct parts as [|p ps _] using rev_ind; [done|]. apply Forall_app in Hall as [_ Hp%Forall_inv].
    destruct (decide (ps = [])) as [->|Hps]; [exists "", p; split_and!; auto|].
    exists (str_join "/" ps ++ "/"), p. rewrite join_snoc // app_assoc_s. split_and!; eauto.
Qed.

Lemma named_prefixed registry name : no_char ["/"; "@"]%char registry = true → named name → named (registry ++ "/" ++ name).
Proof.
  intros Hr [Ha (pre & last & -> & Hl & Hpre)]. split.
  - rewrite !str_forallb_app. rewrite str_forallb_app in Ha. rewrite Ha andb_true_r. apply andb_true_iff. split; [|done].
    no_char Hr.
  - exists (registry ++ "/" ++ pre), last. split; [by rewrite !app_assoc_s|]. split; [done|]. right.
    destruct Hpre as [->|[p ->]]; [exists registry; by rewrite app_nil_r_s|].
    exists (registry ++ "/" ++ p). by rewrite !app_assoc_s.
Qed.

Lemma named_part n : part_ok n = true → named n.
Proof. intros Hn. split; [apply (part_ok_chars _ _ Hn); repeat constructor|]. exists "", n. split_and!; auto. Qed.

Lemma split_parts parts : parts ≠ [] → Forall (λ s, part_ok s = true) parts → split_char "/" (str_join "/" parts) = parts.
Proof.
  intros Hne Hall. induction Hall as [|s ps Hs _ IH]; [done|].
  assert (Hs' : str_forallb (not_char "/") s = true) by (apply (part_ok_chars _ _ Hs); repeat constructor).
  destruct ps as [|p ps]; [by apply split_char_none|].
  change (str_join "/" (s :: p :: ps)) with (s ++ String "/" (str_join "/" (p :: ps))).
  by rewrite split_char_app // IH.
Qed.

(** Each of the names of a repository is parsed to it. *)
Lemma names_parse r parts name : legal r parts → name ∈ names_of (registry r) parts →
  named name ∧ registry_and_repository (split_char "/" name) = (registry r, repository r).
Proof.
  intros [Hrepo [Hne Hall] [Hreg Hregc] _ _]. unfold names_of. rewrite elem_of_cons.
  assert (Hregs : str_forallb (not_char "/") (registry r) = true) by no_char Hregc.
  intros [->|Hshort].
  { split; [apply named_prefixed; [done|by apply named_join]|].
    change ("/" ++ ?x) with (String "/" x). rewrite split_char_app // split_parts //.
    destruct parts as [|p ps]; [done|]. simpl registry_and_repository. by rewrite Hreg Hrepo. }
  case_decide as Hhub; [|by apply not_elem_of_nil in Hshort]. rewrite Hhub Hrepo.
  destruct parts as [|p [|q ps]]; [done|by apply not_elem_of_nil in Hshort|].
  assert (Hlong : looks_like_registry p = false → name = str_join "/" (p :: q :: ps) →
    named name ∧ registry_and_repository (split_char "/" name) = (DOCKER_HUB_REGISTRY, str_join "/" (p :: q :: ps))).
  { intros Hp ->. split; [by apply named_join|]. rewrite split_parts //. simpl registry_and_repository. by rewrite Hp. }
  assert (Hn : ps = [] → p = "library" → name = q →
    named name ∧ registry_and_repository (split_char "/" name) = (DOCKER_HUB_REGISTRY, str_join "/" (p :: q :: ps))).
  { intros -> -> ->. apply Forall_cons in Hall as [_ Hq%Forall_inv]. split; [by apply named_part|].
    rewrite split_char_none; [apply (part_ok_chars _ _ Hq); repeat constructor|done]. }
  destruct ps as [|x ps].
  - apply elem_of_app in Hshort as [H|H].
    + case_decide; [|by apply not_elem_of_nil in H]. apply list_elem_of_singleton in H. auto.
    + destruct (looks_like_registry p) eqn:Ep; [by apply not_elem_of_nil in H|]. apply list_elem_of_singleton in H. auto.
  - destruct (looks_like_registry p) eqn:Ep; [by apply not_elem_of_nil in Hshort|].
    apply list_elem_of_singleton in Hshort. auto.
Qed.

Lemma repository_nonempty r parts : legal r parts → repository r ≠ "".
Proof.
  intros [-> [Hne Hall] _ _ _]. destruct Hall as [|s ps Hs _]; [done|]. unfold part_ok in Hs.
  apply andb_true_iff in Hs as [Hs%bool_decide_eq_true _]. destruct ps; simpl; [done|]. by destruct s.
Qed.

Lemma named_nonempty name rest : named name → name ++ rest ≠ "".
Proof.
  intros [_ (pre & last & -> & Hl & _)]. unfold part_ok in Hl.
  apply andb_true_iff in Hl as [Hl%bool_decide_eq_true _]. destruct pre; [by destruct last|done].
Qed.

(** C38. A legal reference, written with any of the names of its repository and its
    tag or digest, is parsed to itself; without one it is the latest. *)
Theorem image_reference_roundtrip (r : ImageReference) (parts : list string) (name : string) :
  legal r parts → name ∈ names_of (registry r) parts →
  ImageReference_parse (name ++ suffix r) = Ok r ∧
  ImageReference_parse name = Ok (mkImageReference (registry r) (repository r) DEFAULT_TAG false).
Proof.
  intros Hl Hin. destruct (names_parse r parts name Hl Hin) as [Hn Hp].
  pose proof (repository_nonempty r parts Hl) as Hrep.
  destruct (split_reference_named name r Hn (legal_reference _ _ Hl) (legal_tag _ _ Hl)) as [Hs Hd].
  destruct (split_reference_bare name Hn) as [Hs' Hd'].
  pose proof (named_nonempty name (suffix r) Hn) as Hne.
  pose proof (named_nonempty name "" Hn) as Hne'. rewrite app_nil_r_s in Hne'.
  unfold ImageReference_parse. rewrite !decide_False //.
  rewrite Hs Hd Hs' Hd' Hp !decide_False //. by destruct r.
Qed.

Lemma image_reference_roundtrip_witness :
  let r := mkImageReference DOCKER_HUB_REGISTRY "library/alpine" "3.20" false in
  let s := mkImageReference "localhost:5000" "team/app" "sha256:00ff" true in
  ImageReference_parse "alpine:3.20" = Ok r ∧ ImageReference_parse "localhost:5000/team/app@sha256:00ff" = Ok s ∧
  ImageReference_parse "library/alpine" = Ok (mkImageReference DOCKER_HUB_REGISTRY "library/alpine" "latest" false).
Proof.
  intros r s.
  assert (Hr : legal r ["library"; "alpine"]) by (split; [done|split; [done|by repeat constructor]|done..]).
  assert (Hs : legal s ["team"; "app"]) by (split; [done|split; [done|by repeat constructor]|done..]).
  split_and!.
  - apply (image_reference_roundtrip r ["library"; "alpine"] "alpine" Hr). apply (bool_decide_unpack _); vm_compute; exact I.
  - apply (image_reference_roundtrip s ["team"; "app"] "localhost:5000/team/app" Hs).
    apply (bool_decide_unpack _); vm_compute; exact I.
  - apply (image_reference_roundtrip r ["library"; "alpine"] "library/alpine" Hr).
    apply (bool_decide_unpack _); vm_compute; exact I.
Defined.

(** ** Hosts *)

Section hosts.
Local Open Scope Z_scope.

(** [addr] of [width] bits is in the block of [net] and a prefix length. *)
Definition in_block (width : Z) (addr : Z) (block : Z * Z) : bool :=
  addr / 2 ^ (width - block.2) =? block.1 / 2 ^ (width - block.2).

Definition forbidden_blocks4 : list (Z * Z) :=
  [(of_octets 0 0 0 0, 8); (of_octets 10 0 0 0, 8); (of_octets 100 64 0 0, 10); (of_octets 127 0 0 0, 8);
   (of_octets 169 254 0 0, 16); (of_octets 172 16 0 0, 12); (of_octets 192 0 0 0, 24); (of_octets 192 168 0 0, 16);
   (of_octets 224 0 0 0, 4); (of_octets 255 255 255 255, 32)].

Definition of_segments (segments : list Z) : Z := foldl (λ acc s, acc * 65536 + s) 0 segments.

(** Unique local, link local, multicast. *)
Definition forbidden_blocks6 : list (Z * Z) :=
  [(of_segments [64512; 0; 0; 0; 0; 0; 0; 0], 7); (of_segments [65152; 0; 0; 0; 0; 0; 0; 0], 10);
   (of_segments [65280; 0; 0; 0; 0; 0; 0; 0], 8)].

(** The blocks whose addresses carry an IPv4 address: compatible and mapped. *)
Definition carrying_v4 : list (Z * Z) := [(0, 96); (of_segments [0; 0; 0; 0; 0; 65535; 0; 0], 96)].

Definition is_segments (l : list Z) : Prop := length l = 8%nat ∧ Forall is_u16 l.

Lemma octets_eq addr : is_u32 addr →
  ∃ a b c d, octets addr = (a, b, c, d) ∧ addr = of_octets a b c d ∧ is_u8 a ∧ is_u8 b ∧ is_u8 c ∧ is_u8 d.
Proof.
  intros Ha. exists (addr / 16777216), (addr / 65536 mod 256), (addr / 256 mod 256), (addr mod 256).
  unfold octets. rewrite !Z.shiftr_div_pow2; [lia..|]. change 255 with (Z.ones 8). rewrite !Z.land_ones; [lia..|].
  change (2 ^ 8) with 256. change (2 ^ 24) with 16777216. change (2 ^ 16) with 65536. unfold of_octets, is_u8, u8_max.
  unfold is_u32, u32_max in Ha. split_and!; try done; div_lia.
Qed.

(** Masking the bits from [n] on, [k] of them. *)
Lemma land_field x k n : 0 ≤ n → 0 ≤ k → Z.land x (Z.shiftl (Z.ones k) n) = x / 2 ^ n mod 2 ^ k * 2 ^ n.
Proof.
  intros Hn Hk. rewrite -Z.land_ones // -Z.shiftr_div_pow2 // -Z.shiftl_mul_pow2 //.
  apply Z.bits_inj'. intros i Hi. rewrite Z.land_spec !Z.shiftl_spec //.
  destruct (Z.ltb_spec i n) as [Hlt|Hge].
  - rewrite !(Z.testbit_neg_r _ (i - n)); [lia|lia|]. by rewrite andb_false_r.
  - rewrite Z.land_spec Z.shiftr_spec; [lia|]. by replace (i - n + n) with i by lia.
Qed.

Ltac bool_div := repeat match goal with
  | |- context [(?a =? ?b)] => destruct (Z.eqb_spec a b)
  | |- context [(?a <=? ?b)] => destruct (Z.leb_spec a b)
  end; cbn; try done; exfalso; div_lia.

Ltac bool_lia := cbn; apply orb_false_intro; [|apply orb_false_intro; [|done]]; apply Z.eqb_neq; lia.

Ltac block := intros; unfold is_u8, u8_max in *; unfold in_block, of_octets; cbn [fst snd Z.sub];
  match goal with |- context [2 ^ ?k] => let v := eval vm_compute in (2 ^ k) in change (2 ^ k) with v end;
  match goal with |- context [_ =? ?n / ?m] => let v := eval vm_compute in (n / m) in change (n / m) with v end;
  bool_div.

Section blocks.
Context (a b c d : Z) (Ha : is_u8 a) (Hb : is_u8 b) (Hc : is_u8 c) (Hd : is_u8 d).
Notation addr := (of_octets a b c d).

Lemma block_8 n : In n [0; 10; 127] → in_block 32 addr (of_octets n 0 0 0, 8) = (a =? n).
Proof using Type*. intros [<-|[<-|[<-|[]]]]; block. Qed.
Lemma block_cgnat : in_block 32 addr (of_octets 100 64 0 0, 10) = (a =? 100) && (Z.land b 192 =? 64).
Proof using Type*.
  change 192 with (Z.shiftl (Z.ones 2) 6). rewrite land_field //. change (2 ^ 2) with 4. change (2 ^ 6) with 64. block.
Qed.
Lemma block_link_local : in_block 32 addr (of_octets 169 254 0 0, 16) = (a =? 169) && (b =? 254).
Proof using Type*. block. Qed.
Lemma block_172 : in_block 32 addr (of_octets 172 16 0 0, 12) = (a =? 172) && (16 <=? b) && (b <=? 31).
Proof using Type*. block. Qed.
Lemma block_ietf : in_block 32 addr (of_octets 192 0 0 0, 24) = (a =? 192) && (b =? 0) && (c =? 0).
Proof using Type*. block. Qed.
Lemma block_192 : in_block 32 addr (of_octets 192 168 0 0, 16) = (a =? 192) && (b =? 168).
Proof using Type*. block. Qed.
Lemma block_multicast : in_block 32 addr (of_octets 224 0 0 0, 4) = (224 <=? a) && (a <=? 239).
Proof using Type*. block. Qed.
Lemma block_broadcast : in_block 32 addr (of_octets 255 255 255 255, 32) = (addr =? u32_max).
Proof using Type*. unfold in_block. cbn [fst snd Z.sub]. by rewrite !Z.div_1_r. Qed.
Lemma zero_address : (addr =? 0) || (a =? 0) = (a =? 0).
Proof using Type*. unfold is_u8, u8_max, of_octets in *. bool_div. Qed.
End blocks.

Lemma forbidden_ipv4_blocks addr : is_u32 addr →
  forbidden_ipv4_host addr = existsb (in_block 32 addr) forbidden_blocks4.
Proof.
  intros Hu. destruct (octets_eq addr Hu) as (a & b & c & d & Ho & -> & Ha & Hb & Hc & Hd).
  unfold forbidden_ipv4_host. rewrite Ho. cbn [is_loopback is_private is_link_local is_multicast existsb forbidden_blocks4].
  rewrite !block_8; try done; try (by simpl; auto).
  rewrite block_cgnat // block_link_local // block_172 // block_ietf // block_192 // block_multicast // block_broadcast //.
  rewrite -(zero_address a b c d) //. btauto.
Qed.

Lemma lor_segments x y : 0 ≤ x → is_u16 y → Z.lor (Z.shiftl x 16) y = x * 65536 + y.
Proof.
  unfold is_u16, u16_max. intros Hx Hy. pose proof (Z.add_lor_land (Z.shiftl x 16) y) as Hs.
  assert (E : Z.land (Z.shiftl x 16) y = 0).
  { apply Z.bits_inj'. intros i Hi. rewrite Z.land_spec Z.bits_0 Z.shiftl_spec //.
    destruct (Z.ltb_spec i 16); [rewrite (Z.testbit_neg_r x); [lia|done]|].
    destruct (decide (y = 0)) as [->|]; [by rewrite Z.testbit_0_l andb_false_r|].
    rewrite (Z.bits_above_log2 y); [lia|apply Z.log2_lt_pow2; [lia|]|by rewrite andb_false_r].
    apply (Z.lt_le_trans _ (2 ^ 16)); [lia|]. apply Z.pow_le_mono_r; lia. }
  rewrite E Z.add_0_r in Hs. rewrite Hs Z.shiftl_mul_pow2 //.
Qed.

Section segments.
Context (a b c d e f g h : Z) (Ha : is_u16 a) (Hb : is_u16 b) (Hc : is_u16 c) (Hd : is_u16 d)
  (He : is_u16 e) (Hf : is_u16 f) (Hg : is_u16 g) (Hh : is_u16 h).
Notation segs := [a; b; c; d; e; f; g; h].

Lemma low_bits : of_segments segs mod 2 ^ 32 = g * 65536 + h.
Proof using Type*. unfold is_u16, u16_max, of_segments in *. cbn [foldl]. change (2 ^ 32) with 4294967296.
  symmetry. apply (Z.mod_unique_pos _ _ (((((a * 65536 + b) * 65536 + c) * 65536 + d) * 65536 + e) * 65536 + f)); lia.
Qed.

Lemma carrying : existsb (in_block 128 (of_segments segs)) carrying_v4 =
  (a =? 0) && (b =? 0) && (c =? 0) && (d =? 0) && (e =? 0) && ((f =? 0) || (f =? 65535)).
Proof using Type*.
  unfold is_u16, u16_max, in_block, carrying_v4 in *. cbn [existsb fst snd].
  change (of_segments [0; 0; 0; 0; 0; 65535; 0; 0] / 2 ^ (128 - 96)) with 65535.
  change (2 ^ (128 - 96)) with 4294967296. change (0 / 4294967296) with 0.
  unfold of_segments. cbn [foldl]. set (v := _ / 4294967296).
  assert (Hv : v = ((((a * 65536 + b) * 65536 + c) * 65536 + d) * 65536 + e) * 65536 + f) by (symmetry; apply (Z.div_unique_pos _ _ _ (g * 65536 + h)); lia).
  rewrite Hv. clear v Hv.
  destruct (Z.eqb_spec a 0) as [->|]; [|by bool_lia]. destruct (Z.eqb_spec b 0) as [->|]; [|by bool_lia].
  destruct (Z.eqb_spec c 0) as [->|]; [|by bool_lia]. destruct (Z.eqb_spec d 0) as [->|]; [|by bool_lia].
  destruct (Z.eqb_spec e 0) as [->|]; [|by bool_lia]. cbn. by rewrite orb_false_r.
Qed.

Lemma first_segment : of_segments segs / 2 ^ 112 = a.
Proof using Type*.
  unfold is_u16, u16_max in *. symmetry. unfold of_segments. cbn [foldl].
  apply (Z.div_unique_pos _ _ _ ((((((b * 65536 + c) * 65536 + d) * 65536 + e) * 65536 + f) * 65536 + g) * 65536 + h));
    change (2 ^ 112) with 5192296858534827628530496329220096; lia.
Qed.

(** A block of the first segment, from bit [16 - len] on. *)
Lemma block6 n len : 0 ≤ len ≤ 16 → 0 ≤ n → n / 2 ^ (16 - len) * 2 ^ (16 - len) = n →
  in_block 128 (of_segments segs) (n * 2 ^ 112, len) =
  (Z.land a (Z.shiftl (Z.ones len) (16 - len)) =? n).
Proof using Type*.
  intros Hlen Hn Hlow. unfold in_block. cbn [fst snd].
  replace (128 - len) with (112 + (16 - len)) by lia. rewrite Z.pow_add_r; [lia..|].
  assert (H112 : 0 < 2 ^ 112) by done.
  assert (Hp : 0 < 2 ^ (16 - len)) by (apply Z.pow_pos_nonneg; lia).
  rewrite -(Z.div_div (of_segments segs)); [lia..|]. rewrite -(Z.div_div (n * 2 ^ 112)); [lia..|].
  rewrite first_segment Z.div_mul; [lia|]. rewrite land_field; [lia..|].
  rewrite (Z.mod_small (a / _)).
  { split; [apply Z.div_pos; unfold is_u16 in *; lia|]. apply Z.div_lt_upper_bound; [lia|].
    rewrite -Z.pow_add_r; [lia..|]. replace (16 - len + len) with 16 by lia. unfold is_u16, u16_max in *. lia. }
  destruct (Z.eqb_spec (a / 2 ^ (16 - len)) (n / 2 ^ (16 - len))) as [->|Hne].
  - symmetry. by apply Z.eqb_eq.
  - symmetry. apply Z.eqb_neq. intros E. apply Hne. rewrite -E Z.div_mul //. lia.
Qed.
End segments.

Lemma to_ipv4_eq a b c d e f g h :
  to_ipv4 [a; b; c; d; e; f; g; h] =
    if (a =? 0) && (b =? 0) && (c =? 0) && (d =? 0) && (e =? 0) && ((f =? 0) || (f =? 65535))
    then Some (Z.lor (Z.shiftl g 16) h) else None.
Proof. destruct a; try done; destruct b; try done; destruct c; try done; destruct d; try done; by destruct e. Qed.

Lemma blocks6_eq a b c d e f g h :
  is_u16 a → is_u16 b → is_u16 c → is_u16 d → is_u16 e → is_u16 f → is_u16 g → is_u16 h →
  existsb (in_block 128 (of_segments [a; b; c; d; e; f; g; h])) forbidden_blocks6 =
    (Z.land a 65024 =? 64512) || (Z.land a 65472 =? 65152) || (Z.land a 65280 =? 65280).
Proof.
  intros. cbn [existsb forbidden_blocks6].
  change (of_segments [64512; 0; 0; 0; 0; 0; 0; 0]) with (64512 * 2 ^ 112).
  change (of_segments [65152; 0; 0; 0; 0; 0; 0; 0]) with (65152 * 2 ^ 112).
  change (of_segments [65280; 0; 0; 0; 0; 0; 0; 0]) with (65280 * 2 ^ 112).
  rewrite !block6 //; try lia. by rewrite orb_false_r orb_assoc.
Qed.

Lemma forbidden_ipv6_blocks segments : is_segments segments →
  forbidden_ipv6_host segments =
    let v := of_segments segments in
    if existsb (in_block 128 v) carrying_v4 then existsb (in_block 32 (v mod 2 ^ 32)) forbidden_blocks4
    else existsb (in_block 128 v) forbidden_blocks6.
Proof.
  intros [Hlen Hall]. destruct segments as [|a [|b [|c [|d [|e [|f [|g [|h [|]]]]]]]]]; try done.
  rewrite !Forall_cons in Hall. destruct Hall as (Ha & Hb & Hc & Hd & He & Hf & Hg & Hh & _).
  cbv zeta. unfold forbidden_ipv6_host. rewrite carrying // low_bits // blocks6_eq // to_ipv4_eq.
  destruct (_ && _) eqn:E.
  - rewrite lor_segments //; [unfold is_u16 in *; lia|]. apply forbidden_ipv4_blocks.
    unfold is_u32, u32_max, is_u16, u16_max in *. lia.
  - rewrite !bool_decide_eq_false_2 //; intros [= -> -> -> -> -> -> -> ->]; by cbn in E.
Qed.
End hosts.

(** A URL may be fetched exactly when its scheme is https and its host is a name
    other than localhost and those under it, or an address outside the blocks of
    private and special addresses; an IPv6 address that carries an IPv4 address
    is judged by that. *)
Theorem remote_https_spec (scheme : string) (host : Host) :
  match host with Domain _ => True | Ipv4 addr => is_u32 addr | Ipv6 segments => is_segments segments end →
  remote_https scheme (Some host) = true ↔
  scheme = "https" ∧
  match host with
  | Domain domain => to_ascii_lowercase domain ≠ "localhost" ∧ ¬ ∃ p, to_ascii_lowercase domain = p ++ ".localhost"
  | Ipv4 addr => ∀ block, block ∈ forbidden_blocks4 → in_block 32 addr block = false
  | Ipv6 segments =>
      let v := of_segments segments in
      if existsb (in_block 128 v) carrying_v4
      then ∀ block, block ∈ forbidden_blocks4 → in_block 32 (v mod 2 ^ 32)%Z block = false
      else ∀ block, block ∈ forbidden_blocks6 → in_block 128 v block = false
  end.
Proof.
  intros Hh. unfold remote_https. rewrite andb_true_iff bool_decide_eq_true. apply and_iff_compat_l.
  destruct host as [domain|addr|segments]; rewrite negb_true_iff.
  - unfold local_domain. rewrite orb_false_iff bool_decide_eq_false. apply and_iff_compat_l. apply ends_with_false.
  - rewrite (forbidden_ipv4_blocks addr Hh). apply existsb_false.
  - rewrite (forbidden_ipv6_blocks segments Hh). cbv zeta. case_match; apply existsb_false.
Qed.

(** The guard lets the root-anchored name of the local host pass. *)
Example localhost_with_a_dot : remote_https "https" (Some (Domain "localhost.")) = true.
Proof. reflexivity. Qed.

Lemma remote_https_spec_witness :
  remote_https "https" (Some (Ipv6 [0; 0; 0; 0; 0; 65535; 43518; 43518]%Z)) = false ∧
  remote_https "https" (Some (Ipv4 (of_octets 93 184 216 34))) = true.
Proof.
  split.
  - destruct (remote_https _ _) eqn:E; [|done]. apply remote_https_spec in E as [_ E]; [|by split; [|repeat constructor]].
    cbn in E. specialize (E (of_octets 169 254 0 0, 16%Z) ltac:(repeat constructor)). done.
  - apply remote_https_spec; [done|]. split; [done|]. apply existsb_false. reflexivity.
Defined.

(** ** Names in the caches *)

Definition hex_digest (h : string) : Prop := String.length h = 64%nat ∧ str_forallb is_ascii_hexdigit h = true.

Lemma blob_filename_ok digest f : blob_filename digest = Ok f ↔
  ∃ h, hex_digest h ∧ digest = "sha256:" ++ h ∧ f = "sha256-" ++ h ++ ".blob".
Proof.
  unfold blob_filename, hex_digest. split.
  - destruct (strip_prefix _ _) as [h|] eqn:E; [|done]. apply strip_prefix_some in E.
    destruct (Nat.eqb_spec (String.length h) 64) as [Hl|]; [|done]. destruct (str_forallb _ h) eqn:Eh; [|done].
    intros [= <-]. by exists h.
  - intros (h & [Hl Hh] & -> & ->). rewrite (strip_prefix_app "sha256:" h) Hh. by rewrite (proj2 (Nat.eqb_eq _ _) Hl).
Qed.

Lemma blob_filename_inj digest digest' f :
  blob_filename digest = Ok f → blob_filename digest' = Ok f → digest = digest'.
Proof.
  intros (h & _ & -> & ->)%blob_filename_ok (h' & _ & -> & E)%blob_filename_ok.
  apply app_inj_l_s, app_inj_r_s in E. by rewrite E.
Qed.

Lemma hex_no_char c h : is_ascii_hexdigit c = false → str_forallb is_ascii_hexdigit h = true →
  str_forallb (not_char c) h = true.
Proof.
  intros Hc. apply str_forallb_impl. intros a Ha. apply not_char_neq. intros ->. by rewrite Hc in Ha.
Qed.

Lemma digests_inj ds ds' :
  Forall (λ d, str_forallb (not_char "010") d = true) ds → Forall (λ d, str_forallb (not_char "010") d = true) ds' →
  str_concat (map (λ d, d ++ nl) ds) = str_concat (map (λ d, d ++ nl) ds') → ds = ds'.
Proof.
  intros H H' E. assert (Hs : (ds ++ [""])%list = (ds' ++ [""])%list) by by rewrite -!split_lines // E.
  by apply app_inj_tail in Hs as [-> _].
Qed.

(** A digest is accepted as the name of a blob exactly when it is sha256 with 64
    hexadecimal digits; the name is one component of a path, not a hidden file,
    and no two digests share one.  The text hashed for the name of a root file
    system is that of one list of such digests, in order. *)
Theorem cache_names_sound :
  (∀ digest, (∃ f, blob_filename digest = Ok f) ↔ ∃ h, hex_digest h ∧ digest = "sha256:" ++ h) ∧
  (∀ digest f, blob_filename digest = Ok f → path_name f ∧ starts_with "." f = false) ∧
  (∀ digest digest' f, blob_filename digest = Ok f → blob_filename digest' = Ok f → digest = digest') ∧
  (∀ digests digests', Forall (λ d, is_ok (blob_filename d) = true) digests →
     Forall (λ d, is_ok (blob_filename d) = true) digests' →
     rootfs_key_text digests = rootfs_key_text digests' → digests = digests').
Proof.
  split_and!.
  - intros digest. split; [intros [f (h & Hh & -> & _)%blob_filename_ok]; eauto|].
    intros (h & Hh & ->). eexists. apply blob_filename_ok. eauto.
  - intros digest f (h & [Hl Hh] & _ & ->)%blob_filename_ok. split; [|done].
    split; try done. rewrite !str_forallb_app. apply andb_true_iff. split; [done|].
    apply andb_true_iff. split; [by apply hex_no_char|done].
  - apply blob_filename_inj.
  - intros ds ds' H H' E. unfold rootfs_key_text in E. apply app_inj_l_s, app_inj_l_s in E.
    assert (Hall : ∀ l, Forall (λ d, is_ok (blob_filename d) = true) l →
      Forall (λ d, str_forallb (not_char "010") d = true) l).
    { intros l Hl. apply (Forall_impl _ _ _ Hl). intros d Hd. destruct (blob_filename d) as [f|] eqn:Ef; [|done].
      apply blob_filename_ok in Ef as (h & [_ Hh] & -> & _). rewrite str_forallb_app. by rewrite (hex_no_char "010" h eq_refl Hh). }
    apply digests_inj; auto.
Qed.

(** ** Environments *)

(** The value a name was set to last. *)
Fixpoint last_setting (name : string) (settings : list (string * string)) : option string :=
  match settings with
  | [] => None
  | (n, v) :: rest =>
      match last_setting name rest with
      | Some w => Some w
      | None => if decide (n = name) then Some v else None
      end
  end.

Definition settings (items : list EnvVar) : list (string * string) := map (λ e, (env_name e, env_value e)) items.

Lemma foldl_settings items (m : gmap string string) name :
  foldl (λ m item, <[env_name item := env_value item]> m) m items !! name =
  match last_setting name (settings items) with Some v => Some v | None => m !! name end.
Proof.
  revert m. induction items as [|e items IH]; intros m; [done|]. simpl. rewrite IH.
  destruct (last_setting name (settings items)); [done|].
  case_decide as E; [by rewrite E lookup_insert_eq|by rewrite lookup_insert_ne].
Qed.

#[global] Instance key_le_total {V} : Total (@key_le V).
Proof.
  intros a b. unfold key_le. unfold String.leb. rewrite (String.compare_antisym b.1 a.1).
  destruct (String.compare a.1 b.1); simpl; auto.
Qed.

(** The environment of a container sets each name once, in order; what the request
    sets wins over the image, what comes later over what comes before, and there
    is always a PATH. *)
Theorem merged_env_spec (image_env request_env : list EnvVar) :
  let all := (("PATH", DEFAULT_PATH) :: settings image_env ++ settings request_env)%list in
  ∃ sorted, merged_env image_env request_env = map (λ '(name, value), name ++ "=" ++ value) sorted ∧
    NoDup (map fst sorted) ∧ Sorted key_le sorted ∧
    (∀ name value, (name, value) ∈ sorted ↔ last_setting name all = Some value) ∧
    ∃ path, ("PATH", path) ∈ sorted.
Proof.
  intros all. exists (btree_entries (merged_map image_env request_env)).
  set (m := merged_map image_env request_env).
  assert (Hm : ∀ name, m !! name = last_setting name all).
  { intros name. subst m all. unfold merged_map. rewrite foldl_settings. unfold settings. rewrite map_app /=.
    destruct (last_setting name _); [done|]. case_decide as E; [by rewrite -E lookup_singleton_eq|by rewrite lookup_singleton_ne]. }
  assert (Hin : ∀ name value, (name, value) ∈ btree_entries m ↔ m !! name = Some value).
  { intros name value. unfold btree_entries. by rewrite merge_sort_Permutation elem_of_map_to_list. }
  split_and!; [done| | | |].
  - unfold btree_entries. rewrite merge_sort_Permutation. apply NoDup_fst_map_to_list.
  - apply Sorted_merge_sort. apply _.
  - intros name value. by rewrite Hin Hm.
  - assert (is_Some (m !! "PATH")) as [path Hp].
    { rewrite Hm. subst all. simpl. destruct (last_setting "PATH" _); by eexists. }
    exists path. by apply Hin.
Qed.

(** ** Challenges *)

(** A comma inside quotes ends the value: of two actions asked for, one is
    kept. *)
Example quoted_comma_cuts_scope :
  BearerChallenge_parse ("Bearer realm=" ++ dquote ++ "https://auth.example/token" ++ dquote ++
    ",scope=" ++ dquote ++ "repository:a:pull,push" ++ dquote) =
  Ok (mkBearerChallenge "https://auth.example/token" None (Some "repository:a:pull")).
Proof. vm_compute. reflexivity. Qed.
