(* ===== verification/OciPull.v ===== *)
(** * Pulling images (crates/oad-oci/src/lib.rs: RegistryClient, GvisorManager)

    The client of the registries, its caches of manifests, blobs and root file
    systems, and the bundles made from them.  What servers answer, how URLs and
    JSON are read, SHA-256, clocks, and the build of a root file system from its
    layers (Extract.v and mkfs.erofs) are arguments.  Layers are fetched one
    after the other here; the code overlaps up to four of them. *)
From S2P Require Import Prelude Str Core Effect Os Json OciBase Oci.

(** ** What the client is given *)

(** The [url] crate. *)
Class UrlLib := {
  Url : Type;
  url_parse : string → option Url;
  url_scheme : Url → string;
  url_host : Url → option Host;
  url_text : Url → string;
  append_pairs : list (string * string) → Url → Url;
}.

Record Request {U : UrlLib} : Type := mkRequest {
  rq_url : Url; rq_accept : option string; rq_token : option string;
}.

Record Response : Type := mkResponse {
  status : Z;
  www_authenticate : option (option string);   (* a header that is not text: [Some None] *)
  content_length : option Z;
  body_chunks : list string; body_error : option string;
}.

Inductive Hop {U : UrlLib} : Type :=
| Final (r : Response)
| Redirect (location : Url)
| SendError (e : string)
| ClientKilled.

(** The servers, from all that was sent so far; [kept_token]: whether [reqwest]
    keeps the token of a request it redirects. *)
Class Servers {U : UrlLib} := {
  answer : list Request → Request → Hop;
  kept_token : Request → Url → bool;
}.

(** [serde_json], for the types of this file. *)
Class Jsons := {
  parse_manifest : string → option ImageManifest;
  parse_config : string → option ImageConfig;
  parse_token : string → option TokenResponse;
  serde_error : string → string;
  to_vec_pretty : Value → string;
}.

Class Clock := {
  modified : list (Call string) → Path → option Z;
  now : list (Call string) → Z;
  manifest_cache_ttl : Z;
}.

(** The state: the system, what was sent (latest first), the counter of
    temporary names. *)
Record Puller {U : UrlLib} : Type := mkPuller {
  p_os : Os string;
  p_sent : list Request;
  p_temp : Z;
}.

Arguments mkRequest {U}. Arguments mkPuller {U}.

Record PulledImage : Type := mkPulledImage { pulled_config : ImageConfig; pulled_rootfs : Path }.

Section pull.
Context {U : UrlLib} `{!Env string, !Servers, !Jsons, !Clock}.
Context (sha256 : string → string) (arch : string).
Context (build_erofs_from_staging : list (Path * string) → Path → Path → M (Os string) OciError ()).
Notation PM := (M Puller OciError).

Definition on_os {E A} (m : M (Os string) E A) : M Puller E A :=
  zoom p_os (λ o w, mkPuller o (p_sent w) (p_temp w)) m.
Definition io {A} (m : M (Os string) IoError A) : PM A := mapE OciIo (on_os m).

(** ** Requests *)

Definition validate_remote_https_url (url : Url) : bool := remote_https (url_scheme url) (url_host url).

Definition validate_token_realm (url : Url) : result OciError () :=
  if validate_remote_https_url url then Ok tt else Err InvalidAuthChallenge.

Definition validate_registry_url (url : Url) : result OciError () :=
  if validate_remote_https_url url then Ok tt else Err (InvalidReference (url_text url)).

Definition registry_redirect_policy (previous : list Url) (url : Url) : result string () :=
  if decide (MAX_REGISTRY_REDIRECTS < length previous)%nat then Err "registry redirect limit exceeded"
  else if negb (validate_remote_https_url url) then Err ("registry redirect is invalid or unsafe: " ++ url_text url)
  else Ok tt.

Definition registry_url (r : ImageReference) (path : string) : result OciError Url :=
  (url <-? ok_or (url_parse ("https://" ++ registry r ++ path)) (InvalidReference (registry r)) ;;
   validate_registry_url url ?;; Ok url)%rust.

(** One request, through its redirects. *)
Fixpoint send_go (fuel : nat) (previous : list Url) (rq : Request) : PM Response := λ w,
  let w' := mkPuller (p_os w) (rq :: p_sent w) (p_temp w) in
  match answer (p_sent w) rq with
  | Final r => (Ret r, w')
  | SendError e => (Throw (OciHttp e), w')
  | ClientKilled => (Crash, w')
  | Redirect url =>
      match registry_redirect_policy (previous ++ [rq_url rq])%list url, fuel with
      | Ok _, S fuel =>
          send_go fuel (previous ++ [rq_url rq])%list
            (mkRequest url (rq_accept rq) (if kept_token rq url then rq_token rq else None)) w'
      | Ok _, O => (Throw (OciHttp "too many redirects"), w')
      | Err e, _ => (Throw (OciHttp e), w')
      end
  end.

Definition send (rq : Request) : PM Response := send_go (S MAX_REGISTRY_REDIRECTS) [] rq.

Definition error_for_status (r : Response) : result OciError Response :=
  if (400 <=? status r)%Z && (status r <=? 599)%Z then Err (OciHttp ("status " ++ show_dec (status r))) else Ok r.

(** The body read so far, chunk by chunk. *)
Fixpoint collect (kind : string) (limit downloaded : Z) (body : string) (chunks : list string) : result OciError string :=
  match chunks with
  | [] => Ok body
  | chunk :: chunks =>
      let downloaded := (downloaded + Z.of_nat (String.length chunk))%Z in
      if (u64_max <? downloaded)%Z then Err (BodyTooLarge kind limit) else
      if (limit <? downloaded)%Z then Err (BodyTooLarge kind limit) else
      collect kind limit downloaded (body ++ chunk) chunks
  end.

Definition read_response_limited (r : Response) (kind : string) (limit : Z) : result OciError string :=
  (match content_length r with
   | Some length => if (limit <? length)%Z then Err (BodyTooLarge kind limit) else Ok tt
   | None => Ok tt
   end ?;;
   body <-? collect kind limit 0 EmptyString (body_chunks r) ;;
   match body_error r with Some e => Err (OciHttp e) | None => Ok body end)%rust.

Definition body_preview (body : string) : string := to_text (str_take 256 body).

Definition parse_json_body {A} (parse : string → option A) (kind source body : string) : result OciError A :=
  ok_or (parse body) (JsonBody kind source (serde_error body) (body_preview body)).

Definition fetch_token (challenge : BearerChallenge) (repository : string) : PM string :=
  url ← lift_result (ok_or (url_parse (realm challenge)) InvalidAuthChallenge);
  lift_result (validate_token_realm url) ;;
  let service_pair := match service challenge with Some s => [("service", s)] | None => [] end in
  let scope := default ("repository:" ++ repository ++ ":pull") (scope challenge) in
  let url := append_pairs (service_pair ++ [("scope", scope)])%list url in
  response ← send (mkRequest url None None);
  response ← lift_result (error_for_status response);
  bytes ← lift_result (read_response_limited response "token" MAX_TOKEN_BYTES);
  t ← lift_result (parse_json_body parse_token "token" (realm challenge) bytes);
  match token t, access_token t with
  | Some t, _ | None, Some t => mret t
  | None, None => throw MissingToken
  end.

Definition get_with_auth (url : Url) (repository : string) (accept : option string) : PM Response :=
  response ← send (mkRequest url accept None);
  if negb (status response =? 401)%Z then lift_result (error_for_status response) else
  header ← lift_result (ok_or (www_authenticate response) MissingAuthChallenge);
  auth_header ← lift_result (ok_or header InvalidAuthChallenge);
  challenge ← lift_result (BearerChallenge_parse auth_header);
  token ← fetch_token challenge repository;
  retry ← send (mkRequest url accept (Some token));
  lift_result (error_for_status retry).

(** ** Files *)

(** [File::create]. *)
Definition create_file (p : Path) : M (Os string) IoError () := atomic (CWrite p "") (λ fs,
  match node_at fs p with
  | Some Dir => Err IsADirectory
  | Some (File _) => Ok (tt, <[p := File ""]> fs)
  | None => if parent_is_dir fs p then Ok (tt, <[p := File ""]> fs) else Err (missing fs p)
  end).

(** [write_all] of a chunk, after those before it. *)
Definition append_chunk (p : Path) (chunk : string) : M (Os string) IoError () := Os.sys (CWrite p chunk)
  (λ fs, Ok (tt, match fs !! p with Some (File b) => <[p := File (b ++ chunk)]> fs | _ => fs end))
  (λ h fs, <[p := File (env_partial h)]> fs).

Definition flush (p : Path) : M (Os string) IoError () := look (CWrite p "") (λ _, Ok tt).

(** [fs::write]. *)
Definition write_file (p : Path) (b : string) : M (Os string) IoError () := create_file p ;; append_chunk p b.

Definition canonicalize (p : Path) : M (Os string) IoError Path := look (CStat p) (λ fs,
  match node_at fs p with Some _ => Ok p | None => Err (missing fs p) end).

(** [fs::metadata]: the length and the time of the last change. *)
Definition metadata (p : Path) : M (Os string) IoError (Z * option Z) := λ s,
  (look (CStat p) (λ fs,
    match node_at fs p with
    | Some (File b) => Ok (Z.of_nat (String.length b), modified (calls s) p)
    | Some Dir => Ok (0%Z, modified (calls s) p)
    | None => Err (missing fs p)
    end)) s.

(** The reads of a file, 8 KiB at a time. *)
Fixpoint pieces (fuel : nat) (s : string) : list string :=
  match fuel, s with
  | S fuel, String _ _ => str_take (Z.to_nat 8192) s :: pieces fuel (str_drop (Z.to_nat 8192) s)
  | _, _ => []
  end.

Definition read_pieces (p : Path) : PM (list string) :=
  b ← io (read_file p); mret (pieces (String.length b) b).

Definition temp_name (stem : string) : PM string := λ w,
  (Ret (temp_name_text env_pid (p_temp w) stem), mkPuller (p_os w) (p_sent w) (wrap64 (p_temp w + 1))).

(** ** Blobs *)

Definition read_blob_file_limited (path : Path) (expected_digest : string) (max_bytes : Z) (kind : string) : PM string :=
  chunks ← read_pieces path;
  body ← lift_result (collect kind max_bytes 0 "" chunks);
  lift_result (verify_digest sha256 body expected_digest) ;;
  mret body.

Definition verify_blob_file (path : Path) (expected_digest : string) : PM () :=
  chunks ← read_pieces path;
  lift_result (verify_digest sha256 (str_concat chunks) expected_digest).

Definition read_blob_cache (path : Path) (expected_digest : string) (max_bytes : Z) (kind : string) : PM (option string) :=
  there ← io (try_exists path);
  if negb there then mret None else
  r ← attempt (read_blob_file_limited path expected_digest max_bytes kind);
  match r with
  | Ok bytes => mret (Some bytes)
  | Err (DigestMismatch _ _) | Err (BodyTooLarge _ _) => ignore (io (remove_file path)) ;; mret None
  | Err e => throw e
  end.

Definition blob_url (r : ImageReference) (digest : string) : result OciError Url :=
  registry_url r ("/v2/" ++ repository r ++ "/blobs/" ++ digest).

Definition fetch_blob (r : ImageReference) (digest : string) (max_bytes : Z) (kind : string) : PM string :=
  url ← lift_result (blob_url r digest);
  response ← get_with_auth url (repository r) None;
  lift_result (read_response_limited response kind max_bytes).

Definition write_blob_cache (cached : Path) (bytes : string) : PM () := ignore (io (write_atomic_file cached bytes)).

Definition fetch_blob_cached (r : ImageReference) (digest : string) (blob_cache : Path) (max_bytes : Z) (kind : string) : PM string :=
  name ← lift_result (blob_filename digest);
  let cached := (blob_cache ++ [name])%list in
  found ← read_blob_cache cached digest max_bytes kind;
  match found with
  | Some bytes => mret bytes
  | None =>
      bytes ← fetch_blob r digest max_bytes kind;
      lift_result (verify_digest sha256 bytes digest) ;;
      write_blob_cache cached bytes ;;
      mret bytes
  end.

(** Chunks go to the file and to the hasher, which has seen [hashed]. *)
Fixpoint download_chunks (path : Path) (kind : string) (max_bytes downloaded : Z) (hashed : string) (chunks : list string) : PM string :=
  match chunks with
  | [] => mret hashed
  | chunk :: chunks =>
      let downloaded := (downloaded + Z.of_nat (String.length chunk))%Z in
      if (u64_max <? downloaded)%Z then throw (BodyTooLarge kind max_bytes) else
      if (max_bytes <? downloaded)%Z then throw (BodyTooLarge kind max_bytes) else
      io (append_chunk path chunk) ;;
      download_chunks path kind max_bytes downloaded (hashed ++ chunk) chunks
  end.

Definition download_blob (r : ImageReference) (digest : string) (path : Path) (max_bytes : Z) (kind : string) : PM () :=
  url ← lift_result (blob_url r digest);
  response ← get_with_auth url (repository r) None;
  io (create_file path) ;;
  hashed ← download_chunks path kind max_bytes 0 "" (body_chunks response);
  match body_error response with Some e => throw (OciHttp e) | None => mret tt end ;;
  io (flush path) ;;
  lift_result (verify_digest sha256 hashed digest).

Definition download_blob_cached (r : ImageReference) (digest : string) (layer_cache cached : Path) (max_bytes : Z) : PM () :=
  name ← lift_result (blob_filename digest);
  tmp_name ← temp_name name;
  let tmp := (layer_cache ++ [tmp_name])%list in
  on_error (ignore (io (remove_file tmp))) (download_blob r digest tmp max_bytes "layer") ;;
  io (rename tmp cached).

(** ** Layers *)

Record Download : Type := mkDownload { dl_cached : Path; dl_digest : string; dl_media_type : string; dl_max : Z }.

Definition plan_download (layer_cache : Path) (layer : Descriptor) : result OciError Download :=
  (name <-? blob_filename (digest layer) ;;
   max_bytes <-? descriptor_body_limit layer MAX_LAYER_BYTES "layer" ;;
   Ok (mkDownload (layer_cache ++ [name])%list (digest layer) (default EmptyString (media_type layer)) max_bytes))%rust.

Definition fetch_layer (r : ImageReference) (layer_cache : Path) (d : Download) : PM () :=
  let download := download_blob_cached r (dl_digest d) layer_cache (dl_cached d) (dl_max d) in
  there ← io (try_exists (dl_cached d));
  if (there : bool) then
    v ← attempt (verify_blob_file (dl_cached d) (dl_digest d));
    match v with
    | Ok _ => mret tt
    | Err (DigestMismatch _ _) => ignore (io (remove_file (dl_cached d))) ;; download
    | Err e => throw e
    end
  else download.

Definition fetch_layers_cached (r : ImageReference) (layers : list Descriptor) (layer_cache : Path) : PM (list (Path * string)) :=
  downloads ← lift_result (flat_map_result (λ l, result_map (λ d, [d]) (plan_download layer_cache l)) layers);
  forM downloads (fetch_layer r layer_cache) ;;
  mret (map (λ d, (dl_cached d, dl_media_type d)) downloads).

(** ** Manifests *)

Definition write_manifest_cache (cached : Path) (bytes : string) : PM () := ignore (io (write_atomic_file cached bytes)).

Definition read_manifest_cache (manifest_ref : string) (expected_digest : option string) (cached : Path) : PM (option ImageManifest) :=
  m ← attempt (on_os (metadata cached));
  match m with
  | Err NotFound => mret None
  | Err e => throw (OciIo e)
  | Ok (_, None) => mret None
  | Ok (len, Some modified) =>
      now ← gets (λ w, now (calls (p_os w)));
      if negb (manifest_cache_entry_is_fresh modified now manifest_cache_ttl) then mret None else
      if (MAX_MANIFEST_BYTES <? len)%Z then ignore (io (remove_file cached)) ;; mret None else
      bytes ← io (read_file cached);
      match match expected_digest with Some digest => verify_digest sha256 bytes digest | None => Ok tt end with
      | Err (DigestMismatch _ _) => ignore (io (remove_file cached)) ;; mret None
      | Err e => throw e
      | Ok _ =>
          match parse_json_body parse_manifest "manifest" manifest_ref bytes with
          | Ok manifest => mret (Some manifest)
          | Err _ => ignore (io (remove_file cached)) ;; mret None
          end
      end
  end.

Definition fetch_manifest (r : ImageReference) (manifest_ref : string) (expected_digest : option string) (manifest_cache : Path) : PM ImageManifest :=
  let cached := manifest_cache_path sha256 manifest_cache r manifest_ref in
  found ← read_manifest_cache manifest_ref expected_digest cached;
  match found with
  | Some manifest => mret manifest
  | None =>
      url ← lift_result (registry_url r ("/v2/" ++ repository r ++ "/manifests/" ++ manifest_ref));
      response ← get_with_auth url (repository r) (Some MANIFEST_ACCEPT);
      bytes ← lift_result (read_response_limited response "manifest" MAX_MANIFEST_BYTES);
      match expected_digest with Some digest => lift_result (verify_digest sha256 bytes digest) | None => mret tt end ;;
      manifest ← lift_result (parse_json_body parse_manifest "manifest" manifest_ref bytes);
      write_manifest_cache cached bytes ;;
      mret manifest
  end.

(** The manifest of the image for this host, through an index if there is one. *)
Definition resolve_manifest (r : ImageReference) (manifest_cache : Path) : PM ImageManifest :=
  let expected_top_digest := if reference_is_digest r then Some (reference r) else None in
  manifest ← fetch_manifest r (reference r) expected_top_digest manifest_cache;
  match manifests manifest with
  | Some manifests =>
      descriptor ← lift_result (select_platform_manifest arch manifests);
      fetch_manifest r (digest descriptor) (Some (digest descriptor)) manifest_cache
  | None => mret manifest
  end.

(** ** Images *)

Definition remove_staging (staging : Path) : PM () :=
  r ← attempt (io (remove_dir_all staging));
  match r with Ok _ | Err (OciIo NotFound) => mret tt | Err e => throw e end.

(** Fetches the layers, builds the root file system and puts it in the cache. *)
Definition build_rootfs (r : ImageReference) (layers : list Descriptor) (layer_cache rootfs_cache rootfs staging : Path) : PM () :=
  io (create_dir_all layer_cache) ;;
  blobs ← fetch_layers_cached r layers layer_cache;
  tmp ← temp_name (rootfs_cache_key sha256 layers);
  let tmp_rootfs := (rootfs_cache ++ [tmp])%list in
  on_error (ignore (io (remove_file tmp_rootfs)) ;; ignore (remove_staging staging))
    (on_os (build_erofs_from_staging blobs staging tmp_rootfs)) ;;
  io (publish_atomic_file tmp_rootfs rootfs).

Definition pull_image_rootfs (image : string) (layer_cache manifest_cache rootfs_cache staging : Path) : PM PulledImage :=
  r ← lift_result (ImageReference_parse image);
  manifest ← resolve_manifest r manifest_cache;
  if decide (MAX_LAYERS < length (layers manifest))%nat
  then throw (InvalidManifest "image manifest has too many layers") else
  config_descriptor ← lift_result (ok_or (config manifest) (InvalidManifest "image manifest is missing config descriptor"));
  config_limit ← lift_result (descriptor_body_limit config_descriptor MAX_CONFIG_BYTES "config");
  config_blob ← fetch_blob_cached r (digest config_descriptor) layer_cache config_limit "config";
  image_config ← lift_result (parse_json_body parse_config "image config" (digest config_descriptor) config_blob);
  let rootfs_key := rootfs_cache_key sha256 (layers manifest) in
  io (create_dir_all rootfs_cache) ;;
  let rootfs := (rootfs_cache ++ [(rootfs_key ++ ".erofs")%string])%list in
  there ← io (try_exists rootfs);
  if (there : bool) then mret (mkPulledImage image_config rootfs) else
  build_rootfs r (layers manifest) layer_cache rootfs_cache rootfs staging ;;
  mret (mkPulledImage image_config rootfs).

(** ** Bundles *)

Definition prepare_rootfs_overlay_dir (paths : OadPaths) (id : SandboxId) (container : string) : PM Path :=
  let overlay := rootfs_overlay_dir paths id container in
  io (create_dir_all overlay) ;; io (canonicalize overlay).

Definition write_gvisor_config_json (path : Path) (config : GvisorConfig) : PM () :=
  match g_args config with
  | [] => throw (NoCommand (container_name config))
  | _ =>
      match parent path with Some d => io (create_dir_all d) | None => mret tt end ;;
      io (write_file path (to_vec_pretty (gvisor_config_json config)))
  end.

(** The image of a container and the directories of its bundle. *)
Definition prepare_rootfs (paths : OadPaths) (id : SandboxId) (container image : string) : PM (ImageConfig * Path * Path) :=
  pulled ← pull_image_rootfs image (layer_cache_dir paths) (manifest_cache_dir paths) (rootfs_cache_dir paths)
    (rootfs_staging_dir paths id container);
  io (create_dir_all (rootfs_dir paths id container)) ;;
  overlay ← prepare_rootfs_overlay_dir paths id container;
  rootfs ← io (canonicalize (pulled_rootfs pulled));
  mret (pulled_config pulled, rootfs, overlay).

Definition prepare_pause_bundle (paths : OadPaths) (id : SandboxId) (image : string) (netns resolv_conf : option Path) : PM () :=
  prepared ← prepare_rootfs paths id PAUSE_CONTAINER image;
  let '(image_config, rootfs, overlay) := prepared in
  write_gvisor_config_json (config_json paths id PAUSE_CONTAINER)
    (mkGvisorConfig PAUSE_CONTAINER ["/pause"] (merged_env (env image_config) []) (cwd_or_root (working_dir image_config))
      rootfs overlay netns resolv_conf
      [("io.kubernetes.cri.container-type", "sandbox"); ("io.kubernetes.cri.container-name", PAUSE_CONTAINER)]).

Definition prepare_container_bundle (paths : OadPaths) (id : SandboxId) (container : ContainerSpec) (netns resolv_conf : option Path) : PM () :=
  prepared ← prepare_rootfs paths id (ct_name container) (ct_image container);
  let '(image_config, rootfs, overlay) := prepared in
  args ← lift_result (resolve_args container image_config);
  write_gvisor_config_json (config_json paths id (ct_name container))
    (mkGvisorConfig (ct_name container) args (merged_env (env image_config) (ct_env container))
      (cwd_or_root (working_dir image_config)) rootfs overlay netns resolv_conf
      [("io.kubernetes.cri.container-type", "container"); ("io.kubernetes.cri.sandbox-id", PAUSE_CONTAINER);
       ("io.kubernetes.cri.container-name", ct_name container)]).
End pull.
