(* ===== verification/OciPullInv.v ===== *)
(** * Images are what their digests say, and only remote hosts are asked

    Whatever servers answer and whatever fails, the root file system of a pulled
    image was built from blobs with the digests its manifest lists, the manifest
    and the configuration have the digests they were asked for by, and no request
    goes to a host that is not remote. *)
From S2P Require Import Prelude Str Core Effect Os Entries Json OciBase Oci OciPull.

(** ** What programs return *)

Definition yields {S E A} (Q : A → Prop) (m : M S E A) : Prop := ∀ s, match (m s).1 with Ret a => Q a | _ => True end.

Section yields.
Context {S E : Type}.

Lemma yields_ret {A} (Q : A → Prop) (a : A) : Q a → yields Q (mret a : M S E A).
Proof. by intros H s. Qed.

Lemma yields_throw {A} (Q : A → Prop) (e : E) : yields Q (throw e : M S E A).
Proof. done. Qed.

Lemma yields_lift {A} (Q : A → Prop) (r : result E A) : (∀ a, r = Ok a → Q a) → yields Q (lift_result r : M S E A).
Proof. intros H s. unfold lift_result. destruct r; simpl; auto. Qed.

Lemma yields_bind {A A'} (P : A → Prop) (Q : A' → Prop) (m : M S E A) (k : A → M S E A') :
  yields P m → (∀ a, P a → yields Q (k a)) → yields Q (m ≫= k).
Proof.
  intros Hm Hk s. specialize (Hm s). unfold mbind, M_bind. destruct (m s) as [[a|e|] s']; simpl in *; [by apply Hk|done..].
Qed.

Lemma yields_any {A} (m : M S E A) : yields (λ _, True) m.
Proof. intros s. by destruct (m s) as [[]]. Qed.

Lemma yields_skip {A A'} (Q : A' → Prop) (m : M S E A) (k : A → M S E A') :
  (∀ a, yields Q (k a)) → yields Q (m ≫= k).
Proof. intros Hk. apply (yields_bind (λ _, True)); [apply yields_any|auto]. Qed.

Lemma yields_attempt {F A} (Q : result E A → Prop) (m : M S E A) :
  yields (λ a, Q (Ok a)) m → (∀ e, Q (Err e)) → yields Q (attempt m : M S F (result E A)).
Proof. intros Hm He s. specialize (Hm s). unfold attempt. destruct (m s) as [[a|e|] s']; simpl in *; auto. Qed.
End yields.

Lemma bind_ret {S E A B} (m : M S E A) (k : A → M S E B) s b s' :
  (m ≫= k) s = (Ret b, s') → ∃ a s1, m s = (Ret a, s1) ∧ k a s1 = (Ret b, s').
Proof. unfold mbind, M_bind. destruct (m s) as [[a|e|] s1]; [|done..]. eauto. Qed.

(** ** Values with a digest *)

Section values.
Context {U : UrlLib} `{!Env string, !Servers, !Jsons, !Clock}.
Context (sha256 : string → string) (arch : string).

(** [bytes] have the digest asked for, if any was. *)
Definition pinned (expected : option string) (bytes : string) : Prop :=
  match expected with Some digest => verify_digest sha256 bytes digest = Ok tt | None => True end.

Lemma parse_json_ok {A} (parse : string → option A) kind source body a :
  parse_json_body parse kind source body = Ok a → parse body = Some a.
Proof. unfold parse_json_body, ok_or. destruct (parse body); [by intros [= ->]|done]. Qed.

Lemma read_manifest_yields manifest_ref expected cached :
  yields (λ found, ∀ m, found = Some m → ∃ bytes, parse_manifest bytes = Some m ∧ pinned expected bytes)
    (read_manifest_cache sha256 manifest_ref expected cached).
Proof.
  unfold read_manifest_cache. apply yields_skip. intros [[len [t|]]|[]]; try by apply yields_ret || apply yields_throw.
  apply yields_skip. intros now. case_match; [by apply yields_ret|].
  case_match; [apply yields_skip; intros []; by apply yields_ret|].
  apply yields_skip. intros bytes.
  destruct (match expected with Some digest => verify_digest sha256 bytes digest | None => Ok tt end) as [[]|e] eqn:Ep.
  2:{ destruct e; try apply yields_throw. apply yields_skip. intros []. by apply yields_ret. }
  destruct (parse_json_body _ _ _ _) as [m|] eqn:Em; [|apply yields_skip; intros []; by apply yields_ret].
  apply yields_ret. intros m' [= <-]. exists bytes. split; [by apply parse_json_ok in Em|].
  unfold pinned. by destruct expected.
Qed.

Lemma fetch_manifest_yields r manifest_ref expected cache :
  yields (λ m, ∃ bytes, parse_manifest bytes = Some m ∧ pinned expected bytes)
    (fetch_manifest sha256 r manifest_ref expected cache).
Proof.
  unfold fetch_manifest. eapply yields_bind; [apply read_manifest_yields|]. intros [m|] Hm; [apply yields_ret; eauto|]. clear Hm.
  apply yields_skip. intros url. apply yields_skip. intros response. apply yields_skip. intros bytes.
  apply (yields_bind (λ _, pinned expected bytes)).
  { destruct expected; simpl; [apply yields_lift; by intros []|by apply yields_ret]. }
  intros _ Hp. apply (yields_bind (λ m, parse_manifest bytes = Some m)).
  { apply yields_lift. intros m Hm. by apply parse_json_ok in Hm. }
  intros m Hm. apply yields_skip. intros _. apply yields_ret. eauto.
Qed.

(** The manifests an image may resolve to. *)
Inductive resolves (r : ImageReference) (m : ImageManifest) : Prop :=
| resolves_direct bytes :
    parse_manifest bytes = Some m → manifests m = None →
    (reference_is_digest r = true → verify_digest sha256 bytes (reference r) = Ok tt) → resolves r m
| resolves_index bytes index descriptors descriptor bytes' :
    parse_manifest bytes = Some index → manifests index = Some descriptors →
    (reference_is_digest r = true → verify_digest sha256 bytes (reference r) = Ok tt) →
    select_platform_manifest arch descriptors = Ok descriptor →
    verify_digest sha256 bytes' (digest descriptor) = Ok tt → parse_manifest bytes' = Some m → resolves r m.

Lemma resolve_manifest_yields r cache : yields (resolves r) (resolve_manifest sha256 arch r cache).
Proof.
  unfold resolve_manifest. eapply yields_bind; [apply fetch_manifest_yields|]. intros m (bytes & Hb & Hp).
  assert (Hpin : reference_is_digest r = true → verify_digest sha256 bytes (reference r) = Ok tt).
  { intros E. by rewrite E in Hp. }
  destruct (manifests m) as [ds|] eqn:Em; [|apply yields_ret; exact (resolves_direct r m bytes Hb Em Hpin)].
  apply (yields_bind (λ d, select_platform_manifest arch ds = Ok d)); [apply yields_lift; auto|]. intros d Hd.
  intros w. pose proof (fetch_manifest_yields r (digest d) (Some (digest d)) cache w) as Hy. cbv beta in Hy.
  destruct (fetch_manifest _ _ _ _ _ _) as [[m'|e|] w']; simpl in *; [|done..].
  destruct Hy as (bytes' & Hb' & Hp'). exact (resolves_index r m' bytes m ds d bytes' Hb Em Hpin Hd Hp' Hb').
Qed.

(** Reading back the pieces of a file. *)
Lemma str_take_drop n s : str_take n s ++ str_drop n s = s.
Proof. revert s. induction n as [|n IH]; intros [|a s]; simpl; try done. by rewrite IH. Qed.

Lemma collect_ok kind limit downloaded body chunks b :
  collect kind limit downloaded body chunks = Ok b → b = body ++ str_concat chunks.
Proof.
  revert downloaded body. induction chunks as [|c cs IH]; intros downloaded body; simpl; [intros [= ->]; by rewrite app_nil_r_s|].
  case_match; [done|]. case_match; [done|]. intros ->%IH. by rewrite app_assoc_s.
Qed.

Lemma read_blob_yields path expected max_bytes kind :
  yields (λ found, ∀ b, found = Some b → verify_digest sha256 b expected = Ok tt)
    (read_blob_cache sha256 path expected max_bytes kind).
Proof.
  unfold read_blob_cache. apply yields_skip. intros there. case_match; [by apply yields_ret|].
  eapply (yields_bind (λ r, ∀ b, r = Ok b → verify_digest sha256 b expected = Ok tt)).
  - apply yields_attempt; [|done]. unfold read_blob_file_limited. apply yields_skip. intros chunks.
    apply yields_skip. intros body. apply (yields_bind (λ _, verify_digest sha256 body expected = Ok tt)).
    + apply yields_lift. by intros [].
    + intros _ Hv. apply yields_ret. by intros b [= ->].
  - intros [b|e] Hb; [apply yields_ret; intros b' [= <-]; by apply Hb|].
    destruct e; try apply yields_throw; (apply yields_skip; intros []; by apply yields_ret).
Qed.

Lemma fetch_blob_yields r digest cache max_bytes kind :
  yields (λ b, verify_digest sha256 b digest = Ok tt) (fetch_blob_cached sha256 r digest cache max_bytes kind).
Proof.
  unfold fetch_blob_cached. apply yields_skip. intros name. eapply yields_bind; [apply read_blob_yields|].
  intros [b|] Hb; [apply yields_ret; auto|]. apply yields_skip. intros b.
  apply (yields_bind (λ _, verify_digest sha256 b digest = Ok tt)); [apply yields_lift; by intros []|].
  intros _ Hv. apply yields_skip. intros []. by apply yields_ret.
Qed.
End values.

(** ** Calls that leave some paths alone *)

Section watch.
Context {U : UrlLib} {Henv : Env string} {Hserv : Servers} {Hjson : Jsons} {Hclock : Clock}.
Notation Files := (gmap Path (node string)).
Implicit Types fs : Files.

Definition view (w : Puller) : Files := files (p_os w).

Context (W : Path → Prop).

Definition same_at fs fs' : Prop := ∀ p, W p → fs' !! p = fs !! p.
Definition keeps (w w' : Puller) : Prop := same_at (view w) (view w').

#[global] Instance keeps_preorder : PreOrder keeps.
Proof. split; [by intros w p|]. intros x y z Hx Hy p Hp. unfold keeps, same_at in *. by rewrite Hy // Hx. Qed.

(** No watched path lies at or below [p], or at or above [d]. *)
Definition apart (p : Path) : Prop := ∀ q, W q → ¬ p `prefix_of` q.
Definition clear (d : Path) : Prop := ∀ q, W q → ¬ q `prefix_of` d.

Lemma steps_on_os {E A : Type} (m : M (Os string) E A) :
  (∀ fs0, triple (λ fs, fs = fs0) m (λ _ fs, same_at fs0 fs)) → steps keeps (on_os m).
Proof.
  intros Hm w. unfold on_os, zoom. specialize (Hm (view w) (p_os w) eq_refl). unfold wp in Hm.
  destruct (m (p_os w)) as [o s']. exact Hm.
Qed.

Lemma keeps_io {A : Type} (m : M (Os string) IoError A) :
  (∀ fs0, triple (λ fs, fs = fs0) m (λ _ fs, same_at fs0 fs)) → steps keeps (io m).
Proof. intros Hm. apply (steps_mapE keeps), steps_on_os, Hm. Qed.

Lemma same_at_refl fs fs0 : fs = fs0 → same_at fs0 fs.
Proof using Type. by intros -> p. Qed.

Lemma keeps_look {A : Type} (c : Call string) (f : Files → result IoError A) : steps keeps (io (look c f)).
Proof. apply keeps_io. intros fs0. apply triple_look; intros; by apply same_at_refl. Qed.

Lemma keeps_dirs d : clear d → steps keeps (io (create_dir_all d)).
Proof.
  intros Hd. apply keeps_io. intros fs0. eapply triple_weaken; [apply (create_dir_all_adds fs0)|done|].
  intros o fs Ha p Hp. apply (adds_dirs_other _ _ _ _ Ha). auto.
Qed.

Lemma apart_neq p q : apart p → W q → p ≠ q.
Proof using Type. intros Hp Hq ->. by apply (Hp q Hq). Qed.

Lemma same_at_insert p n fs fs0 : apart p → fs = fs0 → same_at fs0 (<[p := n]> fs).
Proof using Type. intros Hp -> q Hq. rewrite lookup_insert_ne //. by apply apart_neq. Qed.

Lemma same_at_delete p fs fs0 : apart p → fs = fs0 → same_at fs0 (delete p fs).
Proof using Type. intros Hp -> q Hq. rewrite lookup_delete_ne //. by apply apart_neq. Qed.

Lemma keeps_remove p : apart p → steps keeps (io (remove_file p)).
Proof.
  intros Hp. apply keeps_io. intros fs0. apply triple_atomic; [|intros; by apply same_at_refl..].
  intros fs a fs' HP E. repeat case_match; simplify_eq. by apply same_at_delete.
Qed.

Lemma keeps_remove_dir d : apart d → steps keeps (io (remove_dir_all d)).
Proof.
  intros Hd. apply keeps_io. intros fs0. apply triple_sys; [|intros; by apply same_at_refl| |].
  - intros fs a fs' -> E. repeat case_match; simplify_eq. intros q Hq.
    destruct (fs0 !! q) as [n|] eqn:En; [|by apply map_lookup_filter_None; left].
    apply map_lookup_filter_Some. split; [done|]. by apply Hd.
  - intros fs h e -> q Hq. destruct (fs0 !! q) as [n|] eqn:En; [|by apply map_lookup_filter_None; left].
    apply map_lookup_filter_Some. split; [done|]. left. by apply Hd.
  - intros fs h -> q Hq. destruct (fs0 !! q) as [n|] eqn:En; [|by apply map_lookup_filter_None; left].
    apply map_lookup_filter_Some. split; [done|]. left. by apply Hd.
Qed.

Lemma keeps_create p : apart p → steps keeps (io (create_file p)).
Proof.
  intros Hp. apply keeps_io. intros fs0. apply triple_atomic; [|intros; by apply same_at_refl..].
  intros fs a fs' HP E. repeat case_match; simplify_eq; by apply same_at_insert.
Qed.

Lemma keeps_append p chunk : apart p → steps keeps (io (append_chunk p chunk)).
Proof.
  intros Hp. apply keeps_io. intros fs0. apply triple_sys; [|intros; by apply same_at_refl| |].
  - intros fs a fs' HP [= <- <-]. repeat case_match; solve [by apply same_at_refl | by apply same_at_insert].
  - intros. by apply same_at_insert.
  - intros. by apply same_at_insert.
Qed.

Lemma keeps_rename p q : p ≠ q → apart p → apart q → steps keeps (io (rename p q)).
Proof.
  intros Hne Hp Hq. apply keeps_io. intros fs0. apply triple_atomic; [|intros; by apply same_at_refl..].
  intros fs a fs' -> E. apply rename_ok in E as [_ ->]; [|done]. intros x Hx. rewrite rename_lookup.
  rewrite bool_decide_false; [by apply Hq|]. by rewrite bool_decide_false; [apply Hp|].
Qed.

Lemma keeps_write d x bytes : apart (d ++ [x])%list → (∀ y, starts_with "." y = true → apart (d ++ [y])%list) → clear d →
  path_name x → steps keeps (io (write_atomic_file (d ++ [x])%list bytes)).
Proof.
  intros Hx Htmp Hd Hn. apply keeps_io. intros fs0.
  eapply triple_weaken; [apply (write_atomic_file_triple fs0 d x bytes Hn)|done|].
  intros o fs (m & [_ Hm] & He & _) q Hq. destruct (He q) as [->|(Hp & _)]; [..|done|].
  - by apply Hx.
  - by apply Htmp.
  - exfalso. by apply (Hd q Hq).
Qed.

Lemma keeps_unchanged {A : Type} (m : M Puller OciError A) : (∀ w, p_os (m w).2 = p_os w) → steps keeps m.
Proof. intros Hm w. unfold keeps, view. rewrite Hm. by intros q. Qed.

Lemma send_os rq : ∀ w, p_os (send rq w).2 = p_os w.
Proof.
  unfold send. generalize (S MAX_REGISTRY_REDIRECTS), (@nil Url) as previous. intros fuel previous. revert previous rq.
  induction fuel as [|fuel IH]; intros previous rq w; simpl; destruct (answer _ _); try done.
  - by destruct (registry_redirect_policy _ _).
  - destruct (registry_redirect_policy _ _); [by rewrite IH|done].
Qed.

Lemma keeps_send rq : steps keeps (send rq).
Proof. apply keeps_unchanged, send_os. Qed.
Lemma keeps_temp stem : steps keeps (temp_name stem).
Proof. by apply keeps_unchanged. Qed.
Lemma keeps_read p : steps keeps (io (read_file p)).
Proof. apply keeps_look. Qed.
Lemma keeps_exists p : steps keeps (io (try_exists p)).
Proof. apply keeps_look. Qed.
Lemma keeps_canonicalize p : steps keeps (io (canonicalize p)).
Proof. apply keeps_look. Qed.
Lemma keeps_flush p : steps keeps (io (flush p)).
Proof. apply keeps_look. Qed.
Lemma keeps_metadata p : steps keeps (on_os (metadata p)).
Proof.
  apply steps_on_os. intros fs0 s Hs. unfold metadata.
  eapply (triple_look _ _ (λ fs, fs = fs0) (λ _ fs, same_at fs0 fs)); [..|exact Hs]; intros; by apply same_at_refl.
Qed.
Lemma keeps_gets {A : Type} (f : Puller → A) : steps keeps (gets f : M Puller OciError A).
Proof. apply (steps_gets keeps). Qed.
End watch.

Create HintDb keeps discriminated.
#[local] Hint Constants Opaque : keeps.
#[local] Hint Resolve keeps_remove keeps_remove_dir keeps_create keeps_append keeps_send keeps_temp keeps_read keeps_exists
  keeps_canonicalize keeps_flush keeps_metadata keeps_gets keeps_dirs : keeps.
#[local] Hint Resolve steps_attempt steps_ignore steps_on_error steps_ret steps_throw steps_lift steps_forM
  steps_bind keeps_preorder : keeps.
#[local] Hint Extern 10 (steps _ _) => case_match : keeps.

Ltac keep := auto 60 with keeps.

Section watch2.
Context {U : UrlLib} {Henv : Env string} {Hserv : Servers} {Hjson : Jsons} {Hclock : Clock}.
Context (W : Path → Prop).
Notation keeps := (keeps W).

Lemma keeps_auth url repository accept : steps keeps (get_with_auth url repository accept).
Proof. unfold get_with_auth, fetch_token. keep. Qed.

Lemma keeps_read_pieces p : steps keeps (read_pieces p).
Proof. unfold read_pieces. keep. Qed.

Lemma keeps_chunks p kind max_bytes downloaded hashed chunks : apart W p →
  steps keeps (download_chunks p kind max_bytes downloaded hashed chunks).
Proof.
  intros Hp. revert downloaded hashed. induction chunks as [|c cs IH]; intros downloaded hashed; simpl; keep.
Qed.
End watch2.
#[local] Hint Resolve keeps_auth keeps_read_pieces keeps_chunks : keeps.

(** ** The caches *)

Section caches.
Context {U : UrlLib} {Henv : Env string} {Hserv : Servers} {Hjson : Jsons} {Hclock : Clock}.
Context (sha256 : string → string) (arch : string).
Context (build : list (Path * string) → Path → Path → M (Os string) OciError ()).
Notation Files := (gmap Path (node string)).
Implicit Types fs : Files.

(** What [build_erofs_from_staging] makes of layers with these contents and media
    types: the file a run of it left at the place of the image when it returned,
    given blobs that held exactly these, in this order. *)
Definition built (contents : list (string * string)) (e : string) : Prop :=
  ∃ blobs staging image (s s' : Os string), build blobs staging image s = (Ret tt, s') ∧
    Forall2 (λ b c, files s !! b.1 = Some (File c.1) ∧ b.2 = c.2) blobs contents ∧ files s' !! image = Some (File e).

(** The image file [e] was built from layers with these digests, in order. *)
Definition made (key e : string) : Prop :=
  ∃ (layers : list Descriptor) (contents : list string),
    rootfs_cache_key sha256 layers = key ∧
    Forall2 (λ l c, verify_digest sha256 c (digest l) = Ok tt) layers contents ∧
    built (zip contents (map (λ l, default "" (media_type l)) layers)) e.

Definition entry_name (layers : list Descriptor) : string := rootfs_cache_key sha256 layers ++ ".erofs".

(** Every image in the cache was built from layers its name is the key of. *)
Definition cache_ok (cache : Path) fs : Prop := ∀ layers n,
  fs !! (cache ++ [entry_name layers])%list = Some n →
  ∃ e, n = File e ∧ made (rootfs_cache_key sha256 layers) e.

(** What is relied on of the build of a root file system, whose unpacking is that
    of [Extract] and whose last step is mkfs.erofs: it changes the staging
    directory and the image only, opens each blob, and leaves a file where it was
    told to when it returns.  What is in that file is not said here. *)
Record builds : Prop := {
  build_frame blobs staging image fs0 : triple (λ fs, fs = fs0) (build blobs staging image) (λ _ fs,
    ∀ p, ¬ staging `prefix_of` p → ¬ p `prefix_of` staging → ¬ p `prefix_of` image → fs !! p = fs0 !! p);
  build_opens blobs staging image fs0 : triple (λ fs, fs = fs0) (build blobs staging image) (λ o _,
    o = Ret tt → Forall (λ b, ∃ c, fs0 !! b.1 = Some (File c)) blobs);
  build_leaves blobs staging image fs0 : triple (λ fs, fs = fs0) (build blobs staging image) (λ o fs,
    o = Ret tt → ∃ e, fs !! image = Some (File e));
}.

Lemma build_result blobs staging image fs0 : builds → triple (λ fs, fs = fs0) (build blobs staging image) (λ o fs,
  o = Ret tt → ∃ contents e, Forall2 (λ b c, fs0 !! b.1 = Some (File c)) blobs contents ∧
    fs !! image = Some (File e) ∧ built (zip contents (map snd blobs)) e).
Proof.
  intros [_ Ho Hl] s Hs. pose proof (Ho blobs staging image fs0 s Hs) as Ho'. pose proof (Hl blobs staging image fs0 s Hs) as Hl'.
  unfold wp in *. destruct (build blobs staging image s) as [o s'] eqn:Eb. intros ->. specialize (Ho' eq_refl). destruct (Hl' eq_refl) as [e He].
  assert (∃ contents, Forall2 (λ b c, fs0 !! b.1 = Some (File c)) blobs contents) as [contents Hc].
  { clear -Ho'. induction Ho' as [|b bs [c Hb] _ [cs IH]]; [by exists []|]. exists (c :: cs). by constructor. }
  exists contents, e. split_and!; [done..|]. exists blobs, staging, image, s, s'. split_and!; [done| |done]. rewrite Hs. clear -Hc.
  induction Hc as [|b c bs cs Hb _ IH]; [constructor|]. by constructor.
Qed.

(** The directories: of layers, manifests and images, and for staging. *)
Context (L Mn R staging : Path).
Hypothesis (Hsha : ∀ x, str_forallb is_ascii_hexdigit (sha256 x) = true).
Hypothesis (HLR : diverge L R) (HMR : diverge Mn R) (HSR : diverge staging R).
Hypothesis (Hbuild : builds).

Definition images (p : Path) : Prop := ∃ layers, p = (R ++ [entry_name layers])%list.
Definition blobs (p : Path) : Prop := ∃ digest name, blob_filename digest = Ok name ∧ p = (L ++ [name])%list.
Notation keeps_images := (steps (keeps images)).
Notation keeps_blobs := (steps (keeps blobs)).

Lemma child_prefix {A : Type} (a b : list A) x y : (a ++ [x])%list `prefix_of` (b ++ [y])%list → a `prefix_of` b ∨ a = b.
Proof.
  intros [k Hk]. destruct k as [|z k _] using rev_ind.
  - rewrite app_nil_r in Hk. apply app_inj_tail in Hk as [-> _]. auto.
  - left. rewrite app_assoc in Hk. apply app_inj_tail in Hk as [-> _]. exists (x :: k). by rewrite -app_assoc.
Qed.

Lemma apart_in d x : diverge d R → apart images (d ++ [x])%list.
Proof using Type. intros [H1 H2] q [layers ->] [?| ->]%child_prefix; auto. Qed.

Lemma clear_of d : (d = R ∨ diverge d R) → clear images d.
Proof using Type.
  intros Hd q [layers ->] Hp. destruct Hd as [->|[_ H2]]; [by apply child_not_prefix in Hp|]. apply H2.
  etrans; [by exists [entry_name layers]|exact Hp].
Qed.

(** A temporary name is neither an image nor a blob. *)
Lemma temp_name_neq stem pid n x : starts_with "." x = false → temp_name_text pid n stem ≠ x.
Proof. intros Hx <-. done. Qed.

Lemma dotted_apart_blobs x : starts_with "." x = true → apart blobs (L ++ [x])%list.
Proof.
  intros Hx q (digest & name & Hname & ->) Hp. assert (Hdot : starts_with "." name = false).
  { apply blob_filename_ok in Hname as (h & _ & _ & ->). done. }
  destruct (decide (x = name)) as [->|Hne]; [by rewrite Hx in Hdot|]. by apply sibling_not_prefix in Hp.
Qed.

Lemma sha_path_name (pre key suf : string) :
  str_forallb is_ascii_hexdigit key = true → str_forallb (not_char "/") pre = true →
  str_forallb (not_char "/") suf = true → (3 ≤ String.length suf)%nat → path_name (pre ++ key ++ suf).
Proof.
  intros Hk Hp Hs Hl. split.
  - rewrite !str_forallb_app Hp Hs andb_true_r /=. by apply hex_no_char.
  - intros E. apply (f_equal String.length) in E. rewrite !length_app_s /= in E. lia.
  - intros E. apply (f_equal String.length) in E. rewrite !length_app_s /= in E. lia.
  - intros E. apply (f_equal String.length) in E. rewrite !length_app_s /= in E. lia.
Qed.

Lemma blob_path_name digest n : blob_filename digest = Ok n → path_name n ∧ starts_with "." n = false.
Proof.
  intros (h & [_ Hh] & _ & ->)%blob_filename_ok. split; [|done]. by apply (sha_path_name "sha256-" h ".blob"); [|..|simpl; lia].
Qed.

Lemma keeps_write_in d x bytes : diverge d R → path_name x → keeps_images (io (write_atomic_file (d ++ [x])%list bytes)).
Proof. intros Hd Hx. apply keeps_write; [by apply apart_in|intros; by apply apart_in|by apply clear_of; right|done]. Qed.

Lemma keeps_manifest r manifest_ref expected : keeps_images (fetch_manifest sha256 r manifest_ref expected Mn).
Proof.
  assert (Hname : path_name (manifest_cache_key sha256 r manifest_ref ++ ".json")).
  { apply (sha_path_name "" _ ".json"); try done; [apply Hsha|simpl; lia]. }
  assert (Ha : apart images (manifest_cache_path sha256 Mn r manifest_ref)) by by apply apart_in.
  pose proof (λ bytes, keeps_write_in Mn _ bytes HMR Hname) as Hw.
  unfold fetch_manifest, read_manifest_cache, write_manifest_cache. keep.
Qed.
#[local] Hint Resolve keeps_manifest : keeps.

Lemma keeps_resolve r : keeps_images (resolve_manifest sha256 arch r Mn).
Proof. unfold resolve_manifest. keep. Qed.

Lemma keeps_blob r digest max_bytes kind : keeps_images (fetch_blob_cached sha256 r digest L max_bytes kind).
Proof.
  unfold fetch_blob_cached. apply steps_lift_bind; [apply _|]. intros name [Hname _]%blob_path_name.
  assert (Ha : apart images (L ++ [name])%list) by by apply apart_in.
  pose proof (λ bytes, keeps_write_in L name bytes HLR Hname) as Hw.
  unfold read_blob_cache, read_blob_file_limited, fetch_blob, write_blob_cache. keep.
Qed.

(** Fetching a layer changes its blob and temporary names only. *)
Lemma keeps_download (W : Path → Prop) r digest name max_bytes :
  (∀ x, starts_with "." x = true → apart W (L ++ [x])%list) → apart W (L ++ [name])%list →
  blob_filename digest = Ok name → steps (keeps W) (download_blob_cached sha256 r digest L (L ++ [name])%list max_bytes).
Proof.
  intros Hdotted Hn Hname. destruct (blob_path_name digest name Hname) as [_ Hdot].
  unfold download_blob_cached. apply steps_lift_bind; [apply _|]. intros name' Hname'. simplify_eq.
  intros w. unfold temp_name, mbind at 1, M_bind at 1. cbn [fst snd].
  set (tmp := temp_name_text _ _ _).
  assert (Hne : (L ++ [tmp])%list ≠ (L ++ [name])%list).
  { intros [=E]%app_inv_head. exact (temp_name_neq _ _ _ _ Hdot E). }
  assert (Ht : apart W (L ++ [tmp])%list) by by apply Hdotted.
  pose proof (keeps_rename _ _ _ Hne Ht Hn) as Hr.
  match goal with |- keeps _ w (?m ?w').2 => assert (Hm : steps (keeps W) m) by (unfold download_blob; keep); exact (Hm w') end.
Qed.

Lemma planned dl layer : plan_download L layer = Ok dl →
  ∃ name max_bytes, blob_filename (digest layer) = Ok name ∧
    dl = mkDownload (L ++ [name])%list (digest layer) (default "" (media_type layer)) max_bytes.
Proof.
  unfold plan_download. destruct (blob_filename (digest layer)) as [name|]; [|done].
  destruct (descriptor_body_limit _ _ _) as [max_bytes|]; [|done]. intros [= <-]. eauto.
Qed.

Lemma keeps_layer (W : Path → Prop) r dl layer :
  (∀ x, starts_with "." x = true → apart W (L ++ [x])%list) → apart W (dl_cached dl) →
  plan_download L layer = Ok dl → steps (keeps W) (fetch_layer sha256 r L dl).
Proof.
  intros Hdotted Hn (name & max_bytes & Hname & ->)%planned. cbn [dl_cached] in Hn.
  pose proof (keeps_download W r (digest layer) name max_bytes Hdotted Hn Hname) as Hd.
  unfold fetch_layer, verify_blob_file. cbn [dl_cached dl_digest dl_max]. keep.
Qed.

(** *** What a fetched layer is *)

Definition good fs (d : string) : Prop := ∃ name c,
  blob_filename d = Ok name ∧ fs !! (L ++ [name])%list = Some (File c) ∧ verify_digest sha256 c d = Ok tt.

Lemma io_ret {A : Type} (m : M (Os string) IoError A) w a w' :
  io m w = (Ret a, w') → ∃ s', m (p_os w) = (Ret a, s') ∧ view w' = files s'.
Proof.
  unfold io, mapE, on_os, zoom, view. destruct (m (p_os w)) as [[x|e|] s'] eqn:E; try done.
  intros [= <- <-]. by exists s'.
Qed.

Lemma sys_ret {A : Type} (c : Call string) run broken s (a : A) s' :
  Os.sys c run broken s = (Ret a, s') → run (files s) = Ok (a, files s').
Proof.
  unfold Os.sys. destruct (env_reply _ _); [|done..]. destruct (run (files s)) as [[x fs]|]; [|done]. by intros [= <- <-].
Qed.

Lemma look_ret {A : Type} (c : Call string) f s (a : A) s' :
  look c f s = (Ret a, s') → f (files s) = Ok a ∧ files s' = files s.
Proof. intros Hl%sys_ret. destruct (f (files s)) as [x|] eqn:E; [|done]. by injection Hl as -> ->. Qed.

Lemma chunks_ret p kind max_bytes downloaded hashed chunks w h w' :
  view w !! p = Some (File hashed) →
  download_chunks p kind max_bytes downloaded hashed chunks w = (Ret h, w') → view w' !! p = Some (File h).
Proof.
  revert downloaded hashed w. induction chunks as [|c cs IH]; intros downloaded hashed w Hp; simpl.
  - by intros [= <- <-].
  - case_match; [done|]. case_match; [done|]. intros (x & w1 & Ha & Hk)%bind_ret. apply (IH _ _ _) in Hk; [done|].
    apply io_ret in Ha as (s' & Ha & ->). apply sys_ret in Ha. fold (view w) in Ha. rewrite Hp in Ha.
    injection Ha as _ <-. apply lookup_insert_eq.
Qed.

Lemma create_ret p w x w' : p ≠ [] → io (create_file p) w = (Ret x, w') → view w' !! p = Some (File "").
Proof.
  intros Hp (s' & Hc & ->)%io_ret. apply sys_ret in Hc.
  destruct (node_at _ p) as [[b|]|]; [|done|destruct (parent_is_dir _ p); [|done]]; injection Hc as _ <-; apply lookup_insert_eq.
Qed.

Lemma download_ret r d p max_bytes kind w x w' : p ≠ [] →
  download_blob sha256 r d p max_bytes kind w = (Ret x, w') →
  ∃ c, view w' !! p = Some (File c) ∧ verify_digest sha256 c d = Ok tt.
Proof.
  intros Hp (url & w1 & _ & Hk)%bind_ret. apply bind_ret in Hk as (response & w2 & _ & Hk).
  apply bind_ret in Hk as (y & w3 & Hc & Hk). apply (create_ret p) in Hc; [|done].
  apply bind_ret in Hk as (hashed & w4 & Hd & Hk). apply (chunks_ret _ _ _ _ _ _ _ _ _ Hc) in Hd.
  apply bind_ret in Hk as (z & w5 & He & Hk). assert (w5 = w4) as -> by (by destruct (body_error response); injection He).
  apply bind_ret in Hk as (u & w6 & Hf & Hv). apply io_ret in Hf as (s' & [_ Hf]%look_ret & Hw6).
  unfold lift_result in Hv. destruct (verify_digest sha256 hashed d) as [[]|] eqn:E; [|done]. injection Hv as _ <-.
  exists hashed. split; [|done]. by rewrite Hw6 Hf.
Qed.

Lemma rename_ret p q w x w' : p ≠ q → io (rename p q) w = (Ret x, w') → view w' = rename_files p q (view w).
Proof. intros Hne (s' & Hr & ->)%io_ret. apply sys_ret in Hr. by apply rename_ok in Hr as [_ ->]. Qed.

Lemma download_cached_ret r d name max_bytes w x w' : blob_filename d = Ok name →
  download_blob_cached sha256 r d L (L ++ [name])%list max_bytes w = (Ret x, w') → good (view w') d.
Proof.
  intros Hname. destruct (blob_path_name d name Hname) as [_ Hdot]. unfold download_blob_cached. rewrite Hname.
  intros (n & w1 & Hn & Hk)%bind_ret. injection Hn as <- <-.
  apply bind_ret in Hk as (tmp & w2 & Ht & Hk).
  assert (Hne : (L ++ [tmp])%list ≠ (L ++ [name])%list).
  { intros [=E]%app_inv_head. injection Ht as Ht _. rewrite E in Ht. exact (temp_name_neq _ _ _ _ Hdot Ht). }
  apply bind_ret in Hk as (y & w3 & Hd & Hr).
  assert (Hd' : download_blob sha256 r d (L ++ [tmp])%list max_bytes "layer" w2 = (Ret y, w3)).
  { unfold on_error in Hd. destruct (download_blob _ _ _ _ _ _ _) as [[a|e|] w4]; [done| |done].
    by destruct (ignore _ w4) as [[] ?]. }
  apply download_ret in Hd' as (c & Hc & Hv); [|by destruct L]. apply rename_ret in Hr; [|done].
  exists name, c. split; [done|]. split; [|done].
  rewrite Hr rename_lookup bool_decide_true //. by rewrite drop_ge // app_nil_r.
Qed.

Lemma str_concat_pieces fuel b : (String.length b ≤ fuel)%nat → str_concat (pieces fuel b) = b.
Proof.
  revert b. induction fuel as [|fuel IH]; intros [|a b] Hl; simpl in Hl; [done|lia|done|].
  change (str_concat (pieces (S fuel) (String a b))) with
    (str_take (Z.to_nat 8192) (String a b) ++ str_concat (pieces fuel (str_drop (Z.to_nat 8192) (String a b)))).
  rewrite IH; [|apply str_take_drop]. change (Z.to_nat 8192) with (S (Z.to_nat 8191)). cbn [str_drop].
  assert (Hd : ∀ n s, (String.length (str_drop n s) ≤ String.length s)%nat).
  { intros n. induction n as [|n IHn]; intros [|x t]; simpl; try lia. specialize (IHn t). lia. }
  specialize (Hd (Z.to_nat 8191) b). lia.
Qed.

Lemma verify_file_ret p d w x w' : p ≠ [] → verify_blob_file sha256 p d w = (Ret x, w') →
  ∃ c, view w' !! p = Some (File c) ∧ verify_digest sha256 c d = Ok tt.
Proof.
  intros Hp (chunks & w1 & Hr & Hv)%bind_ret. apply bind_ret in Hr as (b & w2 & Hb & Hk).
  injection Hk as <- <-. apply io_ret in Hb as (s' & [Hn Hs]%look_ret & Hw).
  unfold lift_result in Hv. destruct (verify_digest _ _ _) as [[]|] eqn:E; [|done]. injection Hv as _ <-.
  rewrite str_concat_pieces // in E. exists b. split; [|done]. rewrite Hw Hs.
  destruct p as [|q p]; [done|]. unfold node_at in Hn. destruct (_ !! _) as [[]|]; [|done..]. by injection Hn as ->.
Qed.

Lemma layer_ret r dl layer w x w' : plan_download L layer = Ok dl →
  fetch_layer sha256 r L dl w = (Ret x, w') →
  good (view w') (digest layer) ∧ ∀ d, good (view w) d → good (view w') d.
Proof.
  intros Hplan Hf. pose proof Hplan as Hdl. apply planned in Hdl as (name & max_bytes & Hname & ->).
  assert (Hgood : good (view w') (digest layer)).
  { revert Hf. unfold fetch_layer. cbn [dl_cached dl_digest dl_max]. intros (there & w1 & _ & Hk)%bind_ret.
    destruct there; [|by apply (download_cached_ret r _ name) in Hk].
    apply bind_ret in Hk as (v & w2 & Hv & Hk). destruct v as [u|e].
    - injection Hk as _ <-. unfold attempt in Hv. destruct (verify_blob_file _ _ _ _) as [[a|e|] w3] eqn:E; try done.
      injection Hv as _ <-. apply verify_file_ret in E as (c & Hc & Hd); [|by destruct L]. by exists name, c.
    - destruct e; try done. apply bind_ret in Hk as (y & w3 & _ & Hk). by apply (download_cached_ret r _ name) in Hk. }
  split; [done|]. intros d (name' & c & Hn' & Hc & Hv).
  destruct (decide (name' = name)) as [->|Hne]; [by rewrite (blob_filename_inj d (digest layer) name)|].
  exists name', c. split; [done|]. split; [|done]. rewrite -Hc.
  assert (Hk : steps (keeps (λ p, p = (L ++ [name'])%list)) (fetch_layer sha256 r L (mkDownload (L ++ [name])%list (digest layer)
    (default "" (media_type layer)) max_bytes))).
  { apply (keeps_layer _ r _ layer); [| |done].
    - intros y Hy q ->. apply sibling_not_prefix. intros ->. apply blob_path_name in Hn' as [_ Hd]. by rewrite Hy in Hd.
    - intros q ->. apply sibling_not_prefix. congruence. }
  specialize (Hk w). rewrite Hf in Hk. by apply Hk.
Qed.

Lemma layers_ret r dls layers w x w' :
  Forall2 (λ l dl, plan_download L l = Ok dl) layers dls → forM dls (fetch_layer sha256 r L) w = (Ret x, w') →
  Forall (λ l, good (view w') (digest l)) layers ∧ ∀ d, good (view w) d → good (view w') d.
Proof.
  intros Hall. revert w. induction Hall as [|l dl ls dls Hl _ IH]; intros w; simpl; [intros [= <- <-]; by split|].
  intros (y & w1 & Hf & Hk)%bind_ret. apply (layer_ret r dl l) in Hf as [Hg Hp]; [|done].
  apply IH in Hk as [Ha Hp']. split; [constructor; auto|auto].
Qed.

Lemma plans layers dls : flat_map_result (λ l, result_map (λ d, [d]) (plan_download L l)) layers = Ok dls →
  Forall2 (λ l dl, plan_download L l = Ok dl) layers dls.
Proof.
  revert dls. induction layers as [|l layers IH]; intros dls; simpl; [intros [= <-]; constructor|].
  destruct (plan_download L l) as [dl|] eqn:El; [|done]. simpl. destruct (flat_map_result _ _) as [rest|]; [|done]. simpl.
  intros [= <-]. constructor; [done|]. by apply IH.
Qed.

(** *** The image *)

Lemma same_at_cache_ok fs fs' : same_at images fs fs' → cache_ok R fs → cache_ok R fs'.
Proof using Type. intros Hs Hc layers n. rewrite Hs; [by exists layers|]. apply Hc. Qed.

Lemma entry_not_temp layers stem pid n : entry_name layers ≠ temp_name_text pid n stem.
Proof.
  unfold entry_name, temp_name_text. intros E. apply (f_equal str_rev) in E. rewrite -!app_assoc_s !str_rev_concat in E.
  discriminate.
Qed.

Lemma staging_apart : apart images staging.
Proof.
  intros q [layers ->] Hp. destruct HSR as [H1 H2]. destruct Hp as [k Hk]. destruct k as [|z k _] using rev_ind.
  - rewrite app_nil_r in Hk. apply H2. rewrite -Hk. by exists [entry_name layers].
  - rewrite app_assoc in Hk. apply app_inj_tail in Hk as [Hk _]. apply H1. rewrite Hk. by exists k.
Qed.

Lemma temp_apart stem pid n : apart images (R ++ [temp_name_text pid n stem])%list.
Proof.
  intros q [layers ->]. apply sibling_not_prefix. intros E. by apply (entry_not_temp layers stem pid n).
Qed.

(** Judges a run from a cache that is right: it stays right, and what is
    returned satisfies [Q]. *)
Definition runs {A : Type} (Q : A → Puller → Prop) (m : M Puller OciError A) (w : Puller) : Prop :=
  cache_ok R (view w) → cache_ok R (view (m w).2) ∧ ∀ a, (m w).1 = Ret a → Q a (m w).2.

Lemma runs_bind {A A' : Type} (Q : A' → Puller → Prop) (m : M Puller OciError A) (k : A → M Puller OciError A') w :
  keeps_images m → (∀ a w1, m w = (Ret a, w1) → runs Q (k a) w1) → runs Q (m ≫= k) w.
Proof.
  intros Hm Hk Hc. specialize (Hm w). specialize (Hk). unfold mbind, M_bind.
  destruct (m w) as [[a|e|] w1] eqn:E; simpl in *; [apply (Hk a w1 eq_refl)|..]; try (split; [|done]);
    by apply (same_at_cache_ok (view w)).
Qed.

Lemma runs_ret {A : Type} (Q : A → Puller → Prop) (a : A) w : Q a w → runs Q (mret a) w.
Proof. intros HQ Hc. split; [done|]. by intros x [= <-]. Qed.

Lemma runs_throw {A : Type} (Q : A → Puller → Prop) e w : runs Q (throw e) w.
Proof. intros Hc. by split. Qed.

Lemma runs_lift_bind {A A' : Type} (Q : A' → Puller → Prop) (r : result OciError A) (k : A → M Puller OciError A') w :
  (∀ a, r = Ok a → runs Q (k a) w) → runs Q (lift_result r ≫= k) w.
Proof.
  intros Hk. apply runs_bind; [apply (steps_lift (keeps images))|]. intros a w1 E. destruct r as [x|]; [|done].
  injection E as <- <-. auto.
Qed.

(** The images built and published. *)
Lemma publish_runs (layers : list Descriptor) w tmp :
  (∃ stem pid n, tmp = temp_name_text pid n stem) →
  (∃ e, view w !! (R ++ [tmp])%list = Some (File e) ∧ made (rootfs_cache_key sha256 layers) e) →
  runs (λ _ w', ∃ e, view w' !! (R ++ [entry_name layers])%list = Some (File e) ∧ made (rootfs_cache_key sha256 layers) e)
    (io (publish_atomic_file (R ++ [tmp])%list (R ++ [entry_name layers])%list)) w.
Proof.
  intros (stem & pid & i & ->) (e & He & Hm) Hc. set (tmp := temp_name_text pid i stem) in *.
  assert (Hne : entry_name layers ≠ tmp) by apply entry_not_temp.
  assert (Hp : triple (λ fs, fs = view w) (publish_atomic_file (R ++ [tmp])%list (R ++ [entry_name layers])%list)
    (λ o fs, elsewhere R (R ++ [entry_name layers])%list (R ++ [tmp])%list (view w) fs ∧
       (fs !! (R ++ [entry_name layers])%list = view w !! (R ++ [entry_name layers])%list ∧ (∀ a, o ≠ Ret a) ∨
        fs !! (R ++ [entry_name layers])%list = Some (File e)))).
  { eapply triple_weaken; [apply (publish_atomic_file_triple (view w) R (entry_name layers) tmp e Hne)| |].
    - intros fs ->. split_and!; [by intros q _ _; left|done|done].
    - naive_solver. }
  specialize (Hp (p_os w) eq_refl). unfold wp in Hp. unfold io, mapE, on_os, zoom.
  destruct (publish_atomic_file _ _ (p_os w)) as [o s']. destruct Hp as [Hels Hent].
  assert (Hc' : cache_ok R (files s')).
  { intros layers' n Hn. destruct (decide (entry_name layers' = entry_name layers)) as [E|Hdiff].
    - assert (Hkey : rootfs_cache_key sha256 layers' = rootfs_cache_key sha256 layers) by by apply app_inj_r_s in E.
      rewrite E in Hn. rewrite Hkey. destruct Hent as [[Hs _]|Hs]; rewrite Hs in Hn; [by apply Hc|]. injection Hn as <-. eauto.
    - apply Hc. destruct (Hels (R ++ [entry_name layers'])%list) as [<-|(Hp & _)]; [..|done|by apply child_not_prefix in Hp].
      + apply sibling_not_prefix. by apply not_eq_sym.
      + apply sibling_not_prefix. intros E. by apply (entry_not_temp layers' stem pid i). }
  destruct o as [a|e'|]; simpl; (split; [exact Hc'|]); try done. intros x _. exists e. split; [|done].
  destruct Hent as [[_ Hx]|Hs]; [by destruct (Hx a)|done].
Qed.

Lemma keeps_build bs tmp : (∃ stem pid n, tmp = temp_name_text pid n stem) →
  keeps_images (on_error (ignore (io (remove_file (R ++ [tmp])%list)) ;; ignore (remove_staging staging))
    (on_os (build bs staging (R ++ [tmp])%list))).
Proof.
  intros (stem & pid & n & ->). pose proof (temp_apart stem pid n) as Ha. pose proof staging_apart as Hs.
  apply (steps_on_error (keeps images)); [unfold remove_staging; keep|].
  apply steps_on_os. intros fs0. eapply triple_weaken; [apply (build_frame Hbuild _ _ _ fs0)|done|].
  intros o fs Hf q Hq. apply Hf; [by apply staging_apart| |].
  - apply clear_of; [by right|done].
  - destruct Hq as [layers ->]. apply sibling_not_prefix. intros E. by apply (entry_not_temp layers stem pid n).
Qed.

Lemma build_ret layers dls tmp w x w' :
  Forall2 (λ l dl, plan_download L l = Ok dl) layers dls → Forall (λ l, good (view w) (digest l)) layers →
  on_error (ignore (io (remove_file (R ++ [tmp])%list)) ;; ignore (remove_staging staging))
    (on_os (build (map (λ d, (dl_cached d, dl_media_type d)) dls) staging (R ++ [tmp])%list)) w = (Ret x, w') →
  ∃ e, view w' !! (R ++ [tmp])%list = Some (File e) ∧ made (rootfs_cache_key sha256 layers) e.
Proof.
  intros Hall Hgood Hb. set (bs := map _ dls) in *.
  pose proof (build_result bs staging (R ++ [tmp])%list (view w) Hbuild (p_os w) eq_refl) as Hr. unfold wp in Hr.
  unfold on_error, on_os, zoom in Hb. destruct (build bs staging _ (p_os w)) as [[[]|e|] s']; [| |done].
  2:{ by destruct ((ignore _ ;; ignore _) _) as [[] ?]. }
  injection Hb as _ <-. destruct (Hr eq_refl) as (contents & e & Hcs & He & Hbuilt). exists e. split; [exact He|].
  exists layers, contents. split; [done|].
  assert (Hmedia : map snd bs = map (λ l, default "" (media_type l)) layers).
  { subst bs. clear - Hall. induction Hall as [|l dl ls dls Hl _ IH]; [done|]. simpl. f_equal; [|exact IH].
    by apply planned in Hl as (name & max_bytes & _ & ->). }
  rewrite Hmedia in Hbuilt. split; [|done]. subst bs. clear - Hall Hgood Hcs.
  revert contents Hcs. induction Hall as [|l dl ls dls Hl _ IH]; intros contents Hcs; simpl in Hcs.
  - by apply Forall2_nil_inv_l in Hcs as ->.
  - apply Forall2_cons_inv_l in Hcs as (c & cs & Hc & Hcs & ->). apply Forall_cons in Hgood as [Hg Hgood].
    constructor; [|by apply IH]. apply planned in Hl as (name & max_bytes & Hn & ->). simpl in Hc.
    destruct Hg as (name' & c' & Hn' & Hc' & Hv). rewrite Hn in Hn'. injection Hn' as <-.
    rewrite Hc in Hc'. by injection Hc' as ->.
Qed.

(** What is known of an image that was pulled. *)
Definition provenance (r : ImageReference) (pulled : PulledImage) fs : Prop :=
  ∃ manifest descriptor blob e,
    resolves sha256 arch r manifest ∧
    config manifest = Some descriptor ∧ verify_digest sha256 blob (digest descriptor) = Ok tt ∧
    parse_config blob = Some (pulled_config pulled) ∧
    pulled_rootfs pulled = (R ++ [entry_name (layers manifest)])%list ∧
    fs !! pulled_rootfs pulled = Some (File e) ∧ made (rootfs_cache_key sha256 (layers manifest)) e.

Lemma keeps_layers r layers dls : Forall2 (λ l dl, plan_download L l = Ok dl) layers dls →
  keeps_images (forM dls (fetch_layer sha256 r L)).
Proof.
  induction 1 as [|l dl ls dls Hl _ IH]; simpl; [apply (steps_ret (keeps images))|].
  apply (steps_bind (keeps images)); [|intros _; exact IH].
  apply (keeps_layer images r dl l); [intros; by apply apart_in| |done].
  apply planned in Hl as (name & max_bytes & _ & ->). by apply apart_in.
Qed.

Lemma runs_then {A A' : Type} (P : Puller → Prop) (Q : A' → Puller → Prop) (m : M Puller OciError A)
    (k : A → M Puller OciError A') w :
  runs (λ _, P) m w → (∀ a w1, P w1 → runs Q (k a) w1) → runs Q (m ≫= k) w.
Proof.
  intros Hm Hk Hc. destruct (Hm Hc) as [Hc' Hr]. unfold mbind, M_bind.
  destruct (m w) as [[a|e|] w1]; simpl in *; [by apply Hk; [apply (Hr a)|]|by split..].
Qed.

Lemma build_runs r layers w :
  runs (λ _ w', ∃ e, view w' !! (R ++ [entry_name layers])%list = Some (File e) ∧ made (rootfs_cache_key sha256 layers) e)
    (build_rootfs sha256 build r layers L R (R ++ [entry_name layers])%list staging) w.
Proof.
  apply runs_bind; [apply keeps_dirs, clear_of; by right|]. intros u w1 _. clear u.
  apply runs_bind.
  { apply steps_lift_bind; [apply _|]. intros dls Hdls%plans. apply (steps_bind (keeps images)); [|keep].
    by apply (keeps_layers r layers). }
  intros bs w2 Hf. unfold fetch_layers_cached in Hf. apply bind_ret in Hf as (dls & w3 & Hd & Hf).
  assert (Hdls : flat_map_result (λ l, result_map (λ d, [d]) (plan_download L l)) layers = Ok dls).
  { unfold lift_result in Hd. destruct (flat_map_result _ _) as [x|]; [by injection Hd as -> _|done]. }
  apply plans in Hdls. apply bind_ret in Hf as (u & w4 & Hf & Hret). injection Hret as <- <-.
  apply (layers_ret r dls layers) in Hf as [Hgood _]; [|done]. clear Hd w3 u.
  apply runs_bind; [apply keeps_temp|]. intros tmp w5 Htmp. injection Htmp as <- <-.
  set (tmp := temp_name_text _ _ _). assert (Hex : ∃ stem pid n, tmp = temp_name_text pid n stem) by by eexists _, _, _.
  apply runs_bind; [by apply keeps_build|]. intros u w6 Hb. apply (build_ret layers) in Hb; [|done|done].
  by apply publish_runs.
Qed.

Lemma pull_runs image w :
  runs (λ pulled w', ∃ r, ImageReference_parse image = Ok r ∧ provenance r pulled (view w'))
    (pull_image_rootfs sha256 arch build image L Mn R staging) w.
Proof.
  unfold pull_image_rootfs. apply runs_lift_bind. intros r Hr.
  apply runs_bind; [apply keeps_resolve|]. intros manifest w1 Hm.
  pose proof (resolve_manifest_yields sha256 arch r Mn w) as Hres. rewrite Hm in Hres. simpl in Hres. clear Hm w.
  case_decide; [apply runs_throw|].
  apply runs_lift_bind. intros descriptor Hd. unfold ok_or in Hd. destruct (config manifest) as [d|] eqn:Ec; [|done].
  injection Hd as ->. apply runs_lift_bind. intros limit _.
  apply runs_bind; [apply keeps_blob|]. intros blob w2 Hb.
  pose proof (fetch_blob_yields sha256 r (digest descriptor) L limit "config" w1) as Hv. rewrite Hb in Hv. simpl in Hv. clear Hb w1.
  apply runs_lift_bind. intros image_config Hc. apply parse_json_ok in Hc.
  apply runs_bind; [apply keeps_dirs, clear_of; by left|]. intros u w3 _. clear u w2.
  assert (Hprov : ∀ w e, view w !! (R ++ [entry_name (layers manifest)])%list = Some (File e) →
    made (rootfs_cache_key sha256 (layers manifest)) e →
    ∃ r, ImageReference_parse image = Ok r ∧
      provenance r (mkPulledImage image_config (R ++ [entry_name (layers manifest)])%list) (view w)).
  { intros w e He Hmade. exists r. split; [done|]. by exists manifest, descriptor, blob, e. }
  apply runs_bind; [apply keeps_exists|]. intros there w4 Ht.
  destruct there.
  - intros Hok. split; [done|]. intros p [= <-]. apply io_ret in Ht as (s' & [Ht Hs]%look_ret & Hw).
    destruct (node_at _ _) as [n|] eqn:En; [|by destruct (missing _ _)].
    assert (Hn : view w4 !! (R ++ [entry_name (layers manifest)])%list = Some n).
    { rewrite Hw Hs. by rewrite node_at_child in En. }
    destruct (Hok _ _ Hn) as (e & -> & Hmade). by apply (Hprov w4 e).
  - clear Ht w3. apply (runs_then (λ w, ∃ e, view w !! (R ++ [entry_name (layers manifest)])%list = Some (File e) ∧
      made (rootfs_cache_key sha256 (layers manifest)) e)); [apply build_runs|].
    intros [] w5 (e & He & Hmade). apply runs_ret. by apply (Hprov w5 e).
Qed.
End caches.


(** ** Which hosts are asked *)

Section hosts.
Context {U : UrlLib} {Henv : Env string} {Hserv : Servers} {Hjson : Jsons} {Hclock : Clock}.
Context (sha256 : string → string) (arch : string).
Context (build : list (Path * string) → Path → Path → M (Os string) OciError ()).
Hypothesis (Hpairs : ∀ pairs url,
  url_scheme (append_pairs pairs url) = url_scheme url ∧ url_host (append_pairs pairs url) = url_host url).

Definition all_remote (sent : list Request) : Prop :=
  Forall (λ rq, validate_remote_https_url (rq_url rq) = true) sent.
Definition asks (w w' : Puller) : Prop := all_remote (p_sent w) → all_remote (p_sent w').

#[local] Instance asks_preorder : PreOrder asks.
Proof. split; [by intros w|]. intros x y z Hx Hy H. auto. Qed.

Lemma asks_none {E A : Type} (m : M Puller E A) : (∀ w, p_sent (m w).2 = p_sent w) → steps asks m.
Proof. intros Hm w. unfold asks. by rewrite Hm. Qed.

Lemma asks_on_os {E A : Type} (m : M (Os string) E A) : steps asks (on_os m).
Proof. apply asks_none. intros w. unfold on_os, zoom. by destruct (m (p_os w)). Qed.

Lemma asks_io {A : Type} (m : M (Os string) IoError A) : steps asks (io m).
Proof. apply (steps_mapE asks), asks_on_os. Qed.

Lemma asks_temp stem : steps asks (temp_name stem).
Proof. by apply asks_none. Qed.

Lemma asks_gets {A : Type} (f : Puller → A) : steps asks (gets f : M Puller OciError A).
Proof. apply (steps_gets asks). Qed.

Lemma policy_remote previous url : registry_redirect_policy previous url = Ok tt → validate_remote_https_url url = true.
Proof. unfold registry_redirect_policy. case_decide; [done|]. by destruct (validate_remote_https_url url). Qed.

Lemma asks_send rq : validate_remote_https_url (rq_url rq) = true → steps asks (send rq).
Proof.
  unfold send. generalize (S MAX_REGISTRY_REDIRECTS), (@nil Url) as previous. intros fuel previous. revert previous rq.
  induction fuel as [|fuel IH]; intros previous rq Hrq w Hw; simpl.
  - destruct (answer _ _) as [r|url|e|]; try (by constructor). by destruct (registry_redirect_policy _ _); constructor.
  - destruct (answer _ _) as [r|url|e|]; try (by constructor).
    destruct (registry_redirect_policy _ _) as [[]|e] eqn:Ep; [|by constructor].
    apply policy_remote in Ep. apply IH; [exact Ep|]. by constructor.
Qed.

Lemma registry_url_remote r path url : registry_url r path = Ok url → validate_remote_https_url url = true.
Proof.
  unfold registry_url, validate_registry_url. destruct (ok_or _ _) as [u|]; [|done]. simpl.
  destruct (validate_remote_https_url u) eqn:E; [|done]. by intros [= <-].
Qed.

Create HintDb asks discriminated.
#[local] Hint Constants Opaque : asks.
#[local] Hint Resolve asks_on_os asks_io asks_temp asks_gets asks_send : asks.
#[local] Hint Resolve steps_attempt steps_ignore steps_on_error steps_ret steps_throw steps_lift steps_mapE steps_forM
  steps_bind asks_preorder : asks.
#[local] Hint Extern 10 (steps _ _) => case_match : asks.

Ltac ask := auto 60 with asks.

Lemma asks_token challenge repository : steps asks (fetch_token challenge repository).
Proof.
  unfold fetch_token. apply steps_lift_bind; [apply _|]. intros url _. apply steps_lift_bind; [apply _|]. intros [] Hv.
  assert (Hu : validate_remote_https_url url = true).
  { unfold validate_token_realm in Hv. by destruct (validate_remote_https_url url). }
  assert (Hq : ∀ pairs, validate_remote_https_url (rq_url (mkRequest (append_pairs pairs url) None None)) = true).
  { intros pairs. destruct (Hpairs pairs url) as [Hs Hh]. unfold validate_remote_https_url, rq_url. by rewrite Hs Hh. }
  ask.
Qed.
#[local] Hint Resolve asks_token : asks.

Lemma asks_auth url repository accept : validate_remote_https_url url = true →
  steps asks (get_with_auth url repository accept).
Proof.
  intros Hu. assert (Hq : ∀ token, validate_remote_https_url (rq_url (mkRequest url accept token)) = true) by done.
  unfold get_with_auth. ask.
Qed.

(** A URL of a registry is checked before anything is asked. *)
Lemma asks_registry {A : Type} r path (k : Url → M Puller OciError A) :
  (∀ url, validate_remote_https_url url = true → steps asks (k url)) → steps asks (lift_result (registry_url r path) ≫= k).
Proof. intros Hk. apply steps_lift_bind; [apply _|]. intros url Hu%registry_url_remote. auto. Qed.
#[local] Hint Resolve asks_auth asks_registry : asks.

Lemma asks_manifest r manifest_ref expected cache : steps asks (fetch_manifest sha256 r manifest_ref expected cache).
Proof. unfold fetch_manifest, read_manifest_cache, write_manifest_cache. ask. Qed.
#[local] Hint Resolve asks_manifest : asks.

Lemma asks_blob r digest cache max_bytes kind : steps asks (fetch_blob_cached sha256 r digest cache max_bytes kind).
Proof.
  unfold fetch_blob_cached, read_blob_cache, read_blob_file_limited, read_pieces, fetch_blob, blob_url, write_blob_cache. ask.
Qed.

Lemma asks_chunks p kind max_bytes downloaded hashed chunks :
  steps asks (download_chunks p kind max_bytes downloaded hashed chunks).
Proof. revert downloaded hashed. induction chunks as [|c cs IH]; intros downloaded hashed; simpl; ask. Qed.
#[local] Hint Resolve asks_blob asks_chunks : asks.

Lemma asks_layer r cache dl : steps asks (fetch_layer sha256 r cache dl).
Proof.
  unfold fetch_layer, verify_blob_file, read_pieces, download_blob_cached, download_blob, blob_url. ask.
Qed.
#[local] Hint Resolve asks_layer : asks.

Lemma asks_pull image layer_cache manifest_cache rootfs_cache staging :
  steps asks (pull_image_rootfs sha256 arch build image layer_cache manifest_cache rootfs_cache staging).
Proof. unfold pull_image_rootfs, resolve_manifest, build_rootfs, fetch_layers_cached, remove_staging. ask. Qed.

Lemma asks_prepare paths id container image : steps asks (prepare_rootfs sha256 arch build paths id container image).
Proof. pose proof asks_pull as Hp. unfold prepare_rootfs, prepare_rootfs_overlay_dir. ask. Qed.

Lemma asks_config path config : steps asks (write_gvisor_config_json path config).
Proof. unfold write_gvisor_config_json. ask. Qed.

Lemma asks_container paths id container netns resolv_conf :
  steps asks (prepare_container_bundle sha256 arch build paths id container netns resolv_conf).
Proof. pose proof asks_prepare as Hp. pose proof asks_config as Hc. unfold prepare_container_bundle. ask. Qed.

Lemma asks_pause paths id image netns resolv_conf :
  steps asks (prepare_pause_bundle sha256 arch build paths id image netns resolv_conf).
Proof. pose proof asks_prepare as Hp. pose proof asks_config as Hc. unfold prepare_pause_bundle. ask. Qed.
End hosts.

Lemma send_go_eq {U : UrlLib} `{!Servers} fuel previous rq w :
  send_go fuel previous rq w =
    let w' := mkPuller (p_os w) (rq :: p_sent w) (p_temp w) in
    match answer (p_sent w) rq with
    | Final r => (Ret r, w')
    | SendError e => (Throw (OciHttp e), w')
    | ClientKilled => (Crash, w')
    | Redirect url =>
        match registry_redirect_policy (previous ++ [rq_url rq])%list url, fuel with
        | Ok _, S fuel =>
            send_go fuel (previous ++ [rq_url rq])%list
              (mkRequest url (rq_accept rq) (if kept_token rq url then rq_token rq else None)) w'
        | Ok _, O => (Throw (OciHttp "too many redirects"), w')
        | Err e, _ => (Throw (OciHttp e), w')
        end
    end.
Proof. by destruct fuel. Qed.

(** The fuel of a request is enough: the policy ends it first. *)
Lemma send_fuel_enough {U : UrlLib} `{!Servers} fuel previous rq w :
  (MAX_REGISTRY_REDIRECTS < length previous + fuel)%nat →
  send_go (S fuel) previous rq w = send_go fuel previous rq w.
Proof.
  revert previous rq w. induction fuel as [|fuel IH]; intros previous rq w Hf.
  - simpl. destruct (answer _ _); [done| |done..]. unfold registry_redirect_policy.
    rewrite decide_True; [rewrite length_app /=; lia|done].
  - rewrite send_go_eq (send_go_eq (S fuel)). cbv zeta. destruct (answer _ _); [done| |done..].
    destruct (registry_redirect_policy _ _); [|done]. apply IH. rewrite length_app /=. lia.
Qed.

(** C16. Preparing a bundle asks hosts whose URLs passed [remote_https] only, in the
    first request, after every redirect, and for tokens. *)
Theorem only_remote_hosts_asked {U : UrlLib} `{!Env string, !Servers, !Jsons, !Clock}
    (sha256 : string → string) (arch : string) (build : list (Path * string) → Path → Path → M (Os string) OciError ())
    (paths : OadPaths) (id : SandboxId) (container : ContainerSpec) (netns resolv_conf : option Path) (w : Puller) :
  (∀ pairs url, url_scheme (append_pairs pairs url) = url_scheme url ∧ url_host (append_pairs pairs url) = url_host url) →
  all_remote (p_sent w) →
  all_remote
    (p_sent (prepare_container_bundle sha256 arch build paths id container netns resolv_conf w).2) ∧
  all_remote
    (p_sent (prepare_pause_bundle sha256 arch build paths id (ct_image container) netns resolv_conf w).2).
Proof. intros Hpairs Hw. split; [by apply asks_container|by apply asks_pause]. Qed.

(** ** A registry that redirects, and one image *)

(** URLs are a host and the rest. *)
#[local] Instance demo_urls : UrlLib := {|
  Url := string * string;
  url_parse s := rest ← strip_prefix "https://" s; split_once "/" rest;
  url_scheme _ := "https"; url_host u := Some (Domain u.1); url_text u := "https://" ++ u.1 ++ "/" ++ u.2;
  append_pairs _ u := u |}.

Definition hex64 (c : string) : string := str_concat (repeat c 64).

(** Hashes of the three texts of the example. *)
Definition demo_sha (s : string) : string :=
  if decide (s = "the manifest") then hex64 "a" else if decide (s = "the config") then hex64 "b"
  else if decide (s = "the layer") then hex64 "c" else hex64 "0".

Definition demo_manifest : ImageManifest :=
  mkImageManifest None (Some (mkDescriptor None ("sha256:" ++ hex64 "b") None None))
    [mkDescriptor None ("sha256:" ++ hex64 "c") (Some 9%Z) None].

Definition demo_image_config : ImageConfig := mkImageConfig None (Some ["/bin/sh"]) None None.

#[local] Instance demo_jsons : Jsons := {|
  parse_manifest s := if decide (s = "the manifest") then Some demo_manifest else None;
  parse_config s := if decide (s = "the config") then Some demo_image_config else None;
  parse_token _ := None; serde_error _ := "expected value"; to_vec_pretty _ := "{}" |}.

#[local] Instance demo_clock : Clock := {| modified _ _ := None; now _ := 0%Z; manifest_cache_ttl := DEFAULT_MANIFEST_CACHE_TTL |}.
#[local] Instance demo_env : Env string := quiet_env.

Definition demo_body (s : string) : Hop := Final (mkResponse 200 None None [s] None).

(** The layer is elsewhere; the server of the layer tries to lead to the host. *)
#[local] Instance demo_servers : Servers := {|
  answer _ rq :=
    let '(host, path) := rq_url rq in
    if str_contains "/manifests/" path then demo_body "the manifest"
    else if str_contains (hex64 "b") path then demo_body "the config"
    else if decide (host = "cdn.example") then demo_body "the layer"
    else Redirect ("cdn.example", path);
  kept_token _ _ := false |}.

Definition file_of (fs : gmap Path (node string)) (b : Path * string) : option string :=
  match fs !! b.1 with Some (File c) => Some c | _ => None end.

(** An image is the text of its layers. *)
Definition demo_build (blobs : list (Path * string)) (staging image : Path) : M (Os string) OciError () := λ s,
  match mapM (file_of (files s)) blobs with
  | Some contents => (Ret tt, set_files (<[image := File (str_concat contents)]> (files s)) s)
  | None => (Throw (OciJoin "layer missing"), s)
  end.
Lemma demo_builds : builds demo_build.
Proof.
  split; intros blobs staging image fs0 s Hs; unfold wp, demo_build; destruct (mapM _ _) as [cs|] eqn:E; simpl; try done.
  - intros p _ _ Hp. rewrite lookup_insert_ne; [by intros ->|by rewrite Hs].
  - by intros p; rewrite Hs.
  - intros _. apply mapM_Some in E. rewrite Hs in E. clear -E. induction E as [|b c bs cs Hb _ IH]; [constructor|]. constructor; [|done].
    exists c. unfold file_of in Hb. destruct (fs0 !! b.1) as [[]|]; congruence.
  - intros _. exists (str_concat cs). apply lookup_insert_eq.
Qed.

Lemma demo_sha_hex x : str_forallb is_ascii_hexdigit (demo_sha x) = true.
Proof. unfold demo_sha. repeat case_decide; reflexivity. Qed.

Definition demo_puller : Puller := mkPuller (mkOs ∅ [] 0) [] 0.

Definition demo_pull : M Puller OciError PulledImage :=
  pull_image_rootfs demo_sha "x86_64" demo_build ("alpine@sha256:" ++ hex64 "a") ["l"] ["m"] ["r"] ["s"].

Example demo_pull_result :
  (demo_pull demo_puller).1 = Ret (mkPulledImage demo_image_config ["r"; (hex64 "0" ++ ".erofs")%string]) ∧
  view (demo_pull demo_puller).2 !! ["r"; (hex64 "0" ++ ".erofs")%string] = Some (File "the layer").
Proof. vm_compute. split; reflexivity. Qed.


(** A layer kept by a server that leads to the host itself. *)
Definition leading_servers : Servers := {|
  answer _ rq := if decide ((rq_url rq).1 = "localhost") then demo_body "secret"
    else if str_contains "/manifests/" (rq_url rq).2 then demo_body "the manifest"
    else Redirect ("localhost", "metadata");
  kept_token _ _ := false |}.

Lemma only_remote_hosts_asked_witness :
  let spec := mkContainerSpec "main" ("alpine@sha256:" ++ hex64 "a") [] [] [] in
  let run := @prepare_container_bundle _ _ leading_servers _ _ demo_sha "x86_64" demo_build
    (mkOadPaths ["srv"]) (mkSandboxId "demo") spec None None demo_puller in
  length (p_sent run.2) = 2%nat ∧
  all_remote (p_sent run.2).
Proof.
  intros spec run. split; [vm_compute; reflexivity|].
  exact (proj1 (@only_remote_hosts_asked _ _ leading_servers _ _ demo_sha "x86_64" demo_build (mkOadPaths ["srv"])
    (mkSandboxId "demo") spec None None demo_puller (λ _ _, conj eq_refl eq_refl) (List.Forall_nil _))).
Defined.
