(* ===== verification/Record.v ===== *)
(** * Recorded traffic (crates/omniagent-cli/src/record.rs)

    What is kept of each exchange with a model provider: the tokens used, in
    whatever spelling a provider reports them, a label for the list of traces,
    and the store that numbers the exchanges of a run. *)
From S2P Require Import Prelude Str Json.

Inductive Provider : Type := Anthropic | OpenAI | Gemini.

(** ** Tokens *)

Record Usage : Type := mkUsage {
  input_tokens : option Z; output_tokens : option Z; total_tokens : option Z;
  reasoning_tokens : option Z; cache_read_tokens : option Z; cache_creation_tokens : option Z;
}.

#[global] Instance Usage_eq_dec : EqDecision Usage.
Proof. solve_decision. Defined.

Definition usage_default : Usage := mkUsage None None None None None None.

Definition usage_is_empty (u : Usage) : bool := bool_decide (u = usage_default).

Definition first_u64 (value : Value) (keys : list string) : option Z :=
  find_map (λ key, v_get key value ≫= as_u64) keys.

Definition nested (outer : list string) (inner : string) (value : Value) : option Z :=
  find_map (λ key, d ← v_get key value; v_get inner d ≫= as_u64) outer.

Definition nested_cached_tokens : Value → option Z :=
  nested ["input_tokens_details"; "prompt_tokens_details"] "cached_tokens".
Definition nested_reasoning_tokens : Value → option Z :=
  nested ["output_tokens_details"; "completion_tokens_details"] "reasoning_tokens".

Definition or_else {A} (o o' : option A) : option A := match o with Some _ => o | None => o' end.

Definition usage_from_value (value : Value) : Usage := {|
  input_tokens := first_u64 value ["input_tokens"; "prompt_tokens"; "promptTokenCount"; "inputTokens"];
  output_tokens := first_u64 value ["output_tokens"; "completion_tokens"; "candidatesTokenCount"; "outputTokens"];
  total_tokens := first_u64 value ["total_tokens"; "totalTokenCount"; "totalTokens"; "total_tokens_count"];
  reasoning_tokens := or_else (first_u64 value ["reasoning_tokens"; "reasoningTokens"]) (nested_reasoning_tokens value);
  cache_read_tokens :=
    or_else (first_u64 value ["cache_read_input_tokens"; "cached_tokens"; "cachedContentTokenCount"; "cacheReadInputTokens"])
      (nested_cached_tokens value);
  cache_creation_tokens := first_u64 value ["cache_creation_input_tokens"; "cacheWriteInputTokens"] |}.

Definition max_opt (a b : option Z) : option Z :=
  match a, b with
  | Some x, Some y => Some (if (x <? y)%Z then y else x)
  | Some x, None => Some x
  | None, b => b
  end.

Definition merge_from (u other : Usage) : Usage := {|
  input_tokens := max_opt (input_tokens u) (input_tokens other);
  output_tokens := max_opt (output_tokens u) (output_tokens other);
  total_tokens := max_opt (total_tokens u) (total_tokens other);
  reasoning_tokens := max_opt (reasoning_tokens u) (reasoning_tokens other);
  cache_read_tokens := max_opt (cache_read_tokens u) (cache_read_tokens other);
  cache_creation_tokens := max_opt (cache_creation_tokens u) (cache_creation_tokens other) |}.

(** ** Labels *)

Record Label : Type := mkLabel { kind : string; label_text : string; cls : string }.

Definition result_label : string → string → Label := mkLabel "result_type".

(** [Value::pointer], from its reference tokens. *)
Definition parse_index (token : string) : option nat :=
  if starts_with "+" token || (starts_with "0" token && negb (String.length token =? 1)%nat) then None
  else Z.to_nat <$> parse_uint u64_max token.

Fixpoint pointer (tokens : list string) (v : Value) : option Value :=
  match tokens with
  | [] => Some v
  | token :: tokens =>
      match v with
      | Object l => obj_get token l ≫= pointer tokens
      | Array l => i ← parse_index token; l !! i ≫= pointer tokens
      | _ => None
      end
  end.

Definition type_of (v : Value) : option string := v_get "type" v ≫= as_string.
Definition type_str (v : Value) : string := default "" (type_of v).
Definition has_type (t : string) (vs : list Value) : bool := existsb (λ v, bool_decide (type_of v = Some t)) vs.

Definition non_empty (s : string) : bool := bool_decide (s ≠ "").

Definition tool_label (names : list string) : Label :=
  result_label (match names with [] => "tool" | _ => "tool: " ++ str_join ", " names end) "tool".

Definition collect_strings (value : option Value) (path : list string) : list string :=
  match value ≫= as_array with
  | Some items => omap (λ it, s ← pointer path it ≫= as_string; if non_empty s then Some s else None) items
  | None => []
  end.

Definition non_empty_str (value : option Value) : bool :=
  match value ≫= as_string with Some s => non_empty s | None => false end.

Definition classify_anthropic_blocks (blocks : list Value) : option Label :=
  let tool_names := omap (λ b,
    if decide (type_of b = Some "tool_use")
    then n ← v_get "name" b ≫= as_string; if non_empty n then Some n else None else None) blocks in
  if has_type "tool_use" blocks then Some (tool_label tool_names)
  else if has_type "text" blocks then Some (result_label "assistant" "assistant")
  else if has_type "thinking" blocks then Some (result_label "thinking" "thinking")
  else if has_type "tool_result" blocks then Some (result_label "tool result" "result")
  else None.

Definition is_call (it : Value) : bool := ends_with "_call" (type_str it).

Definition classify_openai_output (output : list Value) : option Label :=
  let tool_names := omap (λ it,
    if is_call it then
      s ← or_else (v_get "name" it) (v_get "type" it) ≫= as_string;
      let n := default s (strip_suffix "_call" s) in
      if non_empty n then Some n else None
    else None) output in
  if existsb is_call output then Some (tool_label tool_names)
  else if existsb (λ it, bool_decide (type_str it = "message")) output then Some (result_label "assistant" "assistant")
  else if existsb (λ it, bool_decide (type_str it = "reasoning")) output then Some (result_label "thinking" "thinking")
  else None.

Definition classify_chat_message (msg : Value) : option Label :=
  match collect_strings (v_get "tool_calls" msg) ["function"; "name"] with
  | (_ :: _) as tools => Some (tool_label tools)
  | [] =>
      if non_empty_str (v_get "content" msg) then Some (result_label "assistant" "assistant")
      else match v_get "reasoning_content" msg with
        | Some _ => Some (result_label "thinking" "thinking")
        | None => None
        end
  end.

Definition classify_result_type (body : Value) : option Label :=
  match body with
  | Object _ =>
      or_else ((v_get "content" body ≫= as_array) ≫= classify_anthropic_blocks)
     (or_else ((v_get "output" body ≫= as_array) ≫= classify_openai_output)
     (or_else (pointer ["choices"; "0"; "message"] body ≫= classify_chat_message)
        (match pointer ["candidates"; "0"; "content"; "parts"] body ≫= as_array with
         | Some parts =>
             if existsb (λ p, match v_get "text" p with Some _ => true | None => false end) parts
             then Some (result_label "assistant" "assistant") else None
         | None => None
         end)))
  | _ => None
  end.

(** ** Spans *)

Record StreamEvent : Type := mkStreamEvent { se_event : string; se_data : Value }.

Record SpanDraft : Type := mkSpanDraft {
  sd_provider : Provider; sd_model : option string; sd_method : string;
  sd_request_base_url : string; sd_upstream_base_url : string; sd_path : string; sd_streaming : bool;
  sd_request_headers : gmap string (list string); sd_request : Value;
  sd_response_headers : gmap string (list string); sd_response : Value;
  sd_stream_events : list StreamEvent; sd_usage : Usage;
  sd_status : Z; sd_started_at : string; sd_latency_ms : Z; sd_error : option string;
}.

Definition SpanDraft_new (now : string) (provider : Provider) (path : string) : SpanDraft := {|
  sd_provider := provider; sd_model := None; sd_method := ""; sd_request_base_url := ""; sd_upstream_base_url := "";
  sd_path := path; sd_streaming := false; sd_request_headers := ∅; sd_request := Null;
  sd_response_headers := ∅; sd_response := Null; sd_stream_events := []; sd_usage := usage_default;
  sd_status := 0; sd_started_at := now; sd_latency_ms := 0; sd_error := None |}.

Definition build_labels (draft : SpanDraft) : list Label :=
  match classify_result_type (sd_response draft) with Some l => [l] | None => [] end.

(** [LlmSpan]: what was drafted, its number, id and labels. *)
Record LlmSpan : Type := mkLlmSpan {
  sp_id : string; sp_sequence : Z; sp_draft : SpanDraft; sp_labels : list Label;
}.

(** ** The store

    Requests end on many tasks at once: numbering a span, storing it,
    appending it to the file and forwarding it are steps that interleave. *)
Inductive Stage : Type := Numbered | Stored | Persisted.

Record TraceStore : Type := mkTraceStore {
  spans : list LlmSpan;
  sequence : Z;                            (* an [AtomicU64] *)
  sink : option (list LlmSpan);            (* the lines of the file *)
  forwarded : list LlmSpan;
  recording : list (LlmSpan * Stage);      (* calls of [record] under way *)
}.

Definition TraceStore_new (with_sink : option (list LlmSpan)) : TraceStore := mkTraceStore [] 0 with_sink [] [].

(** [record], up to the first lock. *)
Definition number (id : string) (draft : SpanDraft) (s : TraceStore) : TraceStore :=
  let next := wrap64 (sequence s + 1) in
  let span := mkLlmSpan id next draft (build_labels draft) in
  mkTraceStore (spans s) next (sink s) (forwarded s) (recording s ++ [(span, Numbered)]).

Definition advance (i : nat) (span : LlmSpan) (stage : Stage) (s : TraceStore) : list (LlmSpan * Stage) :=
  <[i := (span, stage)]> (recording s).

(** [persist]: [written] unless the line could not be. *)
Definition persist (span : LlmSpan) (written : bool) (sink : option (list LlmSpan)) : option (list LlmSpan) :=
  match sink with Some lines => Some (if written then lines ++ [span] else lines)%list | None => None end.

Inductive store_step : TraceStore → TraceStore → Prop :=
| StepNumber id draft s : store_step s (number id draft s)
| StepStore i span s :
    recording s !! i = Some (span, Numbered) →
    store_step s (mkTraceStore (spans s ++ [span])%list (sequence s) (sink s) (forwarded s) (advance i span Stored s))
| StepPersist i span written s :
    recording s !! i = Some (span, Stored) →
    store_step s (mkTraceStore (spans s) (sequence s) (persist span written (sink s)) (forwarded s) (advance i span Persisted s))
| StepForward i span s :
    recording s !! i = Some (span, Persisted) →
    store_step s (mkTraceStore (spans s) (sequence s) (sink s) (forwarded s ++ [span])%list (delete i (recording s))).

Definition snapshot (s : TraceStore) : list LlmSpan := spans s.

(** ** Merging usage *)

Lemma max_opt_comm a b : max_opt a b = max_opt b a.
Proof. destruct a as [x|], b as [y|]; simpl; try done. destruct (Z.ltb_spec x y), (Z.ltb_spec y x); f_equal; lia. Qed.

Lemma max_opt_assoc a b c : max_opt a (max_opt b c) = max_opt (max_opt a b) c.
Proof.
  destruct a as [x|], b as [y|], c as [z|]; simpl; try done.
  destruct (Z.ltb_spec y z), (Z.ltb_spec x y); simpl; repeat case_match; f_equal; lia.
Qed.

Lemma max_opt_idem a : max_opt a a = a.
Proof. destruct a as [x|]; simpl; [|done]. by rewrite Z.ltb_irrefl. Qed.

Lemma merge_comm u v : merge_from u v = merge_from v u.
Proof. unfold merge_from. f_equal; apply max_opt_comm. Qed.
Lemma merge_assoc u v w : merge_from u (merge_from v w) = merge_from (merge_from u v) w.
Proof. unfold merge_from. simpl. f_equal; apply max_opt_assoc. Qed.
Lemma merge_idem u : merge_from u u = u.
Proof. destruct u. unfold merge_from. simpl. f_equal; apply max_opt_idem. Qed.

(** ** Numbers of spans *)

Definition not_stored (p : LlmSpan * Stage) : option LlmSpan := match p.2 with Numbered => Some p.1 | _ => None end.

(** The numbers given out are those of the spans stored and about to be. *)
Record numbered_once (s : TraceStore) : Prop := {
  no_range : (0 ≤ sequence s)%Z;
  no_all : map sp_sequence (spans s ++ omap not_stored (recording s)) ≡ₚ seqZ 1 (sequence s);
}.

Lemma advance_split (l : list (LlmSpan * Stage)) i x y : l !! i = Some x →
  l = (take i l ++ x :: drop (S i) l)%list ∧ <[i := y]> l = (take i l ++ y :: drop (S i) l)%list ∧
  delete i l = (take i l ++ drop (S i) l)%list.
Proof.
  intros Hi. split; [by rewrite take_drop_middle|]. split; [|apply delete_take_drop].
  apply insert_take_drop. by apply lookup_lt_Some in Hi.
Qed.

Lemma numbered_step s s' : numbered_once s → (sequence s + 1 < 2 ^ 64)%Z → store_step s s' →
  numbered_once s' ∧ (sequence s' ≤ sequence s + 1)%Z.
Proof.
  intros [Hr Ha] Hlt Hs. destruct Hs as [id draft s|i span s Hi|i span written s Hi|i span s Hi].
  - assert (Hw : wrap64 (sequence s + 1) = (sequence s + 1)%Z) by (unfold wrap64; apply Z.mod_small; lia).
    unfold number. rewrite Hw. split; [|simpl; lia]. split; simpl; [lia|].
    rewrite omap_app app_assoc map_app Ha. rewrite (seqZ_app 1 (sequence s) 1) //.
    by replace (seqZ (1 + sequence s) 1) with [sequence s + 1]%Z by (unfold seqZ; simpl; f_equal; lia).
  - destruct (advance_split _ i _ (span, Stored) Hi) as (El & Ei & _). split; [|simpl; lia]. split; [done|].
    simpl. unfold advance. rewrite Ei -Ha (f_equal (omap not_stored) El) !omap_app /=. apply fmap_Permutation. solve_Permutation.
  - destruct (advance_split _ i _ (span, Persisted) Hi) as (El & Ei & _). split; [|simpl; lia]. split; [done|].
    simpl. unfold advance. by rewrite Ei -Ha (f_equal (omap not_stored) El) !omap_app /=.
  - destruct (advance_split _ i _ (span, Persisted) Hi) as (El & _ & Ed). split; [|simpl; lia]. split; [done|].
    simpl. by rewrite Ed -Ha (f_equal (omap not_stored) El) !omap_app /=.
Qed.

Lemma numbered_steps n s s' : nsteps store_step n s s' → numbered_once s → (sequence s + Z.of_nat n < 2 ^ 64)%Z →
  numbered_once s'.
Proof.
  induction 1 as [s|n s1 s2 s3 H12 _ IH]; [done|]. intros Hs Hn.
  destruct (numbered_step s1 s2 Hs) as [Hs2 Hle]; [lia|done|]. apply IH; [done|lia].
Qed.

(** However the ends of requests interleave, the spans in the store have distinct
    numbers, from 1 to the count of all that were numbered, and once no request
    is under way, every one of these numbers. *)
Theorem spans_numbered_once (with_sink : option (list LlmSpan)) (n : nat) (s : TraceStore) :
  nsteps store_step n (TraceStore_new with_sink) s → (Z.of_nat n < 2 ^ 64)%Z →
  NoDup (map sp_sequence (snapshot s)) ∧
  (∀ span, span ∈ snapshot s → (1 ≤ sp_sequence span ≤ sequence s)%Z) ∧
  (recording s = [] → map sp_sequence (snapshot s) ≡ₚ seqZ 1 (sequence s)).
Proof.
  intros Hn Hlt. destruct (numbered_steps n _ s Hn) as [Hr Ha]; [by split|done|].
  assert (Hnd : NoDup (map sp_sequence (spans s ++ omap not_stored (recording s)))) by (rewrite Ha; apply NoDup_seqZ).
  unfold snapshot. split_and!.
  - rewrite map_app in Hnd. by apply NoDup_app in Hnd as (? & _).
  - intros span Hin. assert (Hs : sp_sequence span ∈ seqZ 1 (sequence s)).
    { rewrite -Ha. apply list_elem_of_fmap_2, elem_of_app. by left. }
    apply elem_of_seqZ in Hs. lia.
  - intros Hrec. by rewrite Hrec app_nil_r in Ha.
Qed.

Definition demo_draft : SpanDraft := SpanDraft_new "2026-01-01T00:00:00Z" Anthropic "/v1/messages".

(** Two requests end at once; the second is stored first. *)
Definition demo_race : TraceStore :=
  let a := mkLlmSpan "a" 1 demo_draft [] in
  let b := mkLlmSpan "b" 2 demo_draft [] in
  mkTraceStore [b; a] 2 None [] [(a, Stored); (b, Stored)].

Lemma demo_race_steps : nsteps store_step 4 (TraceStore_new None) demo_race.
Proof.
  eapply nsteps_l; [apply (StepNumber "a" demo_draft)|]. eapply nsteps_l; [apply (StepNumber "b" demo_draft)|].
  eapply nsteps_l; [by apply (StepStore 1)|]. eapply nsteps_l; [by apply (StepStore 0)|]. apply nsteps_O.
Qed.

(** So the spans of a snapshot need not be in the order of their numbers. *)
Example snapshot_out_of_order : map sp_sequence (snapshot demo_race) = [2; 1]%Z.
Proof. reflexivity. Qed.

Lemma spans_numbered_once_witness : NoDup (map sp_sequence (snapshot demo_race)).
Proof. apply (spans_numbered_once None 4 demo_race demo_race_steps). reflexivity. Defined.
