(* ===== verification/Sse.v ===== *)
(** * Streamed responses, put back together (crates/omniagent-cli/src/sse.rs)

    A provider streams an answer as server-sent events, each a fragment; the
    recorder folds them into the object the agent received.  Where the code can
    panic (an index out of range, a field set on a value that is no object, a
    failed [expect]) the function is partial here: [None] is the panic. *)
From S2P Require Import Prelude Str Json Record.

(** [String::from_utf8_lossy]. *)
Class Utf8 := { from_utf8_lossy : string → string }.

Record ParsedEvent : Type := mkParsedEvent { pe_event : option string; pe_data : Value }.

Definition vobj (fields : list (string * Value)) : Value := obj fields.

Section sse.
Context `{!JsonText, !Utf8}.

(** ** Events *)

Record Frames : Type := mkFrames { fr_event : option string; fr_data : list string; fr_out : list ParsedEvent }.

Definition flush (f : Frames) : Frames :=
  match fr_event f, fr_data f with
  | None, [] => f
  | typed, data_lines =>
      let payload := str_join nl data_lines in
      let f' := mkFrames None [] (fr_out f) in
      if decide (payload = "" ∨ payload = "[DONE]") then f'
      else mkFrames None [] (fr_out f ++ [mkParsedEvent typed (default (Str payload) (json_from_str payload))])%list
  end.

Definition parse_line (f : Frames) (raw : string) : Frames :=
  let line := default raw (strip_suffix (String "013" "") raw) in
  match strip_prefix "event:" line with
  | Some rest => mkFrames (Some (trim rest)) (fr_data f) (fr_out f)
  | None =>
      match strip_prefix "data:" line with
      | Some rest => mkFrames (fr_event f) (fr_data f ++ [trim rest])%list (fr_out f)
      | None => if decide (line = "") then flush f else f
      end
  end.

Definition parse_events (body : string) : list ParsedEvent :=
  fr_out (flush (foldl parse_line (mkFrames None [] []) (lines (from_utf8_lossy body)))).

(** ** Fields *)

Definition index_field (key : string) (data : Value) : option nat := Z.to_nat <$> (v_get key data ≫= as_u64).

Definition index_of (data : Value) : nat := default 0 (index_field "index" data).

Definition str_field (value : Value) (key : string) : string := default "" (v_get key value ≫= as_string).

Definition fields_of (v : Value) : list (string * Value) := match v with Object l => l | _ => [] end.

(** [value[key] = v]: panics unless [value] is an object or null. *)
Definition set_field (value : Value) (key : string) (v : Value) : option Value :=
  match value with
  | Object l => Some (Object (obj_insert key v l))
  | Null => Some (Object [(key, v)])
  | _ => None
  end.

(** [content[idx] = f(content[idx])]: panics out of range. *)
Definition at_index (idx : nat) (f : Value → option Value) (content : list Value) : option (list Value) :=
  block ← content !! idx; block ← f block; Some (<[idx := block]> content).

Definition grow_to (content : list Value) (idx : nat) : list Value :=
  (content ++ repeat (Object []) (S idx - length content))%list.

Definition append_str (block : Value) (key text : string) : Value :=
  let l := fields_of block in
  Object match obj_get key l with
    | Some (Str existing) => obj_insert key (Str (existing ++ text)) l
    | _ => obj_insert key (Str text) l
    end.

Definition finalize_partial_json (block : Value) : Value :=
  match v_get "_partial_json" block ≫= as_string with
  | None => block
  | Some partial =>
      match json_from_str partial, block with
      | Some parsed, Object l => Object (obj_remove "_partial_json" (obj_insert "input" parsed l))
      | _, _ => block
      end
  end.

Definition empty_tool : Value :=
  vobj [("type", Str "tool_use"); ("id", Str ""); ("name", Str ""); ("input", Object [])].

Definition empty_block_for_delta (delta : Value) : Value :=
  match type_of delta with
  | Some t =>
      if decide (t = "thinking_delta") then vobj [("type", Str "thinking"); ("thinking", Str "")]
      else if decide (t = "input_json_delta") then empty_tool
      else vobj [("type", Str "text"); ("text", Str "")]
  | None => vobj [("type", Str "text"); ("text", Str "")]
  end.

(** ** The state *)

Record Reassembler : Type := mkReassembler { re_snapshot : option Value; re_usage : Usage }.

Definition Reassembler_new : Reassembler := mkReassembler None usage_default.

Definition set_snapshot (s : option Value) (st : Reassembler) : Reassembler := mkReassembler s (re_usage st).

(** The array at [key], made one if it is none. *)
Definition array_entry (l : list (string * Value)) (key : string) : list Value :=
  default [] (obj_get key l ≫= as_array).

Definition update_array {A} (key : string) (f : list Value → option (list Value * A)) (l : list (string * Value))
    : option (list (string * Value) * A) :=
  '(content, a) ← f (array_entry l key); Some (obj_insert key (Array content) l, a).

Definition snapshot_fields (st : Reassembler) : list (string * Value) :=
  match re_snapshot st with Some v => fields_of v | None => [] end.

(** Code on [content_mut()]. *)
Definition with_content (f : list Value → option (list Value)) (st : Reassembler) : option Reassembler :=
  '(l, _) ← update_array "content" (λ c, c' ← f c; Some (c', tt)) (snapshot_fields st);
  Some (set_snapshot (Some (Object l)) st).

(** Code on [response_output_mut()]. *)
Definition with_output (f : list Value → option (list Value)) (st : Reassembler) : option Reassembler :=
  let l := snapshot_fields st in
  let l := match obj_get "object" l with Some _ => l | None => obj_insert "object" (Str "response") l end in
  '(l, _) ← update_array "output" (λ c, c' ← f c; Some (c', tt)) l;
  Some (set_snapshot (Some (Object l)) st).

(** ** Anthropic *)

Definition content_block_start (data : Value) (st : Reassembler) : option Reassembler :=
  match v_get "content_block" data with
  | None => Some st
  | Some block =>
      let idx := index_of data in
      with_content (λ content, at_index idx (λ _, Some block) (grow_to content idx)) st
  end.

Definition apply_delta (delta block : Value) : option Value :=
  let block := match v_get "type" block with None => empty_block_for_delta delta | Some _ => block end in
  match type_of delta with
  | Some t =>
      if decide (t = "text_delta") then Some (append_str block "text" (str_field delta "text"))
      else if decide (t = "thinking_delta") then
        let block := append_str block "thinking" (str_field delta "thinking") in
        match v_get "signature" delta ≫= as_string with
        | Some sig => set_field block "signature" (Str sig)
        | None => Some block
        end
      else if decide (t = "input_json_delta") then
        Some (append_str block "_partial_json" (str_field delta "partial_json"))
      else Some block
  | None => Some block
  end.

Definition content_block_delta (data : Value) (st : Reassembler) : option Reassembler :=
  let idx := index_of data in
  let delta := default Null (v_get "delta" data) in
  with_content (λ content, at_index idx (apply_delta delta) (grow_to content idx)) st.

Definition content_block_stop (data : Value) (st : Reassembler) : option Reassembler :=
  let idx := index_of data in
  with_content (λ content, Some (alter finalize_partial_json idx content)) st.

Definition message_delta (data : Value) (st : Reassembler) : Reassembler :=
  match re_snapshot st with
  | Some (Object l) =>
      match v_get "delta" data with
      | Some (Object delta) => set_snapshot (Some (Object (foldl (λ l kv, obj_insert kv.1 kv.2 l) l delta))) st
      | _ => st
      end
  | _ => st
  end.

(** ** OpenAI Responses *)

Definition non_empty_array (key : string) (v : option Value) : option (list Value) :=
  match v with
  | Some (Object l) => match obj_get key l ≫= as_array with Some (_ :: _) as some => some | _ => None end
  | _ => None
  end.

Definition set_response_snapshot (response : Value) (st : Reassembler) : Reassembler :=
  let existing_output := non_empty_array "output" (re_snapshot st) in
  let existing_content := non_empty_array "content" (re_snapshot st) in
  let response :=
    match response with
    | Object l =>
        let missing_output := match obj_get "output" l ≫= as_array with Some (_ :: _) => false | _ => true end in
        let l := match missing_output, existing_output with
          | true, Some output => obj_insert "output" (Array output) l
          | _, _ => l
          end in
        Object match obj_get "content" l, existing_content with
          | None, Some content => obj_insert "content" (Array content) l
          | _, _ => l
          end
    | v => v
    end in
  set_snapshot (Some response) st.

Definition response_output_item (data : Value) (st : Reassembler) : option Reassembler :=
  match v_get "item" data with
  | None => Some st
  | Some item =>
      with_output (λ output,
        let idx := default (length output) (index_field "output_index" data) in
        at_index idx (λ _, Some item) (grow_to output idx)) st
  end.

(** [item.entry(key).or_insert_with(value)]. *)
Definition or_insert (key : string) (v : Value) (l : list (string * Value)) : list (string * Value) :=
  match obj_get key l with Some _ => l | None => obj_insert key v l end.

Definition is_object (v : Value) : bool := match v with Object _ => true | _ => false end.

Definition append_summary (summary_index : nat) (text : string) (item : Value) : option Value :=
  let item := if is_object item then item else vobj [("type", Str "reasoning"); ("summary", Array [])] in
  '(l, _) ← update_array "summary" (λ summary,
    s ← at_index summary_index (λ part,
      let part := if is_object part then part else vobj [("type", Str "summary_text"); ("text", Str "")] in
      Some (append_str part "text" text)) (grow_to summary summary_index);
    Some (s, tt)) (or_insert "type" (Str "reasoning") (fields_of item));
  Some (Object l).

Definition append_content (content_index : nat) (block_type field text : string) (item : Value) : option Value :=
  let item := if is_object item then item
    else vobj [("type", Str "message"); ("role", Str "assistant"); ("content", Array [])] in
  let l := or_insert "role" (Str "assistant") (or_insert "type" (Str "message") (fields_of item)) in
  '(l, _) ← update_array "content" (λ content,
    c ← at_index content_index (λ block,
      let block := if is_object block then block else vobj [("type", Str block_type); (field, Str "")] in
      block ← match v_get "type" block with None => set_field block "type" (Str block_type) | Some _ => Some block end;
      Some (append_str block field text)) (grow_to content content_index);
    Some (c, tt)) l;
  Some (Object l).

Definition response_delta (event : string) (data : Value) (st : Reassembler) : option Reassembler :=
  let text := default "" (or_else (v_get "delta" data ≫= as_string)
    (or_else (v_get "text" data ≫= as_string) (v_get "summary_text" data ≫= as_string))) in
  if decide (text = "") then Some st else
  let output_index := default 0 (index_field "output_index" data) in
  if str_contains "reasoning" event || str_contains "summary" event then
    let summary_index := default 0 (index_field "summary_index" data) in
    with_output (λ output, at_index output_index (append_summary summary_index text) (grow_to output output_index)) st
  else
    let content_index := default 0 (index_field "content_index" data) in
    let block_type := if str_contains "refusal" event then "refusal" else "output_text" in
    let field := if decide (block_type = "refusal") then "refusal" else "text" in
    with_output (λ output,
      at_index output_index (append_content content_index block_type field text) (grow_to output output_index)) st.

Definition response_event (event : string) (data : Value) (st : Reassembler) : option Reassembler :=
  match v_get "response" data with
  | Some response => Some (set_response_snapshot response st)
  | None =>
      if decide (event = "response.completed" ∨ event = "response.done") then Some (set_response_snapshot data st)
      else if decide (event = "response.output_item.added" ∨ event = "response.output_item.done")
      then response_output_item data st
      else match rsplit_once "." event with
        | Some (_, suffix) => if decide (suffix = "delta") then response_delta event data st else Some st
        | None => Some st
        end
  end.

(** ** Chat Completions and Gemini *)

(** The first value [p] holds of, changed; panics when there is none. *)
Fixpoint update_first (p : Value → bool) (f : Value → option Value) (l : list Value) : option (list Value) :=
  match l with
  | [] => None
  | v :: l => if p v then v ← f v; Some (v :: l) else l ← update_first p f l; Some (v :: l)
  end.

Definition block_is (t : string) (b : Value) : bool := bool_decide (type_str b = t).

Definition on_text_block (f : Value → option Value) : Reassembler → option Reassembler :=
  with_content (λ content,
    let content := if existsb (block_is "text") content then content
                   else (content ++ [vobj [("type", Str "text"); ("text", Str "")]])%list in
    update_first (block_is "text") f content).

Definition on_thinking_block (f : Value → option Value) : Reassembler → option Reassembler :=
  with_content (λ content,
    let content := if existsb (block_is "thinking") content then content
                   else vobj [("type", Str "thinking"); ("thinking", Str "")] :: content in
    update_first (block_is "thinking") f content).

(** The position of the [idx]-th tool block. *)
Fixpoint nth_tool (idx : nat) (content : list Value) : option nat :=
  match content with
  | [] => None
  | b :: content =>
      if block_is "tool_use" b then match idx with O => Some 0 | S idx => S <$> nth_tool idx content end
      else S <$> nth_tool idx content
  end.

Definition on_tool_use_block (idx : nat) (f : Value → option Value) : Reassembler → option Reassembler :=
  with_content (λ content,
    match nth_tool idx content with
    | Some pos => at_index pos f content
    | None =>
        let existing := length (List.filter (block_is "tool_use") content) in
        let content := (content ++ repeat empty_tool (S idx - existing))%list in
        at_index (length content - 1) f content
    end).

Definition chat_tool_call_delta (call : Value) : Reassembler → option Reassembler :=
  on_tool_use_block (index_of call) (λ block,
    block ← match v_get "id" call ≫= as_string with
      | Some id => if decide (id = "") then Some block else set_field block "id" (Str id)
      | None => Some block
      end;
    match v_get "function" call with
    | None => Some block
    | Some func =>
        block ← match v_get "name" func ≫= as_string with
          | Some name => if decide (name = "") then Some block else set_field block "name" (Str name)
          | None => Some block
          end;
        Some match v_get "arguments" func ≫= as_string with
          | Some args => append_str block "_partial_json" args
          | None => block
          end
    end).

Fixpoint for_each_opt {A} (f : A → Reassembler → option Reassembler) (l : list A) (st : Reassembler) : option Reassembler :=
  match l with [] => Some st | x :: l => st ← f x st; for_each_opt f l st end.

Definition first_of (key : string) (data : Value) : option Value := (v_get key data ≫= as_array) ≫= head.

Definition chat_completion_chunk (data : Value) (st : Reassembler) : option Reassembler :=
  let choice := default Null (first_of "choices" data) in
  let delta := default Null (v_get "delta" choice) in
  let st := match re_snapshot st with
    | Some _ => st
    | None => set_snapshot (Some (vobj
        [("id", default (Str "") (v_get "id" data)); ("object", Str "chat.completion");
         ("model", default (Str "") (v_get "model" data)); ("content", Array [])])) st
    end in
  st ← (let text := str_field delta "content" in
        if decide (text = "") then Some st else on_text_block (λ b, Some (append_str b "text" text)) st);
  st ← (let reason := str_field delta "reasoning_content" in
        if decide (reason = "") then Some st else on_thinking_block (λ b, Some (append_str b "thinking" reason)) st);
  st ← for_each_opt chat_tool_call_delta (default [] (v_get "tool_calls" delta ≫= as_array)) st;
  Some match v_get "finish_reason" choice ≫= as_string, re_snapshot st with
    | Some reason, Some (Object l) => set_snapshot (Some (Object (obj_insert "stop_reason" (Str reason) l))) st
    | _, _ => st
    end.

Definition gemini_chunk (data : Value) (st : Reassembler) : option Reassembler :=
  let st := match re_snapshot st with
    | Some _ => st
    | None => set_snapshot (Some (vobj [("candidates", Array []); ("content", Array [])])) st
    end in
  let parts := default [] (c ← first_of "candidates" data; c ← v_get "content" c; v_get "parts" c ≫= as_array) in
  st ← for_each_opt (λ part st,
    match v_get "text" part ≫= as_string with
    | Some text => on_text_block (λ b, Some (append_str b "text" text)) st
    | None => Some st
    end) parts st;
  Some match re_snapshot st, v_get "candidates" data with
    | Some (Object l), Some candidates => set_snapshot (Some (Object (obj_insert "candidates" candidates l))) st
    | _, _ => st
    end.

(** ** The end of the stream *)

Definition response_tool_name (item : Value) : string :=
  if decide (type_of item = Some "tool_search_call") then "tool_search" else
  match v_get "name" item ≫= as_string with
  | Some name => if decide (name = "") then default "" (type_of item ≫= strip_suffix "_call") else name
  | None => default "" (type_of item ≫= strip_suffix "_call")
  end.

Definition is_meta_key (key : string) : bool :=
  bool_decide (key ∈ ["id"; "type"; "status"; "call_id"; "name"; "execution"]).

Definition response_tool_input (item : Value) : Value :=
  match v_get "arguments" item with
  | Some (Str text) => default (Str text) (json_from_str text)
  | Some arguments => arguments
  | None => Object (List.filter (λ kv, negb (is_meta_key kv.1)) (fields_of item))
  end.

Definition text_of (s : string) : Value := vobj [("type", Str "text"); ("text", Str s)].

Definition mirror_block (block : Value) : list Value :=
  match type_of block with
  | Some t =>
      if decide (t = "output_text" ∨ t = "input_text") then [text_of (str_field block "text")]
      else if decide (t = "refusal") then [text_of (str_field block "refusal")]
      else []
  | None => []
  end.

Definition summary_text (item : Value) : string :=
  str_concat (omap (λ part, or_else (v_get "text" part) (v_get "summary_text" part) ≫= as_string)
    (default [] (v_get "summary" item ≫= as_array))).

Definition mirror_item (item : Value) : list Value :=
  match type_of item with
  | None => []
  | Some kind =>
      if decide (kind = "message") then flat_map mirror_block (default [] (v_get "content" item ≫= as_array))
      else if ends_with "_call" kind then
        [vobj [("type", Str "tool_use");
               ("id", default (Str "") (or_else (v_get "call_id" item) (v_get "id" item)));
               ("name", Str (response_tool_name item)); ("input", response_tool_input item)]]
      else if decide (kind = "reasoning") then
        let text := summary_text item in
        if decide (text = "") then [] else [vobj [("type", Str "thinking"); ("thinking", Str text)]]
      else []
  end.

Definition refresh_responses_content_mirror (snapshot : option Value) : option Value :=
  match snapshot with
  | Some (Object l) =>
      match obj_get "output" l ≫= as_array with
      | Some output => Some (Object (obj_insert "content" (Array (flat_map mirror_item output)) l))
      | None => snapshot
      end
  | _ => snapshot
  end.

Definition usages_of (data : Value) : list Usage :=
  omap (λ key, usage_from_value <$> v_get key data) ["usage"; "usageMetadata"].

Definition merge_event_usage (data : Value) (st : Reassembler) : Reassembler :=
  mkReassembler (re_snapshot st) (foldl merge_from (re_usage st) (usages_of data)).

Definition finalize_content (snapshot : option Value) : option Value :=
  match snapshot with
  | Some (Object l) =>
      match obj_get "content" l ≫= as_array with
      | Some content => Some (Object (obj_insert "content" (Array (map finalize_partial_json content)) l))
      | None => snapshot
      end
  | _ => snapshot
  end.

Definition finish (st : Reassembler) : option Value * Usage :=
  let usage := match re_snapshot st with
    | Some snapshot => foldl merge_from usage_default (usages_of snapshot)
    | None => usage_default
    end in
  (finalize_content (refresh_responses_content_mirror (re_snapshot st)), merge_from usage (re_usage st)).

Definition has_key (key : string) (data : Value) : bool := match v_get key data with Some _ => true | None => false end.

Definition bare_frame (data : Value) (st : Reassembler) : option Reassembler :=
  if has_key "choices" data then chat_completion_chunk data st
  else if has_key "candidates" data then gemini_chunk data st
  else Some st.

Definition feed_event (event : option string) (data : Value) (st : Reassembler) : option Reassembler :=
  match or_else event (type_of data) with
  | Some e =>
      if decide (e = "message_start") then Some (set_snapshot (v_get "message" data) st)
      else if decide (e = "content_block_start") then content_block_start data st
      else if decide (e = "content_block_delta") then content_block_delta data st
      else if decide (e = "content_block_stop") then content_block_stop data st
      else if decide (e = "message_delta") then Some (message_delta data st)
      else if starts_with "response." e then response_event e data st
      else bare_frame data st
  | None => bare_frame data st
  end.

Definition feed (st : Reassembler) (e : ParsedEvent) : option Reassembler :=
  merge_event_usage (pe_data e) <$> feed_event (pe_event e) (pe_data e) st.

Fixpoint feed_all (st : Reassembler) (events : list ParsedEvent) : option Reassembler :=
  match events with [] => Some st | e :: events => st ← feed st e; feed_all st events end.

Definition stream_event (e : ParsedEvent) : StreamEvent :=
  mkStreamEvent (default (default "message" (type_of (pe_data e))) (pe_event e)) (pe_data e).

Definition reconstruct (body : string) : option (option Value * Usage * list StreamEvent) :=
  let events := parse_events body in
  st ← feed_all Reassembler_new events;
  let '(snapshot, usage) := finish st in
  Some (snapshot, usage, map stream_event events).
End sse.
