(* ===== verification/SseInv.v ===== *)
(** * Reassembly never fails, and gives back what was streamed

    No sequence of events, however malformed, makes the recorder panic; and a
    message whose blocks are cut into fragments in any way, the fragments of
    different blocks interleaved in any way, is put back together. *)
From S2P Require Import Prelude Str Json Record Sse.

Section total.
Context `{!JsonText, !Utf8}.

Lemma grow_length content idx : (idx < length (grow_to content idx))%nat.
Proof. unfold grow_to. rewrite length_app repeat_length. lia. Qed.

Lemma at_index_total idx f content : (idx < length content)%nat →
  (∀ block, content !! idx = Some block → is_Some (f block)) → is_Some (at_index idx f content).
Proof.
  intros Hi Hf. unfold at_index. destruct (lookup_lt_is_Some_2 _ _ Hi) as [b Hb]. rewrite Hb /=.
  destruct (Hf b Hb) as [b' ->]. by eexists.
Qed.

Lemma at_grown idx f content : (∀ block, is_Some (f block)) → is_Some (at_index idx f (grow_to content idx)).
Proof. intros Hf. apply at_index_total; [apply grow_length|auto]. Qed.

Lemma with_content_total f st : (∀ content, is_Some (f content)) → is_Some (with_content f st).
Proof. intros Hf. unfold with_content, update_array. destruct (Hf (array_entry (snapshot_fields st) "content")) as [c ->]. by eexists. Qed.

Lemma with_output_total f st : (∀ output, is_Some (f output)) → is_Some (with_output f st).
Proof. intros Hf. unfold with_output, update_array. destruct (Hf (array_entry (match obj_get "object" (snapshot_fields st) with Some _ => snapshot_fields st | None => obj_insert "object" (Str "response") (snapshot_fields st) end) "output")) as [c ->]. by eexists. Qed.

Lemma set_field_object l key v : set_field (Object l) key v = Some (Object (obj_insert key v l)).
Proof. done. Qed.

Lemma apply_delta_total delta block : is_Some (apply_delta delta block).
Proof.
  unfold apply_delta. set (b := match v_get "type" block with None => _ | Some _ => _ end).
  destruct (type_of delta) as [t|]; [|by eexists]. repeat case_decide; try by eexists.
  destruct (v_get "signature" delta ≫= as_string) as [sig|]; [|by eexists]. by eexists.
Qed.

Lemma is_Some_bind {A B} (o : option A) (f : A → option B) : is_Some o → (∀ x, is_Some (f x)) → is_Some (o ≫= f).
Proof. intros [x ->] Hf. apply Hf. Qed.

Lemma append_summary_total i text item : is_Some (append_summary i text item).
Proof.
  unfold append_summary, update_array. apply is_Some_bind; [|intros [l u]; by eexists].
  apply is_Some_bind; [|intros [c u]; by eexists]. apply is_Some_bind; [|intros; by eexists].
  apply at_grown. intros block. by eexists.
Qed.

Lemma append_content_total i t field text item : is_Some (append_content i t field text item).
Proof.
  unfold append_content, update_array. apply is_Some_bind; [|intros [l u]; by eexists].
  apply is_Some_bind; [|intros [c u]; by eexists]. apply is_Some_bind; [|intros; by eexists].
  apply at_grown. intros block. apply is_Some_bind; [|intros; by eexists].
  destruct (v_get "type" _); [by eexists|]. destruct block; by eexists.
Qed.

Lemma response_event_total event data st : is_Some (response_event event data st).
Proof.
  unfold response_event. destruct (v_get "response" data); [by eexists|]. case_decide; [by eexists|]. case_decide.
  - unfold response_output_item. destruct (v_get "item" data); [|by eexists]. apply with_output_total. intros output.
    apply at_grown. by eexists.
  - destruct (rsplit_once _ _) as [[p suf]|]; [|by eexists]. case_decide; [|by eexists].
    unfold response_delta. case_decide; [by eexists|]. case_match; apply with_output_total; intros output; apply at_grown;
      intros block; [apply append_summary_total|apply append_content_total].
Qed.

Lemma update_first_total p f l : existsb p l = true → (∀ b, p b = true → is_Some (f b)) → is_Some (update_first p f l).
Proof.
  intros Hl Hf. induction l as [|b l IH]; simpl in *; [done|]. destruct (p b) eqn:Eb.
  - apply is_Some_bind; [by apply Hf|intros; by eexists].
  - apply is_Some_bind; [by apply IH|intros; by eexists].
Qed.

Lemma on_text_total f st : (∀ b, is_Some (f b)) → is_Some (on_text_block f st).
Proof.
  intros Hf. apply with_content_total. intros content. apply update_first_total; [|auto].
  destruct (existsb _ content) eqn:E; [done|]. by rewrite existsb_app E.
Qed.

Lemma on_thinking_total f st : (∀ b, is_Some (f b)) → is_Some (on_thinking_block f st).
Proof.
  intros Hf. apply with_content_total. intros content. apply update_first_total; [|auto].
  by destruct (existsb _ content) eqn:E.
Qed.

Lemma nth_tool_some idx content pos : nth_tool idx content = Some pos →
  ∃ b, content !! pos = Some b ∧ block_is "tool_use" b = true.
Proof.
  revert idx pos. induction content as [|b content IH]; intros idx pos; simpl; [done|].
  destruct (block_is "tool_use" b) eqn:Eb.
  - destruct idx as [|idx]; [intros [= <-]; by exists b|].
    destruct (nth_tool idx content) as [p|] eqn:E; [|done]. intros [= <-]. by apply (IH idx).
  - destruct (nth_tool idx content) as [p|] eqn:E; [|done]. intros [= <-]. by apply (IH idx).
Qed.

Lemma nth_tool_none idx content : nth_tool idx content = None →
  (length (List.filter (block_is "tool_use") content) ≤ idx)%nat.
Proof.
  revert idx. induction content as [|b content IH]; intros idx; simpl; [lia|].
  destruct (block_is "tool_use" b).
  - destruct idx as [|idx]; [done|]. destruct (nth_tool idx content) eqn:E; [done|]. intros _. simpl. apply IH in E. lia.
  - destruct (nth_tool idx content) eqn:E; [done|]. intros _. by apply IH.
Qed.

Lemma tool_is_object b : block_is "tool_use" b = true → ∃ l, b = Object l.
Proof. destruct b; try done. eauto. Qed.

Lemma on_tool_total idx f st : (∀ l, is_Some (f (Object l))) → is_Some (on_tool_use_block idx f st).
Proof.
  intros Hf. apply with_content_total. intros content. destruct (nth_tool idx content) as [pos|] eqn:E.
  - apply nth_tool_some in E as (b & Hb & [l ->]%tool_is_object).
    apply at_index_total; [by apply lookup_lt_Some in Hb|]. intros block Hb'. simplify_eq. apply Hf.
  - apply nth_tool_none in E. destruct (S idx - length (List.filter (block_is "tool_use") content))%nat as [|n] eqn:En; [lia|].
    apply at_index_total; [rewrite length_app repeat_length; lia|]. intros block Hb.
    rewrite length_app repeat_length lookup_app_r in Hb; [lia|].
    replace (length content + S n - 1 - length content)%nat with n in Hb by lia.
    assert (Hr : ∀ m i, (i < m)%nat → repeat empty_tool m !! i = Some empty_tool).
    { intros m. induction m as [|m IH]; intros i Hi; [lia|]. destruct i; [done|]. simpl. apply IH. lia. }
    rewrite Hr in Hb; [lia|]. injection Hb as <-. apply Hf.
Qed.

Lemma tool_call_total call st : is_Some (chat_tool_call_delta call st).
Proof.
  apply on_tool_total. intros l.
  assert (Hset : ∀ l o key, ∃ l', (match o with Some s => if decide (s = "") then Some (Object l) else set_field (Object l) key (Str s)
    | None => Some (Object l) end) = Some (Object l')).
  { intros l0 [s|] key; [case_decide|]; by eexists. }
  destruct (Hset l (v_get "id" call ≫= as_string) "id") as [l' ->]. cbn [mbind option_bind].
  destruct (v_get "function" call) as [func|]; [|by eexists].
  destruct (Hset l' (v_get "name" func ≫= as_string) "name") as [l'' ->]. by eexists.
Qed.

Lemma for_each_total {A} (f : A → Reassembler → option Reassembler) l st :
  (∀ x st, is_Some (f x st)) → is_Some (for_each_opt f l st).
Proof.
  intros Hf. revert st. induction l as [|x l IH]; intros st; simpl; [by eexists|].
  apply is_Some_bind; [apply Hf|apply IH].
Qed.

Lemma chat_total data st : is_Some (chat_completion_chunk data st).
Proof.
  unfold chat_completion_chunk. apply is_Some_bind; [|intros st1; apply is_Some_bind; [|intros st2; apply is_Some_bind]].
  - case_decide; [by eexists|]. apply on_text_total. by eexists.
  - case_decide; [by eexists|]. apply on_thinking_total. by eexists.
  - apply for_each_total. apply tool_call_total.
  - intros; by eexists.
Qed.

Lemma gemini_total data st : is_Some (gemini_chunk data st).
Proof.
  unfold gemini_chunk. apply is_Some_bind; [|intros; by eexists]. apply for_each_total. intros part st'.
  destruct (v_get "text" part ≫= as_string); [|by eexists]. apply on_text_total. by eexists.
Qed.

Lemma bare_total data st : is_Some (bare_frame data st).
Proof.
  unfold bare_frame. case_match; [apply chat_total|]. case_match; [apply gemini_total|by eexists].
Qed.

Lemma feed_total st e : is_Some (feed st e).
Proof.
  unfold feed. apply fmap_is_Some. unfold feed_event. destruct (or_else _ _) as [t|]; [|apply bare_total].
  case_decide; [by eexists|]. case_decide.
  { unfold content_block_start. destruct (v_get _ _); [|by eexists]. apply with_content_total. intros c. apply at_grown. by eexists. }
  case_decide.
  { apply with_content_total. intros c. apply at_grown. intros b. apply apply_delta_total. }
  case_decide; [apply with_content_total; by eexists|]. case_decide; [by eexists|].
  case_match; [apply response_event_total|apply bare_total].
Qed.

Lemma feed_all_total st events : is_Some (feed_all st events).
Proof.
  revert st. induction events as [|e events IH]; intros st; simpl; [by eexists|]. apply is_Some_bind; [apply feed_total|apply IH].
Qed.
End total.

(** ** Blocks *)

Section blocks.
Context `{!JsonText, !Utf8}.

Definition int_of (i : nat) : Value := Num (NInt (Z.of_nat i)).

(** The events of one content block, by its index. *)
Inductive BlockEvent : Type :=
| Start (i : nat) (block : Value)
| Delta (i : nat) (delta : Value)
| Stop (i : nat).

Definition position (e : BlockEvent) : nat := match e with Start i _ | Delta i _ | Stop i => i end.

Definition event_of (e : BlockEvent) : ParsedEvent :=
  match e with
  | Start i block => mkParsedEvent (Some "content_block_start")
      (vobj [("type", Str "content_block_start"); ("index", int_of i); ("content_block", block)])
  | Delta i delta => mkParsedEvent (Some "content_block_delta")
      (vobj [("type", Str "content_block_delta"); ("index", int_of i); ("delta", delta)])
  | Stop i => mkParsedEvent (Some "content_block_stop")
      (vobj [("type", Str "content_block_stop"); ("index", int_of i)])
  end.

(** What an event does to its block. *)
Definition block_step (b : Value) (e : BlockEvent) : Value :=
  match e with
  | Start _ block => block
  | Delta _ delta => default b (apply_delta delta b)
  | Stop _ => finalize_partial_json b
  end.

Definition content_of (st : Reassembler) : list Value := array_entry (snapshot_fields st) "content".
Definition block_at (st : Reassembler) (i : nat) : Value := default (Object []) (content_of st !! i).

Lemma index_int i fields : (Z.of_nat i ≤ u64_max)%Z → v_get "index" fields = Some (int_of i) → index_of fields = i.
Proof.
  intros Hi Hf. unfold index_of, index_field. rewrite Hf. unfold int_of, as_u64. cbn [mbind option_bind].
  rewrite (proj2 (Z.leb_le 0 (Z.of_nat i))); [lia|]. rewrite (proj2 (Z.leb_le (Z.of_nat i) u64_max)) //=. by rewrite Nat2Z.id.
Qed.

(** The contents after an event: longer, and changed at its index only. *)
Record moved (e : BlockEvent) (c c' : list Value) : Prop := {
  moved_length : length c' = match e with Stop _ => length c | _ => Nat.max (length c) (S (position e)) end;
  moved_at j : default (Object []) (c' !! j) =
    if decide (j = position e) then block_step (default (Object []) (c !! j)) e else default (Object []) (c !! j);
}.

Lemma lookup_grow c idx j : default (Object []) (grow_to c idx !! j) = default (Object []) (c !! j).
Proof.
  unfold grow_to. destruct (decide (j < length c)%nat); [by rewrite lookup_app_l|].
  rewrite lookup_app_r; [lia|]. rewrite (lookup_ge_None_2 c j); [lia|]. simpl.
  generalize (j - length c)%nat, (S idx - length c)%nat. intros k m. revert k. induction m as [|m IH]; intros k; simpl; [done|].
  destruct k; [done|apply IH].
Qed.

Lemma moved_grown e idx c b' : position e = idx → (∀ i, e ≠ Stop i) →
  block_step (default (Object []) (c !! idx)) e = b' → moved e c (<[idx := b']> (grow_to c idx)).
Proof.
  intros Hp Hs Hb. pose proof (grow_length c idx) as Hg. split.
  - rewrite length_insert. unfold grow_to. rewrite length_app repeat_length. destruct e as [i ?|i ?|i]; simpl in *; [lia..|by destruct (Hs i)].
  - intros j. rewrite Hp. case_decide as Hj; [rewrite Hj list_lookup_insert_eq //|].
    rewrite list_lookup_insert_ne; [congruence|]. apply lookup_grow.
Qed.

Lemma at_grown_eq idx f c b' : f (default (Object []) (c !! idx)) = Some b' →
  at_index idx f (grow_to c idx) = Some (<[idx := b']> (grow_to c idx)).
Proof.
  intros Hf. unfold at_index. destruct (lookup_lt_is_Some_2 _ _ (grow_length c idx)) as [b Hb]. rewrite Hb /=.
  pose proof (lookup_grow c idx idx) as Hl. rewrite Hb /= in Hl. by rewrite Hl Hf.
Qed.

Lemma with_content_eq f st c' : f (content_of st) = Some c' →
  with_content f st = Some (set_snapshot (Some (Object (obj_insert "content" (Array c') (snapshot_fields st)))) st).
Proof. intros Hf. unfold with_content, update_array. unfold content_of in Hf. by rewrite Hf. Qed.

(** An event leaves the rest of the snapshot alone. *)
Lemma feed_block e st : (Z.of_nat (position e) ≤ u64_max)%Z →
  ∃ c', feed st (event_of e) = Some (mkReassembler (Some (Object (obj_insert "content" (Array c') (snapshot_fields st)))) (re_usage st)) ∧
    moved e (content_of st) c'.
Proof.
  intros Hi. destruct e as [i block|i delta|i]; simpl in Hi.
  - set (data := vobj [("type", Str "content_block_start"); ("index", int_of i); ("content_block", block)]).
    assert (Hidx : index_of data = i) by by apply index_int.
    exists (<[i := block]> (grow_to (content_of st) i)). split; [|by apply moved_grown].
    change (feed st (event_of (Start i block))) with (merge_event_usage data <$> content_block_start data st).
    change (content_block_start data st) with (with_content (λ c, at_index (index_of data) (λ _, Some block) (grow_to c (index_of data))) st).
    by rewrite Hidx (with_content_eq _ _ _ (at_grown_eq i (λ _, Some block) (content_of st) block eq_refl)).
  - set (data := vobj [("type", Str "content_block_delta"); ("index", int_of i); ("delta", delta)]).
    assert (Hidx : index_of data = i) by by apply index_int.
    destruct (apply_delta_total delta (block_at st i)) as [b' Hb].
    exists (<[i := b']> (grow_to (content_of st) i)). split; [|apply moved_grown; [done..|]; simpl; by unfold block_at in Hb; rewrite Hb].
    change (feed st (event_of (Delta i delta))) with (merge_event_usage data <$> content_block_delta data st).
    change (content_block_delta data st) with (with_content (λ c, at_index (index_of data) (apply_delta delta) (grow_to c (index_of data))) st).
    by rewrite Hidx (with_content_eq _ _ _ (at_grown_eq i (apply_delta delta) (content_of st) b' Hb)).
  - set (data := vobj [("type", Str "content_block_stop"); ("index", int_of i)]).
    assert (Hidx : index_of data = i) by by apply index_int.
    exists (alter finalize_partial_json i (content_of st)). split.
    + change (feed st (event_of (Stop i))) with (merge_event_usage data <$> content_block_stop data st).
      change (content_block_stop data st) with (with_content (λ c, Some (alter finalize_partial_json (index_of data) c)) st).
      by rewrite Hidx (with_content_eq (λ c, Some (alter finalize_partial_json i c)) st _ eq_refl).
    + split; [apply length_alter|]. intros j. simpl. case_decide as Hj; [subst j|rewrite list_lookup_alter_ne; [congruence|done]].
      rewrite list_lookup_alter_eq. by destruct (content_of st !! i).
Qed.

Lemma snapshot_content l c : array_entry (obj_insert "content" (Array c) l) "content" = c.
Proof. unfold array_entry. by rewrite obj_get_insert. Qed.

(** The events for block [i], applied in order. *)
Definition run_block (b : Value) (i : nat) (es : list BlockEvent) : Value :=
  foldl block_step b (List.filter (λ e, bool_decide (position e = i)) es).

Definition extent (n : nat) (es : list BlockEvent) : nat :=
  foldl (λ n e, match e with Stop _ => n | _ => Nat.max n (S (position e)) end) n es.

(** Blocks do not disturb each other, in whatever order their events come. *)
Lemma feed_blocks es st : Forall (λ e, (Z.of_nat (position e) ≤ u64_max)%Z) es →
  ∃ st', feed_all st (map event_of es) = Some st' ∧ re_usage st' = re_usage st ∧
    (∀ k, k ≠ "content" → obj_get k (snapshot_fields st') = obj_get k (snapshot_fields st)) ∧
    length (content_of st') = extent (length (content_of st)) es ∧
    ∀ i, block_at st' i = run_block (block_at st i) i es.
Proof.
  intros Hes. revert st. induction Hes as [|e es He _ IH]; intros st; [by exists st|].
  destruct (feed_block e st He) as (c' & Hf & [Hlen Hat]). simpl map. simpl feed_all. rewrite Hf. cbn [mbind option_bind].
  set (st1 := mkReassembler _ _). assert (Hc : content_of st1 = c') by apply snapshot_content.
  destruct (IH st1) as (st' & Hfeed & Hu & Hk & Hl & Hb). exists st'. split_and!; [done|by rewrite Hu| | |].
  - intros k Hne. rewrite Hk //. simpl. rewrite obj_get_insert. by destruct (String.eqb_spec k "content").
  - by rewrite Hl Hc Hlen.
  - intros i. rewrite Hb. unfold run_block, block_at. rewrite Hc Hat. simpl.
    destruct (bool_decide_reflect (position e = i)) as [->|Hne]; [by rewrite decide_True|].
    rewrite decide_False //. congruence.
Qed.

(** ** Messages *)

(** A block, its text as it is cut. *)
Inductive Block : Type :=
| TextBlock (pieces : list string)
| ThinkingBlock (pieces : list string)
| ToolBlock (id name : string) (pieces : list string) (input : Value).

Definition first_shape (b : Block) : Value :=
  match b with
  | TextBlock _ => text_of ""
  | ThinkingBlock _ => vobj [("type", Str "thinking"); ("thinking", Str "")]
  | ToolBlock id name _ _ => vobj [("type", Str "tool_use"); ("id", Str id); ("name", Str name); ("input", Object [])]
  end.

Definition deltas (b : Block) : list Value :=
  match b with
  | TextBlock ps => map (λ p, vobj [("type", Str "text_delta"); ("text", Str p)]) ps
  | ThinkingBlock ps => map (λ p, vobj [("type", Str "thinking_delta"); ("thinking", Str p)]) ps
  | ToolBlock _ _ ps _ => map (λ p, vobj [("type", Str "input_json_delta"); ("partial_json", Str p)]) ps
  end.

(** What the provider sends for the block at [i]. *)
Definition block_events (i : nat) (b : Block) : list BlockEvent :=
  Start i (first_shape b) :: map (Delta i) (deltas b) ++ [Stop i].

(** What the agent received. *)
Definition final_shape (b : Block) : Value :=
  match b with
  | TextBlock ps => text_of (str_concat ps)
  | ThinkingBlock ps => vobj [("type", Str "thinking"); ("thinking", Str (str_concat ps))]
  | ToolBlock id name _ input => vobj [("type", Str "tool_use"); ("id", Str id); ("name", Str name); ("input", input)]
  end.

(** The input of a tool is the JSON its pieces make up; without pieces, empty. *)
Definition block_ok (b : Block) : Prop :=
  match b with
  | ToolBlock _ _ [] input => input = Object []
  | ToolBlock _ _ ps input => json_from_str (str_concat ps) = Some input
  | _ => True
  end.

Lemma steps_text i ps acc :
  foldl block_step (text_of acc) (map (Delta i) (deltas (TextBlock ps))) = text_of (acc ++ str_concat ps).
Proof.
  revert acc. induction ps as [|p ps IH]; intros acc; simpl; [by rewrite app_nil_r_s|].
  change (block_step _ _) with (text_of (acc ++ p)). by rewrite IH app_assoc_s.
Qed.

Definition thinking_of (s : string) : Value := vobj [("type", Str "thinking"); ("thinking", Str s)].

Lemma steps_thinking i ps acc :
  foldl block_step (thinking_of acc) (map (Delta i) (deltas (ThinkingBlock ps))) = thinking_of (acc ++ str_concat ps).
Proof.
  revert acc. induction ps as [|p ps IH]; intros acc; simpl; [by rewrite app_nil_r_s|].
  change (block_step _ _) with (thinking_of (acc ++ p)). by rewrite IH app_assoc_s.
Qed.

Definition tool_with (id name partial : string) : Value :=
  vobj [("type", Str "tool_use"); ("id", Str id); ("name", Str name); ("input", Object []); ("_partial_json", Str partial)].

Lemma steps_tool i id name ps input acc :
  foldl block_step (tool_with id name acc) (map (Delta i) (deltas (ToolBlock id name ps input))) =
  tool_with id name (acc ++ str_concat ps).
Proof.
  revert acc. induction ps as [|p ps IH]; intros acc; simpl; [by rewrite app_nil_r_s|].
  change (block_step _ _) with (tool_with id name (acc ++ p)). by rewrite IH app_assoc_s.
Qed.

Lemma finalize_tool id name partial input : json_from_str partial = Some input →
  finalize_partial_json (tool_with id name partial) =
  vobj [("type", Str "tool_use"); ("id", Str id); ("name", Str name); ("input", input)].
Proof.
  intros Hj. unfold finalize_partial_json.
  change (v_get "_partial_json" (tool_with id name partial) ≫= as_string) with (Some partial).
  cbv iota beta. by rewrite Hj.
Qed.

Lemma run_block_events i b start : block_ok b → foldl block_step start (block_events i b) = final_shape b.
Proof.
  intros Hok. unfold block_events. simpl foldl. rewrite foldl_app. cbn [foldl].
  destruct b as [ps|ps|id name ps input]; cbn [block_step first_shape].
  - by rewrite (steps_text i ps "").
  - change (vobj [("type", Str "thinking"); ("thinking", Str "")]) with (thinking_of ""). by rewrite (steps_thinking i ps "").
  - destruct ps as [|p ps]; [by rewrite (Hok : input = _)|]. cbn [deltas map foldl].
    change (block_step _ _) with (tool_with id name p).
    rewrite (steps_tool i id name ps input p). unfold block_ok in Hok. simpl in Hok.
    exact (finalize_tool id name _ input Hok).
Qed.

(** The blocks of a message and the events of its stream, in any order that
    keeps the events of each block in theirs. *)
Record streams (blocks : list Block) (es : list BlockEvent) : Prop := {
  streams_each i b : blocks !! i = Some b → List.filter (λ e, bool_decide (position e = i)) es = block_events i b;
  streams_no_more e : e ∈ es → (position e < length blocks)%nat;
  streams_ok : Forall block_ok blocks;
  streams_small : (Z.of_nat (length blocks) ≤ u64_max)%Z;
}.

Lemma extent_bound es n m : (∀ e, e ∈ es → (position e < m)%nat) → (n ≤ m)%nat → (extent n es ≤ m)%nat.
Proof.
  intros He. unfold extent. revert n. induction es as [|e es IH]; intros n Hn; simpl; [done|]. apply IH.
  - intros e' He'. apply He. by constructor.
  - specialize (He e ltac:(constructor)). destruct e; simpl in *; lia.
Qed.

Lemma extent_ge es n : (n ≤ extent n es)%nat.
Proof.
  unfold extent. revert n. induction es as [|e es IH]; intros n; simpl; [done|].
  etrans; [|apply IH]. destruct e; lia.
Qed.

Lemma extent_start es n i b : Start i b ∈ es → (i < extent n es)%nat.
Proof.
  revert n. induction es as [|e es IH]; intros n Hin; [by apply not_elem_of_nil in Hin|].
  apply elem_of_cons in Hin as [<-|Hin]; [|by apply IH]. unfold extent. simpl.
  pose proof (extent_ge es (Nat.max n (S i))) as Hg. unfold extent in Hg. lia.
Qed.

Lemma streamed_content blocks es c0 st : streams blocks es → content_of st = c0 → c0 = [] →
  ∃ st', feed_all st (map event_of es) = Some st' ∧ re_usage st' = re_usage st ∧
    (∀ k, k ≠ "content" → obj_get k (snapshot_fields st') = obj_get k (snapshot_fields st)) ∧
    content_of st' = map final_shape blocks.
Proof.
  intros Hs Hc ->. destruct (feed_blocks es st) as (st' & Hf & Hu & Hk & Hl & Hb).
  { apply Forall_forall. intros e He. apply (streams_no_more _ _ Hs) in He. pose proof (streams_small _ _ Hs). lia. }
  exists st'. split_and!; [done..|]. rewrite Hc /= in Hl.
  assert (Hlen : extent 0 es = length blocks).
  { apply Nat.le_antisymm; [apply extent_bound; [apply (streams_no_more _ _ Hs)|lia]|].
    destruct (length blocks) as [|k] eqn:En; [lia|]. destruct (lookup_lt_is_Some_2 blocks k) as [b Hbk]; [lia|].
    apply (streams_each _ _ Hs) in Hbk. apply (extent_start es 0 k (first_shape b)).
    assert (Hin : Start k (first_shape b) ∈ List.filter (λ e, bool_decide (position e = k)) es) by (rewrite Hbk; constructor).
    by apply list_elem_of_In, filter_In in Hin as [Hin%list_elem_of_In _]. }
  apply list_eq. intros i. rewrite list_lookup_fmap.
  destruct (blocks !! i) as [b|] eqn:Eb; simpl.
  - specialize (Hb i). unfold run_block in Hb. rewrite (streams_each _ _ Hs i b Eb) in Hb.
    rewrite run_block_events in Hb; [exact (Forall_lookup_1 _ _ _ _ (streams_ok _ _ Hs) Eb)|].
    unfold block_at in Hb. destruct (content_of st' !! i) as [v|] eqn:Ev; [by simpl in Hb; rewrite Hb|].
    apply lookup_ge_None in Ev. apply lookup_lt_Some in Eb. lia.
  - apply lookup_ge_None. apply lookup_ge_None in Eb. lia.
Qed.

(** ** The whole stream *)

Lemma merge_default_r u : merge_from u usage_default = u.
Proof. destruct u as [a b c d e f]. unfold merge_from. simpl. f_equal; by match goal with |- max_opt ?x None = _ => destruct x end. Qed.

Lemma foldl_merge u us : foldl merge_from u us = merge_from u (foldl merge_from usage_default us).
Proof.
  revert u. induction us as [|v us IH]; intros u; simpl; [by rewrite merge_default_r|].
  rewrite IH (IH (merge_from usage_default v)) (merge_comm usage_default) merge_default_r merge_assoc. done.
Qed.

(** Only the usage of events themselves counts. *)
Definition quiet_usage (st : Reassembler) (o : option Reassembler) : Prop :=
  ∀ st', o = Some st' → re_usage st' = re_usage st.

Lemma quiet_some st st' : re_usage st' = re_usage st → quiet_usage st (Some st').
Proof. by intros Hq st'' [= <-]. Qed.

Lemma quiet_bind st o k : quiet_usage st o → (∀ st1, quiet_usage st1 (k st1)) → quiet_usage st (o ≫= k).
Proof. intros Ho Hk st'. destruct o as [st1|]; [|done]. simpl. intros Hs. rewrite -(Ho st1) //. by apply Hk. Qed.

Lemma quiet_content f st : quiet_usage st (with_content f st).
Proof.
  unfold with_content. intros st'. destruct (update_array _ _ _) as [[l u]|]; [|done]. simpl. by intros [= <-].
Qed.

Lemma quiet_output f st : quiet_usage st (with_output f st).
Proof.
  unfold with_output. intros st'. destruct (update_array _ _ _) as [[l u]|]; [|done]. simpl. by intros [= <-].
Qed.

Lemma quiet_each {A} (f : A → Reassembler → option Reassembler) l st :
  (∀ x st, quiet_usage st (f x st)) → quiet_usage st (for_each_opt f l st).
Proof.
  intros Hf. revert st. induction l as [|x l IH]; intros st; simpl; [by apply quiet_some|]. apply quiet_bind; auto.
Qed.

Lemma quiet_set s st : re_usage (set_snapshot s st) = re_usage st.
Proof. done. Qed.

Lemma quiet_chat data st : quiet_usage st (chat_completion_chunk data st).
Proof.
  unfold chat_completion_chunk. set (st0 := match re_snapshot st with Some _ => st | None => _ end).
  assert (Hst0 : re_usage st0 = re_usage st) by (subst st0; by destruct (re_snapshot st)).
  intros st' Hst'. rewrite -Hst0. revert st' Hst'. change (quiet_usage st0 (
    (let text := str_field (default Null (v_get "delta" (default Null (first_of "choices" data)))) "content" in
     if decide (text = "") then Some st0 else on_text_block (λ b, Some (append_str b "text" text)) st0) ≫= λ st1,
    (let reason := str_field (default Null (v_get "delta" (default Null (first_of "choices" data)))) "reasoning_content" in
     if decide (reason = "") then Some st1 else on_thinking_block (λ b, Some (append_str b "thinking" reason)) st1) ≫= λ st2,
    for_each_opt chat_tool_call_delta (default [] (v_get "tool_calls" (default Null (v_get "delta" (default Null (first_of "choices" data)))) ≫= as_array)) st2 ≫= λ st3,
    Some match v_get "finish_reason" (default Null (first_of "choices" data)) ≫= as_string, re_snapshot st3 with
      | Some reason, Some (Object l) => set_snapshot (Some (Object (obj_insert "stop_reason" (Str reason) l))) st3
      | _, _ => st3
      end)).
  apply quiet_bind; [cbv zeta; case_decide; [by apply quiet_some|apply quiet_content]|]. intros st1.
  apply quiet_bind; [cbv zeta; case_decide; [by apply quiet_some|apply quiet_content]|]. intros st2.
  apply quiet_bind; [apply quiet_each; intros; apply quiet_content|]. intros st3. apply quiet_some. repeat case_match; done.
Qed.

Lemma quiet_gemini data st : quiet_usage st (gemini_chunk data st).
Proof.
  unfold gemini_chunk. set (st0 := match re_snapshot st with Some _ => st | None => _ end).
  assert (Hst0 : re_usage st0 = re_usage st) by (subst st0; by destruct (re_snapshot st)).
  intros st'. destruct (for_each_opt _ _ st0) as [st1|] eqn:E; [|done].
  assert (Hst1 : re_usage st1 = re_usage st0).
  { revert E. apply quiet_each. intros part st2. destruct (v_get "text" part ≫= as_string); [apply quiet_content|by apply quiet_some]. }
  simpl. intros [= <-]. repeat case_match; simpl; congruence.
Qed.

Lemma feed_event_usage event data st : quiet_usage st (feed_event event data st).
Proof.
  assert (Hbare : quiet_usage st (bare_frame data st)).
  { unfold bare_frame. case_match; [apply quiet_chat|]. case_match; [apply quiet_gemini|by apply quiet_some]. }
  unfold feed_event. destruct (or_else _ _) as [e|]; [|done].
  case_decide; [by apply quiet_some|]. case_decide; [unfold content_block_start; case_match; [apply quiet_content|by apply quiet_some]|].
  case_decide; [apply quiet_content|]. case_decide; [apply quiet_content|].
  case_decide; [apply quiet_some; unfold message_delta; repeat case_match; done|]. case_match; [|done].
  unfold response_event, response_output_item, response_delta.
  repeat first [apply quiet_output | by apply quiet_some | case_match | case_decide].
Qed.

Lemma feed_all_usage st events st' : feed_all st events = Some st' →
  re_usage st' = foldl merge_from (re_usage st) (flat_map (λ e, usages_of (pe_data e)) events).
Proof.
  revert st. induction events as [|e events IH]; intros st; simpl; [by intros [= ->]|].
  unfold feed. destruct (feed_event _ _ _) as [st1|] eqn:Ee; [|done]. cbn [fmap option_fmap option_map mbind option_bind].
  intros ->%IH. rewrite foldl_app. f_equal. unfold merge_event_usage. simpl. f_equal.
  by apply (feed_event_usage _ _ _ _ Ee).
Qed.
End blocks.

(** ** Frames on the wire *)

Section wire.
Context `{!JsonText, !Utf8}.

Definition clean (s : string) : bool := str_forallb (not_char "010") s && str_forallb (not_char "013") s.

(** An event, by its name and the text of its data. *)
Definition frame (e : string * string) : string :=
  "event: " ++ e.1 ++ nl ++ "data: " ++ e.2 ++ nl ++ nl.

Record carries (w : string * string) (e : ParsedEvent) : Prop := {
  carries_clean : clean w.1 = true ∧ clean w.2 = true;
  carries_trim : trim (" " ++ w.1) = w.1 ∧ trim (" " ++ w.2) = w.2;
  carries_data : w.2 ≠ "" ∧ w.2 ≠ "[DONE]";
  carries_event : e = mkParsedEvent (Some w.1) (default (Str w.2) (json_from_str w.2));
}.

Lemma clean_app a b : clean (a ++ b) = clean a && clean b.
Proof. unfold clean. rewrite !str_forallb_app. by destruct (str_forallb _ a), (str_forallb _ b), (str_forallb _ a). Qed.

Lemma no_cr s : clean s = true → strip_suffix (String "013" "") s = None.
Proof.
  intros [_ Hs]%andb_true_iff. destruct (strip_suffix _ s) as [r|] eqn:E; [|done].
  assert (He : ends_with (String "013" "") s = true) by (unfold ends_with; by rewrite E).
  apply ends_with_iff in He as [q ->]. rewrite str_forallb_app in Hs. by apply andb_true_iff in Hs as [_ Hs].
Qed.

Lemma lines_line x rest : clean x = true → lines (x ++ String "010" rest) = x :: lines rest.
Proof.
  intros Hx. unfold lines. rewrite split_char_app; [by apply andb_true_iff in Hx as [Hx _]|].
  assert (Hr : split_char "010" rest ≠ []).
  { destruct rest as [|a rest]; simpl; [done|]. case_match; [done|]. by case_match. }
  simpl. destruct (split_char "010" rest) as [|y ls] eqn:E; [done|].
  unfold drop_cr. by rewrite no_cr.
Qed.

Lemma event_line f name : clean name = true →
  parse_line f ("event: " ++ name) = mkFrames (Some (trim (" " ++ name))) (fr_data f) (fr_out f).
Proof.
  intros Hn. unfold parse_line. rewrite no_cr; [by rewrite clean_app Hn|]. cbn [default].
  change ("event: " ++ name) with ("event:" ++ (" " ++ name)). by rewrite strip_prefix_app.
Qed.

Lemma data_line f text : clean text = true →
  parse_line f ("data: " ++ text) = mkFrames (fr_event f) (fr_data f ++ [trim (" " ++ text)])%list (fr_out f).
Proof.
  intros Ht. unfold parse_line. rewrite no_cr; [by rewrite clean_app Ht|]. cbn [default].
  change (strip_prefix "event:" ("data: " ++ text)) with (@None string).
  change ("data: " ++ text) with ("data:" ++ (" " ++ text)). by rewrite strip_prefix_app.
Qed.

Lemma parse_frame w e out rest : carries w e →
  foldl parse_line (mkFrames None [] out) (lines (frame w ++ rest)) =
  foldl parse_line (mkFrames None [] (out ++ [e])%list) (lines rest).
Proof.
  intros [[Hn Ht] [Htn Htt] [Hne Hd] ->]. destruct w as [name text]. cbn [fst snd] in *.
  assert (Hn' : clean ("event: " ++ name) = true) by (rewrite clean_app; exact Hn).
  assert (Ht' : clean ("data: " ++ text) = true) by (rewrite clean_app; exact Ht).
  assert (Hl : lines (frame (name, text) ++ rest) = ("event: " ++ name) :: ("data: " ++ text) :: "" :: lines rest).
  { rewrite -(lines_line "" rest) // -(lines_line ("data: " ++ text)) // -(lines_line ("event: " ++ name)) //.
    f_equal. unfold frame. cbn [fst snd]. by rewrite !app_assoc_s. }
  rewrite Hl. cbn [foldl]. rewrite event_line // Htn data_line // Htt.
  unfold parse_line at 2, flush. simpl. rewrite decide_False //. naive_solver.
Qed.

Lemma parse_frames ws es out : Forall2 carries ws es →
  foldl parse_line (mkFrames None [] out) (lines (str_concat (map frame ws))) = mkFrames None [] (out ++ es)%list.
Proof.
  intros Hws. revert out. induction Hws as [|w e ws es Hwe _ IH]; intros out; simpl; [by rewrite app_nil_r|].
  rewrite (parse_frame w e) // IH. by rewrite -app_assoc.
Qed.

Lemma parse_events_frames ws es : from_utf8_lossy (str_concat (map frame ws)) = str_concat (map frame ws) →
  Forall2 carries ws es → parse_events (str_concat (map frame ws)) = es.
Proof. intros Hu Hws. unfold parse_events. by rewrite Hu (parse_frames _ _ [] Hws). Qed.
End wire.

(** ** The properties *)

Section whole.
Context `{!JsonText, !Utf8}.

(** The usages that count: the one in the last of the answers nested in events,
    and those at the top of an event. *)
Definition kept_usages (final : Reassembler) (events : list ParsedEvent) : list Usage :=
  (match re_snapshot final with Some s => usages_of s | None => [] end ++ flat_map (λ e, usages_of (pe_data e)) events)%list.

Lemma foldl_merge_perm us us' u : us ≡ₚ us' → foldl merge_from u us = foldl merge_from u us'.
Proof.
  intros Hp. revert u. induction Hp as [|x us us' _ IH|x y us|us1 us2 us3 _ IH1 _ IH2]; intros u; simpl; [done|apply IH| |by rewrite IH1].
  by rewrite -!merge_assoc (merge_comm y x).
Qed.

Lemma finish_usage final events : feed_all Reassembler_new events = Some final →
  (finish final).2 = foldl merge_from usage_default (kept_usages final events).
Proof.
  intros Hf%feed_all_usage. unfold finish, kept_usages. cbn [snd]. rewrite Hf foldl_app.
  destruct (re_snapshot final) as [s|]; by rewrite -foldl_merge.
Qed.


Lemma feed_all_app st es es' : feed_all st (es ++ es') = feed_all st es ≫= λ st', feed_all st' es'.
Proof. revert st. induction es as [|e es IH]; intros st; simpl; [done|]. destruct (feed st e); simpl; [apply IH|done]. Qed.

Definition message_start (fields : list (string * Value)) : ParsedEvent :=
  mkParsedEvent (Some "message_start") (vobj [("type", Str "message_start"); ("message", Object fields)]).
Definition message_end (delta : list (string * Value)) (usage : Value) : ParsedEvent :=
  mkParsedEvent (Some "message_delta")
    (vobj [("type", Str "message_delta"); ("delta", Object delta); ("usage", usage)]).
Definition message_stop : ParsedEvent := mkParsedEvent (Some "message_stop") (vobj [("type", Str "message_stop")]).

Lemma obj_get_merged delta l k : NoDup (map fst delta) →
  obj_get k (foldl (λ l kv, obj_insert kv.1 kv.2 l) l delta) = or_else (obj_get k delta) (obj_get k l).
Proof.
  revert l. induction delta as [|[k' v] delta IH]; intros l Hnd; simpl in *; [done|].
  apply NoDup_cons in Hnd as [Hnin Hnd]. rewrite IH // obj_get_insert.
  destruct (String.eqb_spec k k') as [->|]; [|done].
  destruct (obj_get k' delta) as [w|] eqn:E; [|done]. exfalso. apply Hnin. clear -E.
  induction delta as [|[k v'] delta IH]; simpl in *; [done|]. destruct (String.eqb_spec k' k) as [->|]; constructor. by apply IH.
Qed.

Lemma finalize_final b : finalize_partial_json (final_shape b) = final_shape b.
Proof. by destruct b. Qed.

Lemma finish_message st l c : re_snapshot st = Some (Object l) → obj_get "output" l = None →
  obj_get "content" l = Some (Array c) →
  (finish st).1 = Some (Object (obj_insert "content" (Array (map finalize_partial_json c)) l)).
Proof. intros Hs Ho Hc. unfold finish. rewrite Hs. simpl. rewrite Ho. simpl. by rewrite Hc. Qed.

(** The content is an array of the snapshot throughout. *)
Lemma content_present blocks es l st : streams blocks es → obj_get "content" l = Some (Array []) →
  feed_all (mkReassembler (Some (Object l)) usage_default) (map event_of es) = Some st →
  content_of st = map final_shape blocks →
  obj_get "content" (snapshot_fields st) = Some (Array (map final_shape blocks)).
Proof.
  intros Hs Hl Hf Hc. destruct blocks as [|b blocks].
  - destruct es as [|e es]; [by injection Hf as <-|]. pose proof (streams_no_more _ _ Hs e ltac:(constructor)). simpl in *. lia.
  - revert Hc. unfold content_of, array_entry. destruct (obj_get "content" (snapshot_fields st)) as [v|]; [|done].
    destruct v; try done. by intros <-.
Qed.

Lemma fed_message l delta usage blocks es :
  obj_get "content" l = Some (Array []) → streams blocks es → NoDup (map fst delta) →
  ∃ st l', feed_all Reassembler_new (message_start l :: map event_of es ++ [message_end delta usage; message_stop]) = Some st ∧
    re_snapshot st = Some (Object l') ∧
    ∀ k, obj_get k l' = or_else (obj_get k delta)
      (if decide (k = "content") then Some (Array (map final_shape blocks)) else obj_get k l).
Proof.
  intros Hc Hs Hnd. set (st0 := mkReassembler (Some (Object l)) usage_default).
  destruct (streamed_content blocks es [] st0 Hs) as (st1 & Hf & _ & Hk & Hc1); [by unfold content_of, array_entry; simpl; rewrite Hc|done|].
  pose proof (content_present _ _ _ _ Hs Hc Hf Hc1) as Hp.
  destruct st1 as [[v|] u1]; [|done]. destruct v as [| | | | |l1]; try done. simpl in Hk, Hp.
  eexists. exists (foldl (λ l kv, obj_insert kv.1 kv.2 l) l1 delta). split_and!.
  - change (feed_all Reassembler_new (?a :: ?r)) with (feed_all st0 r). rewrite feed_all_app Hf. simpl. reflexivity.
  - reflexivity.
  - intros k. rewrite obj_get_merged //. f_equal. case_decide as Hd; [by rewrite Hd|by apply Hk].
Qed.

(** C39. A message whose blocks are cut into pieces anywhere, the pieces of
    different blocks interleaved anyhow, comes back as the agent received it:
    the content blocks whole and in order, a tool's input parsed from its
    pieces, and the other fields those of the start overridden by the end's. *)
Theorem streamed_message_reassembled (l delta : list (string * Value)) (usage : Value)
    (blocks : list Block) (es : list BlockEvent) (ws : list (string * string)) :
  let events := message_start l :: map event_of es ++ [message_end delta usage; message_stop] in
  let body := str_concat (map frame ws) in
  from_utf8_lossy body = body → Forall2 carries ws events →
  streams blocks es →
  obj_get "content" l = Some (Array []) → obj_get "output" l = None →
  NoDup (map fst delta) → obj_get "content" delta = None → obj_get "output" delta = None →
  ∃ fields used, reconstruct body = Some (Some (Object fields), used, map stream_event events) ∧
    obj_get "content" fields = Some (Array (map final_shape blocks)) ∧
    ∀ k, k ≠ "content" → obj_get k fields = or_else (obj_get k delta) (obj_get k l).
Proof.
  intros events body Hu Hws Hs Hc Ho Hnd Hdc Hdo. unfold reconstruct. rewrite (parse_events_frames _ _ Hu Hws).
  destruct (fed_message l delta usage blocks es Hc Hs Hnd) as (st & l' & Hf & Hst & Hk).
  assert (Hl : (finish st).1 = Some (Object (obj_insert "content" (Array (map final_shape blocks)) l'))).
  { rewrite (finish_message st l' (map final_shape blocks) Hst).
    - by rewrite Hk Hdo.
    - by rewrite Hk Hdc.
    - rewrite map_map. do 4 f_equal. apply map_ext, finalize_final. }
  unfold events. rewrite Hf. cbn [mbind option_bind]. destruct (finish st) as [s used]. simpl in Hl. subst s.
  exists (obj_insert "content" (Array (map final_shape blocks)) l'), used. split_and!; [done|by rewrite obj_get_insert|].
  intros k Hne. rewrite obj_get_insert. destruct (String.eqb_spec k "content"); [done|]. by rewrite Hk decide_False.
Qed.
End whole.

(** Nothing bounds the index an event names: one event of a few bytes makes the
    recorder hold as many blocks. *)
Example index_grows_content `{!JsonText} (i : nat) (delta : Value) : (Z.of_nat i ≤ u64_max)%Z →
  ∃ st, feed Reassembler_new (event_of (Delta i delta)) = Some st ∧ length (content_of st) = S i.
Proof.
  intros Hi. destruct (feed_block (Delta i delta) Reassembler_new Hi) as (c & Hf & [Hl _]).
  eexists. split; [exact Hf|]. unfold content_of. by rewrite snapshot_content Hl.
Qed.

(** ** A stream *)

Section example.
(** JSON text, with single quotes for double ones. *)
Definition quoted (s : string) : string :=
  String.concat dquote (split_char "'" s).

Definition wire_of (table : list (string * (string * Value))) : list (string * string) :=
  map (λ e, (e.1, quoted e.2.1)) table.

Definition reader (table : list (string * (string * Value))) : JsonText :=
  {| json_from_str s :=
       match find (λ e, String.eqb (quoted e.2.1) s) table with
       | Some e => Some e.2.2
       | None => if String.eqb s (quoted "{'q':1}") then Some (Object [("q", Num (NInt 1))]) else None
       end |}.

Definition utf8_id : Utf8 := {| from_utf8_lossy s := s |}.

Definition start_fields : list (string * Value) := [("content", Array []); ("role", Str "assistant")].
Definition example_blocks : list Block := [TextBlock ["He"; "llo"]; ToolBlock "t" "search" ["{"; quoted "'q':1}"] (Object [("q", Num (NInt 1))])].

Definition text_delta (i : nat) (s : string) : BlockEvent := Delta i (vobj [("type", Str "text_delta"); ("text", Str s)]).
Definition json_delta (i : nat) (s : string) : BlockEvent :=
  Delta i (vobj [("type", Str "input_json_delta"); ("partial_json", Str s)]).

Definition example_events : list BlockEvent :=
  [Start 0 (text_of ""); text_delta 0 "He";
   Start 1 (vobj [("type", Str "tool_use"); ("id", Str "t"); ("name", Str "search"); ("input", Object [])]);
   json_delta 1 "{"; text_delta 0 "llo"; Stop 0; json_delta 1 (quoted "'q':1}"); Stop 1].

Definition example_table : list (string * (string * Value)) :=
  zip_with (λ text e, (default "" (pe_event e), (text, pe_data e)))
    ["{'type':'message_start','message':{'content':[],'role':'assistant'}}";
     "{'type':'content_block_start','index':0,'content_block':{'type':'text','text':''}}";
     "{'type':'content_block_delta','index':0,'delta':{'type':'text_delta','text':'He'}}";
     "{'type':'content_block_start','index':1,'content_block':{'type':'tool_use','id':'t','name':'search','input':{}}}";
     "{'type':'content_block_delta','index':1,'delta':{'type':'input_json_delta','partial_json':'{'}}";
     "{'type':'content_block_delta','index':0,'delta':{'type':'text_delta','text':'llo'}}";
     "{'type':'content_block_stop','index':0}";
     "{'type':'content_block_delta','index':1,'delta':{'type':'input_json_delta','partial_json':'\'q\':1}'}}";
     "{'type':'content_block_stop','index':1}";
     "{'type':'message_delta','delta':{'stop_reason':'tool_use'},'usage':{'output_tokens':7}}";
     "{'type':'message_stop'}"]
    (message_start start_fields :: map event_of example_events ++
      [message_end [("stop_reason", Str "tool_use")] (vobj [("output_tokens", Num (NInt 7))]); message_stop]).

Lemma example_streams : @streams (reader example_table) example_blocks example_events.
Proof.
  split.
  - intros i b Hb. destruct i as [|[|i]]; simpl in Hb; simplify_eq; [vm_compute; reflexivity..|done].
  - intros e He. unfold example_events in He. rewrite !elem_of_cons elem_of_nil in He. destruct_or!; subst; simpl; lia || done.
  - by repeat constructor.
  - done.
Qed.

Lemma streamed_message_reassembled_witness :
  ∃ fields used, @reconstruct (reader example_table) utf8_id (str_concat (map frame (wire_of example_table))) =
      Some (Some (Object fields), used, map stream_event (map (λ e, mkParsedEvent (Some e.1) e.2.2) example_table)) ∧
    obj_get "content" fields = Some (Array
      [text_of "Hello"; vobj [("type", Str "tool_use"); ("id", Str "t"); ("name", Str "search");
                              ("input", Object [("q", Num (NInt 1))])]]) ∧
    ∀ k, k ≠ "content" → obj_get k fields = or_else (obj_get k [("stop_reason", Str "tool_use")]) (obj_get k start_fields).
Proof.
  refine (@streamed_message_reassembled (reader example_table) utf8_id start_fields [("stop_reason", Str "tool_use")]
    (vobj [("output_tokens", Num (NInt 7))]) example_blocks example_events (wire_of example_table) _ _ example_streams _ _ _ _ _).
  - reflexivity.
  - repeat first [apply Forall2_nil_2 | apply Forall2_cons_2]; (split; [split; vm_compute; reflexivity..|split; vm_compute; discriminate|vm_compute; reflexivity]).
  - reflexivity.
  - reflexivity.
  - apply NoDup_singleton.
  - reflexivity.
  - reflexivity.
Defined.
(** The usage of a nested answer goes with it when the next replaces it. *)
Definition nested_event (type : string) (n : Z) : ParsedEvent :=
  mkParsedEvent (Some type) (vobj [("type", Str type); ("response", vobj [("usage", vobj [("input_tokens", Num (NInt n))])])]).

Example nested_usage_replaced :
  (λ st, input_tokens (@finish (reader []) st).2) <$> @feed_all (reader []) Reassembler_new [nested_event "response.created" 10; nested_event "response.completed" 5] =
  Some (Some 5%Z).
Proof. vm_compute. reflexivity. Qed.
End example.
