(* ===== verification/Atif.v ===== *)
(** * Trajectories made of recorded traffic (crates/omniagent-cli/src/atif.rs)

    The conversation of a run, in the interchange format of its evaluator: steps
    numbered from one, the tool calls of the agent, and what it observed of them.
    It is read off the last exchange recorded, whose request carries all before. *)
From S2P Require Import Prelude Str Json Record Sse SseInv.

Definition SCHEMA_VERSION : string := "ATIF-v1.7".

Record ToolCall : Type := mkToolCall { tool_call_id : string; function_name : string; arguments : Value }.
Record ObservationResult : Type := mkResult { source_call_id : option string; content : option string }.
Record Observation : Type := mkObservation { results : list ObservationResult }.

Record Metrics : Type := mkMetrics { prompt_tokens : option Z; completion_tokens : option Z; cached_tokens : option Z }.

Record FinalMetrics : Type := mkFinal {
  total_prompt_tokens : option Z; total_completion_tokens : option Z; total_cached_tokens : option Z; total_steps : Z;
}.

Record Step : Type := mkStep {
  step_id : Z; timestamp : option string; source : string; model_name : option string; message : string;
  reasoning_content : option string; tool_calls : option (list ToolCall); observation : option Observation;
  metrics : option Metrics; extra : option Value;
}.

Record Agent : Type := mkAgent { agent_name : string; agent_version : string; agent_model : option string }.

Record Trajectory : Type := mkTrajectory {
  schema_version : string; session_id : option string; agent : Agent; steps : list Step;
  final_metrics : option FinalMetrics;
}.

Definition non_empty_list {A} (l : list A) : option (list A) := match l with [] => None | _ => Some l end.

(** ** Totals *)

Definition metrics_is_empty (m : Metrics) : bool :=
  match m with mkMetrics None None None => true | _ => false end.

Definition from_usage (u : Usage) : option Metrics :=
  let m := mkMetrics (input_tokens u) (output_tokens u) (cache_read_tokens u) in
  if metrics_is_empty m then None else Some m.

(** One of the three running sums: whether a value was present, and the sum. *)
Definition add_tokens (total : option Z) (v : option Z) : option Z :=
  match v with Some v => Some (saturating_add64 (default 0%Z total) v) | None => total end.

Definition sum_token_metrics (items : list (option Z * option Z * option Z)) (total_steps : nat) : FinalMetrics :=
  let '(p, c, ca) := foldl (λ '(p, c, ca) '(p', c', ca'), (add_tokens p p', add_tokens c c', add_tokens ca ca'))
    (None, None, None) items in
  mkFinal p c ca (Z.min (Z.of_nat total_steps) u32_max).

Definition aggregate_metrics (spans : list LlmSpan) (total_steps : nat) : FinalMetrics :=
  sum_token_metrics (map (λ s, let u := sd_usage (sp_draft s) in (input_tokens u, output_tokens u, cache_read_tokens u)) spans)
    total_steps.

(** ** Links to the recorded requests *)

Definition response_id (response : Value) : option string :=
  id ← v_get "id" response ≫= as_string; if decide (id = "") then None else Some id.

Definition set_extra (step : Step) (e : Value) : Step :=
  mkStep (step_id step) (timestamp step) (source step) (model_name step) (message step) (reasoning_content step)
    (tool_calls step) (observation step) (metrics step) (Some e).

Definition set_extra_key (step : Step) (key : string) (value : Value) : Step :=
  match default (Object []) (extra step) with
  | Object l => set_extra step (Object (obj_insert key value l))
  | other => set_extra step other
  end.

Definition set_response_id (step : Step) (id : string) : Step := set_extra_key step "response_id" (Str id).

(** The map is collected in order: a later span replaces an earlier one. *)
Definition by_response (spans : list LlmSpan) : gmap string string :=
  foldl (λ m span, match response_id (sd_response (sp_draft span)) with Some rid => <[rid := sp_id span]> m | None => m end)
    ∅ spans.

Definition link_step (m : gmap string string) (step : Step) : Step :=
  match ((extra step ≫= v_get "response_id") ≫= as_string) ≫= (m !!.) with
  | Some span_id => set_extra_key step "raw_request_id" (Str span_id)
  | None => step
  end.

Definition link_raw_requests (t : Trajectory) (spans : list LlmSpan) : Trajectory :=
  let m := by_response spans in
  if decide (m = ∅) then t
  else mkTrajectory (schema_version t) (session_id t) (agent t) (map (link_step m) (steps t)) (final_metrics t).

(** ** Steps *)

Definition next_id (l : list Step) : Z := wrap32 (Z.min (Z.of_nat (length l)) u32_max + 1).

Definition push_user (source message : string) (l : list Step) : list Step :=
  (l ++ [mkStep (next_id l) None source None message None None None None None])%list.

Definition push_agent (model : option string) (message : string) (calls : option (list ToolCall))
    (timestamp : option string) (m : option Metrics) (l : list Step) : list Step :=
  (l ++ [mkStep (next_id l) timestamp "agent" model message None calls None m None])%list.

Definition add_results (rs : list ObservationResult) (step : Step) : Step :=
  let obs := match observation step with Some o => mkObservation (results o ++ rs) | None => mkObservation rs end in
  mkStep (step_id step) (timestamp step) (source step) (model_name step) (message step) (reasoning_content step)
    (tool_calls step) (Some obs) (metrics step) (extra step).

(** The last step [p] holds of, changed. *)
Fixpoint update_last {A} (p : A → bool) (f : A → A) (l : list A) : option (list A) :=
  match l with
  | [] => None
  | x :: l => match update_last p f l with
      | Some l => Some (x :: l)
      | None => if p x then Some (f x :: l) else None
      end
  end.

Definition is_agent (step : Step) : bool := bool_decide (source step = "agent").

Definition attach_observation (rs : list ObservationResult) (l : list Step) : list Step :=
  match rs with
  | [] => l
  | _ => default l (update_last is_agent (add_results rs) l)
  end.

(** ** What providers send *)

Definition text_field (block : Value) : option string := v_get "text" block ≫= as_string.

Definition anthropic_text (value : Value) : string :=
  match value with
  | Str text => text
  | Array blocks => str_join nl (omap text_field blocks)
  | _ => ""
  end.

Definition typed_text (block : Value) : option string :=
  if decide (type_of block = Some "text") then text_field block else None.

Definition str_of (key : string) (v : Value) : string := default "" (v_get key v ≫= as_string).

Definition tool_use (block : Value) : option ToolCall :=
  if decide (type_of block = Some "tool_use") then
    Some (mkToolCall (str_of "id" block) (str_of "name" block) (default Null (v_get "input" block)))
  else None.

Definition anthropic_content (value : Value) : string * option (list ToolCall) :=
  match value with
  | Str text => (text, None)
  | Array blocks => (str_join nl (omap typed_text blocks), non_empty_list (omap tool_use blocks))
  | _ => ("", None)
  end.

Definition tool_result (block : Value) : option ObservationResult :=
  if decide (type_of block = Some "tool_result") then
    Some (mkResult (v_get "tool_use_id" block ≫= as_string) (Some (anthropic_text (default Null (v_get "content" block)))))
  else None.

Definition anthropic_user_content (value : Value) : string * list ObservationResult :=
  match value with
  | Str text => (text, [])
  | Array blocks => (str_join nl (omap typed_text blocks), omap tool_result blocks)
  | _ => ("", [])
  end.

Definition anthropic_response (response : Value) : string * option (list ToolCall) :=
  anthropic_content (default Null (v_get "content" response)).

Definition openai_text (value : option Value) : string :=
  match value with
  | Some (Str text) => text
  | Some (Array parts) => str_join nl (omap text_field parts)
  | _ => ""
  end.

Section providers.
Context `{!JsonText, !JsonShow}.

Definition openai_call (call : Value) : ToolCall :=
  let function := v_get "function" call in
  let arguments := match function ≫= v_get "arguments" with
    | Some a => default a (as_string a ≫= json_from_str)
    | None => Null
    end in
  mkToolCall (str_of "id" call) (default "" ((function ≫= v_get "name") ≫= as_string)) arguments.

Definition openai_tool_calls (value : option Value) : option (list ToolCall) :=
  calls ← value ≫= as_array; non_empty_list (map openai_call calls).

Definition openai_response (response : Value) : string * option (list ToolCall) :=
  match ((v_get "choices" response ≫= as_array) ≫= head) ≫= v_get "message" with
  | Some message => (openai_text (v_get "content" message), openai_tool_calls (v_get "tool_calls" message))
  | None => ("", None)
  end.

Definition gemini_parts_text (parts : option Value) : string :=
  match parts ≫= as_array with Some parts => str_join nl (omap text_field parts) | None => "" end.

Definition gemini_call (call : Value) : ToolCall :=
  let function_name := str_of "name" call in
  let id := match v_get "id" call ≫= as_string with
    | Some id => if decide (id = "") then function_name else id
    | None => function_name
    end in
  mkToolCall id function_name (default Null (v_get "args" call)).

Definition gemini_tool_calls (parts : option Value) : option (list ToolCall) :=
  parts ← parts ≫= as_array; non_empty_list (map gemini_call (omap (v_get "functionCall") parts)).

Definition gemini_result (resp : Value) : ObservationResult :=
  mkResult (v_get "name" resp ≫= as_string)
    (Some (match v_get "response" resp with Some r => json_to_string r | None => "" end)).

Definition gemini_tool_results (parts : option Value) : list ObservationResult :=
  match parts ≫= as_array with Some parts => map gemini_result (omap (v_get "functionResponse") parts) | None => [] end.

Definition gemini_response (response : Value) : string * option (list ToolCall) :=
  let parts := (((v_get "candidates" response ≫= as_array) ≫= head) ≫= v_get "content") ≫= v_get "parts" in
  (gemini_parts_text parts, gemini_tool_calls parts).

(** ** The conversation *)

Definition push_text (source text : string) (l : list Step) : list Step :=
  if decide (text = "") then l else push_user source text l.

Definition role_of (message : Value) (absent : string) : string := default absent (v_get "role" message ≫= as_string).

Definition anthropic_message (model : option string) (l : list Step) (message : Value) : list Step :=
  let role := role_of message "" in
  let content := default Null (v_get "content" message) in
  if decide (role = "assistant") then
    let '(text, calls) := anthropic_content content in push_agent model text calls None None l
  else if decide (role = "user" ∨ role = "tool") then
    let '(text, observations) := anthropic_user_content content in
    push_text "user" text (attach_observation observations l)
  else l.

Definition messages_of (key : string) (request : Value) : list Value := default [] (v_get key request ≫= as_array).

Definition extend_anthropic (model : option string) (request : Value) (l : list Step) : list Step :=
  let l := match v_get "system" request with Some system => push_text "system" (anthropic_text system) l | None => l end in
  foldl (anthropic_message model) l (messages_of "messages" request).

Definition openai_message (model : option string) (l : list Step) (message : Value) : list Step :=
  let role := role_of message "" in
  let content := v_get "content" message in
  if decide (role = "system" ∨ role = "developer") then push_user "system" (openai_text content) l
  else if decide (role = "user") then push_user "user" (openai_text content) l
  else if decide (role = "assistant") then
    push_agent model (openai_text content) (openai_tool_calls (v_get "tool_calls" message)) None None l
  else if decide (role = "tool") then
    attach_observation [mkResult (v_get "tool_call_id" message ≫= as_string) (Some (openai_text content))] l
  else l.

Definition extend_openai_chat (model : option string) (request : Value) (l : list Step) : list Step :=
  foldl (openai_message model) l (messages_of "messages" request).

Definition gemini_message (model : option string) (l : list Step) (content : Value) : list Step :=
  let parts := v_get "parts" content in
  if decide (role_of content "user" = "model") then
    push_agent model (gemini_parts_text parts) (gemini_tool_calls parts) None None l
  else push_text "user" (gemini_parts_text parts) (attach_observation (gemini_tool_results parts) l).

Definition extend_gemini (model : option string) (request : Value) (l : list Step) : list Step :=
  let l := match or_else (v_get "system_instruction" request) (v_get "systemInstruction" request) with
    | Some system => push_text "system" (gemini_parts_text (v_get "parts" system)) l
    | None => l
    end in
  foldl (gemini_message model) l (messages_of "contents" request).

Definition extend_from_request (span : LlmSpan) (l : list Step) : list Step :=
  let d := sp_draft span in
  match sd_provider d with
  | Anthropic => extend_anthropic (sd_model d) (sd_request d) l
  | OpenAI => extend_openai_chat (sd_model d) (sd_request d) l
  | Gemini => extend_gemini (sd_model d) (sd_request d) l
  end.

(** The last step, changed. *)
Definition on_last {A} (f : A → A) (l : list A) : list A := default l (update_last (λ _, true) f l).

(** The words and the calls of a recorded answer. *)
Definition response_of (d : SpanDraft) : string * option (list ToolCall) :=
  match sd_provider d with
  | Anthropic => anthropic_response (sd_response d)
  | OpenAI => openai_response (sd_response d)
  | Gemini => gemini_response (sd_response d)
  end.

Definition is_none {A} (o : option A) : bool := match o with None => true | Some _ => false end.

Definition push_response (span : LlmSpan) (l : list Step) : list Step :=
  let d := sp_draft span in
  let timestamp := if decide (sd_started_at d = "") then None else Some (sd_started_at d) in
  let metrics := from_usage (sd_usage d) in
  let '(message, calls) := response_of d in
  if bool_decide (message = "") && is_none calls && is_none metrics then l
  else
    let l := push_agent (sd_model d) message calls timestamp metrics l in
    match response_id (sd_response d) with Some id => on_last (λ s, set_response_id s id) l | None => l end.

Definition build_trajectory (name session_id : string) (spans : list LlmSpan) : option Trajectory :=
  last ← last spans;
  match push_response last (extend_from_request last []) with
  | [] => None
  | steps => Some (mkTrajectory SCHEMA_VERSION (if decide (session_id = "") then None else Some session_id)
      (mkAgent name "unknown" (sd_model (sp_draft last))) steps
      (Some (aggregate_metrics spans (length steps))))
  end.
End providers.

(** ** What a trajectory must be

    The validator of the evaluator numbers the steps from one and allows the
    fields of the model only on a step of the agent. *)
Definition sources : list string := ["system"; "user"; "agent"].

Definition agent_fields_absent (s : Step) : Prop :=
  model_name s = None ∧ reasoning_content s = None ∧ tool_calls s = None ∧ metrics s = None ∧ observation s = None.

Definition step_ok (i : nat) (s : Step) : Prop :=
  step_id s = (Z.of_nat i + 1)%Z ∧ source s ∈ sources ∧ (source s ≠ "agent" → agent_fields_absent s) ∧
  tool_calls s ≠ Some [] ∧ (∀ o, observation s = Some o → results o ≠ []).

(** The ids are unsigned words of 32 bits: the number after the last of them is
    not one of them. *)
Definition steps_ok (l : list Step) : Prop :=
  (Z.of_nat (length l) ≤ u32_max)%Z → ∀ i s, l !! i = Some s → step_ok i s.

Definition trajectory_ok (t : Trajectory) : Prop :=
  schema_version t = SCHEMA_VERSION ∧ steps t ≠ [] ∧ steps_ok (steps t) ∧
  ∃ f, final_metrics t = Some f ∧ (Z.of_nat (length (steps t)) ≤ u32_max → total_steps f = Z.of_nat (length (steps t)))%Z.

(** Its third check, the one named where the results are attached: a result that
    names a call is in the step that made the call. *)
Definition call_ids (calls : option (list ToolCall)) : list string := map tool_call_id (default [] calls).

Definition references_ok (s : Step) : Prop :=
  ∀ o r id, observation s = Some o → r ∈ results o → source_call_id r = Some id → id ∈ call_ids (tool_calls s).

(** What a message of a provider is to that check: a turn of the agent with the
    ids of its calls, or results. *)
Definition message_turn `{!JsonText, !JsonShow} (p : Provider) (m : Value) : option (list string) * list ObservationResult :=
  let content := v_get "content" m in
  match p with
  | Anthropic =>
      if decide (role_of m "" = "assistant") then (Some (call_ids (anthropic_content (default Null content)).2), [])
      else if decide (role_of m "" = "user" ∨ role_of m "" = "tool") then (None, (anthropic_user_content (default Null content)).2)
      else (None, [])
  | OpenAI =>
      if decide (role_of m "" = "assistant") then (Some (call_ids (openai_tool_calls (v_get "tool_calls" m))), [])
      else if decide (role_of m "" = "tool") then (None, [mkResult (v_get "tool_call_id" m ≫= as_string) (Some (openai_text content))])
      else (None, [])
  | Gemini =>
      if decide (role_of m "user" = "model") then (Some (call_ids (gemini_tool_calls (v_get "parts" m))), [])
      else (None, gemini_tool_results (v_get "parts" m))
  end.

(** Each result answers a call of the turn of the agent before it. *)
Fixpoint answers_calls (made : list string) (turns : list (option (list string) * list ObservationResult)) : bool :=
  match turns with
  | [] => true
  | (Some ids, _) :: turns => answers_calls ids turns
  | (None, rs) :: turns =>
      forallb (λ r, match source_call_id r with Some id => bool_decide (id ∈ made) | None => true end) rs && answers_calls made turns
  end.

Definition conversation_answers `{!JsonText, !JsonShow} (d : SpanDraft) : bool :=
  answers_calls [] (map (message_turn (sd_provider d))
    (messages_of (match sd_provider d with Gemini => "contents" | _ => "messages" end) (sd_request d))).

Lemma next_id_ok l : (Z.of_nat (length l) < u32_max)%Z → next_id l = (Z.of_nat (length l) + 1)%Z.
Proof. intros. unfold next_id, wrap32. rewrite Z.min_l; [width_lia|]. apply Z.mod_small. width_lia. Qed.

Lemma steps_ok_snoc l s : steps_ok l →
  ((Z.of_nat (length l) < u32_max)%Z → step_ok (length l) s) → steps_ok (l ++ [s])%list.
Proof.
  intros Hl Hs Hlen i s'. rewrite length_app /= in Hlen. intros [Hi|[Hi Hx]]%lookup_app_Some.
  - apply Hl; [lia|done].
  - destruct (i - length l)%nat as [|k] eqn:Hk; [|done]. simplify_eq/=.
    replace i with (length l) by lia. apply Hs. lia.
Qed.

Lemma steps_ok_alter l l' : length l' = length l →
  (∀ i s', l' !! i = Some s' → ∃ s, l !! i = Some s ∧ (step_ok i s → step_ok i s')) → steps_ok l → steps_ok l'.
Proof.
  intros Hlen H Hl Hn i s' Hi. destruct (H i s' Hi) as (s & Hs & Hok). apply Hok, Hl; [by rewrite -Hlen|done].
Qed.

Lemma update_last_spec {A} (p : A → bool) (f : A → A) l l' : update_last p f l = Some l' →
  ∃ l1 x l2, l = (l1 ++ x :: l2)%list ∧ l' = (l1 ++ f x :: l2)%list ∧ p x = true ∧ (∀ y, y ∈ l2 → p y = false).
Proof.
  assert (Hnone : ∀ l, update_last p f l = None → ∀ y, y ∈ l → p y = false).
  { induction l0 as [|x l0 IH]; [by intros _ y ?%elem_of_nil|]. cbn. destruct (update_last p f l0); [done|].
    destruct (p x) eqn:Hx; [done|]. intros _ y [-> |?]%elem_of_cons; [done|by apply IH]. }
  revert l'. induction l as [|x l IH]; intros l'; [done|]. cbn. destruct (update_last p f l) as [l0|] eqn:Hl.
  - intros [= <-]. destruct (IH l0 eq_refl) as (l1 & y & l2 & -> & -> & Hy & Hl2). by exists (x :: l1), y, l2.
  - destruct (p x) eqn:Hx; [|done]. intros [= <-]. exists [], x, l. eauto.
Qed.

Lemma update_last_alter {A} (p : A → bool) (f : A → A) l l' : update_last p f l = Some l' →
  length l' = length l ∧ ∀ i y, l' !! i = Some y → ∃ x, l !! i = Some x ∧ (y = x ∨ (p x = true ∧ y = f x)).
Proof.
  intros (l1 & x & l2 & -> & -> & Hx & _)%update_last_spec. split; [by rewrite !length_app|].
  intros i y. rewrite !lookup_app. destruct (l1 !! i) as [z|] eqn:Hi; [naive_solver|].
  destruct (i - length l1)%nat as [|k]; naive_solver.
Qed.

Lemma update_last_ok p f l l' : (∀ i s, p s = true → step_ok i s → step_ok i (f s)) →
  update_last p f l = Some l' → steps_ok l → steps_ok l'.
Proof.
  intros Hf [Hlen Hl]%update_last_alter. apply steps_ok_alter; [done|]. intros i y Hy.
  destruct (Hl i y Hy) as (x & Hx & [-> |[Hp ->]]); exists x; eauto.
Qed.

Lemma push_user_ok src text l : src ∈ sources → steps_ok l → steps_ok (push_user src text l).
Proof. intros Hs Hl. apply steps_ok_snoc; [done|]. intros ?. by rewrite /step_ok /= next_id_ok. Qed.

Lemma push_text_ok src text l : src ∈ sources → steps_ok l → steps_ok (push_text src text l).
Proof. intros. unfold push_text. case_decide; [done|]. by apply push_user_ok. Qed.

Lemma push_agent_ok model text calls ts m l : calls ≠ Some [] → steps_ok l → steps_ok (push_agent model text calls ts m l).
Proof.
  intros Hc Hl. apply steps_ok_snoc; [done|]. intros ?. rewrite /step_ok /= next_id_ok //. split_and!; try done.
  apply list_elem_of_In. cbn. auto.
Qed.

Lemma attach_observation_ok rs l : steps_ok l → steps_ok (attach_observation rs l).
Proof.
  unfold attach_observation. destruct rs as [|r rs]; [done|].
  destruct (update_last is_agent _ l) as [l'|] eqn:Hl; [|done]. eapply update_last_ok; [|exact Hl].
  intros i s Hs%bool_decide_eq_true (Hid & Hsrc & Hag & Hcalls & Hobs). split_and!; try done.
  intros o. cbn. destruct (observation s); intros [= <-]; cbn; [|done]. by intros [_ ?]%app_nil.
Qed.

Lemma non_empty_list_ok {A} (l : list A) : non_empty_list l ≠ Some [].
Proof. by destruct l. Qed.

Lemma foldl_ok {A} (f : list Step → A → list Step) (xs : list A) l :
  (∀ l x, steps_ok l → steps_ok (f l x)) → steps_ok l → steps_ok (foldl f l xs).
Proof. intros Hf. revert l. induction xs; cbn; eauto. Qed.

Lemma steps_ok_nil : steps_ok [].
Proof. by intros _ i s. Qed.

Create HintDb atif.
#[export] Hint Resolve push_user_ok push_text_ok push_agent_ok attach_observation_ok non_empty_list_ok steps_ok_nil : atif.

Lemma system_source : "system" ∈ sources. Proof. apply list_elem_of_In. cbn. auto. Qed.
Lemma user_source : "user" ∈ sources. Proof. apply list_elem_of_In. cbn. auto. Qed.
#[export] Hint Resolve system_source user_source : atif.

Section valid.
Context `{!JsonText, !JsonShow}.

Lemma anthropic_content_calls v : snd (anthropic_content v) ≠ Some [].
Proof. destruct v; try done. apply non_empty_list_ok. Qed.

Lemma openai_tool_calls_ok v : openai_tool_calls v ≠ Some [].
Proof. unfold openai_tool_calls. destruct (v ≫= as_array); [apply non_empty_list_ok|done]. Qed.

Lemma gemini_tool_calls_ok v : gemini_tool_calls v ≠ Some [].
Proof. unfold gemini_tool_calls. destruct (v ≫= as_array); [apply non_empty_list_ok|done]. Qed.

Lemma openai_response_calls v : snd (openai_response v) ≠ Some [].
Proof. unfold openai_response. destruct (_ ≫= v_get "message"); [apply openai_tool_calls_ok|done]. Qed.

Lemma anthropic_message_ok model l message : steps_ok l → steps_ok (anthropic_message model l message).
Proof.
  intros Hl. unfold anthropic_message. case_decide.
  - pose proof (anthropic_content_calls (default Null (v_get "content" message))) as Hc.
    destruct (anthropic_content _). by apply push_agent_ok.
  - case_decide; [|done]. destruct (anthropic_user_content _). auto with atif.
Qed.

Lemma openai_message_ok model l message : steps_ok l → steps_ok (openai_message model l message).
Proof.
  intros Hl. unfold openai_message. repeat case_decide; auto with atif.
  apply push_agent_ok; [apply openai_tool_calls_ok|done].
Qed.

Lemma gemini_message_ok model l content : steps_ok l → steps_ok (gemini_message model l content).
Proof.
  intros Hl. unfold gemini_message. case_decide; [|auto with atif].
  apply push_agent_ok; [apply gemini_tool_calls_ok|done].
Qed.

Lemma extend_from_request_ok span l : steps_ok l → steps_ok (extend_from_request span l).
Proof.
  intros Hl. unfold extend_from_request. destruct (sd_provider _).
  - apply foldl_ok; [eauto using anthropic_message_ok|]. case_match; auto with atif.
  - apply foldl_ok; [eauto using openai_message_ok|done].
  - apply foldl_ok; [eauto using gemini_message_ok|]. case_match; auto with atif.
Qed.

(** ** References *)

(** All references so far are right, and [made] are the calls of the last turn. *)
Definition linked (made : list string) (l : list Step) : Prop :=
  (∀ s, s ∈ l → references_ok s) ∧
  made = match last (filter (λ s, is_agent s = true) l) with Some s => call_ids (tool_calls s) | None => [] end.

Lemma linked_snoc made l s : linked made l → is_agent s = false → observation s = None → linked made (l ++ [s]).
Proof.
  intros [Hl ->] Ha Ho. split.
  - intros x [Hx| ->%list_elem_of_singleton]%elem_of_app; [by apply Hl|]. intros o r id Hs. congruence.
  - rewrite filter_app filter_cons_False; [by rewrite Ha|]. by rewrite app_nil_r.
Qed.

Lemma linked_push_text made src text l : src ≠ "agent" → linked made l → linked made (push_text src text l).
Proof. intros Hs Hl. unfold push_text. case_decide; [done|]. apply linked_snoc; [done|by apply bool_decide_eq_false_2|done]. Qed.

Lemma linked_push_agent made model text calls ts m l : linked made l → linked (call_ids calls) (push_agent model text calls ts m l).
Proof.
  intros [Hl _]. split.
  - intros x [Hx| ->%list_elem_of_singleton]%elem_of_app; [by apply Hl|]. by intros o r id Hs.
  - unfold push_agent. by rewrite filter_app last_app.
Qed.

Lemma linked_attach made rs l : linked made l →
  forallb (λ r, match source_call_id r with Some id => bool_decide (id ∈ made) | None => true end) rs = true →
  linked made (attach_observation rs l).
Proof.
  intros [Hl Hm] Hrs. unfold attach_observation. destruct rs as [|r0 rs0] eqn:Er; [done|]. rewrite -Er in Hrs |- *. clear Er.
  destruct (update_last is_agent (add_results rs) l) as [l'|] eqn:Hu; [|done]. cbn [default].
  apply update_last_spec in Hu as (l1 & x & l2 & -> & -> & Hx & Hl2).
  assert (Hf : ∀ y, is_agent y = true → last (filter (λ s, is_agent s = true) (l1 ++ y :: l2)%list) = Some y).
  { intros y Hy. assert (Hnil : filter (λ s, is_agent s = true) l2 = []).
    { destruct (filter _ l2) as [|z k] eqn:E; [done|].
      assert (z ∈ filter (λ s, is_agent s = true) l2) as [Hz Hin]%list_elem_of_filter by (rewrite E; left). by rewrite Hl2 in Hz. }
    by rewrite filter_app filter_cons_True // Hnil last_app. }
  rewrite (Hf x Hx) in Hm. split; [|by rewrite (Hf (add_results rs x) Hx)].
  intros y [Hy|[-> |Hy]%elem_of_cons]%elem_of_app; [apply Hl, elem_of_app; by left| |apply Hl, elem_of_app; right; by right].
  intros o r id Ho Hr Hid. cbn [tool_calls add_results] in *. rewrite -Hm.
  assert (Hr' : r ∈ rs ∨ ∃ o0, observation x = Some o0 ∧ r ∈ results o0).
  { cbn in Ho. destruct (observation x) as [o0|]; injection Ho as <-; cbn in Hr; [|by left].
    apply elem_of_app in Hr as [?|?]; [right; by exists o0|by left]. }
  destruct Hr' as [Hin|(o0 & Ho0 & Hin)].
  - rewrite forallb_forall in Hrs. specialize (Hrs r (proj1 (list_elem_of_In _ _) Hin)). rewrite Hid in Hrs. by apply bool_decide_eq_true in Hrs.
  - rewrite Hm. apply (Hl x) with o0 r; [|done..]. apply elem_of_app. right. by left.
Qed.

(** A message of each provider is a turn. *)
Definition after_turn (made : list string) (t : option (list string) * list ObservationResult) : list string := default made t.1.

Definition turn_fits (made : list string) (t : option (list string) * list ObservationResult) : bool := answers_calls made [t].

Lemma anthropic_turn model l m made : linked made l → turn_fits made (message_turn Anthropic m) = true →
  linked (after_turn made (message_turn Anthropic m)) (anthropic_message model l m).
Proof.
  intros Hl. unfold message_turn, anthropic_message, turn_fits. case_decide; [|case_decide]; cbn.
  - intros _. destruct (anthropic_content _) as [text calls]. by apply (linked_push_agent made).
  - rewrite andb_true_r. destruct (anthropic_user_content _) as [text rs]. intros Hrs. apply linked_push_text; [done|]. by apply linked_attach.
  - done.
Qed.

Lemma openai_turn model l m made : linked made l → turn_fits made (message_turn OpenAI m) = true →
  linked (after_turn made (message_turn OpenAI m)) (openai_message model l m).
Proof.
  intros Hl. unfold message_turn, openai_message, turn_fits.
  destruct (decide (role_of m "" = "assistant")) as [-> |Ha]; [|destruct (decide (role_of m "" = "tool")) as [-> |Ht]].
  - intros _. by apply (linked_push_agent made).
  - cbn [answers_calls after_turn default fst]. rewrite andb_true_r. intros Hrs. by apply linked_attach.
  - intros _. repeat case_decide; try done; by apply linked_snoc.
Qed.

Lemma gemini_turn model l m made : linked made l → turn_fits made (message_turn Gemini m) = true →
  linked (after_turn made (message_turn Gemini m)) (gemini_message model l m).
Proof.
  intros Hl. unfold message_turn, gemini_message, turn_fits. case_decide; cbn [answers_calls after_turn default fst].
  - intros _. by apply (linked_push_agent made).
  - rewrite andb_true_r. intros Hrs. apply linked_push_text; [done|]. by apply linked_attach.
Qed.

Lemma linked_foldl (f : list Step → Value → list Step) p :
  (∀ l m made, linked made l → turn_fits made (message_turn p m) = true → linked (after_turn made (message_turn p m)) (f l m)) →
  ∀ ms made l, linked made l → answers_calls made (map (message_turn p) ms) = true → ∃ made', linked made' (foldl f l ms).
Proof.
  intros Hf ms. induction ms as [|m ms IH]; intros made l Hl Hms; [by exists made|]. cbn in Hms |- *.
  destruct (message_turn p m) as [[ids|] rs] eqn:Et.
  - apply (IH ids); [|done]. specialize (Hf l m made Hl). rewrite Et in Hf. by apply Hf.
  - apply andb_true_iff in Hms as [H1 H2]. apply (IH made); [|done]. specialize (Hf l m made Hl). rewrite Et in Hf.
    apply Hf. unfold turn_fits. cbn. by rewrite H1.
Qed.

Lemma extend_linked span : conversation_answers (sp_draft span) = true → ∃ made, linked made (extend_from_request span []).
Proof.
  assert (Hnil : linked [] []) by (split; [intros s Hs; by apply not_elem_of_nil in Hs|done]).
  unfold conversation_answers, extend_from_request. destruct (sd_provider (sp_draft span)).
  - apply linked_foldl; [intros; by apply anthropic_turn|]. destruct (v_get "system" _); [|done]. by apply linked_push_text.
  - apply linked_foldl; [intros; by apply openai_turn|done].
  - apply linked_foldl; [intros; by apply gemini_turn|]. destruct (or_else _ _); [|done]. by apply linked_push_text.
Qed.

Lemma extra_references s key v : references_ok s → references_ok (set_extra_key s key v).
Proof. unfold set_extra_key. by destruct (default _ _). Qed.

Lemma response_linked span l made : linked made l → ∀ s, s ∈ push_response span l → references_ok s.
Proof.
  intros Hl. unfold push_response. destruct (response_of _) as [text calls]. destruct (_ && _); [apply Hl|].
  set (l' := push_agent _ _ _ _ _ _). assert (Hl' : ∀ s, s ∈ l' → references_ok s) by exact (proj1 (linked_push_agent made _ _ _ _ _ _ Hl)).
  destruct (response_id _) as [id|]; [|done]. unfold on_last. destruct (update_last _ _ l') as [l''|] eqn:Hu; [|done].
  apply update_last_alter in Hu as [_ Hu]. intros s [i Hi]%list_elem_of_lookup. destruct (Hu i s Hi) as (x & Hx & [-> |[_ ->]]).
  - by apply Hl', (list_elem_of_lookup_2 _ i).
  - by apply extra_references, Hl', (list_elem_of_lookup_2 _ i).
Qed.

(** Adding to [extra] keeps a step valid. *)
Lemma set_extra_key_ok i s key v : step_ok i s → step_ok i (set_extra_key s key v).
Proof. unfold set_extra_key. by destruct (default _ _). Qed.

Lemma response_of_calls d : snd (response_of d) ≠ Some [].
Proof.
  unfold response_of.
  destruct (sd_provider d); [apply anthropic_content_calls|apply openai_response_calls|apply gemini_tool_calls_ok].
Qed.

(** The step of the answer: valid where its calls are. *)
Lemma push_tagged_ok model text calls ts m id l : calls ≠ Some [] → steps_ok l →
  steps_ok (let l := push_agent model text calls ts m l in
    match id with Some id => on_last (λ s, set_response_id s id) l | None => l end).
Proof.
  intros Hc Hl. destruct id as [id|]; [|by apply push_agent_ok]. cbn. unfold on_last.
  destruct (update_last _ _ _) as [l'|] eqn:Hu; [|by apply push_agent_ok].
  eapply update_last_ok; [|exact Hu|by apply push_agent_ok]. intros. by apply set_extra_key_ok.
Qed.

Lemma push_response_ok span l : steps_ok l → steps_ok (push_response span l).
Proof.
  intros Hl. unfold push_response. pose proof (response_of_calls (sp_draft span)) as Hc.
  destruct (response_of _) as [text calls]. destruct (_ && _); [done|]. by apply push_tagged_ok.
Qed.

Lemma build_trajectory_ok name sid spans t : build_trajectory name sid spans = Some t → trajectory_ok t.
Proof.
  unfold build_trajectory. destruct (last spans) as [span|]; [|done]. cbn.
  pose proof (push_response_ok span _ (extend_from_request_ok span [] steps_ok_nil)) as Hok.
  destruct (push_response span _) as [|s l] eqn:Hl; [done|]. intros [= <-]. split_and!; try done.
  eexists. split; [done|]. unfold aggregate_metrics, sum_token_metrics. destruct (foldl _ _ _) as [[p c] ca]. cbn -[Z.of_nat].
  intros. by rewrite Z.min_l.
Qed.

(** The last step is the one the answer was pushed as. *)
Lemma update_last_snoc {A} (f : A → A) (l : list A) x : update_last (λ _, true) f (l ++ [x])%list = Some (l ++ [f x])%list.
Proof. induction l as [|y l IH]; [done|]. cbn. by rewrite IH. Qed.

Lemma push_response_last span l rid : response_id (sd_response (sp_draft span)) = Some rid →
  response_of (sp_draft span) ≠ ("", None) ∨ from_usage (sd_usage (sp_draft span)) ≠ None →
  ∃ l' s, push_response span l = (l' ++ [s])%list ∧ source s = "agent" ∧ extra s = Some (Object [("response_id", Str rid)]).
Proof.
  intros Hr Hsaid. unfold push_response. destruct (response_of _) as [text calls].
  destruct (_ && _) eqn:Hskip.
  { apply andb_true_iff in Hskip as [[Ht%bool_decide_eq_true Hc]%andb_true_iff Hm]. exfalso.
    destruct calls, (from_usage _); try done. destruct Hsaid; congruence. }
  rewrite Hr. unfold on_last, push_agent. rewrite update_last_snoc. by eexists _, _.
Qed.

Lemma lookup_link t spans i s' : steps (link_raw_requests t spans) !! i = Some s' →
  ∃ s, steps t !! i = Some s ∧ (s' = s ∨ s' = link_step (by_response spans) s).
Proof.
  unfold link_raw_requests. case_decide; cbn; [eauto|].
  change (map ?f ?l) with (f <$> l). rewrite list_lookup_fmap.
  destruct (steps t !! i) as [s|]; [|done]. intros [= <-]. eauto.
Qed.

Lemma link_step_cases m s : link_step m s = s ∨
  ∃ rid id, extra s ≫= v_get "response_id" = Some (Str rid) ∧ m !! rid = Some id ∧
    link_step m s = set_extra_key s "raw_request_id" (Str id).
Proof.
  unfold link_step. destruct (extra s ≫= v_get "response_id") as [[| | |rid| |]|]; cbn; try by left.
  destruct (m !! rid) as [id|] eqn:Hm; [|by left]. right. by exists rid, id.
Qed.

Lemma by_response_some spans rid id : by_response spans !! rid = Some id →
  ∃ span, span ∈ spans ∧ sp_id span = id ∧ response_id (sd_response (sp_draft span)) = Some rid.
Proof.
  unfold by_response. induction spans as [|span spans IH] using rev_ind; [done|].
  rewrite foldl_app /=. setoid_rewrite elem_of_app.
  destruct (response_id (sd_response (sp_draft span))) as [rid'|] eqn:Hr; [|naive_solver].
  destruct (decide (rid' = rid)) as [-> |Hne].
  - rewrite lookup_insert_eq. intros [= <-]. exists span. rewrite list_elem_of_singleton. auto.
  - rewrite lookup_insert_ne //. naive_solver.
Qed.

Lemma by_response_last spans span rid : last spans = Some span →
  response_id (sd_response (sp_draft span)) = Some rid → by_response spans !! rid = Some (sp_id span).
Proof.
  intros [l ->]%last_Some Hr. unfold by_response. rewrite foldl_app /= Hr. apply lookup_insert_eq.
Qed.

Lemma link_trajectory_ok t spans : trajectory_ok t → trajectory_ok (link_raw_requests t spans).
Proof.
  intros (Hv & Hne & Hok & Hf).
  assert (Hlen : length (steps (link_raw_requests t spans)) = length (steps t)).
  { unfold link_raw_requests. case_decide; [done|apply length_map]. }
  split_and!.
  - unfold link_raw_requests. by case_decide.
  - intros Hnil. rewrite Hnil in Hlen. by destruct (steps t).
  - eapply steps_ok_alter; [exact Hlen| |exact Hok]. intros i s' (s & Hs & [-> | ->])%lookup_link; [eauto|].
    exists s. split; [done|]. intros ?.
    destruct (link_step_cases (by_response spans) s) as [-> |(? & ? & _ & _ & ->)]; [done|]. by apply set_extra_key_ok.
  - destruct Hf as (f & Hf & Htot). exists f. rewrite Hlen. split; [|done]. unfold link_raw_requests. by case_decide.
Qed.
End valid.

(** C24. The document made of a run's traffic, before and after its steps are
    linked to the requests recorded, is numbered from one, with the fields of the
    model on the agent's steps only and its total right.  Where in the request that
    was recorded last each result answers a call of the turn of the agent before
    it, a result that names a call is in the step that made the call (by the ids
    the document gives: Gemini's results carry the name of the function, so a
    Gemini call with an id of its own is not found, [gemini_id_unlinked]).  A link
    names a recorded request that was answered with the id the step carries, and
    the step of the last answer always gets its own. *)
Theorem trajectory_valid `{!JsonText, !JsonShow} name sid (spans : list LlmSpan) t :
  build_trajectory name sid spans = Some t →
  trajectory_ok t ∧ trajectory_ok (link_raw_requests t spans) ∧
  (∀ span, last spans = Some span → conversation_answers (sp_draft span) = true →
    (∀ s, s ∈ steps t → references_ok s) ∧ ∀ s, s ∈ steps (link_raw_requests t spans) → references_ok s) ∧
  (∀ i s', steps (link_raw_requests t spans) !! i = Some s' → ∃ s, steps t !! i = Some s ∧
    (s' = s ∨ ∃ span rid, span ∈ spans ∧ response_id (sd_response (sp_draft span)) = Some rid ∧
      extra s ≫= v_get "response_id" = Some (Str rid) ∧ s' = set_extra_key s "raw_request_id" (Str (sp_id span)))) ∧
  (∀ span rid, last spans = Some span → response_id (sd_response (sp_draft span)) = Some rid →
    response_of (sp_draft span) ≠ ("", None) ∨ from_usage (sd_usage (sp_draft span)) ≠ None →
    ∃ s, last (steps (link_raw_requests t spans)) = Some s ∧ source s = "agent" ∧
      extra s ≫= v_get "raw_request_id" = Some (Str (sp_id span))).
Proof.
  intros Ht. pose proof (build_trajectory_ok _ _ _ _ Ht) as Hok. split_and!; [done|by apply link_trajectory_ok| | |].
  - intros span Hlast Hconv. apply extend_linked in Hconv as [made Hlinked].
    assert (Hall : ∀ s, s ∈ steps t → references_ok s).
    { unfold build_trajectory in Ht. rewrite Hlast /= in Ht. pose proof (response_linked span _ made Hlinked) as Hr.
      destruct (push_response span _) as [|s0 l0]; [done|]. injection Ht as <-. exact Hr. }
    split; [done|]. intros s' [i Hi]%list_elem_of_lookup. apply lookup_link in Hi as (s & Hs%list_elem_of_lookup_2 & [-> | ->]); [by apply Hall|].
    destruct (link_step_cases (by_response spans) s) as [-> |(? & ? & _ & _ & ->)]; [by apply Hall|by apply extra_references, Hall].
  - intros i s' (s & Hs & [-> | ->])%lookup_link; [eauto|]. exists s. split; [done|].
    destruct (link_step_cases (by_response spans) s) as [-> |(rid & id & He & Hm & ->)]; [by left|].
    apply by_response_some in Hm as (span & ? & <- & ?). eauto 7.
  - intros span rid Hlast Hr Hsaid. unfold build_trajectory in Ht. rewrite Hlast /= in Ht.
    destruct (push_response_last span (extend_from_request span []) rid Hr Hsaid) as (l & s & Hp & Hs & He).
    rewrite Hp in Ht. destruct (l ++ [s])%list as [|s0 l0] eqn:Hl; [by destruct l|]. simplify_eq/=.
    pose proof (by_response_last _ _ _ Hlast Hr) as Hm. unfold link_raw_requests.
    rewrite decide_False; [by intros Hempty; rewrite Hempty lookup_empty in Hm|].
    cbn [steps]. rewrite -Hl map_app last_snoc. exists (link_step (by_response spans) s). split; [done|].
    unfold link_step. rewrite He /= Hm. unfold set_extra_key. rewrite He. cbn. by rewrite Hs.
Qed.

(** ** Conversations *)

Section example.
Local Instance no_json : JsonText := {| json_from_str _ := None |}.
Local Instance shown : JsonShow := {| json_to_string _ := "{}" |}.

Definition example_span (provider : Provider) (request response : Value) : LlmSpan :=
  let d := SpanDraft_new "t0" provider "/v1/messages" in
  mkLlmSpan "span-1" 1 (mkSpanDraft provider (Some "model") "POST" (sd_request_base_url d) (sd_upstream_base_url d)
    (sd_path d) false ∅ request ∅ response [] (mkUsage (Some 100) (Some 20) None None (Some 10) None)%Z 200 "t0" 0 None) [].

Definition example_request : Value :=
  vobj [("system", Str "be helpful"); ("messages", Array
    [vobj [("role", Str "user"); ("content", Str "hi")];
     vobj [("role", Str "assistant"); ("content", Array [text_of "let me check";
       vobj [("type", Str "tool_use"); ("id", Str "tool_1"); ("name", Str "read"); ("input", Object [])]])];
     vobj [("role", Str "user"); ("content", Array
       [vobj [("type", Str "tool_result"); ("tool_use_id", Str "tool_1"); ("content", Str "file body")]])]])].

Definition example_response : Value := vobj [("id", Str "msg_1"); ("content", Array [text_of "done"])].

Definition example_trajectory : option Trajectory :=
  build_trajectory "claude-code" "sess" [example_span Anthropic example_request example_response].

Example trajectory_steps :
  (λ t, map (λ s, (step_id s, source s, message s, length (default [] (results <$> observation s)))) (steps t)) <$>
    example_trajectory =
  Some [(1, "system", "be helpful", 0%nat); (2, "user", "hi", 0%nat); (3, "agent", "let me check", 1%nat);
        (4, "agent", "done", 0%nat)]%Z.
Proof. vm_compute. reflexivity. Qed.

Lemma trajectory_valid_witness : ∃ t s, example_trajectory = Some t ∧ trajectory_ok t ∧
  (∀ s, s ∈ steps t → references_ok s) ∧
  last (steps (link_raw_requests t [example_span Anthropic example_request example_response])) = Some s ∧
  extra s ≫= v_get "raw_request_id" = Some (Str "span-1").
Proof.
  destruct example_trajectory as [t|] eqn:Ht; [|by vm_compute in Ht].
  destruct (trajectory_valid "claude-code" "sess" [example_span Anthropic example_request example_response] t Ht)
    as (Hok & _ & Hrefs & _ & Hlast).
  destruct (Hlast (example_span Anthropic example_request example_response) "msg_1") as (s & Hs & _ & He);
    [reflexivity|reflexivity|by right|].
  exists t, s. split_and!; [done|done| |done|done]. apply (Hrefs (example_span Anthropic example_request example_response)); vm_compute; reflexivity.
Defined.

(** A streamed chat completion is recorded without [choices], which is where its
    words are looked for: the last step of its document says nothing. *)
Definition chat_body : string :=
  "data: " ++ quoted "{'choices':[{'delta':{'content':'Hello'}}]}" ++ nl ++ nl.

Definition chat_table : list (string * (string * Value)) :=
  [("", ("{'choices':[{'delta':{'content':'Hello'}}]}",
         vobj [("choices", Array [vobj [("delta", vobj [("content", Str "Hello")])]])]))].

Example streamed_chat_lost : ∃ snapshot used events,
  @reconstruct (reader chat_table) utf8_id chat_body = Some (Some snapshot, used, events) ∧
  v_get "content" snapshot = Some (Array [text_of "Hello"]) ∧ openai_response snapshot = ("", None).
Proof. eexists _, _, _. split; [vm_compute; reflexivity|]. split; reflexivity. Qed.

(** The candidates of a streamed Gemini answer are those of its last chunk. *)
Definition gemini_part (text : string) : Value :=
  vobj [("candidates", Array [vobj [("content", vobj [("parts", Array [vobj [("text", Str text)]])])]])].

Definition gemini_line (text : string) : string := "{'candidates':[{'content':{'parts':[{'text':'" ++ text ++ "'}]}}]}".

Definition gemini_table : list (string * (string * Value)) :=
  [("", (gemini_line "Hel", gemini_part "Hel")); ("", (gemini_line "lo", gemini_part "lo"))].

Example streamed_gemini_truncated : ∃ snapshot used events,
  @reconstruct (reader gemini_table) utf8_id
    ("data: " ++ quoted (gemini_line "Hel") ++ nl ++ nl ++ "data: " ++ quoted (gemini_line "lo") ++ nl ++ nl) =
    Some (Some snapshot, used, events) ∧
  v_get "content" snapshot = Some (Array [text_of "Hello"]) ∧ gemini_response snapshot = ("lo", None).
Proof. eexists _, _, _. split; [vm_compute; reflexivity|]. split; reflexivity. Qed.

(** A Gemini call that has an id is not found by its result, which is keyed by
    the name of the function. *)
Example gemini_id_unlinked :
  tool_call_id (gemini_call (vobj [("id", Str "c1"); ("name", Str "read")])) = "c1" ∧
  source_call_id (gemini_result (vobj [("id", Str "c1"); ("name", Str "read")])) = Some "read".
Proof. split; reflexivity. Qed.

(** Its conversation does not answer its calls as the document tells them; that of
    a call without an id does. *)
Definition gemini_exchange (call : list (string * Value)) : SpanDraft :=
  sp_draft (example_span Gemini (vobj [("contents", Array
    [vobj [("role", Str "model"); ("parts", Array [vobj [("functionCall", vobj call)]])];
     vobj [("role", Str "user"); ("parts", Array [vobj [("functionResponse", vobj (call ++ [("response", Str "ok")])%list)]])]])]) Null).

Example gemini_references :
  conversation_answers (gemini_exchange [("name", Str "read")]) = true ∧
  conversation_answers (gemini_exchange [("id", Str "c1"); ("name", Str "read")]) = false.
Proof. split; vm_compute; reflexivity. Qed.
End example.
