(* ===== verification/AgentLog.v ===== *)
(** * Trajectories made of an agent's own log (crates/omniagent-cli/src/agent_log.rs)

    The log an agent keeps of its session, a JSON value per line, read into the
    document of [Atif]: the parts of one streamed message become one step, and the
    result of a tool goes to the step that called it. *)
From stdpp Require Import sorting.
From S2P Require Import Prelude Str Json Record Atif.

(** ** Finding the log *)

(** What is found under a directory: a file with the time it was written, where
    it can be read; a directory with its entries in the order they are listed, or
    one that cannot be listed; an entry whose metadata cannot be read. *)
Inductive Node : Type :=
| File (modified : option Z)
| Dir (entries : list (string * Node))
| Closed
| Gone.

(** [Path::extension] and [Path::file_name] of an entry's name. *)
Definition extension (name : string) : option string :=
  match rsplit_once "." name with
  | Some (stem, ext) => if decide (stem = "") then None else Some ext
  | None => None
  end.

Definition is_jsonl (name : string) : bool := bool_decide (extension name = Some "jsonl").
Definition is_rollout (name : string) : bool := is_jsonl name && starts_with "rollout-" name.

Definition MTIME_SKEW : Z := 5.

(** Claude's name for the directory of a project. *)
Definition encode_project_dir (cwd : string) : string :=
  str_map (λ c, if Ascii.eqb c "/" || Ascii.eqb c "." then "-"%char else c) cwd.

Section newest.
Variables (since : Z) (recurse : bool) (pred : string → bool).

(** [checked_sub] fails below the earliest time the platform has. *)
Variable earliest : Z.
Definition cutoff : Z := if decide (earliest ≤ since - MTIME_SKEW)%Z then (since - MTIME_SKEW)%Z else since.

Definition Best : Type := option (Z * string).

(** What one entry of the directory [dir] adds: the best file, and the stack. *)
Definition visit (dir : string) (acc : Best * list (string * Node)) (entry : string * Node) : Best * list (string * Node) :=
  let '(best, stack) := acc in
  let path := join_text dir entry.1 in
  match entry.2 with
  | Gone => (best, stack)
  | Dir _ | Closed => if recurse then (best, (path, entry.2) :: stack) else (best, stack)
  | File modified =>
      if negb (pred entry.1) then (best, stack)
      else match modified with
        | None => (best, stack)
        | Some t =>
            if decide (t < cutoff)%Z then (best, stack)
            else match best with
              | Some (best_t, _) => if decide (best_t < t)%Z then (Some (t, path), stack) else (best, stack)
              | None => (Some (t, path), stack)
              end
        end
  end.

Fixpoint node_size (n : Node) : nat :=
  match n with Dir l => S (list_sum (map (λ e, node_size e.2) l)) | _ => 1%nat end.

Definition stack_size (stack : list (string * Node)) : nat := list_sum (map (λ e, node_size e.2) stack).

(** The loop over the stack of directories to list. *)
Fixpoint scan (fuel : nat) (best : Best) (stack : list (string * Node)) : option Best :=
  match fuel with
  | O => None
  | S fuel => match stack with
      | [] => Some best
      | (dir, n) :: stack => match n with
          | Dir entries => let '(best, stack) := foldl (visit dir) (best, stack) entries in scan fuel best stack
          | _ => scan fuel best stack
          end
      end
  end.

Definition newest_file (root : string) (n : Node) : option string :=
  snd <$> default None (scan (S (node_size n)) None [(root, n)]).
End newest.

(** ** Where the log is *)

(** The variables of the environment, and what is on the disk. *)
Record Host : Type := mkHost {
  HOME : option string; CLAUDE_CONFIG_DIR : option string; CODEX_HOME : option string;
  is_file : string → bool; listing : string → Node; earliest_time : Z;
}.

Definition claude_base (h : Host) : option string :=
  or_else (CLAUDE_CONFIG_DIR h) ((λ home, join_text home ".claude") <$> HOME h).

Definition codex_base (h : Host) : option string :=
  or_else (CODEX_HOME h) ((λ home, join_text home ".codex") <$> HOME h).

Definition locate_claude_log (h : Host) (cwd : string) (native_session_id : option string) (since : Z) : option string :=
  base ← claude_base h;
  let dir := join_text (join_text base "projects") (encode_project_dir cwd) in
  let newest := newest_file since false is_jsonl (earliest_time h) dir (listing h dir) in
  match native_session_id with
  | Some id => let path := join_text dir (id ++ ".jsonl") in if is_file h path then Some path else newest
  | None => newest
  end.

Definition locate_codex_log (h : Host) (since : Z) : option string :=
  base ← codex_base h;
  let sessions := join_text base "sessions" in
  newest_file since true is_rollout (earliest_time h) sessions (listing h sessions).

Definition locate_native_log (h : Host) (agent_name cwd : string) (native_session_id : option string) (since : Z) : option string :=
  if decide (agent_name = "claude-code") then locate_claude_log h cwd native_session_id since
  else if decide (agent_name = "codex") then locate_codex_log h since
  else None.

(** ** The steps as they are read

    A step is found by its index; [None] is the panic of an index past the end. *)
Record Builder : Type := mkBuilder {
  b_steps : list Step;
  call_to_step : gmap string nat;             (* the step that holds a call *)
}.

Definition Builder_new : Builder := mkBuilder [] ∅.

Definition push_plain (source message : string) (b : Builder) : Builder :=
  mkBuilder (push_user source message (b_steps b)) (call_to_step b).

Definition index_calls (index : nat) (calls : list ToolCall) (m : gmap string nat) : gmap string nat :=
  foldl (λ m call, <[tool_call_id call := index]> m) m calls.

Definition push_agent_step (model : option string) (message : string) (reasoning : option string)
    (calls : option (list ToolCall)) (timestamp : option string) (m : option Metrics) (b : Builder) : Builder * nat :=
  let index := length (b_steps b) in
  let step := mkStep (next_id (b_steps b)) timestamp "agent" model message reasoning calls None m None in
  (mkBuilder (b_steps b ++ [step]) (index_calls index (default [] calls) (call_to_step b)), index).

Definition on_step (index : nat) (f : Step → Step) (b : Builder) : option Builder :=
  if decide (index < length (b_steps b))%nat then Some (mkBuilder (alter f index (b_steps b)) (call_to_step b)) else None.

Definition tag_response_id (index : nat) (response_id : option string) (b : Builder) : option Builder :=
  match response_id with
  | Some id => if decide (id = "") then Some b else on_step index (λ s, set_extra s (obj [("response_id", Str id)])) b
  | None => Some b
  end.

Definition attach_result (call_id : string) (result : ObservationResult) (b : Builder) : option Builder :=
  match call_to_step b !! call_id with
  | Some index => on_step index (add_results [result]) b
  | None => Some b
  end.

Definition step_metrics (l : list Step) : list (option Z * option Z * option Z) :=
  map (λ m, (prompt_tokens m, completion_tokens m, cached_tokens m)) (omap metrics l).

Definition sum_metrics (l : list Step) : FinalMetrics := sum_token_metrics (step_metrics l) (length l).

Definition finalize (b : Builder) (name : string) (session_id model : option string) : option Trajectory :=
  match b_steps b with
  | [] => None
  | steps => Some (mkTrajectory SCHEMA_VERSION session_id (mkAgent name "unknown" model) steps (Some (sum_metrics steps)))
  end.

Definition str_field (value : Value) (key : string) : option string := v_get key value ≫= as_string.
Definition u64_field (value : Value) (key : string) : option Z := v_get key value ≫= as_u64.

(** One layer of double quotes. *)
Definition unquote (value : string) : string :=
  default value (inner ← strip_prefix dquote value; strip_suffix dquote inner).

(** Whether a build checks its arithmetic: one for debugging does and panics, one
    for release does not and wraps. *)
Class OverflowChecks := { overflow_checks : bool }.
Definition release_build : OverflowChecks := {| overflow_checks := false |}.
Definition debug_build : OverflowChecks := {| overflow_checks := true |}.

Section log.
Context `{!JsonText, !JsonShow} {checks : OverflowChecks}.

(** [+] on unsigned words; [None] is a panic. *)
Definition add_u64 (a b : Z) : option Z :=
  if decide (a + b ≤ u64_max)%Z then Some (a + b)%Z else if overflow_checks then None else Some (wrap64 (a + b)).

(** [None] is a file that could not be read as text. *)
Definition read_jsonl (text : option string) : option (list Value) :=
  (λ text, omap json_from_str (filter (λ line, trim line ≠ "") (lines text))) <$> text.

(** ** Claude Code *)

Definition claude_value_text (value : Value) : string :=
  match value with
  | Str text => text
  | Array blocks => str_join nl (omap (λ block, str_field block "text") blocks)
  | _ => ""
  end.

Definition claude_text (value : option Value) : string := default "" (claude_value_text <$> value).

Definition block_text (key type : string) (block : Value) : option string :=
  if decide (str_field block "type" = Some type) then str_field block key else None.

Definition claude_call (block : Value) : option ToolCall :=
  if decide (str_field block "type" = Some "tool_use") then
    Some (mkToolCall (default "" (str_field block "id")) (default "" (str_field block "name")) (default Null (v_get "input" block)))
  else None.

Definition claude_assistant_content (content : option Value) : string * option string * list ToolCall :=
  match content ≫= as_array with
  | None => (claude_text content, None, [])
  | Some blocks =>
      (str_join nl (omap (block_text "text" "text") blocks),
       str_join nl <$> non_empty_list (omap (block_text "thinking" "thinking") blocks),
       omap claude_call blocks)
  end.

(** The sum is not saturated: the outer [None] is its panic. *)
Definition claude_metrics (usage : Value) : option (option Metrics) :=
  let input := u64_field usage "input_tokens" in
  let output := u64_field usage "output_tokens" in
  let cache_read := u64_field usage "cache_read_input_tokens" in
  let cache_creation := u64_field usage "cache_creation_input_tokens" in
  match input, output, cache_read, cache_creation with
  | None, None, None, None => Some None
  | _, _, _, _ =>
      first ← add_u64 (default 0 input)%Z (default 0 cache_read)%Z;
      prompt ← add_u64 first (default 0 cache_creation)%Z;
      Some (Some (mkMetrics (Some prompt) output cache_read))
  end.

Definition merge_message (text message : string) : string :=
  if decide (text = "") then message else if decide (message = "") then text else message ++ nl ++ text.

Definition merge_reasoning (reasoning existing : option string) : option string :=
  match reasoning, existing with
  | Some r, Some e => Some (e ++ nl ++ r)
  | Some r, None => Some r
  | None, e => e
  end.

Definition merge_step (text : string) (reasoning : option string) (calls : list ToolCall) (m : option Metrics) (s : Step) : Step :=
  mkStep (step_id s) (timestamp s) (source s) (model_name s) (merge_message text (message s))
    (merge_reasoning reasoning (reasoning_content s))
    (match calls with [] => tool_calls s | _ => Some (default [] (tool_calls s) ++ calls)%list end)
    (observation s) (or_else m (metrics s)) (extra s).

Definition merge_into_agent_step (index : nat) (text : string) (reasoning : option string) (calls : list ToolCall)
    (m : option Metrics) (b : Builder) : option Builder :=
  on_step index (merge_step text reasoning calls m) (mkBuilder (b_steps b) (index_calls index calls (call_to_step b))).

Definition claude_assistant (event message : Value) (msgid_to_step : gmap string nat) (b : Builder) :
    option (gmap string nat * Builder) :=
  let '(text, reasoning, calls) := claude_assistant_content (v_get "content" message) in
  m ← match v_get "usage" message with Some usage => claude_metrics usage | None => Some None end;
  let msg_id := str_field message "id" in
  match msg_id ≫= (msgid_to_step !!.) with
  | Some index => b ← merge_into_agent_step index text reasoning calls m b; Some (msgid_to_step, b)
  | None =>
      let '(b, index) := push_agent_step (str_field message "model") text reasoning (non_empty_list calls)
        (str_field event "timestamp") m b in
      b ← tag_response_id index msg_id b;
      Some (match msg_id with Some id => <[id := index]> msgid_to_step | None => msgid_to_step end, b)
  end.

Definition claude_result (b : option Builder) (block : Value) : option Builder :=
  b ← b;
  if decide (str_field block "type" = Some "tool_result") then
    match str_field block "tool_use_id" with
    | Some call_id => attach_result call_id (mkResult (Some call_id) (Some (claude_text (v_get "content" block)))) b
    | None => Some b
    end
  else Some b.

Definition claude_user (message : Value) (b : Builder) : option Builder :=
  let content := v_get "content" message in
  b ← foldl claude_result (Some b) (default [] (content ≫= as_array));
  let text := claude_text content in
  Some (if decide (text = "") then b else push_plain "user" text b).

(** [retain] with a set: only the first event of a [uuid] is kept. *)
Fixpoint dedupe (seen : gset string) (events : list Value) : list Value :=
  match events with
  | [] => []
  | event :: events => match str_field event "uuid" with
      | None => event :: dedupe seen events
      | Some uuid => if decide (uuid ∈ seen) then dedupe seen events else event :: dedupe ({[uuid]} ∪ seen) events
      end
  end.

(** The order of [Option<&str>]; [sort_by] is stable. *)
Definition stamp_leb (a b : option string) : bool :=
  match a, b with None, _ => true | Some _, None => false | Some a, Some b => String.leb a b end.

Fixpoint insert_event (e : Value) (l : list Value) : list Value :=
  match l with
  | [] => [e]
  | e' :: l' => if stamp_leb (str_field e "timestamp") (str_field e' "timestamp") then e :: l else e' :: insert_event e l'
  end.

Definition sort_events (l : list Value) : list Value := foldr insert_event [] l.

Record ClaudeState : Type := mkClaude {
  c_builder : Builder; c_msgid : gmap string nat; c_session : option string; c_model : option string;
}.

Definition claude_event (st : option ClaudeState) (event : Value) : option ClaudeState :=
  st ← st;
  let session := or_else (c_session st) (str_field event "sessionId") in
  match v_get "message" event with
  | None => Some (mkClaude (c_builder st) (c_msgid st) session (c_model st))
  | Some message =>
      if decide (str_field event "type" = Some "assistant") then
        '(msgid, b) ← claude_assistant event message (c_msgid st) (c_builder st);
        Some (mkClaude b msgid session (or_else (c_model st) (str_field message "model")))
      else if decide (str_field event "type" = Some "user") then
        b ← claude_user message (c_builder st);
        Some (mkClaude b (c_msgid st) session (c_model st))
      else Some (mkClaude (c_builder st) (c_msgid st) session (c_model st))
  end.

Definition is_turn (event : Value) : bool :=
  bool_decide (str_field event "type" = Some "user") || bool_decide (str_field event "type" = Some "assistant").

Definition claude_events (events : list Value) : list Value := sort_events (dedupe ∅ (List.filter is_turn events)).

(** The outer [None] is a panic. *)
Definition parse_claude (text : option string) : option (option Trajectory) :=
  match read_jsonl text with
  | None => Some None
  | Some events =>
      st ← foldl claude_event (Some (mkClaude Builder_new ∅ None None)) (claude_events events);
      Some (finalize (c_builder st) "claude-code" (c_session st) (c_model st))
  end.

(** ** Codex *)

Definition codex_arguments (payload : Value) : Value :=
  match or_else (v_get "arguments" payload) (v_get "input" payload) with
  | Some (Str s) => default (Str s) (json_from_str s)
  | Some other => other
  | None => Null
  end.

Definition codex_message_text (content : option Value) : string :=
  match content ≫= as_array with
  | Some blocks => str_join nl (omap (λ block, str_field block "text") blocks)
  | None => ""
  end.

Definition reasoning_text (item : Value) : option string :=
  or_else (as_string item) (or_else (str_field item "text") (str_field item "summary")).

Definition codex_reasoning (summary : option Value) : string :=
  match summary ≫= as_array with Some items => str_join nl (omap reasoning_text items) | None => "" end.

Definition codex_usage (usage : Value) : option Metrics :=
  let m := mkMetrics (u64_field usage "input_tokens") (u64_field usage "output_tokens") (u64_field usage "cached_input_tokens") in
  if metrics_is_empty m then None else Some m.

Definition codex_call_id (payload : Value) : string := unquote (default "" (str_field payload "call_id")).

Definition codex_output (payload : Value) : option string :=
  (λ out, match as_string out with Some s => unquote s | None => json_to_string out end) <$> v_get "output" payload.

Definition codex_response_item (payload : Value) (model : option string) (b : Builder) : option Builder :=
  let type := default "" (str_field payload "type") in
  if decide (type = "message") then
    let text := codex_message_text (v_get "content" payload) in
    if decide (text = "") then Some b
    else Some (if decide (str_field payload "role" = Some "assistant") then (push_agent_step model text None None None None b).1
      else if decide (str_field payload "role" = Some "user") then push_plain "user" text b
      else push_plain "system" text b)
  else if decide (type = "reasoning") then
    let summary := codex_reasoning (v_get "summary" payload) in
    Some (if decide (summary = "") then b else (push_agent_step model "" (Some summary) None None None b).1)
  else if decide (type = "function_call" ∨ type = "custom_tool_call") then
    let call := mkToolCall (codex_call_id payload) (default "" (str_field payload "name")) (codex_arguments payload) in
    Some (push_agent_step model "" None (Some [call]) None None b).1
  else if decide (type = "function_call_output" ∨ type = "custom_tool_call_output") then
    let call_id := codex_call_id payload in
    attach_result call_id (mkResult (if decide (call_id = "") then None else Some call_id) (codex_output payload)) b
  else Some b.

Record CodexState : Type := mkCodex {
  x_builder : Builder; x_session : option string; x_model : option string; x_totals : option Metrics;
}.

Definition codex_event (st : option CodexState) (event : Value) : option CodexState :=
  st ← st;
  let payload := default Null (v_get "payload" event) in
  let type := default "" (str_field event "type") in
  if decide (type = "session_meta") then Some (mkCodex (x_builder st) (str_field payload "id") (x_model st) (x_totals st))
  else if decide (type = "turn_context") then
    Some (mkCodex (x_builder st) (x_session st) (or_else (x_model st) (str_field payload "model")) (x_totals st))
  else if decide (type = "response_item") then
    b ← codex_response_item payload (x_model st) (x_builder st);
    Some (mkCodex b (x_session st) (x_model st) (x_totals st))
  else if decide (type = "event_msg") then
    match (if decide (str_field payload "type" = Some "token_count") then v_get "info" payload ≫= v_get "total_token_usage" else None) with
    | Some usage => Some (mkCodex (x_builder st) (x_session st) (x_model st) (or_else (codex_usage usage) (x_totals st)))
    | None => Some st
    end
  else Some st.

(** The totals codex reports stand in for those of the steps. *)
Definition with_totals (totals : option Metrics) (t : Trajectory) : Trajectory :=
  match totals with
  | Some m => mkTrajectory (schema_version t) (session_id t) (agent t) (steps t)
      (Some (mkFinal (prompt_tokens m) (completion_tokens m) (cached_tokens m) (Z.min (Z.of_nat (length (steps t))) u32_max)))
  | None => t
  end.

Definition parse_codex (text : option string) : option (option Trajectory) :=
  match read_jsonl text with
  | None => Some None
  | Some events =>
      st ← foldl codex_event (Some (mkCodex Builder_new None None None)) events;
      Some (with_totals (x_totals st) <$> finalize (x_builder st) "codex" (x_session st) (x_model st))
  end.

Definition parse_native_log (agent_name : string) (text : option string) : option (option Trajectory) :=
  if decide (agent_name = "claude-code") then parse_claude text
  else if decide (agent_name = "codex") then parse_codex text
  else Some None.
End log.

(** ** What the steps are

    A call in the index is one of the step it names; a result is one of a call of
    its own step. *)
Definition holds_call (s : Step) (id : string) : Prop :=
  source s = "agent" ∧ ∃ calls call, tool_calls s = Some calls ∧ call ∈ calls ∧ tool_call_id call = id.

Definition results_called (s : Step) : Prop :=
  ∀ o r id, observation s = Some o → r ∈ results o → source_call_id r = Some id → holds_call s id.

Record builder_ok (b : Builder) : Prop := mkBuilderOk {
  ok_steps : steps_ok (b_steps b);
  ok_results : ∀ i s, b_steps b !! i = Some s → results_called s;
  ok_calls : ∀ id i, call_to_step b !! id = Some i → ∃ s, b_steps b !! i = Some s ∧ holds_call s id;
}.

Lemma index_calls_some index calls m id i : index_calls index calls m !! id = Some i →
  (i = index ∧ ∃ call, call ∈ calls ∧ tool_call_id call = id) ∨ m !! id = Some i.
Proof.
  unfold index_calls. induction calls as [|call calls IH] using rev_ind; [by right|].
  rewrite foldl_app /=. setoid_rewrite elem_of_app. setoid_rewrite list_elem_of_singleton.
  destruct (decide (tool_call_id call = id)) as [<-|Hne].
  - rewrite lookup_insert_eq. intros [= <-]. left. eauto.
  - rewrite lookup_insert_ne //. naive_solver.
Qed.

Definition refines (f : Step → Step) (s : Step) : Prop :=
  source (f s) = source s ∧ (∀ i, step_ok i s → step_ok i (f s)) ∧ (results_called s → results_called (f s)) ∧
  (∀ id, holds_call s id → holds_call (f s) id).

(** Steps stay, and stay who they are of. *)
Definition grows (b b' : Builder) : Prop :=
  ∀ i s, b_steps b !! i = Some s → ∃ s', b_steps b' !! i = Some s' ∧ source s' = source s.

Lemma grows_refl b : grows b b.
Proof. intros i s. eauto. Qed.

Lemma grows_trans b1 b2 b3 : grows b1 b2 → grows b2 b3 → grows b1 b3.
Proof. intros H1 H2 i s (s2 & H%H2 & <-)%H1. done. Qed.

(** What an operation keeps: it does not panic, the builder stays valid. *)
Definition steps_to (b : Builder) (o : option Builder) : Prop := ∃ b', o = Some b' ∧ builder_ok b' ∧ grows b b'.

Lemma alter_ok b index s f m : builder_ok b → b_steps b !! index = Some s → refines f s →
  (∀ id i, m !! id = Some i → call_to_step b !! id = Some i ∨ (i = index ∧ holds_call (f s) id)) →
  builder_ok (mkBuilder (alter f index (b_steps b)) m) ∧ grows b (mkBuilder (alter f index (b_steps b)) m).
Proof.
  intros [Hok Hres Hcalls] Hs (Hsrc & Hstep & Hr & Hc) Hm.
  assert (Hlook : ∀ i s', alter f index (b_steps b) !! i = Some s' → ∃ s0, b_steps b !! i = Some s0 ∧
    (s' = s0 ∨ (s0 = s ∧ s' = f s))).
  { intros i s'. destruct (decide (index = i)) as [<-|Hne].
    - rewrite list_lookup_alter_eq Hs. intros [= <-]. eauto.
    - rewrite list_lookup_alter_ne //. eauto. }
  assert (Hkeep : ∀ i s0, b_steps b !! i = Some s0 → ∃ s', alter f index (b_steps b) !! i = Some s' ∧
    source s' = source s0 ∧ ∀ id, holds_call s0 id → holds_call s' id).
  { intros i s0 H0. destruct (decide (index = i)) as [<-|Hne].
    - rewrite list_lookup_alter_eq H0. simplify_eq. exists (f s). naive_solver.
    - rewrite list_lookup_alter_ne //. eauto. }
  split; [split|]; cbn.
  - eapply steps_ok_alter; [apply length_alter| |exact Hok]. intros i s' (s0 & H0 & [-> |[-> ->]])%Hlook; eauto.
  - intros i s' (s0 & H0 & [-> |[-> ->]])%Hlook; eauto.
  - intros id i [(s0 & H0 & Hold)%Hcalls|[-> Hnew]]%Hm.
    + destruct (Hkeep i s0 H0) as (s' & ? & _ & ?). eauto.
    + exists (f s). by rewrite list_lookup_alter_eq Hs.
  - intros i s0 (s' & ? & ? & _)%Hkeep. eauto.
Qed.

Lemma on_step_ok b index s f : builder_ok b → b_steps b !! index = Some s → refines f s → steps_to b (on_step index f b).
Proof.
  intros Hb Hs Hf. unfold on_step. rewrite decide_True; [exact (lookup_lt_Some _ _ _ Hs)|].
  destruct (alter_ok b index s f (call_to_step b) Hb Hs Hf (λ id i H, or_introl H)) as [Hok Hgrow]. by eexists.
Qed.

Lemma snoc_ok b s m : builder_ok b →
  ((Z.of_nat (length (b_steps b)) < u32_max)%Z → step_ok (length (b_steps b)) s) → observation s = None →
  (∀ id i, m !! id = Some i → call_to_step b !! id = Some i ∨ (i = length (b_steps b) ∧ holds_call s id)) →
  builder_ok (mkBuilder (b_steps b ++ [s]) m) ∧ grows b (mkBuilder (b_steps b ++ [s]) m).
Proof.
  intros [Hok Hres Hcalls] Hs Hobs Hm. split; [split|]; cbn.
  - by apply steps_ok_snoc.
  - intros i s' [Hi|[_ Hi]]%lookup_app_Some; [eauto|]. apply list_lookup_singleton_Some in Hi as [_ <-].
    intros o r id Ho. congruence.
  - intros id i [(s0 & H0 & Hold)%Hcalls|[-> Hnew]]%Hm.
    + exists s0. split; [by apply lookup_app_l_Some|done].
    + exists s. by rewrite list_lookup_middle.
  - intros i s0 H0. exists s0. split; [by apply lookup_app_l_Some|done].
Qed.

Lemma push_plain_ok src text b : src ∈ sources → builder_ok b → steps_to b (Some (push_plain src text b)).
Proof.
  intros Hsrc Hb. eexists. split; [done|]. apply snoc_ok; [done| |done|by left].
  intros ?. by rewrite /step_ok /= next_id_ok.
Qed.

Lemma push_agent_step_ok model text reasoning calls ts m b b' index : calls ≠ Some [] → builder_ok b →
  push_agent_step model text reasoning calls ts m b = (b', index) →
  builder_ok b' ∧ grows b b' ∧ ∃ s, b_steps b' !! index = Some s ∧ source s = "agent".
Proof.
  intros Hcalls Hb [= <- <-].
  set (s := mkStep (next_id (b_steps b)) ts "agent" model text reasoning calls None m None).
  destruct (snoc_ok b s (index_calls (length (b_steps b)) (default [] calls) (call_to_step b)) Hb) as [Hok Hgrow].
  - intros ?. rewrite /step_ok /= next_id_ok //. split_and!; try done. apply list_elem_of_In. cbn. auto.
  - done.
  - intros id i [[-> (call & Hc & Hid)]|?]%index_calls_some; [right|by left]. split; [done|]. split; [done|].
    destruct calls as [calls|]; [eauto|by apply elem_of_nil in Hc].
  - split_and!; [done..|]. exists s. cbn. by rewrite list_lookup_middle.
Qed.

Lemma set_extra_refines e s : refines (λ s, set_extra s e) s.
Proof. by split_and!. Qed.

Lemma tag_response_id_ok b index s id : builder_ok b → b_steps b !! index = Some s → steps_to b (tag_response_id index id b).
Proof.
  intros Hb Hs. unfold tag_response_id.
  destruct id as [id|]; [case_decide|]; try by (eexists; split_and!; [done..|apply grows_refl]).
  eapply on_step_ok; [done|exact Hs|apply set_extra_refines].
Qed.

Lemma add_results_refines s r : source s = "agent" → (∀ id, source_call_id r = Some id → holds_call s id) →
  refines (add_results [r]) s.
Proof.
  intros Hagent Hcall. split_and!; [done| | |done].
  - intros i (Hid & Hsrc & Hag & Hcalls & Hobs). split_and!; try done.
    intros o. cbn. destruct (observation s); intros [= <-]; cbn; [|done]. by intros [_ ?]%app_nil.
  - intros Hres o r' id Ho Hr Hid. change (holds_call s id). cbn in Ho.
    destruct (observation s) as [o0|] eqn:Hs; injection Ho as <-; cbn in Hr.
    + apply elem_of_app in Hr as [Hr|Hr]; [exact (Hres _ _ _ Hs Hr Hid)|]. apply list_elem_of_singleton in Hr as ->. by apply Hcall.
    + apply list_elem_of_singleton in Hr as ->. by apply Hcall.
Qed.

Lemma attach_result_ok b call_id r : builder_ok b → (∀ id, source_call_id r = Some id → id = call_id) →
  steps_to b (attach_result call_id r b).
Proof.
  intros Hb Hr. unfold attach_result.
  destruct (call_to_step b !! call_id) as [index|] eqn:Hi; [|by eexists; split_and!; [done..|apply grows_refl]].
  destruct (ok_calls b Hb _ _ Hi) as (s & Hs & Hcall). eapply on_step_ok; [done|exact Hs|].
  apply add_results_refines; [apply Hcall|]. by intros id ->%Hr.
Qed.

Lemma holds_call_merge text reasoning calls m s id : holds_call s id ∨ (source s = "agent" ∧ ∃ call, call ∈ calls ∧ tool_call_id call = id) →
  holds_call (merge_step text reasoning calls m s) id.
Proof.
  intros [[Hsrc (old & call & Hold & Hc & Hid)]|[Hsrc (call & Hc & Hid)]]; (split; [done|]); cbn.
  - rewrite Hold. destruct calls as [|c calls]; [eauto|]. eexists _, call. split; [done|]. rewrite elem_of_app. auto.
  - destruct calls as [|c calls]; [by apply elem_of_nil in Hc|]. eexists _, call. split; [done|].
    rewrite elem_of_app. auto.
Qed.

Lemma merge_step_refines text reasoning calls m s : source s = "agent" → refines (merge_step text reasoning calls m) s.
Proof.
  intros Hagent. split_and!; [done| | |intros id H; apply holds_call_merge; by left].
  - intros i (Hid & Hsrc & Hag & Hcalls & Hobs). split_and!; try done; cbn.
    destruct calls as [|c calls]; [done|]. by intros [= [_ ?]%app_nil].
  - intros Hres o r id Ho Hr Hid. apply holds_call_merge. left. exact (Hres o r id Ho Hr Hid).
Qed.

Lemma merge_ok b index s text reasoning calls m : builder_ok b → b_steps b !! index = Some s → source s = "agent" →
  steps_to b (merge_into_agent_step index text reasoning calls m b).
Proof.
  intros Hb Hs Hagent. unfold merge_into_agent_step, on_step. cbn.
  rewrite decide_True; [exact (lookup_lt_Some _ _ _ Hs)|]. eexists. split; [done|].
  apply (alter_ok b index s); [done..|by apply merge_step_refines|].
  intros id i [[-> Hc]|?]%index_calls_some; [right|by left]. split; [done|]. apply holds_call_merge. eauto.
Qed.

Lemma steps_to_bind b o (k : Builder → option Builder) : steps_to b o → (∀ b', builder_ok b' → steps_to b' (k b')) →
  steps_to b (b' ← o; k b').
Proof.
  intros (b' & -> & Hb & Hg) Hk. destruct (Hk b' Hb) as (b2 & Hb2 & ? & ?).
  exists b2. split; [exact Hb2|]. eauto using grows_trans.
Qed.

Lemma steps_to_foldl {A} (f : option Builder → A → option Builder) xs b :
  (∀ x, f None x = None) → (∀ b x, builder_ok b → steps_to b (f (Some b) x)) → builder_ok b →
  steps_to b (foldl f (Some b) xs).
Proof.
  intros Hnone Hf. revert b. induction xs as [|x xs IH]; intros b Hb; cbn.
  - by exists b; split_and!; [| |apply grows_refl].
  - destruct (Hf b x Hb) as (b1 & -> & Hb1 & Hg1). destruct (IH b1 Hb1) as (b2 & -> & Hb2 & Hg2).
    exists b2. eauto using grows_trans.
Qed.

Lemma steps_to_refl b : builder_ok b → steps_to b (Some b).
Proof. intros. exists b. by split_and!; [| |apply grows_refl]. Qed.

(** The tokens of a turn that no word holds. *)
Definition tokens_overflow (usage : Value) : Prop :=
  (u64_max < default 0 (u64_field usage "input_tokens") + default 0 (u64_field usage "cache_read_input_tokens") +
    default 0 (u64_field usage "cache_creation_input_tokens"))%Z.

Section valid.
Context `{!JsonText, !JsonShow} {checks : OverflowChecks}.

(** The turns whose reading panics. *)
Definition overflows (event : Value) : Prop :=
  overflow_checks = true ∧ ∃ usage, v_get "message" event ≫= v_get "usage" = Some usage ∧ tokens_overflow usage.

Lemma add_u64_panics a b : add_u64 a b = None → overflow_checks = true ∧ (u64_max < a + b)%Z.
Proof. unfold add_u64. case_decide; [done|]. destruct overflow_checks; [|done]. split; [done|lia]. Qed.

Lemma add_u64_ok a b c : overflow_checks = true → add_u64 a b = Some c → c = (a + b)%Z.
Proof. unfold add_u64. intros ->. case_decide; congruence. Qed.

Lemma u64_field_nonneg usage key : (0 ≤ default 0 (u64_field usage key))%Z.
Proof.
  unfold u64_field. destruct (v_get key usage) as [v|]; [cbn|cbn; lia]. unfold as_u64.
  repeat case_match; cbn; simplify_eq; try lia; naive_solver lia.
Qed.

Lemma claude_metrics_panics usage : claude_metrics usage = None → overflow_checks = true ∧ tokens_overflow usage.
Proof.
  pose proof (u64_field_nonneg usage "cache_creation_input_tokens") as Hc.
  assert (Hsum : ∀ a b c (k : Z → option Metrics), (0 ≤ c)%Z →
    (first ← add_u64 a b; prompt ← add_u64 first c; Some (k prompt)) = None →
    overflow_checks = true ∧ (u64_max < a + b + c)%Z).
  { intros a b c k Hpos Hn. destruct (add_u64 a b) as [f|] eqn:E.
    - cbn in Hn. destruct (add_u64 f c) as [p|] eqn:E2; [done|]. apply add_u64_panics in E2 as [Hk Hlt].
      apply add_u64_ok in E; [|done]. subst f. done.
    - apply add_u64_panics in E as [Hk Hlt]. split; [done|lia]. }
  unfold claude_metrics, tokens_overflow.
  destruct (u64_field usage "input_tokens") as [i|], (u64_field usage "output_tokens") as [o|],
    (u64_field usage "cache_read_input_tokens") as [r|], (u64_field usage "cache_creation_input_tokens") as [c|]; try done;
    intros Hn; exact (Hsum _ _ _ (λ p, Some (mkMetrics (Some p) _ _)) Hc Hn).
Qed.

Lemma codex_response_item_ok payload model b : builder_ok b → steps_to b (codex_response_item payload model b).
Proof.
  assert (Hpush : ∀ text reasoning calls, calls ≠ Some [] → builder_ok b →
    steps_to b (Some (push_agent_step model text reasoning calls None None b).1)).
  { intros text reasoning calls Hc Hb. destruct (push_agent_step _ _ _ _ _ _ _) as [b' index] eqn:Hp.
    destruct (push_agent_step_ok _ _ _ _ _ _ _ _ _ Hc Hb Hp) as (? & ? & _). by exists b'. }
  intros Hb. unfold codex_response_item. repeat case_decide;
    auto using steps_to_refl, push_plain_ok, system_source, user_source.
  all: apply attach_result_ok; [done|]; by intros id [= <-].
Qed.

Lemma codex_event_ok st event : builder_ok (x_builder st) →
  ∃ st', codex_event (Some st) event = Some st' ∧ builder_ok (x_builder st').
Proof.
  intros Hb. unfold codex_event. cbn -[codex_response_item].
  destruct (codex_response_item_ok (default Null (v_get "payload" event)) (x_model st) _ Hb) as (b & Hr & Hok & _).
  repeat case_decide; try by eexists.
  - rewrite Hr. by eexists.
  - destruct (_ ≫= _); by eexists.
Qed.

Lemma codex_events_ok events st : builder_ok (x_builder st) →
  ∃ st', foldl codex_event (Some st) events = Some st' ∧ builder_ok (x_builder st').
Proof.
  revert st. induction events as [|e events IH]; intros st Hb; [by eexists|]. cbn [foldl].
  destruct (codex_event_ok st e Hb) as (st1 & -> & Hb1). by apply IH.
Qed.

(** Streamed parts of a message are of steps of the agent. *)
Definition msgids_ok (msgid : gmap string nat) (b : Builder) : Prop :=
  ∀ id i, msgid !! id = Some i → ∃ s, b_steps b !! i = Some s ∧ source s = "agent".

Lemma msgids_grow msgid b b' : msgids_ok msgid b → grows b b' → msgids_ok msgid b'.
Proof. intros Hm Hg id i (s & (s' & ? & <-)%Hg & ?)%Hm. eauto. Qed.

Lemma claude_assistant_ok event message msgid b : builder_ok b → msgids_ok msgid b →
  (∃ msgid' b', claude_assistant event message msgid b = Some (msgid', b') ∧ builder_ok b' ∧ msgids_ok msgid' b') ∨
  claude_assistant event message msgid b = None ∧ overflow_checks = true ∧ ∃ usage, v_get "usage" message = Some usage ∧ tokens_overflow usage.
Proof.
  intros Hb Hm. unfold claude_assistant. destruct (claude_assistant_content _) as [[text reasoning] calls].
  destruct (match v_get "usage" message with Some usage => claude_metrics usage | None => Some None end) as [m|] eqn:Eu; cbn [mbind option_bind].
  2: { right. split; [done|]. destruct (v_get "usage" message) as [usage|]; [|done].
    apply claude_metrics_panics in Eu as [? ?]. split; [done|]. by exists usage. }
  left.
  destruct (str_field message "id" ≫= (msgid !!.)) as [index|] eqn:Hid.
  - apply bind_Some in Hid as (id & _ & (s & Hs & Hagent)%Hm).
    destruct (merge_ok b index s text reasoning calls m Hb Hs Hagent) as (b' & -> & Hb' & Hg).
    eauto 6 using msgids_grow.
  - destruct (push_agent_step _ _ _ _ _ _ _) as [b1 index] eqn:Hp.
    destruct (push_agent_step_ok _ _ _ _ _ _ _ _ _ (non_empty_list_ok calls) Hb Hp) as (Hb1 & Hg1 & s & Hs & Hagent).
    destruct (tag_response_id_ok b1 index s (str_field message "id") Hb1 Hs) as (b2 & -> & Hb2 & Hg2).
    eexists _, b2. split; [done|]. split; [done|].
    pose proof (msgids_grow _ _ _ Hm (grows_trans _ _ _ Hg1 Hg2)) as Hm2.
    destruct (str_field message "id") as [id|]; [|done]. intros id' i.
    destruct (decide (id = id')) as [<-|Hne]; [|rewrite lookup_insert_ne //; apply Hm2].
    rewrite lookup_insert_eq. intros [= <-]. destruct (Hg2 _ _ Hs) as (s' & ? & ?). exists s'. split; congruence.
Qed.

Lemma claude_result_ok b block : builder_ok b → steps_to b (claude_result (Some b) block).
Proof.
  intros Hb. cbn -[attach_result]. case_decide; [|by apply steps_to_refl].
  destruct (str_field block "tool_use_id") as [id|]; [|by apply steps_to_refl].
  apply attach_result_ok; [done|]. by intros ? [= <-].
Qed.

Lemma claude_user_ok message b : builder_ok b → steps_to b (claude_user message b).
Proof.
  intros Hb. unfold claude_user. apply steps_to_bind.
  - apply steps_to_foldl; [done|apply claude_result_ok|done].
  - intros b' Hb'. case_decide; [by apply steps_to_refl|]. apply push_plain_ok; [apply user_source|done].
Qed.

Definition claude_ok (st : ClaudeState) : Prop := builder_ok (c_builder st) ∧ msgids_ok (c_msgid st) (c_builder st).

Lemma claude_event_ok st event : claude_ok st →
  (∃ st', claude_event (Some st) event = Some st' ∧ claude_ok st') ∨ claude_event (Some st) event = None ∧ overflows event.
Proof.
  intros [Hb Hm]. unfold overflows. cbn -[claude_assistant claude_user]. destruct (v_get "message" event) as [message|]; [|left; by eexists].
  case_decide.
  - destruct (claude_assistant_ok event message _ _ Hb Hm) as [(? & ? & -> & ? & ?)|(-> & ? & usage & ? & ?)]; [left; by eexists|right].
    split; [done|]. split; [done|]. by exists usage.
  - case_decide; [|left; by eexists]. destruct (claude_user_ok message _ Hb) as (b & -> & Hb' & Hg).
    left. eexists. split; [done|]. split; [done|]. exact (msgids_grow _ _ _ Hm Hg).
Qed.

Lemma claude_events_ok events st : claude_ok st →
  (∃ st', foldl claude_event (Some st) events = Some st' ∧ claude_ok st') ∨
  foldl claude_event (Some st) events = None ∧ ∃ event, event ∈ events ∧ overflows event.
Proof.
  revert st. induction events as [|e events IH]; intros st Hst; [left; by eexists|]. cbn [foldl].
  destruct (claude_event_ok st e Hst) as [(st1 & -> & Hst1)|[-> Ho]].
  - destruct (IH st1 Hst1) as [?|[? (event & ? & ?)]]; [by left|right]. split; [done|]. exists event. split; [by right|done].
  - right. split; [clear; by induction events|]. exists e. split; [by left|done].
Qed.

Lemma builder_new_ok : builder_ok Builder_new.
Proof. split; cbn; [apply steps_ok_nil|done|]. intros id i. by rewrite lookup_empty. Qed.

Lemma finalize_ok b name sid model t : builder_ok b → finalize b name sid model = Some t →
  trajectory_ok t ∧ ∀ s, s ∈ steps t → results_called s.
Proof.
  intros [Hok Hres _]. unfold finalize. destruct (b_steps b) as [|s l] eqn:Hl; [done|]. intros [= <-]. split.
  - split_and!; try done. eexists. split; [done|]. unfold sum_metrics, sum_token_metrics.
    destruct (foldl _ _ _) as [[p c] ca]. cbn -[Z.of_nat]. intros. by rewrite Z.min_l.
  - intros s' [i Hi]%list_elem_of_lookup. exact (Hres _ _ Hi).
Qed.

Lemma with_totals_ok totals t : trajectory_ok t → trajectory_ok (with_totals totals t).
Proof.
  intros (? & ? & ? & Hf). destruct totals as [m|]; [|done]. split_and!; try done.
  eexists. split; [done|]. cbn. intros. by rewrite Z.min_l.
Qed.

Lemma parse_claude_ok text :
  (∃ r, parse_claude text = Some r ∧ ∀ t, r = Some t → trajectory_ok t ∧ ∀ s, s ∈ steps t → results_called s) ∨
  parse_claude text = None ∧ ∃ events event, read_jsonl text = Some events ∧ event ∈ claude_events events ∧ overflows event.
Proof.
  unfold parse_claude. destruct (read_jsonl text) as [events|]; [|left; by eexists].
  destruct (claude_events_ok (claude_events events) (mkClaude Builder_new ∅ None None)) as [(st & -> & Hb & _)|[-> (event & Hin & Ho)]].
  - split; [apply builder_new_ok|]. intros id i. by rewrite lookup_empty.
  - left. eexists. split; [done|]. intros t. by apply finalize_ok.
  - right. split; [done|]. by exists events, event.
Qed.

Lemma parse_codex_ok text : ∃ r, parse_codex text = Some r ∧
  ∀ t, r = Some t → trajectory_ok t ∧ ∀ s, s ∈ steps t → results_called s.
Proof.
  unfold parse_codex. destruct (read_jsonl text) as [events|]; [|by eexists].
  destruct (codex_events_ok events (mkCodex Builder_new None None None) builder_new_ok) as (st & -> & Hb).
  eexists. split; [done|]. intros t. destruct (finalize _ _ _ _) as [t0|] eqn:Ht; [|done]. intros [= <-].
  destruct (finalize_ok _ _ _ _ _ Hb Ht). split; [by apply with_totals_ok|]. by destruct (x_totals st).
Qed.
End valid.

(** A build for release reads any log to its end. *)
Lemma parse_returns `{!JsonText, !JsonShow} name text : ∃ r, parse_native_log (checks := release_build) name text = Some r.
Proof.
  unfold parse_native_log. case_decide; [|case_decide; [|by eexists]].
  - destruct (parse_claude_ok (checks := release_build) text) as [(r & -> & _)|(_ & events & event & _ & _ & [Hc _])]; [by eexists|done].
  - destruct (parse_codex_ok text) as (r & -> & _). by eexists.
Qed.

(** C25. The document made of an agent's own log, whatever the log holds: reading
    it panics only in a build that checks its arithmetic, on the log of Claude,
    and for a turn whose tokens sum to more than a word holds
    ([claude_metrics_overflow]); else, and so always in a build for release, it
    returns.  In what it returns the steps are numbered and have the fields of
    their source, and every result that names a call stands in the step of the
    agent that made this call. *)
Theorem native_trajectory_valid `{!JsonText, !JsonShow, !OverflowChecks} (agent_name : string) (text : option string) :
  match parse_native_log agent_name text with
  | Some r => ∀ t, r = Some t → trajectory_ok t ∧ ∀ s, s ∈ steps t → results_called s
  | None => overflow_checks = true ∧ agent_name = "claude-code" ∧
      ∃ events event usage, read_jsonl text = Some events ∧ event ∈ claude_events events ∧
        v_get "message" event ≫= v_get "usage" = Some usage ∧ tokens_overflow usage
  end.
Proof.
  unfold parse_native_log. destruct (decide (agent_name = "claude-code")) as [->|]; [|case_decide; [|done]].
  - destruct (parse_claude_ok text) as [(r & -> & Hr)|(-> & events & event & Hl & Hin & Hc & usage & Hu & Ho)]; [exact Hr|].
    split_and!; [done..|]. by exists events, event, usage.
  - by destruct (parse_codex_ok text) as (r & -> & Hr).
Qed.

(** ** The newest file *)

Section newest_spec.
Variables (since : Z) (recurse : bool) (pred : string → bool) (earliest : Z).

(** The files of the log's kind written since, wherever the search goes. *)
Fixpoint candidates (dir : string) (n : Node) : list (Z * string) :=
  match n with
  | Dir entries => flat_map (λ e, match e.2 with
      | File (Some t) => if pred e.1 && bool_decide (cutoff since earliest ≤ t)%Z then [(t, join_text dir e.1)] else []
      | _ => if recurse then candidates (join_text dir e.1) e.2 else []
      end) entries
  | _ => []
  end.

Definition pending (stack : list (string * Node)) : list (Z * string) := flat_map (λ e, candidates e.1 e.2) stack.

Definition is_best (best : Best) (l : list (Z * string)) : Prop :=
  match best with None => l = [] | Some (t, p) => (t, p) ∈ l ∧ ∀ x, x ∈ l → (x.1 ≤ t)%Z end.

Lemma is_best_perm best l l' : l ≡ₚ l' → is_best best l → is_best best l'.
Proof.
  intros Hp. destruct best as [[t p]|]; cbn; [by setoid_rewrite Hp|]. intros ->. by apply Permutation_nil_l in Hp.
Qed.

Lemma is_best_snoc best l t p : is_best best l →
  is_best (match best with Some (b, _) => if decide (b < t)%Z then Some (t, p) else best | None => Some (t, p) end)
    (l ++ [(t, p)])%list.
Proof.
  destruct best as [[b q]|]; cbn.
  - intros [Hin Hmax]. case_decide; split; rewrite ?elem_of_app ?list_elem_of_singleton; [by right| |by left|];
      intros x [Hx| ->%list_elem_of_singleton]%elem_of_app; cbn; try lia; specialize (Hmax x Hx); lia.
  - intros ->. cbn. split; [by constructor|]. intros x ->%list_elem_of_singleton. cbn. lia.
Qed.

Lemma stack_size_eq p n stack : stack_size ((p, n) :: stack) = (node_size n + stack_size stack)%nat.
Proof. done. Qed.

Lemma stack_size_cons p n stack : (stack_size ((p, n) :: stack) ≤ stack_size stack + node_size n)%nat.
Proof. rewrite stack_size_eq. lia. Qed.

Lemma visit_spec dir best stack e l : is_best best l → ∃ best' stack' found,
  visit since recurse pred earliest dir (best, stack) e = (best', stack') ∧ is_best best' (l ++ found)%list ∧
  found ++ pending stack' ≡ₚ (candidates dir (Dir [e]) ++ pending stack)%list ∧
  (stack_size stack' ≤ stack_size stack + node_size e.2)%nat.
Proof.
  destruct e as [name n]. intros Hb. unfold visit. cbv beta iota delta [fst snd].
  assert (Hskip : is_best best (l ++ [])%list) by (by rewrite app_nil_r).
  assert (Hkeep : candidates dir (Dir [(name, n)]) = [] → ∃ best' stack' found, (best, stack) = (best', stack') ∧
    is_best best' (l ++ found)%list ∧ found ++ pending stack' ≡ₚ (candidates dir (Dir [(name, n)]) ++ pending stack)%list ∧
    (stack_size stack' ≤ stack_size stack + node_size n)%nat).
  { intros ->. exists best, stack, []. split_and!; [done|done|done|lia]. }
  destruct n as [modified|entries| |].
  - destruct (pred name) eqn:Hpred; cbv beta iota delta [negb]; [|apply Hkeep; cbn; destruct modified; by rewrite ?Hpred; destruct recurse].
    destruct modified as [t|]; [|by apply Hkeep; cbn; destruct recurse].
    case_decide as Hc.
    { apply Hkeep. cbn -[join_text]. by rewrite Hpred bool_decide_false; [lia|]. }
    assert (candidates dir (Dir [(name, File (Some t))]) = [(t, join_text dir name)]) as ->.
    { cbn -[join_text]. by rewrite Hpred bool_decide_true; [lia|]. }
    exists (match best with Some (b, _) => if decide (b < t)%Z then Some (t, join_text dir name) else best
           | None => Some (t, join_text dir name) end), stack, [(t, join_text dir name)]. split; [|split_and!].
    + by destruct best as [[b q]|]; [case_decide|].
    + by apply is_best_snoc.
    + done.
    + lia.
  - destruct recurse eqn:Hrec; [|by apply Hkeep; cbn; rewrite ?Hrec].
    eexists best, _, []. split; [done|]. split_and!; [done|by cbn; rewrite Hrec app_nil_r|].
    apply stack_size_cons.
  - destruct recurse eqn:Hrec; [|by apply Hkeep; cbn; rewrite ?Hrec].
    eexists best, _, []. split; [done|]. split_and!; [done|by cbn; rewrite Hrec app_nil_r|].
    apply stack_size_cons.
  - apply Hkeep. cbn. by destruct recurse.
Qed.

Lemma candidates_cons dir e l : candidates dir (Dir (e :: l)) = (candidates dir (Dir [e]) ++ candidates dir (Dir l))%list.
Proof. cbn -[join_text]. by rewrite app_nil_r. Qed.

Lemma visits_spec dir entries best stack l : is_best best l → ∃ best' stack' found,
  foldl (visit since recurse pred earliest dir) (best, stack) entries = (best', stack') ∧ is_best best' (l ++ found)%list ∧
  found ++ pending stack' ≡ₚ (candidates dir (Dir entries) ++ pending stack)%list ∧
  (stack_size stack' ≤ stack_size stack + list_sum (map (λ e, node_size e.2) entries))%nat.
Proof.
  revert best stack l. induction entries as [|e entries IH]; intros best stack l Hb.
  - exists best, stack, []. rewrite app_nil_r. split_and!; [done..|]. cbn. lia.
  - destruct (visit_spec dir best stack e l Hb) as (best1 & stack1 & found1 & Hv & Hb1 & Hp1 & Hs1). cbn [foldl].
    rewrite Hv. destruct (IH best1 stack1 _ Hb1) as (best2 & stack2 & found2 & -> & Hb2 & Hp2 & Hs2).
    exists best2, stack2, (found1 ++ found2)%list. rewrite candidates_cons. split_and!; [done|by rewrite app_assoc| |].
    + rewrite -app_assoc Hp2 Permutation_app_swap_app Hp1 -app_assoc. apply Permutation_app_swap_app.
    + cbn [map list_sum foldr]. unfold list_sum in *. cbn. lia.
Qed.

Lemma scan_spec fuel stack best l : (stack_size stack < fuel)%nat → is_best best l →
  ∃ best', scan since recurse pred earliest fuel best stack = Some best' ∧ is_best best' (l ++ pending stack)%list.
Proof.
  revert stack best l. induction fuel as [|fuel IH]; intros stack best l Hf Hb; [lia|]. cbn [scan].
  destruct stack as [|[dir n] stack]; [exists best; by rewrite app_nil_r|].
  assert (Hskip : candidates dir n = [] → (stack_size stack < fuel)%nat → ∃ best',
    scan since recurse pred earliest fuel best stack = Some best' ∧ is_best best' (l ++ pending ((dir, n) :: stack))%list).
  { intros Hn ?. cbn. rewrite Hn. by apply IH. }
  rewrite stack_size_eq in Hf. destruct n as [m|entries| |]; cbn [node_size] in Hf; try (apply Hskip; [done|lia]).
  destruct (visits_spec dir entries best stack l Hb) as (best1 & stack1 & found & -> & Hb1 & Hp & Hs).
  destruct (IH stack1 best1 (l ++ found)%list) as (best' & -> & Hb'); [lia|done|].
  exists best'. split; [done|]. eapply is_best_perm; [|exact Hb']. rewrite -app_assoc. by rewrite Hp.
Qed.

(** The search ends, and what it finds is the file written last: there is none
    only where there is no file of the kind written since. *)
Lemma newest_file_spec root n :
  match newest_file since recurse pred earliest root n with
  | Some path => ∃ t, (t, path) ∈ candidates root n ∧ ∀ x, x ∈ candidates root n → (x.1 ≤ t)%Z
  | None => candidates root n = []
  end.
Proof.
  unfold newest_file. destruct (scan_spec (S (node_size n)) [(root, n)] None []) as (best & -> & Hb); [rewrite stack_size_eq; cbn; lia|done|].
  cbn in Hb. rewrite app_nil_r in Hb. destruct best as [[t p]|]; [by exists t|done].
Qed.
End newest_spec.

(** ** The order of a transcript *)

Definition stamp_le (a b : Value) : Prop := stamp_leb (str_field a "timestamp") (str_field b "timestamp") = true.

Lemma insert_event_perm e l : insert_event e l ≡ₚ e :: l.
Proof.
  induction l as [|e' l IH]; [done|]. cbn. destruct (stamp_leb _ _); [done|]. rewrite IH. apply perm_swap.
Qed.

Lemma sort_events_perm l : sort_events l ≡ₚ l.
Proof. induction l as [|e l IH]; [done|]. unfold sort_events in *. cbn. by rewrite insert_event_perm IH. Qed.

Lemma stamp_leb_total a b : stamp_leb a b = false → stamp_leb b a = true.
Proof.
  destruct a as [a|], b as [b|]; cbn; try done. intros H. destruct (String.leb_total a b) as [|]; congruence.
Qed.

Lemma sort_events_sorted l : Sorted stamp_le (sort_events l).
Proof.
  assert (Hins : ∀ e l, Sorted stamp_le l → Sorted stamp_le (insert_event e l)).
  { intros e. induction l0 as [|e' l0 IH]; [by repeat constructor|]. intros Hs. cbn.
    destruct (stamp_leb _ _) eqn:Hle; [by repeat constructor; inv Hs|]. inv Hs as [|? ? Hs' Hhd].
    constructor; [by apply IH|]. destruct l0 as [|e'' l0]; cbn; [constructor; by apply stamp_leb_total|].
    destruct (stamp_leb (str_field e "timestamp") (str_field e'' "timestamp")); constructor; [by apply stamp_leb_total|].
    by inv Hhd. }
  induction l as [|e l IH]; [constructor|]. by apply Hins.
Qed.

(** Every turn of the transcript is read once, in the order of its time. *)
Lemma claude_events_spec events :
  Sorted stamp_le (claude_events events) ∧ (∀ e, e ∈ claude_events events → e ∈ events ∧ is_turn e = true) ∧
  NoDup (omap (λ e, str_field e "uuid") (claude_events events)).
Proof.
  assert (Hd : ∀ l seen, (∀ e, e ∈ dedupe seen l → e ∈ l) ∧ NoDup (omap (λ e, str_field e "uuid") (dedupe seen l)) ∧
    ∀ u, u ∈ omap (λ e, str_field e "uuid") (dedupe seen l) → u ∉ seen).
  { induction l as [|e l IH]; intros seen; [split_and!; [done|constructor|by intros u ?%elem_of_nil]|]. cbn.
    destruct (str_field e "uuid") as [u|] eqn:Hu.
    - case_decide as Hin.
      + destruct (IH seen) as (H1 & H2 & H3). split_and!; [|done..]. intros e' ?%H1. by right.
      + destruct (IH ({[u]} ∪ seen)) as (H1 & H2 & H3). split_and!.
        * intros e' [->|?%H1]%elem_of_cons; [by left|by right].
        * cbn. rewrite Hu. constructor; [|done]. intros ?%H3. set_solver.
        * cbn. rewrite Hu. intros u' [->|?%H3]%elem_of_cons; [done|set_solver].
    - destruct (IH seen) as (H1 & H2 & H3). split_and!; cbn; rewrite ?Hu //.
      intros e' [->|?%H1]%elem_of_cons; [by left|by right]. }
  destruct (Hd (List.filter is_turn events) ∅) as (Hsub & Hnd & _). unfold claude_events. split_and!.
  - apply sort_events_sorted.
  - intros e. rewrite sort_events_perm. intros [??]%Hsub%list_elem_of_In%filter_In. by rewrite list_elem_of_In.
  - by rewrite sort_events_perm.
Qed.

(** ** A transcript *)

Section example.
Definition turn (type uuid time : string) (message : Value) : Value :=
  obj [("type", Str type); ("uuid", Str uuid); ("timestamp", Str time); ("sessionId", Str "sess-1"); ("message", message)].

Definition blocks (l : list Value) : Value := obj [("content", Array l)].

(** The lines of the file, in short. *)
Local Instance short_json : JsonText := {| json_from_str s :=
  if String.eqb s "user" then Some (turn "user" "u1" "0" (obj [("content", Str "hello")]))
  else if String.eqb s "call" then Some (turn "assistant" "a1" "1" (obj [("id", Str "m1"); ("model", Str "opus");
    ("usage", obj [("input_tokens", Num (NInt 100)); ("cache_read_input_tokens", Num (NInt 10))]);
    ("content", Array [obj [("type", Str "thinking"); ("thinking", Str "let me look")];
                       obj [("type", Str "tool_use"); ("id", Str "tool_1"); ("name", Str "read"); ("input", Object [])]])]))
  else if String.eqb s "more" then Some (turn "assistant" "a2" "2" (obj [("id", Str "m1");
    ("content", Array [obj [("type", Str "text"); ("text", Str "checking")]])]))
  else if String.eqb s "result" then Some (turn "user" "u2" "3" (blocks [obj [("type", Str "tool_result");
    ("tool_use_id", Str "tool_1"); ("content", Str "file body")]]))
  else None |}.
Local Instance short_show : JsonShow := {| json_to_string _ := "{}" |}.

Definition transcript : string := str_join nl ["user"; "result"; "call"; "not json"; "more"; "more"].

Example transcript_steps :
  (option_map (λ t, (session_id t, map (λ s, (step_id s, source s, message s, reasoning_content s,
     map tool_call_id (default [] (tool_calls s)), map content (default [] (results <$> observation s)),
     prompt_tokens <$> metrics s)) (steps t)))) <$> parse_native_log (checks := debug_build) "claude-code" (Some transcript) =
  Some (Some (Some "sess-1",
    [(1, "user", "hello", None, [], [], None);
     (2, "agent", "checking", Some "let me look", ["tool_1"], [Some "file body"], Some (Some 110))]))%Z.
Proof. vm_compute. reflexivity. Qed.

(** The sum of a turn's tokens is not saturated, as the sums over turns are. *)
Definition huge_usage : Value := obj [("input_tokens", Num (NInt u64_max)); ("cache_read_input_tokens", Num (NInt 1))].

Example claude_metrics_overflow :
  claude_metrics (checks := release_build) huge_usage = Some (Some (mkMetrics (Some 0%Z) None (Some 1%Z))) ∧
  claude_metrics (checks := debug_build) huge_usage = None.
Proof. split; vm_compute; reflexivity. Qed.
End example.
