(* ===== verification/Review.v ===== *)
(** * The review gate (crates/omniagent-cli/src/review.rs)

    An answer that waits for a person: it is listed, and released by a decision
    that comes from the control plane, or when the time to decide is over. Many
    answers wait at once, and a decision can meet the end of its window. *)
From S2P Require Import Prelude Str Json Record.

Inductive ReviewPhase : Type := ReviewRequest | ReviewResponse.

Record ReviewItem : Type := mkItem {
  ri_id : string; ri_sequence : Z; ri_phase : ReviewPhase; ri_attempt : Z; ri_provider : Provider;
  ri_model : option string; ri_method : string; ri_path : string; ri_streaming : bool;
  ri_request_base_url : string; ri_upstream_base_url : string;
  ri_request_headers : gmap string (list string); ri_request : Value;
  ri_response_headers : gmap string (list string); ri_response : Value; ri_usage : Usage;
  ri_status : option Z; ri_latency_ms : option Z; ri_started_at : string; ri_error : option string;
}.

Inductive ReviewDecision : Type :=
| Approve (model : option string)
| Reject (message : option string)
| Retry (model : option string).

Definition approve : ReviewDecision := Approve None.

Definition from_server_value (value : Value) : ReviewDecision :=
  let action := default "approve" (v_get "action" value ≫= as_string) in
  if decide (action = "reject") then Reject (v_get "message" value ≫= as_string)
  else if decide (action = "retry") then Retry (v_get "model" value ≫= as_string)
  else Approve (v_get "model" value ≫= as_string).

Inductive ReviewEvent : Type := Upsert (item : ReviewItem) | Remove (id : string).

(** The entry of a waiter is the end of the channel to the call of [prompt] with
    this number. *)
Record ReviewStore : Type := mkStore {
  enabled : bool;
  timeout : option Z;
  items : gmap string ReviewItem;
  rs_sequence : Z;
  waiters : gmap string nat;
  events : list ReviewEvent;                 (* what was forwarded *)
}.

Definition ReviewStore_new (enabled : bool) (timeout : option Z) : ReviewStore := mkStore enabled timeout ∅ 0 ∅ [].

Definition set_items (f : gmap string ReviewItem → gmap string ReviewItem) (s : ReviewStore) : ReviewStore :=
  mkStore (enabled s) (timeout s) (f (items s)) (rs_sequence s) (waiters s) (events s).
Definition set_waiters (f : gmap string nat → gmap string nat) (s : ReviewStore) : ReviewStore :=
  mkStore (enabled s) (timeout s) (items s) (rs_sequence s) (f (waiters s)) (events s).
Definition forward (e : ReviewEvent) (s : ReviewStore) : ReviewStore :=
  mkStore (enabled s) (timeout s) (items s) (rs_sequence s) (waiters s) (events s ++ [e]).
Definition next_sequence (s : ReviewStore) : ReviewStore :=
  mkStore (enabled s) (timeout s) (items s) (wrap64 (rs_sequence s + 1)) (waiters s) (events s).
Definition numbered_item (n : Z) (i : ReviewItem) : ReviewItem :=
  mkItem (ri_id i) n (ri_phase i) (ri_attempt i) (ri_provider i) (ri_model i) (ri_method i) (ri_path i) (ri_streaming i)
    (ri_request_base_url i) (ri_upstream_base_url i) (ri_request_headers i) (ri_request i) (ri_response_headers i)
    (ri_response i) (ri_usage i) (ri_status i) (ri_latency_ms i) (ri_started_at i) (ri_error i).

(** ** Calls under way *)

(** Where a call of [prompt] is: numbered; its waiter, then its item in their
    maps; the item forwarded, waiting; the receiver gone and the three steps of
    [discard], to return this decision; returned; cancelled with the request of
    the agent that wanted the answer. *)
Inductive Phase : Type :=
| PNumbered
| PWaiter
| PListed
| PWaiting
| PDiscard (stage : nat) (d : ReviewDecision)
| PReturned (d : ReviewDecision)
| PCancelled.

Record Prompt : Type := mkPrompt {
  p_item : ReviewItem;
  p_phase : Phase;
  p_value : option ReviewDecision;           (* in the channel *)
}.

Definition p_id (p : Prompt) : string := ri_id (p_item p).
Definition in_phase (ph : Phase) (p : Prompt) : Prompt := mkPrompt (p_item p) ph (p_value p).
Definition with_value (d : ReviewDecision) (p : Prompt) : Prompt := mkPrompt (p_item p) (p_phase p) (Some d).

(** The receiver is dropped when [prompt] returns, gives up or is cancelled. *)
Definition receiver_alive (p : Prompt) : bool :=
  match p_phase p with PNumbered | PWaiter | PListed | PWaiting => true | _ => false end.

(** Where a call of [decide] that found a waiter is, and what it returned. *)
Inductive Stage : Type := DTaken | DUnlisted | DForwarded | DDone (ok : bool).

Record Decider : Type := mkDecider { d_prompt : nat; d_id : string; d_decision : ReviewDecision; d_stage : Stage }.

Definition at_stage (s : Stage) (d : Decider) : Decider := mkDecider (d_prompt d) (d_id d) (d_decision d) s.

Record Gate : Type := mkGate { store : ReviewStore; prompts : list Prompt; deciders : list Decider }.

Definition Gate_new (enabled : bool) (timeout : option Z) : Gate := mkGate (ReviewStore_new enabled timeout) [] [].

(** The end of the channel is somewhere: no one has dropped it. *)
Definition sender_alive (g : Gate) (i : nat) (p : Prompt) : Prop :=
  waiters (store g) !! p_id p = Some i ∨ ∃ j d, deciders g !! j = Some d ∧ d_prompt d = i ∧ ¬ (∃ ok, d_stage d = DDone ok).

Definition upd_prompt (i : nat) (ph : Phase) (p : Prompt) (g : Gate) : list Prompt := <[i := in_phase ph p]> (prompts g).
Definition upd_decider (j : nat) (st : Stage) (d : Decider) (g : Gate) : list Decider := <[j := at_stage st d]> (deciders g).

(** [discard], from its first step to the return of [prompt]. *)
Definition discard (stage : nat) (id : string) (s : ReviewStore) : ReviewStore :=
  match stage with
  | 0%nat => set_waiters (delete id) s
  | 1%nat => set_items (delete id) s
  | _ => forward (Remove id) s
  end.

Definition discarding (stage : nat) (d : ReviewDecision) : Phase :=
  match stage with 0%nat => PDiscard 1 d | 1%nat => PDiscard 2 d | _ => PReturned d end.

Definition channel_closed : ReviewDecision := Reject (Some "review channel closed").

(** The control plane decides on what was forwarded to it.  The ids of items are
    the caller's to choose: those of the proxy are fresh, those of codex need not
    be, so the steps take as [admits] the ids a call may come with. *)
Definition shown (id : string) (g : Gate) : Prop := ∃ item, Upsert item ∈ events (store g) ∧ ri_id item = id.
Definition fresh_id (id : string) (g : Gate) : Prop := ∀ p, p ∈ prompts g → p_id p ≠ id.

Definition any_id (id : string) (g : Gate) : Prop := True.

Section gate.
Context {admits : string → Gate → Prop}.

Inductive gate_step : Gate → Gate → Prop :=
| StepSkip item g :
    enabled (store g) = false → admits (ri_id item) g →
    gate_step g (mkGate (store g) (prompts g ++ [mkPrompt item (PReturned approve) None]) (deciders g))
| StepPrompt item g :
    enabled (store g) = true → admits (ri_id item) g →
    let s := next_sequence (store g) in
    gate_step g (mkGate s (prompts g ++ [mkPrompt (numbered_item (rs_sequence s) item) PNumbered None]) (deciders g))
| StepWaiter i p g :
    prompts g !! i = Some p → p_phase p = PNumbered →
    gate_step g (mkGate (set_waiters <[p_id p := i]> (store g)) (upd_prompt i PWaiter p g) (deciders g))
| StepList i p g :
    prompts g !! i = Some p → p_phase p = PWaiter →
    gate_step g (mkGate (set_items <[p_id p := p_item p]> (store g)) (upd_prompt i PListed p g) (deciders g))
| StepUpsert i p g :
    prompts g !! i = Some p → p_phase p = PListed →
    gate_step g (mkGate (forward (Upsert (p_item p)) (store g)) (upd_prompt i PWaiting p g) (deciders g))
| StepReceive i p d g :
    prompts g !! i = Some p → p_phase p = PWaiting → p_value p = Some d →
    gate_step g (mkGate (store g) (upd_prompt i (PReturned d) p g) (deciders g))
| StepElapsed i p g :
    prompts g !! i = Some p → p_phase p = PWaiting → timeout (store g) ≠ None →
    gate_step g (mkGate (store g) (upd_prompt i (PDiscard 0 approve) p g) (deciders g))
| StepClosed i p g :
    prompts g !! i = Some p → p_phase p = PWaiting → p_value p = None → ¬ sender_alive g i p →
    gate_step g (mkGate (store g) (upd_prompt i (PDiscard 0 channel_closed) p g) (deciders g))
| StepDiscard i p stage d g :
    prompts g !! i = Some p → p_phase p = PDiscard stage d →
    gate_step g (mkGate (discard stage (p_id p) (store g)) (upd_prompt i (discarding stage d) p g) (deciders g))
| StepCancel i p g :
    prompts g !! i = Some p → (∀ d, p_phase p ≠ PReturned d) →
    gate_step g (mkGate (store g) (upd_prompt i PCancelled p g) (deciders g))
| StepDecide id d i g :
    waiters (store g) !! id = Some i → shown id g →
    gate_step g (mkGate (set_waiters (delete id) (store g)) (prompts g) (deciders g ++ [mkDecider i id d DTaken]))
| StepUnlist j d g :
    deciders g !! j = Some d → d_stage d = DTaken →
    gate_step g (mkGate (set_items (delete (d_id d)) (store g)) (prompts g) (upd_decider j DUnlisted d g))
| StepRemoved j d g :
    deciders g !! j = Some d → d_stage d = DUnlisted →
    gate_step g (mkGate (forward (Remove (d_id d)) (store g)) (prompts g) (upd_decider j DForwarded d g))
| StepSend j d p g :
    deciders g !! j = Some d → d_stage d = DForwarded → prompts g !! d_prompt d = Some p →
    gate_step g (mkGate (store g)
      (if receiver_alive p then <[d_prompt d := with_value (d_decision d) p]> (prompts g) else prompts g)
      (upd_decider j (DDone (receiver_alive p)) d g)).
End gate.
Arguments gate_step admits _ _ : clear implicits.
