(* ===== verification/ReviewInv.v ===== *)
(** * What the review gate keeps (crates/omniagent-cli/src/review.rs)

    The calls of [Review] share nothing but the maps, where each has its own
    entries: the invariant speaks of one call, of what it can see of the rest. *)
From stdpp Require Import relations.
From S2P Require Import Prelude Str Json Record Review.

(** ** What one call sees *)

Record View : Type := mkView {
  v_phase : Phase; v_value : option ReviewDecision; v_waiter : option nat; v_listed : bool;
  v_decisions : list (ReviewDecision * Stage);
  v_events : list bool;                        (* [true] for its [Upsert] *)
}.

Definition decisions_of (i : nat) (l : list Decider) : list (ReviewDecision * Stage) :=
  omap (λ d, if decide (d_prompt d = i) then Some (d_decision d, d_stage d) else None) l.

Definition event_of (id : string) (e : ReviewEvent) : option bool :=
  match e with
  | Upsert item => if decide (ri_id item = id) then Some true else None
  | Remove id' => if decide (id' = id) then Some false else None
  end.

Definition events_of (id : string) (l : list ReviewEvent) : list bool := omap (event_of id) l.

Arguments decisions_of : simpl never.
Arguments events_of : simpl never.

Definition view (g : Gate) (i : nat) (p : Prompt) : View :=
  mkView (p_phase p) (p_value p) (waiters (store g) !! p_id p) (bool_decide (items (store g) !! p_id p ≠ None))
    (decisions_of i (deciders g)) (events_of (p_id p) (events (store g))).

(** ** What it may see *)

Definition decision_ok (v : View) : Prop :=
  match v_decisions v with
  | [] => v_value v = None
  | [(d, st)] =>
      v_waiter v = None ∧
      (match v_phase v with PWaiting | PDiscard _ _ | PReturned _ | PCancelled => True | _ => False end) ∧
      match st with
      | DTaken => v_value v = None
      | DUnlisted => v_value v = None ∧ v_listed v = false
      | DForwarded => v_value v = None ∧ v_listed v = false ∧ false ∈ v_events v
      | DDone ok => v_listed v = false ∧ false ∈ v_events v ∧ v_value v = (if ok then Some d else None) ∧
          (ok = false → v_phase v ≠ PWaiting)
      end
  | _ => False
  end.

Definition phase_ok (t : option Z) (i : nat) (v : View) : Prop :=
  match v_phase v with
  | PNumbered => v_waiter v = None ∧ v_listed v = false ∧ v_events v = []
  | PWaiter => v_waiter v = Some i ∧ v_listed v = false ∧ v_events v = []
  | PListed => v_waiter v = Some i ∧ v_events v = []
  | PWaiting => head (v_events v) = Some true ∧ (v_waiter v = Some i ∨ v_decisions v ≠ [])
  | PDiscard stage d => head (v_events v) = Some true ∧ d = approve ∧ t ≠ None ∧ (stage ≤ 2)%nat ∧
      (stage ≠ 0%nat → v_waiter v = None) ∧ (stage = 2%nat → v_listed v = false)
  | PReturned d => head (v_events v) = Some true ∧ false ∈ v_events v ∧ v_waiter v = None ∧ v_listed v = false ∧
      ((t ≠ None ∧ d = approve) ∨ v_decisions v = [(d, DDone true)])
  | PCancelled => True
  end.

Definition view_ok (t : option Z) (i : nat) (v : View) : Prop :=
  (v_waiter v = None ∨ v_waiter v = Some i) ∧ decision_ok v ∧ phase_ok t i v.

Record gate_ok (g : Gate) : Prop := mkGateOk {
  ok_ids : ∀ i j p q, prompts g !! i = Some p → prompts g !! j = Some q → p_id p = p_id q → i = j;
  ok_waiters : ∀ id i, waiters (store g) !! id = Some i → ∃ p, prompts g !! i = Some p ∧ p_id p = id;
  ok_items : ∀ id, items (store g) !! id ≠ None → ∃ i p, prompts g !! i = Some p ∧ p_id p = id;
  ok_events : ∀ id, events_of id (events (store g)) ≠ [] → ∃ i p, prompts g !! i = Some p ∧ p_id p = id;
  ok_deciders : ∀ j d, deciders g !! j = Some d → ∃ p, prompts g !! d_prompt d = Some p ∧ p_id p = d_id d;
  ok_views : ∀ i p, prompts g !! i = Some p → view_ok (timeout (store g)) i (view g i p);
}.

(** A step of the call [k]: it changes its own entries only. *)
Lemma local_ok g g' k p p' : gate_ok g → prompts g !! k = Some p → p_id p' = p_id p →
  prompts g' = <[k := p']> (prompts g) → timeout (store g') = timeout (store g) →
  (∀ id, id ≠ p_id p → waiters (store g') !! id = waiters (store g) !! id ∧ items (store g') !! id = items (store g) !! id ∧
    events_of id (events (store g')) = events_of id (events (store g))) →
  (∀ i, i ≠ k → decisions_of i (deciders g') = decisions_of i (deciders g)) →
  (∀ j d, deciders g' !! j = Some d → (d_prompt d = k ∧ d_id d = p_id p) ∨ ∃ j d0, deciders g !! j = Some d0 ∧ d_prompt d = d_prompt d0 ∧ d_id d = d_id d0) →
  view_ok (timeout (store g)) k (view g' k p') → gate_ok g'.
Proof.
  intros [Hids Hw Hi He Hd Hv] Hp Hid Hps Ht Hframe Hds Hdec Hview.
  pose proof (lookup_lt_Some _ _ _ Hp) as Hlt.
  assert (Hk : prompts g' !! k = Some p') by (by rewrite Hps list_lookup_insert_eq).
  assert (Hne : ∀ i, i ≠ k → prompts g' !! i = prompts g !! i) by (intros i Hi'; rewrite Hps list_lookup_insert_ne; congruence).
  assert (Hback : ∀ i q, prompts g' !! i = Some q → ∃ q0, prompts g !! i = Some q0 ∧ p_id q = p_id q0).
  { intros i q. destruct (decide (i = k)) as [-> |?]; [|rewrite Hne //; eauto]. rewrite Hk. intros [= <-]. eauto. }
  assert (Hfwd : ∀ i q, prompts g !! i = Some q → ∃ q', prompts g' !! i = Some q' ∧ p_id q' = p_id q).
  { intros i q. destruct (decide (i = k)) as [-> |?]; [|rewrite -Hne //; eauto]. rewrite Hp. intros [= <-]. eauto. }
  split.
  - intros i j q r (q0 & Hq & ->)%Hback (r0 & Hr & ->)%Hback. by apply Hids.
  - intros id i Hwi. destruct (decide (id = p_id p)) as [-> |Hx].
    + destruct Hview as [[Hn|Hs] _]; cbn in *; rewrite Hid Hwi in Hn || rewrite Hid Hwi in Hs; [done|]. simplify_eq. eauto.
    + destruct (Hframe id Hx) as (Hwe & _ & _). rewrite Hwe in Hwi. apply Hw in Hwi as (q & Hq & <-). by apply Hfwd.
  - intros id Hit. destruct (decide (id = p_id p)) as [-> |Hx]; [eauto|].
    destruct (Hframe id Hx) as (_ & Hie & _). rewrite Hie in Hit. apply Hi in Hit as (i & q & Hq & <-).
    exists i. by apply Hfwd.
  - intros id Hev. destruct (decide (id = p_id p)) as [-> |Hx]; [eauto|].
    destruct (Hframe id Hx) as (_ & _ & Hee). rewrite Hee in Hev. apply He in Hev as (i & q & Hq & <-).
    exists i. by apply Hfwd.
  - intros j d [[-> ->]|(j0 & d0 & Hd0 & -> & ->)]%Hdec; [eauto|]. apply Hd in Hd0 as (q & Hq & <-). by apply Hfwd.
  - intros i q Hq. rewrite Ht. destruct (decide (i = k)) as [-> |Hx]; [by rewrite Hk in Hq; simplify_eq|].
    rewrite Hne // in Hq. assert (Hidq : p_id q ≠ p_id p) by (intros E; by apply Hx, (Hids i k q p)).
    destruct (Hframe _ Hidq) as (Hwe & Hie & Hee). unfold view. rewrite Hwe Hie Hee Hds //. by apply Hv.
Qed.

Lemma omap_none {A B} (f : A → option B) l : (∀ x, x ∈ l → f x = None) → omap f l = [].
Proof. induction l as [|x l IH]; [done|]. intros H. cbn. rewrite (H x); [by left|]. apply IH. intros y ?. apply H. by right. Qed.

(** A new call: nothing has its id yet. *)
Lemma new_ok g s p : gate_ok g → fresh_id (p_id p) g → p_phase p = PNumbered → p_value p = None →
  waiters s = waiters (store g) → items s = items (store g) → events s = events (store g) →
  timeout s = timeout (store g) → gate_ok (mkGate s (prompts g ++ [p]) (deciders g)).
Proof.
  intros [Hids Hw Hi He Hd Hv] Hfresh Hph Hval Ews Eit Eev Et.
  assert (Hold : ∀ i q, prompts g !! i = Some q → p_id q ≠ p_id p) by (intros i q Hq; exact (Hfresh q (list_elem_of_lookup_2 _ _ _ Hq))).
  assert (Hfwd : ∀ i q, prompts g !! i = Some q → (prompts g ++ [p])%list !! i = Some q) by (intros; by apply lookup_app_l_Some).
  assert (Hcase : ∀ i q, (prompts g ++ [p])%list !! i = Some q → prompts g !! i = Some q ∨ (i = length (prompts g) ∧ q = p)).
  { intros i q [?|[Hle [Hz <-]%list_lookup_singleton_Some]]%lookup_app_Some; [by left|]. right. split; [lia|done]. }
  split; cbn; rewrite ?Ews ?Eit ?Eev ?Et.
  - intros i j q r [Hq|[-> ->]]%Hcase [Hr|[-> ->]]%Hcase E; [exact (Hids i j q r Hq Hr E)|by destruct (Hold i q Hq)|by destruct (Hold j r Hr)|done].
  - intros id i (q & Hq & <-)%Hw. eauto.
  - intros id (i & q & Hq & <-)%Hi. eauto.
  - intros id (i & q & Hq & <-)%He. eauto.
  - intros j d (q & Hq & <-)%Hd. eauto.
  - assert (Hview : ∀ i q, view (mkGate s (prompts g ++ [p]) (deciders g)) i q = view g i q).
    { intros. unfold view. cbn. by rewrite Ews Eit Eev. }
    intros i q [Hq|[-> ->]]%Hcase; rewrite Hview; [by apply Hv|].
    assert (Hwn : waiters (store g) !! p_id p = None).
    { destruct (waiters (store g) !! p_id p) as [i|] eqn:E; [|done]. destruct (Hw _ _ E) as (q & Hq & ?). by destruct (Hold i q Hq). }
    assert (Hin : items (store g) !! p_id p = None).
    { destruct (decide (items (store g) !! p_id p = None)) as [|E]; [done|]. destruct (Hi _ E) as (i & q & Hq & ?). by destruct (Hold i q Hq). }
    assert (Hen : events_of (p_id p) (events (store g)) = []).
    { destruct (decide (events_of (p_id p) (events (store g)) = [])) as [|E]; [done|]. destruct (He _ E) as (i & q & Hq & ?). by destruct (Hold i q Hq). }
    assert (Hdn : decisions_of (length (prompts g)) (deciders g) = []).
    { unfold decisions_of. apply omap_none. intros d [j Hj]%list_elem_of_lookup. case_decide as E; [|done].
      destruct (Hd _ _ Hj) as (q & Hq%lookup_lt_Some & _). lia. }
    unfold view. rewrite Hwn Hin Hen Hdn Hph Hval. split_and!; [by left|done|]. by split_and!.
Qed.

Lemma decisions_of_snoc i l d : decisions_of i (l ++ [d]) =
  (decisions_of i l ++ if decide (d_prompt d = i) then [(d_decision d, d_stage d)] else [])%list.
Proof. unfold decisions_of. rewrite omap_app /=. by case_decide. Qed.

Lemma decisions_of_insert i j l d st : l !! j = Some d →
  if decide (d_prompt d = i)
  then ∃ l1 l2, decisions_of i l = (l1 ++ (d_decision d, d_stage d) :: l2)%list ∧
    decisions_of i (<[j := at_stage st d]> l) = (l1 ++ (d_decision d, st) :: l2)%list
  else decisions_of i (<[j := at_stage st d]> l) = decisions_of i l.
Proof.
  intros Hj. pose proof (lookup_lt_Some _ _ _ Hj) as Hlt. rewrite insert_take_drop // -{1 6}(take_drop_middle l j d Hj).
  unfold decisions_of. rewrite !omap_app /=. case_decide; [eauto|done].
Qed.

Lemma events_of_snoc id l e : events_of id (l ++ [e]) = (events_of id l ++ match event_of id e with Some b => [b] | None => [] end)%list.
Proof. unfold events_of. rewrite omap_app /=. by destruct (event_of id e). Qed.

(** The frame of a step that changes the entries of [p_id p] only. *)
Ltac frame := let x := fresh "id" in let H := fresh "Hne" in intros x H; cbn; repeat (rewrite lookup_insert_ne; [congruence|]);
  repeat (rewrite lookup_delete_ne; [congruence|]); rewrite ?events_of_snoc; cbn;
  try (rewrite decide_False; [unfold p_id in *; congruence|]); by rewrite ?app_nil_r.

Lemma p_id_in_phase ph p : p_id (in_phase ph p) = p_id p.
Proof. done. Qed.

Ltac own_view Hg Hi Hph := destruct (ok_views _ Hg _ _ Hi) as (Hw & Hd & Hp);
  unfold decision_ok, phase_ok, view in Hw, Hd, Hp; cbn in Hw, Hd, Hp; rewrite Hph in Hd Hp;
  unfold view_ok, decision_ok, phase_ok, view; cbn; rewrite ?p_id_in_phase.

Lemma prompt_side g i p ph s : gate_ok g → prompts g !! i = Some p → timeout s = timeout (store g) →
  (∀ id, id ≠ p_id p → waiters s !! id = waiters (store g) !! id ∧ items s !! id = items (store g) !! id ∧
    events_of id (events s) = events_of id (events (store g))) →
  view_ok (timeout (store g)) i (view (mkGate s (upd_prompt i ph p g) (deciders g)) i (in_phase ph p)) →
  gate_ok (mkGate s (upd_prompt i ph p g) (deciders g)).
Proof.
  intros Hg Hi Ht Hframe Hview. eapply (local_ok g _ i p (in_phase ph p)); try done.
  intros j d Hj. right. eauto.
Qed.

Lemma waiter_ok g i p : gate_ok g → prompts g !! i = Some p → p_phase p = PNumbered →
  gate_ok (mkGate (set_waiters <[p_id p := i]> (store g)) (upd_prompt i PWaiter p g) (deciders g)).
Proof.
  intros Hg Hi Hph. apply prompt_side; [done..|frame|]. own_view Hg Hi Hph.
  rewrite lookup_insert_eq. destruct Hp as (_ & ? & ?). split_and!; [by right| |done..].
  destruct (decisions_of i (deciders g)) as [|[d st] [|]]; [done|by destruct Hd as (_ & [] & _)|done].
Qed.

Lemma list_ok g i p : gate_ok g → prompts g !! i = Some p → p_phase p = PWaiter →
  gate_ok (mkGate (set_items <[p_id p := p_item p]> (store g)) (upd_prompt i PListed p g) (deciders g)).
Proof.
  intros Hg Hi Hph. apply prompt_side; [done..|frame|]. own_view Hg Hi Hph.
  destruct Hp as (? & ? & ?). split_and!; [done| |done..].
  destruct (decisions_of i (deciders g)) as [|[d st] [|]]; [done|by destruct Hd as (_ & [] & _)|done].
Qed.

Lemma upsert_ok g i p : gate_ok g → prompts g !! i = Some p → p_phase p = PListed →
  gate_ok (mkGate (forward (Upsert (p_item p)) (store g)) (upd_prompt i PWaiting p g) (deciders g)).
Proof.
  intros Hg Hi Hph. apply prompt_side; [done..|frame|]. own_view Hg Hi Hph.
  destruct Hp as (? & Hev). rewrite events_of_snoc Hev /= decide_True //. split_and!; [done| |done|by left].
  destruct (decisions_of i (deciders g)) as [|[d st] [|]]; [done|by destruct Hd as (_ & [] & _)|done].
Qed.

Lemma receive_ok g i p d : gate_ok g → prompts g !! i = Some p → p_phase p = PWaiting → p_value p = Some d →
  gate_ok (mkGate (store g) (upd_prompt i (PReturned d) p g) (deciders g)).
Proof.
  intros Hg Hi Hph Hval. apply prompt_side; [done..|by intros|]. own_view Hg Hi Hph.
  destruct Hp as (? & _). rewrite Hval in Hd. split; [done|].
  destruct (decisions_of i (deciders g)) as [|[d' st] [|]]; [done| |done].
  destruct Hd as (? & _ & Hst). destruct st as [| | |[]]; try naive_solver.
Qed.

Lemma elapsed_ok g i p : gate_ok g → prompts g !! i = Some p → p_phase p = PWaiting → timeout (store g) ≠ None →
  gate_ok (mkGate (store g) (upd_prompt i (PDiscard 0 approve) p g) (deciders g)).
Proof.
  intros Hg Hi Hph Ht. apply prompt_side; [done..|by intros|]. own_view Hg Hi Hph.
  destruct Hp as (? & _). split; [done|]. split; [|split_and!; try done; lia].
  destruct (decisions_of i (deciders g)) as [|[d' st] [|]]; [done| |done].
  destruct Hd as (? & _ & Hst). split_and!; [done..|]. destruct st as [| | |ok]; try done. naive_solver.
Qed.

Lemma discard_ok g i p stage d : gate_ok g → prompts g !! i = Some p → p_phase p = PDiscard stage d →
  gate_ok (mkGate (discard stage (p_id p) (store g)) (upd_prompt i (discarding stage d) p g) (deciders g)).
Proof.
  intros Hg Hi Hph. destruct stage as [|[|stage]]; apply prompt_side; try done; try frame; own_view Hg Hi Hph;
    destruct Hp as (Hev & -> & Ht & Hst & Hs0 & Hs2).
  - rewrite lookup_delete_eq. split; [by left|]. split; [|split_and!; try done; lia].
    destruct (decisions_of i (deciders g)) as [|[d' st] [|]]; [done| |done].
    destruct Hd as (? & _ & Hd). split_and!; [done..|]. destruct st; naive_solver.
  - rewrite lookup_delete_eq. split; [done|]. split; [|split_and!; try done; by intros; apply Hs0].
    destruct (decisions_of i (deciders g)) as [|[d' st] [|]]; [done| |done].
    destruct Hd as (? & _ & Hd). split_and!; [done..|]. destruct st; naive_solver.
  - rewrite events_of_snoc /= decide_True //. assert (Hin : false ∈ (events_of (p_id p) (events (store g)) ++ [false])%list).
    { apply elem_of_app. right. by constructor. }
    assert (stage = 0%nat) as -> by lia. split; [done|]. split.
    + destruct (decisions_of i (deciders g)) as [|[d' st] [|]]; [done| |done].
      destruct Hd as (? & _ & Hd). split_and!; [done..|]. destruct st; naive_solver.
    + split_and!; [by destruct (events_of _ _)|done|by apply Hs0|by apply Hs2|by left].
Qed.

Lemma cancel_ok g i p : gate_ok g → prompts g !! i = Some p → (∀ d, p_phase p ≠ PReturned d) →
  gate_ok (mkGate (store g) (upd_prompt i PCancelled p g) (deciders g)).
Proof.
  intros Hg Hi Hph. apply prompt_side; [done..|by intros|].
  destruct (ok_views _ Hg _ _ Hi) as (Hw & Hd & Hp). split; [done|]. split; [|done].
  unfold decision_ok, view in *. cbn in *. destruct (decisions_of i (deciders g)) as [|[d' st] [|]]; [done| |done].
  destruct Hd as (? & _ & Hd). split_and!; [done..|]. destruct st; naive_solver.
Qed.

(** A step of a call of [decide]: the prompt itself stays. *)
Lemma decider_side g s j d p st : gate_ok g → deciders g !! j = Some d → prompts g !! d_prompt d = Some p →
  p_id p = d_id d → timeout s = timeout (store g) →
  (∀ id, id ≠ p_id p → waiters s !! id = waiters (store g) !! id ∧ items s !! id = items (store g) !! id ∧
    events_of id (events s) = events_of id (events (store g))) →
  ∀ p', p_id p' = p_id p →
  (decisions_of (d_prompt d) (deciders g) = [(d_decision d, d_stage d)] →
   decisions_of (d_prompt d) (upd_decider j st d g) = [(d_decision d, st)] →
   view_ok (timeout (store g)) (d_prompt d) (view (mkGate s (<[d_prompt d := p']> (prompts g)) (upd_decider j st d g)) (d_prompt d) p')) →
  gate_ok (mkGate s (<[d_prompt d := p']> (prompts g)) (upd_decider j st d g)).
Proof.
  intros Hg Hj Hp Hid Ht Hframe p' Hid' Hview. eapply (local_ok g _ (d_prompt d) p p'); try done.
  - intros i Hne. pose proof (decisions_of_insert i j _ d st Hj) as H.
    destruct (decide (d_prompt d = i)); [congruence|exact H].
  - intros k d'. unfold upd_decider. destruct (decide (j = k)) as [<-|Hne]; cbn.
    + rewrite list_lookup_insert_eq; [exact (lookup_lt_Some _ _ _ Hj)|]. intros [= <-]. by left.
    + rewrite list_lookup_insert_ne //. right. eauto.
  - pose proof (decisions_of_insert (d_prompt d) j _ d st Hj) as H. rewrite decide_True // in H.
    destruct H as (l1 & l2 & H1 & H2). destruct (ok_views _ Hg _ _ Hp) as (_ & Hd & _).
    unfold decision_ok, view in Hd. cbn in Hd. rewrite H1 in Hd.
    destruct l1 as [|[??] l1]; [|by destruct l1]. destruct l2; [|done]. by apply Hview.
Qed.

Lemma decide_ok g id d i : gate_ok g → waiters (store g) !! id = Some i → shown id g →
  gate_ok (mkGate (set_waiters (delete id) (store g)) (prompts g) (deciders g ++ [mkDecider i id d DTaken])).
Proof.
  intros Hg Hw (item & Hin & Hitem). destruct (ok_waiters _ Hg _ _ Hw) as (p & Hp & <-).
  eapply (local_ok g _ i p p); try done; [by rewrite list_insert_id|frame| | |].
  - intros k Hne. rewrite decisions_of_snoc /= decide_False; [congruence|]. by rewrite app_nil_r.
  - intros k d' [Hk|[_ [_ <-]%list_lookup_singleton_Some]]%lookup_app_Some; [right; eauto|by left].
  - destruct (ok_views _ Hg _ _ Hp) as (_ & Hd & Hph). unfold view_ok, decision_ok, phase_ok, view in *. cbn in *.
    rewrite lookup_delete_eq decisions_of_snoc /= decide_True //. split; [by left|].
    assert (Hev : true ∈ events_of (p_id p) (events (store g))).
    { apply list_elem_of_omap. exists (Upsert item). by rewrite /= decide_True. }
    assert (decisions_of i (deciders g) = []) as E.
    { destruct (decisions_of i (deciders g)) as [|[d' st] [|]]; [done|destruct Hd as (? & _); congruence|done]. }
    rewrite E in Hd Hph |- *. cbn. destruct (p_phase p) as [| | | |stage d'|d'|].
    1-3: destruct_and?; match goal with E : events_of _ _ = [] |- _ => rewrite E in Hev; by apply elem_of_nil in Hev end.
    + destruct Hph. split_and!; try done. by right.
    + destruct Hph as (? & ? & ? & ? & Hs & ?). by split_and!.
    + destruct Hph as (_ & _ & ? & _). congruence.
    + done.
Qed.

Lemma unlist_ok g j d : gate_ok g → deciders g !! j = Some d → d_stage d = DTaken →
  gate_ok (mkGate (set_items (delete (d_id d)) (store g)) (prompts g) (upd_decider j DUnlisted d g)).
Proof.
  intros Hg Hj Hst. destruct (ok_deciders _ Hg _ _ Hj) as (p & Hp & Hid).
  rewrite -(list_insert_id (prompts g) (d_prompt d) p) //. rewrite -Hid.
  apply (decider_side g _ j d p); try done; [frame|]. intros E1 E2.
  destruct (ok_views _ Hg _ _ Hp) as (Hw & Hd & Hph). unfold view_ok, decision_ok, phase_ok, view in *. cbn in *.
  rewrite lookup_delete_eq E2. rewrite E1 Hst in Hd Hph. split; [done|]. split; [by destruct Hd as (? & ? & ?)|].
  destruct (p_phase p); naive_solver.
Qed.

Lemma removed_ok g j d : gate_ok g → deciders g !! j = Some d → d_stage d = DUnlisted →
  gate_ok (mkGate (forward (Remove (d_id d)) (store g)) (prompts g) (upd_decider j DForwarded d g)).
Proof.
  intros Hg Hj Hst. destruct (ok_deciders _ Hg _ _ Hj) as (p & Hp & Hid).
  rewrite -(list_insert_id (prompts g) (d_prompt d) p) //. rewrite -Hid.
  apply (decider_side g _ j d p); try done; [frame|]. intros E1 E2.
  destruct (ok_views _ Hg _ _ Hp) as (Hw & Hd & Hph). unfold view_ok, decision_ok, phase_ok, view in *. cbn in *.
  rewrite events_of_snoc /= decide_True // E2. rewrite E1 Hst in Hd Hph.
  assert (Hin : false ∈ (events_of (p_id p) (events (store g)) ++ [false])%list) by (apply elem_of_app; right; by constructor).
  assert (Hhd : head (events_of (p_id p) (events (store g))) = Some true →
    head (events_of (p_id p) (events (store g)) ++ [false])%list = Some true) by (by destruct (events_of _ _)).
  split; [done|]. destruct Hd as (? & Hal & ? & ?). split; [done|]. destruct (p_phase p); naive_solver.
Qed.

Lemma send_ok g j d p : gate_ok g → deciders g !! j = Some d → d_stage d = DForwarded → prompts g !! d_prompt d = Some p →
  gate_ok (mkGate (store g)
    (if receiver_alive p then <[d_prompt d := with_value (d_decision d) p]> (prompts g) else prompts g)
    (upd_decider j (DDone (receiver_alive p)) d g)).
Proof.
  intros Hg Hj Hst Hp. destruct (ok_deciders _ Hg _ _ Hj) as (q & Hq & Hid). simplify_eq.
  destruct (ok_views _ Hg _ _ Hp) as (Hw & Hd & Hph). unfold decision_ok, phase_ok, view in Hw, Hd, Hph. cbn in Hw, Hd, Hph.
  destruct (receiver_alive p) eqn:Ha.
  - apply (decider_side g _ j d p); try done. intros E1 E2. unfold view_ok, decision_ok, phase_ok, view. cbn.
    rewrite E2. rewrite E1 Hst in Hd Hph. unfold receiver_alive in Ha. destruct (p_phase p); naive_solver.
  - rewrite -(list_insert_id (prompts g) (d_prompt d) p) //. apply (decider_side g _ j d p); try done.
    intros E1 E2. unfold view_ok, decision_ok, phase_ok, view. cbn. rewrite E2. rewrite E1 Hst in Hd Hph.
    unfold receiver_alive in Ha. destruct (p_phase p); naive_solver.
Qed.

(** ** All steps *)

Lemma decisions_of_some i l d st : (d, st) ∈ decisions_of i l → ∃ j dd, l !! j = Some dd ∧ d_prompt dd = i ∧ d_decision dd = d ∧ d_stage dd = st.
Proof.
  intros (dd & [j Hj]%list_elem_of_lookup & Hd)%list_elem_of_omap. case_decide; [|done]. simplify_eq. eauto 6.
Qed.

Lemma decisions_of_app i l1 l2 : decisions_of i (l1 ++ l2) = (decisions_of i l1 ++ decisions_of i l2)%list.
Proof. apply omap_app. Qed.

Lemma decisions_of_cons d l : decisions_of (d_prompt d) (d :: l) = (d_decision d, d_stage d) :: decisions_of (d_prompt d) l.
Proof. unfold decisions_of. cbn. by rewrite decide_True. Qed.

Lemma decisions_of_unique i l j k d d' : (length (decisions_of i l) ≤ 1)%nat → l !! j = Some d → l !! k = Some d' →
  d_prompt d = i → d_prompt d' = i → j = k.
Proof.
  intros Hlen Hj Hk Hd Hd'. destruct (decide (j = k)) as [|Hne]; [done|]. exfalso.
  assert (Htwo : ∀ j k d d', (j < k)%nat → l !! j = Some d → l !! k = Some d' → d_prompt d = i → d_prompt d' = i → False).
  { clear -Hlen. intros j k d d' Hlt Hj Hk Hd Hd'. rewrite -(take_drop_middle l j d Hj) in Hlen.
    assert (Hk' : drop (S j) l !! (k - S j)%nat = Some d') by (rewrite lookup_drop -Hk; f_equal; lia).
    rewrite -(take_drop_middle _ _ _ Hk') in Hlen. subst i.
    rewrite decisions_of_app decisions_of_cons decisions_of_app -Hd' decisions_of_cons in Hlen.
    rewrite !length_app in Hlen. cbn in Hlen. rewrite length_app in Hlen. cbn in Hlen. lia. }
  destruct (decide (j < k)%nat); [by apply (Htwo j k d d')|]. apply (Htwo k j d' d); [lia|done..].
Qed.

Lemma decisions_length g i p : gate_ok g → prompts g !! i = Some p → (length (decisions_of i (deciders g)) ≤ 1)%nat.
Proof.
  intros Hg Hi. destruct (ok_views _ Hg _ _ Hi) as (_ & Hd & _). unfold decision_ok, view in Hd. cbn in Hd.
  destruct (decisions_of i (deciders g)) as [|[??] [|]]; cbn; [lia|lia|done].
Qed.

Lemma not_closed g i p : gate_ok g → prompts g !! i = Some p → p_phase p = PWaiting → p_value p = None → sender_alive g i p.
Proof.
  intros Hg Hi Hph Hval. destruct (ok_views _ Hg _ _ Hi) as (_ & Hd & Hp).
  unfold decision_ok, phase_ok, view in Hd, Hp. cbn in Hd, Hp. rewrite Hph Hval in Hd Hp.
  destruct Hp as (_ & [Hw|Hne]); [by left|right].
  destruct (decisions_of i (deciders g)) as [|[d st] [|]] eqn:E; [done| |done].
  destruct (decisions_of_some i (deciders g) d st) as (j & dd & Hj & Hi' & Hdd & Hst); [rewrite E; by constructor|].
  exists j, dd. split_and!; [done..|]. intros [ok Hok]. rewrite Hok in Hst. subst st.
  destruct Hd as (_ & _ & _ & _ & Hv & Hw). destruct ok; [done|]. by apply Hw.
Qed.

Lemma gate_step_ok g g' : enabled (store g) = true → gate_ok g → gate_step fresh_id g g' →
  gate_ok g' ∧ enabled (store g') = true ∧ timeout (store g') = timeout (store g).
Proof.
  intros Hen Hg Hs. destruct Hs as [|item g|i p g|i p g|i p g|i p d g|i p g|i p g|i p stage d g|i p g|id d i g|j d g|j d g|j d p g];
    try (split; [|done]).
  - congruence.
  - by apply new_ok.
  - by apply waiter_ok.
  - by apply list_ok.
  - by apply upsert_ok.
  - by apply receive_ok.
  - by apply elapsed_ok.
  - exfalso. eauto using not_closed.
  - split; [by apply discard_ok|]. by destruct stage as [|[|]].
  - by apply cancel_ok.
  - by apply decide_ok.
  - by apply unlist_ok.
  - by apply removed_ok.
  - by apply send_ok.
Qed.

Lemma gate_new_ok t : gate_ok (Gate_new true t).
Proof. by split. Qed.

Lemma gate_reach t g : rtc (gate_step fresh_id) (Gate_new true t) g → gate_ok g ∧ enabled (store g) = true ∧ timeout (store g) = t.
Proof.
  apply (rtc_ind_r (λ g, gate_ok g ∧ enabled (store g) = true ∧ timeout (store g) = t) (Gate_new true t)).
  - by split; [apply gate_new_ok|].
  - intros g1 g2 _ Hs (Hg & Hen & <-). by apply gate_step_ok.
Qed.

(** Without review nothing is ever listed, and every call approves at once. *)
Record gate_off (g : Gate) : Prop := mkGateOff {
  off_enabled : enabled (store g) = false;
  off_waiters : waiters (store g) = ∅;
  off_items : items (store g) = ∅;
  off_deciders : deciders g = [];
  off_prompts : ∀ p, p ∈ prompts g → p_phase p = PReturned approve;
}.

Lemma gate_off_step {admits} g g' : gate_off g → gate_step admits g g' → gate_off g'.
Proof.
  intros [Hen Hw Hi Hd Hp] Hs.
  assert (Hph : ∀ i p, prompts g !! i = Some p → p_phase p = PReturned approve) by (intros i p H; exact (Hp p (list_elem_of_lookup_2 _ _ _ H))).
  destruct Hs as [item g|item g|i p g Hi'|i p g Hi'|i p g Hi'|i p d g Hi'|i p g Hi'|i p g Hi'|i p stage d g Hi'|i p g Hi' Hn
    |id d i g Hi'|j d g Hj|j d g Hj|j d p g Hj]; try congruence; try (specialize (Hph _ _ Hi'); congruence);
    try (rewrite Hd in Hj; done).
  - split; cbn; try done. intros p [?| ->%list_elem_of_singleton]%elem_of_app; [by apply Hp|done].
  - by rewrite Hw lookup_empty in Hi'.
Qed.

Lemma gate_off_reach {admits} t g : rtc (gate_step admits) (Gate_new false t) g → gate_off g.
Proof.
  apply (rtc_ind_r gate_off (Gate_new false t)).
  - split; [done..|by intros p ?%elem_of_nil].
  - intros g1 g2 _ Hs Hg. exact (gate_off_step _ _ Hg Hs).
Qed.

Lemma upsert_then_remove id l : head (events_of id l) = Some true → false ∈ events_of id l →
  ∃ before item after, l = (before ++ Upsert item :: after)%list ∧ ri_id item = id ∧ Remove id ∈ after.
Proof.
  induction l as [|e l IH]; [done|]. unfold events_of. cbn. destruct (event_of id e) as [b|] eqn:He; cbn.
  - intros [= ->]. destruct e as [item|id']; cbn in He; case_decide; simplify_eq. intros Hin.
    exists [], item, l. split_and!; [done..|]. apply elem_of_cons in Hin as [?|Hin]; [done|].
    apply list_elem_of_omap in Hin as ([item'|id'] & Hin & He'); cbn in He'; case_decide; simplify_eq. done.
  - intros Hh Hin. destruct (IH Hh Hin) as (before & item & after & -> & ? & ?). by exists (e :: before), item, after.
Qed.

(** What a call returned, with review on. *)
Lemma returned_decided g i p d : gate_ok g → prompts g !! i = Some p → p_phase p = PReturned d →
  ((timeout (store g) ≠ None ∧ d = approve) ∨ decisions_of i (deciders g) = [(d, DDone true)]) ∧
  waiters (store g) !! p_id p = None ∧ items (store g) !! p_id p = None ∧
  ∃ before item after, events (store g) = (before ++ Upsert item :: after)%list ∧ ri_id item = p_id p ∧ Remove (p_id p) ∈ after.
Proof.
  intros Hg Hi Hph. destruct (ok_views _ Hg _ _ Hi) as (_ & _ & Hp). unfold phase_ok, view in Hp. cbn in Hp.
  rewrite Hph in Hp. destruct Hp as (Hhd & Hin & Hw & Hl & Hd). split_and!; [done|done| |by apply upsert_then_remove].
  destruct (items (store g) !! p_id p); [|done]. by rewrite bool_decide_true in Hl.
Qed.

(** A call that returned stays as it is. *)
Lemma returned_stays {admits} g g' i p d : gate_step admits g g' → prompts g !! i = Some p → p_phase p = PReturned d → prompts g' !! i = Some p.
Proof.
  intros Hs Hi Hp. destruct Hs as [item g _ _|item g _ _ s|k q g Hk Hq|k q g Hk Hq|k q g Hk Hq|k q e g Hk Hq _|k q g Hk Hq _|k q g Hk Hq _ _|
    k q st e g Hk Hq|k q g Hk Hq|id e k g _ _|j e g _ _|j e g _ _|j e q g _ _ Hk]; cbn [prompts]; try done.
  all: try (by apply lookup_app_l_Some).
  all: try (unfold upd_prompt; destruct (decide (k = i)) as [->|]; [|by rewrite list_lookup_insert_ne];
    rewrite Hi in Hk; injection Hk as <-; first [by rewrite Hp in Hq|by destruct (Hq d)]).
  destruct (receiver_alive q) eqn:Ha; [|done]. destruct (decide (d_prompt e = i)) as [E|]; [|by rewrite list_lookup_insert_ne].
  rewrite E Hi in Hk. injection Hk as <-. unfold receiver_alive in Ha. by rewrite Hp in Ha.
Qed.

(** The calls keep their place and their item's id. *)
Lemma prompt_keeps_id {admits} g g' i p : gate_step admits g g' → prompts g !! i = Some p → ∃ p', prompts g' !! i = Some p' ∧ p_id p' = p_id p.
Proof.
  intros Hs Hi. pose proof (lookup_lt_Some _ _ _ Hi) as Hlt. destruct Hs as [item g _ _|item g _ _ s|k q g Hk Hq|k q g Hk Hq|k q g Hk Hq|k q e g Hk Hq _|k q g Hk Hq _|k q g Hk Hq _ _|
    k q st e g Hk Hq|k q g Hk Hq|id e k g _ _|j e g _ _|j e g _ _|j e q g _ _ Hk]; cbn [prompts]; try by exists p.
  all: try (exists p; split; [by apply lookup_app_l_Some|done]).
  all: try (unfold upd_prompt; destruct (decide (k = i)) as [->|]; [|exists p; by rewrite list_lookup_insert_ne];
    rewrite Hi in Hk; injection Hk as <-; eexists; split; [by apply list_lookup_insert_eq|done]).
  destruct (receiver_alive q); [|by exists p]. destruct (decide (d_prompt e = i)) as [E|]; [|exists p; by rewrite list_lookup_insert_ne].
  rewrite E Hi in Hk. injection Hk as <-. rewrite E. eexists. split; [by apply list_lookup_insert_eq|done].
Qed.

(** C8. Where every item has an id of its own, as those of the proxy have: with
    review on, a call of [prompt] returns what a person decided on its item, or
    approves where a window is set, and the gate is then done with it: no entry is
    left of it and its removal was forwarded after it was shown. An item is decided
    on at most once. With review off every call approves. *)
Theorem review_decides (b : bool) (t : option Z) (g : Gate) : rtc (gate_step fresh_id) (Gate_new b t) g →
  (∀ i p d, prompts g !! i = Some p → p_phase p = PReturned d →
    if b then
      ((t ≠ None ∧ d = approve) ∨ decisions_of i (deciders g) = [(d, DDone true)]) ∧
      waiters (store g) !! p_id p = None ∧ items (store g) !! p_id p = None ∧
      ∃ before item after, events (store g) = (before ++ Upsert item :: after)%list ∧ ri_id item = p_id p ∧ Remove (p_id p) ∈ after
    else d = approve) ∧
  (∀ j k d d', deciders g !! j = Some d → deciders g !! k = Some d' → d_id d = d_id d' → j = k) ∧
  (∀ id, items (store g) !! id ≠ None → ∃ i p, prompts g !! i = Some p ∧ p_id p = id ∧ ∀ d, p_phase p ≠ PReturned d).
Proof.
  intros Hr. destruct b.
  - apply gate_reach in Hr as (Hg & _ & <-). split_and!.
    + intros i p d. by apply returned_decided.
    + intros j k d d' Hj Hk E. destruct (ok_deciders _ Hg _ _ Hj) as (p & Hp & Hid).
      destruct (ok_deciders _ Hg _ _ Hk) as (q & Hq & Hid').
      pose proof (ok_ids _ Hg _ _ _ _ Hp Hq ltac:(congruence)) as Heq.
      apply (decisions_of_unique (d_prompt d) (deciders g) j k d d'); [exact (decisions_length _ _ _ Hg Hp)|done..|congruence].
    + intros id Hit. destruct (ok_items _ Hg _ Hit) as (i & p & Hi & <-). exists i, p. split_and!; [done..|].
      intros d Hph. destruct (ok_views _ Hg _ _ Hi) as (_ & _ & Hp). unfold phase_ok, view in Hp. cbn in Hp.
      rewrite Hph in Hp. destruct Hp as (_ & _ & _ & Hl & _). by rewrite bool_decide_true in Hl.
  - apply gate_off_reach in Hr as [_ _ Hi Hd Hp]. rewrite Hd Hi. split_and!; [|done|by intros id; rewrite lookup_empty].
    intros i p d Hip Hph. rewrite (Hp p (list_elem_of_lookup_2 _ _ _ Hip)) in Hph. congruence.
Qed.

(** ** Runs *)

Section example.
Definition demo_item : ReviewItem :=
  mkItem "r1" 0 ReviewResponse 1 Anthropic None "POST" "/v1/messages" false "" "" ∅ Null ∅ Null usage_default None None "" None.

Definition listed_item : ReviewItem := numbered_item 1 demo_item.

Definition demo_store (t : option Z) (its : gmap string ReviewItem) (ws : gmap string nat) (es : list ReviewEvent) : ReviewStore :=
  mkStore true t its 1 ws es.

Definition no : ReviewDecision := Reject (Some "no").

(** An item is shown. *)
Definition shown_gate (t : option Z) : Gate :=
  mkGate (demo_store t {["r1" := listed_item]} {["r1" := 0%nat]} [Upsert listed_item]) [mkPrompt listed_item PWaiting None] [].

Lemma shown_steps t : rtc (gate_step fresh_id) (Gate_new true t) (shown_gate t).
Proof.
  eapply rtc_l; [apply (StepPrompt demo_item); [done|by intros p ?%elem_of_nil]|].
  eapply rtc_l; [by apply (StepWaiter 0)|]. eapply rtc_l; [by apply (StepList 0)|].
  eapply rtc_l; [by apply (StepUpsert 0)|]. apply rtc_refl.
Qed.

(** It is decided on: the decision is in the channel. *)
Definition sent_gate (t : option Z) : Gate :=
  mkGate (demo_store t ∅ ∅ [Upsert listed_item; Remove "r1"]) [mkPrompt listed_item PWaiting (Some no)]
    [mkDecider 0 "r1" no (DDone true)].

Lemma sent_steps t : rtc (gate_step fresh_id) (shown_gate t) (sent_gate t).
Proof.
  eapply rtc_l; [apply (StepDecide "r1" no 0); [done|]|].
  { exists listed_item. split; [by constructor|done]. }
  eapply rtc_l; [by apply (StepUnlist 0)|]. eapply rtc_l; [by apply (StepRemoved 0)|].
  eapply rtc_l; [by apply (StepSend 0)|]. apply rtc_refl.
Qed.

Definition decided_gate : Gate :=
  mkGate (demo_store None ∅ ∅ [Upsert listed_item; Remove "r1"]) [mkPrompt listed_item (PReturned no) (Some no)]
    [mkDecider 0 "r1" no (DDone true)].

Lemma decided_steps : rtc (gate_step fresh_id) (Gate_new true None) decided_gate.
Proof.
  etrans; [apply shown_steps|]. etrans; [apply sent_steps|].
  eapply rtc_l; [by apply (StepReceive 0)|]. apply rtc_refl.
Qed.

Lemma review_decides_witness :
  decisions_of 0 (deciders decided_gate) = [(no, DDone true)] ∧ items (store decided_gate) !! "r1" = None.
Proof.
  destruct (review_decides true None decided_gate decided_steps) as (Hret & _).
  destruct (Hret 0%nat _ no eq_refl eq_refl) as ([[[] _]|Hd] & _ & Hi & _); done.
Defined.

(** The window of an item can end when a decision is already in the channel: a
    rejection that was accepted does not keep the answer back. *)
Example window_beats_decision : ∃ g p, rtc (gate_step fresh_id) (Gate_new true (Some 30%Z)) g ∧
  deciders g = [mkDecider 0 "r1" no (DDone true)] ∧ prompts g = [p] ∧ p_phase p = PReturned approve.
Proof.
  eexists _, _. split.
  - etrans; [apply shown_steps|]. etrans; [apply sent_steps|].
    eapply rtc_l; [by apply (StepElapsed 0)|]. eapply rtc_l; [by apply (StepDiscard 0 (mkPrompt listed_item (PDiscard 0 approve) (Some no)) 0 approve)|].
  eapply rtc_l; [by apply (StepDiscard 0 (mkPrompt listed_item (PDiscard 1 approve) (Some no)) 1 approve)|]. eapply rtc_l; [by apply (StepDiscard 0 (mkPrompt listed_item (PDiscard 2 approve) (Some no)) 2 approve)|]. apply rtc_refl.
  - done.
Qed.

(** The agent hangs up: the item stays, whatever the window is. *)
Example cancelled_stays_listed : ∃ g p, rtc (gate_step fresh_id) (Gate_new true (Some 30%Z)) g ∧
  prompts g = [p] ∧ p_phase p = PCancelled ∧ items (store g) !! "r1" = Some listed_item ∧
  ∀ id, Remove id ∉ events (store g).
Proof.
  eexists _, _. split.
  - etrans; [apply shown_steps|]. eapply rtc_l; [by apply (StepCancel 0)|]. apply rtc_refl.
  - split_and!; [done..|]. intros id. cbn. rewrite list_elem_of_singleton. done.
Qed.
End example.
