(* ===== verification/ReviewAny.v ===== *)
(** * The review gate, whatever the ids of its items

    [ReviewInv] is for items with ids of their own.  The ids of the approvals of
    codex are made from the numbers codex chooses and can meet: the entry of the
    later call then takes the place of the earlier one, whose channel closes, and a
    call that gives up takes what is in the maps under its id, whoever put it
    there.  What is left: a call is decided on at most once, under its own id and
    after an item with that id was shown. *)
From stdpp Require Import relations.
From S2P Require Import Prelude Str Json Record Review ReviewInv.

(** What lets a call return [d]: its window, its channel closed, or the decision
    on it. *)
Definition let_out (t : option Z) (g : Gate) (i : nat) (d : ReviewDecision) : Prop :=
  (t ≠ None ∧ d = approve) ∨ d = channel_closed ∨ decisions_of i (deciders g) = [(d, DDone true)].

Definition call_ok (g : Gate) (i : nat) (p : Prompt) : Prop :=
  (p_phase p = PNumbered → decisions_of i (deciders g) = []) ∧
  (length (decisions_of i (deciders g)) ≤ 1)%nat ∧
  (∀ d, p_value p = Some d → decisions_of i (deciders g) = [(d, DDone true)]) ∧
  (∀ d, p_phase p = PReturned d ∨ (∃ k, p_phase p = PDiscard k d) → let_out (timeout (store g)) g i d).

Record calls_ok (g : Gate) : Prop := mkCallsOk {
  calls_each : ∀ i p, prompts g !! i = Some p → call_ok g i p;
  calls_waiters : ∀ id i, waiters (store g) !! id = Some i →
    (∃ p, prompts g !! i = Some p ∧ p_id p = id ∧ p_phase p ≠ PNumbered) ∧ decisions_of i (deciders g) = [];
  calls_deciders : ∀ j d, deciders g !! j = Some d →
    (∃ p, prompts g !! d_prompt d = Some p ∧ p_id p = d_id d ∧ p_phase p ≠ PNumbered) ∧
    ∃ k q, prompts g !! k = Some q ∧ p_id q = d_id d ∧ Upsert (p_item q) ∈ events (store g);
  calls_events : ∀ item, Upsert item ∈ events (store g) → ∃ k q, prompts g !! k = Some q ∧ p_item q = item;
}.

Lemma decided_once g j d : calls_ok g → deciders g !! j = Some d → decisions_of (d_prompt d) (deciders g) = [(d_decision d, d_stage d)].
Proof.
  intros Hg Hj. destruct (calls_deciders _ Hg _ _ Hj) as ((p & Hp & _) & _). destruct (calls_each _ Hg _ _ Hp) as (_ & Hlen & _).
  pose proof (decisions_of_insert (d_prompt d) j (deciders g) d (d_stage d) Hj) as Hins. rewrite decide_True // in Hins.
  destruct Hins as (l1 & l2 & Hl & _). rewrite Hl length_app /= in Hlen. rewrite Hl. destruct l1, l2; cbn in *; try lia. done.
Qed.

(** A step of the call [i]. *)
Lemma calls_local g g' i p ph : calls_ok g → prompts g !! i = Some p → ph ≠ PNumbered →
  prompts g' = upd_prompt i ph p g → deciders g' = deciders g → timeout (store g') = timeout (store g) →
  (∀ id k, waiters (store g') !! id = Some k → waiters (store g) !! id = Some k ∨ k = i ∧ id = p_id p ∧ decisions_of i (deciders g) = []) →
  (∀ e, e ∈ events (store g) → e ∈ events (store g')) →
  (∀ item, Upsert item ∈ events (store g') → Upsert item ∈ events (store g) ∨ item = p_item p) →
  (∀ d, ph = PReturned d ∨ (∃ k, ph = PDiscard k d) → let_out (timeout (store g)) g i d) → calls_ok g'.
Proof.
  intros [He Hw Hd Hs] Hi Hph Eps Eds Et Ew Hev Hup Hlet. unfold upd_prompt in Eps. pose proof (lookup_lt_Some _ _ _ Hi) as Hlt.
  assert (Hat : prompts g' !! i = Some (in_phase ph p)) by (by rewrite Eps list_lookup_insert_eq).
  assert (Hne : ∀ k, k ≠ i → prompts g' !! k = prompts g !! k) by (intros; rewrite Eps list_lookup_insert_ne //; congruence).
  assert (Hfwd : ∀ k q, prompts g !! k = Some q → ∃ q', prompts g' !! k = Some q' ∧ p_item q' = p_item q ∧ (p_phase q ≠ PNumbered → p_phase q' ≠ PNumbered)).
  { intros k q Hq. destruct (decide (k = i)) as [->|?]; [|exists q; by rewrite Hne]. rewrite Hi in Hq. injection Hq as <-. exists (in_phase ph p). by split_and!. }
  split; rewrite ?Eds.
  - intros k q Hq. unfold call_ok, let_out. rewrite Eds Et. destruct (decide (k = i)) as [->|?].
    + rewrite Hat in Hq. injection Hq as <-. destruct (He _ _ Hi) as (_ & H2 & H3 & _). cbn. split_and!; [by intros|exact H2|exact H3|exact Hlet].
    + rewrite Hne // in Hq. by apply He.
  - intros id k [Hk|(-> & -> & Hnil)]%Ew; [|split; [by exists (in_phase ph p)|done]]. destruct (Hw _ _ Hk) as ((q & Hq & <- & Hnum) & Hnil).
    split; [|done]. destruct (Hfwd _ _ Hq) as (q' & Hq' & Hit & Hn). exists q'. split_and!; [done|by unfold p_id; rewrite Hit|by apply Hn].
  - intros j d Hj. destruct (Hd _ _ Hj) as ((q & Hq & Hid & Hnum) & k & r & Hr & Hidr & Hsh). split.
    + destruct (Hfwd _ _ Hq) as (q' & Hq' & Hit & Hn). exists q'. split_and!; [done|by unfold p_id; rewrite Hit|by apply Hn].
    + destruct (Hfwd _ _ Hr) as (r' & Hr' & Hit & _). exists k, r'. unfold p_id. rewrite Hit. split_and!; [done..|by apply Hev].
  - intros item [Hin| ->]%Hup; [|by exists i, (in_phase ph p)]. destruct (Hs _ Hin) as (k & q & Hq & <-).
    destruct (Hfwd _ _ Hq) as (q' & Hq' & Hit & _). by exists k, q'.
Qed.

(** A new call. *)
Lemma calls_new g s p : calls_ok g → p_phase p = PNumbered → p_value p = None →
  waiters s = waiters (store g) → events s = events (store g) → timeout s = timeout (store g) →
  calls_ok (mkGate s (prompts g ++ [p]) (deciders g)).
Proof.
  intros [He Hw Hd Hs] Hph Hval Ew Eev Et.
  assert (Hfwd : ∀ i q, prompts g !! i = Some q → (prompts g ++ [p])%list !! i = Some q) by (intros; by apply lookup_app_l_Some).
  split; cbn; rewrite ?Ew ?Eev ?Et.
  - intros i q [Hq|[Hle [Hz <-]%list_lookup_singleton_Some]]%lookup_app_Some; [unfold call_ok, let_out; cbn; rewrite Et; by apply He|].
    assert (Hnil : decisions_of i (deciders g) = []).
    { unfold decisions_of. apply omap_none. intros d [j Hj]%list_elem_of_lookup. case_decide as E; [|done].
      destruct (Hd _ _ Hj) as ((q & Hq%lookup_lt_Some & _) & _). lia. }
    unfold call_ok. cbn. rewrite Hnil Hval Hph. cbn. split_and!; [done|lia|done|]. by intros d [?|[? ?]].
  - intros id i Hi. destruct (Hw _ _ Hi) as ((q & Hq & ?) & ?). split; [|done]. exists q. by rewrite (Hfwd _ _ Hq).
  - intros j d Hj. destruct (Hd _ _ Hj) as ((q & Hq & ?) & k & r & Hr & ?). split; [exists q; by rewrite (Hfwd _ _ Hq)|exists k, r; by rewrite (Hfwd _ _ Hr)].
  - intros item Hin. destruct (Hs _ Hin) as (k & q & Hq & <-). exists k, q. by rewrite (Hfwd _ _ Hq).
Qed.

(** A step of the decider [j]; the last puts the decision into the channel. *)
Lemma calls_decider g g' j d st : calls_ok g → deciders g !! j = Some d → (∀ ok, d_stage d ≠ DDone ok) →
  deciders g' = upd_decider j st d g → timeout (store g') = timeout (store g) → waiters (store g') = waiters (store g) →
  (prompts g' = prompts g ∨ st = DDone true ∧ ∃ p, prompts g !! d_prompt d = Some p ∧ receiver_alive p = true ∧
     prompts g' = <[d_prompt d := with_value (d_decision d) p]> (prompts g)) →
  (∀ e, e ∈ events (store g) → e ∈ events (store g')) →
  (∀ item, Upsert item ∈ events (store g') → Upsert item ∈ events (store g)) → calls_ok g'.
Proof.
  intros Hg Hj Hst Eds Et Ew Eps Hev Hup. pose proof (decided_once _ _ _ Hg Hj) as Hone.
  destruct Hg as [He Hw Hd Hs]. unfold upd_decider in Eds.
  assert (Hds : ∀ i, decisions_of i (deciders g') = if decide (d_prompt d = i) then [(d_decision d, st)] else decisions_of i (deciders g)).
  { intros i. rewrite Eds. pose proof (decisions_of_insert i j (deciders g) d st Hj) as Hins. case_decide as E; [|done].
    subst i. destruct Hins as (l1 & l2 & Hl & ->). rewrite Hone in Hl. destruct l1 as [|? [|]]; [|done..]. cbn in Hl. injection Hl as <-. done. }
  assert (Hfwd : ∀ k q, prompts g !! k = Some q → ∃ q', prompts g' !! k = Some q' ∧ p_item q' = p_item q ∧ p_phase q' = p_phase q).
  { intros k q Hq. destruct Eps as [->|(_ & p & Hp & _ & ->)]; [by exists q|]. destruct (decide (k = d_prompt d)) as [->|?].
    - exists (with_value (d_decision d) p). rewrite list_lookup_insert_eq; [by apply lookup_lt_Some in Hp|]. by simplify_eq.
    - exists q. rewrite list_lookup_insert_ne //. congruence. }
  assert (Hold : ∀ p, prompts g !! d_prompt d = Some p → p_phase p ≠ PNumbered ∧ p_value p = None ∧
    ∀ x, p_phase p = PReturned x ∨ (∃ k, p_phase p = PDiscard k x) → timeout (store g) ≠ None ∧ x = approve ∨ x = channel_closed).
  { intros p Hp. destruct (He _ _ Hp) as (H1 & _ & H3 & H4). rewrite Hone in H1 H3. unfold let_out in H4. rewrite Hone in H4. split_and!.
    - intros E. by apply H1 in E.
    - destruct (p_value p) as [x|]; [|done]. specialize (H3 x eq_refl). injection H3 as _ E. by apply Hst in E.
    - intros x [?|[?|E]]%H4; [by left|by right|]. injection E as _ E. by apply Hst in E. }
  split.
  - intros i q Hq. unfold call_ok, let_out. rewrite Hds Et. case_decide as E.
    + subst i. destruct Eps as [Eps|(-> & p & Hp & Hal & Eps)]; rewrite Eps in Hq.
      * destruct (Hold _ Hq) as (Hn & Hv & Hl). rewrite Hv. split_and!; [done|cbn; lia|done|]. intros x [?|?]%Hl; [by left|by right; left].
      * rewrite list_lookup_insert_eq in Hq; [by apply lookup_lt_Some in Hp|]. injection Hq as <-.
        destruct (Hold _ Hp) as (Hn & _ & Hl). cbn. split_and!; [done|lia|by intros x [= <-]|]. intros x [?|?]%Hl; [by left|by right; left].
    + assert (Hq' : prompts g !! i = Some q).
      { destruct Eps as [<-|(_ & p & _ & _ & Eps)]; [done|]. by rewrite Eps list_lookup_insert_ne in Hq. }
      by apply He.
  - intros id i. rewrite Ew. intros Hi. destruct (Hw _ _ Hi) as ((q & Hq & <- & Hn) & Hnil). destruct (Hfwd _ _ Hq) as (q' & Hq' & Hit & Hph).
    split; [exists q'; unfold p_id; by rewrite Hit Hph|]. rewrite Hds. case_decide as E; [|done]. subst i. by rewrite Hone in Hnil.
  - intros k e Hk. assert (Hin : ∃ k0 e0, deciders g !! k0 = Some e0 ∧ d_prompt e = d_prompt e0 ∧ d_id e = d_id e0).
    { rewrite Eds in Hk. apply list_lookup_insert_Some in Hk as [(-> & <- & _)|(_ & Hk)]; [by exists k, d|by exists k, e]. }
    destruct Hin as (k0 & e0 & Hk0 & -> & ->). destruct (Hd _ _ Hk0) as ((q & Hq & Hid & Hn) & l & r & Hr & Hidr & Hsh). split.
    + destruct (Hfwd _ _ Hq) as (q' & Hq' & Hit & Hph). exists q'. unfold p_id. by rewrite Hit Hph.
    + destruct (Hfwd _ _ Hr) as (r' & Hr' & Hit & _). exists l, r'. unfold p_id. rewrite Hit. split_and!; [done..|by apply Hev].
  - intros item Hin%Hup. destruct (Hs _ Hin) as (k & q & Hq & <-). destruct (Hfwd _ _ Hq) as (q' & Hq' & Hit & _). by exists k, q'.
Qed.

(** A decision that finds a call. *)
Lemma calls_decide g id d i : calls_ok g → waiters (store g) !! id = Some i → shown id g →
  calls_ok (mkGate (set_waiters (delete id) (store g)) (prompts g) (deciders g ++ [mkDecider i id d DTaken])).
Proof.
  intros [He Hw Hd Hs] Hi (item & Hin & Hid). destruct (Hw _ _ Hi) as ((p & Hp & Hpid & Hn) & Hnil). split; cbn.
  - intros k q Hq. unfold call_ok, let_out. cbn. rewrite decisions_of_snoc. cbn. destruct (He _ _ Hq) as (H1 & H2 & H3 & H4).
    case_decide as E; [|by rewrite app_nil_r]. subst k. unfold let_out in H4. rewrite Hnil in H3 H4. simplify_eq. rewrite Hnil. split_and!.
    + done.
    + cbn. lia.
    + intros x Hx. by apply H3 in Hx.
    + intros x [?|[?|?]]%H4; [by left|by right; left|done].
  - intros id' k Hk. apply lookup_delete_Some in Hk as [Hne Hk]. destruct (Hw _ _ Hk) as ((q & Hq & Hqid & Hqn) & Hqnil).
    split; [by exists q|]. rewrite decisions_of_snoc Hqnil. cbn. case_decide as E; [|done]. subst k. simplify_eq.
  - intros j e [Hj|[_ Hj]]%lookup_app_Some; [by apply Hd in Hj|]. apply list_lookup_singleton_Some in Hj as [_ <-]. cbn. split; [by exists p|].
    destruct (Hs _ Hin) as (k & q & Hq & <-). by exists k, q.
  - done.
Qed.

Lemma calls_step {admits} g g' : enabled (store g) = true → calls_ok g → gate_step admits g g' →
  calls_ok g' ∧ enabled (store g') = true ∧ timeout (store g') = timeout (store g).
Proof.
  intros Hen Hg Hs. destruct Hs as [|item g|i p g Hi Hph|i p g Hi Hph|i p g Hi Hph|i p d g Hi Hph Hv|i p g Hi Hph Ht|i p g Hi Hph|
    i p stage d g Hi Hph|i p g Hi Hph|id d i g|j d g Hj Hst|j d g Hj Hst|j d p g Hj Hst Hp];
    try (split; [|done]).
  - congruence.
  - by apply calls_new.
  - apply (calls_local g _ i p PWaiter); try done; cbn; [|by left|by intros ? [|[? ?]]].
    intros id k Hk. apply lookup_insert_Some in Hk as [[<- <-]|[_ Hk]]; [right|by left]. split_and!; [done..|]. by apply (calls_each _ Hg _ _ Hi).
  - apply (calls_local g _ i p PListed); try done; cbn; [by left|by left|by intros ? [|[? ?]]].
  - apply (calls_local g _ i p PWaiting); try done; cbn; [by left| | |by intros ? [|[? ?]]].
    + intros e He. apply elem_of_app. by left.
    + intros item [?|Hin%list_elem_of_singleton]%elem_of_app; [by left|right]. by injection Hin.
  - apply (calls_local g _ i p (PReturned d)); try done; cbn; [by left|by left|]. intros x [[= <-]|[? ?]]; [|done].
    right; right. by apply (calls_each _ Hg _ _ Hi).
  - apply (calls_local g _ i p (PDiscard 0 approve)); try done; cbn; [by left|by left|]. intros x [?|[? [= _ <-]]]; [done|]. by left.
  - apply (calls_local g _ i p (PDiscard 0 channel_closed)); try done; cbn; [by left|by left|]. intros x [?|[? [= _ <-]]]; [done|]. by right; left.
  - assert (Hout : let_out (timeout (store g)) g i d) by (destruct (calls_each _ Hg _ _ Hi) as (_ & _ & _ & H4); apply H4; right; by exists stage).
    split; [|by destruct stage as [|[|]]]. apply (calls_local g _ i p (discarding stage d)); try done; cbn.
    + by destruct stage as [|[|]].
    + by destruct stage as [|[|]].
    + intros id k Hk. left. destruct stage as [|[|]]; [cbn in Hk|done..]. by apply lookup_delete_Some in Hk as [_ Hk].
    + intros e He. destruct stage as [|[|]]; [done..|]. apply elem_of_app. by left.
    + intros it Hit. left. destruct stage as [|[|]]; [done..|]. apply elem_of_app in Hit as [?|Hit%list_elem_of_singleton]; [done|done].
    + intros x Hx. destruct stage as [|[|]]; destruct Hx as [Hx|[k Hx]]; cbn in Hx; by simplify_eq.
  - apply (calls_local g _ i p PCancelled); try done; cbn; [by left|by left|by intros ? [|[? ?]]].
  - by apply calls_decide.
  - apply (calls_decider g _ j d DUnlisted); try done; [by rewrite Hst|by left].
  - apply (calls_decider g _ j d DForwarded); try done; [by rewrite Hst|by left| |]; cbn.
    + intros e He. apply elem_of_app. by left.
    + intros it [?|Hit%list_elem_of_singleton]%elem_of_app; done.
  - apply (calls_decider g _ j d (DDone (receiver_alive p))); try done; [by rewrite Hst|]. cbn.
    destruct (receiver_alive p) eqn:E; [right|by left]. split; [done|]. by exists p.
Qed.

Lemma calls_reach {admits} t g : rtc (gate_step admits) (Gate_new true t) g → calls_ok g ∧ enabled (store g) = true ∧ timeout (store g) = t.
Proof.
  apply (rtc_ind_r (λ g, calls_ok g ∧ enabled (store g) = true ∧ timeout (store g) = t) (Gate_new true t)).
  - split; [|done]. split; cbn; [intros ? ? Hn; by rewrite lookup_nil in Hn|intros ? ? Hn; by rewrite lookup_empty in Hn|intros ? ? Hn; by rewrite lookup_nil in Hn|by intros ? ?%not_elem_of_nil].
  - intros g1 g2 _ Hs (Hg & Hen & <-). by apply (calls_step (admits := admits) g1).
Qed.

(** What a call returned. *)
Lemma returned_let_out g i p d : calls_ok g → prompts g !! i = Some p → p_phase p = PReturned d →
  (timeout (store g) ≠ None ∧ d = approve) ∨ d = channel_closed ∨
  (decisions_of i (deciders g) = [(d, DDone true)] ∧
   ∃ k q, prompts g !! k = Some q ∧ p_id q = p_id p ∧ Upsert (p_item q) ∈ events (store g)).
Proof.
  intros Hg Hi Hph. destruct (calls_each _ Hg _ _ Hi) as (_ & _ & _ & Hout). destruct (Hout d (or_introl Hph)) as [?|[?|Hd]]; [by left|by right; left|].
  right; right. split; [done|]. destruct (decisions_of_some i (deciders g) d (DDone true)) as (j & e & Hj & <- & _ & _); [rewrite Hd; by left|].
  destruct (calls_deciders _ Hg _ _ Hj) as ((q & Hq & Hid & _) & Hsh). rewrite Hi in Hq. injection Hq as <-. by rewrite Hid.
Qed.
