(* ===== verification/Proxy.v ===== *)
(** * The recording proxy (crates/omniagent-cli/src/proxy.rs)

    Requests of the agent are sent on to their provider and the answers back, and
    each exchange is recorded: where a request goes, which headers go with it,
    what of them is recorded, and the two ways an answer takes, streamed through
    or held for review.  The method of a request that came in is a method, so the
    check of it on the way out, which cannot fail, is left out. *)
From S2P Require Import Prelude Str Json Record Sse Review.

Definition DEFAULT_ANTHROPIC : string := "https://api.anthropic.com".
Definition DEFAULT_OPENAI : string := "https://api.openai.com".
Definition DEFAULT_GEMINI : string := "https://generativelanguage.googleapis.com".

Definition ALLOWED_PATH_PREFIXES : list string :=
  ["/v1/messages"; "/v1/complete"; "/v1/responses"; "/responses"; "/v1/chat/completions"; "/chat/completions";
   "/v1/completions"; "/completions"; "/v1/models"; "/models"; "/v1/embeddings"; "/embeddings"; "/v1/files"; "/files";
   "/v1beta/models"; "/v1alpha/models"; "/v1internal"; "/search"; "/fetch"; "/usages"; "/feedback"].

(** ** Text *)

(** [rsplit_once] at a string. *)
Fixpoint rsplit_once_str (p s : string) : option (string * string) :=
  match s with
  | EmptyString => (λ rest, (EmptyString, rest)) <$> strip_prefix p s
  | String c s' => match rsplit_once_str p s' with
      | Some (a, b) => Some (String c a, b)
      | None => (λ rest, (EmptyString, rest)) <$> strip_prefix p s
      end
  end.

Fixpoint drop_until (p : ascii → bool) (s : string) : string :=
  match s with EmptyString => EmptyString | String c s' => if p c then s else drop_until p s' end.

(** [splitn(2, char::is_whitespace)]. *)
Fixpoint split_whitespace_once (s : string) : option (string * string) :=
  match find_map (λ w, strip_prefix w s) whitespace with
  | Some rest => Some (EmptyString, rest)
  | None => match s with
      | EmptyString => None
      | String c s => '(a, b) ← split_whitespace_once s; Some (String c a, b)
      end
  end.

(** ** Where requests go *)

(** The environment of the process, [None] where a variable is not set to text. *)
Definition Env : Type := string → option string.

Definition upstream_from_env (env : Env) (vars : list string) (dflt : string) : string :=
  trim_end_char "/" (default dflt (find_map (λ var, v ← env var; if decide (v = "") then None else Some v) vars)).

Record Upstreams : Type := mkUpstreams { anthropic_upstream : string; openai_upstream : string; gemini_upstream : string }.

Definition Upstreams_new (env : Env) : Upstreams := mkUpstreams
  (upstream_from_env env ["ANTHROPIC_BASE_URL"] DEFAULT_ANTHROPIC)
  (upstream_from_env env ["OPENAI_BASE_URL"; "OPENROUTER_BASE_URL"; "CUSTOM_BASE_URL"; "MOONSHOT_BASE_URL"; "KIMI_BASE_URL"] DEFAULT_OPENAI)
  (upstream_from_env env ["GOOGLE_GEMINI_BASE_URL"; "GOOGLE_VERTEX_BASE_URL"; "GEMINI_API_BASE_URL"] DEFAULT_GEMINI).

Definition upstream_for (u : Upstreams) (provider : Provider) : string :=
  match provider with Anthropic => anthropic_upstream u | OpenAI => openai_upstream u | Gemini => gemini_upstream u end.

Definition strip_duplicate_prefix (base_url path prefix : string) : string :=
  let rest := match rsplit_once_str "://" (trim_end_char "/" base_url) with Some (_, rest) => rest | None => base_url end in
  let base_path := match split_once "/" rest with Some (_, path) => path | None => "" end in
  let prefix := trim_start_char "/" prefix in
  if bool_decide (base_path = prefix) || ends_with ("/" ++ prefix) base_path
  then default path (strip_prefix ("/" ++ prefix) path) else path.

Definition upstream_url (provider : Provider) (base_url path_and_query : string) : string :=
  base_url ++ match provider with
    | Anthropic => path_and_query
    | OpenAI => strip_duplicate_prefix base_url path_and_query "/v1"
    | Gemini => strip_duplicate_prefix base_url path_and_query "/v1beta"
    end.

Definition agent_env (env : Env) (base : string) : list (string * string) :=
  let base := trim_end_char "/" base in
  let v1 := base ++ "/v1" in
  app [("ANTHROPIC_BASE_URL", base); ("OPENAI_BASE_URL", v1); ("OPENROUTER_BASE_URL", v1);
       ("CUSTOM_BASE_URL", v1); ("MOONSHOT_BASE_URL", v1); ("KIMI_BASE_URL", base);
       ("GOOGLE_GEMINI_BASE_URL", base); ("GOOGLE_VERTEX_BASE_URL", base); ("GEMINI_API_BASE_URL", base);
       ("GOOGLE_GENAI_USE_VERTEXAI", "false")]
    match env "ANTHROPIC_AUTH_TOKEN", env "ANTHROPIC_API_KEY" with
    | None, None => [("ANTHROPIC_AUTH_TOKEN", "omniagent-placeholder")]
    | _, _ => []
    end.

Definition classify (path : string) : Provider :=
  if starts_with "/v1beta" path || starts_with "/v1alpha" path || starts_with "/v1internal" path ||
     str_contains ":generateContent" path || str_contains ":streamGenerateContent" path then Gemini
  else if starts_with "/v1/messages" path || starts_with "/v1/complete" path then Anthropic
  else OpenAI.

Definition path_from_path_and_query (path_and_query : string) : string :=
  match split_once "?" path_and_query with Some (path, _) => path | None => path_and_query end.

Definition under_prefix (clean prefix : string) : bool :=
  bool_decide (clean = prefix) ||
  match strip_prefix prefix clean with Some rest => starts_with "/" rest || starts_with ":" rest | None => false end.

Definition is_allowed_path (path : string) : bool :=
  existsb (under_prefix (trim_end_char "/" (path_from_path_and_query path))) ALLOWED_PATH_PREFIXES.

(** ** The model of a request *)

Definition clean_model (model : option string) : option string :=
  m ← trim <$> model; if decide (m = "") then None else Some m.

Definition is_delimiter (c : ascii) : bool := Ascii.eqb c ":" || Ascii.eqb c "/" || Ascii.eqb c "?".

Definition rewrite_gemini_model_path (path_and_query model : string) : string :=
  let clean_model := default model (strip_prefix "models/" model) in
  match split_once_str "models/" path_and_query with
  | None => path_and_query
  | Some (prefix, rest) => prefix ++ "models/" ++ clean_model ++ drop_until is_delimiter rest
  end.

Definition is_raw_wrapper (request : Value) : bool :=
  match request with Object [(key, _)] => bool_decide (key = "raw") | _ => false end.

Definition has_field (key : string) (l : list (string * Value)) : bool := bool_decide (obj_get key l ≠ None).

Definition override_fields (provider : Provider) (model : string) (l : list (string * Value)) : list (string * Value) :=
  if has_field "model_id" l then obj_insert "model_id" (Str model) l
  else if has_field "model" l || negb (match provider with Gemini => true | _ => false end) then obj_insert "model" (Str model) l
  else l.

Definition request_model (provider : Provider) (request : Value) (path : string) : option string :=
  match or_else (v_get "model" request) (v_get "model_id" request) ≫= as_string with
  | Some model => Some model
  | None => match provider with
      | Gemini =>
          '(_, after) ← split_once_str "models/" path;
          let after := match split_once_str "models/" after with Some (a, _) => a | None => after end in
          let model := match split_once ":" after with Some (m, _) => m | None => after end in
          if decide (model = "") then None else Some model
      | _ => None
      end
  end.

Definition response_model (value : Value) : option string :=
  or_else (v_get "model" value ≫= as_string) (v_get "model_id" value ≫= as_string).

Definition extract_usage (provider : Provider) (value : Value) : Usage :=
  let container := match provider with Gemini => v_get "usageMetadata" value | _ => v_get "usage" value end in
  default usage_default (usage_from_value <$> container).

(** ** Headers

    The values of a name in the order they were added; the names are in lower
    case, as the HTTP library keeps them. *)
Notation HeaderMap := (gmap string (list string)).

Definition header_pairs (headers : HeaderMap) : list (string * string) :=
  flat_map (λ e, map (pair e.1) e.2) (map_to_list headers).

Definition header_get (name : string) (headers : HeaderMap) : option string := headers !! name ≫= head.

Definition filter_header (drop : list string) (out : HeaderMap) (e : string * string) : HeaderMap :=
  if decide (to_ascii_lowercase e.1 ∈ drop) then out else <[e.1 := [e.2]]> out.

Definition filter_headers (headers : HeaderMap) (drop : list string) : HeaderMap :=
  foldl (filter_header drop) ∅ (header_pairs headers).

Definition REQUEST_DROP : list string :=
  ["host"; "content-length"; "accept-encoding"; "connection"; "keep-alive"; "proxy-authenticate"; "proxy-authorization";
   "te"; "trailer"; "trailers"; "transfer-encoding"; "upgrade"].

Definition RESPONSE_DROP : list string :=
  ["content-length"; "content-encoding"; "transfer-encoding"; "connection"; "keep-alive"; "proxy-authenticate";
   "proxy-authorization"; "te"; "trailer"; "trailers"; "upgrade"].

Definition forward_request_headers (headers : HeaderMap) : HeaderMap :=
  <["accept-encoding" := ["identity"]]> (filter_headers headers REQUEST_DROP).

Definition forward_response_headers (headers : HeaderMap) : HeaderMap := filter_headers headers RESPONSE_DROP.

(** ** What is recorded of them *)

Definition SENSITIVE : list string :=
  ["authorization"; "x-api-key"; "api-key"; "proxy-authorization"; "cookie"; "set-cookie"; "set-cookie2";
   "x-amz-security-token"; "cosy-key"; "cosy-machinetoken"; "cosy-machine-token"; "cosy-machineid"; "cosy-machine-id";
   "cosy-machinetype"; "cosy-machine-type"; "cosy-user"].

Definition is_sensitive_header (name : string) : bool :=
  let name := to_ascii_lowercase name in
  bool_decide (name ∈ SENSITIVE) || ends_with "-api-key" name || str_contains "token" name || str_contains "secret" name.

(** Header text is ASCII: its characters are its bytes. *)
Definition redact_token (value : string) : string :=
  let n := String.length value in
  let shown := show_dec (Z.of_nat n) in
  if (n <=? 8)%nat then "<redacted:" ++ shown ++ ">"
  else str_take 4 value ++ "..." ++ str_drop (n - 4) value ++ " (" ++ shown ++ ")".

Definition redact_secret (value : string) : string :=
  let trimmed := trim value in
  if decide (trimmed = "") then "<empty>"
  else match split_whitespace_once trimmed with
    | None => redact_token trimmed
    | Some (first, rest) => first ++ " " ++ redact_token (trim rest)
    end.

Definition redact_header_value (name value : string) : string :=
  if is_sensitive_header name then redact_secret value else value.

(** What the HTTP library makes of the bytes of a value. *)
Class HeaderText := { to_str : string → option string }.

Section headers.
Context `{!HeaderText}.

Definition capture_header (out : HeaderMap) (e : string * string) : HeaderMap :=
  let value := default "<non-utf8>" (to_str e.2) in
  let name := to_ascii_lowercase e.1 in
  <[name := (default [] (out !! name) ++ [redact_header_value e.1 value])%list]> out.

Definition capture_headers (headers : HeaderMap) : HeaderMap := foldl capture_header ∅ (header_pairs headers).

Definition request_base_url (headers : HeaderMap) : string :=
  match header_get "host" headers ≫= to_str with
  | Some host => if decide (host = "") then "" else "http://" ++ host
  | None => ""
  end.

Definition is_streaming (headers : HeaderMap) : bool :=
  match header_get "content-type" headers ≫= to_str with Some ct => str_contains "event-stream" ct | None => false end.
End headers.

(** ** An exchange *)

Section exchange.
Context `{!JsonText, !JsonShow, !Utf8, !HeaderText}.

Definition raw_body (body : string) : Value := vobj [("raw", Str (from_utf8_lossy body))].

Definition parse_body (body : string) : Value :=
  if decide (body = "") then Null else default (raw_body body) (json_from_str body).

Definition apply_model_override (provider : Provider) (model : string) (r : Value * string * string) : Value * string * string :=
  let '(request, body, path_and_query) := r in
  let path_and_query := match provider with
    | Gemini => rewrite_gemini_model_path path_and_query model
    | _ => path_and_query
    end in
  match request with
  | Object l =>
      if is_raw_wrapper request then (request, body, path_and_query)
      else let request := Object (override_fields provider model l) in (request, json_to_string request, path_and_query)
  | _ => (request, body, path_and_query)
  end.

Record Request : Type := mkRequest { rq_method : string; rq_url : string; rq_headers : HeaderMap; rq_body : string }.

(** What becomes of a request: no answer, or a status, headers and the pieces of
    the body up to its end or an error. *)
Inductive Upstream : Type :=
| Failed (error : string)
| Answered (status : Z) (headers : HeaderMap) (chunks : list (result string string)).

(** One attempt: the time of its draft, what the provider does, how long that
    takes; the id of the item to review and the decision on it. *)
Record Turn : Type := mkTurn {
  tn_now : string; tn_upstream : Upstream; tn_latency : Z; tn_id : string; tn_decision : ReviewDecision;
}.

Record Answer : Type := mkAnswer { rp_status : Z; rp_headers : HeaderMap; rp_body : list (result string string) }.

(** All that an exchange does: the requests sent, the spans recorded, the items
    put to review, and the answer of the agent, [None] while there is none. *)
Record Outcome : Type := mkOutcome {
  o_requests : list Request; o_recorded : list SpanDraft; o_items : list ReviewItem; o_reply : option Answer;
}.

Definition error_response (status : Z) (message : string) : Answer :=
  mkAnswer status {["content-type" := ["application/json"]]}
    [Ok (json_to_string (vobj [("error", vobj [("message", Str message)])]))].

Definition buffered_response (status : Z) (headers : HeaderMap) (body : string) : Answer :=
  mkAnswer status (delete "content-length" headers) [Ok body].

(** ** Drafts *)

Definition with_error (d : SpanDraft) (error : option string) (status latency : Z) : SpanDraft :=
  mkSpanDraft (sd_provider d) (sd_model d) (sd_method d) (sd_request_base_url d) (sd_upstream_base_url d) (sd_path d)
    (sd_streaming d) (sd_request_headers d) (sd_request d) (sd_response_headers d) (sd_response d) (sd_stream_events d)
    (sd_usage d) status (sd_started_at d) latency error.

Definition with_answer (d : SpanDraft) (status : Z) (headers : HeaderMap) : SpanDraft :=
  mkSpanDraft (sd_provider d) (sd_model d) (sd_method d) (sd_request_base_url d) (sd_upstream_base_url d) (sd_path d)
    (is_streaming headers) (sd_request_headers d) (sd_request d) (capture_headers headers) (sd_response d) (sd_stream_events d)
    (sd_usage d) status (sd_started_at d) (sd_latency_ms d) (sd_error d).

Definition with_response (d : SpanDraft) (model : option string) (response : Value) (events : list StreamEvent) (usage : Usage)
    (latency : Z) : SpanDraft :=
  mkSpanDraft (sd_provider d) (or_else (sd_model d) model) (sd_method d) (sd_request_base_url d) (sd_upstream_base_url d)
    (sd_path d) (sd_streaming d) (sd_request_headers d) (sd_request d) (sd_response_headers d) response events
    usage (sd_status d) (sd_started_at d) latency (sd_error d).

(** [None] is a panic. *)
Definition complete_span_draft (d : SpanDraft) (body : string) (streaming : bool) (latency : Z) : option SpanDraft :=
  if streaming then
    '(snapshot, usage, events) ← reconstruct body;
    Some (with_response d (snapshot ≫= response_model)
      (default (vobj [("streaming", Bool true); ("raw", Str (from_utf8_lossy body))]) snapshot) events usage latency)
  else
    let value := parse_body body in
    Some (with_response d (response_model value) value (sd_stream_events d) (extract_usage (sd_provider d) value) latency).

Definition draft_of (now : string) (provider : Provider) (method path base : string) (headers : HeaderMap) (request : Value)
    (model : option string) : SpanDraft :=
  let d := SpanDraft_new now provider path in
  mkSpanDraft provider model method (request_base_url headers) base path false (capture_headers headers) request
    (sd_response_headers d) (sd_response d) (sd_stream_events d) (sd_usage d) (sd_status d) now (sd_latency_ms d) (sd_error d).

(** ** Streamed through *)

(** The agent takes [accepts] pieces before it hangs up, all of them where
    [None]: what is recorded, what it was sent, and the error met. *)
Fixpoint tee (accepts : option nat) (acc : string) (chunks : list (result string string)) :
    string * list (result string string) * option string :=
  match chunks with
  | [] => (acc, [], None)
  | Err message :: _ => (acc, match accepts with Some 0%nat => [] | _ => [Err message] end, Some message)
  | Ok chunk :: chunks => match accepts with
      | Some 0%nat => (acc ++ chunk, [], None)
      | _ => let '(acc, sent, error) := tee (pred <$> accepts) (acc ++ chunk) chunks in (acc, Ok chunk :: sent, error)
      end
  end.

Definition note_error (d : SpanDraft) (error : option string) : SpanDraft := with_error d (or_else (sd_error d) error) (sd_status d) (sd_latency_ms d).

Definition stream_through (rq : Request) (d : SpanDraft) (turn : Turn) (accepts : option nat) : Outcome :=
  match tn_upstream turn with
  | Failed error =>
      mkOutcome [rq] [with_error d (Some error) (sd_status d) (tn_latency turn)] [] (Some (error_response 502 "upstream request failed"))
  | Answered status headers chunks =>
      let '(acc, sent, error) := tee accepts "" chunks in
      let d := note_error (with_answer d status headers) error in
      mkOutcome [rq] (option_list (complete_span_draft d acc (is_streaming headers) (tn_latency turn))) []
        (Some (mkAnswer status (delete "content-length" (forward_response_headers headers)) sent))
  end.

(** ** Held for review *)

Record ReviewContext : Type := mkContext {
  cx_method : string; cx_path_and_query : string; cx_headers : HeaderMap; cx_body : string;
  cx_provider : Provider; cx_upstream_base_url : string; cx_request : Value;
}.

Definition context_draft (now : string) (ctx : ReviewContext) : SpanDraft :=
  let path := path_from_path_and_query (cx_path_and_query ctx) in
  draft_of now (cx_provider ctx) (cx_method ctx) path (cx_upstream_base_url ctx) (cx_headers ctx) (cx_request ctx)
    (request_model (cx_provider ctx) (cx_request ctx) path).

Definition context_override (model : string) (ctx : ReviewContext) : ReviewContext :=
  let '(request, body, path_and_query) :=
    apply_model_override (cx_provider ctx) model (cx_request ctx, cx_body ctx, cx_path_and_query ctx) in
  mkContext (cx_method ctx) path_and_query (cx_headers ctx) body (cx_provider ctx) (cx_upstream_base_url ctx) request.

Definition context_request (ctx : ReviewContext) : Request :=
  mkRequest (cx_method ctx) (upstream_url (cx_provider ctx) (cx_upstream_base_url ctx) (cx_path_and_query ctx))
    (forward_request_headers (cx_headers ctx)) (cx_body ctx).

(** [Response::bytes]: the whole body, or the error in it. *)
Fixpoint read_all (chunks : list (result string string)) : result string string :=
  match chunks with
  | [] => Ok ""
  | Err message :: _ => Err message
  | Ok chunk :: chunks => match read_all chunks with Ok rest => Ok (chunk ++ rest) | Err message => Err message end
  end.

Record ReviewAttempt : Type := mkAttempt {
  at_status : Z; at_headers : HeaderMap; at_body : string; at_completed : SpanDraft;
}.

(** [None] is a panic, [Err] the draft of an attempt that failed. *)
Definition execute_buffered (ctx : ReviewContext) (turn : Turn) : option (result SpanDraft ReviewAttempt) :=
  let d := context_draft (tn_now turn) ctx in
  match tn_upstream turn with
  | Failed error => Some (Err (with_error d (Some error) (sd_status d) (tn_latency turn)))
  | Answered status headers chunks =>
      let d := with_answer d status headers in
      match read_all chunks with
      | Err error => Some (Err (with_error d (Some error) status (tn_latency turn)))
      | Ok body =>
          completed ← complete_span_draft d body (is_streaming headers) (tn_latency turn);
          Some (Ok (mkAttempt status (forward_response_headers headers) body completed))
      end
  end.

Definition nonzero (n : Z) : option Z := if decide (n = 0%Z) then None else Some n.

Definition review_item (id : string) (d : SpanDraft) (phase : ReviewPhase) (attempt : Z) : ReviewItem :=
  mkItem id 0 phase attempt (sd_provider d) (sd_model d) (sd_method d) (sd_path d) (sd_streaming d)
    (sd_request_base_url d) (sd_upstream_base_url d) (sd_request_headers d) (sd_request d) (sd_response_headers d)
    (sd_response d) (sd_usage d) (nonzero (sd_status d)) (nonzero (sd_latency_ms d)) (sd_started_at d) (sd_error d).

Definition review_rejection_message (message : option string) : string := default "rejected by operator" (clean_model message).

Definition saturating_add32 (a b : Z) : Z := Z.min u32_max (a + b).

Definition also (rq : Request) (recorded : list SpanDraft) (prompted : list ReviewItem) (o : Outcome) : Outcome :=
  mkOutcome (rq :: o_requests o) (recorded ++ o_recorded o) (prompted ++ o_items o) (o_reply o).

(** The loop over attempts; where the turns end a decision is still waited for. *)
Fixpoint reviewed (attempt : Z) (ctx : ReviewContext) (turns : list Turn) : option Outcome :=
  match turns with
  | [] => Some (mkOutcome [] [] [] None)
  | turn :: turns =>
      let rq := context_request ctx in
      r ← execute_buffered ctx turn;
      match r with
      | Err errored => Some (mkOutcome [rq] [errored] [] (Some (error_response 502 "upstream request failed")))
      | Ok outcome =>
          let completed := at_completed outcome in
          let prompted := [review_item (tn_id turn) completed ReviewResponse attempt] in
          match tn_decision turn with
          | Approve _ =>
              Some (mkOutcome [rq] [completed] prompted (Some (buffered_response (at_status outcome) (at_headers outcome) (at_body outcome))))
          | Reject message =>
              let message := review_rejection_message message in
              Some (mkOutcome [rq] [with_error completed (Some message) 499 (sd_latency_ms completed)] prompted
                (Some (error_response 499 message)))
          | Retry model =>
              let regenerated := with_error completed (Some "regenerated by operator") (sd_status completed) (sd_latency_ms completed) in
              let ctx := match clean_model model with Some model => context_override model ctx | None => ctx end in
              also rq [regenerated] prompted <$> reviewed (saturating_add32 attempt 1) ctx turns
          end
      end
  end.

(** ** The handler *)

Record ProxyState : Type := mkProxy { upstreams : Upstreams; reviews_enabled : bool; model_override : option string }.

(** The context of a request, the override of the session applied. *)
Definition prepare (s : ProxyState) (method path path_and_query : string) (headers : HeaderMap) (body : string) : ReviewContext :=
  let provider := classify path in
  let ctx := mkContext method path_and_query headers body provider (upstream_for (upstreams s) provider) (parse_body body) in
  match clean_model (model_override s) with Some model => context_override model ctx | None => ctx end.

(** [None] is a panic of the handler. *)
Definition proxy_handler (s : ProxyState) (method path path_and_query : string) (headers : HeaderMap) (body : string)
    (turns : list Turn) (accepts : option nat) : option Outcome :=
  if negb (is_allowed_path path) then Some (mkOutcome [] [] [] (Some (error_response 404 "not found")))
  else
    let ctx := prepare s method path path_and_query headers body in
    if reviews_enabled s then reviewed 1 ctx turns
    else match turns with
      | [] => Some (mkOutcome [] [] [] None)
      | turn :: _ =>
          let d := draft_of (tn_now turn) (cx_provider ctx) method path (cx_upstream_base_url ctx) headers (cx_request ctx)
            (request_model (cx_provider ctx) (cx_request ctx) (path_from_path_and_query (cx_path_and_query ctx))) in
          Some (stream_through (context_request ctx) d turn accepts)
      end.
End exchange.
