(* ===== verification/ProxyInv.v ===== *)
(** * What the proxy sends, returns and records (crates/omniagent-cli/src/proxy.rs)

    The headers that pass and those that are recorded, secrets left out; the
    model a session forces; and that every answer the agent gets is the answer to
    a request on record, held back until it is approved where review is on. *)
From stdpp Require Import list.
From S2P Require Import Prelude Str Json Record Sse SseInv Review Proxy.

(** ** Headers *)

Section fold.
Variable F : HeaderMap → string * string → HeaderMap.
Variable G : string → option (list string) → string → option (list string).
Variable keys : string → Prop.
Hypothesis F_here : ∀ out k v, keys k → F out (k, v) !! k = G k (out !! k) v.
Hypothesis F_there : ∀ out k v n, keys k → n ≠ k → F out (k, v) !! n = out !! n.

Lemma fold_values k vs out n : keys k →
  foldl F out (map (pair k) vs) !! n = if decide (n = k) then foldl (G k) (out !! k) vs else out !! n.
Proof.
  intros Hk. revert out. induction vs as [|v vs IH]; intros out; cbn; [by case_decide; subst|].
  rewrite IH. case_decide as Hn; [by rewrite F_here|by apply F_there].
Qed.

Lemma fold_entries (l : list (string * list string)) out n : NoDup (map fst l) → Forall (λ e, keys e.1) l →
  foldl F out (flat_map (λ e, map (pair e.1) e.2) l) !! n =
    match find_first (λ e, bool_decide (e.1 = n)) l with Some e => foldl (G n) (out !! n) e.2 | None => out !! n end.
Proof.
  revert out. induction l as [|[k vs] l IH]; intros out Hnd Hk; [done|]. cbn.
  apply NoDup_cons in Hnd as [Hnew Hnd]. apply Forall_cons in Hk as [Hk Hl].
  rewrite foldl_app IH // fold_values //. case_bool_decide as Hkn; cbn in *.
  - subst. rewrite decide_True //.
    destruct (find_first _ l) as [e|] eqn:He; [|done]. exfalso. apply find_first_some in He as [Hin He].
    apply bool_decide_eq_true in He as <-. by apply Hnew, list_elem_of_fmap_2.
  - rewrite decide_False; [congruence|]. done.
Qed.

Lemma fold_headers (h : HeaderMap) out n : (∀ k vs, h !! k = Some vs → keys k) →
  foldl F out (header_pairs h) !! n = match h !! n with Some vs => foldl (G n) (out !! n) vs | None => out !! n end.
Proof.
  intros Hk. unfold header_pairs. rewrite fold_entries.
  - apply NoDup_fst_map_to_list.
  - apply Forall_forall. intros [k vs] Hin%elem_of_map_to_list. exact (Hk _ _ Hin).
  - destruct (find_first _ _) as [[k vs]|] eqn:He.
    + apply find_first_some in He as [Hin He]. apply bool_decide_eq_true in He. cbn in He. subst k.
      apply elem_of_map_to_list in Hin. by rewrite Hin.
    + destruct (h !! n) as [vs|] eqn:Hn; [|done]. exfalso.
      apply elem_of_map_to_list in Hn. apply find_first_none in He. rewrite Forall_forall in He.
      specialize (He _ Hn). by rewrite bool_decide_true in He.
Qed.
End fold.

(** Of each name that passes, the value added last. *)
Lemma filter_headers_spec (h : HeaderMap) drop n :
  filter_headers h drop !! n =
    if decide (to_ascii_lowercase n ∈ drop) then None
    else match h !! n with Some vs => (λ v, [v]) <$> last vs | None => None end.
Proof.
  unfold filter_headers.
  rewrite (fold_headers _ (λ k o v, if decide (to_ascii_lowercase k ∈ drop) then o else Some [v]) (λ _, True)).
  - intros out k v _. unfold filter_header. cbn. case_decide; [done|apply lookup_insert_eq].
  - intros out k v m _ Hm. unfold filter_header. cbn. case_decide; [done|by rewrite lookup_insert_ne; congruence].
  - done.
  - rewrite lookup_empty. destruct (h !! n) as [vs|]; [|by case_decide]. case_decide.
    + clear. induction vs as [|v vs IH]; [done|]. exact IH.
    + clear. destruct vs as [|v vs _] using rev_ind; [done|]. by rewrite foldl_app last_snoc.
Qed.

(** Names are in lower case and have values, as the HTTP library keeps them. *)
Definition headers_ok (h : HeaderMap) : Prop := ∀ n vs, h !! n = Some vs → to_ascii_lowercase n = n ∧ vs ≠ [].

Section text.
Context `{!HeaderText}.

Definition recorded_value (n v : string) : string := redact_header_value n (default "<non-utf8>" (to_str v)).

Lemma capture_headers_spec (h : HeaderMap) n : headers_ok h → capture_headers h !! n = map (recorded_value n) <$> h !! n.
Proof.
  intros Hh. unfold capture_headers.
  rewrite (fold_headers _ (λ k o v, Some (default [] o ++ [recorded_value k v])%list) (λ k, to_ascii_lowercase k = k)).
  - intros out k v Hk. unfold capture_header. cbn. by rewrite Hk lookup_insert_eq.
  - intros out k v m Hk Hm. unfold capture_header. cbn. by rewrite Hk lookup_insert_ne; congruence.
  - intros k vs Hk. by apply (Hh k vs).
  - rewrite lookup_empty. destruct (h !! n) as [vs|] eqn:Hn; [|done]. destruct (Hh _ _ Hn) as [_ Hne]. clear Hn.
    assert (Hf : ∀ pre vs, foldl (λ o v, Some (default [] o ++ [recorded_value n v])%list) (Some pre) vs =
      Some (pre ++ map (recorded_value n) vs)%list).
    { intros pre vs'. revert pre. induction vs' as [|v vs' IH]; intros pre; cbn; [by rewrite app_nil_r|].
      rewrite IH. by rewrite -app_assoc. }
    destruct vs as [|v vs]; [done|]. cbn. by rewrite Hf.
Qed.
End text.

(** ** Secrets *)

Lemma str_take_all n s : (String.length s ≤ n)%nat → str_take n s = s.
Proof. revert n. induction s as [|c s IH]; intros [|n] H; cbn in *; try done; [lia|]. f_equal. apply IH. lia. Qed.

Lemma str_take_prefix n a b : String.length a = n → str_take n (a ++ b) = a.
Proof. intros <-. apply str_take_app. Qed.

Lemma str_drop_prefix n a b : String.length a = n → str_drop n (a ++ b) = b.
Proof. revert n. induction a as [|c a IH]; intros [|n] H; cbn in *; try done. apply IH. lia. Qed.

(** All that is recorded of a token: its length, and of one longer than eight
    characters the first four and the last four. *)
Lemma redact_token_hides (a m m' b : string) :
  (String.length a = 4 → String.length b = 4 → String.length m = String.length m' → 0 < String.length m →
   redact_token (a ++ m ++ b) = redact_token (a ++ m' ++ b))%nat.
Proof.
  intros Ha Hb Hm Hpos. unfold redact_token. rewrite !length_app_s Ha Hb -Hm.
  destruct (Nat.leb_spec (4 + (String.length m + 4)) 8); [lia|]. rewrite !(str_take_prefix 4) //.
  assert (Hd : ∀ x, String.length x = String.length m →
    str_drop (4 + (String.length m + 4) - 4) (a ++ x ++ b) = b).
  { intros x Hx. rewrite -app_assoc_s. apply str_drop_prefix. rewrite length_app_s. lia. }
  rewrite (Hd m) // (Hd m') //.
Qed.

Lemma redact_token_short (v v' : string) : (String.length v ≤ 8)%nat → String.length v = String.length v' →
  redact_token v = redact_token v'.
Proof. intros Hv Hl. unfold redact_token. rewrite -Hl. by destruct (Nat.leb_spec (String.length v) 8); [|lia]. Qed.

(** What a header value holds: the word before the first space, if there is one,
    and the token. *)
Definition secret_parts (v : string) : option string * string :=
  match split_whitespace_once (trim v) with
  | None => (None, trim v)
  | Some (first, rest) => (Some first, trim rest)
  end.

(** Two values that differ inside of a long token only. *)
Definition value_alike (v v' : string) : Prop :=
  v = v' ∨ ∃ scheme a m m' b, secret_parts v = (scheme, a ++ m ++ b) ∧ secret_parts v' = (scheme, a ++ m' ++ b) ∧
    String.length a = 4%nat ∧ String.length b = 4%nat ∧ String.length m = String.length m' ∧ (0 < String.length m)%nat.

Lemma redact_secret_alike v v' : value_alike v v' → redact_secret v = redact_secret v'.
Proof.
  intros [-> |(scheme & a & m & m' & b & Hv & Hv' & Ha & Hb & Hm & Hpos)]; [done|].
  pose proof (redact_token_hides a m m' b Ha Hb Hm Hpos) as Ht.
  assert (Hr : ∀ v m, (0 < String.length m)%nat → secret_parts v = (scheme, a ++ m ++ b) → redact_secret v =
    match scheme with None => redact_token (a ++ m ++ b) | Some first => first ++ " " ++ redact_token (a ++ m ++ b) end).
  { clear v v' Hv Hv' m m' Hm Hpos Ht. intros v m Hpos Hv. unfold redact_secret, secret_parts in *.
    destruct (decide (trim v = "")) as [Hnil|].
    - exfalso. rewrite Hnil in Hv. vm_compute (split_whitespace_once "") in Hv. cbn in Hv. injection Hv as _ Hv.
      destruct a; [done|]. done.
    - destruct (split_whitespace_once (trim v)) as [[first rest]|]; injection Hv as <- <-; done. }
  rewrite (Hr v m) // (Hr v' m') //; [by rewrite -Hm|]. by rewrite Ht.
Qed.

Section exchange.
Context `{!JsonText, !JsonShow, !Utf8, !HeaderText}.

(** Two requests whose headers differ inside of secrets only. *)
Definition headers_alike (h h' : HeaderMap) : Prop :=
  headers_ok h ∧ headers_ok h' ∧
  ∀ n, h !! n = h' !! n ∨
    (is_sensitive_header n = true ∧ ∃ vs vs', h !! n = Some vs ∧ h' !! n = Some vs' ∧
      Forall2 (λ v v', value_alike (default "<non-utf8>" (to_str v)) (default "<non-utf8>" (to_str v'))) vs vs').

Lemma capture_alike h h' : headers_alike h h' → capture_headers h = capture_headers h'.
Proof.
  intros (Hh & Hh' & Ha). apply map_eq. intros n. rewrite !capture_headers_spec //.
  destruct (Ha n) as [-> |(Hs & vs & vs' & -> & -> & Hvs)]; [done|]. cbn. f_equal.
  induction Hvs as [|v v' vs vs' Hv _ IH]; [done|]. cbn. f_equal; [|done].
  unfold recorded_value, redact_header_value. rewrite Hs. by apply redact_secret_alike.
Qed.

Lemma base_url_alike h h' : headers_alike h h' → request_base_url h = request_base_url h'.
Proof.
  intros (_ & _ & Ha). unfold request_base_url, header_get. destruct (Ha "host") as [-> |[Hs _]]; [done|]. by vm_compute in Hs.
Qed.

Definition with_headers (h : HeaderMap) (ctx : ReviewContext) : ReviewContext :=
  mkContext (cx_method ctx) (cx_path_and_query ctx) h (cx_body ctx) (cx_provider ctx) (cx_upstream_base_url ctx) (cx_request ctx).

Lemma override_with_headers model h ctx : context_override model (with_headers h ctx) = with_headers h (context_override model ctx).
Proof. unfold context_override. cbn -[apply_model_override]. by destruct (apply_model_override (cx_provider ctx) model _) as [[??]?]. Qed.

Lemma draft_alike now ctx h h' : headers_alike h h' →
  context_draft now (with_headers h ctx) = context_draft now (with_headers h' ctx).
Proof. intros Ha. unfold context_draft, draft_of. cbn. by rewrite (capture_alike h h' Ha) (base_url_alike h h' Ha). Qed.

Lemma execute_alike ctx turn h h' : headers_alike h h' →
  execute_buffered (with_headers h ctx) turn = execute_buffered (with_headers h' ctx) turn.
Proof. intros Ha. unfold execute_buffered. by rewrite (draft_alike _ ctx h h' Ha). Qed.

(** What an outcome leaves behind. *)
Definition kept (o : Outcome) : list SpanDraft * list ReviewItem * option Answer := (o_recorded o, o_items o, o_reply o).

Lemma reviewed_alike n ctx turns h h' : headers_alike h h' →
  kept <$> reviewed n (with_headers h ctx) turns = kept <$> reviewed n (with_headers h' ctx) turns.
Proof.
  intros Ha. revert n ctx. induction turns as [|turn turns IH]; intros n ctx; [done|]. cbn [reviewed].
  rewrite (execute_alike ctx turn h h' Ha). destruct (execute_buffered _ turn) as [[outcome|errored]|]; [|done..]. cbn.
  destruct (tn_decision turn) as [m|m|m]; [done..|]. destruct (clean_model m) as [model|].
  - rewrite !override_with_headers. specialize (IH (saturating_add32 n 1) (context_override model ctx)).
    destruct (reviewed _ (with_headers h _) turns), (reviewed _ (with_headers h' _) turns); cbn in *; try done.
    unfold kept, also in *. cbn. congruence.
  - specialize (IH (saturating_add32 n 1) ctx).
    destruct (reviewed _ (with_headers h _) turns), (reviewed _ (with_headers h' _) turns); cbn in *; try done.
    unfold kept, also in *. cbn. congruence.
Qed.

Lemma prepare_headers s method path pq h body :
  prepare s method path pq h body = with_headers h (prepare s method path pq ∅ body).
Proof. unfold prepare. destruct (clean_model _) as [model|]; [|done]. by rewrite -override_with_headers. Qed.
End exchange.

(** C5. The secrets of a request are not recorded: two requests that differ inside
    of the tokens of sensitive headers only, leave the same spans, the same items
    for review and the same answers, whatever providers and people do. *)
Theorem secrets_not_recorded `{!JsonText, !JsonShow, !Utf8, !HeaderText} (s : ProxyState)
    (method path path_and_query body : string) (h h' : HeaderMap) (turns : list Turn) (accepts : option nat) :
  headers_alike h h' →
  kept <$> proxy_handler s method path path_and_query h body turns accepts =
  kept <$> proxy_handler s method path path_and_query h' body turns accepts.
Proof.
  intros Ha. unfold proxy_handler. destruct (negb _); [done|].
  rewrite (prepare_headers s _ _ _ h) (prepare_headers s _ _ _ h'). set (ctx := prepare _ _ _ _ ∅ _).
  destruct (reviews_enabled s); [by apply reviewed_alike|]. destruct turns as [|turn turns]; [done|]. cbn.
  unfold draft_of. rewrite (capture_alike h h' Ha) (base_url_alike h h' Ha). unfold stream_through.
  destruct (tn_upstream turn) as [error|status headers chunks]; [done|]. by destruct (tee _ _ _) as [[??]?].
Qed.

(** ** Answers *)

Section answers.
Context `{!JsonText, !JsonShow, !Utf8, !HeaderText}.

(** The text of the pieces that came through. *)
Definition text_sent (chunks : list (result string string)) : string :=
  str_concat (omap (λ c, match c with Ok s => Some s | Err _ => None end) chunks).

Lemma complete_total d body streaming latency : ∃ d', complete_span_draft d body streaming latency = Some d' ∧
  sd_status d' = sd_status d ∧ sd_error d' = sd_error d ∧ sd_latency_ms d' = latency.
Proof.
  unfold complete_span_draft. destruct streaming; [|by eexists]. unfold reconstruct.
  destruct (feed_all_total Reassembler_new (parse_events body)) as [st ->]. cbn. destruct (finish st). by eexists.
Qed.

(** An attempt after which another is made. *)
Definition retried (turn : Turn) : Prop :=
  ∃ status headers chunks body m, tn_upstream turn = Answered status headers chunks ∧ read_all chunks = Ok body ∧
    tn_decision turn = Retry m.

(** The last attempt, what the agent gets and the span of it. *)
Definition concluded (turn : Turn) (reply : Answer) (d : SpanDraft) : Prop :=
  match tn_upstream turn with
  | Failed error => reply = error_response 502 "upstream request failed" ∧ sd_error d = Some error
  | Answered status headers chunks =>
      match read_all chunks with
      | Err error => reply = error_response 502 "upstream request failed" ∧ sd_error d = Some error
      | Ok body =>
          match tn_decision turn with
          | Approve _ => reply = buffered_response status (forward_response_headers headers) body ∧
              sd_status d = status ∧ sd_error d = None
          | Reject m => reply = error_response 499 (review_rejection_message m) ∧
              sd_status d = 499%Z ∧ sd_error d = Some (review_rejection_message m)
          | Retry _ => False
          end
      end
  end.

Definition regenerated (d : SpanDraft) : Prop := sd_error d = Some "regenerated by operator".

Lemma execute_cases ctx turn : ∃ r, execute_buffered ctx turn = Some r ∧
  match tn_upstream turn with
  | Failed error => ∃ d, r = Err d ∧ sd_error d = Some error
  | Answered status headers chunks =>
      match read_all chunks with
      | Err error => ∃ d, r = Err d ∧ sd_error d = Some error
      | Ok body => ∃ d, r = Ok (mkAttempt status (forward_response_headers headers) body d) ∧
          sd_status d = status ∧ sd_error d = None
      end
  end.
Proof.
  unfold execute_buffered. destruct (tn_upstream turn) as [error|status headers chunks]; [by eauto|].
  destruct (read_all chunks) as [body|error]; [|by eauto].
  destruct (complete_total (with_answer (context_draft (tn_now turn) ctx) status headers) body (is_streaming headers) (tn_latency turn))
    as (d & -> & Hst & Herr & _). eexists. split; [done|]. exists d. by split_and!.
Qed.

Lemma reviewed_spec n ctx turns : ∃ o, reviewed n ctx turns = Some o ∧
  length (o_requests o) = length (o_recorded o) ∧
  ((Forall retried turns ∧ o_reply o = None ∧ length (o_requests o) = length turns ∧ Forall regenerated (o_recorded o)) ∨
   ∃ before turn after reply spans d, turns = (before ++ turn :: after)%list ∧ Forall retried before ∧
     o_reply o = Some reply ∧ length (o_requests o) = S (length before) ∧
     o_recorded o = (spans ++ [d])%list ∧ Forall regenerated spans ∧ concluded turn reply d).
Proof.
  revert n ctx. induction turns as [|turn turns IH]; intros n ctx; cbn [reviewed].
  { eexists. split; [done|]. split; [done|]. left. by repeat split. }
  destruct (execute_cases ctx turn) as (r & -> & Hr). cbn [mbind option_bind].
  assert (Hend : ∀ rq items reply d, concluded turn reply d → ∃ o, Some (mkOutcome [rq] [d] items (Some reply)) = Some o ∧
    length (o_requests o) = length (o_recorded o) ∧
    ((Forall retried (turn :: turns) ∧ o_reply o = None ∧ length (o_requests o) = length (turn :: turns) ∧ Forall regenerated (o_recorded o)) ∨
     ∃ before turn' after reply spans d, turn :: turns = (before ++ turn' :: after)%list ∧ Forall retried before ∧
       o_reply o = Some reply ∧ length (o_requests o) = S (length before) ∧
       o_recorded o = (spans ++ [d])%list ∧ Forall regenerated spans ∧ concluded turn' reply d)).
  { intros rq items reply d Hc. eexists. split; [done|]. split; [done|]. right. exists [], turn, turns, reply, [], d. by split_and!. }
  destruct (tn_upstream turn) as [error|status headers chunks] eqn:Hup.
  { destruct Hr as (d & -> & Hd). apply Hend. unfold concluded. by rewrite Hup. }
  destruct (read_all chunks) as [body|error] eqn:Hread.
  2: { destruct Hr as (d & -> & Hd). apply Hend. unfold concluded. by rewrite Hup Hread. }
  destruct Hr as (d & -> & Hst & Herr). cbn. destruct (tn_decision turn) as [m|m|m] eqn:Hdec.
  - apply Hend. unfold concluded. by rewrite Hup Hread Hdec.
  - apply Hend. unfold concluded. by rewrite Hup Hread Hdec.
  - destruct (IH (saturating_add32 n 1) (match clean_model m with Some model => context_override model ctx | None => ctx end))
      as (o & -> & Hlen & Ho). eexists. split; [done|]. cbn. split; [by rewrite Hlen|].
    assert (Hret : retried turn) by (by exists status, headers, chunks, body, m).
    destruct Ho as [(Hall & Hnone & Hcount & Hreg)|(before & t & after & reply & spans & d' & -> & Hbefore & Hrep & Hcount & -> & Hreg & Hc)].
    + left. split_and!; [by constructor|done|by rewrite Hcount|by constructor].
    + right. eexists (turn :: before), t, after, reply, (_ :: spans), d'. cbn. rewrite Hcount.
      split_and!; [done|by constructor|done|done|done|by constructor|done].
Qed.

(** Streaming: the agent gets a beginning of what is recorded, all of it if it
    stays to the end. *)
Lemma tee_spec accepts acc chunks acc' sent error : tee accepts acc chunks = (acc', sent, error) →
  ∃ more, acc' = acc ++ text_sent sent ++ more ∧ (accepts = None → more = "" ∧
    ∃ rest, chunks = (sent ++ rest)%list ∧ (rest = [] ∨ error ≠ None)).
Proof.
  revert accepts acc acc' sent error. induction chunks as [|[chunk|message] chunks IH]; intros accepts acc acc' sent error; cbn.
  - intros [= <- <- <-]. exists "". cbn. rewrite !app_nil_r_s. split; [done|]. intros _. split; [done|]. exists []. auto.
  - destruct accepts as [[|k]|].
    + intros [= <- <- <-]. by exists chunk.
    + destruct (tee _ _ _) as [[acc1 sent1] error1] eqn:Ht. intros [= <- <- <-].
      destruct (IH _ _ _ _ _ Ht) as (more & -> & _). exists more. unfold text_sent. cbn. split; [by rewrite !app_assoc_s|done].
    + destruct (tee _ _ _) as [[acc1 sent1] error1] eqn:Ht. intros [= <- <- <-].
      destruct (IH _ _ _ _ _ Ht) as (more & -> & Hn). exists more. unfold text_sent. cbn. split; [by rewrite !app_assoc_s|].
      intros _. destruct (Hn eq_refl) as (-> & rest & -> & Hrest). split; [done|]. by exists rest.
  - intros [= <- <- <-]. exists "". split; [destruct accepts as [[|]|]; cbn; by rewrite !app_nil_r_s|].
    intros ->. split; [done|]. exists chunks. split; [done|by right].
Qed.
End answers.


(** ** The model a session forces *)

Lemma override_forces_model provider model l path : provider ≠ Gemini →
  has_field "model_id" l && has_field "model" l = false →
  request_model provider (Object (override_fields provider model l)) path = Some model.
Proof.
  intros Hp Hboth. unfold request_model, override_fields, has_field in *. cbn [v_get].
  destruct (bool_decide (obj_get "model_id" l ≠ None)) eqn:Hid.
  - cbn in Hboth. rewrite !obj_get_insert. apply bool_decide_eq_false in Hboth.
    destruct (obj_get "model" l) eqn:Hm; [by destruct Hboth|]. reflexivity.
  - destruct provider; [| |done]; rewrite orb_true_r !obj_get_insert; reflexivity.
Qed.

(** Of a body with both fields only one is changed, and not the one that counts. *)
Example model_kept_beside_model_id :
  request_model OpenAI (Object (override_fields OpenAI "forced" [("model", Str "mine"); ("model_id", Str "mine")])) "/v1/x" =
  Some "mine".
Proof. reflexivity. Qed.

(** ** Examples *)

Example upstream_urls :
  upstream_url Anthropic "https://api.anthropic.com" "/v1/messages" = "https://api.anthropic.com/v1/messages" ∧
  upstream_url OpenAI "https://gateway.example/v1" "/v1/chat/completions" = "https://gateway.example/v1/chat/completions" ∧
  upstream_url Gemini "https://g.example" "/v1beta/models/m:generateContent" = "https://g.example/v1beta/models/m:generateContent" ∧
  classify "/v1/complete" = Anthropic ∧ classify "/v1/completions" = OpenAI ∧
  is_allowed_path "/v1/messages/count" = true ∧ is_allowed_path "/favicon.ico" = false.
Proof. vm_compute. split_and!; reflexivity. Qed.

(** Of a header given twice one value goes on. *)
Example repeated_header_lost :
  filter_headers {["set-cookie" := ["a=1"; "b=2"]]} RESPONSE_DROP !! "set-cookie" = Some ["b=2"].
Proof. by rewrite filter_headers_spec. Qed.

(** The word before the first space is taken for a scheme: of a cookie header it
    is the first cookie. *)
Example first_cookie_recorded :
  redact_header_value "cookie" "session=c2VjcmV0c2VjcmV0; theme=dark" = "session=c2VjcmV0c2VjcmV0; them...dark (10)".
Proof. vm_compute. reflexivity. Qed.

Section example.
Local Instance no_json : JsonText := {| json_from_str _ := None |}.
Local Instance no_show : JsonShow := {| json_to_string _ := "{}" |}.
Local Instance same_utf8 : Utf8 := {| from_utf8_lossy s := s |}.
Local Instance same_text : HeaderText := {| to_str := Some |}.

Definition bearer (secret : string) : HeaderMap :=
  {["authorization" := ["Bearer sk-a" ++ secret ++ "WXYZ"]; "host" := ["localhost"]]}.

Lemma bearer_ok secret : headers_ok (bearer secret).
Proof.
  intros n vs Hn. unfold bearer in Hn. apply lookup_insert_Some in Hn as [[<- <-]|[_ Hn]]; [by split|].
  by apply lookup_singleton_Some in Hn as [<- <-].
Qed.

Lemma bearer_alike : headers_alike (bearer "0123456789") (bearer "abcdefghij").
Proof.
  split_and!; [apply bearer_ok..|]. intros n. destruct (decide (n = "authorization")) as [-> |Hn].
  - right. split; [done|]. eexists _, _. split; [done|]. split; [done|]. constructor; [|constructor]. right.
    exists (Some "Bearer"), "sk-a", "0123456789", "abcdefghij", "WXYZ". by vm_compute; split_and!; [..|lia].
  - left. unfold bearer. do 2 (rewrite lookup_insert_ne; [congruence|]). done.
Qed.

Definition example_proxy (secret : string) : option Outcome :=
  proxy_handler (mkProxy (Upstreams_new (λ _, None)) false None) "POST" "/v1/messages" "/v1/messages" (bearer secret) "hi"
    [mkTurn "t0" (Answered 200 ∅ [Ok "one"; Ok "two"]) 12 "r1" approve] None.

Lemma secrets_not_recorded_witness :
  kept <$> example_proxy "0123456789" = kept <$> example_proxy "abcdefghij" ∧
  (λ o, map rq_url (o_requests o)) <$> example_proxy "0123456789" = Some ["https://api.anthropic.com/v1/messages"].
Proof.
  split; [|vm_compute; reflexivity].
  exact (secrets_not_recorded (mkProxy (Upstreams_new (λ _, None)) false None) "POST" "/v1/messages" "/v1/messages" "hi"
    (bearer "0123456789") (bearer "abcdefghij") [mkTurn "t0" (Answered 200 ∅ [Ok "one"; Ok "two"]) 12 "r1" approve] None bearer_alike).
Defined.
End example.
