(* ===== verification/Client.v ===== *)
(** * Frames, commands and text of the connection
    (crates/omniagent-cli/src/client/mod.rs, client/conn.rs, protocol.rs)

    The messages to and from the server, and the decoding of terminal output that
    arrives in chunks which may end inside a character. *)
From S2P Require Import Prelude Str Json.

(** ** UTF-8 ([core::str::from_utf8]) *)

Definition in_range (lo hi : Z) (a : ascii) : bool := (lo <=? code a)%Z && (code a <=? hi)%Z.
Definition is_cont : ascii → bool := in_range 128 191.

(** What comes next: a character of so many bytes, so many bytes that are none,
    or the start of a character that is cut off. *)
Inductive Next : Type := Char (n : nat) | Bad (n : nat) | Cut.

#[global] Instance Next_eq_dec : EqDecision Next.
Proof. solve_decision. Defined.

(** The second byte of a character of three or four bytes. *)
Definition second_ok (a b : ascii) : bool :=
  let c := code a in
  if (c =? 224)%Z then in_range 160 191 b
  else if (c =? 237)%Z then in_range 128 159 b
  else if (c =? 240)%Z then in_range 144 191 b
  else if (c =? 244)%Z then in_range 128 143 b
  else is_cont b.

Definition next_char (s : string) : Next :=
  match s with
  | EmptyString => Cut
  | String a s1 =>
      if (code a <? 128)%Z then Char 1
      else if in_range 194 223 a then
        match s1 with EmptyString => Cut | String b _ => if is_cont b then Char 2 else Bad 1 end
      else if in_range 224 239 a then
        match s1 with
        | EmptyString => Cut
        | String b s2 => if second_ok a b then
            match s2 with EmptyString => Cut | String d _ => if is_cont d then Char 3 else Bad 2 end
          else Bad 1
        end
      else if in_range 240 244 a then
        match s1 with
        | EmptyString => Cut
        | String b s2 => if second_ok a b then
            match s2 with
            | EmptyString => Cut
            | String d s3 => if is_cont d then
                match s3 with EmptyString => Cut | String e _ => if is_cont e then Char 4 else Bad 3 end
              else Bad 2
            end
          else Bad 1
        end
      else Bad 1
  end.

(** [from_utf8]: the bytes that are valid, and the error after them if there is
    one, with its length unless the text is cut off. *)
Fixpoint validate (fuel : nat) (s : string) : nat * option (option nat) :=
  match fuel, s with
  | S fuel, String _ _ =>
      match next_char s with
      | Char n => let '(valid, err) := validate fuel (str_drop n s) in (n + valid, err)
      | Bad n => (0, Some (Some n))
      | Cut => (0, Some None)
      end
  | _, _ => (0, None)
  end.

Definition from_utf8 (s : string) : nat * option (option nat) := validate (String.length s) s.
Definition valid_utf8 (s : string) : Prop := (from_utf8 s).2 = None.

Definition REPLACEMENT : string := bytes_str [239; 191; 189]%Z.

(** The loop of [decode_streaming], on the bytes carried. *)
Fixpoint decode_loop (fuel : nat) (carry out : string) : string * string :=
  match fuel with
  | O => (out, carry)
  | S fuel =>
      match from_utf8 carry with
      | (_, None) => (out ++ carry, "")
      | (valid, Some err) =>
          let out := out ++ str_take valid carry in
          match err with
          | Some len => decode_loop fuel (str_drop (valid + len) carry) (out ++ REPLACEMENT)
          | None => (out, str_drop valid carry)
          end
      end
  end.

(** The text of a chunk, and what is carried to the next. *)
Definition decode_streaming (carry chunk : string) : string * string :=
  let carry := carry ++ chunk in decode_loop (S (String.length carry)) carry "".

Fixpoint decode_chunks (carry : string) (chunks : list string) : string * string :=
  match chunks with
  | [] => ("", carry)
  | chunk :: chunks =>
      let '(out, carry) := decode_streaming carry chunk in
      let '(out', carry) := decode_chunks carry chunks in (out ++ out', carry)
  end.

Example split_character : decode_chunks "" [bytes_str [240; 159]; bytes_str [166]; bytes_str [128]]%Z = (bytes_str [240; 159; 166; 128]%Z, "").
Proof. vm_compute. reflexivity. Qed.
Example bad_byte : decode_streaming "" (bytes_str [97; 255; 98]%Z) = ("a" ++ REPLACEMENT ++ "b", "").
Proof. vm_compute. reflexivity. Qed.

(** ** Chunks do not matter *)

(** Character by character. *)
Fixpoint decode (fuel : nat) (s : string) : string * string :=
  match fuel, s with
  | S fuel, String _ _ =>
      match next_char s with
      | Char n => let '(out, rest) := decode fuel (str_drop n s) in (str_take n s ++ out, rest)
      | Bad n => let '(out, rest) := decode fuel (str_drop n s) in (REPLACEMENT ++ out, rest)
      | Cut => ("", s)
      end
  | _, _ => ("", "")
  end.

Definition width (x : Next) : nat := match x with Char n | Bad n => n | Cut => 0 end.

Lemma next_width s : s ≠ "" → next_char s ≠ Cut → (1 ≤ width (next_char s) ≤ String.length s)%nat.
Proof.
  destruct s as [|a [|b [|d [|e s]]]]; [done|..]; intros _; unfold next_char; repeat case_match; simpl; lia || done.
Qed.

Lemma next_app s t : s ≠ "" → next_char s ≠ Cut → next_char (s ++ t) = next_char s.
Proof. destruct s as [|a [|b [|d [|e s]]]]; [done|..]; intros _; unfold next_char; simpl; repeat case_match; done. Qed.

Lemma cut_short s : next_char s = Cut → (String.length s ≤ 3)%nat.
Proof. destruct s as [|a [|b [|d [|e s]]]]; unfold next_char; simpl; repeat case_match; lia || done. Qed.

Lemma take_drop_s n s : str_take n s ++ str_drop n s = s.
Proof. revert s. induction n as [|n IH]; intros [|a s]; simpl; [done..|]. by rewrite IH. Qed.

Lemma str_take_add n m s : str_take (n + m) s = str_take n s ++ str_take m (str_drop n s).
Proof. revert s. induction n as [|n IH]; intros [|a s]; simpl; [done|done|by destruct m|by rewrite IH]. Qed.

Lemma str_drop_add n m s : str_drop (n + m) s = str_drop m (str_drop n s).
Proof. revert s. induction n as [|n IH]; intros [|a s]; simpl; [done|done|by destruct m|by rewrite IH]. Qed.

Lemma length_drop_s n s : String.length (str_drop n s) = (String.length s - n)%nat.
Proof. revert s. induction n as [|n IH]; intros [|a s]; simpl; [done..|]. by rewrite IH. Qed.

Lemma take_app_s n s t : (n ≤ String.length s)%nat → str_take n (s ++ t) = str_take n s ∧ str_drop n (s ++ t) = str_drop n s ++ t.
Proof.
  revert s. induction n as [|n IH]; intros [|a s]; simpl; [done|done|lia|]. intros Hn. destruct (IH s) as [-> ->]; [lia|done].
Qed.

(** Recursion on what remains. *)
Lemma text_ind (P : string → Prop) :
  (∀ s, (∀ n, s ≠ "" → next_char s ≠ Cut → n = width (next_char s) → P (str_drop n s)) → P s) → ∀ s, P s.
Proof.
  intros Hstep s. remember (String.length s) as m eqn:Em. revert s Em.
  induction (lt_wf m) as [m _ IH]. intros s ->. apply Hstep. intros n Hs Hc ->.
  pose proof (next_width s Hs Hc). apply (IH (String.length (str_drop (width (next_char s)) s))); [|done].
  rewrite length_drop_s. lia.
Qed.

Lemma decode_fuel s : ∀ f, (String.length s ≤ f)%nat → decode f s = decode (String.length s) s.
Proof.
  induction s as [s IH] using text_ind. intros f Hf. destruct s as [|a s]; [by destruct f|].
  destruct f as [|f]; [simpl in Hf; lia|]. cbn [decode String.length].
  destruct (decide (next_char (String a s) = Cut)) as [->|Hc]; [done|].
  pose proof (next_width (String a s) ltac:(done) Hc) as Hw.
  specialize (IH (width (next_char (String a s))) ltac:(done) Hc eq_refl).
  destruct (next_char (String a s)) as [n|n|]; [| |done]; cbn [width] in *; simpl in Hf;
    (rewrite (IH f) ?(IH (String.length s)) //; rewrite length_drop_s; simpl; lia).
Qed.

Definition decoded (s : string) : string * string := decode (String.length s) s.

(** [String::from_utf8_lossy]: what is no character is replaced, also where the
    bytes break off inside one. *)
Definition lossy (s : string) : string := let '(out, rest) := decoded s in if decide (rest = "") then out else out ++ REPLACEMENT.

Lemma decoded_step s : s ≠ "" → decoded s =
  match next_char s with
  | Char n => let '(out, rest) := decoded (str_drop n s) in (str_take n s ++ out, rest)
  | Bad n => let '(out, rest) := decoded (str_drop n s) in (REPLACEMENT ++ out, rest)
  | Cut => ("", s)
  end.
Proof.
  intros Hs. destruct (decide (next_char s = Cut)) as [Hc|Hc].
  - rewrite Hc. unfold decoded. destruct s as [|a s]; [done|]. cbn [decode String.length]. by rewrite Hc.
  - pose proof (next_width s Hs Hc) as Hw. unfold decoded. destruct s as [|a s]; [done|]. cbn [decode String.length].
    destruct (next_char (String a s)) as [n|n|]; [| |done]; cbn [width] in Hw; simpl in Hw;
      (rewrite (decode_fuel (str_drop n (String a s)) (String.length s)) //; rewrite length_drop_s; simpl; lia).
Qed.

Lemma validate_fuel s : ∀ f, (String.length s ≤ f)%nat → validate f s = from_utf8 s.
Proof.
  unfold from_utf8. induction s as [s IH] using text_ind. intros f Hf. destruct s as [|a s]; [by destruct f|].
  destruct f as [|f]; [simpl in Hf; lia|]. cbn [validate String.length].
  destruct (decide (next_char (String a s) = Cut)) as [->|Hc]; [done|].
  pose proof (next_width (String a s) ltac:(done) Hc) as Hw.
  specialize (IH (width (next_char (String a s))) ltac:(done) Hc eq_refl).
  destruct (next_char (String a s)) as [n|n|]; [|done|done]; cbn [width] in *; simpl in Hf.
  rewrite (IH f) ?(IH (String.length s)) //; rewrite length_drop_s; simpl; lia.
Qed.

Lemma from_utf8_step s : s ≠ "" → from_utf8 s =
  match next_char s with
  | Char n => let '(valid, err) := from_utf8 (str_drop n s) in (n + valid, err)
  | Bad n => (0, Some (Some n))
  | Cut => (0, Some None)
  end.
Proof.
  intros Hs. unfold from_utf8 at 1. destruct s as [|a s]; [done|]. cbn [validate String.length].
  destruct (decide (next_char (String a s) = Cut)) as [->|Hc]; [done|].
  pose proof (next_width (String a s) ltac:(done) Hc) as Hw.
  destruct (next_char (String a s)) as [n|n|]; [|done|done]; cbn [width] in Hw; simpl in Hw.
  rewrite (validate_fuel (str_drop n (String a s)) (String.length s)) //. rewrite length_drop_s; simpl; lia.
Qed.

(** The standard library's loop decodes character by character. *)
Lemma decoded_valid s : decoded s =
  match from_utf8 s with
  | (_, None) => (s, "")
  | (valid, Some None) => (str_take valid s, str_drop valid s)
  | (valid, Some (Some len)) =>
      let '(out, rest) := decoded (str_drop (valid + len) s) in (str_take valid s ++ REPLACEMENT ++ out, rest)
  end.
Proof.
  induction s as [s IH] using text_ind. destruct (decide (s = "")) as [->|Hs]; [done|].
  rewrite decoded_step // from_utf8_step //. destruct (decide (next_char s = Cut)) as [Hc|Hc]; [by rewrite Hc|].
  pose proof (next_width s Hs Hc) as Hw. specialize (IH _ Hs Hc eq_refl).
  destruct (next_char s) as [n|n|]; [| |done]; cbn [width] in *; [|done].
  rewrite IH. destruct (from_utf8 (str_drop n s)) as [v [[len|]|]].
  - rewrite -Nat.add_assoc (str_drop_add n) str_take_add. destruct (decoded (str_drop (v + len) (str_drop n s))) as [out rest]. by rewrite app_assoc_s.
  - by rewrite str_drop_add str_take_add.
  - by rewrite take_drop_s.
Qed.

Lemma error_bounds s v n : from_utf8 s = (v, Some (Some n)) → (1 ≤ n)%nat ∧ (v + n ≤ String.length s)%nat.
Proof.
  revert v. induction s as [s IH] using text_ind. intros v. destruct (decide (s = "")) as [->|Hs]; [done|].
  rewrite from_utf8_step //. destruct (decide (next_char s = Cut)) as [->|Hc]; [done|].
  pose proof (next_width s Hs Hc) as Hw. specialize (IH _ Hs Hc eq_refl).
  destruct (next_char s) as [k|k|]; [| |done]; cbn [width] in *.
  - destruct (from_utf8 (str_drop k s)) as [v' e] eqn:E. intros [= <- ->]. destruct (IH v' eq_refl) as [H1 H2].
    rewrite length_drop_s in H2. lia.
  - intros [= <- <-]. lia.
Qed.

Lemma decode_loop_ok fuel s out : (String.length s < fuel)%nat →
  decode_loop fuel s out = (out ++ (decoded s).1, (decoded s).2).
Proof.
  revert s out. induction fuel as [|fuel IH]; intros s out Hf; [lia|]. cbn [decode_loop]. rewrite (decoded_valid s).
  destruct (from_utf8 s) as [v [[n|]|]] eqn:E; [|done|done].
  apply error_bounds in E as [H1 H2]. rewrite IH; [rewrite length_drop_s; lia|].
  destruct (decoded (str_drop (v + n) s)) as [o r]. simpl. by rewrite !app_assoc_s.
Qed.

Lemma streaming_decoded carry chunk : decode_streaming carry chunk = decoded (carry ++ chunk).
Proof. unfold decode_streaming. rewrite decode_loop_ok; [lia|]. by destruct (decoded _). Qed.

Lemma decoded_app a b : decoded (a ++ b) =
  let '(out, rest) := decoded a in let '(out', rest') := decoded (rest ++ b) in (out ++ out', rest').
Proof.
  induction a as [a IH] using text_ind. destruct (decide (a = "")) as [->|Ha]; [simpl; by destruct (decoded b)|].
  destruct (decide (next_char a = Cut)) as [Hc|Hc]; [rewrite (decoded_step a) // Hc; simpl; by destruct (decoded _)|].
  pose proof (next_width a Ha Hc) as Hw. specialize (IH _ Ha Hc eq_refl).
  assert (Hab : a ++ b ≠ "") by by destruct a.
  rewrite decoded_step // next_app // (decoded_step a) //. destruct (next_char a) as [n|n|]; [| |done]; cbn [width] in *;
    destruct (take_app_s n a b) as [Ht Hd]; try lia; rewrite ?Ht Hd IH; destruct (decoded (str_drop n a)) as [o r];
    destruct (decoded (r ++ b)) as [o' r']; by rewrite app_assoc_s.
Qed.

Lemma decoded_rest s : decoded (decoded s).2 = ("", (decoded s).2) ∧ (String.length (decoded s).2 ≤ 3)%nat.
Proof.
  induction s as [s IH] using text_ind. destruct (decide (s = "")) as [->|Hs]; [simpl; split; [done|lia]|].
  rewrite (decoded_step s) //. destruct (decide (next_char s = Cut)) as [Hc|Hc].
  - rewrite Hc. simpl. split; [by rewrite decoded_step // Hc|by apply cut_short].
  - specialize (IH _ Hs Hc eq_refl). destruct (next_char s) as [n|n|]; [| |done]; cbn [width] in *; by destruct (decoded (str_drop n s)).
Qed.

Lemma take_char s n : next_char s = Char n → next_char (str_take n s) = Char n ∧ String.length (str_take n s) = n.
Proof.
  intros H. destruct s as [|a [|b [|d [|e s]]]]; unfold next_char in H;
    repeat match type of H with context [if ?x then _ else _] => destruct x eqn:? end;
    simplify_eq; cbn [str_take String.length]; split; try reflexivity; unfold next_char;
    repeat match goal with E : _ = ?v |- _ => match v with true => rewrite E | false => rewrite E end end; reflexivity.
Qed.

Lemma valid_char u t : u ≠ "" → next_char u = Char (String.length u) → valid_utf8 t → valid_utf8 (u ++ t).
Proof.
  intros Hu Hn Ht. unfold valid_utf8. rewrite from_utf8_step; [by destruct u|]. rewrite next_app // ?Hn //.
  destruct (take_app_s (String.length u) u t) as [_ ->]; [done|].
  assert (Hd : str_drop (String.length u) u = "") by (clear; induction u; done).
  rewrite Hd. unfold valid_utf8 in Ht. simpl. by destruct (from_utf8 t).
Qed.

Lemma lossy_valid s : valid_utf8 s → lossy s = s.
Proof.
  unfold valid_utf8, lossy. rewrite decoded_valid. destruct (from_utf8 s) as [v [[n|]|]]; cbn; try done.
Qed.

Lemma decoded_is_valid s : valid_utf8 (decoded s).1.
Proof.
  induction s as [s IH] using text_ind. destruct (decide (s = "")) as [->|Hs]; [done|]. rewrite (decoded_step s) //.
  destruct (decide (next_char s = Cut)) as [Hc|Hc]; [by rewrite Hc|].
  pose proof (next_width s Hs Hc) as Hw. specialize (IH _ Hs Hc eq_refl).
  destruct (next_char s) as [n|n|] eqn:En; [| |done]; cbn [width] in *; destruct (decoded (str_drop n s)) as [o r]; cbn [fst].
  - destruct (take_char s n En) as [Ht Hl]. apply valid_char; [by intros He; rewrite He /= in Hl; lia|by rewrite Hl|done].
  - by apply valid_char.
Qed.

Lemma chunks_decoded carry chunks : decoded carry = ("", carry) →
  decode_chunks carry chunks = decoded (carry ++ str_concat chunks).
Proof.
  revert carry. induction chunks as [|chunk chunks IH]; intros carry Hc; simpl; [by rewrite app_nil_r_s Hc|].
  rewrite streaming_decoded -app_assoc_s (decoded_app (carry ++ chunk)).
  pose proof (proj1 (decoded_rest (carry ++ chunk))) as Hr. destruct (decoded (carry ++ chunk)) as [o r]. simpl in Hr.
  by rewrite IH.
Qed.

(** C31. Wherever the output of a terminal is cut into chunks, the text sent is that
    of the whole, with at most three bytes carried over; it is always valid
    UTF-8, and the very bytes if these are. *)
Theorem decode_chunks_spec (chunks : list string) :
  decode_chunks "" chunks = decode_streaming "" (str_concat chunks) ∧
  valid_utf8 (decode_chunks "" chunks).1 ∧ (String.length (decode_chunks "" chunks).2 ≤ 3)%nat ∧
  (valid_utf8 (str_concat chunks) → decode_chunks "" chunks = (str_concat chunks, "")).
Proof.
  rewrite streaming_decoded chunks_decoded //. simpl. split_and!; [done|apply decoded_is_valid|apply decoded_rest|].
  intros Hv. rewrite decoded_valid. unfold valid_utf8 in Hv. destruct (from_utf8 (str_concat chunks)) as [v e]. simpl in Hv. by subst e.
Qed.

Lemma decode_chunks_spec_witness :
  decode_chunks "" ["h"; "i"] = (str_concat ["h"; "i"], "").
Proof. apply (decode_chunks_spec ["h"; "i"]). reflexivity. Defined.

(** ** Commands of the server *)

Inductive ServerCommand : Type :=
| PtyInput (data : string)
| PtyResize (rows cols : Z)
| ReviewDecision (id : string) (decision : Value)
| FileRequest (path : string)
| DiffRequest (path : string)
| ListDir (path : string)
| Shutdown
| SpawnAgent (agent : string) (custom_command : list string) (cwd name : option string) (app_server : bool)
    (model workspace branch : option string) (create_worktree : bool) (worktree base_branch : option string)
| CodexInput (text : string)
| CodexInterrupt
| CreateWorkspace (name : string).

Definition get_str (key : string) (payload : Value) : option string := v_get key payload ≫= as_string.
Definition str_or_empty (key : string) (payload : Value) : string := default "" (get_str key payload).
Definition get_u16 (key : string) (payload : Value) : option Z :=
  n ← v_get key payload ≫= as_u64; if (n <=? u16_max)%Z then Some n else None.
Definition get_bool (key : string) (payload : Value) : bool := default false (v_get key payload ≫= as_bool).

Definition decode_command (event : string) (payload : Value) : option ServerCommand :=
  if decide (event = "pty_input") then data ← get_str "data" payload; Some (PtyInput data)
  else if decide (event = "pty_resize") then
    rows ← get_u16 "rows" payload; cols ← get_u16 "cols" payload; Some (PtyResize rows cols)
  else if decide (event = "review_decision") then
    id ← get_str "id" payload; Some (ReviewDecision id (default Null (v_get "decision" payload)))
  else if decide (event = "file_request") then Some (FileRequest (str_or_empty "path" payload))
  else if decide (event = "diff_request") then Some (DiffRequest (str_or_empty "path" payload))
  else if decide (event = "dir_request") then Some (ListDir (str_or_empty "path" payload))
  else if decide (event = "shutdown") then Some Shutdown
  else if decide (event = "spawn_agent") then
    Some (SpawnAgent (str_or_empty "agent" payload)
      (omap as_string (default [] (v_get "custom_command" payload ≫= as_array)))
      (get_str "cwd" payload) (get_str "name" payload) (get_bool "app_server" payload)
      (get_str "model" payload) (get_str "workspace" payload) (get_str "branch" payload)
      (get_bool "create_worktree" payload) (get_str "worktree" payload) (get_str "base_branch" payload))
  else if decide (event = "codex_input") then text ← get_str "text" payload; Some (CodexInput text)
  else if decide (event = "codex_interrupt") then Some CodexInterrupt
  else if decide (event = "create_workspace") then Some (CreateWorkspace (str_or_empty "name" payload))
  else None.

(** ** Frames *)

(** [urlencoding::encode]. *)
Class UrlEncode := { urlencode : string → string }.

Definition websocket_url `{!UrlEncode} (server_url token : string) : string :=
  let trimmed := trim_end_char "/" server_url in
  let '(scheme, rest) := match strip_prefix "https://" trimmed with
    | Some rest => ("wss", rest)
    | None => match strip_prefix "http://" trimmed with Some rest => ("ws", rest) | None => ("ws", trimmed) end
    end in
  scheme ++ "://" ++ rest ++ "/client/websocket?token=" ++ urlencode token.

Definition opt_str (o : option string) : Value := match o with Some s => Str s | None => Null end.

Definition phoenix_message (reference join_ref : option string) (topic event : string) (payload : Value) : Value :=
  obj [("join_ref", opt_str join_ref); ("ref", opt_str reference); ("topic", Str topic); ("event", Str event); ("payload", payload)].

(** Where [route_frame] sends a message: to the request waiting under the
    reference, or to the channel of the topic. *)
Inductive Routed : Type :=
| ToWaiter (reference : string) (reply : result Value Value)
| ToChannel (topic : string) (command : ServerCommand)
| Dropped.

Definition route_frame (pending channels : gset string) (value : Value) : gset string * Routed :=
  let event := str_or_empty "event" value in
  if decide (event = "phx_reply") then
    match get_str "ref" value with
    | Some reference =>
        if decide (reference ∈ pending) then
          let payload := default Null (v_get "payload" value) in
          let response := default Null (v_get "response" payload) in
          let status := default "ok" (get_str "status" payload) in
          (pending ∖ {[reference]}, ToWaiter reference (if decide (status = "ok") then Ok response else Err response))
        else (pending, Dropped)
    | None => (pending, Dropped)
    end
  else match decode_command event (default Null (v_get "payload" value)) with
    | Some command =>
        let topic := str_or_empty "topic" value in
        (pending, if decide (topic ∈ channels) then ToChannel topic command else Dropped)
    | None => (pending, Dropped)
    end.

(** A message reaches the request it answers, or the channel it names, and no
    other; a request is answered once. *)
Lemma route_frame_spec pending channels value pending' to : route_frame pending channels value = (pending', to) →
  match to with
  | ToWaiter r _ => r ∈ pending ∧ pending' = pending ∖ {[r]} ∧ get_str "ref" value = Some r
  | ToChannel topic _ => topic ∈ channels ∧ pending' = pending ∧ get_str "topic" value = Some topic ∨
                         topic = "" ∧ topic ∈ channels ∧ pending' = pending
  | Dropped => pending' = pending
  end.
Proof.
  unfold route_frame, str_or_empty. destruct (decide (_ = "phx_reply")).
  - destruct (get_str "ref" value) as [r|]; [|by intros [= <- <-]]. destruct (decide (r ∈ pending)); by intros [= <- <-].
  - destruct (decode_command _ _) as [c|]; [|by intros [= <- <-]]. destruct (decide (_ ∈ channels)); [|by intros [= <- <-]].
    intros [= <- <-]. destruct (get_str "topic" value) as [t|] eqn:E; simpl in *; [left|right]; auto.
Qed.

(** ** Waiting between attempts to connect, in milliseconds *)

Definition BASE : Z := 500.
Definition CAP : Z := 30000.

Definition backoff_next (current nanos : Z) : Z * Z :=
  let ceiling_ms := Z.max current 2 in
  let half := (ceiling_ms / 2)%Z in
  (Z.min (current * 2) CAP, half + nanos mod Z.max half 1)%Z.

Fixpoint backoff_after (n : nat) (nanos : nat → Z) : Z :=
  match n with O => BASE | S n => fst (backoff_next (backoff_after n nanos) (nanos n)) end.

(** Every wait is at least half of, and less than, a ceiling that doubles up to
    half a minute. *)
Lemma backoff_bounds n nanos : (∀ k, 0 ≤ nanos k)%Z →
  let current := backoff_after n nanos in let wait := snd (backoff_next current (nanos n)) in
  current = Z.min (BASE * 2 ^ Z.of_nat n) CAP ∧ (current / 2 ≤ wait < current)%Z ∧ (250 ≤ wait < CAP)%Z.
Proof.
  intros Hn current wait.
  assert (Hc : current = Z.min (BASE * 2 ^ Z.of_nat n) CAP).
  { unfold current. induction n as [|n IH]; [done|]. cbn [backoff_after]. unfold backoff_next. cbn [fst]. rewrite IH.
    rewrite Nat2Z.inj_succ Z.pow_succ_r; [lia|]. unfold BASE, CAP. lia. }
  assert (Hge : (500 ≤ current ≤ 30000)%Z) by (rewrite Hc; unfold BASE, CAP; pose proof (Z.pow_pos_nonneg 2 (Z.of_nat n)); lia).
  split; [done|]. unfold wait, backoff_next, CAP. cbn [snd]. rewrite (Z.max_l current 2); [lia|].
  pose proof (Z.div_mod current 2 ltac:(lia)) as Hd. pose proof (Z.mod_pos_bound current 2 ltac:(lia)) as Hb.
  rewrite Z.max_l; [lia|]. pose proof (Z.mod_pos_bound (nanos n) (current / 2) ltac:(lia)). lia.
Qed.
