(* ===== verification/Terminal.v ===== *)
(** * The terminal of an agent and those who watch it
    (crates/omniagent-cli/src/agent.rs, cast.rs, client/supervisor.rs)

    A thread reads what the agent writes and hands each piece to all who watch; a
    client that comes later gets what is kept of the past first.  Two watch a
    session, the bridge to the control plane and the recorder; each ends when the
    agent has exited.  The runtime's broadcast channel keeps the last pieces for
    those who fall behind and tells them how many they missed. *)
From stdpp Require Import sorting relations.
From S2P Require Import Prelude Str Json Client.

Definition BACKLOG_CAP : nat := Z.to_nat (256 * 1024).
Definition OUTPUT_CHANNEL_CAP : nat := Z.to_nat 2048.
Definition BUF_LEN : nat := Z.to_nat 8192.

(** [output]: the pieces sent, from the first; of them the channel still has the
    last [OUTPUT_CHANNEL_CAP]. *)
Record Pty : Type := mkPty { backlog : string; output : list string; exit_code : option Z }.

Definition Pty_new : Pty := mkPty "" [] None.

(** [buf.drain(..overflow)]. *)
Definition keep_last (n : nat) (s : string) : string := str_drop (String.length s - n) s.

(** One turn of the reader thread: backlog and channel under one lock. *)
Definition read_chunk (chunk : string) (t : Pty) : Pty :=
  mkPty (keep_last BACKLOG_CAP (backlog t ++ chunk)) (output t ++ [chunk]) (exit_code t).

(** [spawn_wait_thread]. *)
Definition reap (code : Z) (t : Pty) : Pty := mkPty (backlog t) (output t) (Some code).

(** [attach]: the past, and where the future begins. *)
Definition attach (t : Pty) : string * nat := (backlog t, length (output t)).

Definition exit_status_code (code : Z) : Z := if (code <=? 2147483647)%Z then code else (-1)%Z.

(** ** A watcher *)

(** What a watcher does with a piece, and with the news of pieces it missed. *)
Class Sink (St : Type) := { on_chunk : string → St → St; on_lag : nat → St → St }.

Inductive WatchPhase : Type := Running | Draining (code : Z) | Finished (code : Z).

Record Watcher (St : Type) : Type := mkWatcher { position : nat; sink : St; phase : WatchPhase }.
Arguments mkWatcher {St} _ _ _.
Arguments position {St} _. Arguments sink {St} _. Arguments phase {St} _.

Section watch.
Context {St : Type} `{!Sink St}.

(** The past is handed over as a piece, if there is any. *)
Definition watch (t : Pty) (init : St) : Watcher St :=
  let '(past, at_) := attach t in
  mkWatcher at_ (if decide (past = "") then init else on_chunk past init) Running.

(** [recv] and [try_recv]: [None] where nothing is waiting. *)
Definition receive (t : Pty) (w : Watcher St) : option (Watcher St) :=
  let missed := (length (output t) - OUTPUT_CHANNEL_CAP - position w)%nat in
  match missed with
  | O => chunk ← output t !! position w; Some (mkWatcher (S (position w)) (on_chunk chunk (sink w)) (phase w))
  | _ => Some (mkWatcher (position w + missed) (on_lag missed (sink w)) (phase w))
  end.

(** The watcher and the threads of the agent interleave. The select prefers
    output, but a piece can come between its two looks; as the watcher holds a
    sender itself, its channel never closes. *)
Inductive watch_step : Pty * Watcher St → Pty * Watcher St → Prop :=
| StepRead chunk t w : (0 < String.length chunk ≤ BUF_LEN)%nat → watch_step (t, w) (read_chunk chunk t, w)
| StepReap code t w : exit_code t = None → watch_step (t, w) (reap code t, w)
| StepReceive t w w' : (∀ code, phase w ≠ Finished code) → receive t w = Some w' → watch_step (t, w) (t, w')
| StepNotice code t w : phase w = Running → exit_code t = Some code →
    watch_step (t, w) (t, mkWatcher (position w) (sink w) (Draining code))
| StepFinish code t w : phase w = Draining code → receive t w = None →
    watch_step (t, w) (t, mkWatcher (position w) (sink w) (Finished code)).

(** What a watcher was told, in order. *)
Inductive News : Type := Piece (i : nat) (chunk : string) | Missed (n : nat).

Definition tell (st : St) (n : News) : St :=
  match n with Piece _ chunk => on_chunk chunk st | Missed k => on_lag k st end.

(** The pieces of [news] are pieces of the output, each but those missed, from
    [lo] up to [hi]. *)
Fixpoint covers_output (l : list string) (lo hi : nat) (news : list News) : Prop :=
  match news with
  | [] => lo = hi
  | Piece i chunk :: news => i = lo ∧ l !! i = Some chunk ∧ covers_output l (S lo) hi news
  | Missed k :: news => (0 < k)%nat ∧ covers_output l (lo + k) hi news
  end.

Lemma covers_le l lo hi news : covers_output l lo hi news → (lo ≤ hi)%nat.
Proof.
  revert lo. induction news as [|[i chunk|k] news IH]; intros lo; cbn; [lia| |].
  - intros (_ & _ & H%IH). lia.
  - intros (_ & H%IH). lia.
Qed.

Lemma covers_app l l' lo hi news : covers_output l lo hi news → covers_output (l ++ l') lo hi news.
Proof.
  revert lo. induction news as [|[i chunk|k] news IH]; intros lo; cbn; [done| |].
  - intros (-> & Hl & H). split_and!; [done|by apply lookup_app_l_Some|by apply IH].
  - intros (? & H). split; [done|by apply IH].
Qed.

Lemma covers_trans l lo mid hi news news' :
  covers_output l lo mid news → covers_output l mid hi news' → covers_output l lo hi (news ++ news').
Proof.
  revert lo. induction news as [|[i chunk|k] news IH]; intros lo; cbn; [by intros ->| |].
  - intros (-> & Hl & H) H'. by split_and!; [..|apply IH].
  - intros (? & H) H'. by split; [|apply IH].
Qed.

(** A watcher that came when [lo] pieces had been sent. *)
Definition watcher_ok (init : St) (lo : nat) (s : Pty * Watcher St) : Prop :=
  (position s.2 ≤ length (output s.1))%nat ∧
  (∃ news, covers_output (output s.1) lo (position s.2) news ∧ sink s.2 = foldl tell init news) ∧
  (∀ code, phase s.2 = Draining code ∨ phase s.2 = Finished code → exit_code s.1 = Some code).

Lemma receive_keeps t w w' init lo : watcher_ok init lo (t, w) → receive t w = Some w' → watcher_ok init lo (t, w').
Proof.
  intros (Hpos & (news & Hnews & Hsink) & Hexit) Hr. cbn in *. unfold receive in Hr.
  destruct (length (output t) - OUTPUT_CHANNEL_CAP - position w)%nat as [|k] eqn:Hk.
  - destruct (output t !! position w) as [chunk|] eqn:Hc; [|done]. injection Hr as <-.
    split_and!; cbn; [by apply lookup_lt_Some in Hc| |done].
    exists (news ++ [Piece (position w) chunk])%list. split; [|by rewrite foldl_app Hsink].
    eapply covers_trans; [exact Hnews|]. by cbn.
  - injection Hr as <-. split_and!; cbn; [lia| |done].
    exists (news ++ [Missed (S k)])%list. split; [|by rewrite foldl_app Hsink].
    eapply covers_trans; [exact Hnews|]. cbn. split; [lia|done].
Qed.

Lemma watch_step_ok init lo s s' : watcher_ok init lo s → watch_step s s' → watcher_ok init lo s'.
Proof.
  intros Hok Hs. destruct Hs as [chunk t w _|code t w Hnone|t w w' _ Hr|code t w Hph Hcode|code t w Hph _].
  - destruct Hok as (Hpos & (news & Hnews & Hsink) & Hexit). cbn in *. split_and!; cbn; [rewrite length_app; cbn; lia| |done].
    exists news. split; [by apply covers_app|done].
  - destruct Hok as (Hpos & Hnews & Hexit). cbn in *. split_and!; cbn; [done..|].
    intros c Hc. specialize (Hexit c Hc). congruence.
  - exact (receive_keeps _ _ _ _ _ Hok Hr).
  - destruct Hok as (Hpos & Hnews & Hexit). split_and!; [done..|]. cbn. intros c [[= <-]|?]; done.
  - destruct Hok as (Hpos & Hnews & Hexit). split_and!; [done..|]. cbn in *. intros c [?|[= <-]]; [done|]. apply Hexit. by left.
Qed.
End watch.

(** ** The past *)

Lemma keep_last_app n a b : keep_last n (keep_last n a ++ b) = keep_last n (a ++ b).
Proof.
  unfold keep_last. rewrite !length_app_s length_drop_s.
  destruct (take_app_s (String.length a - n) a b) as [_ <-]; [lia|]. rewrite -str_drop_add. f_equal. lia.
Qed.

Lemma str_concat_snoc l x : str_concat (l ++ [x])%list = str_concat l ++ x.
Proof. induction l as [|y l IH]; cbn; [by rewrite app_nil_r_s|by rewrite IH app_assoc_s]. Qed.

Lemma str_concat_app_s l l' : str_concat (l ++ l')%list = str_concat l ++ str_concat l'.
Proof. induction l as [|y l IH]; cbn; [done|by rewrite IH app_assoc_s]. Qed.

(** The agent after it wrote [history]. *)
Definition Pty_after (history : list string) : Pty := foldl (λ t chunk, read_chunk chunk t) Pty_new history.

Lemma Pty_after_spec history :
  Pty_after history = mkPty (keep_last BACKLOG_CAP (str_concat history)) history None.
Proof.
  unfold Pty_after. induction history as [|chunk history IH] using rev_ind; [reflexivity|].
  rewrite foldl_app IH. cbn -[BACKLOG_CAP]. unfold read_chunk. cbn [backlog output exit_code].
  by rewrite keep_last_app str_concat_snoc.
Qed.

(** ** Runs *)

Section runs.
Context {St : Type} `{!Sink St}.

Fixpoint pieces (news : list News) : list string :=
  match news with [] => [] | Piece _ chunk :: news => chunk :: pieces news | Missed _ :: news => pieces news end.
Definition misses (news : list News) : bool := existsb (λ n, match n with Missed _ => true | _ => false end) news.

Lemma covers_all l lo hi news : (hi ≤ length l)%nat → covers_output l lo hi news → misses news = false →
  pieces news = take (hi - lo) (drop lo l).
Proof.
  intros Hhi. revert lo. induction news as [|[i chunk|k] news IH]; intros lo; cbn; [|intros (-> & Hl & H) Hm|done].
  - intros -> _. by rewrite Nat.sub_diag.
  - pose proof (covers_le _ _ _ _ H). rewrite (drop_S _ _ _ Hl) (IH (S lo)) //.
    replace (hi - lo)%nat with (S (hi - S lo)) by lia. done.
Qed.

Lemma watch_started (t : Pty) (init : St) : exit_code t = None →
  watcher_ok (sink (watch t init)) (length (output t)) (t, watch t init).
Proof. intros Hx. split_and!; cbn; [done|by exists []|]. by intros code [?|?]. Qed.

Lemma watch_run init lo s s' : watcher_ok init lo s → rtc watch_step s s' → watcher_ok init lo s'.
Proof. intros Hok Hs. induction Hs; [done|]. eauto using watch_step_ok. Qed.

(** Nothing waits for a watcher: it stands at the end of the output. *)
Lemma receive_none (t : Pty) (w : Watcher St) : (position w ≤ length (output t))%nat → receive t w = None → position w = length (output t).
Proof.
  intros Hp. unfold receive. destruct (length (output t) - OUTPUT_CHANNEL_CAP - position w)%nat as [|k]; [|done].
  destruct (output t !! position w) as [c|] eqn:E; [done|]. apply lookup_ge_None_1 in E. lia.
Qed.

(** The output only grows, and a watcher only advances. *)
Lemma watch_step_grows s s' : watch_step (St:=St) s s' → (length (output s.1) ≤ length (output s'.1))%nat.
Proof. destruct 1; cbn; rewrite ?length_app; lia. Qed.

Lemma watch_grows s s' : rtc (watch_step (St:=St)) s s' → (length (output s.1) ≤ length (output s'.1))%nat.
Proof. induction 1 as [|s1 s2 s3 Hs _ IH]; [done|]. apply watch_step_grows in Hs. lia. Qed.

(** No more than the channel holds came since a watcher did: it missed nothing. *)
Definition nothing_missed (init : St) (lo : nat) (s : Pty * Watcher St) : Prop :=
  (lo ≤ position s.2 ≤ length (output s.1))%nat ∧
  sink s.2 = foldl (λ st chunk, on_chunk chunk st) init (take (position s.2 - lo) (drop lo (output s.1))).

Lemma nothing_missed_run init lo s s' : nothing_missed init lo s → rtc watch_step s s' →
  (length (output s'.1) ≤ lo + OUTPUT_CHANNEL_CAP)%nat → nothing_missed init lo s'.
Proof.
  intros Hn Hs. induction Hs as [|s1 s2 s3 Hs Hrest IH]; [done|]. intros Hcap. apply IH; [|done].
  pose proof (watch_grows _ _ Hrest) as Hg. pose proof (watch_step_grows _ _ Hs) as Hg'. destruct Hn as [Hp Hsink].
  destruct Hs as [chunk t w _|code t w _|t w w' _ Hr|code t w _ _|code t w _ _]; cbn in *; try by split.
  - rewrite length_app in Hg'. split; cbn; [rewrite length_app; lia|]. rewrite drop_app_le; [lia|]. rewrite take_app_le; [rewrite length_drop; lia|done].
  - unfold receive in Hr. replace (length (output t) - OUTPUT_CHANNEL_CAP - position w)%nat with 0%nat in Hr by lia.
    destruct (output t !! position w) as [chunk|] eqn:E; [|done]. injection Hr as <-. apply lookup_lt_Some in E as Hlt.
    split; cbn; [lia|]. replace (S (position w) - lo)%nat with (S (position w - lo)) by lia.
    rewrite (take_S_r _ _ chunk); [rewrite lookup_drop; by replace (lo + (position w - lo))%nat with (position w) by lia|].
    by rewrite foldl_app Hsink.
Qed.

(** An agent that has exited and is silent is given up: the watcher takes what
    is left and ends. *)
Lemma watch_drains (t : Pty) : ∀ k (w : Watcher St), (length (output t) - position w ≤ k)%nat → (∀ code, phase w ≠ Finished code) →
  ∃ w', rtc watch_step (t, w) (t, w') ∧ receive t w' = None ∧ phase w' = phase w.
Proof.
  induction k as [|k IH]; intros w Hk Hph.
  - exists w. split_and!; [apply rtc_refl| |done]. unfold receive.
    replace (length (output t) - OUTPUT_CHANNEL_CAP - position w)%nat with 0%nat by lia.
    by rewrite (lookup_ge_None_2 (output t) (position w)); [lia|].
  - destruct (receive t w) as [w1|] eqn:E; [|by exists w; split_and!; [apply rtc_refl|..]].
    assert (phase w1 = phase w ∧ (position w < position w1)%nat) as [Hp1 Hlt].
    { unfold receive in E. destruct (_ - _ - _)%nat; [destruct (_ !! _); [|done]|]; injection E as <-; cbn; split; try done; lia. }
    destruct (IH w1) as (w' & Hrun & Hnone & Hp); [lia|by rewrite Hp1|]. exists w'. split_and!; [|done|congruence].
    eapply rtc_l; [exact (StepReceive _ _ _ Hph E)|exact Hrun].
Qed.

Lemma watch_ends (t : Pty) (w : Watcher St) init lo code : watcher_ok init lo (t, w) → exit_code t = Some code →
  ∃ w', rtc watch_step (t, w) (t, w') ∧ phase w' = Finished code.
Proof.
  intros (_ & _ & Hx) Hc. cbn in Hx. destruct (phase w) as [|c|c] eqn:Hp.
  - destruct (watch_drains t _ (mkWatcher (position w) (sink w) (Draining code)) (le_n _)) as (w' & Hrun & Hnone & Hp'); [done|].
    exists (mkWatcher (position w') (sink w') (Finished code)). split; [|done].
    exact (rtc_l _ _ _ _ (StepNotice _ _ _ Hp Hc) (rtc_r _ _ _ Hrun (StepFinish _ _ _ Hp' Hnone))).
  - assert (c = code) as -> by (specialize (Hx c (or_introl eq_refl)); congruence).
    destruct (watch_drains t _ w (le_n _)) as (w' & Hrun & Hnone & Hp'); [by rewrite Hp|]. rewrite Hp in Hp'.
    exists (mkWatcher (position w') (sink w') (Finished code)). split; [|done].
    exact (rtc_r _ _ _ Hrun (StepFinish _ _ _ Hp' Hnone)).
  - assert (c = code) as -> by (specialize (Hx c (or_intror eq_refl)); congruence). exists w. split; [apply rtc_refl|done].
Qed.
End runs.

(** ** The bridge to the server ([pump_terminal_output]) *)

Record Pump : Type := mkPump { carry : string; pushed : list (string * Value) }.
Definition Pump_new : Pump := mkPump "" [].

Definition push_output (bytes : string) (p : Pump) : Pump :=
  let '(data, carry') := decode_streaming (carry p) bytes in
  mkPump carry' (if decide (data = "") then pushed p else pushed p ++ [("pty_output", obj [("data", Str data)])])%list.

#[global] Instance pump_sink : Sink Pump := {| on_chunk := push_output; on_lag _ p := p |}.

(** [spawn_terminal_output_bridge]: the exit comes after all output. *)
Definition bridge_events (w : Watcher Pump) : list (string * Value) :=
  pushed (sink w) ++ match phase w with Finished code => [("pty_exit", obj [("exit_code", num code)])] | _ => [] end.

(** ** The recorder (cast.rs) *)

Section recording.
(** The time of a line of the recording, since its start. *)
Variable elapsed : nat → Value.

Record Recording : Type := mkRecording { cast_carry : string; cast_lines : list Value }.

Definition LAG_MARKER : string :=
  crlf ++ "[omniagent: recording lagged, output dropped]" ++ crlf.

Definition cast_header (rows cols timestamp : Z) : Value :=
  obj [("version", num 2); ("width", num cols); ("height", num rows); ("timestamp", num timestamp)].

Definition Recording_new (rows cols timestamp : Z) : Recording := mkRecording "" [cast_header rows cols timestamp].

Definition cast_line (data : string) (lines : list Value) : list Value :=
  (lines ++ [Array [elapsed (length lines); Str "o"; Str data]])%list.

Definition write_event (bytes : string) (r : Recording) : Recording :=
  let '(data, carry') := decode_streaming (cast_carry r) bytes in
  mkRecording carry' (if decide (data = "") then cast_lines r else cast_line data (cast_lines r)).

Definition on_lagged (skipped : nat) (r : Recording) : Recording :=
  mkRecording "" (cast_line LAG_MARKER (cast_lines r)).

#[local] Instance recording_sink : Sink Recording := {| on_chunk := write_event; on_lag := on_lagged |}.

(** ** What they say *)

Definition event_text (e : string * Value) : string := str_or_empty "data" e.2.
Definition line_text (line : Value) : string := match line with Array [_; _; Str data] => data | _ => "" end.
Definition pushed_text (p : Pump) : string := str_concat (map event_text (pushed p)).
Definition cast_text (r : Recording) : string := str_concat (map line_text (cast_lines r)).

Lemma push_output_text bytes p :
  pushed_text (push_output bytes p) = pushed_text p ++ (decode_streaming (carry p) bytes).1 ∧
  carry (push_output bytes p) = (decode_streaming (carry p) bytes).2.
Proof.
  unfold push_output. destruct (decode_streaming (carry p) bytes) as [data c]. unfold pushed_text. cbn [carry pushed fst snd].
  destruct (decide (data = "")) as [->|_]; [by rewrite app_nil_r_s|]. rewrite map_app str_concat_app_s. cbn. by rewrite app_nil_r_s.
Qed.

Lemma write_event_text bytes r :
  cast_text (write_event bytes r) = cast_text r ++ (decode_streaming (cast_carry r) bytes).1 ∧
  cast_carry (write_event bytes r) = (decode_streaming (cast_carry r) bytes).2.
Proof.
  unfold write_event. destruct (decode_streaming (cast_carry r) bytes) as [data c]. unfold cast_text. cbn [cast_carry cast_lines fst snd].
  destruct (decide (data = "")) as [->|_]; [by rewrite app_nil_r_s|]. unfold cast_line. rewrite map_app str_concat_app_s. cbn. by rewrite app_nil_r_s.
Qed.

(** What a bridge pushes is the text of what it was told, with what is cut off kept. *)
Lemma pushed_chunks chunks p :
  let p' := foldl (λ p chunk, push_output chunk p) p chunks in
  pushed_text p' = pushed_text p ++ (decode_chunks (carry p) chunks).1 ∧ carry p' = (decode_chunks (carry p) chunks).2.
Proof.
  revert p. induction chunks as [|chunk chunks IH]; intros p; cbn [foldl decode_chunks]; [by rewrite app_nil_r_s|].
  destruct (IH (push_output chunk p)) as [-> ->]. destruct (push_output_text chunk p) as [-> ->].
  destruct (decode_streaming (carry p) chunk) as [o c]. cbn [fst snd]. destruct (decode_chunks c chunks) as [o' c']. by rewrite app_assoc_s.
Qed.

Lemma written_chunks chunks r :
  let r' := foldl (λ r chunk, write_event chunk r) r chunks in
  cast_text r' = cast_text r ++ (decode_chunks (cast_carry r) chunks).1 ∧ cast_carry r' = (decode_chunks (cast_carry r) chunks).2.
Proof.
  revert r. induction chunks as [|chunk chunks IH]; intros r; cbn [foldl decode_chunks]; [by rewrite app_nil_r_s|].
  destruct (IH (write_event chunk r)) as [-> ->]. destruct (write_event_text chunk r) as [-> ->].
  destruct (decode_streaming (cast_carry r) chunk) as [o c]. cbn [fst snd]. destruct (decode_chunks c chunks) as [o' c']. by rewrite app_assoc_s.
Qed.
End recording.

(** The past is a first piece. *)
Definition first_pieces (past : string) : list string := if decide (past = "") then [] else [past].

Lemma first_pieces_concat past l : str_concat (first_pieces past ++ l)%list = past ++ str_concat l.
Proof. unfold first_pieces. by destruct (decide (past = "")) as [->|_]. Qed.

Lemma watch_sink {St} `{!Sink St} (t : Pty) (init : St) :
  sink (watch t init) = foldl (λ st chunk, on_chunk chunk st) init (first_pieces (backlog t)).
Proof. unfold watch, first_pieces. cbn. by destruct (decide (backlog t = "")). Qed.

Lemma pump_tells news p : foldl tell p news = foldl (λ p chunk, push_output chunk p) p (pieces news).
Proof. revert p. induction news as [|[i chunk|k] news IH]; intros p; cbn [foldl pieces tell]; by rewrite ?IH. Qed.

Lemma pump_said (chunks : list string) :
  let p := foldl (λ p chunk, push_output chunk p) Pump_new chunks in
  (pushed_text p, carry p) = decode_streaming "" (str_concat chunks).
Proof.
  cbv zeta. destruct (pushed_chunks chunks Pump_new) as [-> ->]. cbn [carry Pump_new pushed_text]. rewrite chunks_decoded //.
  rewrite streaming_decoded. by destruct (decoded _).
Qed.

(** Only text is pushed before the exit, and no empty text. *)
Lemma pushed_is_output p chunk : Forall (λ e, e.1 = "pty_output" ∧ event_text e ≠ "") (pushed p) →
  Forall (λ e, e.1 = "pty_output" ∧ event_text e ≠ "") (pushed (push_output chunk p)).
Proof.
  intros Hp. unfold push_output. destruct (decode_streaming (carry p) chunk) as [data c]. cbn [pushed].
  destruct (decide (data = "")); [done|]. by apply Forall_app_2; [|constructor].
Qed.

(** C13. A client that comes when the agent has written some output is sent the text of
    all that is kept of it and then, as far as it has come in the stream, of the
    pieces of the future save those it was too slow for; when it has nothing left
    to receive and no more was written than the channel holds, it was sent every
    one.  Once the agent has exited the bridge can end, with its exit code last; it
    may end before it has received what was written last ([final_output_lost]). *)
Theorem terminal_streamed (history : list string) (t : Pty) (w : Watcher Pump) :
  let t0 := Pty_after history in
  let past := keep_last BACKLOG_CAP (str_concat history) in
  rtc watch_step (t0, watch t0 Pump_new) (t, w) →
  (∃ news, covers_output (output t) (length history) (position w) news ∧
     (pushed_text (sink w), carry (sink w)) = decode_streaming "" (past ++ str_concat (pieces news))) ∧
  ((length (output t) ≤ length history + OUTPUT_CHANNEL_CAP)%nat → receive t w = None →
     (pushed_text (sink w), carry (sink w)) = decode_streaming "" (past ++ str_concat (drop (length history) (output t)))) ∧
  (∀ code, phase w = Finished code → exit_code t = Some code ∧ last (bridge_events w) = Some ("pty_exit", obj [("exit_code", num code)])) ∧
  (∀ code, exit_code t = Some code → ∃ w', rtc watch_step (t, w) (t, w') ∧ phase w' = Finished code).
Proof.
  intros t0 past Hrun.
  assert (Hb : backlog t0 = past ∧ output t0 = history ∧ exit_code t0 = None) by (unfold t0; by rewrite Pty_after_spec).
  destruct Hb as (Hb & Ho & Hx).
  pose proof (watch_run _ _ _ _ (watch_started t0 Pump_new Hx) Hrun) as Hok. rewrite Ho in Hok.
  pose proof Hok as (Hpos & (news & Hnews & Hsink) & Hexit). cbn [fst snd] in *. split_and!.
  - exists news. split; [done|]. rewrite Hsink pump_tells watch_sink Hb -foldl_app pump_said. by rewrite first_pieces_concat.
  - intros Hcap Hnone. pose proof (receive_none _ _ Hpos Hnone) as Hend.
    assert (Hn : nothing_missed (sink (watch t0 Pump_new)) (length history) (t0, watch t0 Pump_new)).
    { split; cbn; [rewrite Ho; lia|]. by rewrite Ho Nat.sub_diag. }
    destruct (nothing_missed_run _ _ _ _ Hn Hrun Hcap) as [_ Hs]. cbn [fst snd] in Hs.
    rewrite Hs Hend take_ge; [rewrite length_drop; lia|]. rewrite watch_sink Hb -foldl_app. etrans; [apply pump_said|]. by rewrite first_pieces_concat.
  - intros code Hc. split; [apply Hexit; by right|]. unfold bridge_events. rewrite Hc. apply last_snoc.
  - intros code Hc. exact (watch_ends _ _ _ _ _ Hok Hc).
Qed.

Lemma said_hi_bye : rtc watch_step (Pty_after ["hi "], watch (Pty_after ["hi "]) Pump_new)
  (reap 0 (Pty_after ["hi "; "bye"]), mkWatcher 2 (push_output "bye" (push_output "hi " Pump_new)) (Finished 0)).
Proof.
  eapply rtc_l; [apply (StepRead "bye"); unfold BUF_LEN; cbn; lia|]. eapply rtc_l; [by apply (StepReap 0)|].
  eapply rtc_l; [by apply StepReceive; [|reflexivity]|]. eapply rtc_l; [by apply (StepNotice 0)|]. eapply rtc_l; [by apply (StepFinish 0)|].
  apply rtc_refl.
Qed.

Lemma terminal_streamed_witness :
  last (bridge_events (mkWatcher 2 (push_output "bye" (push_output "hi " Pump_new)) (Finished 0))) = Some ("pty_exit", obj [("exit_code", num 0)]).
Proof. eapply (terminal_streamed ["hi "] (reap 0 (Pty_after ["hi "; "bye"]))); [exact said_hi_bye|reflexivity]. Defined.

(** The exit can be found before the reader thread has read the last of the
    output: the bridge ends, and the last words of the agent reach no one. *)
Example final_output_lost : ∃ w : Watcher Pump,
  rtc watch_step (Pty_new, watch Pty_new Pump_new) (read_chunk "bye" (reap 0 Pty_new), w) ∧
  bridge_events w = [("pty_exit", obj [("exit_code", num 0)])] ∧ ∀ s, ¬ (watch_step (read_chunk "bye" (reap 0 Pty_new), w) s ∧ s.2 ≠ w).
Proof.
  exists (mkWatcher 0 Pump_new (Finished 0)). split_and!; [|reflexivity|].
  - eapply rtc_l; [by apply (StepReap 0)|]. eapply rtc_l; [by apply (StepNotice 0)|]. eapply rtc_l; [by apply (StepFinish 0)|].
    eapply rtc_l; [apply (StepRead "bye"); unfold BUF_LEN; cbn; lia|]. apply rtc_refl.
  - intros s [Hs Hne]. inversion Hs; subst; cbn in *; try done. naive_solver.
Qed.

(** What is cut off waits for a piece that is not the next: two halves of
    different characters become one that was never written. *)
Example halves_joined :
  pushed (foldl tell Pump_new [Piece 0 (bytes_str [195; 169; 195]%Z); Missed 1; Piece 2 (bytes_str [169; 33]%Z)]) =
  [("pty_output", obj [("data", Str (bytes_str [195; 169]%Z))]); ("pty_output", obj [("data", Str (bytes_str [195; 169; 33]%Z))])].
Proof. vm_compute. reflexivity. Qed.
Example recorder_marks_gap :
  map line_text (drop 1 (cast_lines (foldl (@tell _ (recording_sink (λ _, Null))) (Recording_new 24 80 0)
    [Piece 0 (bytes_str [195; 169; 195]%Z); Missed 1; Piece 2 (bytes_str [169; 33]%Z)]))) =
  [bytes_str [195; 169]%Z; LAG_MARKER; REPLACEMENT ++ "!"].
Proof. vm_compute. reflexivity. Qed.

(** Told the same pieces, the recording says what the server was sent. *)
Lemma recorded_as_sent elapsed rows cols timestamp chunks :
  cast_text (foldl (λ r chunk, write_event elapsed chunk r) (Recording_new rows cols timestamp) chunks) =
  pushed_text (foldl (λ p chunk, push_output chunk p) Pump_new chunks).
Proof. destruct (written_chunks elapsed chunks (Recording_new rows cols timestamp)) as [-> _]. by destruct (pushed_chunks chunks Pump_new) as [-> _]. Qed.

(** ** Input *)

Inductive AgentInput : Type := Data (data : string) | Resize (rows cols : Z).

(** What reaches the terminal: text, or a new size. *)
Inductive PtyCall : Type := PtyWrite (data : string) | PtySize (rows cols : Z).

(** The control thread, given which writes succeed. It ends at the first that
    does not; the channel takes what comes after, and no one reads it. *)
Fixpoint control_thread (write_ok : nat → bool) (n : nat) (inputs : list AgentInput) : list PtyCall :=
  match inputs with
  | [] => []
  | Data data :: inputs => PtyWrite data :: if write_ok n then control_thread write_ok (S n) inputs else []
  | Resize rows cols :: inputs => PtySize rows cols :: control_thread write_ok n inputs
  end.

Definition call_of (i : AgentInput) : PtyCall := match i with Data data => PtyWrite data | Resize rows cols => PtySize rows cols end.

(** Input arrives in order, whole and once; all of it while writes succeed. *)
Lemma control_thread_spec write_ok n inputs :
  control_thread write_ok n inputs `prefix_of` map call_of inputs ∧
  ((∀ k, write_ok k = true) → control_thread write_ok n inputs = map call_of inputs).
Proof.
  revert n. induction inputs as [|[data|rows cols] inputs IH]; intros n; cbn; [done| |].
  - destruct (IH (S n)) as [Hp Ha]. split; [|intros Hok; by rewrite Hok Ha]. apply prefix_cons. destruct (write_ok n); [done|apply prefix_nil].
  - destruct (IH n) as [Hp Ha]. split; [by apply prefix_cons|]. intros Hok. by rewrite Ha.
Qed.

(** ** Starting and ending an agent *)

(** [argv] on a fresh terminal, [extra_env] over the environment inherited. *)
Record Spawned : Type := mkSpawned { sp_program : string; sp_args : list string; sp_env : gmap string string; sp_cwd : option string; sp_size : Z * Z }.

Definition agent_spawn (argv : list string) (environ : gmap string string) (extra_env : list (string * string))
    (cwd : option string) (rows cols : Z) : result string Spawned :=
  match argv with
  | [] => Err "agent command must not be empty"
  | program :: args =>
      Ok (mkSpawned program args (foldl (λ env kv, <[kv.1 := kv.2]> env) environ extra_env) cwd (rows, cols))
  end.

(** The last of the variables given wins, and all of them over the inherited. *)
Lemma spawn_env environ extra_env k :
  foldl (λ env kv, <[kv.1 := kv.2]> env) environ extra_env !! k =
  match list_find (λ kv : string * string, kv.1 = k) (reverse extra_env) with Some (_, kv) => Some kv.2 | None => (environ : gmap string string) !! k end.
Proof.
  induction extra_env as [|[k' v] l IH] using rev_ind; [done|]. rewrite foldl_app reverse_app. cbn.
  destruct (decide (k' = k)) as [->|Hne]; [by rewrite lookup_insert_eq|]. rewrite lookup_insert_ne // IH.
  by destruct (list_find _ (reverse l)) as [[i kv]|].
Qed.

Inductive Signal : Type := HUP | TERM | KILL.
Inductive KillAct : Type := SignalGroup (s : Signal) | Sleep50 | FallbackKill.

(** [for _ in 0..attempts]: whether the group was seen gone, after [n] looks. *)
Fixpoint wait_for_process_group_exit (alive : nat → bool) (n attempts : nat) : list KillAct * bool :=
  match attempts with
  | O => ([], false)
  | S attempts =>
      if alive n then let '(acts, gone) := wait_for_process_group_exit alive (S n) attempts in (Sleep50 :: acts, gone)
      else ([], true)
  end.

(** The group asked to end, and made to if it is there half a second later. *)
Definition terminate_process (pid : option Z) (alive : nat → bool) : list KillAct :=
  match pid ≫= (λ pid, if decide (0 < pid ≤ 2147483647)%Z then Some pid else None) with
  | None => [FallbackKill]
  | Some _ =>
      let '(acts, gone) := wait_for_process_group_exit alive 0 10 in
      [SignalGroup HUP; SignalGroup TERM] ++ acts ++
      if gone then [] else SignalGroup KILL :: fst (wait_for_process_group_exit alive 10 10)
  end%list.

Record AgentKiller : Type := mkAgentKiller { k_pid : option Z; killed : bool }.

Definition killer_kill (alive : nat → bool) (k : AgentKiller) : AgentKiller * list KillAct :=
  if killed k then (k, []) else (mkAgentKiller (k_pid k) true, terminate_process (k_pid k) alive).

Definition agent_shutdown (alive : nat → bool) (t : Pty) (k : AgentKiller) : AgentKiller * list KillAct :=
  match exit_code t with Some _ => (k, []) | None => killer_kill alive k end.

Lemma wait_gone alive n attempts :
  (wait_for_process_group_exit alive n attempts).2 = true ↔ ∃ i, (i < attempts)%nat ∧ alive (n + i)%nat = false.
Proof.
  revert n. induction attempts as [|m IH]; intros n; cbn; [split; [done|intros (i & Hi & _); lia]|].
  destruct (alive n) eqn:Ea.
  - specialize (IH (S n)). destruct (wait_for_process_group_exit alive (S n) m) as [acts gone]. cbn in *. rewrite IH. split.
    + intros (i & Hi & Ha). exists (S i). split; [lia|]. by rewrite Nat.add_succ_r.
    + intros ([|i] & Hi & Ha); [rewrite Nat.add_0_r in Ha; congruence|]. exists i. split; [lia|]. by rewrite Nat.add_succ_r in Ha.
  - split; [|done]. intros _. exists 0%nat. split; [lia|]. by rewrite Nat.add_0_r.
Qed.

Lemma waits_only alive n attempts a : a ∈ (wait_for_process_group_exit alive n attempts).1 → a = Sleep50.
Proof.
  revert n. induction attempts as [|m IH]; intros n; cbn; [set_solver|]. destruct (alive n); [|set_solver].
  specialize (IH (S n)). destruct (wait_for_process_group_exit alive (S n) m) as [acts gone]. cbn in *. set_solver.
Qed.

(** An agent reaped is not signalled, one asked to end is asked once, and one is
    killed only if its group was there at each of ten looks. *)
Lemma shutdown_spec alive alive' t k : let '(k', acts) := agent_shutdown alive t k in
  (agent_shutdown alive' t k').2 = [] ∧
  (exit_code t ≠ None → acts = []) ∧
  (SignalGroup KILL ∈ acts → ∀ i, (i < 10)%nat → alive i = true).
Proof.
  unfold agent_shutdown, killer_kill. destruct (exit_code t) as [c|]; [by split_and!; [..|set_solver]|].
  destruct (killed k) eqn:Ek; [rewrite Ek; by split_and!; [..|set_solver]|]. cbn [killed k_pid snd]. split_and!; [done|done|].
  unfold terminate_process. destruct (_ ≫= _); [|set_solver].
  pose proof (waits_only alive 0 10) as Hw. pose proof (wait_gone alive 0 10) as Hg.
  destruct (wait_for_process_group_exit alive 0 10) as [acts gone]. cbn [fst snd] in *. destruct gone.
  - rewrite app_nil_r elem_of_app. intros [?|?%Hw]; [set_solver|done].
  - intros _ i Hi. destruct (alive i) eqn:E; [done|]. destruct Hg as [_ Hg]. discriminate Hg. by exists i.
Qed.
