(* ===== verification/Codex.v ===== *)
(** * Codex over JSON-RPC
    (crates/omniagent-cli/src/codex/client.rs, codex/worker.rs, codex/mod.rs, client/supervisor.rs)

    The app-server of codex is asked and asks back in lines of JSON.  Calls of
    [request] run at once: each has an entry in a map under its number until the
    reader gives it its reply, the app-server is gone, or half a minute is over.
    What the reader hears besides goes to the bridges of the session. *)
From stdpp Require Import relations.
From S2P Require Import Prelude Str Json Record Review Terminal.

(** ** Frames *)

Record Notification : Type := mkNote { n_method : string; n_params : Value }.
Record ServerRequest : Type := mkRequest { sr_id : Value; sr_method : string; sr_params : Value }.

Inductive Inbound : Type :=
| Response (id : Z) (reply : result string Value)
| Notified (note : Notification)
| Requested (req : ServerRequest)
| Ignore.

(** The version of the crate. *)
Class Package := { CARGO_PKG_VERSION : string }.

Section codex.
Context `{!JsonText, !JsonShow}.

Definition params_of (value : Value) : Value := default Null (v_get "params" value).

Definition classify (value : Value) : Inbound :=
  match v_get "method" value ≫= as_string, v_get "id" value with
  | Some method, Some id => Requested (mkRequest id method (params_of value))
  | Some method, None => Notified (mkNote method (params_of value))
  | None, Some id =>
      match as_i64 id with
      | None => Ignore
      | Some id => Response id
          match v_get "error" value with
          | None => Ok (default Null (v_get "result" value))
          | Some err => Err ("codex rpc error: " ++ json_to_string err)
          end
      end
  | None, None => Ignore
  end.

(** A line of the app-server. *)
Definition inbound (line : string) : Inbound :=
  if decide (trim line = "") then Ignore else match json_from_str line with None => Ignore | Some v => classify v end.

(** A line to the app-server. *)
Inductive Frame : Type :=
| FRequest (id : Z) (method : string) (params : Value)
| FNotify (method : string) (params : Value)
| FRespond (id : Value) (reply : Value).

Definition frame_json (f : Frame) : Value :=
  match f with
  | FRequest id method params => obj [("id", num id); ("method", Str method); ("params", params)]
  | FNotify method params => obj [("method", Str method); ("params", params)]
  | FRespond id reply => obj [("id", id); ("result", reply)]
  end.

(** ** Calls of [request] *)

(** Numbered; in the map; written and waiting; returned. *)
Inductive CallPhase : Type := CNumbered | CPending | CWaiting | CReturned (r : result string Value).

Record RpcCall : Type := mkCall {
  c_id : Z; c_method : string; c_params : Value; c_phase : CallPhase;
  c_value : option (result string Value);      (* in its channel *)
}.

Definition call_at (ph : CallPhase) (c : RpcCall) : RpcCall := mkCall (c_id c) (c_method c) (c_params c) ph (c_value c).
Definition call_reply (r : result string Value) (c : RpcCall) : RpcCall := mkCall (c_id c) (c_method c) (c_params c) (c_phase c) (Some r).

(** [pending] has the end of the channel of a call, here its place in [calls];
    [wire] is what was written, [heard] what was read. *)
Record Rpc : Type := mkRpc {
  next_id : Z; pending : gmap Z nat; calls : list RpcCall; wire : list Frame;
  heard : list string; notes : list Notification; requests : list ServerRequest; closed : bool;
}.

Definition Rpc_new : Rpc := mkRpc 1 ∅ [] [] [] [] [] false.

Definition set_calls (pend : gmap Z nat) (cs : list RpcCall) (s : Rpc) : Rpc :=
  mkRpc (next_id s) pend cs (wire s) (heard s) (notes s) (requests s) (closed s).
Definition written (f : Frame) (s : Rpc) : Rpc :=
  mkRpc (next_id s) (pending s) (calls s) (wire s ++ [f]) (heard s) (notes s) (requests s) (closed s).
Definition upd_call (i : nat) (ph : CallPhase) (c : RpcCall) (s : Rpc) : list RpcCall := <[i := call_at ph c]> (calls s).

(** One turn of [read_loop]. *)
Definition read_line (line : string) (s : Rpc) : Rpc :=
  let s := mkRpc (next_id s) (pending s) (calls s) (wire s) (heard s ++ [line]) (notes s) (requests s) (closed s) in
  match inbound line with
  | Response id r =>
      match pending s !! id with
      | Some i => set_calls (delete id (pending s)) (alter (call_reply r) i (calls s)) s
      | None => s
      end
  | Notified n => mkRpc (next_id s) (pending s) (calls s) (wire s) (heard s) (notes s ++ [n]) (requests s) (closed s)
  | Requested r => mkRpc (next_id s) (pending s) (calls s) (wire s) (heard s) (notes s) (requests s ++ [r]) (closed s)
  | Ignore => s
  end.

Definition app_server_closed : result string Value := Err "codex app-server closed".
Definition reply_closed : result string Value := Err "codex request reply channel closed".
Definition timed_out (method : string) : result string Value := Err ("codex request '" ++ method ++ "' timed out").

(** The end of [read_loop]: all that are pending fail. *)
Definition drain (s : Rpc) : Rpc :=
  mkRpc (next_id s) ∅ (imap (λ i c, if decide (pending s !! c_id c = Some i) then call_reply app_server_closed c else c) (calls s))
    (wire s) (heard s) (notes s) (requests s) true.

Definition wrap_i64 (n : Z) : Z := ((n + 2 ^ 63) mod 2 ^ 64 - 2 ^ 63)%Z.

Inductive rpc_step : Rpc → Rpc → Prop :=
| RpcNumber method params s :
    rpc_step s (mkRpc (wrap_i64 (next_id s + 1)) (pending s) (calls s ++ [mkCall (next_id s) method params CNumbered None])
      (wire s) (heard s) (notes s) (requests s) (closed s))
| RpcInsert i c s : calls s !! i = Some c → c_phase c = CNumbered →
    rpc_step s (set_calls (<[c_id c := i]> (pending s)) (upd_call i CPending c s) s)
| RpcWrite i c s : calls s !! i = Some c → c_phase c = CPending →
    rpc_step s (written (FRequest (c_id c) (c_method c) (c_params c)) (set_calls (pending s) (upd_call i CWaiting c s) s))
| RpcWriteFails i c err s : calls s !! i = Some c → c_phase c = CPending →
    rpc_step s (set_calls (delete (c_id c) (pending s)) (upd_call i (CReturned (Err err)) c s) s)
| RpcReceive i c r s : calls s !! i = Some c → c_phase c = CWaiting → c_value c = Some r →
    rpc_step s (set_calls (pending s) (upd_call i (CReturned r) c s) s)
| RpcClosed i c s : calls s !! i = Some c → c_phase c = CWaiting → c_value c = None → pending s !! c_id c ≠ Some i →
    rpc_step s (set_calls (pending s) (upd_call i (CReturned reply_closed) c s) s)
| RpcTimeout i c s : calls s !! i = Some c → c_phase c = CWaiting → c_value c = None →
    rpc_step s (set_calls (delete (c_id c) (pending s)) (upd_call i (CReturned (timed_out (c_method c))) c s) s)
| RpcNotify method params s : rpc_step s (written (FNotify method params) s)
| RpcRespond id reply s : rpc_step s (written (FRespond id reply) s)
| RpcLine line s : closed s = false → rpc_step s (read_line line s)
| RpcEof s : closed s = false → rpc_step s (drain s).

(** ** What holds of every call *)

Definition note_of (line : string) : option Notification := match inbound line with Notified n => Some n | _ => None end.
Definition request_of (line : string) : option ServerRequest := match inbound line with Requested r => Some r | _ => None end.
Definition frame_id (f : Frame) : option Z := match f with FRequest id _ _ => Some id | _ => None end.
Definition call_frame (c : RpcCall) : Frame := FRequest (c_id c) (c_method c) (c_params c).

(** A reply to this call, read or made up at the end. *)
Definition answered (s : Rpc) (id : Z) (r : result string Value) : Prop :=
  (∃ line, line ∈ heard s ∧ inbound line = Response id r) ∨ (r = app_server_closed ∧ closed s = true).

Definition phase_ok (s : Rpc) (c : RpcCall) : Prop :=
  match c_phase c with
  | CNumbered => c_id c ∉ omap frame_id (wire s) ∧ c_value c = None
  | CPending => c_id c ∉ omap frame_id (wire s)
  | CWaiting => call_frame c ∈ wire s
  | CReturned r => call_frame c ∈ wire s ∧ (answered s (c_id c) r ∨ r = timed_out (c_method c)) ∨
                   c_id c ∉ omap frame_id (wire s) ∧ ∃ err, r = Err err
  end.

Definition in_flight (c : RpcCall) : Prop := (c_phase c = CPending ∨ c_phase c = CWaiting) ∧ c_value c = None.

Record call_ok (s : Rpc) (i : nat) (c : RpcCall) : Prop := {
  ok_id : c_id c = Z.of_nat (S i);
  ok_pending : pending s !! c_id c = Some i ↔ in_flight c;
  ok_value : ∀ r, c_value c = Some r → answered s (c_id c) r;
  ok_phase : phase_ok s c;
}.

Record rpc_ok (s : Rpc) : Prop := {
  ok_next : next_id s = (Z.of_nat (length (calls s)) + 1)%Z;
  ok_calls : ∀ i c, calls s !! i = Some c → call_ok s i c;
  ok_entry : ∀ id i, pending s !! id = Some i → id = Z.of_nat (S i) ∧ (i < length (calls s))%nat;
  ok_once : NoDup (omap frame_id (wire s));
  ok_wire : ∀ id, id ∈ omap frame_id (wire s) → (1 ≤ id ≤ Z.of_nat (length (calls s)))%Z;
  ok_notes : notes s = omap note_of (heard s) ∧ requests s = omap request_of (heard s);
}.

Lemma answered_mono s s' id r : heard s ⊆ heard s' → (closed s = true → closed s' = true) → answered s id r → answered s' id r.
Proof. intros Hh Hc [(line & Hl & Hi)|[Hr Hs]]; [left; eauto|right; auto]. Qed.

(** A call of which a step changes nothing. *)
Lemma call_ok_same s s' i c : heard s ⊆ heard s' → (closed s = true → closed s' = true) →
  (pending s' !! c_id c = Some i ↔ pending s !! c_id c = Some i) →
  (c_id c ∈ omap frame_id (wire s') ↔ c_id c ∈ omap frame_id (wire s)) → (wire s ⊆ wire s') →
  call_ok s i c → call_ok s' i c.
Proof.
  intros Hh Hc Hp Hw Hsub [Hid Hpend Hval Hph]. split; [done|by rewrite Hp|intros r Hr; eapply answered_mono; eauto|].
  unfold phase_ok in *. destruct (c_phase c); [by rewrite Hw|by rewrite Hw|auto|].
  destruct Hph as [[Hin [Ha|Hr]]|[Hnin He]]; [left; split; [auto|left; eapply answered_mono; eauto]|left; auto|right; by rewrite Hw].
Qed.

Lemma ids_apart s i c j d : rpc_ok s → calls s !! i = Some c → calls s !! j = Some d → i ≠ j → c_id c ≠ c_id d.
Proof. intros Hok Hi Hj Hne. rewrite (ok_id _ _ _ (ok_calls _ Hok _ _ Hi)) (ok_id _ _ _ (ok_calls _ Hok _ _ Hj)). lia. Qed.

Lemma alter_as_insert {A} (f : A → A) (l : list A) i x : l !! i = Some x → alter f i l = <[i := f x]> l.
Proof. intros Hi. rewrite list_insert_alter. apply list_alter_ext; [|done]. intros y Hy. congruence. Qed.

(** A step of one call, that leaves the others alone: it may write its frame. *)
Definition step_call (i : nat) (c : RpcCall) (pend : gmap Z nat) (out : list Frame) (s : Rpc) : Rpc :=
  mkRpc (next_id s) pend (<[i := c]> (calls s)) (wire s ++ out) (heard s) (notes s) (requests s) (closed s).

Lemma one_call s i c c' pend out : rpc_ok s → calls s !! i = Some c → c_id c' = c_id c →
  (∀ id, id ≠ c_id c → pend !! id = pending s !! id) →
  (pend !! c_id c = Some i ∨ pend !! c_id c = None) →
  (out = [] ∨ out = [call_frame c] ∧ c_id c ∉ omap frame_id (wire s)) →
  call_ok (step_call i c' pend out s) i c' →
  rpc_ok (step_call i c' pend out s).
Proof.
  intros Hok Hi Hid Hpend Hown Hout Hc'. pose proof (ok_calls _ Hok _ _ Hi) as Hc. pose proof (lookup_lt_Some _ _ _ Hi) as Hlt.
  assert (Hw : ∀ id, id ≠ c_id c → id ∈ omap frame_id (wire s ++ out)%list ↔ id ∈ omap frame_id (wire s)).
  { intros id Hne. destruct Hout as [->|[-> _]]; [by rewrite app_nil_r|]. rewrite omap_app elem_of_app. cbn. set_solver. }
  split.
  - cbn. rewrite length_insert. apply Hok.
  - intros j d Hj. cbn in Hj. destruct (decide (j = i)) as [->|Hne].
    + rewrite list_lookup_insert_eq in Hj; [done|]. by simplify_eq.
    + rewrite list_lookup_insert_ne in Hj; [congruence|]. pose proof (ids_apart s j d i c Hok Hj Hi Hne).
      apply (call_ok_same s); [done|done|by cbn; rewrite Hpend|by apply Hw|cbn; set_solver|by apply Hok].
  - intros id j. cbn. rewrite length_insert. destruct (decide (id = c_id c)) as [->|Hne].
    + intros Hj. destruct Hown as [Ho|Ho]; [|congruence]. rewrite Ho in Hj. injection Hj as <-. by rewrite (ok_id _ _ _ Hc).
    + rewrite Hpend //. apply Hok.
  - cbn. destruct Hout as [->|[-> Hn]]; [rewrite app_nil_r; apply Hok|]. rewrite omap_app. apply NoDup_app.
    split_and!; [apply Hok| |apply NoDup_singleton]. cbn. set_solver.
  - intros id. cbn. rewrite length_insert. destruct (decide (id = c_id c)) as [->|Hne]; [|rewrite Hw //; apply Hok].
    intros _. rewrite (ok_id _ _ _ Hc). lia.
  - apply Hok.
Qed.

Lemma one_call_nil s i c pend : set_calls pend (<[i := c]> (calls s)) s = step_call i c pend [] s.
Proof. unfold step_call. by rewrite app_nil_r. Qed.

(** Frames that are no requests change nothing. *)
Lemma written_ok s f : frame_id f = None → rpc_ok s → rpc_ok (written f s).
Proof.
  intros Hf Hok. assert (Hw : omap frame_id (wire s ++ [f])%list = omap frame_id (wire s)) by (rewrite omap_app; cbn; by rewrite Hf app_nil_r).
  split; cbn; rewrite ?Hw; try apply Hok. intros i c Hi.
  apply (call_ok_same s); [done|done|done|by cbn; rewrite Hw|cbn; set_solver|by apply Hok].
Qed.

Lemma number_ok s method params : rpc_ok s → (Z.of_nat (length (calls s)) < 2 ^ 63 - 2)%Z →
  rpc_ok (mkRpc (wrap_i64 (next_id s + 1)) (pending s) (calls s ++ [mkCall (next_id s) method params CNumbered None])
      (wire s) (heard s) (notes s) (requests s) (closed s)).
Proof.
  intros Hok Hlen. pose proof (ok_next _ Hok) as Hn. split; cbn.
  - rewrite length_app Hn. cbn. unfold wrap_i64. rewrite Z.mod_small; [lia|]. lia.
  - intros i c. rewrite lookup_app. destruct (calls s !! i) as [d|] eqn:Hi; [intros [= <-]|].
    + apply (call_ok_same s); try done. by apply Hok.
    + intros Hl. apply list_lookup_singleton_Some in Hl as [Hl <-]. apply lookup_ge_None in Hi.
      assert (i = length (calls s)) as -> by lia. split; cbn; [lia| |done|].
      * split; [intros [? ?]%(ok_entry _ Hok); lia|]. unfold in_flight. cbn. by intros [[?|?] _].
      * unfold phase_ok. cbn. split; [|done]. intros Hin%(ok_wire _ Hok). lia.
  - intros id i Hp%(ok_entry _ Hok). rewrite length_app. cbn. lia.
  - apply Hok.
  - intros id Hin%(ok_wire _ Hok). rewrite length_app. cbn. lia.
  - apply Hok.
Qed.

(** What was heard grows, the rest stays. *)
Lemma heard_ok s line (ns : list Notification) (rs : list ServerRequest) : rpc_ok s →
  ns = omap note_of (heard s ++ [line])%list → rs = omap request_of (heard s ++ [line])%list →
  rpc_ok (mkRpc (next_id s) (pending s) (calls s) (wire s) (heard s ++ [line])%list ns rs (closed s)).
Proof.
  intros Hok Hns Hrs. split; cbn; try apply Hok; [|done]. intros i c Hi.
  apply (call_ok_same s); [cbn; set_solver|done..|by apply Hok].
Qed.

Lemma read_line_ok s line : rpc_ok s → rpc_ok (read_line line s).
Proof.
  intros Hok. unfold read_line. destruct (ok_notes _ Hok) as [Hn Hr].
  assert (Hns : ∀ x, omap note_of [line] = x → omap note_of (heard s ++ [line])%list = (notes s ++ x)%list) by (intros x <-; by rewrite omap_app Hn).
  assert (Hrs : ∀ x, omap request_of [line] = x → omap request_of (heard s ++ [line])%list = (requests s ++ x)%list) by (intros x <-; by rewrite omap_app Hr).
  unfold note_of, request_of in *. cbn in Hns, Hrs. cbn [pending calls next_id wire heard notes requests closed].
  destruct (inbound line) as [id r|n|r|] eqn:Hin.
  - set (s1 := mkRpc (next_id s) (pending s) (calls s) (wire s) (heard s ++ [line])%list (notes s) (requests s) (closed s)).
    assert (Hok' : rpc_ok s1).
    { apply heard_ok; [done| |]; [by rewrite (Hns []) ?app_nil_r|by rewrite (Hrs []) ?app_nil_r]. }
    destruct (pending s !! id) as [i|] eqn:Hp; [|done].
    pose proof (ok_entry _ Hok _ _ Hp) as [-> Hlt]. destruct (lookup_lt_is_Some_2 _ _ Hlt) as [c Hc].
    pose proof (ok_calls _ Hok' _ _ Hc) as Hcok. pose proof (ok_id _ _ _ Hcok) as Hid. rewrite -Hid in Hp.
    pose proof (proj1 (ok_pending _ _ _ Hcok) Hp) as [Hph _].
    rewrite (alter_as_insert _ _ _ c Hc). rewrite (one_call_nil s1). apply (one_call s1 _ c); [done|done|done| | |by left|].
    + intros id Hne. cbn. by rewrite lookup_delete_ne; [congruence|].
    + right. cbn. by rewrite -Hid lookup_delete_eq.
    + split; cbn; [done| | |].
      * rewrite -Hid lookup_delete_eq. split; [done|]. unfold in_flight. cbn. by intros [_ ?].
      * intros r' [= <-]. left. exists line. cbn. rewrite Hid. split; [set_solver|done].
      * pose proof (ok_phase _ _ _ Hcok) as Hpo. unfold phase_ok in *. cbn in *. rewrite app_nil_r. by destruct Hph as [Hph|Hph]; rewrite Hph in Hpo |- *.
  - apply heard_ok; [done|by rewrite (Hns [n])|by rewrite (Hrs []) ?app_nil_r].
  - apply heard_ok; [done|by rewrite (Hns []) ?app_nil_r|by rewrite (Hrs [r])].
  - apply heard_ok; [done|by rewrite (Hns []) ?app_nil_r|by rewrite (Hrs []) ?app_nil_r].
Qed.

Lemma drain_ok s : rpc_ok s → rpc_ok (drain s).
Proof.
  intros Hok. split; cbn; rewrite ?length_imap; try apply Hok; [|done].
  intros i c'. rewrite list_lookup_imap. destruct (calls s !! i) as [c|] eqn:Hi; [|done]. cbn. intros [= <-].
  pose proof (ok_calls _ Hok _ _ Hi) as [Hid Hp Hv Hph]. destruct (decide (pending s !! c_id c = Some i)) as [Hin|Hnin].
  - apply Hp in Hin as [Hph' _]. split; cbn; [done| | |].
    + rewrite lookup_empty. split; [done|]. unfold in_flight. cbn. by intros [_ ?].
    + intros r [= <-]. by right.
    + unfold phase_ok in *. cbn in *. by destruct Hph' as [Hph'|Hph']; rewrite Hph' in Hph |- *.
  - apply (call_ok_same s); [done|done| |done|done|by split]. cbn. by rewrite lookup_empty.
Qed.

Lemma not_pending s i c : rpc_ok s → calls s !! i = Some c → ¬ in_flight c → pending s !! c_id c = None.
Proof.
  intros Hok Hi Hn. pose proof (ok_calls _ Hok _ _ Hi) as Hc. destruct (pending s !! c_id c) as [j|] eqn:Hj; [|done].
  exfalso. apply Hn, (ok_pending _ _ _ Hc). pose proof (ok_entry _ Hok _ _ Hj) as [He _]. rewrite (ok_id _ _ _ Hc) in He.
  assert (j = i) as -> by lia. done.
Qed.

(** A call that returns leaves no entry. *)
Lemma return_ok s i c r pend : rpc_ok s → calls s !! i = Some c →
  pend !! c_id c = None → (∀ id, id ≠ c_id c → pend !! id = pending s !! id) →
  phase_ok s (call_at (CReturned r) c) →
  rpc_ok (set_calls pend (<[i := call_at (CReturned r) c]> (calls s)) s).
Proof.
  intros Hok Hi Hown Hpend Hph. rewrite one_call_nil. pose proof (ok_calls _ Hok _ _ Hi) as [Hid _ Hv _].
  apply (one_call _ _ c); [done|done|done|done|by right|by left|]. split; cbn; [done| |by intros r' Hr'; apply Hv|].
  - rewrite Hown. split; [done|]. unfold in_flight. cbn. by intros [[?|?] _].
  - unfold phase_ok, answered in *. cbn in *. by rewrite app_nil_r.
Qed.

(** Where a call is known by its phase. *)
Lemma phase_of s i c ph : rpc_ok s → calls s !! i = Some c → c_phase c = ph → phase_ok s (call_at ph c).
Proof. intros Hok Hi <-. pose proof (ok_phase _ _ _ (ok_calls _ Hok _ _ Hi)). by destruct c. Qed.

Lemma insert_ok s i c : rpc_ok s → calls s !! i = Some c → c_phase c = CNumbered →
  rpc_ok (set_calls (<[c_id c := i]> (pending s)) (upd_call i CPending c s) s).
Proof.
  intros Hok Hi Hph. destruct (phase_of _ _ _ _ Hok Hi Hph) as [Hw Hv]. cbn in Hv. unfold upd_call. rewrite one_call_nil.
  pose proof (ok_calls _ Hok _ _ Hi) as [Hid _ _ _].
  apply (one_call _ _ c); [done|done|done| | |by left|].
  - intros id Hne. by rewrite lookup_insert_ne; [congruence|].
  - left. by rewrite lookup_insert_eq.
  - split; cbn; [done| |by rewrite Hv|by unfold phase_ok; cbn; rewrite app_nil_r]. rewrite lookup_insert_eq. unfold in_flight. cbn. naive_solver.
Qed.

Lemma write_ok s i c : rpc_ok s → calls s !! i = Some c → c_phase c = CPending →
  rpc_ok (written (call_frame c) (set_calls (pending s) (upd_call i CWaiting c s) s)).
Proof.
  intros Hok Hi Hph. pose proof (phase_of _ _ _ _ Hok Hi Hph) as Hw. unfold phase_ok in Hw. cbn in Hw.
  pose proof (ok_calls _ Hok _ _ Hi) as [Hid Hp Hv _].
  change (rpc_ok (step_call i (call_at CWaiting c) (pending s) [call_frame c] s)).
  assert (Hfl : in_flight (call_at CWaiting c) ↔ in_flight c) by (unfold in_flight; cbn; rewrite Hph; naive_solver).
  apply (one_call _ _ c); [done|done|done|done| |by right|].
  - destruct (pending s !! c_id c) as [j|] eqn:Hj; [left|by right]. pose proof (ok_entry _ Hok _ _ Hj) as [He _]. f_equal. lia.
  - split; cbn; [done|by rewrite Hfl|by intros r Hr; apply Hv|]. unfold phase_ok. cbn. set_solver.
Qed.

Lemma rpc_step_ok s s' : rpc_step s s' → (Z.of_nat (length (calls s')) < 2 ^ 63 - 1)%Z → rpc_ok s → rpc_ok s'.
Proof.
  intros Hs Hlen Hok. destruct Hs as [method params s|i c s Hi Hph|i c s Hi Hph|i c err s Hi Hph|i c r s Hi Hph Hv|i c s Hi Hph Hv Hn|i c s Hi Hph Hv|method params s|id reply s|line s _|s _].
  - apply number_ok; [done|]. cbn in Hlen. rewrite length_app in Hlen. cbn in Hlen. lia.
  - by apply insert_ok.
  - by apply write_ok.
  - apply return_ok; [done|done|apply lookup_delete_eq|intros id Hne; apply lookup_delete_ne; congruence|].
    pose proof (phase_of _ _ _ _ Hok Hi Hph). right. split; [done|by exists err].
  - apply return_ok; [done|done| |done|].
    + apply (not_pending _ _ _ Hok Hi). unfold in_flight. rewrite Hv. by intros [_ ?].
    + left. split; [exact (phase_of _ _ _ _ Hok Hi Hph)|]. left. by apply (ok_value _ _ _ (ok_calls _ Hok _ _ Hi)).
  - exfalso. apply Hn, (ok_pending _ _ _ (ok_calls _ Hok _ _ Hi)). split; [by right|done].
  - apply return_ok; [done|done|apply lookup_delete_eq|intros id Hne; apply lookup_delete_ne; congruence|].
    left. split; [exact (phase_of _ _ _ _ Hok Hi Hph)|by right].
  - by apply written_ok.
  - by apply written_ok.
  - by apply read_line_ok.
  - by apply drain_ok.
Qed.

Lemma step_calls s s' : rpc_step s s' → (length (calls s) ≤ length (calls s'))%nat.
Proof.
  destruct 1; cbn; unfold upd_call; rewrite ?length_app ?length_insert ?length_imap; try lia.
  unfold read_line. cbn. destruct (inbound line) as [id r|n|r|]; cbn; [|done..]. destruct (_ !! id); cbn; by rewrite ?length_alter.
Qed.

Lemma rpc_new_ok : rpc_ok Rpc_new.
Proof. split; cbn; [done|done|done|constructor|set_solver|done]. Qed.

Lemma rpc_reach s s' : rtc rpc_step s s' → (Z.of_nat (length (calls s')) < 2 ^ 63 - 1)%Z → rpc_ok s → rpc_ok s'.
Proof.
  intros Hs Hlen. assert (Hgrow : (length (calls s) ≤ length (calls s'))%nat ∧ (rpc_ok s → rpc_ok s')); [|tauto].
  induction Hs as [|s1 s2 s3 Hs _ IH]; [done|]. destruct (IH Hlen) as [Hg Hok]. pose proof (step_calls _ _ Hs) as Hg'.
  split; [lia|]. intros H1. apply Hok. apply (rpc_step_ok _ _ Hs); [lia|done].
Qed.

(** C17. However calls of request, the reader and the end of the app-server
    interleave: no two requests are written under one number, and each under
    its call's own; a call returns a reply only if it was written and a line
    with its number was read, or the app-server was found gone; its channel is
    never found closed; the end of the reader gives an answer to every call that
    is then in the table, while one that comes to the table later has its time-out
    only ([late_request_waits]); and what is no reply reaches the bridges, once
    and in order. *)
Theorem rpc_replies (s : Rpc) : rtc rpc_step Rpc_new s → (Z.of_nat (length (calls s)) < 2 ^ 63 - 1)%Z →
  NoDup (omap frame_id (wire s)) ∧
  (∀ i c r, calls s !! i = Some c → c_phase c = CReturned r →
     call_frame c ∈ wire s ∧ (r = timed_out (c_method c) ∨ r = app_server_closed ∧ closed s = true ∨
       ∃ line, line ∈ heard s ∧ inbound line = Response (c_id c) r) ∨
     c_id c ∉ omap frame_id (wire s) ∧ ∃ err, r = Err err) ∧
  (∀ i j c d, calls s !! i = Some c → calls s !! j = Some d → c_id c = c_id d → i = j) ∧
  (∀ i c, calls s !! i = Some c → c_phase c = CWaiting → c_value c = None → pending s !! c_id c = Some i) ∧
  (∀ i c, calls (drain s) !! i = Some c → c_phase c = CPending ∨ c_phase c = CWaiting → is_Some (c_value c)) ∧
  notes s = omap note_of (heard s) ∧ requests s = omap request_of (heard s).
Proof.
  intros Hs Hlen. pose proof (rpc_reach _ _ Hs Hlen rpc_new_ok) as Hok. split_and!.
  - apply Hok.
  - intros i c r Hi Hph. destruct (phase_of _ _ _ _ Hok Hi Hph) as [[Hin [[Hl|Hc]|Ht]]|?]; [left; eauto..|by right].
  - intros i j c d Hi Hj He. destruct (decide (i = j)) as [|Hne]; [done|]. by destruct (ids_apart _ _ _ _ _ Hok Hi Hj Hne).
  - intros i c Hi Hph Hv. apply (ok_pending _ _ _ (ok_calls _ Hok _ _ Hi)). split; [by right|done].
  - intros i c Hi Hph. pose proof (ok_calls _ (drain_ok _ Hok) _ _ Hi) as Hc.
    destruct (c_value c) eqn:Hv; [done|]. assert (Hf : in_flight c) by by split. apply (ok_pending _ _ _ Hc) in Hf. done.
  - apply Hok.
  - apply Hok.
Qed.

(** ** Conversations ([CodexClient::initialize], [thread_start], [turn_start], [turn_interrupt]) *)

Definition initialize_params `{!Package} : Value :=
  obj [("clientInfo", obj [("name", Str "omniagent"); ("title", Str "OmniAgent"); ("version", Str CARGO_PKG_VERSION)])].

Definition thread_start_params (model : option string) (cwd : string) : Value :=
  obj (("cwd", Str cwd) :: match model with Some model => [("model", Str model)] | None => [] end).

Definition thread_id (result : Value) : option string := (v_get "thread" result ≫= v_get "id") ≫= as_string.

Definition turn_start_params (thread text : string) : Value :=
  obj [("threadId", Str thread); ("input", Array [obj [("type", Str "text"); ("text", Str text)]])].

Definition turn_interrupt_params (thread turn : string) : Value := obj [("threadId", Str thread); ("turnId", Str turn)].

(** [CodexWorkerHandle::spawn]: the child, the handshake, a thread, given how the
    two requests end.  What was started and never ended is the child. *)
Inductive SpawnAct : Type := SpawnChild (argv : list string) | Ask (method : string) (params : Value) | Tell (method : string).

Definition codex_spawn `{!Package} (argv : list string) (started : bool) (cwd : string) (model : option string)
    (initialized : result string Value) (thread : result string Value) : result string string * list SpawnAct :=
  match argv with
  | [] => (Err "codex command must not be empty", [])
  | program :: _ =>
      if negb started then (Err ("failed to spawn codex app-server (" ++ program ++ ")"), [])
      else match initialized with
      | Err _ => (Err "codex app-server initialize failed", [SpawnChild argv; Ask "initialize" initialize_params])
      | Ok _ =>
          let acts := [SpawnChild argv; Ask "initialize" initialize_params; Tell "initialized"; Ask "thread/start" (thread_start_params model cwd)] in
          match thread with
          | Err _ => (Err "codex app-server thread/start failed", acts)
          | Ok result => (match thread_id result with Some id => Ok id | None => Err "codex app-server thread/start failed" end, acts)
          end
      end
  end.

(** A thread is there after the handshake, told in this order. *)
Lemma codex_spawn_ok `{!Package} argv started cwd model initialized thread id acts :
  codex_spawn argv started cwd model initialized thread = (Ok id, acts) →
  started = true ∧ is_ok initialized = true ∧ (∃ result, thread = Ok result ∧ thread_id result = Some id) ∧
  acts = [SpawnChild argv; Ask "initialize" initialize_params; Tell "initialized"; Ask "thread/start" (thread_start_params model cwd)].
Proof.
  unfold codex_spawn. destruct argv; [done|]. destruct started; [|done]. destruct initialized; [|done]. destruct thread as [v|]; [|done].
  destruct (thread_id v) eqn:E; [|done]. intros [= <- <-]. by split_and!; [..|exists v|].
Qed.

(** The process group asked to end, and killed if it is there half a second later. *)
Definition codex_terminate (pid : option Z) (alive : nat → bool) : list KillAct :=
  match pid ≫= (λ pid, if decide (0 < pid ≤ 2147483647)%Z then Some pid else None) with
  | None => []
  | Some _ =>
      let '(acts, gone) := wait_for_process_group_exit alive 0 10 in
      SignalGroup TERM :: acts ++ if gone then [] else [SignalGroup KILL]
  end%list.

Definition codex_shutdown (exit_code : option Z) (pid : option Z) (alive : nat → bool) : list KillAct :=
  match exit_code with Some _ => [] | None => codex_terminate pid alive end.

Lemma codex_shutdown_spec exit_code pid alive :
  (exit_code ≠ None → codex_shutdown exit_code pid alive = []) ∧
  (SignalGroup KILL ∈ codex_shutdown exit_code pid alive → ∀ i, (i < 10)%nat → alive i = true).
Proof.
  split; [by destruct exit_code|]. unfold codex_shutdown, codex_terminate. destruct exit_code; [set_solver|]. destruct (_ ≫= _); [|set_solver].
  pose proof (waits_only alive 0 10) as Hw. pose proof (wait_gone alive 0 10) as Hg.
  destruct (wait_for_process_group_exit alive 0 10) as [acts gone]. cbn [fst snd] in *. destruct gone.
  - rewrite app_nil_r elem_of_cons. intros [?|?%Hw]; done.
  - intros _ i Hi. destruct (alive i) eqn:E; [done|]. destruct Hg as [_ Hg]. discriminate Hg. by exists i.
Qed.

(** ** Commands ([app_server_argv], [tui_argv]) *)

Definition provider_overrides (proxy_url : string) : list string :=
  let base_url := trim_end_char "/" proxy_url ++ "/v1" in
  let quoted (s : string) := dquote ++ s ++ dquote in
  flat_map (λ o, ["-c"; o])
    ["model_provider=omniagent"; "model_providers.omniagent.name=" ++ quoted "omniagent";
     "model_providers.omniagent.base_url=" ++ quoted base_url; "model_providers.omniagent.wire_api=" ++ quoted "responses";
     "model_providers.omniagent.env_key=" ++ quoted "OPENAI_API_KEY"].

Definition app_server_argv (resolved : list string) (proxy_url : string) : list string :=
  let argv := if decide ("app-server" ∈ resolved) then resolved else (resolved ++ ["app-server"])%list in
  let argv := if decide ("--listen" ∈ argv) then argv else (argv ++ ["--listen"; "stdio://"])%list in
  let detailed := "model_reasoning_summary=" ++ dquote ++ "detailed" ++ dquote in
  (argv ++ provider_overrides proxy_url ++ ["-c"; detailed])%list.

Definition tui_argv (resolved : list string) (proxy_url : string) : list string := (resolved ++ provider_overrides proxy_url)%list.

(** Both keep the command given, and route codex through the proxy. *)
Lemma codex_argv_spec resolved proxy_url :
  (∃ mid post, app_server_argv resolved proxy_url = (resolved ++ mid ++ provider_overrides proxy_url ++ post)%list ∧
     "app-server" ∈ (resolved ++ mid)%list ∧ "--listen" ∈ (resolved ++ mid)%list) ∧
  tui_argv resolved proxy_url = (resolved ++ provider_overrides proxy_url)%list.
Proof.
  split; [|done]. unfold app_server_argv. set (detailed := "model_reasoning_summary=" ++ _).
  assert (Hadd : ∀ (x : string) (l new : list string), x ∈ (l ++ new)%list →
    ∃ mid, (if decide (x ∈ l) then l else (l ++ new)%list) = (l ++ mid)%list ∧ x ∈ (l ++ mid)%list).
  { intros x l new Hx. destruct (decide (x ∈ l)); [exists []|exists new]; by rewrite ?app_nil_r. }
  destruct (Hadd "app-server" resolved ["app-server"]) as (mid1 & -> & Hin1); [set_solver|].
  destruct (Hadd "--listen" (resolved ++ mid1)%list ["--listen"; "stdio://"]) as (mid2 & -> & Hin2); [set_solver|].
  exists (mid1 ++ mid2)%list, ["-c"; detailed]. rewrite -!app_assoc. split_and!; set_solver.
Qed.

(** ** What the console is shown (codex/mod.rs) *)

(** [str_field]: the first of the keys that is there and not null. *)
Definition codex_field (value : Value) (keys : list string) : Value :=
  default Null (find_map (λ key, v ← v_get key value; if is_null v then None else Some v) keys).

Definition got (key : string) (p : Value) : Value := default Null (v_get key p).

Definition codex_delta (kind : string) (p : Value) : string * Value :=
  ("codex_delta", obj [("kind", Str kind); ("item_id", codex_field p ["item_id"; "itemId"]); ("delta", got "delta" p)]).

Definition map_notification (note : Notification) : option (string * Value) :=
  let p := n_params note in
  let phased (event phase key : string) := Some (event, obj [("phase", Str phase); (key, got key p)]) in
  let method := n_method note in
  if decide (method = "item/started") then phased "codex_item" "started" "item"
  else if decide (method = "item/completed") then phased "codex_item" "completed" "item"
  else if decide (method = "item/agentMessage/delta") then Some (codex_delta "agent_message" p)
  else if decide (method = "item/reasoning/textDelta") then Some (codex_delta "reasoning" p)
  else if decide (method = "item/reasoning/summaryTextDelta") then Some (codex_delta "reasoning_summary" p)
  else if decide (method = "item/commandExecution/outputDelta") then Some (codex_delta "command_output" p)
  else if decide (method = "item/fileChange/patchUpdated") then
    Some ("codex_delta", obj [("kind", Str "file_change"); ("item_id", codex_field p ["item_id"; "itemId"]); ("changes", got "changes" p)])
  else if decide (method = "turn/started") then phased "codex_turn" "started" "turn"
  else if decide (method = "turn/completed") then phased "codex_turn" "completed" "turn"
  else if decide (method = "turn/diff/updated") then phased "codex_turn" "diff" "diff"
  else if decide (method = "turn/plan/updated") then
    Some ("codex_turn", obj [("phase", Str "plan"); ("plan", got "plan" p); ("explanation", got "explanation" p)])
  else if decide (method = "thread/tokenUsage/updated") then Some ("codex_token_usage", p)
  else if decide (method = "error") then Some ("codex_error", p)
  else None.

Definition turn_started_id (p : Value) : option string := (v_get "turn" p ≫= v_get "id") ≫= as_string.

Definition reasoning_delta (note : Notification) : option (string * string) :=
  if decide (n_method note ∈ ["item/reasoning/textDelta"; "item/reasoning/summaryTextDelta"]) then
    item_id ← match v_get "item_id" (n_params note) with Some v => Some v | None => v_get "itemId" (n_params note) end ≫= as_string;
    delta ← v_get "delta" (n_params note) ≫= as_string;
    Some (item_id, delta)
  else None.

(** The completed reasoning item a payload is of. *)
Definition completed_reasoning (payload : Value) : option string :=
  item ← v_get "item" payload;
  if decide (v_get "type" item ≫= as_string = Some "reasoning" ∧ v_get "phase" payload ≫= as_string = Some "completed")
  then v_get "id" item ≫= as_string else None.

Definition has_text (item : Value) : bool :=
  let some (key : string) := match v_get key item ≫= as_array with Some (_ :: _) => true | _ => false end in
  some "content" || some "summary".

Definition fill_content (text : string) (payload : Value) : Value :=
  match payload, v_get "item" payload with
  | Object l, Some (Object item) =>
      if has_text (Object item) then payload
      else Object (obj_insert "item" (Object (obj_insert "content" (Array [Str text]) item)) l)
  | _, _ => payload
  end.

Definition backfill_reasoning (payload : Value) (buffers : gmap string string) : Value * gmap string string :=
  match completed_reasoning payload with
  | None => (payload, buffers)
  | Some id =>
      match buffers !! id with
      | None => (payload, buffers)
      | Some text => (if decide (text = "") then payload else fill_content text payload, delete id buffers)
      end
  end.

(** ** The event bridge ([spawn_codex_event_bridge]) *)

Record Bridge : Type := mkBridge { active_turn : option string; reasoning : gmap string string; shown_events : list (string * Value) }.
Definition Bridge_new : Bridge := mkBridge None ∅ [].

Definition on_note (b : Bridge) (note : Notification) : Bridge :=
  let turn := if decide (n_method note = "turn/started") then turn_started_id (n_params note)
              else if decide (n_method note = "turn/completed") then None else active_turn b in
  let buffers := match reasoning_delta note with
    | Some (item_id, delta) => <[item_id := default "" (reasoning b !! item_id) ++ delta]> (reasoning b)
    | None => reasoning b
    end in
  match map_notification note with
  | Some (event, payload) =>
      let '(payload, buffers) := backfill_reasoning payload buffers in
      mkBridge turn buffers (shown_events b ++ [(event, payload)])
  | None => mkBridge turn buffers (shown_events b)
  end.

Definition codex_events (l : list Notification) : Bridge := foldl on_note Bridge_new l.

(** What an item was thought of since it was last completed, and the turn. *)
Definition completes (note : Notification) : option string := '(_, payload) ← map_notification note; completed_reasoning payload.

Definition thoughts (id : string) (l : list Notification) : string :=
  foldl (λ text note,
    if decide (completes note = Some id) then ""
    else match reasoning_delta note with
         | Some (id', delta) => if decide (id' = id) then text ++ delta else text
         | None => text
         end) "" l.

Definition turn_news (note : Notification) : option (option string) :=
  if decide (n_method note = "turn/started") then Some (turn_started_id (n_params note))
  else if decide (n_method note = "turn/completed") then Some None else None.

(** The event of a notification, after these. *)
Definition event_of (l : list Notification) (note : Notification) : option (string * Value) :=
  '(event, payload) ← map_notification note;
  Some (event, match completed_reasoning payload with
    | Some id => if decide (thoughts id l = "") then payload else fill_content (thoughts id l) payload
    | None => payload
    end).

(** A delta completes nothing. *)
Lemma delta_completes note : reasoning_delta note ≠ None → completes note = None.
Proof.
  unfold reasoning_delta. destruct (decide (_ ∈ _)) as [Hin|]; [intros _|done]. unfold completes, map_notification.
  apply elem_of_cons in Hin as [Hn|Hn%list_elem_of_singleton]; rewrite Hn; reflexivity.
Qed.

Lemma thoughts_snoc id l note : thoughts id (l ++ [note])%list =
  if decide (completes note = Some id) then ""
  else match reasoning_delta note with
       | Some (id', delta) => if decide (id' = id) then thoughts id l ++ delta else thoughts id l
       | None => thoughts id l
       end.
Proof. unfold thoughts. by rewrite foldl_app. Qed.

Lemma codex_events_snoc l note : codex_events (l ++ [note])%list = on_note (codex_events l) note.
Proof. unfold codex_events. by rewrite foldl_app. Qed.

Lemma backfilled payload buffers : backfill_reasoning payload buffers =
  (match completed_reasoning payload with
   | Some id => if decide (default "" (buffers !! id) = "") then payload else fill_content (default "" (buffers !! id)) payload
   | None => payload
   end,
   match completed_reasoning payload with Some id => delete id buffers | None => buffers end).
Proof.
  unfold backfill_reasoning. destruct (completed_reasoning payload) as [id|]; [|done].
  destruct (buffers !! id) as [text|] eqn:E; cbn; [done|]. by rewrite delete_id.
Qed.

Lemma kept_thoughts l id : default "" (reasoning (codex_events l) !! id) = thoughts id l.
Proof.
  induction l as [|note l IH] using rev_ind; [done|]. rewrite codex_events_snoc thoughts_snoc. unfold on_note.
  destruct (reasoning_delta note) as [[id' delta]|] eqn:Ed.
  - pose proof (delta_completes note ltac:(by rewrite Ed)) as Hc. unfold completes in Hc.
    destruct (decide (_ = Some id)) as [He|_]; [unfold completes in He; congruence|].
    assert (Hr : default "" (<[id' := default "" (reasoning (codex_events l) !! id') ++ delta]> (reasoning (codex_events l)) !! id) =
      if decide (id' = id) then thoughts id l ++ delta else thoughts id l).
    { destruct (decide (id' = id)) as [->|Hne]; [by rewrite lookup_insert_eq /= IH|by rewrite lookup_insert_ne]. }
    destruct (map_notification note) as [[e p]|]; [|done]. cbn in Hc. rewrite backfilled Hc. cbn [reasoning]. exact Hr.
  - unfold completes. destruct (map_notification note) as [[e p]|]; [|done]. cbn. rewrite backfilled. cbn.
    destruct (completed_reasoning p) as [id'|]; [|done]. destruct (decide (Some id' = Some id)) as [He|Hne].
    + injection He as ->. by rewrite lookup_delete_eq.
    + by rewrite lookup_delete_ne; [congruence|].
Qed.

Lemma fill_content_shows id text payload : completed_reasoning payload = Some id →
  (∀ item, v_get "item" payload = Some item → has_text item = false) →
  (v_get "item" (fill_content text payload) ≫= v_get "content") = Some (Array [Str text]).
Proof.
  unfold completed_reasoning, fill_content. destruct payload as [| | | | |l]; try done. cbn [v_get].
  destruct (obj_get "item" l) as [item|] eqn:Hi; [|done]. cbn.
  destruct (decide _) as [[Ht _]|]; [|done]. destruct item as [| | | | |fields]; try done. intros _ Hn.
  rewrite (Hn _ eq_refl). unfold mbind, option_bind. cbn [v_get].
  rewrite obj_get_insert String.eqb_refl. cbn [v_get]. by rewrite obj_get_insert String.eqb_refl.
Qed.

(** The console is shown an event for each notification that has one, in order,
    as codex sent it, but that a completed item of reasoning that came empty
    carries all the text of the deltas of this item since it was last completed;
    and an interrupt is aimed at the turn last started, if none was completed since. *)
Theorem reasoning_kept (l : list Notification) :
  shown_events (codex_events l) = omap id (imap (λ k note, event_of (take k l) note) l) ∧
  active_turn (codex_events l) = default None (last (omap turn_news l)) ∧
  (∀ note e payload id item, map_notification note = Some (e, payload) → completed_reasoning payload = Some id →
     v_get "item" payload = Some item → has_text item = false → thoughts id l ≠ "" →
     ∃ payload', event_of l note = Some (e, payload') ∧
       (v_get "item" payload' ≫= v_get "content") = Some (Array [Str (thoughts id l)])).
Proof.
  split_and!.
  - induction l as [|note l IH] using rev_ind; [done|]. rewrite codex_events_snoc imap_app omap_app. cbn.
    rewrite Nat.add_0_r take_app_length.
    rewrite (imap_ext _ (λ k n, event_of (take k l) n)); [intros k n Hk; apply lookup_lt_Some in Hk; rewrite take_app_le; [lia|done]|].
    rewrite -IH. unfold on_note, event_of. destruct (map_notification note) as [[e p]|] eqn:Hm; cbn; [|by rewrite app_nil_r].
    rewrite backfilled. cbn. destruct (completed_reasoning p) as [i|] eqn:Hc; [|done]. do 3 f_equal.
    assert (Hd : reasoning_delta note = None).
    { destruct (reasoning_delta note) eqn:E; [|done]. pose proof (delta_completes note ltac:(by rewrite E)) as Hn.
      unfold completes in Hn. rewrite Hm /= Hc in Hn. done. }
    by rewrite Hd !kept_thoughts.
  - induction l as [|note l IH] using rev_ind; [done|]. rewrite codex_events_snoc omap_app last_app. cbn.
    unfold on_note. assert (Hb : ∀ t b e, active_turn (mkBridge t b e) = t) by done.
    destruct (map_notification note) as [[e p]|]; [rewrite backfilled|]; rewrite Hb; unfold turn_news;
      (destruct (decide (_ = "turn/started")); [done|]; by destruct (decide (_ = "turn/completed"))).
  - intros note e payload id item Hm Hc Hi Ht Hn. unfold event_of. rewrite Hm. cbn. rewrite Hc decide_False //.
    eexists. split; [done|]. apply (fill_content_shows id); [done|]. intros item' Hi'. congruence.
Qed.

(** ** Approvals *)

Definition map_decision (decision : ReviewDecision) : string :=
  match decision with Approve _ => "accept" | Reject _ | Retry _ => "decline" end.

Definition approval_review_id (req : ServerRequest) : string :=
  "codex-approval-" ++ match as_string (sr_id req) with Some id => id | None => json_to_string (sr_id req) end.

Definition json_str (value : Value) (keys : list string) : string :=
  default "" (find_map (λ key, v_get key value ≫= as_string) keys).

(** What the person is shown: the file changed, or the command, or where it runs. *)
Definition approval_subject (req : ServerRequest) : string * string :=
  let p := sr_params req in
  if str_contains "fileChange" (sr_method req) then ("file_change", json_str p ["itemId"; "item_id"])
  else
    let command := default "" (parts ← v_get "command" p ≫= as_array; Some (String.concat " " (omap as_string parts))) in
    ("command_execution", if decide (command = "") then json_str p ["cwd"] else command).

(** The time of the request is an argument. *)
Definition approval_review_item (now : string) (req : ServerRequest) : ReviewItem :=
  let '(method, path) := approval_subject req in
  mkItem (approval_review_id req) 0 ReviewRequest 1 OpenAI None method path false "" "" ∅ (sr_params req) ∅ Null usage_default
    None None now None.

(** The answer to an approval, under the number codex gave it. *)
Definition respond_approval (req : ServerRequest) (decision : ReviewDecision) : Frame :=
  FRespond (sr_id req) (obj [("decision", Str (map_decision decision))]).

Lemma respond_approval_spec req decision :
  v_get "id" (frame_json (respond_approval req decision)) = Some (sr_id req) ∧
  ((v_get "result" (frame_json (respond_approval req decision)) ≫= v_get "decision") = Some (Str "accept") ↔
   ∃ model, decision = Approve model).
Proof. split; [done|]. destruct decision as [model|message|model]; cbn; split; try done; [by exists model|by intros [? ?]..]. Qed.

(** Numbers that print apart, or texts, are listed apart. *)
Lemma approval_ids_apart req req' : Inj (=) (=) json_to_string → approval_review_id req = approval_review_id req' →
  (as_string (sr_id req) = None ↔ as_string (sr_id req') = None) → sr_id req = sr_id req'.
Proof.
  intros Hinj He Hk. unfold approval_review_id in He. cbn in He. injection He as He.
  destruct (sr_id req) as [| |n|s| |], (sr_id req') as [| |n'|s'| |]; cbn in *; try (apply Hinj in He; done); try congruence; naive_solver.
Qed.
End codex.

(** ** Examples *)

#[local] Instance codex_json : JsonText := {| json_from_str s :=
  if decide (s = "reply 1") then Some (obj [("id", num 1); ("result", Str "a")])
  else if decide (s = "reply 2") then Some (obj [("id", num 2); ("error", Str "busy")]) else None |}.
#[local] Instance codex_show : JsonShow := {| json_to_string v :=
  match v with Num (NInt n) => show_dec n | Str s => dquote ++ s ++ dquote | _ => "{}" end |}.

Definition call_1 (ph : CallPhase) (v : option (result string Value)) : RpcCall := mkCall 1 "turn/start" Null ph v.

Lemma answered_run : ∃ s, rtc rpc_step Rpc_new s ∧ calls s = [call_1 (CReturned (Ok (Str "a"))) (Some (Ok (Str "a")))] ∧ closed s = false.
Proof.
  eexists. split.
  - eapply rtc_l; [apply (RpcNumber "turn/start" Null)|]. eapply rtc_l; [by eapply (RpcInsert 0)|]. eapply rtc_l; [by eapply (RpcWrite 0)|].
    eapply rtc_l; [by apply (RpcLine "reply 1")|]. eapply rtc_l; [by eapply (RpcReceive 0)|]. apply rtc_refl.
  - split; reflexivity.
Qed.

Lemma rpc_replies_witness : ∃ s, rtc rpc_step Rpc_new s ∧ length (calls s) = 1%nat ∧ notes s = omap note_of (heard s).
Proof.
  destruct answered_run as (s & Hs & Hc & _). exists s. split_and!; [done|by rewrite Hc|].
  apply (rpc_replies s Hs). rewrite Hc. reflexivity.
Defined.

(** A request made when the reader has ended is not failed with the others: it
    waits for the half minute. *)
Example late_request_waits : ∃ s, rtc rpc_step Rpc_new s ∧ closed s = true ∧ calls s = [call_1 CWaiting None] ∧ is_Some (pending s !! 1%Z).
Proof.
  eexists. split_and!.
  - eapply rtc_l; [by apply RpcEof|]. eapply rtc_l; [apply (RpcNumber "turn/start" Null)|]. eapply rtc_l; [by eapply (RpcInsert 0)|].
    eapply rtc_l; [by eapply (RpcWrite 0)|]. apply rtc_refl.
  - reflexivity.
  - reflexivity.
  - by exists 0%nat.
Qed.

Definition note (method : string) (fields : list (string * Value)) : Notification := mkNote method (obj fields).
Definition thinking (key delta : string) : Notification :=
  note "item/reasoning/textDelta" [(key, Str "r1"); ("delta", Str delta)].
Definition thought : Notification :=
  note "item/completed" [("item", obj [("id", Str "r1"); ("type", Str "reasoning"); ("content", Array [])])].

Example reasoning_backfilled :
  v_get "item" (default Null (snd <$> last (shown_events (codex_events [thinking "item_id" "so "; thinking "itemId" "far"; thought])))) =
  Some (obj [("id", Str "r1"); ("type", Str "reasoning"); ("content", Array [Str "so far"])]).
Proof. reflexivity. Qed.

(** A null under the first spelling hides the second from what is kept, not from
    what is shown. *)
Definition half_null : Notification :=
  note "item/reasoning/textDelta" [("item_id", Null); ("itemId", Str "r1"); ("delta", Str "hm")].
Example null_hides_item :
  (reasoning_delta half_null, snd <$> map_notification half_null) =
  (None, Some (obj [("kind", Str "reasoning"); ("item_id", Str "r1"); ("delta", Str "hm")])).
Proof. reflexivity. Qed.

(** The number 1 and the text 1 are one item of the review pane. *)
Example approval_ids_meet :
  approval_review_id (mkRequest (num 1) "m" Null) = approval_review_id (mkRequest (Str "1") "m" Null).
Proof. reflexivity. Qed.

(** No thread, and the child goes on. *)
Example child_left_running `{!Package} : codex_spawn ["codex"] true "/w" None (Ok Null) (Err "busy") =
  (Err "codex app-server thread/start failed",
   [SpawnChild ["codex"]; Ask "initialize" initialize_params; Tell "initialized"; Ask "thread/start" (thread_start_params None "/w")]).
Proof. reflexivity. Qed.
