(* ===== verification/Approvals.v ===== *)
(** * Approvals of codex at the review gate ([spawn_codex_approval_bridge],
    crates/omniagent-cli/src/client/supervisor.rs)

    Before it changes a file or runs a command, codex asks; each request becomes an
    item of the gate of [Review], in a task of its own, and what the gate returns
    is the answer codex gets.  The gate is shared with the recording proxy, whose
    calls and the decisions of people come in between.  Nothing is supposed of the
    ids of the items: the requests of codex may have ones that meet
    ([Codex.approval_ids_meet]), and are under way at once all the same. *)
From stdpp Require Import relations.
From S2P Require Import Prelude Str Json Record Review ReviewInv ReviewAny Codex.

(** A task: the request of codex, and the call of [prompt] it waits for. *)
Record Approval : Type := mkApproval { ap_request : ServerRequest; ap_prompt : nat }.

(** What was answered, with the task that did. *)
Record ApprovalBridge : Type := mkApprovals { gate : Gate; approvals : list Approval; answers : list (nat * Frame) }.

Definition approvals_start (on : bool) (window : option Z) : ApprovalBridge := mkApprovals (Gate_new on window) [] [].

Section bridge.
Context `{!JsonShow}.

(** [respond_approval] of a task that has its decision. *)
Definition respond (j : nat) (a : Approval) (d : ReviewDecision) (s : ApprovalBridge) : ApprovalBridge :=
  mkApprovals (gate s) (approvals s) (answers s ++ [(j, respond_approval (ap_request a) d)])%list.

Inductive approval_step (s : ApprovalBridge) : ApprovalBridge → Prop :=
| approval_asked now req g p :
    gate_step any_id (gate s) g → prompts g = (prompts (gate s) ++ [p])%list →
    numbered_item 0 (p_item p) = approval_review_item now req →
    approval_step s (mkApprovals g (approvals s ++ [mkApproval req (length (prompts (gate s)))])%list (answers s))
| gate_moves g : gate_step any_id (gate s) g → approval_step s (mkApprovals g (approvals s) (answers s))
| approval_answered j a p d :
    approvals s !! j = Some a → j ∉ map fst (answers s) →
    prompts (gate s) !! ap_prompt a = Some p → p_phase p = PReturned d →
    approval_step s (respond j a d s).

(** Each task has its call; each answer is of a call that returned. *)
Record approvals_ok (s : ApprovalBridge) : Prop := {
  has_call j a : approvals s !! j = Some a → ∃ p, prompts (gate s) !! ap_prompt a = Some p ∧ p_id p = approval_review_id (ap_request a);
  once : NoDup (map fst (answers s));
  answer_of j f : (j, f) ∈ answers s → ∃ a p d, approvals s !! j = Some a ∧ prompts (gate s) !! ap_prompt a = Some p ∧
    p_phase p = PReturned d ∧ f = respond_approval (ap_request a) d;
}.

Lemma gate_moves_ok s g : approvals_ok s → gate_step any_id (gate s) g → approvals_ok (mkApprovals g (approvals s) (answers s)).
Proof.
  intros [] Hg. split; cbn; [|done|].
  - intros j a Hj. destruct (has_call0 j a Hj) as (p & Hp & Hid). destruct (prompt_keeps_id _ _ _ _ Hg Hp) as (p' & Hp' & Hid').
    exists p'. by rewrite Hid'.
  - intros j f Hj. destruct (answer_of0 j f Hj) as (a & p & d & Ha & Hp & Hph & ->). exists a, p, d.
    split_and!; try done. by apply (returned_stays (admits := any_id) (gate s) g _ p d).
Qed.

Lemma item_id now req p : numbered_item 0 (p_item p) = approval_review_item now req → p_id p = approval_review_id req.
Proof.
  intros He. apply (f_equal ri_id) in He. unfold approval_review_item in He. by destruct (approval_subject req).
Qed.

Lemma approval_step_ok s s' : approval_step s s' → approvals_ok s → approvals_ok s'.
Proof.
  intros [now req g p Hg Hps Hit|g Hg|j a p d Ha Hn Hp Hph] Hok; [|by apply gate_moves_ok|].
  - pose proof (gate_moves_ok s g Hok Hg) as []. split; cbn in *; [|done|].
    + intros j a [Hj|[_ Hj]]%lookup_app_Some; [by apply (has_call0 j)|]. apply list_lookup_singleton_Some in Hj as [_ <-].
      cbn. exists p. split; [|by apply (item_id now)]. rewrite Hps. apply list_lookup_middle. done.
    + intros j f Hj. destruct (answer_of0 j f Hj) as (a & q & d & Ha & Hq). exists a, q, d. split; [|done]. by apply lookup_app_l_Some.
  - destruct Hok. split; cbn; [done| |].
    + rewrite map_app. apply NoDup_app. split_and!; [done| |apply NoDup_singleton].
      intros k Hk Hin. apply list_elem_of_singleton in Hin as ->. by apply Hn.
    + intros k f Hk. apply elem_of_app in Hk as [Hk|Hk]; [by apply answer_of0|]. apply list_elem_of_singleton in Hk as [= -> ->].
      by exists a, p, d.
Qed.

Lemma approvals_reach on window s : rtc approval_step (approvals_start on window) s →
  approvals_ok s ∧ rtc (gate_step any_id) (Gate_new on window) (gate s).
Proof.
  intros Hs. cut (∀ s0, rtc approval_step s0 s → approvals_ok s0 → approvals_ok s ∧ rtc (gate_step any_id) (gate s0) (gate s)).
  { intros Hc. apply (Hc _ Hs). split; cbn; [intros j a Hj; by rewrite lookup_nil in Hj|constructor|]. intros j f Hj. by apply not_elem_of_nil in Hj. }
  clear Hs. intros s0 Hs. induction Hs as [s|s s1 s2 H1 _ IH]; intros Hok; [split; [done|apply rtc_refl]|].
  destruct (IH (approval_step_ok _ _ H1 Hok)) as [Hok' Hg]. split; [done|].
  destruct H1 as [now req g p Hm _ _|g Hm|]; cbn in *; [by apply (rtc_l _ _ g)|by apply (rtc_l _ _ g)|done].
Qed.

(** C9. Codex is answered at most once for each request, under the number it gave,
    and told to go on exactly when the gate approved.  With review on that is what
    the one decision on this call was, given under the id of the request's item
    after an item with that id was shown, or, where a window is set, its end; a
    call whose place at the gate was taken by one of the same id is declined, so
    without a window nothing but an approval decided on lets codex go on.  With
    review off the gate approves whatever is asked.  Ids that meet
    ([Codex.approval_ids_meet]) are not excluded: the item shown is one with this
    id, and the request's own where no other has it ([approval_crosses]). *)
Theorem approvals_answered (on : bool) (window : option Z) (s : ApprovalBridge) : rtc approval_step (approvals_start on window) s →
  NoDup (map fst (answers s)) ∧
  ∀ j f, (j, f) ∈ answers s → ∃ a p d, approvals s !! j = Some a ∧ prompts (gate s) !! ap_prompt a = Some p ∧
    p_id p = approval_review_id (ap_request a) ∧
    v_get "id" (frame_json f) = Some (sr_id (ap_request a)) ∧
    ((v_get "result" (frame_json f) ≫= v_get "decision") = Some (Str "accept") ↔ ∃ model, d = Approve model) ∧
    if on then
      (window ≠ None ∧ d = approve) ∨ d = channel_closed ∨
      (decisions_of (ap_prompt a) (deciders (gate s)) = [(d, DDone true)] ∧
       ∃ k q, prompts (gate s) !! k = Some q ∧ p_id q = p_id p ∧ Upsert (p_item q) ∈ events (store (gate s)))
    else d = approve.
Proof.
  intros Hs. apply approvals_reach in Hs as [Hok Hg]. split; [apply Hok|].
  intros j f Hj. destruct (answer_of s Hok j f Hj) as (a & p & d & Ha & Hp & Hph & ->). exists a, p, d.
  destruct (has_call s Hok j a Ha) as (q & Hq & Hid). rewrite Hp in Hq. injection Hq as <-.
  destruct (respond_approval_spec (ap_request a) d) as [H1 H2]. split_and!; [done..|]. destruct on.
  - apply calls_reach in Hg as (Hcalls & _ & <-). by apply returned_let_out.
  - apply gate_off_reach in Hg as [_ _ _ _ Hoff]. rewrite (Hoff p (list_elem_of_lookup_2 _ _ _ Hp)) in Hph. by injection Hph.
Qed.

End bridge.

(** ** A run: a person lets a command run *)

#[local] Instance demo_show : JsonShow := {| json_to_string v := match v with Num (NInt n) => show_dec n | _ => "" end |}.

Definition demo_request : ServerRequest :=
  mkRequest (num 7) "item/commandExecution/requestApproval" (obj [("command", Array [Str "make"; Str "test"])]).

Definition demo_approval : ReviewItem := approval_review_item "now" demo_request.
Definition demo_shown : ReviewItem := Eval vm_compute in numbered_item 1 demo_approval.

Definition numbered_gate : Gate := mkGate (mkStore true None ∅ 1 ∅ []) [mkPrompt demo_shown PNumbered None] [].
Definition listed_gate : Gate :=
  mkGate (mkStore true None {["codex-approval-7" := demo_shown]} 1 {["codex-approval-7" := 0%nat]} [Upsert demo_shown])
    [mkPrompt demo_shown PWaiting None] [].
Definition let_go_gate (ph : Phase) : Gate :=
  mkGate (mkStore true None ∅ 1 ∅ [Upsert demo_shown; Remove "codex-approval-7"])
    [mkPrompt demo_shown ph (Some approve)] [mkDecider 0 "codex-approval-7" approve (DDone true)].

Definition approved : ApprovalBridge :=
  mkApprovals (let_go_gate (PReturned approve)) [mkApproval demo_request 0] [(0%nat, respond_approval demo_request approve)].

Lemma gate_run g g' l a : rtc (gate_step any_id) g g' → rtc approval_step (mkApprovals g l a) (mkApprovals g' l a).
Proof.
  intros Hg. induction Hg as [g|g g1 g2 H1 _ IH]; [apply rtc_refl|]. apply (rtc_l _ _ (mkApprovals g1 l a)); [|done].
  by apply (gate_moves (mkApprovals g l a)).
Qed.

Lemma approval_listed_steps : rtc (gate_step any_id) numbered_gate listed_gate.
Proof.
  eapply rtc_l; [by apply (StepWaiter 0)|]. eapply rtc_l; [by apply (StepList 0)|].
  eapply rtc_l; [by apply (StepUpsert 0)|]. apply rtc_refl.
Qed.

Lemma let_go_steps : rtc (gate_step any_id) listed_gate (let_go_gate (PReturned approve)).
Proof.
  eapply rtc_l; [apply (StepDecide "codex-approval-7" approve 0); [done|]|].
  { exists demo_shown. split; [by left|done]. }
  eapply rtc_l; [by apply (StepUnlist 0)|]. eapply rtc_l; [by apply (StepRemoved 0)|].
  eapply rtc_l; [by apply (StepSend 0)|]. eapply rtc_l; [by apply (StepReceive 0)|]. apply rtc_refl.
Qed.

Lemma approved_run : rtc approval_step (approvals_start true None) approved.
Proof.
  apply (rtc_l _ _ (mkApprovals numbered_gate [mkApproval demo_request 0] [])).
  { apply (approval_asked (approvals_start true None) "now" demo_request numbered_gate (mkPrompt demo_shown PNumbered None)); [|reflexivity|vm_compute; reflexivity].
    apply (StepPrompt demo_shown (Gate_new true None)); reflexivity. }
  etrans; [apply gate_run; etrans; [apply approval_listed_steps|apply let_go_steps]|].
  apply rtc_once. apply (approval_answered (mkApprovals (let_go_gate (PReturned approve)) [mkApproval demo_request 0] []) 0 (mkApproval demo_request 0) (mkPrompt demo_shown (PReturned approve) (Some approve)) approve);
    [reflexivity|by apply not_elem_of_nil|reflexivity..].
Qed.

Lemma approvals_answered_witness :
  ∃ d, decisions_of 0 (deciders (gate approved)) = [(d, DDone true)] ∧
    v_get "id" (frame_json (respond_approval demo_request approve)) = Some (num 7).
Proof.
  destruct (approvals_answered true None approved approved_run) as [_ Hall].
  destruct (Hall 0%nat _ (list_elem_of_here _ _)) as (a & p & d & Ha & Hp & _ & Hid & _ & Hd).
  injection Ha as <-. destruct Hd as [[Hw _]|[Hd|[Hd _]]]; [by destruct Hw| |by exists d].
  exists approve. split; [reflexivity|exact Hid].
Defined.

(** ** A run: ids that meet

    Codex asks under the number 7 and under the string ["7"]: one id.  The second
    takes the place of the first before it is shown, so a person who approves the
    item of the first lets the second go on. *)
Definition other_request : ServerRequest :=
  mkRequest (Str "7") "item/commandExecution/requestApproval" (obj [("command", Array [Str "rm"; Str "-rf"; Str "/"])]).
Definition other_item : ReviewItem := Eval vm_compute in numbered_item 2 (approval_review_item "now" other_request).

Definition crossed_gate (ph : Phase) : Gate :=
  mkGate (mkStore true None ∅ 2 ∅ [Upsert demo_shown; Upsert other_item; Remove "codex-approval-7"])
    [mkPrompt demo_shown PWaiting None; mkPrompt other_item ph (Some approve)] [mkDecider 1 "codex-approval-7" approve (DDone true)].

Example approval_crosses : rtc (gate_step any_id) listed_gate (crossed_gate (PReturned approve)) ∧
  p_id (mkPrompt other_item PWaiting None) = p_id (mkPrompt demo_shown PWaiting None).
Proof.
  split; [|reflexivity]. eapply rtc_l; [by apply (StepPrompt other_item)|].
  eapply rtc_l; [by apply (StepWaiter 1)|].
  eapply rtc_l; [apply (StepDecide "codex-approval-7" approve 1); [done|]; exists demo_shown; split; [by left|done]|].
  eapply rtc_l; [by apply (StepList 1)|]. eapply rtc_l; [by apply (StepUpsert 1)|].
  eapply rtc_l; [by apply (StepUnlist 0)|]. eapply rtc_l; [by apply (StepRemoved 0)|].
  eapply rtc_l; [by apply (StepSend 0)|]. eapply rtc_l; [by apply (StepReceive 1)|]. apply rtc_refl.
Qed.
