(* ===== verification/Worker.v ===== *)
(** * A worker behind one handle (crates/omniagent-cli/src/worker.rs)

    What the supervisor and its bridges use of an agent: an interface the terminal
    agent implements, and a handle that is one of these or the app server of
    codex, which has no terminal. *)
From S2P Require Import Prelude Str Json Record Client Terminal Codex.

(** The receiver stands at a position of the output, or is closed. *)
Record TerminalAttachment : Type := mkAttachment { at_backlog : string; at_output : option nat }.

Definition attachment_empty : TerminalAttachment := mkAttachment "" None.

(** [wait_exit_code] of a worker that has not ended waits on: [None]. *)
Class AgentWorker (W : Type) := {
  terminal_attach : W → TerminalAttachment;
  write_input : string → W → W;
  resize_pty : Z → Z → W → W;
  wait_exit_code : W → option Z;
  shutdown_worker : (nat → bool) → W → W * list KillAct;
}.

(** The agent on a terminal: the queue of its control thread is its input. *)
Record AgentHandle : Type := mkAgent { ag_pty : Pty; ag_input : list AgentInput; ag_killer : AgentKiller }.

#[global] Instance AgentHandle_worker : AgentWorker AgentHandle := {|
  terminal_attach a := let '(backlog, output) := attach (ag_pty a) in mkAttachment backlog (Some output);
  write_input data a := mkAgent (ag_pty a) (ag_input a ++ [Data data])%list (ag_killer a);
  resize_pty rows cols a := mkAgent (ag_pty a) (ag_input a ++ [Resize rows cols])%list (ag_killer a);
  wait_exit_code a := exit_code (ag_pty a);
  shutdown_worker alive a :=
    let '(k, acts) := agent_shutdown alive (ag_pty a) (ag_killer a) in (mkAgent (ag_pty a) (ag_input a) k, acts);
|}.

(** The app server: its exit code when it has one, its process. *)
Record CodexHandle : Type := mkCodex { cx_exit_code : option Z; cx_pid : option Z }.

Section handle.
Context {W : Type} `{!AgentWorker W}.

Inductive WorkerHandle : Type := HPty (worker : W) | HCodex (handle : CodexHandle).

Definition worker_attach (h : WorkerHandle) : TerminalAttachment :=
  match h with HPty w => terminal_attach w | HCodex _ => attachment_empty end.

Definition send_input (data : string) (h : WorkerHandle) : WorkerHandle :=
  match h with HPty w => HPty (write_input data w) | HCodex c => HCodex c end.

Definition resize_worker (rows cols : Z) (h : WorkerHandle) : WorkerHandle :=
  match h with HPty w => HPty (resize_pty rows cols w) | HCodex c => HCodex c end.

Definition wait_exit (h : WorkerHandle) : option Z :=
  match h with HPty w => wait_exit_code w | HCodex c => cx_exit_code c end.

Definition shutdown (alive : nat → bool) (h : WorkerHandle) : WorkerHandle * list KillAct :=
  match h with
  | HPty w => let '(w, acts) := shutdown_worker alive w in (HPty w, acts)
  | HCodex c => (HCodex c, codex_shutdown (cx_exit_code c) (cx_pid c) alive)
  end.
End handle.
Arguments WorkerHandle W : clear implicits.

(** ** What the reaper relies on

    Ending a worker leaves its exit code to the process, does not signal one that
    has ended, and kills only a group that is there at each of ten looks; input
    does not end it. *)
Class LawfulWorker (W : Type) `{!AgentWorker W} := {
  exit_kept alive w : wait_exit_code (shutdown_worker alive w).1 = wait_exit_code w;
  ended_left_alone alive w : wait_exit_code w ≠ None → (shutdown_worker alive w).2 = [];
  killed_last alive w : SignalGroup KILL ∈ (shutdown_worker alive w).2 → ∀ i, (i < 10)%nat → alive i = true;
  input_harmless data w : wait_exit_code (write_input data w) = wait_exit_code w;
  resize_harmless rows cols w : wait_exit_code (resize_pty rows cols w) = wait_exit_code w;
}.

#[global] Instance AgentHandle_lawful : LawfulWorker AgentHandle.
Proof.
  split; intros; try done.
  - unfold wait_exit_code, shutdown_worker; cbn. by destruct (agent_shutdown _ _ _).
  - pose proof (shutdown_spec alive alive (ag_pty w) (ag_killer w)) as Hs. revert H. cbn. destruct (agent_shutdown _ _ _). by apply Hs.
  - pose proof (shutdown_spec alive alive (ag_pty w) (ag_killer w)) as Hs. revert H. cbn. destruct (agent_shutdown _ _ _). intros Hk. by apply Hs.
Qed.

(** The same of a handle, whichever worker is behind it; without a terminal the
    rest is inert. *)
Lemma worker_handle_lawful {W} `{!AgentWorker W, !LawfulWorker W} alive (h : WorkerHandle W) :
  wait_exit (shutdown alive h).1 = wait_exit h ∧
  (wait_exit h ≠ None → (shutdown alive h).2 = []) ∧
  (SignalGroup KILL ∈ (shutdown alive h).2 → ∀ i, (i < 10)%nat → alive i = true).
Proof.
  destruct h as [w|c]; cbn.
  - pose proof (exit_kept alive w) as H1. pose proof (ended_left_alone alive w) as H2. pose proof (killed_last alive w) as H3.
    by destruct (shutdown_worker alive w).
  - destruct (codex_shutdown_spec (cx_exit_code c) (cx_pid c) alive) as [H1 H2]. by split_and!.
Qed.

Lemma without_terminal {W} `{!AgentWorker W} (c : CodexHandle) data rows cols :
  send_input data (HCodex c : WorkerHandle W) = HCodex c ∧ resize_worker rows cols (HCodex c : WorkerHandle W) = HCodex c ∧
  worker_attach (HCodex c : WorkerHandle W) = attachment_empty.
Proof. done. Qed.

(** What is typed through the handle reaches the terminal in order. *)
Lemma typed_in_order (w : AgentHandle) l :
  foldl (λ h (i : AgentInput), match i with Data data => send_input data h | Resize rows cols => resize_worker rows cols h end) (HPty w) l =
  HPty (mkAgent (ag_pty w) (ag_input w ++ l)%list (ag_killer w)).
Proof.
  revert w. induction l as [|i l IH]; intros w; cbn [foldl]; [rewrite app_nil_r; by destruct w|].
  destruct i as [data|rows cols]; cbn [send_input resize_worker]; by rewrite IH /= -app_assoc.
Qed.
