(* ===== verification/Files.v ===== *)
(** * The files of a workspace (crates/omniagent-cli/src/files.rs, git.rs)

    What the console may see of a workspace: a text file, a directory, the state
    of the repository.  Paths come from the server and are resolved through the
    symbolic links of the file system of [Tree]; each look at it is at another
    moment, and the agent works in between. *)
From stdpp Require Import sorting.
From S2P Require Import Prelude Str Json Core Os Tree Client.

(** ** git (git.rs) *)

(** A command of git that only reads, run in a directory: what it prints when it
    succeeds. *)
Class Git := { git : Path → list string → option string }.

Definition first_line (s : string) : option string := find_first (λ l, bool_decide (l ≠ "")) (map trim (lines s)).
Definition git_line `{!Git} (root : Path) (args : list string) : option string := git root args ≫= first_line.

(** ** files.rs *)

Definition MAX_FILE_BYTES : Z := 512 * 1024.

Inductive FsError : Type := Forbidden | NotThere | TooLarge | NotText | FsIo (message : string).

Definition show_fs_error (e : FsError) : string :=
  match e with
  | Forbidden => "path outside workspace" | NotThere => "not found" | TooLarge => "file too large"
  | NotText => "not a text file" | FsIo message => message
  end.

Record DirEntry : Type := mkDirEntry { de_name : string; de_dir : bool }.
Record ChangedFile : Type := mkChanged { cf_path : string; cf_status : string }.
Record DiffResult : Type := mkDiff { df_files : list ChangedFile; df_diff : option string }.

(** [canonicalize]: the root at the moment [at_ 0], the path at [at_ 1]. *)
Definition resolve_within (at_ : nat → Tree) (root : Path) (rel : string) : result FsError Path :=
  let rel := trim_start_char "/" rel in
  if decide (".." ∈ components rel) then Err Forbidden
  else match real (entries (at_ 0%nat)) root with
  | Err e => Err (FsIo (show_io_error e))
  | Ok root =>
      match real (entries (at_ 1%nat)) (if decide (rel = "") then root else join root rel) with
      | Err _ => Err NotThere
      | Ok canonical => if decide (root `prefix_of` canonical) then Ok canonical else Err Forbidden
      end
  end.

(** The file a path leads to at a moment. *)
Definition file_at (t : Tree) (p : Path) : option (option string) :=
  match follow (entries t) p with
  | Some (EReg i) => Some (i_data <$> inodes t !! i)
  | Some _ => Some None
  | None => None
  end.

Definition read_file (at_ : nat → Tree) (root : Path) (rel : string) : result FsError string :=
  match resolve_within at_ root rel with
  | Err e => Err e
  | Ok file =>
      match file_at (at_ 2%nat) file with
      | Some (Some data) =>
          if (MAX_FILE_BYTES <? Z.of_nat (String.length data))%Z then Err TooLarge
          else match file_at (at_ 3%nat) file with
          | Some (Some bytes) => if decide ((from_utf8 bytes).2 = None) then Ok bytes else Err NotText
          | _ => Err (FsIo "cannot read")
          end
      | _ => Err NotThere
      end
  end.

(** The entries of a directory, its own path resolved first; the name of an entry
    is bytes, and shown as text with what is none replaced. *)
Definition dir_children (t : Tree) (p : Path) : list DirEntry :=
  match real (entries t) p with
  | Err _ => []
  | Ok q => omap (λ e : Path * Entry,
      if decide (removelast e.1 = q ∧ e.1 ≠ [])
      then Some (mkDirEntry (lossy (List.last e.1 "")) (match e.2 with EDir _ => true | _ => false end)) else None) (map_to_list (entries t))
  end.

(** Directories first, then by name. *)
Definition entry_le (a b : DirEntry) : Prop :=
  match de_dir a, de_dir b with
  | true, false => True
  | false, true => False
  | _, _ => String.leb (de_name a) (de_name b) = true
  end.

#[global] Instance entry_le_dec : RelDecision entry_le.
Proof. intros a b. unfold entry_le. destruct (de_dir a), (de_dir b); apply _. Defined.

Definition list_dir (at_ : nat → Tree) (root : Path) (rel : string) : result FsError (list DirEntry) :=
  match resolve_within at_ root rel with
  | Err e => Err e
  | Ok dir =>
      match follow (entries (at_ 2%nat)) dir with
      | Some (EDir _) => Ok (merge_sort entry_le (filter (λ e, de_name e ≠ ".git") (dir_children (at_ 3%nat) dir)))
      | _ => Err NotThere
      end
  end.

Definition status_line (line : string) : option ChangedFile :=
  if (String.length line <? 4)%nat then None
  else
    let path := str_drop 3 line in
    Some (mkChanged (match split_once_str " -> " path with Some (_, new) => new | None => path end) (trim (str_take 2 line))).

Definition git_status `{!Git} (root : Path) : list ChangedFile :=
  match git root ["status"; "--porcelain"] with None => [] | Some out => omap status_line (lines out) end.

Definition git_file_diff `{!Git} (root : Path) (path : string) : option string :=
  if decide (".." ∈ components path) then None
  else match (d ← git root ["diff"; "HEAD"; "--"; path]; if decide (trim d = "") then None else Some d) with
       | Some d => Some d
       | None => git root ["diff"; "--"; path]
       end.

Definition git_diff `{!Git} (root : Path) (path : option string) : DiffResult :=
  mkDiff (git_status root) (p ← path; if decide (p = "") then None else git_file_diff root p).

(** ** What is shown lies in the workspace *)

Lemma resolve_within_ok at_ root rel (p : Path) : resolve_within at_ root rel = Ok p →
  ∃ r : Path, real (entries (at_ 0%nat)) root = Ok r ∧ r `prefix_of` p ∧ canonical (entries (at_ 1%nat)) p.
Proof.
  unfold resolve_within. destruct (decide _); [done|]. destruct (real _ root) as [r|] eqn:Er; [|done].
  destruct (real (entries (at_ 1%nat)) _) as [c|] eqn:Ec; [|done].
  destruct (decide (r `prefix_of` c)) as [Hpre|]; [|done]. intros [= <-].
  exists r. split_and!; [done|done|exact (real_canonical _ _ _ Ec)].
Qed.

#[local] Instance entry_le_total : Total entry_le.
Proof. intros [n []] [n' []]; unfold entry_le; cbn; auto using String.leb_total; destruct (String.leb_total n n'); auto. Qed.

Lemma dir_children_spec t p e : canonical (entries t) p →
  e ∈ dir_children t p ↔ ∃ q x, entries t !! (p ++ [q])%list = Some x ∧ e = mkDirEntry (lossy q) (match x with EDir _ => true | _ => false end).
Proof.
  intros Hp. unfold dir_children. rewrite canonical_real //. rewrite list_elem_of_omap. split.
  - intros ([k x] & Hin%elem_of_map_to_list & Hk). cbn in Hk. destruct (decide _) as [[He Hn]|]; [|done]. injection Hk as <-.
    destruct k as [|q k _] using rev_ind; [done|]. rewrite removelast_last in He. subst k. exists q, x. by rewrite last_last.
  - intros (q & x & Hq & ->). exists ((p ++ [q])%list, x). split; [by apply elem_of_map_to_list|]. cbn.
    rewrite decide_True; [split; [apply removelast_last|by destruct p]|]. by rewrite last_last.
Qed.

(** C22. While the file system is still, whatever links it has and whatever the
    server asks for: a file shown is a regular file in the workspace, reached
    through directories only, valid text of no more than half a MiB; a directory
    shown is one in the workspace, with all of its entries but [.git], sorted,
    under their names where these are text. *)
Theorem files_stay_inside (t : Tree) (root : Path) (rel : string) :
  let at_ := λ _ : nat, t in
  (∀ text, read_file at_ root rel = Ok text →
     ∃ r p i node, real (entries t) root = Ok r ∧ r `prefix_of` p ∧ canonical (entries t) p ∧
       entries t !! p = Some (EReg i) ∧ inodes t !! i = Some node ∧ text = i_data node ∧
       (Z.of_nat (String.length text) ≤ MAX_FILE_BYTES)%Z ∧ valid_utf8 text) ∧
  (∀ shown, list_dir at_ root rel = Ok shown →
     ∃ r p, real (entries t) root = Ok r ∧ r `prefix_of` p ∧ canonical (entries t) p ∧
       Sorted entry_le shown ∧
       ∀ e, e ∈ shown ↔ de_name e ≠ ".git" ∧ ∃ q x, entries t !! (p ++ [q])%list = Some x ∧
         e = mkDirEntry (lossy q) (match x with EDir _ => true | _ => false end)) ∧
  (∀ q, valid_utf8 q → lossy q = q).
Proof.
  intros at_. split_and!; [..|apply lossy_valid].
  - intros text Hr. unfold read_file in Hr. destruct (resolve_within at_ root rel) as [p|] eqn:Ep; [|done].
    apply resolve_within_ok in Ep as (r & Hroot & Hpre & Hcan). unfold file_at, follow, at_ in *. rewrite canonical_real // in Hr.
    destruct (entry_at (entries t) p) as [[|i|]|] eqn:Ee; try done.
    destruct (inodes t !! i) as [node|] eqn:En; [|done]. cbn in Hr. destruct (MAX_FILE_BYTES <? _)%Z eqn:El; [done|].
    destruct (decide _) as [Hv|]; [|done]. injection Hr as <-. exists r, p, i, node. split_and!; try done; [by destruct p|]. lia.
  - intros shown Hl. unfold list_dir in Hl. destruct (resolve_within at_ root rel) as [p|] eqn:Ep; [|done].
    apply resolve_within_ok in Ep as (r & Hroot & Hpre & Hcan). unfold follow, at_ in *. rewrite canonical_real // in Hl.
    destruct (entry_at (entries t) p) as [[mode| |]|] eqn:Ee; try done. injection Hl as <-. exists r, p. split_and!; try done.
    + apply (Sorted_merge_sort _).
    + intros e. rewrite (elem_of_Permutation_proper e _ _ (merge_sort_Permutation _ _)) list_elem_of_filter. by rewrite dir_children_spec.
Qed.

Definition demo_tree (link : Entry) : Tree :=
  mkTree (list_to_map [(["w"], EDir dir_mode); (["w"; "a.txt"], link); (["w"; "b.txt"], EReg 1); (["w"; ".git"], EDir dir_mode);
                       (["w"; "src"], EDir dir_mode); (["etc"], EDir dir_mode); (["etc"; "key"], EReg 2)])
    (list_to_map [(1%Z, mkInode 420 "hello"); (2%Z, mkInode 384 "secret")]) 3 0 0.

Lemma files_stay_inside_witness : read_file (λ _, demo_tree (ESym "b.txt")) ["w"] "/a.txt" = Ok "hello" ∧
  ∃ i node, entries (demo_tree (ESym "b.txt")) !! ["w"; "b.txt"] = Some (EReg i) ∧ "hello" = i_data node.
Proof.
  assert (Hr : read_file (λ _, demo_tree (ESym "b.txt")) ["w"] "/a.txt" = Ok "hello") by reflexivity. split; [exact Hr|].
  destruct (proj1 (files_stay_inside (demo_tree (ESym "b.txt")) ["w"] "/a.txt") "hello" Hr) as (r & p & i & node & _ & _ & _ & _ & _ & Ht & _).
  exists 1%Z, node. split; [reflexivity|exact Ht].
Defined.

Example link_out_refused : read_file (λ _, demo_tree (ESym "/etc/key")) ["w"] "a.txt" = Err Forbidden.
Proof. reflexivity. Qed.
Example dotdot_refused : read_file (λ _, demo_tree (EReg 1)) ["w"] "src/../../etc/key" = Err Forbidden.
Proof. reflexivity. Qed.
Example listed : list_dir (λ _, demo_tree (EReg 1)) ["w"] "" =
  Ok [mkDirEntry "src" true; mkDirEntry "a.txt" false; mkDirEntry "b.txt" false].
Proof. vm_compute. reflexivity. Qed.

(** The path is checked once and used again: a file that becomes a link between
    the two is followed out of the workspace. *)
Example link_swapped :
  read_file (λ n, demo_tree (if (n <? 2)%nat then EReg 1 else ESym "/etc/key")) ["w"] "a.txt" = Ok "secret".
Proof. reflexivity. Qed.

(** [git status --porcelain]. *)
Example status_lines :
  omap status_line [" M src/lib.rs"; "R  old.rs -> new.rs"; "?? x"] =
  [mkChanged "src/lib.rs" "M"; mkChanged "new.rs" "R"; mkChanged "x" "??"].
Proof. reflexivity. Qed.
