(* ===== verification/Workspace.v ===== *)
(** * Workspaces (crates/omniagent-cli/src/workspace.rs)

    What a path is to git, and where an agent runs that is asked to run there: in
    the path, in a worktree that exists, or in one made for it.  git is outside:
    its reading commands are functions of the world, the others change it. *)
From S2P Require Import Prelude Str Core Effect Os Tree Files.

Class GitHost (W : Type) := {
  host_entries : W → gmap Path Entry;
  host_git : W → Path → list string → option string;
  run_git : Path → list string → W → result string string * W;
  host_create_dir_all : Path → W → result string () * W;
  omniagent_data_dir : Path;
}.

Inductive WorkspaceKind : Type := Plain | GitRepo | GitWorktree.

Record WorktreeEntry : Type := mkWorktree { wt_path : Path; wt_branch : option string }.

Record GitInfo : Type := mkGitInfo {
  toplevel : Path; common_dir : Path; current_branch : option string; branches : list string; worktrees : list WorktreeEntry;
}.

Record Workspace : Type := mkWorkspace { ws_path : Path; ws_kind : WorkspaceKind; ws_git : option GitInfo }.

Inductive WorktreeMode : Type := InPlace | Existing (path : Path) | Create (branch : string) (base : option string).

Record ResolvedWorkspace : Type := mkResolved { rw_cwd : Path; origin_root : Path; created_worktree : option Path }.

(** ** Text *)

(** The characters of [sanitize] before it is trimmed. *)
Fixpoint sanitize_chars (last_dash : bool) (l : list Z) : string :=
  match l with
  | [] => EmptyString
  | c :: l =>
      if is_ascii_alphanumeric c || bool_decide (c ∈ [46; 95; 45]%Z) then String (chr c) (sanitize_chars false l)
      else if last_dash then sanitize_chars true l else String "-" (sanitize_chars true l)
  end.

Definition sanitize (s : string) : string :=
  let trimmed := trim_matches_char "-" (to_ascii_lowercase (sanitize_chars false (chars s))) in
  let result := trim_matches_char "-" (str_take 60 trimmed) in
  if decide (result = "") then "wt" else result.

(** The reason git gave: of the second attempt, else of the first. *)
Definition reason (primary fallback : string) : string :=
  default "unknown error" (first_line (if decide (trim primary = "") then fallback else primary)).

(** [trim_start_matches] of a text. *)
Fixpoint trim_start_str (fuel : nat) (p s : string) : string :=
  match fuel with
  | O => s
  | S fuel => match strip_prefix p s with Some s => trim_start_str fuel p s | None => s end
  end.

Section workspace.
Context {W : Type} `{!GitHost W}.

Definition canonical_path (w : W) (p : Path) : option Path :=
  match real (host_entries w) p with Ok q => Some q | Err _ => None end.

(** Paths printed by git are absolute. *)
Definition canonicalize_or (w : W) (path : string) : Path :=
  let p := components (trim path) in default p (canonical_path w p).

Definition git_of (w : W) : Git := {| git := host_git w |}.

Definition list_branches (w : W) (root : Path) : list string :=
  match host_git w root ["for-each-ref"; "--format=%(refname:short)"; "refs/heads"] with
  | Some out => filter (λ l, l ≠ "") (map trim (lines out))
  | None => []
  end.

(** The entry read so far, and those before it. *)
Record Listing : Type := mkListing { at_path : option string; at_branch : option string; at_bare : bool; at_entries : list WorktreeEntry }.

Definition end_entry (w : W) (l : Listing) : Listing :=
  mkListing None None false
    (match at_path l with
     | Some p => if at_bare l then at_entries l else (at_entries l ++ [mkWorktree (canonicalize_or w p) (at_branch l)])%list
     | None => at_entries l
     end).

Definition list_line (w : W) (l : Listing) (line : string) : Listing :=
  match strip_prefix "worktree " line with
  | Some rest => let l := end_entry w l in mkListing (Some (trim rest)) (at_branch l) (at_bare l) (at_entries l)
  | None => match strip_prefix "branch " line with
  | Some rest =>
      let b := trim rest in
      mkListing (at_path l) (Some (trim_start_str (String.length b) "refs/heads/" b)) (at_bare l) (at_entries l)
  | None => if decide (trim line = "bare") then mkListing (at_path l) (at_branch l) true (at_entries l) else l
  end
  end.

Definition parse_worktrees (w : W) (out : string) : list WorktreeEntry :=
  at_entries (end_entry w (foldl (list_line w) (mkListing None None false []) (lines out))).

Definition list_worktrees (w : W) (root : Path) : list WorktreeEntry :=
  match host_git w root ["worktree"; "list"; "--porcelain"] with Some out => parse_worktrees w out | None => [] end.

Definition detect (w : W) (path : Path) : result string Workspace :=
  match canonical_path w path with
  | None => Err ("cannot resolve path " ++ display path)
  | Some here =>
      let git_line := @git_line (git_of w) here in
      match git_line ["rev-parse"; "--show-toplevel"] with
      | None => Ok (mkWorkspace here Plain None)
      | Some top =>
          let top := canonicalize_or w top in
          let git_dir := canonicalize_or w <$> git_line ["rev-parse"; "--absolute-git-dir"] in
          let common := match git_line ["rev-parse"; "--path-format=absolute"; "--git-common-dir"] with
            | Some d => canonicalize_or w d
            | None => default (join top ".git") git_dir
            end in
          let kind := match git_dir with Some dir => if decide (dir ≠ common) then GitWorktree else GitRepo | None => GitRepo end in
          let branch := b ← git_line ["rev-parse"; "--abbrev-ref"; "HEAD"]; if decide (b = "HEAD") then None else Some b in
          Ok (mkWorkspace here kind (Some (mkGitInfo top common branch (list_branches w here) (list_worktrees w here))))
      end
  end.

(** The main working tree: the one listed first. *)
Definition origin_of (ws : Workspace) : Path :=
  match ws_git ws with
  | None => ws_path ws
  | Some git => match worktrees git with wt :: _ => wt_path wt | [] => toplevel git end
  end.

Definition resolve_origin (w : W) (root : Path) : result string Path := result_map origin_of (detect w root).

Definition is_taken (w : W) (p : Path) : bool := bool_decide (canonical_path w p ≠ None).

(** [unique_dest]: [-2] to [-99] are tried if the name is taken. *)
Definition unique_dest (w : W) (origin : Path) (branch : string) : Path :=
  let repo := match file_name origin with Some n => sanitize n | None => "repo" end in
  let base := join (join (join omniagent_data_dir "worktrees") repo) (sanitize branch) in
  if is_taken w base
  then default base (find_first (λ p, negb (is_taken w p))
    (map (λ n, with_file_name base (sanitize branch ++ "-" ++ show_dec (Z.of_nat n))) (seq 2 98)))
  else base.

Notation WM := (M W string).

Definition git_runs (root : Path) (args : list string) : WM (result string string) := λ w, let '(r, w) := run_git root args w in (Ret r, w).

Definition make_parent_dir (dest : Path) : WM () := λ w,
  match parent dest with
  | None => (Ret tt, w)
  | Some p =>
      let '(r, w) := host_create_dir_all p w in
      (match r with Ok _ => Ret tt | Err _ => Throw ("failed to create " ++ display p) end, w)
  end.

Definition add_args (branch : string) (dest : Path) (base : option string) : list string :=
  (["worktree"; "add"; "-b"; branch; display dest] ++ match base with Some b => [b] | None => [] end)%list.

Definition create_worktree (origin : Path) (git : GitInfo) (branch : string) (base : option string) : WM ResolvedWorkspace :=
  match find_first (λ wt, bool_decide (wt_branch wt = Some branch)) (worktrees git) with
  | Some existing => mret (mkResolved (wt_path existing) origin None)
  | None =>
      w ← get_state;
      let dest := unique_dest w origin branch in
      make_parent_dir dest ;;
      first ← git_runs origin (add_args branch dest base);
      match first with
      | Ok _ => mret tt
      | Err stderr =>
          second ← git_runs origin ["worktree"; "add"; display dest; branch];
          match second with
          | Ok _ => mret tt
          | Err retry => throw ("git worktree add failed: " ++ reason retry stderr)
          end
      end ;;
      w ← get_state;
      let cwd := default dest (canonical_path w dest) in
      mret (mkResolved cwd origin (Some cwd))
  end.

Definition resolve (root : Path) (mode : WorktreeMode) : WM ResolvedWorkspace :=
  w ← get_state;
  ws ← lift_result (detect w root);
  let origin := origin_of ws in
  match mode with
  | InPlace => mret (mkResolved (ws_path ws) origin None)
  | Existing path =>
      cwd ← lift_result (ok_or (canonical_path w path) ("cannot resolve worktree " ++ display path));
      mret (mkResolved cwd origin None)
  | Create branch base =>
      match ws_git ws with
      | None => throw ("cannot create a worktree: " ++ display (ws_path ws) ++ " is not a git repository")
      | Some git => create_worktree origin git branch base
      end
  end.

(** Without force: a worktree with changes stays. *)
Definition remove_worktree (origin worktree : Path) : WM () :=
  git_runs origin ["worktree"; "remove"; display worktree] ;; mret tt.
End workspace.

(** ** The list of worktrees is read back *)

(** A worktree as git prints it, with the commit and what is checked out. *)
Inductive Head : Type := OnBranch (name : string) | Detached | Bare.
Record Listed : Type := mkListed { l_path : string; l_commit : string; l_head : Head }.

Definition head_lines (h : Head) : list string :=
  match h with OnBranch name => [String.append "branch refs/heads/" name] | Detached => ["detached"] | Bare => ["bare"] end.

Definition listed_lines (l : Listed) : list string :=
  let first := "worktree " ++ l_path l in
  let commit := "HEAD " ++ l_commit l in
  ([first] ++ match l_head l with Bare => [] | _ => [commit] end ++ head_lines (l_head l) ++ [""])%list.

Definition porcelain (l : list Listed) : string := str_concat (map (λ x, x ++ nl) (concat (map listed_lines l))).

(** Text that is one line and has no blanks at its ends. *)
Definition plain_text (s : string) : Prop :=
  one_line s ∧ trim s = s.

Definition listed_ok (l : Listed) : Prop :=
  plain_text (l_path l) ∧ plain_text ("HEAD " ++ l_commit l) ∧
  match l_head l with OnBranch name => plain_text ("refs/heads/" ++ name) ∧ starts_with "refs/heads/" name = false | _ => True end.

Section listing.
Context {W : Type} `{!GitHost W}.
Implicit Types w : W.

Definition listed_entry w (l : Listed) : option WorktreeEntry :=
  match l_head l with
  | OnBranch name => Some (mkWorktree (canonicalize_or w (l_path l)) (Some name))
  | Detached => Some (mkWorktree (canonicalize_or w (l_path l)) None)
  | Bare => None
  end.

Lemma trim_branch name : starts_with "refs/heads/" name = false →
  trim_start_str (String.length ("refs/heads/" ++ name)) "refs/heads/" ("refs/heads/" ++ name) = name.
Proof.
  intros Hn. rewrite length_app_s. cbn [String.length Nat.add trim_start_str]. rewrite strip_prefix_app.
  unfold starts_with in Hn. by destruct (strip_prefix "refs/heads/" name).
Qed.

(** An entry ends the one before it, and is itself ended. *)
Lemma listed_step w (l : Listed) (s : Listing) : listed_ok l →
  end_entry w (foldl (list_line w) s (listed_lines l)) =
  mkListing None None false (at_entries (end_entry w s) ++ option_list (listed_entry w l))%list.
Proof.
  intros ([_ Hp] & [_ Hc] & Hh). set (E := at_entries (end_entry w s)).
  assert (Hfirst : list_line w s ("worktree " ++ l_path l) = mkListing (Some (l_path l)) None false E).
  { unfold list_line. rewrite strip_prefix_app Hp. reflexivity. }
  assert (Hcommit : ∀ s', list_line w s' ("HEAD " ++ l_commit l) = s').
  { intros s'. unfold list_line. rewrite Hc. reflexivity. }
  unfold listed_lines. cbv zeta. rewrite !foldl_app. cbn [foldl]. rewrite Hfirst. unfold listed_entry.
  destruct (l_head l) as [name| |]; cbn [foldl head_lines]; rewrite ?Hcommit; [|reflexivity|].
  - destruct Hh as [[_ Hb] Hn].
    assert (Hbranch : list_line w (mkListing (Some (l_path l)) None false E) ("branch refs/heads/" ++ name) =
      mkListing (Some (l_path l)) (Some name) false E).
    { unfold list_line. change ("branch refs/heads/" ++ name) with ("branch " ++ ("refs/heads/" ++ name)). rewrite strip_prefix_app Hb.
      cbv zeta. rewrite trim_branch //. }
    change (String.append "branch refs/heads/" name) with ("branch refs/heads/" ++ name). rewrite Hbranch. reflexivity.
  - unfold end_entry. cbn. by rewrite app_nil_r.
Qed.

Lemma one_line_app p x : one_line p → one_line x → one_line (p ++ x).
Proof.
  intros [Hp Hpc] [Hx Hxc]. split; [by rewrite str_forallb_app Hp|]. unfold strip_suffix in *. rewrite str_rev_concat.
  destruct (str_rev x) as [|a r]; [done|]. change (str_rev (String "013" "")) with (String "013" "") in *.
  cbn in *. by destruct (ascii_dec _ a).
Qed.

Lemma listed_lines_ok l : listed_ok l → Forall one_line (listed_lines l).
Proof.
  intros ([Hp _] & [Hc _] & Hh). unfold listed_lines. cbv zeta. rewrite !Forall_app. split_and!.
  - repeat constructor; by apply one_line_app.
  - destruct (l_head l); by repeat constructor; apply Hc.
  - destruct (l_head l) as [name| |]; cbn; [|by repeat constructor..]. constructor; [|done].
    exact (one_line_app "branch " _ ltac:(done) (proj1 (proj1 Hh))).
  - by repeat constructor.
Qed.

(** What git lists is what the list has: every worktree that is not bare, in
    order, its branch without the prefix. *)
Theorem worktrees_read_back w (l : list Listed) : Forall listed_ok l →
  parse_worktrees w (porcelain l) = omap (listed_entry w) l.
Proof.
  intros Hl. unfold parse_worktrees, porcelain. rewrite lines_concat.
  { apply Forall_concat, Forall_fmap. eapply Forall_impl; [exact Hl|]. exact listed_lines_ok. }
  assert (Hgo : ∀ s, at_entries (end_entry w (foldl (list_line w) s (concat (map listed_lines l)))) = (at_entries (end_entry w s) ++ omap (listed_entry w) l)%list).
  { induction Hl as [|x l Hx _ IH]; intros s; cbn [map concat omap list_omap]; [by rewrite app_nil_r|]. rewrite foldl_app IH.
    pose proof (listed_step w x s Hx) as Hs. rewrite Hs. cbn [at_entries].
    rewrite -app_assoc. by destruct (listed_entry w x). }
  by rewrite Hgo.
Qed.
End listing.

(** ** Names of directories *)

Definition segment_char (a : ascii) : bool :=
  let c := code a in ((48 <=? c) && (c <=? 57) || (97 <=? c) && (c <=? 122) || bool_decide (c ∈ [46; 95; 45]))%Z.

Lemma length_rev_s s : String.length (str_rev s) = String.length s.
Proof. induction s as [|a s IH]; [done|]. change (String a s) with (String a "" ++ s) at 1. rewrite str_rev_concat length_app_s IH. cbn. lia. Qed.

Lemma trim_start_less c p s : (str_forallb p s = true → str_forallb p (trim_start_char c s) = true) ∧
  (String.length (trim_start_char c s) ≤ String.length s)%nat.
Proof.
  induction s as [|a s [IH IHl]]; [done|]. cbn. destruct (ascii_dec a c); [|done]. split; [|lia].
  intros [_ H]%andb_true_iff. by apply IH.
Qed.

Lemma trim_matches_less c p s : (str_forallb p s = true → str_forallb p (trim_matches_char c s) = true) ∧
  (String.length (trim_matches_char c s) ≤ String.length s)%nat.
Proof.
  unfold trim_matches_char. rewrite forallb_rev length_rev_s. destruct (trim_start_less c p s) as [H1 L1].
  destruct (trim_start_less c p (str_rev (trim_start_char c s))) as [H2 L2]. rewrite forallb_rev length_rev_s in H2 L2. split; [auto|lia].
Qed.

Lemma take_less p n s : (str_forallb p s = true → str_forallb p (str_take n s) = true) ∧ (String.length (str_take n s) ≤ n)%nat.
Proof.
  revert n. induction s as [|a s IH]; intros [|n]; cbn; try (split; [done|lia]). destruct (IH n) as [H L]. split; [|lia].
  intros [-> Hs]%andb_true_iff. by apply H.
Qed.

Lemma lowered_chars last l : str_forallb segment_char (to_ascii_lowercase (sanitize_chars last l)) = true.
Proof.
  revert last. induction l as [|c l IH]; intros last; [done|]. cbn [sanitize_chars].
  destruct (is_ascii_alphanumeric c || _) eqn:Hc; [|destruct last; [apply IH|exact (IH true)]].
  unfold to_ascii_lowercase. cbn [str_map str_forallb]. fold to_ascii_lowercase. rewrite IH andb_true_r.
  assert (Hb : (0 ≤ c < 128)%Z).
  { apply orb_true_iff in Hc as [Hc|Hc]; [unfold is_ascii_alphanumeric in Hc; lia|].
    apply bool_decide_eq_true in Hc. repeat (apply elem_of_cons in Hc as [Hc|Hc]; [lia|]). by apply elem_of_nil in Hc. }
  assert (Hcode : code (chr c) = c) by (apply code_chr; lia). rewrite Hcode.
  destruct ((65 <=? c) && (c <=? 90))%Z eqn:Hup; unfold segment_char; rewrite ?Hcode ?code_chr; try lia.
  apply orb_true_iff in Hc as [Hc|Hc]; [unfold is_ascii_alphanumeric in Hc; lia|]. rewrite Hc. apply orb_true_r.
Qed.

(** A directory made for a branch or repository is named by letters, digits,
    dots and dashes, at most sixty. *)
Lemma sanitize_spec s : str_forallb segment_char (sanitize s) = true ∧ (1 ≤ String.length (sanitize s) ≤ 60)%nat.
Proof.
  unfold sanitize. set (l := to_ascii_lowercase _). assert (Hl : str_forallb segment_char l = true) by apply lowered_chars.
  destruct (trim_matches_less "-" segment_char l) as [H1 _]. destruct (take_less segment_char 60 (trim_matches_char "-" l)) as [H2 L2].
  destruct (trim_matches_less "-" segment_char (str_take 60 (trim_matches_char "-" l))) as [H3 L3].
  destruct (decide _) as [|Hne]; [by split; [|cbn; lia]|]. split; [auto|].
  destruct (trim_matches_char "-" (str_take 60 _)) as [|a r]; [done|]. cbn in *. lia.
Qed.

(** But these are no names of a directory of their own. *)
Example sanitize_dots : (sanitize "..", sanitize "./") = ("..", ".").
Proof. vm_compute. reflexivity. Qed.
Example sanitize_branch : sanitize "Feature/Cool Thing!" = "feature-cool-thing".
Proof. vm_compute. reflexivity. Qed.

(** ** Where an agent runs *)

Section resolving.
Context {W : Type} `{!GitHost W}.
Implicit Types w : W.

(** A worktree is made where nothing is, unless a hundred names are taken. *)
Lemma unique_dest_free w origin branch :
  is_taken w (unique_dest w origin branch) = false ∨
  ∀ n, (2 ≤ n < 100)%nat → is_taken w (with_file_name (unique_dest w origin branch) (sanitize branch ++ "-" ++ show_dec (Z.of_nat n))) = true.
Proof.
  unfold unique_dest. set (base := join _ (sanitize branch)). destruct (is_taken w base) eqn:Hb; [|by left].
  set (cands := map _ _). assert (Hf : ∀ l, match find_first (λ p, negb (is_taken w p)) l with
    | Some p => is_taken w p = false | None => ∀ p, p ∈ l → is_taken w p = true end).
  { induction l as [|p l IH]; [set_solver|]. cbn. destruct (is_taken w p) eqn:Ep; [|done]. cbn.
    destruct (find_first _ l); [done|]. intros q [->|Hq]%elem_of_cons; auto. }
  specialize (Hf cands). destruct (find_first _ cands) as [p|]; cbn; [by left|right]. intros n Hn. apply Hf.
  unfold cands. apply list_elem_of_In, in_map_iff. exists n. split; [done|]. apply in_seq. lia.
Qed.

(** What a resolution is: the path itself; the worktree named; one of the branch
    that git lists; or one that git has made, and the only one to be removed. *)
Inductive resolved_as (w w' : W) (ws : Workspace) (rw : ResolvedWorkspace) : WorktreeMode → Prop :=
| AsIs : rw_cwd rw = ws_path ws → created_worktree rw = None → w' = w → resolved_as w w' ws rw InPlace
| AsNamed path : canonical_path w path = Some (rw_cwd rw) → created_worktree rw = None → w' = w → resolved_as w w' ws rw (Existing path)
| AsListed git branch base wt : ws_git ws = Some git → wt ∈ worktrees git → wt_branch wt = Some branch →
    rw_cwd rw = wt_path wt → created_worktree rw = None → w' = w → resolved_as w w' ws rw (Create branch base)
| AsMade git branch base w1 args out : ws_git ws = Some git → (∀ wt, wt ∈ worktrees git → wt_branch wt ≠ Some branch) →
    let dest := unique_dest w (origin_of ws) branch in
    args = add_args branch dest base ∨ args = ["worktree"; "add"; display dest; branch] →
    run_git (origin_of ws) args w1 = (Ok out, w') →
    rw_cwd rw = default dest (canonical_path w' dest) → created_worktree rw = Some (rw_cwd rw) →
    resolved_as w w' ws rw (Create branch base).

Lemma find_first_spec {A} (p : A → bool) l : match find_first p l with
  | Some x => x ∈ l ∧ p x = true | None => ∀ x, x ∈ l → p x = false end.
Proof.
  induction l as [|x l IH]; cbn; [set_solver|]. destruct (p x) eqn:E; [by split; [left|]|].
  destruct (find_first p l); [by destruct IH; split; [right|]|]. intros y [->|Hy]%elem_of_cons; auto.
Qed.

Lemma resolve_spec w root mode rw w' : resolve root mode w = (Ret rw, w') →
  ∃ ws, detect w root = Ok ws ∧ origin_root rw = origin_of ws ∧ resolved_as w w' ws rw mode.
Proof.
  unfold resolve, get_state, lift_result, mbind, M_bind. cbn. destruct (detect w root) as [ws|] eqn:Ed; [|done]. cbn.
  intros Hr. exists ws. split; [done|]. destruct mode as [|path|branch base].
  - injection Hr as <- <-. split; [done|]. by constructor.
  - destruct (canonical_path w path) as [cwd|] eqn:Ec; [|done]. injection Hr as <- <-. split; [done|]. by constructor.
  - destruct (ws_git ws) as [git|] eqn:Eg; [|done]. unfold create_worktree in Hr.
    pose proof (find_first_spec (λ wt, bool_decide (wt_branch wt = Some branch)) (worktrees git)) as Hf.
    destruct (find_first _ (worktrees git)) as [wt|].
    + injection Hr as <- <-. destruct Hf as [Hin Hb%bool_decide_eq_true]. split; [done|]. by apply (AsListed _ _ _ _ git branch base wt).
    + unfold get_state, git_runs, mbind, M_bind in Hr. cbn -[add_args display unique_dest] in Hr.
      set (dest := unique_dest w (origin_of ws) branch) in *.
      assert (Hno : ∀ wt, wt ∈ worktrees git → wt_branch wt ≠ Some branch) by (intros wt Hwt; specialize (Hf wt Hwt); by apply bool_decide_eq_false in Hf).
      destruct (make_parent_dir dest w) as [[u| |] w1]; try done.
      destruct (run_git (origin_of ws) (add_args branch dest base) w1) as [[out|err] w2] eqn:E1; cbn -[add_args display unique_dest] in Hr.
      * injection Hr as <- <-. split; [done|]. apply (AsMade _ _ _ _ git branch base w1 (add_args branch dest base) out); auto.
      * destruct (run_git (origin_of ws) ["worktree"; "add"; display dest; branch] w2) as [[out|err'] w3] eqn:E2; cbn -[add_args display unique_dest] in Hr; [|done].
        injection Hr as <- <-. split; [done|]. apply (AsMade _ _ _ _ git branch base w2 ["worktree"; "add"; display dest; branch] out); auto.
Qed.
End resolving.

(** ** Examples *)

(** A host with these files where git prints nothing. *)
Definition still_host (es : gmap Path Entry) : GitHost () :=
  {| host_entries _ := es; host_git _ _ _ := None; run_git _ _ w := (Err "", w); host_create_dir_all _ w := (Ok tt, w); omniagent_data_dir := ["data"] |}.

Definition two_listed : list Listed := [mkListed "/w" "c0ffee" (OnBranch "main"); mkListed "/bare" "c0ffee" Bare; mkListed "/w2" "c0ffee" Detached].

Lemma worktrees_read_back_witness :
  @parse_worktrees () (still_host ∅) tt (porcelain two_listed) = [mkWorktree ["w"] (Some "main"); mkWorktree ["w2"] None].
Proof.
  refine (eq_trans (@worktrees_read_back () (still_host ∅) tt two_listed _) eq_refl).
  apply Forall_forall. intros l Hl. unfold two_listed in Hl.
  repeat (apply elem_of_cons in Hl as [->|Hl];
    [unfold listed_ok, plain_text, one_line; cbn [l_path l_commit l_head]; split_and!; vm_compute; reflexivity || exact I|]).
  by apply elem_of_nil in Hl.
Defined.

(** Of a branch that is itself named like a reference too much is cut. *)
Example prefix_cut_twice :
  @parse_worktrees () (still_host ∅) tt (porcelain [mkListed "/w" "c0ffee" (OnBranch "refs/heads/x")]) = [mkWorktree ["w"] (Some "x")].
Proof. vm_compute. reflexivity. Qed.
