(* ===== verification/Config.v ===== *)
(** * The configuration of the daemon (crates/omniagent-cli/src/config.rs)

    Credentials, the directories agents may run under, the commands that start
    them: one file of JSON, read anew for every use and written as a whole.  The
    text of a configuration is a parameter, that of serde. *)
From stdpp Require Import sorting.
From S2P Require Import Prelude Str Json Core Os.

Record Config : Type := mkConfig {
  server_url : option string; token : option string; full_access : bool; allowed_workspaces : list string;
  agent_commands : gmap string (list string); setup_script : option string; cleanup_script : option string;
}.

Definition default_agent_commands : gmap string (list string) :=
  list_to_map [("claude", ["pnpm"; "dlx"; "@anthropic-ai/claude-code"]); ("codex", ["codex"]); ("gemini", ["gemini"])].

Definition Config_default : Config := mkConfig None None false [] default_agent_commands None None.

(** ** Fields, as serde reads them *)

Definition read_option (v : option Value) : option (option string) :=
  match v with None | Some Null => Some None | Some (Str s) => Some (Some s) | _ => None end.

Definition read_bool (v : option Value) : option bool :=
  match v with None => Some false | Some (Bool b) => Some b | _ => None end.

Definition read_strings (v : Value) : option (list string) := l ← as_array v; mapM as_string l.

Definition read_list (v : option Value) : option (list string) :=
  match v with None => Some [] | Some v => read_strings v end.

Definition read_commands (v : option Value) : option (gmap string (list string)) :=
  match v with
  | None => Some default_agent_commands
  | Some v => fields ← as_object v; l ← mapM (λ kv : string * Value, c ← read_strings kv.2; Some (kv.1, c)) fields; Some (list_to_map l)
  end.

(** The fields by name, or by position where the text is a list; unknown names
    are passed over, more values than fields are not. *)
Definition config_fields (v : Value) : option (string → nat → option Value) :=
  match v with
  | Object l => Some (λ k _, obj_get k l)
  | Array l => if (7 <? length l)%nat then None else Some (λ _ n, l !! n)
  | _ => None
  end.

Definition config_of (v : Value) : option Config :=
  field ← config_fields v;
  url ← read_option (field "server_url" 0%nat);
  token ← read_option (field "token" 1%nat);
  full ← read_bool (field "full_access" 2%nat);
  allowed ← read_list (field "allowed_workspaces" 3%nat);
  commands ← read_commands (field "agent_commands" 4%nat);
  setup ← read_option (field "setup_script" 5%nat);
  cleanup ← read_option (field "cleanup_script" 6%nat);
  Some (mkConfig url token full allowed commands setup cleanup).

Definition strings (l : list string) : Value := Array (map Str l).
Definition opt_text (o : option string) : Value := match o with Some s => Str s | None => Null end.

Definition config_value (c : Config) : Value :=
  obj [("server_url", opt_text (server_url c)); ("token", opt_text (token c)); ("full_access", Bool (full_access c));
       ("allowed_workspaces", strings (allowed_workspaces c));
       ("agent_commands", Object (map (λ kv, (kv.1, strings kv.2)) (btree_entries (agent_commands c))));
       ("setup_script", opt_text (setup_script c)); ("cleanup_script", opt_text (cleanup_script c))].

#[local] Arguments read_strings : simpl never.
#[local] Arguments strings : simpl never.
#[local] Arguments opt_text : simpl never.
#[local] Arguments read_option : simpl never.
#[local] Arguments read_commands : simpl never.

Lemma read_strings_back l : read_strings (strings l) = Some l.
Proof. unfold read_strings, strings. cbn [as_array mbind option_bind]. induction l as [|x l IH]; [done|]. cbn. by rewrite IH. Qed.

Lemma read_option_back o : read_option (Some (opt_text o)) = Some o.
Proof. by destruct o. Qed.

Lemma read_commands_back (m : gmap string (list string)) :
  read_commands (Some (Object (map (λ kv, (kv.1, strings kv.2)) (btree_entries m)))) = Some m.
Proof.
  unfold read_commands. cbn [as_object mbind option_bind]. assert (Hl : ∀ l : list (string * list string),
    mapM (λ kv : string * Value, c ← read_strings kv.2; Some (kv.1, c)) (map (λ kv, (kv.1, strings kv.2)) l) = Some l).
  { induction l as [|[k c] l IH]; [done|]. cbn. rewrite read_strings_back. cbn. by rewrite IH. }
  rewrite Hl. cbn. f_equal. etrans; [|apply list_to_map_to_list].
  apply list_to_map_proper; [|apply merge_sort_Permutation].
  unfold btree_entries. rewrite (merge_sort_Permutation _ (map_to_list m)). apply NoDup_fst_map_to_list.
Qed.

Lemma config_value_sorted c : config_value c =
  Object [("agent_commands", Object (map (λ kv, (kv.1, strings kv.2)) (btree_entries (agent_commands c))));
    ("allowed_workspaces", strings (allowed_workspaces c)); ("cleanup_script", opt_text (cleanup_script c)); ("full_access", Bool (full_access c));
    ("server_url", opt_text (server_url c)); ("setup_script", opt_text (setup_script c)); ("token", opt_text (token c))].
Proof. reflexivity. Qed.

(** A configuration is read back as it was written. *)
Lemma config_read_back c : config_of (config_value c) = Some c.
Proof.
  rewrite config_value_sorted. set (l := [_; _; _; _; _; _; _]). unfold config_of. cbn [config_fields mbind option_bind].
  replace (obj_get "server_url" l) with (Some (opt_text (server_url c))) by reflexivity.
  replace (obj_get "token" l) with (Some (opt_text (token c))) by reflexivity.
  replace (obj_get "setup_script" l) with (Some (opt_text (setup_script c))) by reflexivity.
  replace (obj_get "cleanup_script" l) with (Some (opt_text (cleanup_script c))) by reflexivity.
  replace (obj_get "full_access" l) with (Some (Bool (full_access c))) by reflexivity.
  replace (obj_get "allowed_workspaces" l) with (Some (strings (allowed_workspaces c))) by reflexivity.
  replace (obj_get "agent_commands" l) with (Some (Object (map (λ kv, (kv.1, strings kv.2)) (btree_entries (agent_commands c))))) by reflexivity.
  rewrite !read_option_back read_commands_back. cbn [mbind option_bind read_list read_bool]. rewrite read_strings_back.
  cbn [mbind option_bind]. by destruct c.
Qed.

(** ** The file *)

(** Its content and mode, if it is there. *)
Notation File := (option (string * Z)).

(** What the file goes through when it is written: each step may be the last, and
    others read between them. *)
Inductive FileOp : Type := MakeDir | Truncate | WriteBody (body : string) | Chmod (mode : Z).

Definition apply_op (umask : Z) (op : FileOp) (f : File) : File :=
  match op, f with
  | MakeDir, _ => f
  | Truncate, Some (_, mode) => Some ("", mode)
  | Truncate, None => Some ("", Z.land 438 (Z.lnot umask))
  | WriteBody body, Some (_, mode) => Some (body, mode)
  | WriteBody _, None => None
  | Chmod mode, Some (body, _) => Some (body, mode)
  | Chmod _, None => None
  end.

Definition apply_ops (umask : Z) (ops : list FileOp) (f : File) : File := foldl (λ f op, apply_op umask op f) f ops.

(** Text order. *)
Definition text_le (a b : string) : Prop := String.leb a b = true.
#[global] Instance text_le_dec : RelDecision text_le.
Proof. intros a b. unfold text_le. apply _. Defined.
#[global] Instance text_le_total : Total text_le.
Proof. intros a b. apply String.leb_total. Qed.

(** [to_string_pretty] of a configuration, read back by the parser. *)
Class ConfigText `{!JsonText} := {
  to_string_pretty : Config → string;
  pretty_read : ∀ c, json_from_str (to_string_pretty c) = Some (config_value c);
}.

Section store.
Context `{!JsonText} `{!ConfigText}.

Definition load (f : File) : result string Config :=
  match f with
  | None => Ok Config_default
  | Some (body, _) => ok_or (json_from_str body ≫= config_of) "failed to parse"
  end.

Definition save (c : Config) : list FileOp := [MakeDir; Truncate; WriteBody (to_string_pretty c); Chmod 384].

Definition with_credentials (url tok : string) (c : Config) : Config :=
  mkConfig (Some url) (Some tok) (full_access c) (allowed_workspaces c) (agent_commands c) (setup_script c) (cleanup_script c).
Definition with_workspaces (l : list string) (c : Config) : Config :=
  mkConfig (server_url c) (token c) (full_access c) l (agent_commands c) (setup_script c) (cleanup_script c).

(** What each does to the file, from what it reads. *)
Definition set_credentials (url tok : string) (f : File) : result string (list FileOp) :=
  result_map (λ c, save (with_credentials url tok c)) (load f).

Definition credentials (f : File) : result string (option (string * string)) :=
  result_map (λ c, url ← server_url c; tok ← token c; Some (url, tok)) (load f).

(** The canonical path is an argument: [None] where there is none. *)
Definition add_workspace (canonical : option Path) (f : File) : result string (Path * list FileOp) :=
  match canonical with
  | None => Err "cannot resolve workspace path"
  | Some p => result_map (λ c,
      (p, if decide (display p ∈ allowed_workspaces c) then []
          else save (with_workspaces (merge_sort text_le (allowed_workspaces c ++ [display p])) c))) (load f)
  end.

Definition remove_workspace (canonical : option Path) (path : string) (f : File) : result string (bool * list FileOp) :=
  let target := match canonical with Some p => display p | None => path end in
  result_map (λ c,
    let kept := filter (λ e, e ≠ target) (allowed_workspaces c) in
    if decide (length kept ≠ length (allowed_workspaces c)) then (true, save (with_workspaces kept c)) else (false, [])) (load f).

Definition list_workspaces (f : File) : result string (list string) := result_map allowed_workspaces (load f).
Definition workspace_roots (f : File) : result string (list Path) := result_map (map components) (list_workspaces f).
Definition session_scripts (f : File) : result string (option string * option string) :=
  result_map (λ c, (setup_script c, cleanup_script c)) (load f).

(** [starts_with] of paths: by components. *)
Definition path_within_roots (cwd : Path) (roots : list Path) : bool := existsb (λ root, bool_decide (root `prefix_of` cwd)) roots.

Lemma load_save umask c f : ∃ mode, apply_ops umask (save c) f = Some (to_string_pretty c, mode) ∧ mode = 384%Z ∧
  load (Some (to_string_pretty c, mode)) = Ok c.
Proof.
  exists 384%Z. split_and!; [by destruct f as [[]|]|done|]. cbn. by rewrite pretty_read /= config_read_back.
Qed.

Lemma filter_others (l : list string) x : x ∉ l → filter (λ e, e ≠ x) l = l.
Proof.
  induction l as [|y l IH]; [done|]. intros [Hy Hl]%not_elem_of_cons. rewrite filter_cons_True; [by intros ->|]. by rewrite IH.
Qed.

(** The other fields are as they were. *)
Definition same_but_workspaces (c c' : Config) : Prop :=
  server_url c' = server_url c ∧ token c' = token c ∧ full_access c' = full_access c ∧ agent_commands c' = agent_commands c ∧
  setup_script c' = setup_script c ∧ cleanup_script c' = cleanup_script c.

Definition same_but_credentials (c c' : Config) : Prop :=
  full_access c' = full_access c ∧ allowed_workspaces c' = allowed_workspaces c ∧ agent_commands c' = agent_commands c ∧
  setup_script c' = setup_script c ∧ cleanup_script c' = cleanup_script c.

Lemma add_workspace_spec (umask : Z) (f : File) (c : Config) (p : Path) : load f = Ok c →
  ∃ ops c', add_workspace (Some p) f = Ok (p, ops) ∧ load (apply_ops umask ops f) = Ok c' ∧ same_but_workspaces c c' ∧
     (∀ e, e ∈ allowed_workspaces c' ↔ e = display p ∨ e ∈ allowed_workspaces c) ∧
     (NoDup (allowed_workspaces c) → NoDup (allowed_workspaces c')) ∧
     (display p ∉ allowed_workspaces c → Sorted text_le (allowed_workspaces c') ∧ (snd <$> apply_ops umask ops f) = Some 384%Z).
Proof.
  intros Hl. unfold add_workspace. rewrite Hl. cbn [result_map]. destruct (decide (display p ∈ allowed_workspaces c)) as [Hin|Hnin].
  - exists [], c. split_and!; try done. intros e. split; [by right|]. by intros [->|?].
  - destruct (load_save umask (with_workspaces (merge_sort text_le (allowed_workspaces c ++ [display p])) c) f) as (mode & Ha & -> & Hload).
    eexists _, _. split; [done|]. rewrite Ha Hload. cbn [allowed_workspaces with_workspaces]. split_and!; try done.
    + intros e. rewrite (elem_of_Permutation_proper e _ _ (merge_sort_Permutation _ _)) elem_of_app list_elem_of_singleton. tauto.
    + intros Hnd. change (NoDup (merge_sort text_le (allowed_workspaces c ++ [display p])%list)). rewrite (merge_sort_Permutation _ _). apply NoDup_app. split_and!; [done|set_solver|apply NoDup_singleton].
    + intros _. split; [apply (Sorted_merge_sort _)|done].
Qed.

Lemma remove_workspace_spec (umask : Z) (f : File) (c : Config) (canonical : option Path) (path : string) : load f = Ok c →
  ∃ removed ops c', remove_workspace canonical path f = Ok (removed, ops) ∧
     load (apply_ops umask ops f) = Ok c' ∧ same_but_workspaces c c' ∧
     let target := match canonical with Some p => display p | None => path end in
     (removed = true ↔ target ∈ allowed_workspaces c) ∧ ∀ e, e ∈ allowed_workspaces c' ↔ e ≠ target ∧ e ∈ allowed_workspaces c.
Proof.
  intros Hl. unfold remove_workspace. rewrite Hl. cbn [result_map]. set (target := match canonical with Some p => display p | None => path end).
  set (kept := filter _ (allowed_workspaces c)).
  assert (Hk : ∀ e, e ∈ kept ↔ e ≠ target ∧ e ∈ allowed_workspaces c) by (intros e; unfold kept; by rewrite list_elem_of_filter).
  assert (Hlen : length kept = length (allowed_workspaces c) ↔ target ∉ allowed_workspaces c).
  { split.
    * intros He Hin. pose proof (length_filter_lt (λ e, e ≠ target) _ _ Hin (λ H, H eq_refl)). unfold kept in He. lia.
    * intros Hn. unfold kept. by rewrite filter_others. }
  destruct (decide (length kept ≠ length (allowed_workspaces c))) as [Hne|He].
  - destruct (load_save umask (with_workspaces kept c) f) as (mode & Ha & -> & Hload).
    eexists true, _, _. split; [done|]. rewrite Ha Hload. split_and!; try done. split; [|done]. intros _.
    destruct (decide (target ∈ allowed_workspaces c)); [done|]. by destruct Hne; apply Hlen.
  - exists false, [], c. apply dec_stable in He. split_and!; try done; [by split; [|intros ?; exfalso; apply Hlen in He]|].
    intros e. apply Hlen in He. split; [|tauto]. intros Hin. split; [|done]. by intros ->.
Qed.

(** An update that is not disturbed changes its own field alone, whatever else
    the file holds, and leaves the file to its owner: credentials are read back;
    a directory added is on the list once, in order, with all that were on it; a
    directory removed is not, and all others are. *)
Theorem config_updates (umask : Z) (f : File) (c : Config) : load f = Ok c →
  (∀ url tok, ∃ ops c', set_credentials url tok f = Ok ops ∧
     load (apply_ops umask ops f) = Ok c' ∧ same_but_credentials c c' ∧ credentials (apply_ops umask ops f) = Ok (Some (url, tok)) ∧
     (snd <$> apply_ops umask ops f) = Some 384%Z) ∧
  (∀ p, ∃ ops c', add_workspace (Some p) f = Ok (p, ops) ∧ load (apply_ops umask ops f) = Ok c' ∧ same_but_workspaces c c' ∧
     (∀ e, e ∈ allowed_workspaces c' ↔ e = display p ∨ e ∈ allowed_workspaces c) ∧
     (NoDup (allowed_workspaces c) → NoDup (allowed_workspaces c')) ∧
     (display p ∉ allowed_workspaces c → Sorted text_le (allowed_workspaces c') ∧ (snd <$> apply_ops umask ops f) = Some 384%Z)) ∧
  (∀ canonical path, ∃ removed ops c', remove_workspace canonical path f = Ok (removed, ops) ∧
     load (apply_ops umask ops f) = Ok c' ∧ same_but_workspaces c c' ∧
     let target := match canonical with Some p => display p | None => path end in
     (removed = true ↔ target ∈ allowed_workspaces c) ∧ ∀ e, e ∈ allowed_workspaces c' ↔ e ≠ target ∧ e ∈ allowed_workspaces c).
Proof.
  intros Hl. split_and!; [|intros p; by apply add_workspace_spec|intros canonical path; by apply remove_workspace_spec].
  intros url tok. unfold set_credentials. rewrite Hl. cbn [result_map]. eexists _, _. split; [done|].
  destruct (load_save umask (with_credentials url tok c) f) as (mode & -> & -> & Hload). unfold credentials. by rewrite Hload.
Qed.
End store.

(** [omniagent_config_dir], and [omniagent_data_dir] of session.rs. *)
Definition xdg_dir (env : string → option string) (var below_home : string) : string :=
  let base := match v ← env var; if starts_with "/" v then Some v else None with
    | Some dir => dir
    | None => match env "HOME" with Some home => join_text home below_home | None => "." end
    end in
  join_text base "omniagent".

Definition omniagent_config_dir (env : string → option string) : string := xdg_dir env "XDG_CONFIG_HOME" ".config".
Definition omniagent_data_dir (env : string → option string) : string := xdg_dir env "XDG_DATA_HOME" ".local/share".

(** ** Examples *)

Example dirs_by_env :
  (omniagent_config_dir (λ v, if decide (v = "HOME") then Some "/home/u" else None),
   omniagent_data_dir (λ v, if decide (v = "HOME") then Some "/home/u" else if decide (v = "XDG_DATA_HOME") then Some "/d" else None),
   omniagent_config_dir (λ v, if decide (v = "XDG_CONFIG_HOME") then Some "rel" else None)) =
  ("/home/u/.config/omniagent", "/d/omniagent", "./omniagent").
Proof. reflexivity. Qed.

(** A text for every configuration, and its parser: any code will do. *)
Definition config_tuple (c : Config) :=
  (server_url c, token c, full_access c, allowed_workspaces c, agent_commands c, setup_script c, cleanup_script c).
Definition tuple_config (t : option string * option string * bool * list string * gmap string (list string) * option string * option string) : Config :=
  let '(url, tok, full, l, m, setup, cleanup) := t in mkConfig url tok full l m setup cleanup.

Fixpoint bits (p : positive) : string := match p with xH => "" | xO p => String "0" (bits p) | xI p => String "1" (bits p) end.
Fixpoint of_bits (s : string) : positive :=
  match s with EmptyString => xH | String a s => if ascii_dec a "0" then xO (of_bits s) else xI (of_bits s) end.

Lemma of_bits_bits p : of_bits (bits p) = p.
Proof. induction p as [p IH|p IH|]; cbn; by rewrite ?IH. Qed.

#[local] Instance coded_json : JsonText := {| json_from_str s :=
  match s with EmptyString => None | String _ s => (λ t, config_value (tuple_config t)) <$> decode (of_bits s) end |}.

Definition coded (c : Config) : string := String "c" (bits (encode (config_tuple c))).

Lemma coded_read c : json_from_str (coded c) = Some (config_value c).
Proof. cbn. rewrite of_bits_bits decode_encode. cbn. by destruct c. Qed.

#[local] Instance coded_text : ConfigText := {| to_string_pretty := coded; pretty_read := coded_read |}.

Lemma config_updates_witness : load None = Ok Config_default ∧ ∃ ops c', set_credentials "https://host" "t" None = Ok ops ∧
  load (apply_ops 18 ops None) = Ok c' ∧ same_but_credentials Config_default c' ∧
  credentials (apply_ops 18 ops None) = Ok (Some ("https://host", "t")) ∧ (snd <$> apply_ops 18 ops None) = Some 384%Z.
Proof. split; [reflexivity|]. apply (config_updates 18 None Config_default). reflexivity. Defined.

(** The token is in the file before others are kept from reading it. *)
Example token_readable : apply_ops 18 (take 3 (save (with_credentials "https://host" "t" Config_default))) None =
  Some (coded (with_credentials "https://host" "t" Config_default), 420%Z).
Proof. reflexivity. Qed.

(** The file is emptied before it is written: stopped there, or read then, there
    is no configuration any more. *)
Example torn_file f : load (apply_ops 18 (take 2 (save Config_default)) f) = Err "failed to parse".
Proof. by destruct f as [[]|]. Qed.

(** Two that add a directory at once: both read, both write, and one is lost. *)
Definition saved (c : Config) : File := Some (coded c, 384%Z).
Lemma load_saved c : load (saved c) = Ok c.
Proof. unfold load, saved. by rewrite coded_read /= config_read_back. Qed.

Example workspace_lost :
  ∃ a b, add_workspace (Some ["a"]) (saved Config_default) = Ok (["a"], a) ∧ add_workspace (Some ["b"]) (saved Config_default) = Ok (["b"], b) ∧
  list_workspaces (apply_ops 18 (a ++ b) (saved Config_default)) = Ok ["/b"].
Proof.
  exists (save (with_workspaces ["/a"] Config_default)), (save (with_workspaces ["/b"] Config_default)).
  split_and!; [unfold add_workspace; rewrite load_saved; reflexivity..|].
  set (a := save _). set (b := save _).
  assert (Hab : apply_ops 18 (a ++ b) (saved Config_default) = apply_ops 18 b (apply_ops 18 a (saved Config_default))) by apply foldl_app.
  destruct (load_save 18 (with_workspaces ["/b"] Config_default) (apply_ops 18 a (saved Config_default))) as (mode & Ha & -> & Hl).
  unfold list_workspaces. rewrite Hab Ha Hl. reflexivity.
Qed.

(** A directory permits those under it, not one whose name begins alike. *)
Example roots_by_component :
  (path_within_roots ["a"; "projects"; "sub"] [["a"; "projects"]], path_within_roots ["a"; "projects-evil"] [["a"; "projects"]]) = (true, false).
Proof. reflexivity. Qed.
