(* ===== verification/DaemonConfig.v ===== *)
(** * Where the settings of the daemon come from (crates/oad/src/config.rs)

    Defaults, over them a file of TOML, over it the environment; what starts the
    daemon is checked once all are put together.  The parser of TOML is a
    parameter. *)
From S2P Require Import Prelude Str Core OciBase Config.

Definition DEFAULT_BIND : string := "127.0.0.1:8080".
Definition DEFAULT_BASE_DIR : string := "/run/omniagent".
Definition DEFAULT_PAUSE_IMAGE : string := "registry.k8s.io/pause:3.10".

(** ** The file *)

Record FileHttpConfig : Type := mkFileHttp { fh_bind : option string; fh_bearer_token : option string }.

Record FileNetworkRuntimeConfig : Type := mkFileNetwork {
  fn_enabled : option bool; fn_backend : option ManagedNetworkBackend; fn_sandbox_cidr : option string;
  fn_envoy_listener : option string; fn_dns_listener : option string; fn_dns_upstream : option string;
}.

Record FileRuntimeConfig : Type := mkFileRuntime {
  fr_base_dir : option string; fr_pause_image : option string; fr_network_namespace : option string;
  fr_network : FileNetworkRuntimeConfig; fr_observability : option bool;
}.

Record FileConfig : Type := mkFileConfig { fc_http : FileHttpConfig; fc_runtime : FileRuntimeConfig }.

Definition FileConfig_default : FileConfig :=
  mkFileConfig (mkFileHttp None None) (mkFileRuntime None None None (mkFileNetwork None None None None None None) None).

(** [toml::from_str::<FileConfig>]. *)
Class TomlText := { toml_from_str : string → option FileConfig }.

(** Reading a file as text fails with whether there is none. *)
Inductive ReadError : Type := NotFound | Unreadable (why : string).

(** ** The environment *)

Definition parse_bool_env (name value : string) : result string bool :=
  let v := to_ascii_lowercase value in
  if decide (v ∈ ["1"; "true"; "yes"; "on"]) then Ok true
  else if decide (v ∈ ["0"; "false"; "no"; "off"]) then Ok false
  else Err (name ++ " must be a boolean, got " ++ quoted value).

Definition parse_backend_env (value : string) : result string ManagedNetworkBackend :=
  let v := to_ascii_lowercase value in
  if decide (v = "hostinet") then Ok Hostinet
  else if decide (v = "netstack") then Ok Netstack
  else Err ("OAD_NETWORK_BACKEND must be hostinet or netstack, got " ++ quoted value).

(** A variable that is set is taken, parsed where its setting is no text. *)
Definition env_or {A} (parse : string → result string A) (value : option string) (from_file : option A) : result string (option A) :=
  match value with Some v => result_map Some (parse v) | None => Ok from_file end.

Definition text_or (value from_file : option string) : option string := match value with Some v => Some v | None => from_file end.

Definition apply_env_overrides (env : string → option string) (c : FileConfig) : result string FileConfig :=
  let h := fc_http c in let r := fc_runtime c in let n := fr_network r in
  (enabled <-? env_or (parse_bool_env "OAD_NETWORK_ENABLED") (env "OAD_NETWORK_ENABLED") (fn_enabled n) ;;
   backend <-? env_or parse_backend_env (env "OAD_NETWORK_BACKEND") (fn_backend n) ;;
   observability <-? env_or (parse_bool_env "OAD_OBSERVABILITY_ENABLED") (env "OAD_OBSERVABILITY_ENABLED") (fr_observability r) ;;
   Ok (mkFileConfig
        (mkFileHttp (text_or (env "OAD_HTTP_BIND") (fh_bind h)) (text_or (env "OAD_BEARER_TOKEN") (fh_bearer_token h)))
        (mkFileRuntime (text_or (env "OAD_BASE_DIR") (fr_base_dir r)) (text_or (env "OAD_PAUSE_IMAGE") (fr_pause_image r))
          (text_or (env "OAD_NETWORK_NAMESPACE") (fr_network_namespace r))
          (mkFileNetwork enabled backend
            (text_or (env "OAD_NETWORK_SANDBOX_CIDR") (fn_sandbox_cidr n)) (text_or (env "OAD_ENVOY_LISTENER") (fn_envoy_listener n))
            (text_or (env "OAD_DNS_LISTENER") (fn_dns_listener n)) (text_or (env "OAD_DNS_UPSTREAM") (fn_dns_upstream n)))
          observability)))%rust.

(** ** The settings *)

(** [split_whitespace().next()] of a text that was trimmed. *)
Fixpoint first_word_from (fuel : nat) (s : string) : string :=
  match fuel, s with
  | S fuel, String a rest =>
      match find_map (λ w, strip_prefix w s) whitespace with Some _ => "" | None => String a (first_word_from fuel rest) end
  | _, _ => ""
  end.
Definition first_word (s : string) : option string :=
  let w := first_word_from (String.length s) s in if decide (w = "") then None else Some w.

Definition line_upstream (line : string) : option string :=
  rest ← strip_prefix "nameserver" (trim line);
  nameserver ← first_word (trim rest);
  Some (if str_contains ":" nameserver then "[" ++ nameserver ++ "]:53" else nameserver ++ ":53").

Definition host_dns_upstream (host_resolv_conf : option string) : option string :=
  body ← host_resolv_conf; find_map line_upstream (lines body).

Definition resolve_network_config (host_resolv_conf : option string) (c : FileConfig) : result string NetworkRuntimeConfig :=
  let n := fr_network (fc_runtime c) in
  let defaults := network_runtime_default in
  let legacy_netns := match fr_network_namespace (fc_runtime c) with Some _ => true | None => false end in
  let enabled := default (negb legacy_netns) (fn_enabled n) in
  if enabled && legacy_netns then Err "runtime.network.enabled cannot be true when runtime.network_namespace is set"
  else Ok {|
    net_enabled := enabled;
    net_backend := default (net_backend defaults) (fn_backend n);
    sandbox_cidr := default (sandbox_cidr defaults) (fn_sandbox_cidr n);
    envoy_listener := default (envoy_listener defaults) (fn_envoy_listener n);
    dns_listener := default (dns_listener defaults) (fn_dns_listener n);
    dns_upstream := default (dns_upstream defaults)
      (match fn_dns_upstream n with Some u => Some u | None => host_dns_upstream host_resolv_conf end) |}.

Definition default_observability : ObservabilityConfig := mkObservability true.

Definition resolve_observability_config (c : FileConfig) : ObservabilityConfig :=
  mkObservability (default (obs_enabled default_observability) (fr_observability (fc_runtime c))).

Section load.
Context `{!TomlText} (env : string → option string) (read : string → result ReadError string).
(** The directory a relative path starts from. *)
Context (cwd : Path).

Definition read_file_config (path : option string) : result string FileConfig :=
  match path with
  | Some path =>
      match read path with
      | Ok body => ok_or (toml_from_str body) ("failed to parse " ++ path)
      | Err _ => Err ("failed to read " ++ path)
      end
  | None =>
      match read "oad.toml" with
      | Ok body => ok_or (toml_from_str body) "failed to parse oad.toml"
      | Err NotFound => Ok FileConfig_default
      | Err (Unreadable _) => Err "failed to read oad.toml"
      end
  end.

Definition host_resolv_conf : option string := match read "/etc/resolv.conf" with Ok body => Some body | Err _ => None end.

Definition load_config (path : option string) : result string DaemonConfig :=
  (file <-? read_file_config path ;;
   c <-? apply_env_overrides env file ;;
   network <-? resolve_network_config host_resolv_conf c ;;
   let bearer_token := default "" (fh_bearer_token (fc_http c)) in
   if decide (bearer_token = "") then Err "missing bearer token; set http.bearer_token or OAD_BEARER_TOKEN"
   else Ok {|
     http := mkHttpConfig (default DEFAULT_BIND (fh_bind (fc_http c))) bearer_token;
     runtime := mkRuntimeConfig
       (join cwd (default DEFAULT_BASE_DIR (fr_base_dir (fc_runtime c))))
       (default DEFAULT_PAUSE_IMAGE (fr_pause_image (fc_runtime c)))
       (join cwd <$> fr_network_namespace (fc_runtime c))
       network (resolve_observability_config c) |})%rust.
End load.

(** ** The arguments *)

Inductive Started : Type := Usage | RunWith (config_path : option string).

Fixpoint read_args (config_path : option string) (args : list string) : result string Started :=
  match args with
  | [] => Ok (RunWith config_path)
  | arg :: args =>
      if decide (arg = "--config") then
        match args with [] => Err "--config requires a path" | path :: args => read_args (Some path) args end
      else if decide (arg = "--help" ∨ arg = "-h") then Ok Usage
      else Err ("unknown argument " ++ quoted arg)
  end.

Definition config_path_from_args (args : list string) : result string Started := read_args None args.

(** ** What the daemon is started with *)

(** A setting is what the environment says, else the file, else the default. *)
Definition layered {A} (parse : string → option A) (value : option string) (from_file : option A) (by_default : A) : A :=
  match value with Some v => default by_default (parse v) | None => default by_default from_file end.

Definition of_ok {E A} (r : result E A) : option A := match r with Ok a => Some a | Err _ => None end.

(** A variable that is set has to be readable as its setting. *)
Definition readable {A} (parse : string → result string A) (value : option string) : Prop :=
  match value with Some v => is_ok (parse v) = true | None => True end.

Lemma env_or_spec {A} (parse : string → result string A) value from_file :
  match env_or parse value from_file with
  | Ok o => readable parse value ∧ ∀ d, default d o = layered (λ v, of_ok (parse v)) value from_file d
  | Err _ => ¬ readable parse value
  end.
Proof. unfold env_or, readable, layered. destruct value as [v|]; [|done]. by destruct (parse v). Qed.

Lemma text_or_spec value from_file d : default d (text_or value from_file) = layered Some value from_file d.
Proof. by destruct value. Qed.

Section layers.
Context `{!TomlText} (env : string → option string) (read : string → result ReadError string) (cwd : Path).

Definition token_of (file : FileConfig) : string := layered Some (env "OAD_BEARER_TOKEN") (fh_bearer_token (fc_http file)) "".

Definition namespace_of (file : FileConfig) : option string := text_or (env "OAD_NETWORK_NAMESPACE") (fr_network_namespace (fc_runtime file)).

(** Whether networks are managed: they are, unless a namespace is named. *)
Definition managed_of (file : FileConfig) : bool :=
  layered (λ v, of_ok (parse_bool_env "OAD_NETWORK_ENABLED" v)) (env "OAD_NETWORK_ENABLED") (fn_enabled (fr_network (fc_runtime file)))
    (bool_decide (namespace_of file = None)).

Definition startable (file : FileConfig) : Prop :=
  readable (parse_bool_env "OAD_NETWORK_ENABLED") (env "OAD_NETWORK_ENABLED") ∧
  readable parse_backend_env (env "OAD_NETWORK_BACKEND") ∧
  readable (parse_bool_env "OAD_OBSERVABILITY_ENABLED") (env "OAD_OBSERVABILITY_ENABLED") ∧
  (managed_of file = true → namespace_of file = None) ∧ token_of file ≠ "".

(** Each setting of the daemon, of the file and the environment. *)
Definition daemon_settings (file : FileConfig) : DaemonConfig :=
  let h := fc_http file in let r := fc_runtime file in let n := fr_network r in
  let text name from_file by_default := layered Some (env name) from_file by_default in
  let d := network_runtime_default in
  {| http := mkHttpConfig (text "OAD_HTTP_BIND" (fh_bind h) DEFAULT_BIND) (token_of file);
     runtime := mkRuntimeConfig
       (join cwd (text "OAD_BASE_DIR" (fr_base_dir r) DEFAULT_BASE_DIR))
       (text "OAD_PAUSE_IMAGE" (fr_pause_image r) DEFAULT_PAUSE_IMAGE)
       (join cwd <$> namespace_of file)
       {| net_enabled := managed_of file;
          net_backend := layered (λ v, of_ok (parse_backend_env v)) (env "OAD_NETWORK_BACKEND") (fn_backend n) (net_backend d);
          sandbox_cidr := text "OAD_NETWORK_SANDBOX_CIDR" (fn_sandbox_cidr n) (sandbox_cidr d);
          envoy_listener := text "OAD_ENVOY_LISTENER" (fn_envoy_listener n) (envoy_listener d);
          dns_listener := text "OAD_DNS_LISTENER" (fn_dns_listener n) (dns_listener d);
          dns_upstream := text "OAD_DNS_UPSTREAM" (fn_dns_upstream n)
            (default (dns_upstream d) (host_dns_upstream (host_resolv_conf read))) |}
       (mkObservability (layered (λ v, of_ok (parse_bool_env "OAD_OBSERVABILITY_ENABLED" v)) (env "OAD_OBSERVABILITY_ENABLED")
          (fr_observability r) (obs_enabled default_observability))) |}.

Lemma managed_default file (o : option bool) :
  (∀ b, default b o = layered (λ v, of_ok (parse_bool_env "OAD_NETWORK_ENABLED" v)) (env "OAD_NETWORK_ENABLED")
     (fn_enabled (fr_network (fc_runtime file))) b) →
  default (negb (match namespace_of file with Some _ => true | None => false end)) o = managed_of file.
Proof. intros Ho. rewrite Ho. unfold managed_of. f_equal. by destruct (namespace_of file). Qed.

(** From the file on. *)
Lemma load_from_file file :
  match (c <-? apply_env_overrides env file ;; network <-? resolve_network_config (host_resolv_conf read) c ;; Ok (c, network))%rust with
  | Ok (c, network) =>
      let bearer_token := default "" (fh_bearer_token (fc_http c)) in
      bearer_token = token_of file ∧ (token_of file ≠ "" ↔ startable file) ∧
      {| http := mkHttpConfig (default DEFAULT_BIND (fh_bind (fc_http c))) bearer_token;
         runtime := mkRuntimeConfig (join cwd (default DEFAULT_BASE_DIR (fr_base_dir (fc_runtime c))))
           (default DEFAULT_PAUSE_IMAGE (fr_pause_image (fc_runtime c))) (join cwd <$> fr_network_namespace (fc_runtime c))
           network (resolve_observability_config c) |} = daemon_settings file
  | Err _ => ¬ startable file
  end.
Proof.
  unfold apply_env_overrides, startable, daemon_settings.
  pose proof (env_or_spec (parse_bool_env "OAD_NETWORK_ENABLED") (env "OAD_NETWORK_ENABLED") (fn_enabled (fr_network (fc_runtime file)))) as H1.
  pose proof (env_or_spec parse_backend_env (env "OAD_NETWORK_BACKEND") (fn_backend (fr_network (fc_runtime file)))) as H2.
  pose proof (env_or_spec (parse_bool_env "OAD_OBSERVABILITY_ENABLED") (env "OAD_OBSERVABILITY_ENABLED") (fr_observability (fc_runtime file))) as H3.
  destruct (env_or (parse_bool_env "OAD_NETWORK_ENABLED") _ _) as [o1|]; [|simpl; tauto]. destruct H1 as [R1 D1].
  destruct (env_or parse_backend_env _ _) as [o2|]; [|simpl; tauto]. destruct H2 as [R2 D2].
  destruct (env_or (parse_bool_env "OAD_OBSERVABILITY_ENABLED") _ _) as [o3|]; [|simpl; tauto]. destruct H3 as [R3 D3].
  cbn [result_bind]. unfold resolve_network_config, resolve_observability_config.
  cbn [fc_http fc_runtime fr_network fr_network_namespace fr_observability fr_base_dir fr_pause_image fn_enabled fn_backend fn_sandbox_cidr
       fn_envoy_listener fn_dns_listener fn_dns_upstream fh_bind fh_bearer_token].
  change (text_or (env "OAD_NETWORK_NAMESPACE") (fr_network_namespace (fc_runtime file))) with (namespace_of file).
  rewrite (managed_default _ _ D1). destruct (managed_of file) eqn:Em, (namespace_of file) as [ns|] eqn:En; cbn [andb result_bind].
  1: { intros (_ & _ & _ & Hn & _). by specialize (Hn eq_refl). }
  all: split; [apply text_or_spec|]; split; [naive_solver|].
  all: rewrite !text_or_spec D2 D3; unfold token_of.
  all: unfold layered, text_or; by destruct (env "OAD_DNS_UPSTREAM"), (fn_dns_upstream (fr_network (fc_runtime file))).
Qed.

(** The daemon starts exactly when its file can be read, the variables that are
    set can, a token is left and networks are not managed within a namespace of
    the host; every setting then comes from the environment before the file and
    from the file before the default. *)
Theorem load_config_spec (path : option string) (d : DaemonConfig) :
  load_config env read cwd path = Ok d ↔
  ∃ file, read_file_config read path = Ok file ∧ startable file ∧ d = daemon_settings file.
Proof.
  unfold load_config. destruct (read_file_config read path) as [file|]; cbn [result_bind]; [|split; [done|by intros (? & ? & _)]].
  pose proof (load_from_file file) as Hload.
  assert (Hno : ¬ startable file → ∀ e : string, Err e = Ok d ↔ ∃ f, @Ok string _ file = Ok f ∧ startable f ∧ d = daemon_settings f).
  { intros Hn e. split; [done|]. intros (f & [= <-] & Hs & _). by destruct (Hn Hs). }
  destruct (apply_env_overrides env file) as [c|]; cbn [result_bind] in *; [|by apply Hno].
  destruct (resolve_network_config (host_resolv_conf read) c) as [network|]; cbn [result_bind] in *; [|by apply Hno].
  destruct Hload as (Ht & Hs & He). rewrite He. case_decide as Hd; rewrite Ht in Hd.
  - apply Hno. by rewrite -Hs.
  - split; [intros [= <-]; exists file; by rewrite -Hs|]. by intros (f & [= <-] & _ & ->).
Qed.
End layers.

(** ** Boundaries *)

Definition on_host (l : list (string * string)) (name : string) : option string := list_to_map (M := gmap string string) l !! name.
Definition no_files (path : string) : result ReadError string := Err NotFound.
#[local] Instance no_toml : TomlText := {| toml_from_str _ := None |}.

Example token_is_enough : result_map (λ d, (bind (http d), net_enabled (rt_network (runtime d)), dns_upstream (rt_network (runtime d))))
  (load_config (on_host [("OAD_BEARER_TOKEN", "t")]) no_files [] None) = Ok ("127.0.0.1:8080", true, "1.1.1.1:53").
Proof. vm_compute. reflexivity. Qed.

(** A variable that is set to nothing is set. *)
Example empty_token : load_config (on_host [("OAD_BEARER_TOKEN", "")]) no_files [] None =
  Err "missing bearer token; set http.bearer_token or OAD_BEARER_TOKEN".
Proof. vm_compute. reflexivity. Qed.

Example empty_namespace_unmanages : result_map (λ d, (net_enabled (rt_network (runtime d)), rt_network_namespace (runtime d)))
  (load_config (on_host [("OAD_BEARER_TOKEN", "t"); ("OAD_NETWORK_NAMESPACE", "")]) no_files [] None) = Ok (false, Some []).
Proof. vm_compute. reflexivity. Qed.

(** A word that only starts like the one looked for. *)
Example nameserver_prefix : host_dns_upstream (Some ("nameservers 9.9.9.9" ++ nl ++ "nameserver 8.8.8.8" ++ nl)) = Some "s:53".
Proof. vm_compute. reflexivity. Qed.

Example nameservers : map (λ l, host_dns_upstream (Some l)) ["# none"; "nameserver"; " nameserver  fe80::1 x"; "nameserver 10.0.0.2"] =
  [None; None; Some "[fe80::1]:53"; Some "10.0.0.2:53"].
Proof. vm_compute. reflexivity. Qed.

Example arguments : map config_path_from_args [[]; ["--config"]; ["--config"; "a"; "--config"; "b"]; ["-h"; "x"]] =
  [Ok (RunWith None); Err "--config requires a path"; Ok (RunWith (Some "b")); Ok Usage].
Proof. vm_compute. reflexivity. Qed.

Example scoped_nameserver : parse_socket_addr <$> line_upstream "nameserver fe80::1%eth0" = Some None.
Proof. vm_compute. reflexivity. Qed.
