(* ===== verification/Executor.v ===== *)
(** * Agents and the steps of a session
    (crates/omniagent-cli/src/executor/mod.rs, executor/action.rs)

    What is particular to an agent is behind the trait [Executor], here a record
    of operations with the laws the supervisor relies on; a session is a chain of
    steps around its agent. *)
From S2P Require Import Prelude Str Codex.

Record AgentInfo : Type := mkInfo { ai_name : string; supports_atif : bool }.

Inductive Backend : Type := PtyBackend | CodexAppServer.

Record Executor : Type := mkExecutor {
  info : option AgentInfo;
  backend : bool → Backend;
  pty_argv : list string → string → list string * option string;
  exec_app_server_argv : list string → string → list string;
  metadata_kind : bool → option string;
}.

(** Session ids of claude are new. *)
Class Uuids := { new_uuid : string }.

Definition CLAUDE_SESSION_FLAGS : list string := ["--session-id"; "-r"; "--resume"; "-c"; "--continue"; "--from-pr"].

Definition has_session_flag (argv : list string) : bool :=
  existsb (λ arg, existsb (λ flag,
    bool_decide (arg = flag) ||
    starts_with "--" flag && match strip_prefix flag arg with Some rest => starts_with "=" rest | None => false end) CLAUDE_SESSION_FLAGS) argv.

Definition ClaudeExecutor `{!Uuids} : Executor := {|
  info := Some (mkInfo "claude-code" true);
  backend _ := PtyBackend;
  pty_argv argv _ := if has_session_flag argv then (argv, None) else ((argv ++ ["--session-id"; new_uuid])%list, Some new_uuid);
  exec_app_server_argv _ _ := [];
  metadata_kind _ := None;
|}.

Definition CodexExecutor : Executor := {|
  info := Some (mkInfo "codex" true);
  backend app_server := if app_server then CodexAppServer else PtyBackend;
  pty_argv argv proxy_url := (tui_argv argv proxy_url, None);
  exec_app_server_argv := app_server_argv;
  metadata_kind app_server := if app_server then Some "codex-app-server" else None;
|}.

Definition GeminiExecutor : Executor := {|
  info := Some (mkInfo "gemini-cli" true);
  backend _ := PtyBackend;
  pty_argv argv _ := (argv, None);
  exec_app_server_argv _ _ := [];
  metadata_kind _ := None;
|}.

Definition CustomExecutor : Executor := {|
  info := None;
  backend _ := PtyBackend;
  pty_argv argv _ := (argv, None);
  exec_app_server_argv _ _ := [];
  metadata_kind _ := None;
|}.

Definition resolve_executor `{!Uuids} (agent : string) : Executor :=
  if decide (agent = "claude") then ClaudeExecutor
  else if decide (agent = "codex") then CodexExecutor
  else if decide (agent = "gemini") then GeminiExecutor
  else CustomExecutor.

(** The command configured for the agent, else its name, and what the user adds. *)
Definition launch_argv (agent : string) (extra : list string) (commands : gmap string (list string)) : list string :=
  (match commands !! agent with Some (c :: cs) => c :: cs | _ => [agent] end ++ extra)%list.

(** What the supervisor relies on: an agent is started with the command given,
    and a session id reported is the one it is told; the app-server is started
    by an executor that has its command. *)
Class LawfulExecutor (e : Executor) : Prop := {
  keeps_command argv url : ∃ more, (pty_argv e argv url).1 = (argv ++ more)%list;
  tells_session argv url id : (pty_argv e argv url).2 = Some id → (pty_argv e argv url).1 = (argv ++ ["--session-id"; id])%list ∧ has_session_flag argv = false;
  app_server_command b argv url : backend e b = CodexAppServer → ∃ more, exec_app_server_argv e argv url = (argv ++ more)%list;
}.

#[global] Instance claude_lawful `{!Uuids} : LawfulExecutor ClaudeExecutor.
Proof.
  split; cbn; [|intros argv url id; destruct (has_session_flag argv) eqn:E; [done|by intros [= <-]]|done].
  intros argv url. destruct (has_session_flag argv); [exists []; by rewrite app_nil_r|by eexists].
Qed.

#[global] Instance codex_lawful : LawfulExecutor CodexExecutor.
Proof.
  split; [by eexists|done|]. intros b argv url _. cbn. destruct (codex_argv_spec argv url) as [(mid & post & -> & _) _]. by eexists.
Qed.

#[global] Instance gemini_lawful : LawfulExecutor GeminiExecutor.
Proof. split; [|done|done]. intros argv url. exists []. by rewrite app_nil_r. Qed.

#[global] Instance custom_lawful : LawfulExecutor CustomExecutor.
Proof. split; [|done|done]. intros argv url. exists []. by rewrite app_nil_r. Qed.

#[global] Instance resolved_lawful `{!Uuids} agent : LawfulExecutor (resolve_executor agent).
Proof. unfold resolve_executor. repeat case_decide; apply _. Qed.

(** A session id of the user's is not overruled, also where it is joined by [=]. *)
Example joined_flag_kept `{!Uuids} : pty_argv ClaudeExecutor ["claude"; "--session-id=1"] "u" = (["claude"; "--session-id=1"], None).
Proof. reflexivity. Qed.

(** ** Steps *)

Record ScriptRequest : Type := mkScript { sc_script : string; sc_label : string }.
Inductive ActionType : Type := Script (req : ScriptRequest) | CodingAgent.
Inductive ExecutorAction : Type := Action (typ : ActionType) (next : option ExecutorAction).

Definition action_new (typ : ActionType) : ExecutorAction := Action typ None.

Fixpoint append (a action : ExecutorAction) : ExecutorAction :=
  match a with
  | Action typ (Some next) => Action typ (Some (append next action))
  | Action typ None => Action typ (Some action)
  end.

Definition not_blank (s : option string) : option string := s ← s; if decide (trim s = "") then None else Some s.

Definition session_chain (setup cleanup : option string) : ExecutorAction :=
  let agent := action_new CodingAgent in
  let agent := match not_blank cleanup with
    | Some script => append agent (action_new (Script (mkScript script "cleanup")))
    | None => agent
    end in
  match not_blank setup with
  | Some script => append (action_new (Script (mkScript script "setup"))) agent
  | None => agent
  end.

Fixpoint steps_of (a : ExecutorAction) : list ActionType :=
  match a with Action typ next => typ :: match next with Some a => steps_of a | None => [] end end.

Lemma steps_append a b : steps_of (append a b) = (steps_of a ++ steps_of b)%list.
Proof.
  revert a. fix IH 1. intros [typ [next|]]; cbn; [by rewrite IH|done].
Qed.

Lemma session_chain_steps setup cleanup : steps_of (session_chain setup cleanup) =
  (match not_blank setup with Some s => [Script (mkScript s "setup")] | None => [] end ++ [CodingAgent] ++
   match not_blank cleanup with Some s => [Script (mkScript s "cleanup")] | None => [] end)%list.
Proof. unfold session_chain. by destruct (not_blank setup), (not_blank cleanup). Qed.
