(* ===== verification/Supervisor.v ===== *)
(** * Sessions (crates/omniagent-cli/src/client/supervisor.rs, upload.rs, main.rs)

    A session is registered with the server, given a proxy, and its agent started
    where the workspace asked for leads to; when the agent exits what was recorded
    is uploaded.  The world of the host is that of [Workspace]; what the supervisor
    asks of the server, the network and the operating system is written down in
    the order it happens. *)
From S2P Require Import Prelude Str Json Core Effect Os Tree Record Atif AgentLog Proxy Client Files Workspace Config Codex Executor.

Definition DEFAULT_PTY_ROWS : Z := 40.
Definition DEFAULT_PTY_COLS : Z := 120.
Definition DEFAULT_REVIEW_TIMEOUT_SECS : Z := 30.

Record SessionSpec : Type := mkSpec {
  sp_agent : string; sp_custom_command : list string; sp_cwd : Path; sp_name : option string; sp_session_id : option string;
  sp_bind : string; sp_proxy_port : Z; sp_no_review : bool; sp_review_timeout_secs : Z; sp_trace_path : option string;
  sp_app_server : bool; sp_model : option string; sp_workspace : option Path; sp_branch : option string;
  sp_create_worktree : bool; sp_worktree : option Path; sp_base_branch : option string;
}.

Record SessionSummary : Type := mkSummary {
  ss_session_id : string; ss_name : option string; ss_cwd : string; ss_argv : list string; ss_proxy_url : string;
}.

Inductive WorkspacePolicy : Type := FullAccess | Restricted.

(** ** Names, modes, metadata *)

(** One component that is a name: no separator, not [.] nor [..]. *)
Definition sanitized_workspace_name (name : string) : result string string :=
  let trimmed := trim name in
  if decide (trimmed = "") then Err "workspace name is empty"
  else match components trimmed with
  | [part] =>
      if bool_decide (part = "..") || starts_with "/" trimmed || starts_with "./" trimmed
      then Err ("workspace name must be a single path component: " ++ trimmed) else Ok part
  | _ => Err ("workspace name must be a single path component: " ++ trimmed)
  end.

Definition select_mode `{!Uuids} (spec : SessionSpec) : WorktreeMode :=
  match sp_worktree spec with
  | Some path => Existing path
  | None =>
      if sp_create_worktree spec
      then Create (default ("omniagent/" ++ str_take 8 new_uuid) (not_blank (sp_branch spec))) (not_blank (sp_base_branch spec))
      else InPlace
  end.

Definition session_metadata (spec : SessionSpec) (resolved : ResolvedWorkspace) (kind : option string) : list (string * Value) :=
  let field (k : string) (v : option string) := match v with Some s => [(k, Str s)] | None => [] end in
  (field "kind" kind ++ field "model" (sp_model spec) ++ [("workspace", Str (display (origin_root resolved)))] ++
   field "branch" (sp_branch spec) ++ field "worktree" (display <$> created_worktree resolved))%list.

(** ** Addresses (main.rs) *)

Definition proxy_base_url_for_host (host : string) (port : Z) : string :=
  if str_contains ":" host && negb (starts_with "[" host)
  then "http://[" ++ host ++ "]:" ++ show_dec port else "http://" ++ host ++ ":" ++ show_dec port.

Definition proxy_base_url (bind : string) (port : Z) : string :=
  proxy_base_url_for_host (if bool_decide (bind ∈ ["0.0.0.0"; "::"]) then "127.0.0.1" else bind) port.

(** ** What the supervisor asks for *)

Record RegisterSessionRequest : Type := mkRegister {
  rg_session_id : option string; rg_name : option string; rg_cwd : string; rg_argv : list string; rg_metadata : list (string * Value);
}.

Record Opened : Type := mkOpened { op_topic : string; op_id : string; op_name : option string }.

Inductive Act : Type :=
| ARegister (req : RegisterSessionRequest)
| ATraces (path : string)
| AProxy (bind : string) (port : Z)
| AScript (req : ScriptRequest) (cwd : Path) (env : list (string * string))
| AAnnounce (payload : Value)
| AClose (topic : string)
| AAgent (b : Backend) (argv : list string) (cwd : Path) (env : list (string * string))
| AInsert (id topic : string).

(** The answers, by what was asked before. *)
Class Outside : Type := {
  open_session : list Act → RegisterSessionRequest → result string Opened;
  open_traces : list Act → string → bool;
  bind_proxy : list Act → string → Z → option Z;
  script_exit : list Act → ScriptRequest → result string Z;
  start_agent : list Act → list string → result string ();
  process_env : Env;
}.

(** The file of the configuration, as it is in a world. *)
Class Configured (W : Type) := { config_file : W → option (string * Z) }.

Record Sup (W : Type) : Type := mkSup { world : W; acts : list Act }.
Arguments mkSup {W} _ _. Arguments world {W} _. Arguments acts {W} _.

Section supervisor.
Context {W : Type} `{!GitHost W, !Configured W, !JsonText, !Uuids, !Outside}.
Notation SM := (M (Sup W) string).

Definition in_world {A : Type} (m : M W string A) : SM A := zoom world (λ w s, mkSup w (acts s)) m.
Definition act (a : Act) : SM () := modify (λ s, mkSup (world s) (acts s ++ [a])).
(** What is asked, then its answer. *)
Definition asked {A : Type} (answer : list Act → result string A) (a : Act) : SM A := λ s,
  (match answer (acts s) with Ok x => Ret x | Err e => Throw e end, mkSup (world s) (acts s ++ [a])).
Definition config : SM (result string Config) := s ← get_state; mret (load (config_file (world s))).

(** ** Where an agent may run *)

Definition authorize_workspace (policy : WorkspacePolicy) (origin : Path) : SM () :=
  match policy with
  | FullAccess => mret tt
  | Restricted =>
      c ← config;
      roots ← lift_result (result_map (λ c, map components (allowed_workspaces c)) c);
      if path_within_roots origin roots then mret tt
      else throw (display origin ++ " is not an allowed workspace")
  end.

Definition in_dir (cwd : Path) (spec : SessionSpec) : SessionSpec :=
  mkSpec (sp_agent spec) (sp_custom_command spec) cwd (sp_name spec) (sp_session_id spec) (sp_bind spec) (sp_proxy_port spec)
    (sp_no_review spec) (sp_review_timeout_secs spec) (sp_trace_path spec) (sp_app_server spec) (sp_model spec) (sp_workspace spec)
    (sp_branch spec) (sp_create_worktree spec) (sp_worktree spec) (sp_base_branch spec).

Definition spec_root (spec : SessionSpec) : Path := default (sp_cwd spec) (sp_workspace spec).

Definition resolve_workspace (policy : WorkspacePolicy) (spec : SessionSpec) : SM (SessionSpec * ResolvedWorkspace) :=
  s ← get_state;
  origin ← lift_result (map_err (λ _, "cannot resolve workspace " ++ display (spec_root spec)) (resolve_origin (world s) (spec_root spec)));
  authorize_workspace policy origin ;;
  resolved ← in_world (Workspace.resolve (spec_root spec) (select_mode spec));
  mret (in_dir (rw_cwd resolved) spec, resolved).

(** [create_workspace]: the directory, a repository in it, and its place on the
    list; [add] is [ConfigStore::add_workspace]. *)
Definition create_workspace (add : Path → M W string Path) (name : string) : M W string Path :=
  name ← lift_result (sanitized_workspace_name name);
  let root := join (join Workspace.omniagent_data_dir "workspaces") name in
  w ← get_state;
  if is_taken w root then throw ("workspace " ++ display root ++ " already exists")
  else
    (λ w, let '(r, w) := host_create_dir_all root w in
      (match r with Ok _ => Ret tt | Err _ => Throw ("failed to create workspace " ++ display root) end, w)) ;;
    r ← git_runs root ["init"];
    lift_result (map_err (λ _, "git init failed in " ++ display root) r) ;;
    add root.

(** ** Scripts *)

Definition run_script_action (cwd : Path) (env : list (string * string)) (req : ScriptRequest) : SM Z :=
  asked (λ before, script_exit before req) (AScript req cwd env).

Fixpoint run_setup_scripts (cwd : Path) (env : list (string * string)) (chain : ExecutorAction) : SM (option ExecutorAction) :=
  match chain with
  | Action (Script req) next =>
      code ← run_script_action cwd env req;
      if decide (code ≠ 0%Z) then throw (sc_label req ++ " script failed with exit code " ++ show_dec code)
      else match next with Some next => run_setup_scripts cwd env next | None => mret None end
  | Action CodingAgent next => mret next
  end.

Definition agent_value (agent : option AgentInfo) : Value :=
  obj [("name", match agent with Some i => Str (ai_name i) | None => Null end); ("supported", Bool (match agent with Some _ => true | None => false end))].

Definition abort_before_agent (agent : option AgentInfo) (resolved : ResolvedWorkspace) (err : string) : SM () :=
  act (AAnnounce (obj [("exit_code", num (-1)); ("agent", agent_value agent); ("artifacts", Array []); ("error", Str err)])) ;;
  match created_worktree resolved with Some wt => in_world (remove_worktree (origin_root resolved) wt) | None => mret tt end.

Definition prepare_session_chain (topic : string) (cwd : Path) (env : list (string * string)) (agent : option AgentInfo)
    (resolved : ResolvedWorkspace) : SM (option ExecutorAction) :=
  c ← config;
  let '(setup, cleanup) := match c with Ok c => (setup_script c, cleanup_script c) | Err _ => (None, None) end in
  r ← attempt (run_setup_scripts cwd env (session_chain setup cleanup));
  match r with
  | Ok cleanup => mret cleanup
  | Err e => abort_before_agent agent resolved e ;; act (AClose topic) ;; throw e
  end.

(** ** A session is started *)

Definition spawn_backend (e : Executor) (argv : list string) (proxy_url : string) (env : list (string * string)) (spec : SessionSpec) : SM (option string) :=
  match backend e (sp_app_server spec) with
  | CodexAppServer =>
      let app := exec_app_server_argv e argv proxy_url in
      asked (λ before, start_agent before app) (AAgent CodexAppServer app (sp_cwd spec) env) ;; mret None
  | PtyBackend =>
      let '(spawn_argv, native) := pty_argv e argv proxy_url in
      asked (λ before, start_agent before spawn_argv) (AAgent PtyBackend spawn_argv (sp_cwd spec) env) ;; mret native
  end.

(** What follows when it is known where: the summary, and the steps left for the
    reaper. *)
Definition start_session (spec : SessionSpec) (resolved : ResolvedWorkspace) : SM (SessionSummary * option ExecutorAction) :=
  let e := resolve_executor (sp_agent spec) in
  c ← config;
  let commands := match c with Ok c => agent_commands c | Err _ => ∅ end in
  let argv := launch_argv (sp_agent spec) (sp_custom_command spec) commands in
  let metadata := session_metadata spec resolved (metadata_kind e (sp_app_server spec)) in
  let req := mkRegister (sp_session_id spec) (sp_name spec) (display (sp_cwd spec)) argv metadata in
  opened ← asked (λ before, open_session before req) (ARegister req);
  match sp_trace_path spec with
  | Some path => asked (λ before, if open_traces before path then Ok tt else Err ("failed to open trace file " ++ path)) (ATraces path)
  | None => mret tt
  end ;;
  port ← asked (λ before, ok_or (bind_proxy before (sp_bind spec) (sp_proxy_port spec))
    ("failed to bind proxy on " ++ sp_bind spec ++ ":" ++ show_dec (sp_proxy_port spec))) (AProxy (sp_bind spec) (sp_proxy_port spec));
  let proxy_url := proxy_base_url (sp_bind spec) port in
  let env := agent_env process_env proxy_url in
  cleanup ← prepare_session_chain (op_topic opened) (sp_cwd spec) env (info e) resolved;
  spawn_backend e argv proxy_url env spec ;;
  act (AInsert (op_id opened) (op_topic opened)) ;;
  mret (mkSummary (op_id opened) (match sp_name spec with Some n => Some n | None => op_name opened end) (display (sp_cwd spec)) argv proxy_url, cleanup).

Definition spawn_session (policy : WorkspacePolicy) (spec : SessionSpec) : SM (SessionSummary * option ExecutorAction) :=
  '(spec, resolved) ← resolve_workspace policy spec; start_session spec resolved.

(** ** What a run asks for *)

(** The setup script a configuration asks for, where it can be read and has one. *)
Definition configured_setup (w : W) : option ScriptRequest :=
  match load (config_file w) with
  | Ok c => (λ script, mkScript script "setup") <$> not_blank (setup_script c)
  | Err _ => None
  end.

(** The acts of a session that has its proxy, after [before]: the setup script if
    one is configured, and when it ends well the agent, which is inserted if it
    starts; else the end is announced.  Without a script the agent is all there
    is, and with one the agent never comes before it. *)
Inductive run_acts (setup : option ScriptRequest) (cwd : Path) (env : list (string * string)) (topic : string) (before : list Act) : list Act → Prop :=
| RunAgent b argv ins : setup = None → (ins = [] ∨ ∃ id, ins = [AInsert id topic]) →
    run_acts setup cwd env topic before (AAgent b argv cwd env :: ins)
| RunSetup req b argv ins : setup = Some req → script_exit before req = Ok 0%Z → (ins = [] ∨ ∃ id, ins = [AInsert id topic]) →
    run_acts setup cwd env topic before (AScript req cwd env :: AAgent b argv cwd env :: ins)
| RunFailed req payload : setup = Some req → script_exit before req ≠ Ok 0%Z →
    run_acts setup cwd env topic before [AScript req cwd env; AAnnounce payload; AClose topic].

(** The acts of a session. *)
Inductive session_acts (setup : option ScriptRequest) (spec : SessionSpec) (before : list Act) : list Act → Prop :=
| NotOpened req : session_acts setup spec before [ARegister req]
| NoTraces req path : session_acts setup spec before [ARegister req; ATraces path]
| NoProxy req tr : session_acts setup spec before (ARegister req :: tr ++ [AProxy (sp_bind spec) (sp_proxy_port spec)])
| Proxied req opened tr port run :
    open_session before req = Ok opened →
    let asked := (ARegister req :: tr)%list in
    bind_proxy (before ++ asked) (sp_bind spec) (sp_proxy_port spec) = Some port →
    tr = match sp_trace_path spec with Some path => [ATraces path] | None => [] end →
    run_acts setup (sp_cwd spec) (agent_env process_env (proxy_base_url (sp_bind spec) port)) (op_topic opened)
      (before ++ asked ++ [AProxy (sp_bind spec) (sp_proxy_port spec)]) run →
    session_acts setup spec before (asked ++ AProxy (sp_bind spec) (sp_proxy_port spec) :: run).

Lemma in_world_acts {A : Type} (m : M W string A) (s : Sup W) : acts (in_world m s).2 = acts s.
Proof. unfold in_world, zoom. by destruct (m (world s)). Qed.

Lemma abort_acts agent resolved err (s : Sup W) : ∃ payload, acts (abort_before_agent agent resolved err s).2 = (acts s ++ [AAnnounce payload])%list ∧
  (abort_before_agent agent resolved err s).1 = Ret tt.
Proof.
  eexists. unfold abort_before_agent, act, modify, mbind, M_bind. cbn [fst snd acts world].
  destruct (created_worktree resolved) as [wt|]; [|done]. rewrite in_world_acts. split; [done|].
  unfold in_world, zoom, remove_worktree, git_runs, mbind, M_bind. cbn [world]. by destruct (run_git _ _ _).
Qed.

(** The agent, and the session if it starts. *)
Lemma backend_acts {A : Type} e argv url env spec opened (x : A) (s : Sup W) :
  let m := (spawn_backend e argv url env spec ;; act (AInsert (op_id opened) (op_topic opened)) ;; mret x) in
  ∃ b argv' ins, acts (m s).2 = (acts s ++ AAgent b argv' (sp_cwd spec) env :: ins)%list ∧
    (ins = [] ∧ (∃ err, (m s).1 = Throw err) ∨ ins = [AInsert (op_id opened) (op_topic opened)] ∧ (m s).1 = Ret x).
Proof.
  unfold spawn_backend, asked, act, modify, mbind, M_bind. destruct (backend e (sp_app_server spec)).
  - destruct (pty_argv e argv url) as [argv' native]. exists PtyBackend, argv'. cbn [fst snd acts world].
    destruct (start_agent _ argv') as [[]|err]; cbn; [exists [AInsert (op_id opened) (op_topic opened)]|exists []].
    + split; [by rewrite -app_assoc|by right].
    + split; [done|left]. split; [done|by exists err].
  - exists CodexAppServer, (exec_app_server_argv e argv url). cbn [fst snd acts world].
    destruct (start_agent _ _) as [[]|err]; cbn; [exists [AInsert (op_id opened) (op_topic opened)]|exists []].
    + split; [by rewrite -app_assoc|by right].
    + split; [done|left]. split; [done|by exists err].
Qed.

(** The setup scripts of a chain as it is built. *)
Lemma setup_run cwd env setup cleanup (s : Sup W) : let '(o, s') := run_setup_scripts cwd env (session_chain setup cleanup) s in
  (not_blank setup = None ∧ ∃ rest, o = Ret rest ∧ s' = s) ∨
  ∃ req, ((λ script, mkScript script "setup") <$> not_blank setup) = Some req ∧ s' = mkSup (world s) (acts s ++ [AScript req cwd env])%list ∧
    ((∃ rest, o = Ret rest) ∧ script_exit (acts s) req = Ok 0%Z ∨ (∃ err, o = Throw err) ∧ script_exit (acts s) req ≠ Ok 0%Z).
Proof.
  assert (Hagent : ∀ s0, ∃ rest, run_setup_scripts cwd env (session_chain None cleanup) s0 = (Ret rest, s0)).
  { intros s0. unfold session_chain. cbn. destruct (not_blank cleanup); by eexists. }
  unfold session_chain in *. destruct (not_blank setup) as [script|].
  - cbn [append action_new run_setup_scripts]. unfold run_script_action, asked, mbind, M_bind. cbn [fst snd].
    set (req := mkScript script "setup"). destruct (script_exit (acts s) req) as [code|err] eqn:E.
    + destruct (decide (code ≠ 0%Z)) as [Hne|He].
      * right. exists req. split; [done|]. split; [done|right]. split; [by eexists|]. rewrite E. by intros [= ->].
      * apply dec_stable in He as ->. specialize (Hagent (mkSup (world s) (acts s ++ [AScript req cwd env])%list)) as [rest Hr].
        cbn in Hr. cbn. rewrite Hr. right. exists req. split; [done|]. split; [done|left]. split; [by eexists|done].
    + right. exists req. split; [done|]. split; [done|right]. split; [by eexists|]. by rewrite E.
  - specialize (Hagent s) as [rest Hr]. cbn in Hr. rewrite Hr. left. split; [done|]. by eexists.
Qed.

Lemma run_acts_ok {A : Type} e argv url env spec resolved opened (x : option ExecutorAction → A) (s : Sup W) :
  let m := (cleanup ← prepare_session_chain (op_topic opened) (sp_cwd spec) env (info e) resolved;
            spawn_backend e argv url env spec ;; act (AInsert (op_id opened) (op_topic opened)) ;; mret (x cleanup)) in
  ∃ new, acts (m s).2 = (acts s ++ new)%list ∧ run_acts (configured_setup (world s)) (sp_cwd spec) env (op_topic opened) (acts s) new ∧
    (∀ y, (m s).1 = Ret y → (∃ cleanup, y = x cleanup) ∧ ∃ pre, new = (pre ++ [AInsert (op_id opened) (op_topic opened)])%list).
Proof.
  intros m. set (tail := λ cleanup, spawn_backend e argv url env spec ;; act (AInsert (op_id opened) (op_topic opened)) ;; mret (x cleanup)).
  set (scripts := match load (config_file (world s)) with Ok c => (setup_script c, cleanup_script c) | Err _ => (None, None) end).
  assert (Hm : m s = match run_setup_scripts (sp_cwd spec) env (session_chain scripts.1 scripts.2) s with
    | (Ret cleanup, s1) => tail cleanup s1
    | (Throw err, s1) => match abort_before_agent (info e) resolved err s1 with
        | (Ret _, s2) => (Throw err, mkSup (world s2) (acts s2 ++ [AClose (op_topic opened)])%list)
        | (Throw e, s2) => (Throw e, s2)
        | (Crash, s2) => (Crash, s2)
        end
    | (Crash, s1) => (Crash, s1)
    end).
  { unfold m, prepare_session_chain, config, get_state, attempt, throw, mret, M_ret, mbind, M_bind. cbn [fst snd]. fold scripts. destruct scripts as [setup cleanup].
    cbn [fst snd]. destruct (run_setup_scripts _ _ _ s) as [[cl|err|] s1]; [done| |done].
    destruct (abort_before_agent (info e) resolved err s1) as [[[]|?|] s2]; done. }
  rewrite Hm. clear Hm m. pose proof (setup_run (sp_cwd spec) env scripts.1 scripts.2 s) as Hrun.
  assert (Hsetup : configured_setup (world s) = (λ script, mkScript script "setup") <$> not_blank scripts.1).
  { unfold configured_setup, scripts. by destruct (load (config_file (world s))). }
  rewrite Hsetup. clearbody scripts. clear Hsetup.
  destruct (run_setup_scripts _ _ _ s) as [o s1].
  assert (Htail : ∀ rest s1, ∃ b argv' ins, acts (tail rest s1).2 = (acts s1 ++ AAgent b argv' (sp_cwd spec) env :: ins)%list ∧
    (ins = [] ∨ ∃ id, ins = [AInsert id (op_topic opened)]) ∧
    (∀ y, (tail rest s1).1 = Ret y → y = x rest ∧ ins = [AInsert (op_id opened) (op_topic opened)])).
  { intros rest s2. destruct (backend_acts e argv url env spec opened (x rest) s2) as (b & argv' & ins & Ha & Hi).
    exists b, argv', ins. split; [exact Ha|]. destruct Hi as [[-> [err He]]|[-> He]]; split; [by left| |right; by eexists|].
    all: intros y Hy; unfold tail in Hy; rewrite He in Hy; by simplify_eq. }
  destruct Hrun as [(Hset & rest & -> & ->)|(req & Hset & -> & [[(rest & ->) Hok]|[(err & ->) Hno]])].
  - destruct (Htail rest s) as (b & argv' & ins & Ha & Hins & Hret). eexists. split; [exact Ha|]. split; [constructor; [by rewrite Hset|done]|].
    intros y Hy. destruct (Hret y Hy) as [-> ->]. split; [by eexists|]. by exists [AAgent b argv' (sp_cwd spec) env].
  - destruct (Htail rest (mkSup (world s) (acts s ++ [AScript req (sp_cwd spec) env])%list)) as (b & argv' & ins & Ha & Hins & Hret).
    exists (AScript req (sp_cwd spec) env :: AAgent b argv' (sp_cwd spec) env :: ins). split; [rewrite Ha; cbn; by rewrite -app_assoc|].
    split; [by constructor|]. intros y Hy. destruct (Hret y Hy) as [-> ->]. split; [by eexists|]. by exists [AScript req (sp_cwd spec) env; AAgent b argv' (sp_cwd spec) env].
  - destruct (abort_acts (info e) resolved err (mkSup (world s) (acts s ++ [AScript req (sp_cwd spec) env])%list)) as (payload & Ha & Hr).
    destruct (abort_before_agent _ _ _ _) as [o s2]. cbn [fst snd] in *. subst o.
    exists [AScript req (sp_cwd spec) env; AAnnounce payload; AClose (op_topic opened)]. cbn [fst snd acts]. split_and!.
    + rewrite Ha. cbn. by rewrite -!app_assoc.
    + by apply RunFailed.
    + done.
Qed.

Lemma config_bind {A : Type} (k : result string Config → SM A) (s : Sup W) : (config ≫= k) s = k (load (config_file (world s))) s.
Proof. done. Qed.

Lemma asked_bind {A B : Type} (f : list Act → result string A) a (k : A → SM B) (s : Sup W) :
  (asked f a ≫= k) s = match f (acts s) with
    | Ok x => k x (mkSup (world s) (acts s ++ [a])) | Err e => (Throw e, mkSup (world s) (acts s ++ [a])) end.
Proof. unfold asked, mbind, M_bind. cbn. by destruct (f (acts s)). Qed.

Lemma start_session_acts spec resolved (s : Sup W) : let '(o, s') := start_session spec resolved s in
  ∃ new, acts s' = (acts s ++ new)%list ∧ session_acts (configured_setup (world s)) spec (acts s) new ∧
    (∀ x, o = Ret x → ∃ pre topic, new = (pre ++ [AInsert (ss_session_id x.1) topic])%list).
Proof.
  unfold start_session. rewrite config_bind asked_bind.
  set (argv := launch_argv _ _ _). set (req := mkRegister _ _ _ _ _).
  destruct (open_session (acts s) req) as [opened|err] eqn:Eo;
    [|exists [ARegister req]; split_and!; [done|by constructor|done]].
  set (tr := match sp_trace_path spec with Some path => [ATraces path] | None => [] end).
  set (k := λ _ : (), (port ← _; _)).
  assert (Hk : ∀ s0 : Sup W, acts s0 = (acts s ++ (ARegister req :: tr))%list → world s0 = world s → let '(o, s') := k tt s0 in
    ∃ new, acts s' = (acts s ++ new)%list ∧ session_acts (configured_setup (world s)) spec (acts s) new ∧
      (∀ x, o = Ret x → ∃ pre topic, new = (pre ++ [AInsert (ss_session_id x.1) topic])%list)).
  { intros s0 Hs0 Hw0. unfold k. rewrite asked_bind Hs0. clear k.
    destruct (bind_proxy _ _ _) as [port|] eqn:Ep; cbn [ok_or];
      [|exists (ARegister req :: (tr ++ [AProxy (sp_bind spec) (sp_proxy_port spec)])%list); split_and!; [by rewrite -app_assoc|by constructor|done]].
    match goal with |- let '(_, _) := ?m ?s1 in _ =>
      pose proof (run_acts_ok (resolve_executor (sp_agent spec)) argv (proxy_base_url (sp_bind spec) port)
        (agent_env process_env (proxy_base_url (sp_bind spec) port)) spec resolved opened
        (λ cleanup, (mkSummary (op_id opened) (match sp_name spec with Some n => Some n | None => op_name opened end)
          (display (sp_cwd spec)) argv (proxy_base_url (sp_bind spec) port), cleanup)) s1) as (run & Ha & Hrun & Hret);
      destruct (m s1) as [o s'] end; cbn [fst snd acts world] in Ha, Hrun, Hret. rewrite Hw0 in Hrun.
    exists (ARegister req :: tr ++ AProxy (sp_bind spec) (sp_proxy_port spec) :: run)%list.
    split_and!.
    - rewrite Ha -!app_assoc. done.
    - apply (Proxied _ _ _ req opened tr port run Eo Ep eq_refl). by rewrite app_assoc.
    - intros y ->. destruct (Hret y eq_refl) as [(cleanup & ->) (pre & ->)].
      exists (ARegister req :: tr ++ AProxy (sp_bind spec) (sp_proxy_port spec) :: pre)%list, (op_topic opened). cbn. by rewrite -!app_assoc. }
  clearbody k. unfold tr in Hk. destruct (sp_trace_path spec) as [path|] eqn:Et.
  - rewrite asked_bind. cbn [acts world]. destruct (open_traces _ path).
    + apply Hk; [|done]. cbn. by rewrite -app_assoc.
    + exists [ARegister req; ATraces path]. split_and!; [by rewrite -app_assoc|by constructor|done].
  - exact (Hk (mkSup (world s) (acts s ++ [ARegister req])%list) eq_refl eq_refl).
Qed.

(** ** Where it may be asked *)

(** What authorises a workspace: the policy, or an allowed workspace it is in. *)
Definition permitted (policy : WorkspacePolicy) (w : W) (origin : Path) : Prop :=
  policy = FullAccess ∨ ∃ c root, load (config_file w) = Ok c ∧ root ∈ allowed_workspaces c ∧ components root `prefix_of` origin.

Lemma authorize_spec policy origin (s : Sup W) : let '(o, s') := authorize_workspace policy origin s in
  s' = s ∧ (o = Ret tt → permitted policy (world s) origin).
Proof.
  destruct policy; [by split; [|left]|]. unfold authorize_workspace. rewrite config_bind.
  destruct (load (config_file (world s))) as [c|e] eqn:Ec; [|done]. unfold lift_result, mbind, M_bind. cbn [result_map].
  destruct (path_within_roots origin (map components (allowed_workspaces c))) eqn:Ep; [|done]. split; [done|]. intros _. right.
  unfold path_within_roots in Ep. apply existsb_exists in Ep as (r & Hr & Hp%bool_decide_eq_true).
  apply in_map_iff in Hr as (root & <- & Hin). exists c, root. by split_and!; [|apply list_elem_of_In|].
Qed.

Lemma resolve_workspace_spec policy spec (s : Sup W) : let '(o, s') := resolve_workspace policy spec s in
  acts s' = acts s ∧
  (world s' = world s ∨ ∃ ws, detect (world s) (spec_root spec) = Ok ws ∧ permitted policy (world s) (origin_of ws)) ∧
  (∀ x, o = Ret x → ∃ ws, detect (world s) (spec_root spec) = Ok ws ∧ permitted policy (world s) (origin_of ws) ∧
    origin_root x.2 = origin_of ws ∧ resolved_as (world s) (world s') ws x.2 (select_mode spec) ∧ x.1 = in_dir (rw_cwd x.2) spec).
Proof.
  unfold resolve_workspace, resolve_origin, get_state. unfold mbind, M_bind. cbn [fst snd].
  destruct (detect (world s) (spec_root spec)) as [ws|e] eqn:Ed; [|by split_and!; [|left|]]. cbn [result_map map_err lift_result].
  pose proof (authorize_spec policy (origin_of ws) s) as Ha. unfold lift_result, mret, M_ret.
  destruct (authorize_workspace policy (origin_of ws) s) as [[[]|?|] s1]; destruct Ha as [-> Ha]; [|by split_and!; [|left|]..].
  specialize (Ha eq_refl). unfold in_world, zoom.
  destruct (Workspace.resolve (spec_root spec) (select_mode spec) (world s)) as [[rw|?|] w1] eqn:Er; cbn [world acts];
    (split; [done|]; split; [by right; eexists|]); [|done..].
  intros x [= <-]. apply resolve_spec in Er as (ws' & Hw & Ho & Hres). rewrite Ed in Hw. injection Hw as <-. by exists ws.
Qed.

(** C6. Where a session runs: a request leaves the host as it is and asks for
    nothing unless the repository of the workspace it names is in an allowed
    workspace (or the policy is full access); the policy looks at that repository
    only, the directory of an existing worktree is taken where the request names
    it.  What is asked then is the registration, the archive, the proxy, the setup
    script and the agent in that order, script and agent in the directory the
    workspace resolved to and with the addresses of the session's own proxy in
    their environment.  When the configuration, as it is once the workspace is
    resolved, can be read and has a setup script, that script runs, and the agent
    starts only after it exited with 0; without one, or when the configuration
    cannot be read, no script runs.  A session is returned only when it was
    inserted for its reaper. *)
Theorem sessions_confined policy spec (s : Sup W) : let '(o, s') := spawn_session policy spec s in
  ∃ new, acts s' = (acts s ++ new)%list ∧
    ((new = [] ∧ (∀ x, o ≠ Ret x) ∧
        (world s' = world s ∨ ∃ ws, detect (world s) (spec_root spec) = Ok ws ∧ permitted policy (world s) (origin_of ws))) ∨
     ∃ ws rw w1, detect (world s) (spec_root spec) = Ok ws ∧ permitted policy (world s) (origin_of ws) ∧
       resolved_as (world s) w1 ws rw (select_mode spec) ∧
       session_acts (configured_setup w1) (in_dir (rw_cwd rw) spec) (acts s) new ∧
       (∀ x, o = Ret x → ∃ pre topic, new = (pre ++ [AInsert (ss_session_id x.1) topic])%list)).
Proof.
  unfold spawn_session. unfold mbind, M_bind. pose proof (resolve_workspace_spec policy spec s) as Hr.
  destruct (resolve_workspace policy spec s) as [[[spec1 rw]|e|] s1]; destruct Hr as (Ha & Hw & Hx).
  - specialize (Hx _ eq_refl). cbn [fst snd] in Ha, Hw, Hx. destruct Hx as (ws & Hd & Hp & _ & Hres & ->).
    pose proof (start_session_acts (in_dir (rw_cwd rw) spec) rw s1) as Hs. destruct (start_session _ _ s1) as [o s'].
    rewrite Ha in Hs. destruct Hs as (new & -> & Hacts & Hret). exists new. split; [done|right]. exists ws, rw, (world s1). done.
  - exists []. rewrite app_nil_r. split; [done|left]. done.
  - exists []. rewrite app_nil_r. split; [done|left]. done.
Qed.
End supervisor.

(** ** Examples *)

(** A host with two directories where git prints nothing, and a configuration
    that allows one of them. *)
Definition two_dirs : gmap Path Entry := <[["w"] := EDir 493]> (<[["elsewhere"] := EDir 493]> ∅).
Definition allow_w : Config := with_workspaces ["/w"] Config_default.

Section example.
#[local] Instance dirs_host : GitHost () := still_host two_dirs.
#[local] Instance allow_json : JsonText := {| json_from_str _ := Some (config_value allow_w) |}.
#[local] Instance allow_config : Configured () := {| config_file _ := Some ("", 384%Z) |}.
#[local] Instance some_uuid : Uuids := {| new_uuid := "0123456789abcdef" |}.

Definition quiet_outside (port : option Z) (start : result string ()) : Outside := {|
  open_session _ _ := Ok (mkOpened "session:1" "1" None);
  open_traces _ _ := true;
  bind_proxy _ _ _ := port;
  script_exit _ _ := Ok 0%Z;
  start_agent _ _ := start;
  process_env := λ _, None;
|}.

Definition ask (worktree : option Path) (root : Path) : SessionSpec :=
  mkSpec "gemini" [] root None None "127.0.0.1" 0 true 30 None false None None None false worktree None.
Definition start : Sup () := mkSup tt [].

(** The directory of a worktree the client names is not looked at: the repository
    of [/w] is allowed, and the agent runs in [/elsewhere]. *)
Definition agent_dir (a : Act) : option Path := match a with AAgent _ _ cwd _ => Some cwd | _ => None end.

Example existing_worktree_anywhere :
  omap agent_dir (acts (@spawn_session _ _ _ _ _ (quiet_outside (Some 4000%Z) (Ok tt)) Restricted (ask (Some ["elsewhere"]) ["w"]) start).2) = [["elsewhere"]].
Proof. vm_compute. reflexivity. Qed.

Example root_denied : @spawn_session _ _ _ _ _ (quiet_outside (Some 4000%Z) (Ok tt)) Restricted (ask None ["elsewhere"]) start =
  (Throw "/elsewhere is not an allowed workspace", start).
Proof. vm_compute. reflexivity. Qed.

(** A proxy or an agent that does not start leaves the session registered: its
    end is neither announced nor its channel closed. *)
Definition ended (a : Act) : bool := match a with AAnnounce _ | AClose _ | AInsert _ _ => true | _ => false end.

Example channel_left_open :
  let run port started := @spawn_session _ _ _ _ _ (quiet_outside port started) FullAccess (ask None ["w"]) start in
  existsb ended (acts (run None (Ok tt)).2) = false ∧ length (acts (run None (Ok tt)).2) = 2%nat ∧
  existsb ended (acts (run (Some 4000%Z) (Err "no such file")).2) = false ∧ length (acts (run (Some 4000%Z) (Err "no such file")).2) = 3%nat.
Proof. by vm_compute. Qed.
End example.

Example names_of_workspaces :
  map (λ s, match sanitized_workspace_name s with Ok n => Some n | Err _ => None end)
    ["  my-project  "; ""; "  "; "."; ".."; "a/b"; "/abs"; "../escape"; "foo/../bar"] =
  [Some "my-project"; None; None; None; None; None; None; None; None].
Proof. vm_compute. reflexivity. Qed.
