(* ===== verification/Reaper.v ===== *)
(** * How sessions end (crates/omniagent-cli/src/client/supervisor.rs, upload.rs)

    When an agent exits, its reaper runs the cleanup scripts, uploads what was
    recorded, announces the end and takes the session off the map; a daemon that
    is stopped waits for that. *)
From S2P Require Import Prelude Str Json Core Effect Os Tree Record Atif AgentLog Client Files Workspace Executor Supervisor.

(** ** Uploads (upload.rs) *)

Definition UPLOAD_TIMEOUT : Z := 30.

Record UploadConfig : Type := mkUploadConfig { up_server_url : string; up_token : string }.
Record UploadedArtifact : Type := mkUploaded { ua_id : string; ua_key : string; ua_size : Z }.

Definition http_base_url (server_url : string) : string :=
  let trimmed := trim_end_char "/" server_url in
  if starts_with "http://" trimmed || starts_with "https://" trimmed then trimmed else "http://" ++ trimmed.

(** A request, and what is made of its answer. *)
Record UploadRequest : Type := mkUploadRequest { ur_url : string; ur_token : string; ur_kind : string; ur_body : string }.
Record HttpAnswer : Type := mkAnswer { ha_status : Z; ha_body : option Value }.

Definition upload_request (config : UploadConfig) (session_id kind bytes : string) : UploadRequest :=
  mkUploadRequest (http_base_url (up_server_url config) ++ "/api/sessions/" ++ session_id ++ "/artifacts") (up_token config) kind bytes.

Definition read_size (v : option Value) : option Z :=
  match v with None => Some 0%Z | Some v => as_u64 v end.

Definition read_uploaded (v : Value) : option UploadedArtifact :=
  id ← v_get "id" v ≫= as_string; key ← v_get "key" v ≫= as_string; size ← read_size (v_get "size" v);
  Some (mkUploaded id key size).

Definition upload_result (session_id kind : string) (answer : option HttpAnswer) : result string UploadedArtifact :=
  match answer with
  | None => Err ("failed to upload " ++ kind ++ " artifact for session " ++ session_id)
  | Some a =>
      if decide (200 ≤ ha_status a < 300)%Z
      then ok_or (ha_body a ≫= read_uploaded) "invalid artifact upload response"
      else Err ("artifact upload failed (" ++ show_dec (ha_status a) ++ ")")
  end.

(** ** Artifacts *)

(** What is read on the host, and what answers. *)
Class Collecting (W : Type) : Type := {
  log_host : W → AgentLog.Host;
  read_bytes : W → string → option string;      (* [tokio::fs::read] *)
  run_cleanup : ScriptRequest → Path → list (string * string) → W → result string Z * W;
  post : UploadRequest → option HttpAnswer;
  close_delivered : Value → bool;
  trajectory_text : Trajectory → option string; (* [to_vec_pretty] *)
  span_text : LlmSpan → option string;          (* [to_string] *)
}.

Inductive Did : Type :=
| DScript (req : ScriptRequest) (cwd : Path) (env : list (string * string))
| DUpload (req : UploadRequest)
| DClose (payload : Value)
| DPrune (origin worktree : Path).

Record Reap (W : Type) : Type := mkReap { r_world : W; did : list Did }.
Arguments mkReap {W} _ _. Arguments r_world {W} _. Arguments did {W} _.

Record FinalizeCtx : Type := mkFinalize {
  fc_spans : list LlmSpan;                      (* [traces.snapshot()] *)
  fc_recorder : option string;                  (* the path [finalize] returns *)
  fc_agent : option AgentInfo;
  fc_upload : UploadConfig;
  fc_session_id : string;
  fc_cwd : Path;
  fc_native_session_id : option string;
  fc_started_at : Z;
  fc_created_worktree : option Path;
  fc_origin_root : Path;
  fc_cleanup_chain : option ExecutorAction;
  fc_env : list (string * string);
}.

(** [read_to_string]: what is not UTF-8 is not read. *)
Definition as_text (bytes : option string) : option string :=
  b ← bytes; match (from_utf8 b).2 with None => Some b | Some _ => None end.

Section finalize.
Context {W : Type} `{!GitHost W, !Collecting W, !JsonText, !JsonShow}.
Notation RM := (M (Reap W) string).

Definition note (d : Did) : RM () := modify (λ s, mkReap (r_world s) (did s ++ [d])).

Fixpoint run_chain (ctx : FinalizeCtx) (a : ExecutorAction) : RM () :=
  match a with
  | Action typ next =>
      match typ with
      | Script req =>
          note (DScript req (fc_cwd ctx) (fc_env ctx)) ;;
          modify (λ s, mkReap (run_cleanup req (fc_cwd ctx) (fc_env ctx) (r_world s)).2 (did s))
      | CodingAgent => mret tt
      end ;;
      match next with Some next => run_chain ctx next | None => mret tt end
  end.

Definition spans_to_jsonl (l : list LlmSpan) : option string :=
  match l with
  | [] => None
  | _ => let out := str_concat (concat (map (λ s, match span_text s with Some line => [line; nl] | None => [] end) l)) in
      if decide (out = "") then None else Some out
  end.

Definition not_empty_bytes (kind : string) (bytes : option string) : list (string * string) :=
  match bytes with Some b => if decide (b = "") then [] else [(kind, b)] | None => [] end.

Definition atif_agent (ctx : FinalizeCtx) : option AgentInfo := a ← fc_agent ctx; if supports_atif a then Some a else None.

Definition native_log (ctx : FinalizeCtx) (w : W) : option (AgentInfo * string) :=
  a ← atif_agent ctx;
  (λ path, (a, path)) <$> locate_native_log (log_host w) (ai_name a) (display (fc_cwd ctx)) (fc_native_session_id ctx) (fc_started_at ctx).

(** The agent's own log is preferred; [None] is a panic of its reader, which a
    build for release has none of. *)
Definition trajectory (ctx : FinalizeCtx) (w : W) (a : AgentInfo) : option (option Trajectory) :=
  own ← match native_log ctx w with
    | Some (agent, path) => parse_native_log (checks := release_build) (ai_name agent) (as_text (read_bytes w path))
    | None => Some None
    end;
  Some ((λ t, link_raw_requests t (fc_spans ctx)) <$> or_else own (build_trajectory (ai_name a) (fc_session_id ctx) (fc_spans ctx))).

Definition pending (ctx : FinalizeCtx) (w : W) : option (list (string * string)) :=
  t ← match atif_agent ctx with Some a => trajectory ctx w a | None => Some None end;
  Some (match fc_recorder ctx with Some path => not_empty_bytes "recording" (read_bytes w path) | None => [] end ++
        match t ≫= trajectory_text with Some b => [("trajectory", b)] | None => [] end ++
        match native_log ctx w with Some (_, path) => not_empty_bytes "session_log" (read_bytes w path) | None => [] end ++
        match spans_to_jsonl (fc_spans ctx) with Some b => [("raw_requests", b)] | None => [] end)%list.

Definition artifact_summary (kind : string) (u : UploadedArtifact) : Value :=
  obj [("kind", Str kind); ("id", Str (ua_id u)); ("key", Str (ua_key u)); ("size", num (ua_size u))].

Definition uploaded (ctx : FinalizeCtx) (p : string * string) : option Value :=
  match upload_result (fc_session_id ctx) p.1 (post (upload_request (fc_upload ctx) (fc_session_id ctx) p.1 p.2)) with
  | Ok u => Some (artifact_summary p.1 u)
  | Err _ => None
  end.

(** [join_all] is written one after the other: the answers are in this order, the
    requests on the wire need not be. *)
Definition upload_all (ctx : FinalizeCtx) (l : list (string * string)) : RM (list Value) :=
  forM l (λ p, note (DUpload (upload_request (fc_upload ctx) (fc_session_id ctx) p.1 p.2))) ;;
  mret (omap (uploaded ctx) l).

Definition close_payload (ctx : FinalizeCtx) (exit_code : Z) (artifacts : list Value) : Value :=
  obj [("exit_code", num exit_code); ("agent", agent_value (fc_agent ctx)); ("artifacts", Array artifacts)].

Definition finalize_session (ctx : FinalizeCtx) (exit_code : Z) : RM () :=
  match fc_cleanup_chain ctx with Some a => run_chain ctx a | None => mret tt end ;;
  s ← get_state;
  l ← match pending ctx (r_world s) with Some l => mret l | None => panic end;
  artifacts ← upload_all ctx l;
  note (DClose (close_payload ctx exit_code artifacts)) ;;
  match fc_created_worktree ctx with
  | Some wt => note (DPrune (fc_origin_root ctx) wt) ;; zoom r_world (λ w s, mkReap w (did s)) (remove_worktree (fc_origin_root ctx) wt)
  | None => mret tt
  end.
End finalize.

(** ** A session that ended *)

Definition scripts_of (chain : option ExecutorAction) : list ScriptRequest :=
  concat (map (λ t, match t with Script req => [req] | CodingAgent => [] end) (match chain with Some a => steps_of a | None => [] end)).

Section finalized.
Context {W : Type} `{!GitHost W, !Collecting W, !JsonText, !JsonShow}.

Definition after_scripts (ctx : FinalizeCtx) (l : list ScriptRequest) (w : W) : W :=
  foldl (λ w req, (run_cleanup req (fc_cwd ctx) (fc_env ctx) w).2) w l.

Definition script_did (ctx : FinalizeCtx) (req : ScriptRequest) : Did := DScript req (fc_cwd ctx) (fc_env ctx).

Lemma run_chain_spec ctx a (s : Reap W) : run_chain ctx a s =
  (Ret tt, mkReap (after_scripts ctx (scripts_of (Some a)) (r_world s)) (did s ++ map (script_did ctx) (scripts_of (Some a)))).
Proof.
  revert s. revert a. fix IH 1. intros [typ next] s. destruct typ as [req|]; cbn; unfold mbind, M_bind, note, modify; cbn.
  - destruct next as [next|]; [rewrite IH; cbn; by rewrite -!app_assoc|done].
  - destruct next as [next|]; [by rewrite IH|cbn]. rewrite app_nil_r. by destruct s.
Qed.

Lemma pending_kinds ctx (w : W) : ∃ l, pending ctx w = Some l ∧
  map fst l `sublist_of` ["recording"; "trajectory"; "session_log"; "raw_requests"] ∧
  ∀ kind b, (kind, b) ∈ l → kind ≠ "trajectory" → b ≠ "".
Proof.
  assert (Ht : ∃ t, match atif_agent ctx with Some a => trajectory ctx w a | None => Some None end = Some t).
  { destruct (atif_agent ctx) as [a|]; [|by eexists]. unfold trajectory.
    destruct (native_log ctx w) as [[agent path]|]; [|by eexists].
    destruct (parse_returns (ai_name agent) (as_text (read_bytes w path))) as [r ->]. by eexists. }
  destruct Ht as [t Ht]. unfold pending. rewrite Ht. eexists. split; [done|].
  assert (Hne : ∀ kind o, not_empty_bytes kind o = [] ∨ ∃ b, not_empty_bytes kind o = [(kind, b)] ∧ b ≠ "").
  { intros kind [b|]; [|by left]. cbn. case_decide; [by left|right; by eexists]. }
  assert (Hrec : ∀ kind (o : option string) (f : string → option string), let l := match o with Some p => not_empty_bytes kind (f p) | None => [] end in
    l = [] ∨ ∃ b, l = [(kind, b)] ∧ b ≠ "") by (intros kind [p|] f; [apply Hne|by left]).
  pose proof (Hrec "recording" (fc_recorder ctx) (read_bytes w)) as H1.
  assert (H2 : let l := match native_log ctx w with Some (_, path) => not_empty_bytes "session_log" (read_bytes w path) | None => [] end in
    l = [] ∨ ∃ b, l = [("session_log", b)] ∧ b ≠ "") by (destruct (native_log ctx w) as [[? path]|]; [apply Hne|by left]).
  assert (H3 : let l := match spans_to_jsonl (fc_spans ctx) with Some b => [("raw_requests", b)] | None => [] end in
    l = [] ∨ ∃ b, l = [("raw_requests", b)] ∧ b ≠ "").
  { unfold spans_to_jsonl. destruct (fc_spans ctx); [by left|]. cbv zeta. case_decide; [by left|right; by eexists]. }
  destruct H1 as [H1|(b1 & H1 & ?)], H2 as [H2|(b2 & H2 & ?)], H3 as [H3|(b3 & H3 & ?)], (t ≫= trajectory_text) as [b4|]; rewrite H1 H2 H3; cbn [app map fst];
    (split; [repeat constructor|set_solver]).
Qed.

Lemma upload_all_spec ctx l (s : Reap W) : upload_all ctx l s =
  (Ret (omap (uploaded ctx) l),
   mkReap (r_world s) (did s ++ map (λ p, DUpload (upload_request (fc_upload ctx) (fc_session_id ctx) p.1 p.2)) l)).
Proof.
  unfold upload_all. set (f := λ p, note (W := W) (DUpload _)).
  enough (Hf : forM l f s = (Ret tt, mkReap (r_world s) (did s ++ map (λ p, DUpload (upload_request (fc_upload ctx) (fc_session_id ctx) p.1 p.2)) l))).
  { unfold mbind, M_bind. by rewrite Hf. }
  revert s. induction l as [|p l IH]; intros s; [cbn; rewrite app_nil_r; by destruct s|].
  cbn [forM]. unfold mbind, M_bind. cbn [f note modify]. rewrite IH. cbn. by rewrite -app_assoc.
Qed.

End finalized.

(** ** The daemon's sessions and its end

    The map of sessions, the tasks that wait for an agent to exit, and the task
    that stops the daemon. [stop_session] and [list_sessions] are reads. *)
Record SessionRecord : Type := mkRecord { sr_summary : SessionSummary; sr_topic : string; sr_worker : nat }.

(** A reaper: the session it removes, and how far its agent and itself are. *)
Inductive ReapStage : Type := Waits | Finalizes | Removed.
Record Reaper : Type := mkReaper { rp_id : string; rp_worker : nat; rp_stage : ReapStage }.

(** [shutdown_all]: who is left to signal; a waiter that is registered, before
    and after the map is looked at, and whether it was notified. *)
Inductive Shutdown : Type :=
| Serving
| Signalling (left : list nat)
| Registered (notified : bool)
| Awaiting (notified : bool)
| Drained
| TimedOut.

Record Daemon : Type := mkDaemon {
  sessions : gmap string SessionRecord;
  reapers : list Reaper;
  closed : list string;                       (* the topics closed *)
  signalled : list nat;                       (* workers told to exit *)
  phase : Shutdown;
}.

Definition Daemon_new : Daemon := mkDaemon ∅ [] [] [] Serving.

Definition notify_waiters (p : Shutdown) : Shutdown :=
  match p with Registered _ => Registered true | Awaiting _ => Awaiting true | p => p end.

Definition list_sessions (d : Daemon) : list SessionSummary := map (λ r, sr_summary r.2) (map_to_list (sessions d)).

Definition stop_session (session_id : string) (d : Daemon) : bool * Daemon :=
  match sessions d !! session_id with
  | Some r => (true, mkDaemon (sessions d) (reapers d) (closed d) (signalled d ++ [sr_worker r]) (phase d))
  | None => (false, d)
  end.

Definition insert_session (id : string) (r : SessionRecord) (d : Daemon) : Daemon :=
  mkDaemon (<[id := r]> (sessions d)) (reapers d ++ [mkReaper id (sr_worker r) Waits]) (closed d) (signalled d) (phase d).

Definition remove_session (id : string) (d : Daemon) : Daemon :=
  let rest := delete id (sessions d) in
  mkDaemon rest (reapers d) (match sessions d !! id with Some r => closed d ++ [sr_topic r] | None => closed d end) (signalled d)
    (if decide (rest = ∅) then notify_waiters (phase d) else phase d).

Definition with_phase (p : Shutdown) (d : Daemon) : Daemon := mkDaemon (sessions d) (reapers d) (closed d) (signalled d) p.
Definition at_reaper (i : nat) (st : ReapStage) (r : Reaper) (d : Daemon) : Daemon :=
  mkDaemon (sessions d) (<[i := mkReaper (rp_id r) (rp_worker r) st]> (reapers d)) (closed d) (signalled d) (phase d).

(** [reuse]: a session is resumed while it is still there. *)
Inductive daemon_step (reuse : bool) (d : Daemon) : Daemon → Prop :=
| StepInsert id r : reuse = true ∨ sessions d !! id = None → daemon_step reuse d (insert_session id r d)
| StepExit i r : reapers d !! i = Some r → rp_stage r = Waits → daemon_step reuse d (at_reaper i Finalizes r d)
| StepReap i r : reapers d !! i = Some r → rp_stage r = Finalizes → daemon_step reuse d (remove_session (rp_id r) (at_reaper i Removed r d))
| StepStop id : daemon_step reuse d (stop_session id d).2
| StepShutdown : phase d = Serving → daemon_step reuse d (with_phase (Signalling (map (λ r, sr_worker r.2) (map_to_list (sessions d)))) d)
| StepSignal w left : phase d = Signalling (w :: left) →
    daemon_step reuse d (mkDaemon (sessions d) (reapers d) (closed d) (signalled d ++ [w]) (Signalling left))
| StepRegister : (phase d = Signalling [] ∨ phase d = Awaiting true) → daemon_step reuse d (with_phase (Registered false) d)
| StepLook b : phase d = Registered b → daemon_step reuse d (with_phase (if decide (sessions d = ∅) then Drained else Awaiting b) d)
| StepTimeout b : phase d = Awaiting b → daemon_step reuse d (with_phase TimedOut d).

(** Each reaper that has not removed its session has it in the map, and no two
    have the same. *)
Definition at_work (r : Reaper) : bool := match rp_stage r with Removed => false | _ => true end.

Definition working (l : list Reaper) : list string := map rp_id (filter (λ r, at_work r = true) l).

Definition daemon_ok (d : Daemon) : Prop :=
  NoDup (working (reapers d)) ∧ ∀ id, id ∈ working (reapers d) ↔ is_Some (sessions d !! id).

Lemma working_app l l' : working (l ++ l') = (working l ++ working l')%list.
Proof. unfold working. by rewrite filter_app map_app. Qed.

Lemma working_cons r l : working (r :: l) = if at_work r then rp_id r :: working l else working l.
Proof. unfold working. rewrite filter_cons. case_decide as E; destruct (at_work r); done. Qed.

Lemma working_split l1 r l2 : working (l1 ++ r :: l2) =
  (working l1 ++ match rp_stage r with Removed => working l2 | _ => rp_id r :: working l2 end)%list.
Proof. rewrite working_app working_cons. unfold at_work. by destruct (rp_stage r). Qed.

Lemma working_at i st r d : reapers d !! i = Some r → ∃ l1 l2, reapers d = (l1 ++ r :: l2)%list ∧
  reapers (at_reaper i st r d) = (l1 ++ mkReaper (rp_id r) (rp_worker r) st :: l2)%list.
Proof.
  intros Hr. destruct (list_elem_of_split_length _ _ _ Hr) as (l1 & l2 & Hd & Hi). exists l1, l2. split; [done|].
  cbn. rewrite Hd Hi. clear. induction l1 as [|x l1 IH]; [done|]. cbn. by rewrite IH.
Qed.

Lemma daemon_new_ok : daemon_ok Daemon_new.
Proof. split; [constructor|]. intros id. cbn. rewrite lookup_empty. split; [by intros []%elem_of_nil|by intros []]. Qed.

Lemma daemon_step_ok d d' : daemon_ok d → daemon_step false d d' → daemon_ok d'.
Proof.
  intros [Hnd Hin] Hs. destruct Hs as [id r Hf|i r Hr Hst|i r Hr Hst|id|_|w left _|_|b _|b _]; try done.
  - destruct Hf as [Hf|Hf]; [done|]. unfold daemon_ok. cbn [insert_session reapers sessions]. rewrite working_app working_cons. cbn [at_work rp_stage rp_id working filter list_filter map].
    split.
    + apply NoDup_app. split_and!; [done| |by apply NoDup_singleton].
      intros x Hx Hy. apply list_elem_of_singleton in Hy as ->. apply Hin in Hx as [? Hx]. congruence.
    + intros x. rewrite elem_of_app list_elem_of_singleton Hin. destruct (decide (id = x)) as [<-|Hne].
      * rewrite lookup_insert_eq. split; [by eexists|by right].
      * rewrite lookup_insert_ne //. split; [intros [?|?]; [done|congruence]|by left].
  - destruct (working_at i Finalizes r d Hr) as (l1 & l2 & Hd & Hd'). unfold daemon_ok in *. rewrite Hd'. cbn [at_reaper sessions].
    rewrite Hd working_split Hst in Hnd Hin. by rewrite working_split.
  - destruct (working_at i Removed r d Hr) as (l1 & l2 & Hd & Hd'). unfold daemon_ok in *. cbn [remove_session reapers sessions] in *. rewrite Hd'.
    rewrite Hd working_split Hst in Hnd Hin. rewrite working_split. cbn [rp_stage].
    apply NoDup_app in Hnd as (Hn1 & Hdis & [Hr2 Hn2]%NoDup_cons). split.
    + apply NoDup_app. split_and!; [done| |done]. intros x Hx Hx'. apply (Hdis x Hx). by right.
    + intros x. destruct (decide (rp_id r = x)) as [<-|Hne].
      * rewrite lookup_delete_eq. split; [|by intros []]. intros [Hx|Hx]%elem_of_app; [|done]. exfalso. apply (Hdis _ Hx). by left.
      * rewrite lookup_delete_ne // -Hin !elem_of_app elem_of_cons. naive_solver.
  - unfold daemon_ok, stop_session. by destruct (sessions d !! id).
Qed.

Definition waits_for_one (d : Daemon) : Prop := phase d = Awaiting false → sessions d ≠ ∅.

Lemma waits_step reuse d d' : waits_for_one d → daemon_step reuse d d' → waits_for_one d'.
Proof.
  unfold waits_for_one. intros Hw Hs. destruct Hs as [id r _|i r Hr Hst|i r Hr Hst|id|_|w left _|_|b Hb|b _]; cbn; try done.
  - intros _. apply insert_non_empty.
  - destruct (decide _) as [He|He]; [by destruct (phase d)|done].
  - unfold stop_session. by destruct (sessions d !! id).
  - by destruct (decide (sessions d = ∅)).
Qed.

(** Those left to signal are signalled before it waits. *)
Lemma signals_step reuse d d' w : (w ∈ signalled d ∨ ∃ left, phase d = Signalling left ∧ w ∈ left) → daemon_step reuse d d' →
  w ∈ signalled d' ∨ ∃ left, phase d' = Signalling left ∧ w ∈ left.
Proof.
  intros Hw Hs. destruct Hs as [id r _|i r Hr Hst|i r Hr Hst|id|Hp|x rest Hp|Hp|b Hp|b Hp]; cbn; try done.
  - destruct (decide _); [|done]. destruct Hw as [Hw|(rest & Hp & Hw)]; [by left|]. rewrite Hp. right. by exists rest.
  - unfold stop_session. destruct (sessions d !! id); [|done]. cbn. destruct Hw as [Hw|Hw]; [left; apply elem_of_app; by left|by right].
  - destruct Hw as [Hw|(? & Hq & _)]; [by left|congruence].
  - destruct Hw as [Hw|(l & Hq & Hw)]; [left; apply elem_of_app; by left|]. rewrite Hp in Hq. injection Hq as <-.
    apply elem_of_cons in Hw as [->|Hw]; [left; apply elem_of_app; right; by apply list_elem_of_singleton|right; by exists rest].
  - destruct Hw as [Hw|(l & Hq & Hw)]; [by left|]. destruct Hp as [Hp|Hp]; rewrite Hp in Hq; [injection Hq as <-|done]. by apply elem_of_nil in Hw.
  - destruct Hw as [Hw|(l & Hq & _)]; [by left|congruence].
  - destruct Hw as [Hw|(l & Hq & _)]; [by left|congruence].
Qed.

Lemma rtc_keeps {A} (R : A → A → Prop) (P : A → Prop) x y : (∀ a b, P a → R a b → P b) → P x → rtc R x y → P y.
Proof. intros Hp Hx Hr. induction Hr; eauto. Qed.

(** C15. A daemon that is stopped, as long as no session is resumed that is still
    there (one that is takes the place of the first on the map, which nothing
    then waits for, [resumed_is_lost]): every session it has when it is told is
    signalled before it waits; it waits only while a session is still to be
    reaped, so that no end that comes between its look at the map and its wait is
    missed; and when it returns without the time being over, every session ever
    started, also one started meanwhile, has been finalised and taken off the map. *)
Theorem shutdown_waits (d : Daemon) : rtc (daemon_step false) Daemon_new d →
  (phase d = Awaiting false → ∃ i r, reapers d !! i = Some r ∧ rp_stage r ≠ Removed) ∧
  (∀ d', daemon_step false d d' → phase d ≠ Drained → phase d' = Drained → ∀ r, r ∈ reapers d' → rp_stage r = Removed) ∧
  (∀ d', phase d = Serving → let workers := map (λ r, sr_worker r.2) (map_to_list (sessions d)) in
    rtc (daemon_step false) (with_phase (Signalling workers) d) d' →
    (∃ left, phase d' = Signalling left) ∨ ∀ id r, sessions d !! id = Some r → sr_worker r ∈ signalled d').
Proof.
  intros Hr. assert (daemon_ok d) as Hok by exact (rtc_keeps _ _ _ _ (daemon_step_ok) daemon_new_ok Hr).
  assert (waits_for_one d) as Hw by (refine (rtc_keeps _ _ _ _ (waits_step false) _ Hr); done). split_and!.
  - intros Hp. apply map_choose in Hw as (id & r & Hs); [|done]. destruct Hok as [_ Hin].
    assert (id ∈ working (reapers d)) as Hwk by (apply Hin; exact (mk_is_Some _ _ Hs)). unfold working in Hwk.
    apply list_elem_of_fmap in Hwk as (rp & _ & [Ha Hl]%list_elem_of_filter). apply list_elem_of_lookup in Hl as [i Hl].
    exists i, rp. split; [done|]. unfold at_work in Ha. by destruct (rp_stage rp).
  - intros d' Hs Hp Hp'. pose proof (daemon_step_ok _ _ Hok Hs) as [_ Hin].
    assert (sessions d' = ∅) as He.
    { destruct Hs as [id r _|i r ? Hst|i r ? Hst|id|Hq|x rest Hq|Hq|b Hq|b Hq]; cbn in Hp' |- *; try done.
      - destruct (decide (delete (rp_id r) (sessions d) = ∅)) as [He|He]; [exact He|]. by rewrite Hp' in Hp.
      - unfold stop_session in *. by destruct (sessions d !! id).
      - by destruct (decide (sessions d = ∅)). }
    intros r Hrp. destruct (at_work r) eqn:Ea; [|unfold at_work in Ea; by destruct (rp_stage r)]. exfalso.
    assert (rp_id r ∈ working (reapers d')) as Hwk by (apply list_elem_of_fmap; exists r; split; [done|by apply list_elem_of_filter]).
    apply Hin in Hwk as [? Hx]. rewrite He in Hx. done.
  - intros d' Hp workers Hrun. destruct (phase d') as [|rest| | | |] eqn:Hp'; [right|left; by exists rest|right..].
    all: intros id r Hs; assert (sr_worker r ∈ signalled d' ∨ ∃ left, phase d' = Signalling left ∧ sr_worker r ∈ left) as [Hx|(l & Hx & _)];
      [|done|congruence].
    all: refine (rtc_keeps _ (λ d, sr_worker r ∈ signalled d ∨ ∃ left, phase d = Signalling left ∧ sr_worker r ∈ left) _ _
        (λ a b Ha, signals_step false a b _ Ha) _ Hrun); right; exists workers; split; [done|].
    all: apply list_elem_of_fmap; exists (id, r); split; [done|by apply elem_of_map_to_list].
Qed.

(** ** Examples *)

Definition record_of (topic : string) (worker : nat) : SessionRecord := mkRecord (mkSummary "s" None "/w" ["claude"] "http://127.0.0.1:4000") topic worker.

(** One session, and the daemon waits for it. *)
Definition waiting : Daemon := mkDaemon {[ "s" := record_of "session:s" 0 ]} [mkReaper "s" 0 Waits] [] [0%nat] (Awaiting false).

Lemma waiting_reached : rtc (daemon_step false) Daemon_new waiting.
Proof.
  eapply rtc_l; [apply (StepInsert false _ "s" (record_of "session:s" 0)); by right|].
  eapply rtc_l; [by apply StepShutdown|]. eapply rtc_l; [by apply (StepSignal false _ 0%nat [])|].
  eapply rtc_l; [apply StepRegister; by left|]. eapply rtc_l; [by apply (StepLook false _ false)|]. apply rtc_refl.
Qed.

Lemma shutdown_waits_witness : (∃ i r, reapers waiting !! i = Some r ∧ rp_stage r ≠ Removed) ∧
  ∀ d', daemon_step false waiting d' → phase d' = Drained → ∀ r, r ∈ reapers d' → rp_stage r = Removed.
Proof.
  split; [exact (proj1 (shutdown_waits waiting waiting_reached) eq_refl)|].
  intros d' Hs. refine (proj1 (proj2 (shutdown_waits waiting waiting_reached)) d' Hs _). discriminate.
Defined.

(** A session resumed while it is there takes its record: the reaper of the first
    then takes the second off the map and closes its topic, and the daemon returns
    before the second is finalised. *)
Definition lost : Daemon := mkDaemon ∅ [mkReaper "s" 0 Removed; mkReaper "s" 1 Waits] ["session:s#2"] [] Drained.

Example resumed_is_lost : rtc (daemon_step true) Daemon_new lost.
Proof.
  eapply rtc_l; [apply (StepInsert true _ "s" (record_of "session:s" 0)); by left|].
  eapply rtc_l; [apply (StepInsert true _ "s" (record_of "session:s#2" 1)); by left|].
  eapply rtc_l; [by apply (StepExit true _ 0 (mkReaper "s" 0 Waits))|].
  eapply rtc_l; [by apply (StepReap true _ 0 (mkReaper "s" 0 Finalizes))|].
  eapply rtc_l; [by apply StepShutdown|]. eapply rtc_l; [apply StepRegister; by left|].
  eapply rtc_l; [by apply (StepLook true _ false)|]. apply rtc_refl.
Qed.

(** A session that starts while the daemon stops is waited for, and not told. *)
Definition untold : Daemon := mkDaemon {[ "s" := record_of "session:s" 0 ]} [mkReaper "s" 0 Waits] [] [] (Awaiting false).

Example late_session_untold : rtc (daemon_step false) Daemon_new untold.
Proof.
  eapply rtc_l; [by apply StepShutdown|]. eapply rtc_l; [apply (StepInsert false _ "s" (record_of "session:s" 0)); by right|].
  eapply rtc_l; [apply StepRegister; by left|]. eapply rtc_l; [by apply (StepLook false _ false)|]. apply rtc_refl.
Qed.

Example upload_bases : (http_base_url "localhost:4000", http_base_url "https://api.example.com/", http_base_url "HTTPS://h") =
  ("http://localhost:4000", "https://api.example.com", "http://HTTPS://h").
Proof. reflexivity. Qed.
