(* ===== verification/Bridges.v ===== *)
(** * What a session's bridges do with commands (crates/omniagent-cli/src/client/supervisor.rs)

    Each session has the broadcast of its commands received twice: by the bridge
    of its agent and by that of its reviews. The tasks of the agent are those of
    [Terminal] and [Codex]; here is what they are told. *)
From S2P Require Import Prelude Str Json Core Effect Os Tree Record Client Review Files Executor Supervisor.

(** What a receiver of the broadcast gets. *)
Inductive Recv : Type := Received (c : ServerCommand) | Lagged (n : nat) | ChannelClosed.

Inductive BridgeAct : Type :=
| SendInput (data : string)
| ResizePty (rows cols : Z)
| ShutdownWorker
| PushEvent (event : string) (payload : Value)
| StartTurn (text : string)
| InterruptTurn
| DecideReview (id : string) (decision : Review.ReviewDecision).

Definition show_changed (c : ChangedFile) : Value := obj [("path", Str (cf_path c)); ("status", Str (cf_status c))].
Definition show_diff (d : DiffResult) : Value :=
  obj (("files", Array (map show_changed (df_files d))) :: match df_diff d with Some t => [("diff", Str t)] | None => [] end).
Definition show_entry (e : DirEntry) : Value := obj [("name", Str (de_name e)); ("dir", Bool (de_dir e))].

Section bridges.
Context `{!Git} (at_ : nat → Tree) (workspace : Path).

(** The answer to a request for what is in the workspace, [None] for a command
    that is none. *)
Definition handle_workspace_request (c : ServerCommand) : option (string * Value) :=
  match c with
  | FileRequest path =>
      Some ("file_response", match read_file at_ workspace path with
        | Ok text => obj [("path", Str path); ("ok", Bool true); ("text", Str text)]
        | Err e => obj [("path", Str path); ("ok", Bool false); ("error", Str (show_fs_error e))]
        end)
  | DiffRequest path =>
      let filter := if decide (trim path = "") then None else Some path in
      Some ("diff_response", obj [("path", Str path); ("ok", Bool true); ("diff", show_diff (git_diff workspace filter))])
  | ListDir path =>
      Some ("dir_response", match list_dir at_ workspace path with
        | Ok l => obj [("path", Str path); ("ok", Bool true); ("entries", Array (map show_entry l))]
        | Err e => obj [("path", Str path); ("ok", Bool false); ("error", Str (show_fs_error e))]
        end)
  | _ => None
  end.

Definition answer (c : ServerCommand) : list BridgeAct :=
  match handle_workspace_request c with Some (event, payload) => [PushEvent event payload] | None => [] end.

(** What is done with a command, and whether the bridge goes on. *)
Definition pty_command (c : ServerCommand) : list BridgeAct * bool :=
  match c with
  | PtyInput data => ([SendInput data], true)
  | PtyResize rows cols => ([ResizePty rows cols], true)
  | Shutdown => ([ShutdownWorker], false)
  | Client.ReviewDecision _ _ | SpawnAgent _ _ _ _ _ _ _ _ _ _ _ | CreateWorkspace _ | CodexInput _ | CodexInterrupt => ([], true)
  | other => (answer other, true)
  end.

Definition codex_command (c : ServerCommand) : list BridgeAct * bool :=
  match c with
  | CodexInput text => ([StartTurn text], true)
  | CodexInterrupt => ([InterruptTurn], true)
  | Shutdown => ([ShutdownWorker], false)
  | Client.ReviewDecision _ _ | SpawnAgent _ _ _ _ _ _ _ _ _ _ _ | CreateWorkspace _ | PtyInput _ | PtyResize _ _ => ([], true)
  | other => (answer other, true)
  end.

Definition review_command (c : ServerCommand) : list BridgeAct * bool :=
  match c with
  | Client.ReviewDecision id decision => ([DecideReview id (from_server_value decision)], true)
  | _ => ([], true)
  end.

(** The loop of a bridge: a gap is skipped, a closed channel ends it. *)
Fixpoint bridge (handle : ServerCommand → list BridgeAct * bool) (l : list Recv) : list BridgeAct :=
  match l with
  | [] | ChannelClosed :: _ => []
  | Lagged _ :: l => bridge handle l
  | Received c :: l => let '(done, goes_on) := handle c in (done ++ (if goes_on then bridge handle l else []))%list
  end.

Definition spawn_command_bridge (b : Backend) : list Recv → list BridgeAct :=
  bridge (match b with PtyBackend => pty_command | CodexAppServer => codex_command end).
Definition spawn_review_decision_bridge : list Recv → list BridgeAct := bridge review_command.

(** ** Every command of a session is served once *)

(** The commands that reach a bridge before the channel ends. *)
Fixpoint heard (l : list Recv) : list ServerCommand :=
  match l with
  | [] | ChannelClosed :: _ => []
  | Lagged _ :: l => heard l
  | Received c :: l => c :: heard l
  end.

Fixpoint until_shutdown (l : list ServerCommand) : list ServerCommand :=
  match l with [] => [] | Shutdown :: _ => [Shutdown] | c :: l => c :: until_shutdown l end.

(** The one thing a command asks for, of a session with this backend. *)
Definition asks (b : Backend) (c : ServerCommand) : option BridgeAct :=
  match c, b with
  | PtyInput data, PtyBackend => Some (SendInput data)
  | PtyResize rows cols, PtyBackend => Some (ResizePty rows cols)
  | CodexInput text, CodexAppServer => Some (StartTurn text)
  | CodexInterrupt, CodexAppServer => Some InterruptTurn
  | Shutdown, _ => Some ShutdownWorker
  | Client.ReviewDecision _ _, _ | PtyInput _, _ | PtyResize _ _, _ | CodexInput _, _ | CodexInterrupt, _ | CreateWorkspace _, _
  | SpawnAgent _ _ _ _ _ _ _ _ _ _ _, _ => None
  | c, _ => match handle_workspace_request c with Some (event, payload) => Some (PushEvent event payload) | None => None end
  end.

Definition decides (c : ServerCommand) : option BridgeAct :=
  match c with Client.ReviewDecision id d => Some (DecideReview id (from_server_value d)) | _ => None end.

Lemma command_bridge_spec b l : spawn_command_bridge b l = omap (asks b) (until_shutdown (heard l)).
Proof.
  unfold spawn_command_bridge. induction l as [|[c|n|] l IH]; [done| |done|done].
  cbn [bridge heard until_shutdown]. rewrite IH. by destruct b, c.
Qed.

Lemma review_bridge_spec l : spawn_review_decision_bridge l = omap decides (heard l).
Proof.
  unfold spawn_review_decision_bridge. induction l as [|[c|n|] l IH]; [done| |done|done]. cbn [bridge heard]. rewrite IH. by destruct c.
Qed.

(** A request for what is in the workspace is answered by one message that
    repeats its path. *)
Definition request_path (c : ServerCommand) : option (string * string) :=
  match c with
  | FileRequest path => Some ("file_response", path) | DiffRequest path => Some ("diff_response", path) | ListDir path => Some ("dir_response", path)
  | _ => None
  end.

Lemma request_answered b c event path : request_path c = Some (event, path) →
  ∃ fields, asks b c = Some (PushEvent event (obj (("path", Str path) :: fields))).
Proof.
  destruct c; cbn [request_path]; try done; intros [= <- <-]; destruct b; cbn [asks handle_workspace_request].
  all: try (destruct (read_file _ _ _)); try (destruct (list_dir _ _ _)); by eexists.
Qed.
End bridges.

(** A session that is stopped serves nothing that comes later, but for decisions. *)
Example after_shutdown : let l := [Received Shutdown; Lagged 3; Received (PtyInput "x"); Received (Client.ReviewDecision "r" Null)] in
  (@spawn_command_bridge {| git _ _ := None |} (λ _, mkTree ∅ ∅ 0 0 0) [] PtyBackend l, spawn_review_decision_bridge l) =
  ([ShutdownWorker], [DecideReview "r" approve]).
Proof. reflexivity. Qed.
