(* ===== verification/Control.v ===== *)
(** * The daemon's control socket (crates/omniagent-cli/src/control.rs, daemon.rs)

    A line of JSON in, a line of JSON out: what the command line asks the daemon,
    what the daemon does with it and with the commands of the server, and what it
    tells the server of itself. The supervisor is behind an interface. *)
From S2P Require Import Prelude Str Json Core Effect Os Tree Record Client Files Workspace Config Executor Supervisor Reaper.

(** ** Messages *)

Record SpawnRequest : Type := mkSpawn {
  sq_agent : string; sq_custom_command : list string; sq_cwd : string; sq_name : option string; sq_session_id : option string;
  sq_no_review : bool; sq_review_timeout_secs : option Z; sq_proxy_port : Z; sq_app_server : bool; sq_model : option string;
  sq_workspace : option string; sq_branch : option string; sq_create_worktree : bool; sq_worktree : option string; sq_base_branch : option string;
}.

Inductive ControlRequest : Type :=
| Ping
| Spawn (r : SpawnRequest)
| List
| Stop (session_id : string)
| RefreshWorkspaces
| ServerConfig (payload : Value).

Inductive ControlResponse : Type :=
| Pong
| Spawned (s : SessionSummary)
| Sessions (l : list SessionSummary)
| Stopped (found : bool)
| WorkspacesRefreshed
| ErrorResponse (message : string).

(** *** Written

    The tag and the fields of the variant are one object. *)
Definition opt_number (o : option Z) : Value := match o with Some n => num n | None => Null end.

Definition spawn_fields (r : SpawnRequest) : list (string * Value) :=
  [("agent", Str (sq_agent r)); ("custom_command", strings (sq_custom_command r)); ("cwd", Str (sq_cwd r)); ("name", opt_text (sq_name r));
   ("session_id", opt_text (sq_session_id r)); ("no_review", Bool (sq_no_review r)); ("review_timeout_secs", opt_number (sq_review_timeout_secs r));
   ("proxy_port", num (sq_proxy_port r)); ("app_server", Bool (sq_app_server r)); ("model", opt_text (sq_model r));
   ("workspace", opt_text (sq_workspace r)); ("branch", opt_text (sq_branch r)); ("create_worktree", Bool (sq_create_worktree r));
   ("worktree", opt_text (sq_worktree r)); ("base_branch", opt_text (sq_base_branch r))].

Definition summary_fields (s : SessionSummary) : list (string * Value) :=
  [("session_id", Str (ss_session_id s)); ("name", opt_text (ss_name s)); ("cwd", Str (ss_cwd s)); ("argv", strings (ss_argv s));
   ("proxy_url", Str (ss_proxy_url s))].

Definition tagged (t : string) (fields : list (string * Value)) : Value := obj (("type", Str t) :: fields).

Definition request_value (r : ControlRequest) : Value :=
  match r with
  | Ping => tagged "ping" []
  | Spawn r => tagged "spawn" (spawn_fields r)
  | List => tagged "list" []
  | Stop id => tagged "stop" [("session_id", Str id)]
  | RefreshWorkspaces => tagged "refresh_workspaces" []
  | ServerConfig payload => tagged "server_config" [("payload", payload)]
  end.

(** A tag is put into an object: of a list serde makes an error. *)
Definition response_value (r : ControlResponse) : option Value :=
  match r with
  | Pong => Some (tagged "pong" [])
  | Spawned s => Some (tagged "spawned" (summary_fields s))
  | Sessions _ => None
  | Stopped found => Some (tagged "stopped" [("found", Bool found)])
  | WorkspacesRefreshed => Some (tagged "workspaces_refreshed" [])
  | ErrorResponse message => Some (tagged "error" [("message", Str message)])
  end.

(** *** Read

    From an object whose names are different, as each side writes it. *)
Definition read_text (v : option Value) : option string := v ≫= as_string.
Definition read_flag (v : option Value) : option bool := v ≫= as_bool.
Definition read_port (v : option Value) : option Z :=
  match v with None => Some 0%Z | Some v => n ← as_u64 v; if (n <=? u16_max)%Z then Some n else None end.
Definition read_secs (v : option Value) : option (option Z) :=
  match v with None | Some Null => Some None | Some v => Some <$> as_u64 v end.

Definition spawn_of (v : Value) : option SpawnRequest :=
  let field k := v_get k v in
  agent ← read_text (field "agent"); command ← read_list (field "custom_command"); cwd ← read_text (field "cwd");
  name ← read_option (field "name"); id ← read_option (field "session_id"); no_review ← read_bool (field "no_review");
  secs ← read_secs (field "review_timeout_secs"); port ← read_port (field "proxy_port"); app_server ← read_bool (field "app_server");
  model ← read_option (field "model"); workspace ← read_option (field "workspace"); branch ← read_option (field "branch");
  create ← read_bool (field "create_worktree"); worktree ← read_option (field "worktree"); base ← read_option (field "base_branch");
  Some (mkSpawn agent command cwd name id no_review secs port app_server model workspace branch create worktree base).

Definition summary_of (v : Value) : option SessionSummary :=
  let field k := v_get k v in
  id ← read_text (field "session_id"); name ← read_option (field "name"); cwd ← read_text (field "cwd");
  argv ← field "argv" ≫= read_strings; url ← read_text (field "proxy_url");
  Some (mkSummary id name cwd argv url).

Definition request_of (v : Value) : option ControlRequest :=
  t ← v_get "type" v ≫= as_string;
  if decide (t = "ping") then Some Ping
  else if decide (t = "spawn") then Spawn <$> spawn_of v
  else if decide (t = "list") then Some List
  else if decide (t = "stop") then Stop <$> read_text (v_get "session_id" v)
  else if decide (t = "refresh_workspaces") then Some RefreshWorkspaces
  else if decide (t = "server_config") then ServerConfig <$> v_get "payload" v
  else None.

(** [Sessions] is read from no object: its field is a list. *)
Definition control_response_of (v : Value) : option ControlResponse :=
  t ← v_get "type" v ≫= as_string;
  if decide (t = "pong") then Some Pong
  else if decide (t = "spawned") then Spawned <$> summary_of v
  else if decide (t = "stopped") then Stopped <$> read_flag (v_get "found" v)
  else if decide (t = "workspaces_refreshed") then Some WorkspacesRefreshed
  else if decide (t = "error") then ErrorResponse <$> read_text (v_get "message" v)
  else None.

(** ** The socket *)

Definition socket_path (env : string → option string) : string :=
  let base := match d ← env "XDG_RUNTIME_DIR"; if starts_with "/" d then Some d else None with
    | Some base => join_text base "omniagent"
    | None => Config.omniagent_data_dir env
    end in
  join_text base "daemon.sock".

(** What is done to bind it. *)
Inductive SocketOp : Type := MakeParent (p : string) | RemoveStale (p : string) | BindSocket (p : string).

Definition bind_listener (exists_ : string → bool) (path : string) : list SocketOp :=
  (match rsplit_once "/" path with Some (parent, _) => [MakeParent parent] | None => [] end ++
   (if exists_ path then [RemoveStale path] else []) ++ [BindSocket path])%list.

Section exchange.
Context `{!JsonText, !JsonShow} {S : Type}.

(** [read_line]: to the end of the line, or of what is sent. *)
Definition line_of (sent : string) : string := match split_once "010" sent with Some (l, _) => l ++ nl | None => sent end.

(** A connection: what is sent, what the handler does, what is answered; a
    handler that panics ends the task. *)
Definition serve_connection (handler : ControlRequest → M S string ControlResponse) (sent : option string) (s : S) : option string * S :=
  match sent with
  | None => (None, s)
  | Some sent =>
      let line := trim (line_of sent) in
      if decide (line = "") then (None, s)
      else
        let '(response, s) := match json_from_str line ≫= request_of with
          | Some request => match handler request s with (Ret r, s) => (Some r, s) | (_, s) => (None, s) end
          | None => (Some (ErrorResponse "invalid request"), s)
          end in
        ((λ v, json_to_string v ++ nl) <$> (response ≫= response_value), s)
  end.

Definition sent_of (r : ControlRequest) : string := json_to_string (request_value r) ++ nl.

Definition read_response (answer : option string) : result string ControlResponse :=
  let line := trim (line_of (default "" answer)) in
  if decide (line = "") then Err "daemon closed the connection without responding"
  else ok_or (json_from_str line ≫= control_response_of) "invalid daemon response".

Definition send_request (handler : ControlRequest → M S string ControlResponse) (r : ControlRequest) (s : S) : result string ControlResponse * S :=
  let '(answer, s) := serve_connection handler (Some (sent_of r)) s in (read_response answer, s).
End exchange.

(** ** The supervisor as the daemon uses it *)

Class SupervisorOps (S : Type) : Type := {
  sv_spawn : SessionSpec → M S string SessionSummary;
  sv_list : S → list SessionSummary;
  sv_stop : string → S → bool * S;
  sv_refresh : Value → M S string ();
  sv_create_workspace : string → M S string Path;
}.

(** Where the daemon runs, and what it says of itself. *)
Record DaemonEnv : Type := mkDaemonEnv {
  de_bind : string; de_persist_traces : bool; de_current_dir : option string; de_trace_path : string; (* of [default_trace_path] *)
  de_env : string → option string; de_hostname_cmd : option string; de_pid : Z;
}.

(** A path that is not absolute is below the directory the daemon runs in. *)
Definition path_from (current_dir : option string) (p : string) : Path :=
  if starts_with "/" p then components p else (components (default "" current_dir) ++ components p)%list.

Definition current_or_dot (current_dir : option string) : string := default "." current_dir.

Definition hostname (e : DaemonEnv) : string :=
  default "daemon" (h ← (trim <$> or_else (or_else (de_env e "HOSTNAME") (de_env e "HOST")) (trim <$> de_hostname_cmd e));
                    if decide (h = "") then None else Some h).

Definition kind_text (k : WorkspaceKind) : string := match k with Plain => "plain" | GitRepo => "git_repo" | GitWorktree => "git_worktree" end.

Section daemon.
Context {S : Type} `{!SupervisorOps S} (e : DaemonEnv).

Definition spec_of_request (r : SpawnRequest) : SessionSpec :=
  mkSpec (sq_agent r) (sq_custom_command r) (path_from (de_current_dir e) (sq_cwd r)) (sq_name r) (sq_session_id r) (de_bind e) (sq_proxy_port r)
    (sq_no_review r) (default DEFAULT_REVIEW_TIMEOUT_SECS (sq_review_timeout_secs r))
    (if de_persist_traces e then Some (de_trace_path e) else None) (sq_app_server r) (sq_model r)
    (path_from (de_current_dir e) <$> sq_workspace r) (sq_branch r) (sq_create_worktree r)
    (path_from (de_current_dir e) <$> sq_worktree r) (sq_base_branch r).

Definition spawn_session (r : SpawnRequest) : M S string ControlResponse :=
  x ← attempt (sv_spawn (spec_of_request r));
  mret (match x with Ok summary => Spawned summary | Err message => ErrorResponse message end).

Definition handle_request (metadata : S → Value) (request : ControlRequest) : M S string ControlResponse :=
  match request with
  | Ping => mret Pong
  | List => s ← get_state; mret (Sessions (sv_list s))
  | Stop id => λ s, let '(found, s) := sv_stop id s in (Ret (Stopped found), s)
  | RefreshWorkspaces =>
      s ← get_state;
      x ← attempt (sv_refresh (metadata s));
      mret (match x with Ok _ => WorkspacesRefreshed | Err message => ErrorResponse message end)
  | ServerConfig _ => mret (ErrorResponse "server_config passthrough is not implemented yet")
  | Spawn r => spawn_session r
  end.

(** What the server asks for: a session that is always reviewed, on a free port. *)
Definition spec_of_command (c : ServerCommand) : option SessionSpec :=
  match c with
  | SpawnAgent agent command cwd name app_server model workspace branch create worktree base =>
      Some (mkSpec agent command (path_from (de_current_dir e) (default (current_or_dot (de_current_dir e)) cwd)) name None (de_bind e) 0
        false DEFAULT_REVIEW_TIMEOUT_SECS (if de_persist_traces e then Some (de_trace_path e) else None) app_server model
        (path_from (de_current_dir e) <$> workspace) branch create (path_from (de_current_dir e) <$> worktree) base)
  | _ => None
  end.

(** A command of the server, each in a task of its own. *)
Definition control_command (metadata : S → Value) (c : ServerCommand) : M S string () :=
  match c with
  | CreateWorkspace name =>
      x ← attempt (F := string) (sv_create_workspace name);
      match x with
      | Ok _ => s ← get_state; ignore (E := string) (sv_refresh (metadata s))
      | Err _ => mret tt
      end
  | c => match spec_of_command c with Some spec => ignore (sv_spawn spec) | None => mret tt end
  end.
End daemon.

(** *** Metadata *)

Section metadata.
Context {W : Type} `{!GitHost W, !Configured W, !JsonText}.

Definition field (k : string) (v : option Value) : list (string * Value) := match v with Some v => [(k, v)] | None => [] end.

Definition show_worktree (wt : WorktreeEntry) : Value :=
  obj (("path", Str (display (wt_path wt))) :: field "branch" (Str <$> wt_branch wt)).

Definition show_git (g : GitInfo) : Value :=
  obj ([("toplevel", Str (display (toplevel g))); ("common_dir", Str (display (common_dir g)))] ++ field "current_branch" (Str <$> current_branch g) ++
       [("branches", strings (branches g)); ("worktrees", Array (map show_worktree (worktrees g)))])%list.

Definition show_workspace (ws : Workspace) : Value :=
  obj ([("path", Str (display (ws_path ws))); ("kind", Str (kind_text (ws_kind ws)))] ++ field "git" (show_git <$> ws_git ws))%list.

Definition advertised_workspaces (w : W) : list Value :=
  match workspace_roots (config_file w) with
  | Err _ => []
  | Ok roots => map (λ root, match detect w root with
      | Ok ws => show_workspace ws
      | Err _ => obj [("path", Str (display root)); ("kind", Str "plain")]
      end) roots
  end.

Definition control_metadata (e : DaemonEnv) (w : W) : Value :=
  obj [("hostname", Str (hostname e)); ("pid", num (de_pid e)); ("cwd", Str (default "" (de_current_dir e)));
       ("agents", strings ["claude"; "codex"; "gemini"]); ("workspaces", Array (advertised_workspaces w))].
End metadata.

(** ** What is asked is what is answered *)

Definition request_ok (r : ControlRequest) : Prop :=
  match r with
  | Spawn r => (0 ≤ sq_proxy_port r ≤ u16_max)%Z ∧ match sq_review_timeout_secs r with Some n => (0 ≤ n ≤ u64_max)%Z | None => True end
  | _ => True
  end.

#[local] Arguments read_strings : simpl never.
#[local] Arguments strings : simpl never.
#[local] Arguments opt_text : simpl never.
#[local] Arguments opt_number : simpl never.
#[local] Arguments read_option : simpl never.
#[local] Arguments read_secs : simpl never.
#[local] Arguments read_port : simpl never.

Lemma read_secs_back o : (match o with Some n => (0 ≤ n ≤ u64_max)%Z | None => True end) → read_secs (Some (opt_number o)) = Some o.
Proof. destruct o as [n|]; [|done]. intros Hn. unfold read_secs, opt_number. by rewrite (as_u64_num n Hn). Qed.

Lemma read_port_back n : (0 ≤ n ≤ u16_max)%Z → read_port (Some (num n)) = Some n.
Proof.
  intros Hn. unfold read_port. rewrite as_u64_num; [unfold u16_max, u64_max in *; lia|].
  cbn [mbind option_bind]. destruct Hn as [_ Hu]. by apply Z.leb_le in Hu as ->.
Qed.

Lemma spawn_read_back r : request_ok (Spawn r) → spawn_of (tagged "spawn" (spawn_fields r)) = Some r.
Proof.
  intros [Hport Hsecs]. unfold spawn_of. set (v := tagged "spawn" (spawn_fields r)).
  replace (v_get "agent" v) with (Some (Str (sq_agent r))) by reflexivity.
  replace (v_get "custom_command" v) with (Some (strings (sq_custom_command r))) by reflexivity.
  replace (v_get "cwd" v) with (Some (Str (sq_cwd r))) by reflexivity.
  replace (v_get "name" v) with (Some (opt_text (sq_name r))) by reflexivity.
  replace (v_get "session_id" v) with (Some (opt_text (sq_session_id r))) by reflexivity.
  replace (v_get "no_review" v) with (Some (Bool (sq_no_review r))) by reflexivity.
  replace (v_get "review_timeout_secs" v) with (Some (opt_number (sq_review_timeout_secs r))) by reflexivity.
  replace (v_get "proxy_port" v) with (Some (num (sq_proxy_port r))) by reflexivity.
  replace (v_get "app_server" v) with (Some (Bool (sq_app_server r))) by reflexivity.
  replace (v_get "model" v) with (Some (opt_text (sq_model r))) by reflexivity.
  replace (v_get "workspace" v) with (Some (opt_text (sq_workspace r))) by reflexivity.
  replace (v_get "branch" v) with (Some (opt_text (sq_branch r))) by reflexivity.
  replace (v_get "create_worktree" v) with (Some (Bool (sq_create_worktree r))) by reflexivity.
  replace (v_get "worktree" v) with (Some (opt_text (sq_worktree r))) by reflexivity.
  replace (v_get "base_branch" v) with (Some (opt_text (sq_base_branch r))) by reflexivity.
  rewrite !read_option_back (read_secs_back _ Hsecs) (read_port_back _ Hport). cbn [read_text read_list read_bool as_string mbind option_bind].
  rewrite read_strings_back. cbn [mbind option_bind]. by destruct r.
Qed.

Lemma summary_read_back s t : summary_of (tagged t (summary_fields s)) = Some s.
Proof.
  unfold summary_of. set (v := tagged t (summary_fields s)).
  replace (v_get "session_id" v) with (Some (Str (ss_session_id s))) by reflexivity.
  replace (v_get "name" v) with (Some (opt_text (ss_name s))) by reflexivity.
  replace (v_get "cwd" v) with (Some (Str (ss_cwd s))) by reflexivity.
  replace (v_get "argv" v) with (Some (strings (ss_argv s))) by reflexivity.
  replace (v_get "proxy_url" v) with (Some (Str (ss_proxy_url s))) by reflexivity.
  rewrite read_option_back. cbn [read_text as_string mbind option_bind]. rewrite read_strings_back. cbn [mbind option_bind]. by destruct s.
Qed.

Lemma request_read_back r : request_ok r → request_of (request_value r) = Some r.
Proof.
  intros Hr. destruct r as [|r| |id| |payload]; try reflexivity.
  transitivity (Spawn <$> spawn_of (tagged "spawn" (spawn_fields r))); [reflexivity|]. by rewrite spawn_read_back.
Qed.

Lemma response_read_back r : match response_value r with Some v => control_response_of v = Some r | None => ∃ l, r = Sessions l end.
Proof.
  destruct r as [|s|l|[]| |message]; cbn [response_value]; try reflexivity; [|by exists l].
  transitivity (Spawned <$> summary_of (tagged "spawned" (summary_fields s))); [reflexivity|]. by rewrite summary_read_back.
Qed.

Section answered.
Context `{!JsonText, !JsonShow} {S : Type} `{!SupervisorOps S}.

(** A value whose text is one line with nothing around it, and read back. *)
Definition travels (v : Value) : Prop :=
  let t := json_to_string v in str_forallb (not_char "010") t = true ∧ trim (t ++ nl) = t ∧ t ≠ "" ∧ json_from_str t = Some v.

Lemma travels_line v : travels v → trim (line_of (json_to_string v ++ nl)) = json_to_string v.
Proof.
  intros (Hl & Ht & _). unfold line_of. change nl with (String "010" ""). rewrite split_once_app; [done|]. exact Ht.
Qed.

(** C21. A request to the daemon that can be put in a line is the one its handler is
    given, and the answer the handler gives is the one the command line gets, each
    with all of its fields; but a list of sessions cannot be written, and nothing is
    answered then, as when the handler dies. *)
Theorem daemon_answers (handler : ControlRequest → M S string ControlResponse) (r : ControlRequest) (s : S) :
  request_ok r → travels (request_value r) → (∀ x v s', handler r s = (Ret x, s') → response_value x = Some v → travels v) →
  send_request handler r s = match handler r s with
    | (Ret (Sessions _), s') => (Err "daemon closed the connection without responding", s')
    | (Ret x, s') => (Ok x, s')
    | (_, s') => (Err "daemon closed the connection without responding", s')
    end.
Proof.
  intros Hr Hv Hx. unfold send_request, serve_connection, sent_of. rewrite (travels_line _ Hv).
  destruct Hv as (_ & _ & Hne & Hjs). rewrite decide_False // Hjs. cbn [mbind option_bind]. rewrite (request_read_back _ Hr).
  destruct (handler r s) as [[x|err|] s'] eqn:Eh; [|done|done]. cbn [mbind option_bind].
  pose proof (response_read_back x) as Hback. destruct (response_value x) as [v|] eqn:Ev; [|by destruct Hback as [l ->]].
  specialize (Hx x v s' eq_refl Ev). cbn [fmap option_fmap option_map]. unfold read_response. cbn [default].
  unfold default. rewrite (travels_line _ Hx). destruct Hx as (_ & _ & Hne' & Hjs'). rewrite decide_False // Hjs'. cbn [mbind option_bind].
  rewrite Hback. by destruct x.
Qed.
End answered.

(** ** Examples *)

(** A text for the values at hand, the ones with this tag. *)
Definition tag_of (v : Value) : string := default "" (v_get "type" v ≫= as_string).

Section example.
#[local] Instance tag_show : JsonShow := {| json_to_string := tag_of |}.
#[local] Instance tag_text : JsonText := {| json_from_str t :=
  if decide (t = "ping") then Some (request_value Ping) else if decide (t = "list") then Some (request_value List)
  else if decide (t = "pong") then response_value Pong else None |}.

(** A supervisor of no session. *)
#[local] Instance no_sessions : SupervisorOps () := {|
  sv_spawn _ := throw "no"; sv_list _ := []; sv_stop _ s := (false, s); sv_refresh _ := mret tt; sv_create_workspace _ := throw "no" |}.

Definition quiet_env : DaemonEnv := mkDaemonEnv "127.0.0.1" true (Some "/") "/t" (λ v, if decide (v = "HOSTNAME") then Some "" else None) (Some "box") 1.
Definition serving : ControlRequest → M () string ControlResponse := handle_request quiet_env (λ _, Null).

Lemma daemon_answers_witness : send_request serving Ping tt = (Ok Pong, tt).
Proof.
  refine (eq_trans (daemon_answers serving Ping tt I _ _) eq_refl).
  - unfold travels. vm_compute. split_and!; done.
  - intros x v s' [= <- <-] [= <-]. unfold travels. vm_compute. split_and!; done.
Defined.

(** The sessions a daemon hosts are never listed. *)
Example list_unanswered : send_request serving List tt = (Err "daemon closed the connection without responding", tt).
Proof. vm_compute. reflexivity. Qed.

(** An empty HOSTNAME hides the other sources. *)
Example empty_hostname : hostname quiet_env = "daemon".
Proof. reflexivity. Qed.
End example.

Example stale_socket : bind_listener (λ _, true) "/run/omniagent/daemon.sock" =
  [MakeParent "/run/omniagent"; RemoveStale "/run/omniagent/daemon.sock"; BindSocket "/run/omniagent/daemon.sock"].
Proof. reflexivity. Qed.

(** ** The supervisor behind it *)

Record Hosting (W : Type) : Type := mkHosting { h_sup : Sup W; h_daemon : Daemon }.
Arguments mkHosting {W} _ _. Arguments h_sup {W} _. Arguments h_daemon {W} _.

Section supervised.
Context {W : Type} `{!GitHost W, !Configured W, !JsonText, !Uuids, !Outside} (policy : WorkspacePolicy).
Variables (refresh : Value → result string ()) (add : Path → M W string Path).

Definition last_topic (l : list Act) : string := match last l with Some (AInsert _ topic) => topic | _ => "" end.

(** A session that starts is on the map, with its reaper. *)
Definition spawn_and_insert (spec : SessionSpec) : M (Hosting W) string SessionSummary := λ h,
  match Supervisor.spawn_session policy spec (h_sup h) with
  | (Ret (summary, _), s) =>
      let r := mkRecord summary (last_topic (acts s)) (length (reapers (h_daemon h))) in
      (Ret summary, mkHosting s (insert_session (ss_session_id summary) r (h_daemon h)))
  | (Throw e, s) => (Throw e, mkHosting s (h_daemon h))
  | (Crash, s) => (Crash, mkHosting s (h_daemon h))
  end.

#[local] Instance supervisor_ops : SupervisorOps (Hosting W) := {|
  sv_spawn := spawn_and_insert;
  sv_list h := list_sessions (h_daemon h);
  sv_stop id h := let '(found, d) := stop_session id (h_daemon h) in (found, mkHosting (h_sup h) d);
  sv_refresh m := lift_result (refresh m);
  sv_create_workspace name := zoom (λ h, world (h_sup h)) (λ w h, mkHosting (mkSup w (acts (h_sup h))) (h_daemon h)) (create_workspace add name);
|}.

(** A session asked for over the socket is one the policy permits, and it is
    listed from then on. *)
Lemma spawn_request_confined e metadata r (h : Hosting W) summary h' :
  handle_request e metadata (Spawn r) h = (Ret (Spawned summary), h') →
  (∃ ws, detect (world (h_sup h)) (spec_root (spec_of_request e r)) = Ok ws ∧ permitted policy (world (h_sup h)) (origin_of ws)) ∧
  summary ∈ sv_list h'.
Proof.
  unfold handle_request, spawn_session, attempt, mbind, M_bind, mret, M_ret. cbn [sv_spawn supervisor_ops]. unfold spawn_and_insert.
  set (spec := spec_of_request e r). unfold Supervisor.spawn_session. unfold mbind, M_bind.
  pose proof (resolve_workspace_spec policy spec (h_sup h)) as Hres.
  destruct (resolve_workspace policy spec (h_sup h)) as [[[spec1 rw]|?|] s1]; [|done|done].
  destruct Hres as (_ & _ & Hres). destruct (Hres _ eq_refl) as (ws & Hd & Hp & _).
  destruct (start_session spec1 rw s1) as [[[sum cl]|?|] s2]; [|done|done]. intros [= -> <-]. split; [by exists ws|].
  cbn. unfold list_sessions. apply list_elem_of_fmap. eexists (ss_session_id summary, mkRecord summary _ _). split; [reflexivity|].
  apply elem_of_map_to_list. apply lookup_insert_eq.
Qed.
End supervised.
