(* ===== verification/Cli.v ===== *)
(** * The command line (crates/omniagent-cli/src/main.rs, service.rs)

    Setting up, starting and removing the daemon: what is read from the terminal,
    what becomes of the configuration, and what is done on the host in which order.
    The parsing of arguments is clap's. *)
From S2P Require Import Prelude Str Json Core Effect Os Tree Config Executor Supervisor Control.

(** ** Credentials, policy, archives *)

Definition or_some {A} (o o' : option A) : option A := match o with Some _ => o | None => o' end.

Definition resolve_credentials (saved : result string (option (string * string))) (server_url token : option string) : result string (string * string) :=
  match saved with
  | Err e => Err e
  | Ok saved =>
      match or_some server_url (fst <$> saved), or_some token (snd <$> saved) with
      | None, _ => Err "missing OmniAgent control-plane URL; pass --server-url or run `omniagent login`"
      | _, None => Err "missing OmniAgent API token; pass --token or run `omniagent login`"
      | Some url, Some token => Ok (url, token)
      end
  end.

(** [session_file_name], of the time and an id. *)
Record Moment : Type := mkMoment { year : Z; month : Z; day : Z; hour : Z; minute : Z; second : Z }.

Definition pad (width : nat) (n : Z) : string := let d := show_dec n in str_concat (replicate (width - String.length d) "0") ++ d.

Definition session_file_name (now : Moment) (id : string) : string :=
  pad 4 (year now) ++ pad 2 (month now) ++ pad 2 (day now) ++ "T" ++ pad 2 (hour now) ++ pad 2 (minute now) ++ pad 2 (second now) ++ "Z-" ++
  str_take 8 id ++ ".jsonl".

Definition default_trace_path (env : string → option string) (now : Moment) (id : string) : string :=
  join_text (join_text (Config.omniagent_data_dir env) "traces") (session_file_name now id).

Definition resolve_trace_path (default_path : string) (trace_file : option string) (no_trace_file : bool) : option string :=
  if no_trace_file then None else Some (default default_path trace_file).

(** What the daemon is started with. *)
Record DaemonStart : Type := mkStart { st_server_url : string; st_token : string; st_persist_traces : bool; st_policy : WorkspacePolicy }.

Section config.
Context `{!JsonText}.

Definition run_daemon_cmd (f : option (string * Z)) (server_url token : option string) (full_access_flag : bool) (trace_path : option string)
    : result string DaemonStart :=
  match resolve_credentials (credentials f) server_url token with
  | Err e => Err e
  | Ok (url, token) =>
      match (if full_access_flag then Ok true else result_map full_access (load f)) with
      | Err e => Err e
      | Ok full => Ok (mkStart url token (match trace_path with Some _ => true | None => false end) (if full then FullAccess else Restricted))
      end
  end.
End config.

(** ** Asking the daemon *)

(** What the commands print or fail with, of the answer. *)
Definition stop_via_daemon (answer : result string ControlResponse) (session_id : string) : result string string :=
  match answer with
  | Err e => Err e
  | Ok (Stopped true) => Ok ("omniagent: stopped " ++ session_id)
  | Ok (Stopped false) => Err ("no live session " ++ session_id)
  | Ok (ErrorResponse message) => Err message
  | Ok _ => Err "unexpected response from daemon"
  end.

Definition tab : string := String "009" "".

Definition session_line (s : SessionSummary) : string :=
  ss_session_id s ++ tab ++ default "" (ss_name s) ++ tab ++ ss_cwd s ++ tab ++ ss_proxy_url s ++ tab ++ str_join " " (ss_argv s).

Definition sessions_cmd (answer : result string ControlResponse) : list string :=
  match answer with
  | Ok (Sessions l) => map session_line l
  | _ => ["omniagent: no running daemon (start one with `omniagent daemon`)"]
  end.

Definition notify_daemon_workspaces (answer : result string ControlResponse) : list string :=
  match answer with
  | Ok WorkspacesRefreshed => ["omniagent: notified running daemon"]
  | Ok (ErrorResponse message) => ["omniagent: daemon could not refresh workspaces: " ++ message]
  | _ => []
  end.

(** ** Setting up *)

(** What is left to read of the terminal, the file of the configuration and what
    was printed. *)
Record Term : Type := mkTerm { t_stdin : list string; t_file : option (string * Z); t_out : list string }.

Record SetupArgs : Type := mkSetup { su_server_url : option string; su_token : option string; su_workspaces : list string }.

Section setup.
Context `{!JsonText, !ConfigText} (umask : Z) (canonical : string → option Path) (current_dir : option string).
Notation TM := (M Term string).

Definition print (s : string) : TM () := modify (λ t, mkTerm (t_stdin t) (t_file t) (t_out t ++ [s])).

(** [read_line]: nothing at the end of the input. *)
Definition read_input : TM (option string) := λ t,
  match t_stdin t with [] => (Ret None, t) | l :: rest => (Ret (Some l), mkTerm rest (t_file t) (t_out t)) end.

Definition on_file {A} (f : option (string * Z) → result string (A * list FileOp)) : TM A := λ t,
  match f (t_file t) with
  | Ok (x, ops) => (Ret x, mkTerm (t_stdin t) (apply_ops umask ops (t_file t)) (t_out t))
  | Err e => (Throw e, t)
  end.

Definition login (server_url token : string) : TM () :=
  on_file (λ f, result_map (pair tt) (set_credentials server_url token f)) ;; print ("omniagent: saved credentials for " ++ server_url).

Definition ask_line (prompt : string) : TM string := print prompt ;; l ← read_input; mret (trim (default "" l)).

(** The first entry defaults to the current directory. *)
Fixpoint prompt_workspaces_from (fuel : nat) (first : bool) : TM (list string) :=
  match fuel with
  | O => mret []
  | S fuel =>
      let cwd := default "." current_dir in
      print (if first then "Workspace directory [" ++ cwd ++ "]: " else "Workspace directory (blank to finish): ") ;;
      l ← read_input;
      match l with
      | None => mret []
      | Some l =>
          let trimmed := trim l in
          if decide (trimmed = "")
          then (if first then rest ← prompt_workspaces_from fuel false; mret (cwd :: rest) else mret [])
          else (rest ← prompt_workspaces_from fuel false; mret (trimmed :: rest))
      end
  end.

Definition prompt_workspaces : TM (list string) := λ t,
  (print "Allow workspaces the daemon may run agents under (blank line to finish):" ;;
   prompt_workspaces_from (S (length (t_stdin t))) true) t.

Definition allow_workspace (ws : string) : TM () :=
  x ← attempt (on_file (add_workspace (canonical ws)));
  print (match x with Ok p => "omniagent: allowed workspace " ++ display p | Err e => "omniagent: skipped " ++ ws ++ ": " ++ e end).

Definition confirm (prompt : string) : TM bool :=
  l ← ask_line (prompt ++ " [y/N] "); mret (bool_decide (to_ascii_lowercase l ∈ ["y"; "yes"])).

(** [install]: what [service::install(false)] comes to. *)
Definition offer_service_install (install : result string ()) : TM () :=
  yes ← confirm "Install omniagent as a background service so it starts automatically?";
  if (yes : bool) then match install with Ok _ => mret tt | Err e => print ("omniagent: could not install service: " ++ e) end else mret tt.

Definition ask_url (saved : option (string * string)) (arg : option string) (interactive : bool) : TM string :=
  match arg with
  | Some url => mret url
  | None =>
      if interactive
      then let shown := default "http://127.0.0.1:4000" (fst <$> saved) in
           l ← ask_line ("Control-plane URL [" ++ shown ++ "]: "); mret (if decide (l = "") then shown else l)
      else throw "missing OmniAgent control-plane URL; pass --server-url (no terminal for prompts)"
  end.

Definition ask_token (saved : option (string * string)) (arg : option string) (interactive : bool) : TM string :=
  match arg with
  | Some token => mret token
  | None =>
      if interactive
      then print "Note: the API token is read visibly (it is stored 0600 in the config)." ;;
           l ← ask_line ("API token" ++ match saved with Some _ => " [keep current]" | None => "" end ++ ": ");
           if decide (l = "") then lift_result (ok_or (snd <$> saved) "an API token is required") else mret l
      else throw "missing OmniAgent API token; pass --token (no terminal for prompts)"
  end.

Definition ask_credentials (args : SetupArgs) (interactive : bool) : TM (string * string) :=
  t ← get_state;
  saved ← lift_result (credentials (t_file t));
  url ← ask_url saved (su_server_url args) interactive;
  token ← ask_token saved (su_token args) interactive;
  mret (url, token).

Definition allow_workspaces (args : SetupArgs) (interactive : bool) (install : result string ()) : TM () :=
  workspaces ← (if (match su_workspaces args with [] => interactive | _ => false end) then prompt_workspaces else mret (su_workspaces args));
  forM workspaces allow_workspace ;;
  t ← get_state;
  l ← lift_result (list_workspaces (t_file t));
  (if decide (l = []) then print "omniagent: no workspaces allowed yet — add one with `omniagent workspaces add <dir>`" else mret tt) ;;
  print "omniagent: setup complete — start the daemon with `omniagent daemon`" ;;
  if interactive then offer_service_install install else mret tt.

(** [workspaces]; [answer] is that of the daemon, where it is notified. *)
Inductive WorkspacesCommand : Type := WorkspacesAdd (path : string) | WorkspacesRemove (path : string) | WorkspacesList.

Definition workspaces (answer : result string ControlResponse) (c : WorkspacesCommand) : TM () :=
  match c with
  | WorkspacesAdd path =>
      p ← on_file (add_workspace (canonical path));
      print ("omniagent: allowed workspace " ++ display p) ;;
      forM (notify_daemon_workspaces answer) print
  | WorkspacesRemove path =>
      removed ← on_file (remove_workspace (canonical path) path);
      if (removed : bool)
      then print ("omniagent: removed workspace " ++ path) ;; forM (notify_daemon_workspaces answer) print
      else print ("omniagent: no matching workspace " ++ path)
  | WorkspacesList =>
      t ← get_state;
      l ← lift_result (list_workspaces (t_file t));
      forM l print
  end.

Definition setup (args : SetupArgs) (interactive : bool) (install : result string ()) : TM () :=
  '(url, token) ← ask_credentials args interactive;
  login url token ;;
  allow_workspaces args interactive install.

(** *** What is saved *)

Definition keeps_credentials (t t' : Term) : Prop := ∀ cr, credentials (t_file t) = Ok (Some cr) → credentials (t_file t') = Ok (Some cr).

#[local] Instance keeps_preorder : PreOrder keeps_credentials.
Proof. split; [by intros t cr|]. intros a b c Hab Hbc cr Hcr. by apply Hbc, Hab. Qed.

Lemma keeps_same {A} (m : TM A) : (∀ t, t_file (m t).2 = t_file t) → steps keeps_credentials m.
Proof. intros Hm t cr. by rewrite Hm. Qed.

Lemma ask_line_file prompt t : t_file (ask_line prompt t).2 = t_file t.
Proof. unfold ask_line, print, read_input, mbind, M_bind. cbn. by destruct (t_stdin t). Qed.

Lemma ask_line_returns prompt t : ∃ l t', ask_line prompt t = (Ret l, t') ∧ t_file t' = t_file t.
Proof. unfold ask_line, print, read_input, mbind, M_bind. cbn. destruct (t_stdin t); by eexists _, _. Qed.

Lemma keeps_allow ws : steps keeps_credentials (allow_workspace ws).
Proof.
  apply steps_bind; [apply _| |by intros; apply keeps_same]. apply steps_attempt; [apply _|].
  intros t [url tok]. unfold on_file, add_workspace. destruct (canonical ws) as [p|]; [|done].
  unfold credentials. destruct (load (t_file t)) as [c|e] eqn:El; [|by rewrite El]. cbn [result_map]. intros [= Hcr].
  destruct (decide (display p ∈ allowed_workspaces c)); cbn [t_file snd].
  - cbn. rewrite El. cbn. by rewrite Hcr.
  - match goal with |- context [save ?c'] => destruct (load_save umask c' (t_file t)) as (mode & -> & _ & ->) end.
    cbn. by rewrite Hcr.
Qed.

Lemma keeps_prompts fuel first : steps keeps_credentials (prompt_workspaces_from fuel first).
Proof.
  apply keeps_same. revert first. induction fuel as [|fuel IH]; intros first t; [done|].
  cbn [prompt_workspaces_from]. unfold print, read_input, mbind, M_bind, modify. cbn [t_stdin].
  destruct (t_stdin t) as [|l rest]; [done|].
  destruct (decide _); [destruct first|]; [|done|].
  all: match goal with |- context [prompt_workspaces_from ?n false ?x] => specialize (IH false x); destruct (prompt_workspaces_from n false x) as [[]] end; exact IH.
Qed.

Lemma keeps_allow_all args interactive install : steps keeps_credentials (allow_workspaces args interactive install).
Proof.
  repeat (apply steps_bind; [apply _| |intros]).
  - destruct (match su_workspaces args with [] => interactive | _ => false end); [|by apply keeps_same].
    intros t cr Hcr. unfold prompt_workspaces. unfold mbind at 1, M_bind at 1. cbn [print modify]. by apply (keeps_prompts _ _ _ cr).
  - apply steps_forM; [apply _|]. apply keeps_allow.
  - by apply keeps_same.
  - apply steps_lift. apply _.
  - destruct (decide _); by apply keeps_same.
  - by apply keeps_same.
  - destruct interactive; [|by apply keeps_same]. apply keeps_same. intros t.
    unfold offer_service_install, confirm. pose proof (ask_line_file ("Install omniagent as a background service so it starts automatically?" ++ " [y/N] ") t) as Ha.
    unfold mbind, M_bind. destruct (ask_line _ t) as [[l|?|] t1]; [|done..]. cbn [mret M_ret].
    destruct (bool_decide _); [|done]. by destruct install.
Qed.

Lemma ask_url_spec saved arg interactive t url t' : ask_url saved arg interactive t = (Ret url, t') →
  t_file t' = t_file t ∧ ∀ u, arg = Some u → url = u.
Proof.
  unfold ask_url. destruct arg as [u|]; [by intros [= -> <-]; split; [|intros ? [= ->]]|]. destruct interactive; [|done].
  cbv zeta. unfold mbind, M_bind. destruct (ask_line_returns ("Control-plane URL [" ++ default "http://127.0.0.1:4000" (fst <$> saved) ++ "]: ") t) as (l & t1 & -> & Hf).
  by intros [= <- <-].
Qed.

Lemma ask_token_spec saved arg interactive t token t' : ask_token saved arg interactive t = (Ret token, t') →
  t_file t' = t_file t ∧ ∀ k, arg = Some k → token = k.
Proof.
  unfold ask_token. destruct arg as [k|]; [by intros [= -> <-]; split; [|intros ? [= ->]]|]. destruct interactive; [|done].
  unfold mbind, M_bind, print, modify.
  match goal with |- context [ask_line ?p ?x] => destruct (ask_line_returns p x) as (l & t1 & -> & Hf) end.
  destruct (decide (l = "")); [destruct saved as [cr|]; [|done]|]; by intros [= <- <-].
Qed.

(** What is saved of a setup that ends well: what was given, where it was given,
    and credentials are there whatever directories were refused. *)
Lemma setup_saves args interactive install t t' : setup args interactive install t = (Ret tt, t') →
  ∃ url token, credentials (t_file t') = Ok (Some (url, token)) ∧
    (∀ u, su_server_url args = Some u → url = u) ∧ (∀ k, su_token args = Some k → token = k).
Proof.
  unfold setup, ask_credentials, get_state, lift_result. unfold mbind, M_bind.
  destruct (credentials (t_file t)) as [saved|] eqn:Ec; [|done].
  destruct (ask_url _ _ _ t) as [[url|?|] t1] eqn:Eu; [|done..]. apply ask_url_spec in Eu as [Hf1 Hu].
  destruct (ask_token _ _ _ t1) as [[token|?|] t2] eqn:Ek; [|done..]. apply ask_token_spec in Ek as [Hf2 Hk].
  cbn [mret M_ret]. unfold login, on_file, mbind, M_bind, set_credentials. cbn [mret M_ret fst snd].
  assert (Hload : ∃ c, load (t_file t2) = Ok c).
  { rewrite Hf2 Hf1. unfold credentials in Ec. destruct (load (t_file t)) as [c|]; [by exists c|done]. }
  destruct Hload as [c Hc]. rewrite Hc. cbn [result_map print modify t_stdin t_file t_out].
  intros Hrun. exists url, token. split; [|done].
  match type of Hrun with allow_workspaces _ _ _ ?x = _ => pose proof (keeps_allow_all args interactive install x (url, token)) as Hkeep end.
  rewrite Hrun in Hkeep. apply Hkeep. cbn [t_file].
  destruct (load_save umask (with_credentials url token c) (t_file t2)) as (mode & Ha & _ & Hl). unfold credentials.
  rewrite Ha Hl. done.
Qed.

(** *** The list of workspaces *)

Lemma prints_all l t : forM l print t = (Ret tt, mkTerm (t_stdin t) (t_file t) (t_out t ++ l)%list).
Proof.
  revert t. induction l as [|x l IH]; intros [i f o]; [by rewrite app_nil_r|].
  cbn [forM]. unfold mbind, M_bind, print, modify. cbn [t_stdin t_file t_out]. rewrite IH. cbn. by rewrite -app_assoc.
Qed.

(** The list is what the file holds; an addition that ends well leaves the rest
    and has the directory on it, a removal leaves the rest and has it not, whether
    or not there was one; nothing else of the terminal is used, and a daemon that
    does not answer is no error. *)
Theorem workspaces_listed (answer : result string ControlResponse) (t t' : Term) (c : WorkspacesCommand) :
  workspaces answer c t = (Ret tt, t') → ∃ l l', list_workspaces (t_file t) = Ok l ∧ list_workspaces (t_file t') = Ok l' ∧
  t_stdin t' = t_stdin t ∧
  match c with
  | WorkspacesAdd path => ∃ p, canonical path = Some p ∧ ∀ e, e ∈ l' ↔ e = display p ∨ e ∈ l
  | WorkspacesRemove path => let target := match canonical path with Some p => display p | None => path end in
      ∀ e, e ∈ l' ↔ e ≠ target ∧ e ∈ l
  | WorkspacesList => l' = l ∧ t_out t' = (t_out t ++ l)%list
  end.
Proof.
  assert (Hload : ∀ A (g : Config → A) x, result_map g (load (t_file t)) = Ok x → ∃ c, load (t_file t) = Ok c).
  { intros A g x. destruct (load (t_file t)) as [c0|]; [by exists c0|done]. }
  destruct c as [path|path|]; unfold workspaces; unfold mbind at 1, M_bind at 1; [unfold on_file..|].
  - destruct (canonical path) as [p|]; [|done]. destruct (add_workspace (Some p) (t_file t)) as [[p' ops]|] eqn:Ea; [|done].
    destruct (Hload _ _ _ Ea) as [c Hl]. destruct (add_workspace_spec umask (t_file t) c p Hl) as (ops' & c' & Ea' & Hl' & _ & Hin & _).
    rewrite Ea in Ea'. injection Ea' as -> ->. unfold mbind, M_bind, print at 1, modify. rewrite prints_all. cbn [t_stdin t_file t_out].
    intros [= <-]. exists (allowed_workspaces c), (allowed_workspaces c'). unfold list_workspaces. cbn [t_file t_stdin]. rewrite Hl Hl'.
    split_and!; try done. by exists p.
  - destruct (remove_workspace (canonical path) path (t_file t)) as [[removed ops]|] eqn:Ea; [|done].
    destruct (Hload _ _ _ Ea) as [c Hl]. destruct (remove_workspace_spec umask (t_file t) c (canonical path) path Hl) as (r & ops' & c' & Ea' & Hl' & _ & _ & Hin).
    rewrite Ea in Ea'. injection Ea' as -> ->.
    assert (Hrun : ∀ lines, t' = mkTerm (t_stdin t) (apply_ops umask ops' (t_file t)) lines → ∃ l l', list_workspaces (t_file t) = Ok l ∧
      list_workspaces (t_file t') = Ok l' ∧ t_stdin t' = t_stdin t ∧ ∀ e, e ∈ l' ↔ e ≠ match canonical path with Some p => display p | None => path end ∧ e ∈ l).
    { intros lines ->. exists (allowed_workspaces c), (allowed_workspaces c'). unfold list_workspaces. cbn [t_file t_stdin]. by rewrite Hl Hl'. }
    destruct r; unfold mbind, M_bind, print, modify; cbn [t_stdin t_file t_out]; [fold print|by intros [= <-]; eapply Hrun].
    rewrite prints_all. intros [= <-]. by eapply Hrun.
  - unfold get_state, lift_result. unfold mbind, M_bind. destruct (list_workspaces (t_file t)) as [l|] eqn:Hl; [|done].
    rewrite prints_all. intros [= <-]. exists l, l. by rewrite Hl.
Qed.
End setup.

(** ** The service (service.rs, systemd) *)

Definition SERVICE_NAME : string := "omniagent.service".

Definition systemd_user_dir (env : string → option string) : string :=
  let parent := match rsplit_once "/" (omniagent_config_dir env) with Some (p, _) => p | None => "." end in
  join_text (join_text parent "systemd") "user".

Definition unit_path (env : string → option string) : string := join_text (systemd_user_dir env) SERVICE_NAME.

Definition exec_start (bin : string) (full_access : bool) : string := if full_access then bin ++ " daemon --full-access" else bin ++ " daemon".

Definition unit_lines (exec : string) : list string :=
  ["[Unit]"; "Description=OmniAgent daemon"; "After=network-online.target"; "Wants=network-online.target"; "";
   "[Service]"; "Type=simple"; "ExecStart=" ++ exec; "Restart=on-failure"; "RestartSec=5"; "";
   "[Install]"; "WantedBy=default.target"].

Definition unit_text (exec : string) : string := str_concat (map (λ l, l ++ nl) (unit_lines exec)).

Inductive HostAct : Type :=
| HMakeDir (path : string)
| HWrite (path body : string)                 (* its directory is made *)
| HRun (cmd : string) (args : list string)
| HAsk (prompt : string)
| HPing
| HRemoveTree (path : string)
| HRemoveFile (path : string).

(** What the host answers, and [Ok] where nothing is there to be removed. *)
Record HostAnswers : Type := mkAnswers {
  wrote : string → result string (); ran : list string → result string (); removed : string → result string ();
  confirmed : result string bool; ping : result string ControlResponse;
}.

Notation HM := (M (list HostAct) string).
Definition does {A} (a : HostAct) (r : result string A) : HM A := λ l, (match r with Ok x => Ret x | Err e => Throw e end, (l ++ [a])%list).
Definition does_anyway {A} (a : HostAct) (r : result string A) : HM () := λ l, (Ret tt, (l ++ [a])%list).

Section host.
Variables (env : string → option string) (h : HostAnswers).

Definition run_cmd (args : list string) : HM () := does (HRun "systemctl" args) (ran h args).

Definition install (bin : string) (full_access : bool) : HM () :=
  let path := unit_path env in
  does (HWrite path (unit_text (exec_start bin full_access))) (wrote h path) ;;
  run_cmd ["--user"; "daemon-reload"] ;;
  run_cmd ["--user"; "enable"; "--now"; SERVICE_NAME].

Definition uninstall_service : HM () :=
  let path := unit_path env in
  does_anyway (HRun "systemctl" ["--user"; "disable"; "--now"; SERVICE_NAME]) (ran h []) ;;
  does (HRemoveFile path) (removed h path) ;;
  does_anyway (HRun "systemctl" ["--user"; "daemon-reload"]) (ran h []).

Definition keeps_going {A} (m : HM A) : HM () := attempt (F := string) m ;; mret tt.

Definition remove_data : HM () :=
  does (HRemoveTree (omniagent_config_dir env)) (removed h (omniagent_config_dir env)) ;;
  does (HRemoveTree (Config.omniagent_data_dir env)) (removed h (Config.omniagent_data_dir env)) ;;
  does (HRemoveFile (socket_path env)) (removed h (socket_path env)).

(** Once it is confirmed. *)
Definition uninstall_confirmed (keep_data : bool) (binary : string) : HM () :=
  keeps_going uninstall_service ;;
  does_anyway HPing (ping h) ;;
  match ping h with
  | Ok Pong => throw "an omniagent daemon is still running; stop it (and its sessions) before uninstalling"
  | _ =>
      (if keep_data then mret tt else remove_data) ;;
      does_anyway (HRemoveFile binary) (removed h binary)
  end.

Definition uninstall (keep_data yes : bool) (binary : result string string) : HM () :=
  binary ← lift_result binary;
  go ← (if yes then mret true else does (HAsk "Proceed?") (confirmed h));
  if negb go then mret tt else uninstall_confirmed keep_data binary.

(** *** What is removed *)

Definition removes (a : HostAct) : option string := match a with HRemoveTree p | HRemoveFile p => Some p | _ => None end.
Definition removes_all (l : list HostAct) : list string := omap removes l.

Lemma does_run {A B} a (r : result string A) (k : A → HM B) l :
  (does a r ≫= k) l = match r with Ok x => k x (l ++ [a])%list | Err e => (Throw e, (l ++ [a])%list) end.
Proof. unfold does, mbind, M_bind. by destruct r. Qed.

Lemma service_removes l : ∃ new, (keeps_going uninstall_service l) = (Ret tt, (l ++ new)%list) ∧ removes_all new = [unit_path env].
Proof.
  unfold keeps_going, attempt, uninstall_service, does, does_anyway, mbind, M_bind, mret, M_ret. cbn.
  destruct (removed h (unit_path env)); cbn; eexists; rewrite -!app_assoc; (split; [reflexivity|done]).
Qed.

Lemma data_removes l : ∃ new, (remove_data l).2 = (l ++ new)%list ∧
  removes_all new `prefix_of` [omniagent_config_dir env; Config.omniagent_data_dir env; socket_path env] ∧
  ((remove_data l).1 = Ret tt → removes_all new = [omniagent_config_dir env; Config.omniagent_data_dir env; socket_path env]).
Proof.
  unfold remove_data. rewrite does_run. destruct (removed h (omniagent_config_dir env)).
  2: { eexists. split; [reflexivity|]. split; [by eexists|done]. }
  rewrite does_run. destruct (removed h (Config.omniagent_data_dir env)).
  2: { eexists. rewrite -app_assoc. split; [reflexivity|]. split; [by eexists|done]. }
  eexists. cbn. rewrite -!app_assoc. split; [reflexivity|]. split; [by exists []|done].
Qed.

Definition to_remove (keep_data : bool) (binary : string) : list string :=
  unit_path env :: ((if keep_data then [] else [omniagent_config_dir env; Config.omniagent_data_dir env; socket_path env]) ++ [binary])%list.

Lemma removes_app l l' : removes_all (l ++ l') = (removes_all l ++ removes_all l')%list.
Proof. apply omap_app. Qed.

Lemma finish_removes (keep_data : bool) (binary : string) (l : list HostAct) : removes_all l = [unit_path env] →
  let m : HM () := ((if keep_data then mret tt else remove_data) ;; does_anyway (HRemoveFile binary) (removed h binary)) in
  removes_all (m l).2 `prefix_of` to_remove keep_data binary ∧ ((m l).1 = Ret tt → removes_all (m l).2 = to_remove keep_data binary).
Proof.
  intros Hl m. unfold m, to_remove, mbind, M_bind. destruct keep_data.
  - unfold mret, M_ret. cbn [does_anyway fst snd]. rewrite removes_app Hl. split; [by exists []|done].
  - destruct (data_removes l) as (new & Hm & [k Hk] & Hall). destruct (remove_data l) as [[[]|?|] l']; cbn [fst snd] in Hm, Hall; subst l'.
    + cbn [does_anyway fst snd]. rewrite !removes_app Hl (Hall eq_refl). split; [by exists []|done].
    + cbn [fst snd]. rewrite removes_app Hl Hk. split; [|done]. exists (k ++ [binary])%list. cbn. by rewrite -app_assoc.
    + cbn [fst snd]. rewrite removes_app Hl Hk. split; [|done]. exists (k ++ [binary])%list. cbn. by rewrite -app_assoc.
Qed.

Lemma go_removes (keep_data : bool) (binary : string) (l : list HostAct) : removes_all l = [] →
  let m := uninstall_confirmed keep_data binary in
  removes_all (m l).2 `prefix_of` to_remove keep_data binary ∧
  (ping h = Ok Pong → removes_all (m l).2 `prefix_of` [unit_path env]) ∧
  ((m l).1 = Ret tt → removes_all (m l).2 = to_remove keep_data binary).
Proof.
  intros Hl m. destruct (service_removes l) as (new & Hserv & Hnew).
  assert (Hs : removes_all ((l ++ new) ++ [HPing]) = [unit_path env]) by (rewrite !removes_app Hl Hnew; done).
  assert (Hm : m l = (match ping h with
    | Ok Pong => throw "an omniagent daemon is still running; stop it (and its sessions) before uninstalling"
    | _ => (if keep_data then mret tt else remove_data) ;; does_anyway (HRemoveFile binary) (removed h binary)
    end : HM ()) ((l ++ new) ++ [HPing])%list).
  { unfold m, uninstall_confirmed. unfold mbind at 1, M_bind at 1. by rewrite Hserv. }
  rewrite Hm. destruct (finish_removes keep_data binary _ Hs) as [Hpre Hall].
  destruct (ping h) as [[]|]; cbn [throw]; [|by split; [exact Hpre|split; [discriminate|exact Hall]]..].
  cbn [fst snd]. rewrite Hs. split_and!; [by eexists|done|done].
Qed.

(** Uninstalling: nothing is removed that was not confirmed; nothing but the
    service while a daemon answers; the service goes first, then the configuration,
    the data and the socket unless they are kept, and the program last, after all
    of them are gone; and it ends well only when declined or when it went through. *)
Theorem uninstall_guarded (keep_data yes : bool) (binary : string) : let '(o, l) := uninstall keep_data yes (Ok binary) [] in
  removes_all l `prefix_of` to_remove keep_data binary ∧
  (removes_all l ≠ [] → yes = true ∨ confirmed h = Ok true) ∧
  (ping h = Ok Pong → removes_all l `prefix_of` [unit_path env]) ∧
  (o = Ret tt → removes_all l = [] ∧ yes = false ∧ confirmed h = Ok false ∨ removes_all l = to_remove keep_data binary).
Proof.
  unfold uninstall. unfold mbind at 1, M_bind at 1. cbn [lift_result]. unfold mbind at 1, M_bind at 1. destruct yes.
  - cbn [mret M_ret negb]. destruct (go_removes keep_data binary [] eq_refl) as (Hpre & Hping & Hall).
    destruct (uninstall_confirmed keep_data binary []) as [o l]. cbn [fst snd] in *. split_and!; [done|by left|done|]. intros Ho. right. by apply Hall.
  - cbn [does]. destruct (confirmed h) as [go|e] eqn:Ec; [|split_and!; [by eexists|done|by eexists|done]].
    destruct go; cbn [negb].
    + destruct (go_removes keep_data binary [HAsk "Proceed?"] eq_refl) as (Hpre & Hping & Hall). cbn [app].
      destruct (uninstall_confirmed keep_data binary [HAsk "Proceed?"]) as [o l]. cbn [fst snd] in *. split_and!; [done|by right|done|]. intros Ho. right. by apply Hall.
    + cbn. split_and!; [by eexists|done|by eexists|]. by left.
Qed.
End host.

(** ** Examples *)

Example file_name : session_file_name (mkMoment 2026 6 8 1 2 3) "0123456789abcdef" = "20260608T010203Z-01234567.jsonl".
Proof. reflexivity. Qed.

(** Of a file that is named for the archive only that there is one is used. *)
Example trace_file_ignored `{!JsonText} f url token full :
  run_daemon_cmd f url token full (resolve_trace_path "/default" (Some "/a") false) =
  run_daemon_cmd f url token full (resolve_trace_path "/default" None false).
Proof. reflexivity. Qed.

(** The program's path is not quoted: a blank in it ends the command. *)
Example blank_in_path : unit_lines (exec_start "/home/a b/omniagent" true) !! 7%nat = Some "ExecStart=/home/a b/omniagent daemon --full-access".
Proof. reflexivity. Qed.

Example unread_answer : sessions_cmd (Err "daemon closed the connection without responding") =
  ["omniagent: no running daemon (start one with `omniagent daemon`)"].
Proof. reflexivity. Qed.

Section example.
#[local] Instance no_json : JsonText := {| json_from_str _ := None |}.

Example credentials_missing : resolve_credentials (credentials None) (Some "http://h") None =
  Err "missing OmniAgent API token; pass --token or run `omniagent login`".
Proof. reflexivity. Qed.

(** A blank first line is the directory one is in; the end of the input ends the list. *)
Example prompted : (prompt_workspaces (Some "/here") (mkTerm [nl; " /w " ++ nl] None [])).1 = Ret ["/here"; "/w"].
Proof. vm_compute. reflexivity. Qed.
End example.
