(* ===== verification/Launchd.v ===== *)
(** * The service on macOS (crates/omniagent-cli/src/service.rs)

    launchd in the place of systemd: the property list, where it lies, how it is
    loaded and removed; and what there is of it on other platforms. *)
From S2P Require Import Prelude Str Json Core Effect Os Config Control Cli.

Definition SERVICE_LABEL : string := "dev.omniagent.daemon".

Definition launch_agents_dir (env : string → option string) : option string :=
  match env "HOME" with
  | None | Some "" => None
  | Some home => Some (join_text (join_text home "Library") "LaunchAgents")
  end.

Definition plist_in (dir : string) : string := join_text dir (SERVICE_LABEL ++ ".plist").

(** [unit_path] here. *)
Definition launchd_unit_path (env : string → option string) : option string := plist_in <$> launch_agents_dir env.

Definition string_tag (s : string) : string := "<string>" ++ s ++ "</string>".

Definition program_args (bin : string) (full_access : bool) : list string :=
  map (λ s, "    " ++ string_tag s) (bin :: "daemon" :: if full_access then ["--full-access"] else []).

Definition plist_head : list string :=
  ["<?xml version=" ++ dquote ++ "1.0" ++ dquote ++ " encoding=" ++ dquote ++ "UTF-8" ++ dquote ++ "?>";
   "<!DOCTYPE plist PUBLIC " ++ dquote ++ "-//Apple//DTD PLIST 1.0//EN" ++ dquote ++ " " ++ dquote ++
     "http://www.apple.com/DTDs/PropertyList-1.0.dtd" ++ dquote ++ ">";
   "<plist version=" ++ dquote ++ "1.0" ++ dquote ++ ">"; "<dict>";
   "  <key>Label</key>"; "  " ++ string_tag SERVICE_LABEL; "  <key>ProgramArguments</key>"; "  <array>"].

Definition plist_tail (out err : string) : list string :=
  ["  </array>"; "  <key>RunAtLoad</key>"; "  <true/>"; "  <key>KeepAlive</key>"; "  <true/>";
   "  <key>StandardOutPath</key>"; "  " ++ string_tag out; "  <key>StandardErrorPath</key>"; "  " ++ string_tag err;
   "</dict>"; "</plist>"].

Definition plist_lines (bin : string) (full_access : bool) (out err : string) : list string :=
  app plist_head (app (program_args bin full_access) (plist_tail out err)).

Definition plist_text (lines : list string) : string := str_concat (map (λ l, l ++ nl) lines).

Section host.
Variables (env : string → option string) (h : HostAnswers) (uid : Z).
Notation HM := (M (list HostAct) string).

Definition domain : string := "gui/" ++ show_dec uid.

Definition launchctl (args : list string) : HM () := does (HRun "launchctl" args) (ran h args).

Definition no_home : string := "cannot determine $HOME for LaunchAgents directory".

(** The registration that may be there goes, then the new one is loaded, in the
    older way where the newer fails. *)
Definition launchd_load (path : string) : HM () :=
  does_anyway (HRun "launchctl" ["bootout"; domain; path]) (ran h ["bootout"; domain; path]) ;;
  r ← attempt (F := string) (launchctl ["bootstrap"; domain; path]);
  match r with Ok _ => mret tt | Err _ => launchctl ["load"; "-w"; path] end.

Definition launchd_install (bin : string) (full_access : bool) : HM () :=
  let data_dir := Config.omniagent_data_dir env in
  let plist := plist_text (plist_lines bin full_access (join_text data_dir "daemon.log") (join_text data_dir "daemon.err.log")) in
  does (HMakeDir data_dir) (wrote h data_dir) ;;
  dir ← lift_result (ok_or (launch_agents_dir env) no_home);
  does (HWrite (plist_in dir) plist) (wrote h (plist_in dir)) ;;
  launchd_load (plist_in dir).

Definition launchd_uninstall : HM () :=
  dir ← lift_result (ok_or (launch_agents_dir env) no_home);
  let target := domain ++ "/" ++ SERVICE_LABEL in
  does_anyway (HRun "launchctl" ["bootout"; target]) (ran h ["bootout"; target]) ;;
  does_anyway (HRun "launchctl" ["unload"; "-w"; plist_in dir]) (ran h ["unload"; "-w"; plist_in dir]) ;;
  does (HRemoveFile (plist_in dir)) (removed h (plist_in dir)).

(** [install] and [uninstall] of other platforms. *)
Definition unsupported : HM () := throw "service management is only supported on Linux (systemd) and macOS (launchd)".

(** ** What is done *)

#[local] Opaque domain plist_in plist_text plist_lines.

Definition written_to (a : HostAct) : option string := match a with HWrite p _ => Some p | _ => None end.

(** Installing ends well when the directory is there, HOME is set, the list is
    written and one way of loading works, and in no other case; loading is tried
    only on a list that was written. *)
Theorem launchd_installs (bin : string) (full_access : bool) : let '(o, l) := launchd_install bin full_access [] in
  (o = Ret tt ↔ ∃ path, launchd_unit_path env = Some path ∧ wrote h (Config.omniagent_data_dir env) = Ok tt ∧ wrote h path = Ok tt ∧
     (ran h ["bootstrap"; domain; path] = Ok tt ∨ ran h ["load"; "-w"; path] = Ok tt)) ∧
  (∀ args, HRun "launchctl" args ∈ l → ∃ path, launchd_unit_path env = Some path ∧ wrote h path = Ok tt ∧ omap written_to l = [path]).
Proof.
  unfold launchd_install, launchd_unit_path. rewrite does_run.
  destruct (wrote h (Config.omniagent_data_dir env)) as [[]|e] eqn:Hd.
  2: { split; [|set_solver]. split; [done|]. by intros (? & _ & ? & _). }
  unfold lift_result. unfold mbind at 1, M_bind at 1. destruct (launch_agents_dir env) as [dir|]; cbn [ok_or fmap option_fmap option_map].
  2: { split; [|set_solver]. split; [done|]. by intros (? & ? & _). }
  rewrite does_run. destruct (wrote h (plist_in dir)) as [[]|e] eqn:Hw.
  2: { split; [|set_solver]. split; [done|]. intros (p & [= <-] & _ & Hp & _). congruence. }
  unfold launchd_load, attempt, launchctl, does, does_anyway, mbind, M_bind, mret, M_ret. cbn.
  destruct (ran h ["bootstrap"; domain; plist_in dir]) as [[]|] eqn:Hb; [|destruct (ran h ["load"; "-w"; plist_in dir]) as [[]|] eqn:Hl]; cbn.
  all: split; [|by intros; eexists].
  - split; [|done]. intros _. eexists. split_and!; [done..|by left].
  - split; [|done]. intros _. eexists. split_and!; [done..|by right].
  - split; [done|]. intros (p & [= <-] & _ & _ & [H|H]); congruence.
Qed.

(** What is removed is what was written, and what is shown before it is. *)
Theorem launchd_removes_its_own (bin : string) (full_access : bool) :
  omap written_to (launchd_install bin full_access []).2 `prefix_of` from_option (λ p, [p]) [] (launchd_unit_path env) ∧
  removes_all (launchd_uninstall []).2 = from_option (λ p, [p]) [] (launchd_unit_path env).
Proof.
  unfold launchd_install, launchd_uninstall, launchd_unit_path, lift_result. split.
  - rewrite does_run. destruct (wrote h _); [|apply prefix_nil]. unfold mbind at 1, M_bind at 1.
    destruct (launch_agents_dir env) as [dir|]; cbn [ok_or fmap option_fmap option_map]; [|apply prefix_nil].
    rewrite does_run. destruct (wrote h (plist_in dir)); [|done].
    unfold launchd_load, attempt, launchctl, does, does_anyway, mbind, M_bind, mret, M_ret. cbn.
    by destruct (ran h ["bootstrap"; _; _]).
  - unfold mbind at 1, M_bind at 1. destruct (launch_agents_dir env) as [dir|]; [|done]. cbn. by destruct (removed h _).
Qed.
End host.

#[local] Transparent domain plist_in plist_text plist_lines.

(** ** The list read back *)

(** The strings of the array, of the lines in it. *)
Definition array_strings (lines : list string) : list string :=
  omap (λ l, inner ← strip_prefix "    <string>" l; strip_suffix "</string>" inner) lines.

(** launchd starts the program with the arguments that were meant, and nothing of
    the other strings becomes one. *)
Theorem plist_arguments (bin : string) (full_access : bool) (out err : string) :
  array_strings (plist_lines bin full_access out err) = bin :: "daemon" :: if full_access then ["--full-access"] else [].
Proof.
  unfold array_strings, plist_lines, program_args. rewrite !omap_app. set (reads := λ l : string, strip_prefix _ l ≫= _).
  assert (Hs : ∀ x : string, reads ("    " ++ string_tag x) = Some x).
  { intros x. unfold reads, string_tag. change ("    " ++ ("<string>" ++ ?y)) with ("    <string>" ++ y).
    rewrite strip_prefix_app. cbn [mbind option_bind]. unfold strip_suffix. by rewrite str_rev_concat strip_prefix_app /= str_rev_involutive. }
  assert (Hm : ∀ l, omap reads (map (λ s, "    " ++ string_tag s) l) = l).
  { induction l as [|x l IH]; [done|]. cbn [map omap list_omap]. by rewrite Hs IH. }
  rewrite Hm. assert (omap reads plist_head = [] ∧ omap reads (plist_tail out err) = []) as [-> ->] by (split; reflexivity).
  by rewrite app_nil_r.
Qed.

(** Names are not escaped: the list is no XML then. *)
Example plist_unescaped : plist_lines "/Users/a&b/omniagent" false "/o" "/e" !! 8%nat = Some "    <string>/Users/a&b/omniagent</string>".
Proof. reflexivity. Qed.

Example launchd_path : launchd_unit_path (λ v, if decide (v = "HOME") then Some "/Users/u" else None) =
  Some "/Users/u/Library/LaunchAgents/dev.omniagent.daemon.plist".
Proof. reflexivity. Qed.
