(* ===== verification/Conn.v ===== *)
(** * The connection to the control plane (crates/omniagent-cli/src/client/conn.rs)

    A client numbers the events of a session and keeps each in an outbox until
    the server acknowledges it; the connection breaks and is made again, and what
    was not acknowledged is sent again.  The tasks of the client (pushing,
    flushing, heartbeats, the handshake), the server and the network take steps in
    any order; a channel that is opened while the connection comes up may get two
    flushers, and both are followed.  Of the server this is its channel
    (apps/omniagent_web/lib/omniagent_web/channels/client_channel.ex); JSON
    values travel unchanged.  A flusher or heartbeat that is aborted with its
    connection takes no further step. *)
From S2P Require Import Prelude Str Json.

(** The length of [serde_json::to_string]. *)
Class JsonPrint := { json_length : Value → Z }.

Definition REPLAYABLE_EVENTS : list string :=
  ["pty_output"; "pty_exit"; "trace_span"; "review_item"; "codex_item"; "codex_turn"; "codex_token_usage"; "codex_error"].

Definition PTY_OUTPUT_BATCH : string := "pty_output_batch".
Definition OUTBOX_BYTE_CAP : Z := 8 * 1024 * 1024.
Definition TRUNCATION_MARKER : string := crlf ++ "[omniagent: output truncated]" ++ crlf.

(** ** The outbox *)

Record Outgoing : Type := mkOutgoing { o_seq : Z; o_event : string; o_payload : Value }.

Record ChannelInner : Type := mkInner {
  seq : Z; last_acked : Z; sent_upto : Z;
  outbox : list Outgoing; outbox_bytes : Z; truncating : bool;
}.

Definition inner_default : ChannelInner := mkInner 0 0 0 [] 0 false.

Definition is_pty (o : Outgoing) : bool := bool_decide (o_event o = "pty_output").

Section client.
Context `{!JsonPrint}.

Definition payload_bytes (payload : Value) : Z :=
  match v_get "data" payload ≫= as_string with
  | Some s => Z.of_nat (String.length s)
  | None => json_length payload
  end.

Definition sub_bytes (bytes : Z) (o : Outgoing) : Z := Z.max 0 (bytes - payload_bytes (o_payload o)).

(** The oldest output, and the outbox without it. *)
Fixpoint take_pty (l : list Outgoing) : option (Outgoing * list Outgoing) :=
  match l with
  | [] => None
  | o :: l => if is_pty o then Some (o, l) else '(p, l) ← take_pty l; Some (p, o :: l)
  end.

(** Sheds output while there is more than [cap]: what remains, its size, and
    what was shed. *)
Fixpoint shed_loop (fuel : nat) (cap bytes : Z) (l : list Outgoing) : list Outgoing * Z * list Outgoing :=
  match fuel with
  | O => (l, bytes, [])
  | S fuel =>
      if (bytes <=? cap)%Z then (l, bytes, [])
      else match take_pty l with
        | None => (l, bytes, [])
        | Some (o, l) => let '(l, bytes, dropped) := shed_loop fuel cap (sub_bytes bytes o) l in (l, bytes, o :: dropped)
        end
  end.

Definition dropped_bytes (dropped : list Outgoing) : Z := foldr (λ o n, payload_bytes (o_payload o) + n)%Z 0%Z dropped.

Definition marker (n : Z) : Outgoing :=
  mkOutgoing n "pty_output" (obj [("data", Str TRUNCATION_MARKER); ("sequence", num n)]).

(** A change of the outbox, with the items it numbered and those it shed. *)
Record Change : Type := mkChange { now : ChannelInner; numbered : list Outgoing; dropped : list Outgoing }.

Definition shed_outbox (cap : Z) (i : ChannelInner) : Change :=
  let '(l, bytes, dropped) := shed_loop (length (outbox i)) cap (outbox_bytes i) (outbox i) in
  if ((0 <? dropped_bytes dropped)%Z && negb (truncating i)) then
    let n := wrap64 (seq i + 1) in
    let m := marker n in
    mkChange (mkInner n (last_acked i) (sent_upto i) (l ++ [m])%list (bytes + payload_bytes (o_payload m)) true) [m] dropped
  else mkChange (mkInner (seq i) (last_acked i) (sent_upto i) l bytes (truncating i)) [] dropped.

Definition with_sequence (n : Z) (payload : Value) : Value :=
  match payload with Object l => Object (obj_insert "sequence" (num n) l) | v => v end.

Definition push_replayable (event : string) (payload : Value) (i : ChannelInner) : Change :=
  let n := wrap64 (seq i + 1) in
  let o := mkOutgoing n event (with_sequence n payload) in
  let c := shed_outbox OUTBOX_BYTE_CAP
    (mkInner n (last_acked i) (sent_upto i) (outbox i ++ [o])%list
       (outbox_bytes i + payload_bytes (o_payload o)) (truncating i)) in
  mkChange (now c) (o :: numbered c) (dropped c).

(** Drops the front of the outbox up to a number. *)
Fixpoint trim_to (upto bytes : Z) (l : list Outgoing) : list Outgoing * Z :=
  match l with
  | [] => ([], bytes)
  | o :: l' => if (o_seq o <=? upto)%Z then trim_to upto (sub_bytes bytes o) l' else (l, bytes)
  end.

Definition settle (i : ChannelInner) : ChannelInner :=
  match outbox i with
  | [] => mkInner (seq i) (last_acked i) (sent_upto i) [] 0 false
  | _ => i
  end.

Definition apply_ack (acked : Z) (i : ChannelInner) : ChannelInner :=
  let upto := Z.max (last_acked i) acked in
  let '(l, bytes) := trim_to upto (outbox_bytes i) (outbox i) in
  settle (mkInner (seq i) upto (sent_upto i) l bytes (truncating i)).

(** What [handshake_session] does with the server's mark. *)
Definition resume (lcs : Z) (i : ChannelInner) : ChannelInner :=
  let '(l, bytes) := trim_to lcs (outbox_bytes i) (outbox i) in
  let i := settle (mkInner (Z.max (seq i) lcs) (Z.max (last_acked i) lcs) (sent_upto i) l bytes (truncating i)) in
  mkInner (seq i) (last_acked i) lcs (outbox i) (outbox_bytes i) (truncating i).

Definition advance_sent_upto (n : Z) (i : ChannelInner) : ChannelInner :=
  mkInner (seq i) (last_acked i) (Z.max (sent_upto i) n) (outbox i) (outbox_bytes i) (truncating i).

Definition to_send (i : ChannelInner) : list Outgoing := List.filter (λ o, (sent_upto i <? o_seq o)%Z) (outbox i).

Definition build_pty_batch (items : list Outgoing) : Value := obj [("events", Array (map o_payload items))].

(** ** The server's channel *)

Record Frame : Type := mkFrame { fr_ref : nat; fr_event : string; fr_payload : Value }.

(** The events kept for the session, and the mark of the acknowledged. *)
Record Server : Type := mkServer { log : list (string * Z * Value); lcs : Z }.

Definition sequence_of (payload : Value) : Z := default 0%Z (v_get "sequence" payload ≫= as_u64).

Definition same_key (event : string) (n : Z) (e : string * Z * Value) : bool := bool_decide (e.1 = (event, n)).

(** Inserted unless there is a row of that type and number; review items are
    written over the row of their own id. *)
Definition record_session_event (event : string) (payload : Value) (l : list (string * Z * Value)) : list (string * Z * Value) :=
  let n := sequence_of payload in
  if bool_decide (event ≠ "review_item") && existsb (same_key event n) l then l else (l ++ [(event, n, payload)])%list.

Definition record_pty_outputs (events : list Value) (l : list (string * Z * Value)) : list (string * Z * Value) :=
  foldl (λ l payload, record_session_event "pty_output" payload l) l events.

Definition update_last_sequence (n : Z) (srv : Server) : Server := mkServer (log srv) (Z.max (lcs srv) n).

Definition lcs_reply (srv : Server) : result () Value := Ok (obj [("last_client_sequence", num (lcs srv))]).

Definition handle_in (registered : bool) (f : Frame) (srv : Server) : bool * Server * option (result () Value) :=
  let event := fr_event f in
  if decide (event = "phx_join") then (registered, srv, Some (Ok (obj [])))
  else if decide (event = "session_register" ∨ event = "session_resume") then (true, srv, Some (lcs_reply srv))
  else if decide (event = PTY_OUTPUT_BATCH) then
    match v_get "events" (fr_payload f) ≫= as_array with
    | Some events =>
        if registered then
          let srv := update_last_sequence (foldl Z.max 0%Z (map sequence_of events))
            (mkServer (record_pty_outputs events (log srv)) (lcs srv)) in
          (registered, srv, Some (lcs_reply srv))
        else (registered, srv, Some (Err ()))
    | None => (registered, srv, Some (Err ()))
    end
  else if decide (event = "heartbeat") then
    if registered then
      let srv := update_last_sequence (sequence_of (fr_payload f)) srv in (registered, srv, Some (lcs_reply srv))
    else (registered, srv, Some (Ok (obj [])))
  else if decide (event ∈ REPLAYABLE_EVENTS ∧ event ≠ "pty_output") then
    if registered then (registered, mkServer (record_session_event event (fr_payload f) (log srv)) (lcs srv), None)
    else (registered, srv, Some (Err ()))
  else (registered, srv, None).

(** ** The tasks of the client *)

(** Where [spawn_channel_flusher] and [flush_channel_once] are: waiting, in the
    loop over the snapshot with a run of output collected, before and after
    sending an event, waiting for the reply to a batch, with its acknowledgement. *)
Inductive Flusher : Type :=
| FPark
| FLoop (run rest : list Outgoing)
| FSend (item : Outgoing) (rest : list Outgoing)
| FSent (item : Outgoing) (rest : list Outgoing)
| FWait (reference : nat) (last : Z) (next : option Outgoing) (rest : list Outgoing)
| FAck (acked : option Z) (next : option Outgoing) (rest : list Outgoing).

Inductive Heart : Type := HIdle | HSend (high_water : Z) | HWait (reference : nat).

Inductive Phase : Type := Offline | Joining (reference : nat) | Registering (reference : nat) | Live.

(** What a connection has carried to the server and is not handled yet. *)
Record Wire : Type := mkWire { frames : list Frame; registered : bool }.

Record Conn : Type := mkConn {
  inner : ChannelInner;
  phase : Phase; flushers : list Flusher; heart : Heart;
  opened : bool;                              (* [first_register] was answered *)
  next_ref : nat;                             (* references are never reused *)
  wire : Wire; old_wires : list Wire;         (* the connection, and lost ones *)
  replies : list (nat * result () Value);
  server : Server;
  assigned : list Outgoing; shed : list Outgoing;  (* history *)
}.

Definition conn_init (srv : Server) : Conn :=
  mkConn inner_default Offline [] HIdle false 0 (mkWire [] false) [] [] srv [] [].

Definition set_inner (i : ChannelInner) (s : Conn) : Conn :=
  mkConn i (phase s) (flushers s) (heart s) (opened s) (next_ref s) (wire s) (old_wires s) (replies s) (server s) (assigned s) (shed s).
Definition set_phase (p : Phase) (s : Conn) : Conn :=
  mkConn (inner s) p (flushers s) (heart s) (opened s) (next_ref s) (wire s) (old_wires s) (replies s) (server s) (assigned s) (shed s).
Definition set_flushers (l : list Flusher) (s : Conn) : Conn :=
  mkConn (inner s) (phase s) l (heart s) (opened s) (next_ref s) (wire s) (old_wires s) (replies s) (server s) (assigned s) (shed s).
(** The [k]-th of the flushers goes on with [f]. *)
Definition set_flusher (k : nat) (f : Flusher) (s : Conn) : Conn := set_flushers (<[k := f]> (flushers s)) s.
Definition set_heart (h : Heart) (s : Conn) : Conn :=
  mkConn (inner s) (phase s) (flushers s) h (opened s) (next_ref s) (wire s) (old_wires s) (replies s) (server s) (assigned s) (shed s).
Definition set_opened (s : Conn) : Conn :=
  mkConn (inner s) (phase s) (flushers s) (heart s) true (next_ref s) (wire s) (old_wires s) (replies s) (server s) (assigned s) (shed s).

(** A frame handed to the connection, under a fresh reference. *)
Definition send_frame (event : string) (payload : Value) (s : Conn) : Conn :=
  mkConn (inner s) (phase s) (flushers s) (heart s) (opened s) (S (next_ref s))
    (mkWire (frames (wire s) ++ [mkFrame (next_ref s) event payload]) (registered (wire s))) (old_wires s) (replies s)
    (server s) (assigned s) (shed s).

(** A failed write may have reached the server all the same. *)
Definition send_failed (arrived : bool) (event : string) (payload : Value) (s : Conn) : Conn :=
  if arrived then send_frame event payload s else s.

Definition change (c : Change) (s : Conn) : Conn :=
  mkConn (now c) (phase s) (flushers s) (heart s) (opened s) (next_ref s) (wire s) (old_wires s) (replies s) (server s)
    (assigned s ++ numbered c) (shed s ++ dropped c).

(** A new connection: the old one's frames are left to the network. *)
Definition connect (s : Conn) : Conn :=
  mkConn (inner s) (Joining (next_ref s)) [] HIdle (opened s) (S (next_ref s))
    (mkWire [mkFrame (next_ref s) "phx_join" (obj [])] false) (old_wires s) (replies s) (server s) (assigned s) (shed s).

Definition disconnect (kept : nat) (s : Conn) : Conn :=
  mkConn (inner s) Offline [] HIdle (opened s) (next_ref s) (mkWire [] false)
    (mkWire (take kept (frames (wire s))) (registered (wire s)) :: old_wires s) (replies s) (server s) (assigned s) (shed s).

(** The server handles the first frame of a connection. *)
Definition serve_wire (f : Frame) (rest : list Frame) (w : Wire) (s : Conn) : Wire * Server * list (nat * result () Value) :=
  let '(reg, srv, reply) := handle_in (registered w) f (server s) in
  (mkWire rest reg, srv, (replies s ++ match reply with Some r => [(fr_ref f, r)] | None => [] end)%list).

Definition serve_current (f : Frame) (rest : list Frame) (s : Conn) : Conn :=
  let '(w, srv, rs) := serve_wire f rest (wire s) s in
  mkConn (inner s) (phase s) (flushers s) (heart s) (opened s) (next_ref s) w (old_wires s) rs srv (assigned s) (shed s).

Definition serve_old (i : nat) (w : Wire) (f : Frame) (rest : list Frame) (s : Conn) : Conn :=
  let '(w, srv, rs) := serve_wire f rest w s in
  mkConn (inner s) (phase s) (flushers s) (heart s) (opened s) (next_ref s) (wire s) (<[i := w]> (old_wires s)) rs srv
    (assigned s) (shed s).

Definition refuse (f : Frame) (rest : list Frame) (s : Conn) : Conn :=
  mkConn (inner s) (phase s) (flushers s) (heart s) (opened s) (next_ref s) (mkWire rest (registered (wire s))) (old_wires s)
    (replies s ++ [(fr_ref f, Err ())])%list (server s) (assigned s) (shed s).

Definition mark_of (response : Value) : option Z := v_get "last_client_sequence" response ≫= as_u64.

Definition after (next : option Outgoing) (rest : list Outgoing) : Flusher :=
  match next with Some item => FSend item rest | None => FPark end.

Definition last_seq (run : list Outgoing) : Z := match last run with Some o => o_seq o | None => 0%Z end.

(** The end of a run of output: the end of the snapshot, or another event. *)
Definition run_ends (rest : list Outgoing) : option (option Outgoing * list Outgoing) :=
  match rest with
  | [] => Some (None, [])
  | item :: rest => if is_pty item then None else Some (Some item, rest)
  end.

Definition beat (h : Z) : Value := obj [("sequence", num h)].

Inductive conn_step : Conn → Conn → Prop :=
(* a handle exists once the session was opened; payloads are objects *)
| StepPush event fields s :
    opened s = true → event ∈ REPLAYABLE_EVENTS →
    conn_step s (change (push_replayable event (Object fields) (inner s)) s)
(* the supervisor *)
| StepConnect s : phase s = Offline → conn_step s (connect s)
| StepJoined r v (event : string) payload s :
    phase s = Joining r → (r, Ok v) ∈ replies s → event = "session_register" ∨ event = "session_resume" →
    conn_step s (set_phase (Registering (next_ref s)) (send_frame event payload s))
| StepRegistered r v s :
    phase s = Registering r → (r, Ok v) ∈ replies s →
    conn_step s (set_opened (set_phase Live (set_inner (resume (default 0%Z (mark_of v)) (inner s)) s)))
| StepDisconnect kept s : phase s ≠ Offline → conn_step s (disconnect kept s)
(* the server *)
| StepServe f rest s : frames (wire s) = f :: rest → conn_step s (serve_current f rest s)
| StepServeOld i w f rest s :
    old_wires s !! i = Some w → frames w = f :: rest → conn_step s (serve_old i w f rest s)
| StepRefuse f rest s :
    frames (wire s) = f :: rest → fr_event f = "session_register" ∨ fr_event f = "session_resume" →
    conn_step s (refuse f rest s)
(* the flushers, of which a channel may get two *)
| StepStart s : phase s = Live → (length (flushers s) < 2)%nat → conn_step s (set_flushers (flushers s ++ [FPark]) s)
| StepFlush k s : phase s = Live → flushers s !! k = Some FPark → conn_step s (set_flusher k (FLoop [] (to_send (inner s))) s)
| StepCollect k run item rest s :
    phase s = Live → flushers s !! k = Some (FLoop run (item :: rest)) → is_pty item = true →
    conn_step s (set_flusher k (FLoop (run ++ [item]) rest) s)
| StepNoRun k rest next rest' s :
    phase s = Live → flushers s !! k = Some (FLoop [] rest) → run_ends rest = Some (next, rest') →
    conn_step s (set_flusher k (after next rest') s)
| StepBatch k run rest next rest' s :
    phase s = Live → flushers s !! k = Some (FLoop run rest) → run ≠ [] → run_ends rest = Some (next, rest') →
    conn_step s (set_flusher k (FWait (next_ref s) (last_seq run) next rest') (send_frame PTY_OUTPUT_BATCH (build_pty_batch run) s))
| StepBatchFailed k arrived run rest next rest' s :
    phase s = Live → flushers s !! k = Some (FLoop run rest) → run ≠ [] → run_ends rest = Some (next, rest') →
    conn_step s (set_flusher k FPark (send_failed arrived PTY_OUTPUT_BATCH (build_pty_batch run) s))
| StepBatchReply k r v last next rest s :
    phase s = Live → flushers s !! k = Some (FWait r last next rest) → (r, Ok v) ∈ replies s →
    conn_step s (set_flusher k (FAck (mark_of v) next rest) (set_inner (advance_sent_upto last (inner s)) s))
| StepBatchLost k r last next rest s :
    phase s = Live → flushers s !! k = Some (FWait r last next rest) → conn_step s (set_flusher k FPark s)
| StepBatchAck k acked next rest s :
    phase s = Live → flushers s !! k = Some (FAck acked next rest) →
    conn_step s (set_flusher k (after next rest)
      (set_inner (match acked with Some n => apply_ack n (inner s) | None => inner s end) s))
| StepSend k item rest s :
    phase s = Live → flushers s !! k = Some (FSend item rest) →
    conn_step s (set_flusher k (FSent item rest) (send_frame (o_event item) (o_payload item) s))
| StepSendFailed k arrived item rest s :
    phase s = Live → flushers s !! k = Some (FSend item rest) →
    conn_step s (set_flusher k FPark (send_failed arrived (o_event item) (o_payload item) s))
| StepSent k item rest s :
    phase s = Live → flushers s !! k = Some (FSent item rest) →
    conn_step s (set_flusher k (FLoop [] rest) (set_inner (advance_sent_upto (o_seq item) (inner s)) s))
(* the heartbeat *)
| StepBeat s :
    phase s = Live → heart s = HIdle → (last_acked (inner s) < sent_upto (inner s))%Z →
    conn_step s (set_heart (HSend (sent_upto (inner s))) s)
| StepBeatSend h s :
    phase s = Live → heart s = HSend h → conn_step s (set_heart (HWait (next_ref s)) (send_frame "heartbeat" (beat h) s))
| StepBeatFailed arrived h s :
    phase s = Live → heart s = HSend h → conn_step s (set_heart HIdle (send_failed arrived "heartbeat" (beat h) s))
| StepBeatReply r v s :
    phase s = Live → heart s = HWait r → (r, Ok v) ∈ replies s →
    conn_step s (set_heart HIdle
      (set_inner (match mark_of v with Some n => apply_ack n (inner s) | None => inner s end) s))
| StepBeatLost r s : phase s = Live → heart s = HWait r → conn_step s (set_heart HIdle s).
End client.
