(* ===== verification/ConnInv.v ===== *)
(** * No event is lost or confused on the way to the server

    Whatever breaks and however the tasks interleave: an event that was
    acknowledged is in the server's log, one that was not is still in the outbox,
    and only terminal output may be shed. *)
From stdpp Require Import sorting.
From S2P Require Import Prelude Str Json Conn.

Definition entry (o : Outgoing) : string * Z * Value := (o_event o, o_seq o, o_payload o).

(** What a frame has the server keep, and the number it acknowledges up to. *)
Definition frame_entries (f : Frame) : list (string * Z * Value) :=
  if decide (fr_event f = PTY_OUTPUT_BATCH) then
    map (λ p, ("pty_output", sequence_of p, p)) (default [] (v_get "events" (fr_payload f) ≫= as_array))
  else if decide (fr_event f ∈ REPLAYABLE_EVENTS ∧ fr_event f ≠ "pty_output")
  then [(fr_event f, sequence_of (fr_payload f), fr_payload f)] else [].

Definition level (f : Frame) : Z :=
  if decide (fr_event f = PTY_OUTPUT_BATCH) then
    foldl Z.max 0%Z (map sequence_of (default [] (v_get "events" (fr_payload f) ≫= as_array)))
  else if decide (fr_event f = "heartbeat") then sequence_of (fr_payload f) else 0%Z.

Definition record (e : string * Z * Value) (l : list (string * Z * Value)) : list (string * Z * Value) :=
  if bool_decide (e.1.1 ≠ "review_item") && existsb (same_key e.1.1 e.1.2) l then l else (l ++ [e])%list.

Lemma foldl_max_le l n : (n ≤ foldl Z.max n l)%Z.
Proof. revert n. induction l as [|x l IH]; intros n; simpl; [lia|]. specialize (IH (Z.max n x)). lia. Qed.

Lemma record_batch ps l :
  record_pty_outputs ps l = foldl (λ l e, record e l) l (map (λ p, ("pty_output", sequence_of p, p)) ps).
Proof. revert l. induction ps as [|p ps IH]; intros l; simpl; [done|]. by rewrite -IH. Qed.

(** Handling a frame adds what it carries to the log, and acknowledges no more
    than its level. *)
Lemma handle_in_spec reg f srv reg' srv' reply : (reg = true ∨ frame_entries f = []) →
  handle_in reg f srv = (reg', srv', reply) →
  log srv' = foldl (λ l e, record e l) (log srv) (frame_entries f) ∧
  (lcs srv ≤ lcs srv' ≤ Z.max (lcs srv) (level f))%Z ∧
  (reg = true → reg' = true) ∧
  (∀ v m, reply = Some (Ok v) → mark_of v = Some m → m ≤ lcs srv')%Z.
Proof.
  assert (Hmark : ∀ srv v m, Some (lcs_reply srv) = Some (Ok v) → mark_of v = Some m → (m ≤ lcs srv)%Z).
  { intros srv0 v m [= <-]. unfold mark_of. simpl. unfold as_u64. case_match; [|done]. intros [= <-]. lia. }
  intros Hreg. unfold handle_in, frame_entries, level.
  case_decide as H1.
  { rewrite H1. intros [= <- <- <-]. simpl. split_and!; [done|lia|lia|done|]. intros v m [= <-] Hm. vm_compute in Hm. discriminate Hm. }
  case_decide as H2.
  { intros [= <- <- <-].
    destruct H2 as [-> | ->]; simpl; (split_and!; [done|lia|lia|done|refine (Hmark _)]). }
  case_decide as H3.
  - destruct (v_get "events" (fr_payload f) ≫= as_array) as [events|] eqn:Ee; simpl.
    + destruct reg; intros [= <- <- <-]; simpl.
      * rewrite record_batch. split_and!; [done|lia|lia|done|refine (Hmark _)].
      * destruct Hreg as [?|Hnil]; [done|]. unfold frame_entries in Hnil.
        rewrite decide_True // Ee in Hnil. destruct events; [|done]. simpl. split_and!; [done|lia|lia|done|done].
    + intros [= <- <- <-]. simpl. split_and!; [done|lia|lia|done|done].
  - case_decide as H4.
    + assert (Hno : ¬ (fr_event f ∈ REPLAYABLE_EVENTS ∧ fr_event f ≠ "pty_output")) by (rewrite H4; vm_compute; set_solver).
      rewrite decide_False //.
      destruct reg; intros [= <- <- <-].
      * cbn [log lcs update_last_sequence foldl]. split_and!; [done|lia|lia|done|refine (Hmark _)].
      * cbn [foldl]. split_and!; [done|lia|lia|done|]. intros v m [= <-] Hm. vm_compute in Hm. discriminate Hm.
    + case_decide as H5.
      * destruct reg; intros [= <- <- <-]; [cbn [log lcs foldl]; split_and!; [done|lia|lia|done|done]|].
        destruct Hreg as [?|Hnil]; [done|]. unfold frame_entries in Hnil. rewrite decide_False // decide_True // in Hnil.
      * intros [= <- <- <-]. split_and!; [done|lia|lia|done|done].
Qed.

(** ** The log *)

Definition key_once (e : string * Z * Value) : option (string * Z) :=
  if decide (e.1.1 = "review_item") then None else Some e.1.

Section log.
Variable log0 : list (string * Z * Value).
Variable lcs0 : Z.

Record items_ok (A : list Outgoing) (n : Z) : Prop := {
  items_sorted : StronglySorted Z.lt (map o_seq A);
  items_range o : o ∈ A → (lcs0 < o_seq o ≤ n)%Z;
  items_numbered o : o ∈ A → sequence_of (o_payload o) = o_seq o;
  items_replayable o : o ∈ A → o_event o ∈ REPLAYABLE_EVENTS;
}.

(** The log is what it was and events of this client, each kept once. *)
Definition log_ok (A : list Outgoing) (l : list (string * Z * Value)) : Prop :=
  ∃ new, l = (log0 ++ new)%list ∧ (∀ e, e ∈ new → ∃ o, o ∈ A ∧ e = entry o) ∧ NoDup (omap key_once new).

Hypothesis settled : ∀ e, e ∈ log0 → (e.1.2 ≤ lcs0)%Z.

Lemma sorted_inj A o o' : StronglySorted Z.lt (map o_seq A) → o ∈ A → o' ∈ A → o_seq o = o_seq o' → o = o'.
Proof.
  induction A as [|a A IH]; simpl; [by intros _ ?%not_elem_of_nil|].
  intros [Hs Ha]%StronglySorted_inv [->|Ho]%elem_of_cons [->|Ho']%elem_of_cons Heq; [done| | |by apply IH].
  - rewrite Forall_forall in Ha. specialize (Ha (o_seq o') (list_elem_of_fmap_2 o_seq A o' Ho')). lia.
  - rewrite Forall_forall in Ha. specialize (Ha (o_seq o) (list_elem_of_fmap_2 o_seq A o Ho)). lia.
Qed.

Lemma existsb_key event n l : existsb (same_key event n) l = true → ∃ e, e ∈ l ∧ e.1 = (event, n).
Proof. intros (e & He & Hk%bool_decide_eq_true)%existsb_exists. exists e. split; [by apply list_elem_of_In|done]. Qed.

Lemma record_mono e l x : x ∈ l → x ∈ record e l.
Proof. intros Hx. unfold record. case_match; [done|]. apply elem_of_app. by left. Qed.

Lemma record_ok A n l o : items_ok A n → log_ok A l → o ∈ A →
  log_ok A (record (entry o) l) ∧ entry o ∈ record (entry o) l.
Proof.
  intros Hi (new & Happ & Hours & Honce) Ho. unfold record.
  destruct (bool_decide _ && existsb _ l) eqn:E.
  - apply andb_true_iff in E as [_ (e & He & Hk)%existsb_key]. split; [by exists new|].
    rewrite Happ in He. apply elem_of_app in He as [He|He].
    + pose proof (settled e He) as Hset. rewrite Hk in Hset. simpl in Hset. pose proof (items_range _ _ Hi o Ho). lia.
    + destruct (Hours e He) as (o' & Ho' & ->). simpl in Hk. injection Hk as _ Hseq.
      rewrite (sorted_inj A o o' (items_sorted _ _ Hi) Ho Ho') // Happ. apply elem_of_app. by right.
  - split; [|apply elem_of_app; right; constructor]. exists (new ++ [entry o])%list. split_and!; [by rewrite Happ app_assoc| |].
    + intros e [He|He%list_elem_of_singleton]%elem_of_app; [by apply Hours|]. by exists o.
    + rewrite omap_app.
      assert (Hk : omap key_once [entry o] = if decide (o_event o = "review_item") then [] else [(o_event o, o_seq o)])
        by (unfold key_once; simpl; destruct (decide (o_event o = "review_item")); done).
      rewrite Hk. clear Hk. destruct (decide (o_event o = "review_item")) as [Hr|Hr]; cbn iota; [by rewrite app_nil_r|]. apply NoDup_app. split; [done|]. split; [|apply NoDup_singleton].
      intros k Hin ->%list_elem_of_singleton. apply list_elem_of_omap in Hin as (e & He & Hk).
      unfold key_once in Hk. case_decide; [done|]. injection Hk as Hk. apply andb_false_iff in E as [E|E].
      * apply bool_decide_eq_false in E. done.
      * assert (Hex : existsb (same_key (o_event o) (o_seq o)) l = true); [|simpl in E; congruence].
        apply existsb_exists. exists e. split; [apply list_elem_of_In; rewrite Happ; apply elem_of_app; by right|].
        by apply bool_decide_eq_true.
Qed.

Lemma record_all_ok A n es l : items_ok A n → log_ok A l → (∀ e, e ∈ es → ∃ o, o ∈ A ∧ e = entry o) →
  log_ok A (foldl (λ l e, record e l) l es) ∧
  (∀ x, x ∈ l → x ∈ foldl (λ l e, record e l) l es) ∧ (∀ e, e ∈ es → e ∈ foldl (λ l e, record e l) l es).
Proof.
  intros Hi. revert l. induction es as [|e es IH]; intros l Hl Hes; simpl; [split_and!; [done..|by intros ? ?%not_elem_of_nil]|].
  destruct (Hes e ltac:(constructor)) as (o & Ho & ->). destruct (record_ok A n l o Hi Hl Ho) as [Hl' Hin].
  destruct (IH _ Hl') as (Hok & Hm & He); [intros; apply Hes; by constructor|]. split_and!; [done| |].
  - intros x Hx. by apply Hm, record_mono.
  - intros x [->|Hx]%elem_of_cons; [by apply Hm|by apply He].
Qed.
End log.

(** ** What frames acknowledge, they were preceded by *)

Section covers.
Variable A : list Outgoing.

Fixpoint covered (P : Outgoing → Prop) (fs : list Frame) : Prop :=
  match fs with
  | [] => True
  | f :: fs =>
      (∀ o, o ∈ A → (o_seq o ≤ level f)%Z → P o ∨ entry o ∈ frame_entries f) ∧
      covered (λ o, P o ∨ entry o ∈ frame_entries f) fs
  end.

Definition carried (fs : list Frame) (o : Outgoing) : Prop := entry o ∈ flat_map frame_entries fs.

Lemma covered_mono (P Q : Outgoing → Prop) fs : (∀ o, o ∈ A → P o → Q o) → covered P fs → covered Q fs.
Proof.
  revert P Q. induction fs as [|f fs IH]; intros P Q HPQ; simpl; [done|]. intros [Hf Hfs]. split.
  - intros o Ho Hl. destruct (Hf o Ho Hl); [left; by apply HPQ|by right].
  - revert Hfs. apply IH. intros o Ho [?|?]; [left; by apply HPQ|by right].
Qed.

Lemma covered_take P fs k : covered P fs → covered P (take k fs).
Proof.
  revert P k. induction fs as [|f fs IH]; intros P k; simpl; [by rewrite take_nil|]. intros [Hf Hfs].
  destruct k as [|k]; simpl; [done|]. split; [done|by apply IH].
Qed.

Lemma covers_snoc P fs f :
  covered P fs → (∀ o, o ∈ A → (o_seq o ≤ level f)%Z → P o ∨ carried fs o ∨ entry o ∈ frame_entries f) →
  covered P (fs ++ [f]).
Proof.
  revert P. induction fs as [|g fs IH]; intros P; simpl.
  - intros _ Hf. split; [|done]. intros o Ho Hl. destruct (Hf o Ho Hl) as [?|[Hc|?]]; [by left| |by right].
    by apply not_elem_of_nil in Hc.
  - intros [Hg Hfs] Hf. split; [done|]. apply IH; [done|]. intros o Ho Hl. destruct (Hf o Ho Hl) as [?|[Hc|?]]; [by left; left| |by right; right].
    unfold carried in Hc. simpl in Hc. apply elem_of_app in Hc as [Hc|Hc]; [by left; right|by right; left].
Qed.
End covers.

Lemma covered_grow A A' P fs n : (∀ o, o ∈ A' → o ∈ A ∨ n < o_seq o)%Z → Forall (λ f, (level f ≤ n)%Z) fs →
  covered A P fs → covered A' P fs.
Proof.
  intros Hg. revert P. induction fs as [|f fs IH]; intros P; simpl; [done|].
  intros [Hl Hls]%Forall_cons [Hf Hfs]. split; [|by apply IH].
  intros o Ho Hle. destruct (Hg o Ho) as [?|?]; [by apply Hf|lia].
Qed.

(** ** The invariant *)

Section invariant.
Context `{!JsonPrint}.
Variable log0 : list (string * Z * Value).
Variable lcs0 : Z.

Definition safe (s : Conn) (o : Outgoing) : Prop := entry o ∈ log (server s) ∨ o ∈ shed s.

(** Known to the server, or before all that is sent from now on. *)
Definition base (s : Conn) (o : Outgoing) : Prop := safe s o ∨ carried (frames (wire s)) o.

Definition sent_ok (s : Conn) (n : Z) : Prop :=
  (n ≤ seq (inner s))%Z ∧ ∀ o, o ∈ assigned s → (o_seq o ≤ n)%Z → base s o.

(** What is about to be sent, in order, with nothing left out before it. *)
Record pending (s : Conn) (l : list Outgoing) : Prop := {
  pend_sorted : StronglySorted Z.lt (map o_seq l);
  pend_assigned o : o ∈ l → o ∈ assigned s;
  pend_rest o : o ∈ assigned s → base s o ∨ o ∈ l ∨ ∀ j, j ∈ l → (o_seq j < o_seq o)%Z;
}.

Definition single (o : Outgoing) : Prop := is_pty o = false.

Definition flusher_ok (s : Conn) (f : Flusher) : Prop :=
  match f with
  | FPark => True
  | FLoop run rest => pending s (run ++ rest) ∧ Forall (λ o, is_pty o = true) run
  | FSend item rest => pending s (item :: rest) ∧ single item
  | FSent item rest => sent_ok s (o_seq item) ∧ pending s rest
  | FWait _ last next rest => sent_ok s last ∧ pending s (option_list next ++ rest) ∧ Forall single (option_list next)
  | FAck acked next rest =>
      pending s (option_list next ++ rest) ∧ Forall single (option_list next) ∧
      ∀ n, acked = Some n → (n ≤ lcs (server s))%Z
  end.

Definition heart_ok (s : Conn) (h : Heart) : Prop := match h with HSend n => sent_ok s n | _ => True end.

Record frame_ok (A : list Outgoing) (n : Z) (fresh : nat) (f : Frame) : Prop := {
  frame_ours e : e ∈ frame_entries f → ∃ o, o ∈ A ∧ e = entry o;
  frame_level : (level f ≤ n)%Z;
  frame_ref : (fr_ref f < fresh)%nat;
}.

Record wire_ok (s : Conn) (w : Wire) : Prop := {
  wire_frames : Forall (frame_ok (assigned s) (seq (inner s)) (next_ref s)) (frames w);
  wire_registered : registered w = false → Forall (λ f, frame_entries f = []) (frames w);
  wire_covered : covered (assigned s) (safe s) (frames w);
}.

Record outbox_ok (s : Conn) (i : ChannelInner) : Prop := {
  out_sorted : StronglySorted Z.lt (map o_seq (outbox i));
  out_assigned o : o ∈ outbox i → o ∈ assigned s;
  out_kept o : o ∈ assigned s → o ∈ outbox i ∨ safe s o;
  out_acked : (last_acked i ≤ lcs (server s))%Z;
}.

Definition phase_ok (s : Conn) : Prop :=
  match phase s with
  | Registering r =>
      (r < next_ref s)%nat ∧
      (∀ f, f ∈ frames (wire s) → fr_ref f = r → fr_event f = "session_register" ∨ fr_event f = "session_resume") ∧
      (∀ w f, w ∈ old_wires s → f ∈ frames w → fr_ref f ≠ r) ∧
      (∀ v, (r, Ok v) ∈ replies s → registered (wire s) = true ∧ (opened s = false → mark_of v = Some lcs0))
  | Live => registered (wire s) = true ∧ opened s = true
  | _ => True
  end.

Record conn_ok (s : Conn) : Prop := {
  ok_items : items_ok lcs0 (assigned s) (seq (inner s));
  ok_outbox : outbox_ok s (inner s);
  ok_safe o : o ∈ assigned s → (o_seq o ≤ lcs (server s))%Z → safe s o;
  ok_mark : if opened s then (lcs0 ≤ lcs (server s) ≤ seq (inner s))%Z
            else seq (inner s) = 0%Z ∧ lcs (server s) = lcs0;
  ok_log : log_ok log0 (assigned s) (log (server s));
  ok_shed o : o ∈ shed s → o ∈ assigned s ∧ is_pty o = true;
  ok_wire : wire_ok s (wire s);
  ok_olds w : w ∈ old_wires s → wire_ok s w;
  ok_replies r v m : (r, Ok v) ∈ replies s → mark_of v = Some m → (m ≤ lcs (server s))%Z;
  ok_refs r x : (r, x) ∈ replies s → (r < next_ref s)%nat;
  ok_phase : phase_ok s;
  ok_parked : phase s ≠ Live → flushers s = [] ∧ heart s = HIdle;
  ok_live : phase s = Live → sent_ok s (sent_upto (inner s)) ∧ Forall (flusher_ok s) (flushers s) ∧ heart_ok s (heart s);
}.

(** What a step may change without disturbing the tasks of the client. *)
Record grows (s s' : Conn) : Prop := {
  gr_old o : o ∈ assigned s → o ∈ assigned s';
  gr_new o : o ∈ assigned s' → o ∈ assigned s ∨ (seq (inner s) < o_seq o)%Z;
  gr_seq : (seq (inner s) ≤ seq (inner s'))%Z;
  gr_base o : o ∈ assigned s → base s o → base s' o;
  gr_lcs : (lcs (server s) ≤ lcs (server s'))%Z;
}.

Lemma sent_grows s s' n : grows s s' → sent_ok s n → sent_ok s' n.
Proof.
  intros [_ Hnew Hseq Hbase _] [Hn Hs]. split; [lia|]. intros o Ho Hle.
  destruct (Hnew o Ho) as [Ho'|?]; [by apply Hbase, Hs|lia].
Qed.

Lemma pending_grows s s' l : items_ok lcs0 (assigned s) (seq (inner s)) → grows s s' → pending s l → pending s' l.
Proof.
  intros Hi [Hold Hnew _ Hbase _] [Hs Ha Hr]. split; [done|auto|]. intros o Ho.
  destruct (Hnew o Ho) as [Ho'|Hlt]; [destruct (Hr o Ho') as [?|?]; [by left; apply Hbase|by right]|].
  right; right. intros j Hj. pose proof (items_range _ _ _ Hi j (Ha j Hj)). lia.
Qed.

Lemma flusher_grows s s' f : items_ok lcs0 (assigned s) (seq (inner s)) → grows s s' → flusher_ok s f → flusher_ok s' f.
Proof.
  intros Hi Hg. pose proof (pending_grows s s') as Hp. pose proof (sent_grows s s') as Hs.
  pose proof (gr_lcs _ _ Hg) as Hl. destruct f; simpl; try naive_solver.
  intros (? & ? & Ha). split_and!; [auto|done|]. intros n Hn. specialize (Ha n Hn). lia.
Qed.

Lemma flushers_grow s s' l : items_ok lcs0 (assigned s) (seq (inner s)) → grows s s' →
  Forall (flusher_ok s) l → Forall (flusher_ok s') l.
Proof. intros Hi Hg Hl. eapply Forall_impl; [exact Hl|]. intros f. by apply flusher_grows. Qed.

Lemma heart_grows s s' h : grows s s' → heart_ok s h → heart_ok s' h.
Proof. intros Hg. destruct h; simpl; [done|by apply sent_grows|done]. Qed.

Lemma live_grows s s' : items_ok lcs0 (assigned s) (seq (inner s)) → grows s s' →
  flushers s' = flushers s → heart s' = heart s → sent_upto (inner s') = sent_upto (inner s) →
  sent_ok s (sent_upto (inner s)) ∧ Forall (flusher_ok s) (flushers s) ∧ heart_ok s (heart s) →
  sent_ok s' (sent_upto (inner s')) ∧ Forall (flusher_ok s') (flushers s') ∧ heart_ok s' (heart s').
Proof.
  intros Hi Hg -> -> -> (? & ? & ?). split_and!; [by apply (sent_grows s)|by apply (flushers_grow s)|by apply (heart_grows s)].
Qed.

Lemma wire_grows s s' w : (∀ o, o ∈ assigned s → o ∈ assigned s') →
  (∀ o, o ∈ assigned s' → o ∈ assigned s ∨ (seq (inner s) < o_seq o)%Z) → (seq (inner s) ≤ seq (inner s'))%Z →
  (next_ref s ≤ next_ref s')%nat → (∀ o, o ∈ assigned s → safe s o → safe s' o) →
  wire_ok s w → wire_ok s' w.
Proof.
  intros Hold Hnew Hseq Href Hsafe [Hf Hr Hc]. split; [|done|].
  - eapply Forall_impl; [exact Hf|]. intros f [Ho Hl Hfr]. split; [|lia|lia].
    intros e (o & ? & ?)%Ho. exists o. auto.
  - apply (covered_grow (assigned s) _ _ _ (seq (inner s))); [done| |].
    + eapply Forall_impl; [exact Hf|]. by intros f [_ Hl _].
    + revert Hc. by apply covered_mono.
Qed.

(** Steps inside the client. *)
Lemma outbox_grows s s' i : assigned s' = assigned s → (∀ o, o ∈ assigned s → safe s o → safe s' o) →
  (lcs (server s) ≤ lcs (server s'))%Z → outbox_ok s i → outbox_ok s' i.
Proof.
  intros HA Hs Hl [Hso Ha Hk Hac]. split; [done|by rewrite HA| |lia].
  rewrite HA. intros o Ho. destruct (Hk o Ho); [by left|right; auto].
Qed.

Lemma ok_tasks s l h : conn_ok s → phase s = Live → Forall (flusher_ok s) l → heart_ok s h →
  conn_ok (set_flushers l (set_heart h s)).
Proof.
  intros [] HL Hf Hh. set (s' := set_flushers l (set_heart h s)).
  assert (Hg : grows s s') by (split; simpl; auto; lia).
  constructor; try assumption; [apply (outbox_grows s); simpl; auto; lia|apply (wire_grows s); simpl; auto; lia| |by intros Hne; destruct Hne|].
  - intros w Hw. apply (wire_grows s); simpl; auto; lia.
  - intros _. destruct (ok_live0 HL) as (? & ? & ?).
    split_and!; [by apply (sent_grows s)|by apply (flushers_grow s)|by apply (heart_grows s)].
Qed.

Lemma ok_set_flushers s l : conn_ok s → phase s = Live → Forall (flusher_ok s) l → conn_ok (set_flushers l s).
Proof.
  intros Hok HL Hf. destruct (ok_live _ Hok HL) as (_ & _ & Hh).
  pose proof (ok_tasks s l (heart s) Hok HL Hf Hh) as H'. by destruct s.
Qed.

(** One flusher goes on, the others stay where they are. *)
Lemma ok_set_flusher s k f : conn_ok s → phase s = Live → flusher_ok s f → conn_ok (set_flusher k f s).
Proof.
  intros Hok HL Hf. destruct (ok_live _ Hok HL) as (_ & Hfs & _). apply ok_set_flushers; [done..|].
  by apply Forall_insert.
Qed.

Lemma ok_set_heart s h : conn_ok s → phase s = Live → heart_ok s h → conn_ok (set_heart h s).
Proof.
  intros Hok HL Hh. destruct (ok_live _ Hok HL) as (_ & Hf & _).
  pose proof (ok_tasks s (flushers s) h Hok HL Hf Hh) as H'. by destruct s.
Qed.

Lemma ok_set_inner s i : conn_ok s → seq i = seq (inner s) → outbox_ok s i → (phase s = Live → sent_ok s (sent_upto i)) →
  conn_ok (set_inner i s).
Proof.
  intros [] Hi Hout Hsent.
  assert (Hg : grows s (set_inner i s)) by (split; simpl; auto; lia).
  constructor; try assumption.
  - unfold set_inner. simpl. by rewrite Hi.
  - apply (outbox_grows s); simpl; auto; lia.
  - unfold set_inner. simpl. by rewrite Hi.
  - apply (wire_grows s); simpl; auto; lia.
  - intros w Hw. apply (wire_grows s); simpl; auto; lia.
  - intros HL. destruct (ok_live0 HL) as (_ & ? & ?).
    split_and!; [apply (sent_grows s); auto|by apply (flushers_grow s)|by apply (heart_grows s)].
Qed.

(** A frame sent on a live connection. *)
Lemma ok_send s event payload : let f := mkFrame (next_ref s) event payload in
  conn_ok s → phase s = Live →
  (∀ e, e ∈ frame_entries f → ∃ o, o ∈ assigned s ∧ e = entry o) → (level f ≤ seq (inner s))%Z →
  (∀ o, o ∈ assigned s → (o_seq o ≤ level f)%Z → base s o ∨ entry o ∈ frame_entries f) →
  conn_ok (send_frame event payload s) ∧ grows s (send_frame event payload s) ∧
  ∀ o, entry o ∈ frame_entries f → base (send_frame event payload s) o.
Proof.
  intros f [] HL Hours Hlevel Hcov. set (s' := send_frame event payload s).
  assert (Hcar : frames (wire s') = (frames (wire s) ++ [f])%list) by done.
  assert (Hnew : ∀ o, entry o ∈ frame_entries f → base s' o).
  { intros o Ho. right. unfold carried. rewrite Hcar flat_map_app. apply elem_of_app. right. simpl. by rewrite app_nil_r. }
  assert (Hg : grows s s').
  { split; simpl; [auto|auto|lia| |lia]. intros o _ [?|Hc]; [by left|]. right. unfold carried in *. rewrite Hcar flat_map_app.
    apply elem_of_app. by left. }
  assert (Hw : ∀ w, wire_ok s w → wire_ok s' w) by (intros w; apply wire_grows; simpl; auto; lia).
  split_and!; [|done|done]. unfold phase_ok in ok_phase0. rewrite HL in ok_phase0. constructor; try assumption.
  - apply (outbox_grows s); simpl; auto; lia.
  - destruct (Hw _ ok_wire0) as [Hfr Hreg Hc]. split; simpl; rewrite ?Hcar.
    + apply Forall_app. split; [done|]. apply Forall_singleton. split; [exact Hours|exact Hlevel|simpl; lia].
    + destruct ok_phase0 as [Hr _]. congruence.
    + apply covers_snoc; [done|]. intros o Ho Hle. destruct (Hcov o Ho Hle) as [[?|?]|?]; auto.
  - intros w Hin. apply Hw. by apply ok_olds0.
  - intros r x Hin. specialize (ok_refs0 r x Hin). simpl. lia.
  - unfold phase_ok. simpl. by rewrite HL.
  - intros _. apply (live_grows s); auto.
Qed.

(** The server's steps. *)
Hypothesis settled : ∀ e, e ∈ log0 → (e.1.2 ≤ lcs0)%Z.
Hypothesis lcs0_u64 : is_u64 lcs0.

Record served (s s' : Conn) (w w' : Wire) (f : Frame) (rest : list Frame) : Prop := {
  sv_log : log_ok log0 (assigned s) (log (server s'));
  sv_old e : e ∈ log (server s) → e ∈ log (server s');
  sv_entries e : e ∈ frame_entries f → e ∈ log (server s');
  sv_lcs : (lcs (server s) ≤ lcs (server s') ≤ Z.max (lcs (server s)) (level f))%Z;
  sv_wire : frames w' = rest;
  sv_registered : registered w = true → registered w' = true;
  sv_replies r x : (r, x) ∈ replies s' → (r, x) ∈ replies s ∨ r = fr_ref f;
  sv_marks r v m : (r, Ok v) ∈ replies s' → mark_of v = Some m → (m ≤ lcs (server s'))%Z;
}.

(** The reply to a registration is the mark, unless it was refused. *)
Definition registration (s s' : Conn) (w w' : Wire) (f : Frame) : Prop :=
  fr_event f = "session_register" ∨ fr_event f = "session_resume" →
  ∀ r v, (r, Ok v) ∈ replies s' → (r, Ok v) ∈ replies s ∨ (registered w' = true ∧ mark_of v = as_u64 (num (lcs (server s)))).

Lemma serve_spec s w f rest w' srv rs s' : conn_ok s → wire_ok s w → frames w = f :: rest →
  serve_wire f rest w s = (w', srv, rs) → server s' = srv → replies s' = rs →
  served s s' w w' f rest ∧ registration s s' w w' f.
Proof.
  intros Hok Hw Hf Hs <- <-. unfold serve_wire in Hs.
  destruct (handle_in (registered w) f (server s)) as [[reg srv] reply] eqn:Eh.
  injection Hs as <- Hsrv Hrs.
  assert (Hreg : registered w = true ∨ frame_entries f = []).
  { destruct (registered w) eqn:E; [by left|right]. pose proof (wire_registered _ _ Hw E) as Hr. rewrite Hf in Hr.
    by apply Forall_cons in Hr as [? _]. }
  destruct (handle_in_spec _ _ _ _ _ _ Hreg Eh) as (Hlog & Hlcs & Hr & Hm). rewrite Hsrv in Hlog, Hlcs, Hm.
  pose proof (wire_frames _ _ Hw) as Hfr. rewrite Hf in Hfr. apply Forall_cons in Hfr as [[Hours _ _] _].
  destruct (record_all_ok log0 lcs0 settled _ _ _ _ (ok_items _ Hok) (ok_log _ Hok) Hours) as (Hlo & Hold & Hent).
  rewrite -Hlog in Hlo, Hold, Hent.
  split; [split; try done|].
  - intros r x. rewrite -Hrs. intros [?|Hin]%elem_of_app; [by left|right].
    destruct reply as [y|]; [|by apply not_elem_of_nil in Hin]. apply list_elem_of_singleton in Hin. congruence.
  - intros r v m. rewrite -Hrs. intros [Hin|Hin]%elem_of_app Hmv; [pose proof (ok_replies _ Hok r v m Hin Hmv); lia|].
    destruct reply as [y|]; [|by apply not_elem_of_nil in Hin]. apply list_elem_of_singleton in Hin. injection Hin as _ <-. by apply (Hm v).
  - intros He r v. rewrite -Hrs. unfold handle_in in Eh. rewrite decide_False in Eh; [destruct He; congruence|].
    rewrite decide_True // in Eh. injection Eh as <- Hsrv' <-.
    intros [?|Hin]%elem_of_app; [by left|right]. apply list_elem_of_singleton in Hin. injection Hin as _ ->. done.
Qed.

Lemma ok_serve s s' w w' f rest : conn_ok s → wire_ok s w → frames w = f :: rest → served s s' w w' f rest →
  inner s' = inner s → assigned s' = assigned s → shed s' = shed s → next_ref s' = next_ref s → opened s' = opened s →
  (∀ v, wire_ok s v → wire_ok s' v) ∧ wire_ok s' w' ∧ (∀ o, safe s o → safe s' o) ∧
  (∀ o, o ∈ assigned s → (o_seq o ≤ lcs (server s'))%Z → safe s' o) ∧
  (if opened s' then (lcs0 ≤ lcs (server s') ≤ seq (inner s'))%Z else seq (inner s') = 0%Z ∧ lcs (server s') = lcs0).
Proof.
  intros Hok Hw Hf [_ Hold Hent Hlcs Hwr Hreg _ _] Hi HA HS Hn Ho.
  assert (Hsafe : ∀ o, safe s o → safe s' o) by (intros o [?|?]; [left; auto|right; by rewrite HS]).
  pose proof Hw as [Hfr Hreg' Hcov]. rewrite Hf in Hfr Hreg' Hcov. destruct Hcov as [Hhead Htail].
  apply Forall_cons in Hfr as [[Hours Hlevel Hfresh] Hfr].
  assert (Hmono : ∀ v, wire_ok s v → wire_ok s' v).
  { intros v. apply wire_grows; rewrite ?HA ?Hi ?Hn; auto; lia. }
  split_and!; [done| |done| |].
  - split; rewrite ?Hwr ?HA ?Hi ?Hn; [done| |].
    + intros Hf'. destruct (registered w) eqn:E; [rewrite Hreg // in Hf'|]. by destruct (proj1 (Forall_cons _ _ _) (Hreg' eq_refl)).
    + revert Htail. apply covered_mono. intros o _ [?|?]; [auto|left; auto].
  - intros o Hoa Hle. destruct (decide (o_seq o ≤ lcs (server s))%Z) as [?|Hgt]; [apply Hsafe; by apply (ok_safe _ Hok)|].
    destruct (Hhead o Hoa) as [?|?]; [lia|auto|left; auto].
  - pose proof (ok_mark _ Hok) as Hmark. rewrite Ho Hi. destruct (opened s); [lia|]. destruct Hmark as [H1 H2]. split; [done|].
    unfold is_u64 in lcs0_u64. lia.
Qed.

Lemma phase_serve s s' (cur : bool) w w' f rest : conn_ok s → wire_ok s w → frames w = f :: rest →
  served s s' w w' f rest → registration s s' w w' f → phase s' = phase s → opened s' = opened s → next_ref s' = next_ref s →
  (if cur then w = wire s ∧ wire s' = w' ∧ old_wires s' = old_wires s
   else w ∈ old_wires s ∧ wire s' = wire s ∧ (∀ v, v ∈ old_wires s' → v = w' ∨ v ∈ old_wires s)) →
  phase_ok s'.
Proof.
  intros Hok Hw Hf [_ _ _ _ Hwr Hreg Hrep _] Hregister Hp Ho Hn Hcur. pose proof (ok_phase _ Hok) as Hph.
  unfold phase_ok in *. rewrite Hp Ho Hn. destruct (phase s) as [|r|r|]; [done..| |].
  - destruct Hph as (Hlt & Hframes & Holds & Hreply). split; [done|]. destruct cur.
    + destruct Hcur as (-> & -> & ->). split_and!; [|done|].
      * intros g Hg. apply Hframes. rewrite Hf. rewrite Hwr in Hg. by constructor.
      * intros v Hv. destruct (decide (fr_ref f = r)) as [Heq|Hne].
        -- destruct (Hregister (Hframes f ltac:(rewrite Hf; constructor) Heq) r v Hv) as [Hin|[Hr Hm]].
           { destruct (Hreply v Hin). auto. }
           split; [done|]. intros Hop. pose proof (ok_mark _ Hok) as Hmark. rewrite Hop in Hmark.
           rewrite Hm (proj2 Hmark). unfold is_u64 in lcs0_u64. simpl.
           rewrite (proj2 (Z.leb_le 0 lcs0)); [lia|]. rewrite (proj2 (Z.leb_le lcs0 u64_max)) //. lia.
        -- destruct (Hrep r (Ok v) Hv) as [Hin|?]; [|congruence]. destruct (Hreply v Hin) as [? ?]. auto.
    + destruct Hcur as (Hin & Hwire & Hold). rewrite Hwire. split_and!; [done| |].
      * intros v g Hv Hg. destruct (Hold v Hv) as [->|?]; [|by apply (Holds v)]. rewrite Hwr in Hg.
        apply (Holds w); [done|rewrite Hf; by constructor].
      * intros v Hv. destruct (Hrep r (Ok v) Hv) as [Hi|Heq]; [by apply Hreply|].
        exfalso. apply (Holds w f Hin); [rewrite Hf; constructor|done].
  - destruct cur; [destruct Hcur as (-> & -> & _)|destruct Hcur as (_ & -> & _)]; split; try apply Hph; apply Hreg, Hph.
Qed.

(** A step of the server keeps the invariant. *)
Lemma ok_after_serve s s' w w' f rest : conn_ok s → wire_ok s w → frames w = f :: rest → served s s' w w' f rest →
  inner s' = inner s → assigned s' = assigned s → shed s' = shed s → next_ref s' = next_ref s → opened s' = opened s →
  flushers s' = flushers s → heart s' = heart s → phase s' = phase s → phase_ok s' →
  wire s' = wire s ∨ w = wire s ∧ wire s' = w' →
  (∀ v, v ∈ old_wires s' → v = w' ∨ v ∈ old_wires s) →
  conn_ok s'.
Proof.
  intros Hok Hw Hf Hs Hi HA HS Hn Ho Hfl Hh Hp Hph Hwire Holds.
  destruct (ok_serve s s' w w' f rest Hok Hw Hf Hs Hi HA HS Hn Ho) as (Hmono & Hw' & Hsafe & Hsf & Hmark).
  destruct Hs as [Hlog Hold Hent Hlcs Hwr Hreg Hrep Hmarks].
  assert (Hg : grows s s').
  { split; rewrite ?HA ?Hi; auto; [lia| |lia]. intros o _ [?|Hc]; [left; auto|].
    destruct Hwire as [Heq|[-> Heq]]; [right; by rewrite Heq|].
    unfold carried in Hc. rewrite Hf in Hc. simpl in Hc. apply elem_of_app in Hc as [Hc|Hc]; [left; left; auto|].
    right. unfold carried. by rewrite Heq Hwr. }
  split.
  - rewrite HA Hi. apply Hok.
  - rewrite Hi. apply (outbox_grows s); auto; [lia|apply Hok].
  - rewrite HA. done.
  - done.
  - by rewrite HA.
  - rewrite HS HA. apply Hok.
  - destruct Hwire as [->|[_ ->]]; [apply Hmono, Hok|done].
  - intros v Hv. destruct (Holds v Hv) as [->|?]; [done|by apply Hmono, Hok].
  - done.
  - intros r x Hr. rewrite Hn. destruct (Hrep r x Hr) as [?| ->]; [by apply (ok_refs _ Hok r x)|].
    pose proof (wire_frames _ _ Hw) as Hfr. rewrite Hf in Hfr. by apply Forall_cons in Hfr as [[_ _ ?] _].
  - done.
  - rewrite Hp Hfl Hh. apply Hok.
  - rewrite Hp. intros HL. apply (live_grows s); auto; [apply Hok|by rewrite Hi|by apply Hok].
Qed.

Lemma ok_serve_current s f rest : conn_ok s → frames (wire s) = f :: rest → conn_ok (serve_current f rest s).
Proof.
  intros Hok Hf. unfold serve_current. destruct (serve_wire f rest (wire s) s) as [[w' srv] rs] eqn:E.
  set (s' := mkConn _ _ _ _ _ _ _ _ _ _ _ _).
  pose proof (serve_spec s (wire s) f rest w' srv rs s' Hok (ok_wire _ Hok) Hf E eq_refl eq_refl) as [Hs Hr].
  apply (ok_after_serve s s' (wire s) w' f rest); try done; [by apply Hok| |by right|by right].
  apply (phase_serve s s' true (wire s) w' f rest); try done. by apply Hok.
Qed.

Lemma ok_serve_old s i w f rest : conn_ok s → old_wires s !! i = Some w → frames w = f :: rest →
  conn_ok (serve_old i w f rest s).
Proof.
  intros Hok Hi Hf. unfold serve_old. destruct (serve_wire f rest w s) as [[w' srv] rs] eqn:E.
  set (s' := mkConn _ _ _ _ _ _ _ _ _ _ _ _).
  assert (Hin : w ∈ old_wires s) by (by apply (list_elem_of_lookup_2 _ i)).
  assert (Hw : wire_ok s w) by by apply (ok_olds _ Hok).
  assert (Holds : ∀ v, v ∈ old_wires s' → v = w' ∨ v ∈ old_wires s).
  { intros v Hv. simpl in Hv. apply list_elem_of_lookup in Hv as [j Hj].
    destruct (decide (j = i)) as [->|Hne].
    - rewrite list_lookup_insert_eq in Hj; [by apply lookup_lt_Some in Hi|]. left. congruence.
    - rewrite list_lookup_insert_ne in Hj; [congruence|]. right. by apply (list_elem_of_lookup_2 _ j). }
  pose proof (serve_spec s w f rest w' srv rs s' Hok Hw Hf E eq_refl eq_refl) as [Hs Hr].
  apply (ok_after_serve s s' w w' f rest); try done; [|by left].
  by apply (phase_serve s s' false w w' f rest).
Qed.

Lemma ok_refuse s f rest : conn_ok s → frames (wire s) = f :: rest →
  fr_event f = "session_register" ∨ fr_event f = "session_resume" → conn_ok (refuse f rest s).
Proof.
  intros Hok Hf He. set (s' := refuse f rest s).
  assert (Hs : served s s' (wire s) (wire s') f rest).
  { assert (Hnil : frame_entries f = [] ∧ level f = 0%Z) by (unfold frame_entries, level; by destruct He as [-> | ->]).
    destruct Hnil as [Hnil Hlev].
    split; simpl; try done.
    - apply Hok.
    - intros e. rewrite Hnil. by intros ?%not_elem_of_nil.
    - lia.
    - intros r x [?|Hin%list_elem_of_singleton]%elem_of_app; [by left|right; congruence].
    - intros r v m [Hin|Hin%list_elem_of_singleton]%elem_of_app Hm; [by apply (ok_replies _ Hok r v)|congruence]. }
  assert (Hr : registration s s' (wire s) (wire s') f).
  { intros _ r v. simpl. intros [Hin|Hin%list_elem_of_singleton]%elem_of_app; [by left|congruence]. }
  apply (ok_after_serve s s' (wire s) (wire s') f rest); try done; [by apply Hok| |by right|by intros v ?; right].
  apply (phase_serve s s' true (wire s) (wire s') f rest); try done. by apply Hok.
Qed.

(** The outbox. *)
Lemma trim_spec upto bytes l l' bytes' : trim_to upto bytes l = (l', bytes') →
  ∃ d, l = (d ++ l')%list ∧ ∀ o, o ∈ d → (o_seq o ≤ upto)%Z.
Proof.
  revert bytes. induction l as [|o l IH]; intros bytes; simpl.
  - intros [= <- _]. exists []. split; [done|]. by intros o ?%not_elem_of_nil.
  - destruct (Z.leb_spec (o_seq o) upto) as [Hle|Hgt].
    + intros (d & -> & Hd)%IH. exists (o :: d). split; [done|]. intros x [->|?]%elem_of_cons; auto.
    + intros [= <- _]. exists []. split; [done|]. by intros x ?%not_elem_of_nil.
Qed.

Lemma outbox_trim s i upto bytes l' bytes' m u t : conn_ok s → outbox_ok s i → (upto ≤ lcs (server s))%Z →
  (m ≤ lcs (server s))%Z → trim_to upto bytes (outbox i) = (l', bytes') →
  outbox_ok s (mkInner (seq i) m u l' bytes' t).
Proof.
  intros Hok [Hs Ha Hk _] Hle Hm (d & Hd & Hupto)%trim_spec. rewrite Hd in Hs Ha Hk. rewrite map_app in Hs. split; simpl.
  - by apply StronglySorted_app in Hs as (_ & _ & ?).
  - intros o Ho. apply Ha, elem_of_app. by right.
  - intros o Ho. destruct (Hk o Ho) as [[Hin|?]%elem_of_app|?]; [|by left|by right].
    right. apply (ok_safe _ Hok o Ho). specialize (Hupto o Hin). lia.
  - done.
Qed.

Lemma settle_ok s i : outbox_ok s i → outbox_ok s (settle i).
Proof. intros Hi. unfold settle. destruct (outbox i) eqn:E; [|done]. destruct Hi as [Hs Ha Hk Hac]. rewrite E in Hs Ha Hk. by split. Qed.

Lemma settle_fields i : seq (settle i) = seq i ∧ sent_upto (settle i) = sent_upto i ∧ last_acked (settle i) = last_acked i.
Proof. unfold settle. by destruct (outbox i). Qed.

Lemma ok_advance s n : conn_ok s → phase s = Live → sent_ok s n → conn_ok (set_inner (advance_sent_upto n (inner s)) s).
Proof.
  intros Hok HL Hn. apply ok_set_inner; [done|done| |].
  - destruct (ok_outbox _ Hok) as [Hs Ha Hk Hac]. by split.
  - intros _. simpl. destruct (Z.max_spec (sent_upto (inner s)) n) as [[_ ->]|[_ ->]]; [done|]. by apply (ok_live _ Hok).
Qed.

Lemma ok_ack s n : conn_ok s → (n ≤ lcs (server s))%Z → conn_ok (set_inner (apply_ack n (inner s)) s).
Proof.
  intros Hok Hn. unfold apply_ack. destruct (trim_to _ _ _) as [l b] eqn:Et.
  pose proof (out_acked _ _ (ok_outbox _ Hok)) as Hac.
  pose proof (settle_fields (mkInner (seq (inner s)) (Z.max (last_acked (inner s)) n) (sent_upto (inner s)) l b (truncating (inner s)))) as (H1 & H2 & _).
  apply ok_set_inner; [done|done| |].
  - apply settle_ok. eapply outbox_trim; [done|by apply Hok| | |exact Et]; lia.
  - intros HL. rewrite H2. by apply (ok_live _ Hok).
Qed.

Lemma ok_ack_opt s o : conn_ok s → (∀ n, o = Some n → (n ≤ lcs (server s))%Z) →
  conn_ok (set_inner (match o with Some n => apply_ack n (inner s) | None => inner s end) s).
Proof. intros Hok Ho. destruct o as [n|]; [by apply ok_ack; auto|]. by destruct s. Qed.

Lemma take_pty_spec l o l' : take_pty l = Some (o, l') → ∃ l1 l2, l = (l1 ++ o :: l2)%list ∧ l' = (l1 ++ l2)%list ∧ is_pty o = true.
Proof.
  revert l'. induction l as [|x l IH]; intros l'; simpl; [done|]. destruct (is_pty x) eqn:Ex.
  - intros [= -> ->]. by exists [], l'.
  - destruct (take_pty l) as [[p r]|]; [|done]. simpl. intros [= -> <-]. destruct (IH r eq_refl) as (l1 & l2 & -> & -> & ?).
    by exists (x :: l1), l2.
Qed.

Lemma shed_spec fuel cap bytes l l' bytes' d : shed_loop fuel cap bytes l = (l', bytes', d) →
  (StronglySorted Z.lt (map o_seq l) → StronglySorted Z.lt (map o_seq l')) ∧
  (∀ o, o ∈ l' ∨ o ∈ d ↔ o ∈ l) ∧ (∀ o, o ∈ d → is_pty o = true).
Proof.
  assert (Hdone : ∀ l0 : list Outgoing, (∀ o, o ∈ l0 ∨ o ∈ [] ↔ o ∈ l0) ∧ ∀ o, o ∈ [] → is_pty o = true).
  { intros l0. split; [intros o; rewrite elem_of_nil; naive_solver|by intros o ?%not_elem_of_nil]. }
  revert bytes l d l' bytes'. induction fuel as [|fuel IH]; intros bytes l d l' bytes'; simpl; [intros [= -> _ <-]; by split|].
  destruct (Z.leb_spec bytes cap); [intros [= -> _ <-]; by split|].
  destruct (take_pty l) as [[o r]|] eqn:Et; [|intros [= -> _ <-]; by split].
  apply take_pty_spec in Et as (l1 & l2 & -> & -> & Hp).
  destruct (shed_loop fuel cap _ _) as [[l3 b3] d3] eqn:Es. intros [= -> _ <-].
  destruct (IH _ _ _ _ _ Es) as (Hs & Hin & Hd). split_and!.
  - intros Hsort. apply Hs. rewrite map_app /= in Hsort. rewrite map_app.
    apply StronglySorted_app in Hsort as (Hcross & H1 & [H2 _]%StronglySorted_inv). apply StronglySorted_app. split_and!; [|done|done].
    intros x y Hx Hy. apply Hcross; [done|by constructor].
  - intros x. rewrite elem_of_cons. specialize (Hin x). rewrite !elem_of_app in Hin. rewrite elem_of_app elem_of_cons. naive_solver.
  - intros x [->|?]%elem_of_cons; auto.
Qed.

Lemma items_snoc A n o : items_ok lcs0 A n → (lcs0 ≤ n)%Z → (n < o_seq o)%Z → sequence_of (o_payload o) = o_seq o →
  o_event o ∈ REPLAYABLE_EVENTS → items_ok lcs0 (A ++ [o]) (o_seq o).
Proof.
  intros [Hs Hr Hn He] Hl Hlt Hseq Hev. split.
  - rewrite map_app. apply StronglySorted_app. split_and!; [|done|by repeat constructor].
    intros x y (a & -> & Ha)%list_elem_of_fmap ->%list_elem_of_singleton. specialize (Hr a Ha). lia.
  - intros a [Ha| ->%list_elem_of_singleton]%elem_of_app; [specialize (Hr a Ha)|]; lia.
  - intros a [Ha| ->%list_elem_of_singleton]%elem_of_app; auto.
  - intros a [Ha| ->%list_elem_of_singleton]%elem_of_app; auto.
Qed.

Lemma sequence_num n l : (0 ≤ n ≤ u64_max)%Z → sequence_of (with_sequence n (Object l)) = n.
Proof.
  intros Hn. unfold sequence_of, with_sequence. simpl. rewrite obj_get_insert /=.
  rewrite (proj2 (Z.leb_le 0 n)); [lia|]. by rewrite (proj2 (Z.leb_le n u64_max)); [lia|].
Qed.

Lemma sequence_marker n : (0 ≤ n ≤ u64_max)%Z → sequence_of (o_payload (marker n)) = n.
Proof.
  intros Hn. unfold sequence_of. simpl. rewrite (proj2 (Z.leb_le 0 n)); [lia|].
  by rewrite (proj2 (Z.leb_le n u64_max)); [lia|].
Qed.

(** What a push does to the outbox and to the history. *)
Lemma push_spec event fields i A : let c := push_replayable event (Object fields) i in
  (lcs0 ≤ seq i)%Z → (0 ≤ seq i)%Z → (seq i + 2 < 2 ^ 64)%Z → event ∈ REPLAYABLE_EVENTS → items_ok lcs0 A (seq i) →
  StronglySorted Z.lt (map o_seq (outbox i)) → (∀ o, o ∈ outbox i → o ∈ A) →
  items_ok lcs0 (A ++ numbered c) (seq (now c)) ∧ (seq i < seq (now c) ≤ seq i + 2)%Z ∧
  (∀ o, o ∈ numbered c → (seq i < o_seq o)%Z) ∧
  StronglySorted Z.lt (map o_seq (outbox (now c))) ∧
  (∀ o, o ∈ outbox (now c) → o ∈ outbox i ∨ o ∈ numbered c) ∧
  (∀ o, o ∈ outbox i ∨ o ∈ numbered c → o ∈ outbox (now c) ∨ o ∈ dropped c) ∧
  (∀ o, o ∈ dropped c → (o ∈ outbox i ∨ o ∈ numbered c) ∧ is_pty o = true) ∧
  sent_upto (now c) = sent_upto i ∧ last_acked (now c) = last_acked i.
Proof.
  intros c Hlcs Hpos Hbound Hev HA Hsort Hin. set (n := (seq i + 1)%Z). set (o := mkOutgoing n event (with_sequence n (Object fields))).
  assert (Hw : wrap64 (seq i + 1) = n) by (unfold wrap64; apply Z.mod_small; lia).
  assert (Hw2 : wrap64 (n + 1) = (n + 1)%Z) by (unfold wrap64; apply Z.mod_small; lia).
  assert (HA1 : items_ok lcs0 (A ++ [o]) n).
  { apply (items_snoc A (seq i)); try done; [simpl; lia|]. apply sequence_num. simpl; unfold n, u64_max; lia. }
  assert (Hsort1 : StronglySorted Z.lt (map o_seq (outbox i ++ [o]))).
  { rewrite map_app. apply StronglySorted_app. split_and!; [|done|by repeat constructor].
    intros x y (a & -> & Ha)%list_elem_of_fmap ->%list_elem_of_singleton. pose proof (items_range _ _ _ HA a (Hin a Ha)). simpl. lia. }
  unfold c, push_replayable. rewrite Hw. fold o. unfold shed_outbox. cbn [outbox outbox_bytes seq truncating last_acked sent_upto].
  destruct (shed_loop _ _ _ _) as [[l b] d] eqn:Es. destruct (shed_spec _ _ _ _ _ _ _ Es) as (Hs & Hmem & Hpty).
  assert (Hrange : ∀ a, a ∈ l → (o_seq a ≤ n)%Z).
  { intros a Ha. apply (items_range _ _ _ HA1). assert (Hx : a ∈ (outbox i ++ [o])%list) by (apply Hmem; by left).
    apply elem_of_app in Hx as [?|?]; apply elem_of_app; auto. }
  assert (Hsplit : ∀ a, a ∈ (outbox i ++ [o])%list ↔ a ∈ outbox i ∨ a = o) by (intros a; by rewrite elem_of_app list_elem_of_singleton).
  case_match; cbn [now numbered dropped seq outbox sent_upto last_acked].
  - rewrite Hw2. replace (A ++ [o; marker (n + 1)])%list with ((A ++ [o]) ++ [marker (n + 1)])%list by by rewrite -app_assoc.
    split_and!; [|lia|lia| | | | | |done|done].
    + apply (items_snoc _ n (marker (n + 1))); [done|lia|simpl; lia|apply (sequence_marker (n + 1)); unfold n, u64_max; lia|by constructor].
    + intros a. rewrite !elem_of_cons elem_of_nil. intros [->|[->|[]]]; simpl; lia.
    + rewrite map_app. apply StronglySorted_app. split_and!; [|by apply Hs|by repeat constructor].
      intros x y (a & -> & Ha)%list_elem_of_fmap ->%list_elem_of_singleton. specialize (Hrange a Ha). simpl. lia.
    + intros a. rewrite elem_of_app list_elem_of_singleton !elem_of_cons. specialize (Hmem a). specialize (Hsplit a). naive_solver.
    + intros a. rewrite elem_of_app list_elem_of_singleton !elem_of_cons elem_of_nil. specialize (Hmem a). specialize (Hsplit a). naive_solver.
    + intros a Ha. split; [|by apply Hpty]. rewrite !elem_of_cons. specialize (Hmem a). specialize (Hsplit a). naive_solver.
  - split_and!; [done|lia|lia| |by apply Hs| | | |done|done].
    + intros a. rewrite !elem_of_cons elem_of_nil. intros [->|[]]. simpl; lia.
    + intros a. rewrite !elem_of_cons. specialize (Hmem a). specialize (Hsplit a). naive_solver.
    + intros a. rewrite !elem_of_cons elem_of_nil. specialize (Hmem a). specialize (Hsplit a). naive_solver.
    + intros a Ha. split; [|by apply Hpty]. rewrite !elem_of_cons. specialize (Hmem a). specialize (Hsplit a). naive_solver.
Qed.

Lemma ok_push s event fields : conn_ok s → opened s = true → event ∈ REPLAYABLE_EVENTS → (seq (inner s) + 2 < 2 ^ 64)%Z →
  let s' := change (push_replayable event (Object fields) (inner s)) s in
  conn_ok s' ∧ (seq (inner s') ≤ seq (inner s) + 2)%Z.
Proof.
  intros Hok Hop Hev Hb s'. pose proof (ok_mark _ Hok) as Hmark. rewrite Hop in Hmark.
  pose proof (ok_outbox _ Hok) as [Hso Has Hkept Hacked].
  destruct (push_spec event fields (inner s) (assigned s)) as (Hit & Hseq & Hnew & Hsort & Hsub & Hall & Hdrop & Hsu & Hla);
    [lia|unfold is_u64 in lcs0_u64; lia|done|done|apply Hok|done|done|].
  set (c := push_replayable event (Object fields) (inner s)) in *.
  assert (Hsafe : ∀ o, safe s o → safe s' o) by (intros o [?|?]; [by left|right; apply elem_of_app; by left]).
  assert (Hold : ∀ o, o ∈ assigned s → o ∈ assigned s') by (intros o Ho; apply elem_of_app; by left).
  assert (Hfresh : ∀ o, o ∈ assigned s' → o ∈ assigned s ∨ (seq (inner s) < o_seq o)%Z).
  { intros o [?|?]%elem_of_app; [by left|right; auto]. }
  assert (Hsq : (seq (inner s) < seq (inner s') ≤ seq (inner s) + 2)%Z) by exact Hseq.
  assert (Hw : ∀ w, wire_ok s w → wire_ok s' w) by (intros w; apply wire_grows; auto; lia).
  assert (Hg : grows s s').
  { split; [done|done|lia| |simpl; lia]. intros o _ [?|?]; [left; auto|by right]. }
  split; [|lia]. split.
  - done.
  - split; simpl; [done| | |by rewrite Hla].
    + intros o [?|?]%Hsub; apply elem_of_app; auto.
    + intros o Ho. assert (Hor : o ∈ outbox (inner s) ∨ o ∈ numbered c ∨ safe s o).
      { apply elem_of_app in Ho as [Ho|Ho]; [destruct (Hkept o Ho); auto|auto]. }
      destruct Hor as [Hin|[Hin|?]]; [| |right; auto];
        (destruct (Hall o) as [?|?]; [auto|by left|right; right; apply elem_of_app; by right]).
  - intros o [Ho|Ho]%elem_of_app Hle; [by apply Hsafe, (ok_safe _ Hok)|]. specialize (Hnew o Ho). simpl in Hle. lia.
  - change (opened s') with (opened s). rewrite Hop. change (server s') with (server s). lia.
  - destruct (ok_log _ Hok) as (new & Happ & Hours & Honce). exists new. split_and!; [done| |done].
    intros e He. destruct (Hours e He) as (o & ? & ?). exists o. auto.
  - intros o [Ho|Ho]%elem_of_app; [destruct (ok_shed _ Hok o Ho); auto|]. destruct (Hdrop o Ho) as [[?|?] ?]; split; auto.
    apply elem_of_app. by right.
  - apply Hw, Hok.
  - intros w Hin. by apply Hw, Hok.
  - apply Hok.
  - apply Hok.
  - apply (ok_phase _ Hok).
  - apply Hok.
  - intros HL. apply (live_grows s); try done; by apply Hok.
Qed.

(** Connections come and go. *)
Definition control (fresh : nat) (f : Frame) : Prop :=
  frame_entries f = [] ∧ level f = 0%Z ∧ (fr_ref f < fresh)%nat.

Lemma seq_nonneg s : conn_ok s → (0 ≤ seq (inner s))%Z ∧ ∀ o, o ∈ assigned s → (0 < o_seq o)%Z.
Proof.
  intros Hok. pose proof (ok_mark _ Hok) as Hm. unfold is_u64 in lcs0_u64. split; [destruct (opened s); lia|].
  intros o Ho. pose proof (items_range _ _ _ (ok_items _ Hok) o Ho). lia.
Qed.

Lemma covered_control s P nr fs : conn_ok s → Forall (control nr) fs → covered (assigned s) P fs.
Proof.
  intros Hok. revert P. induction fs as [|f fs IH]; intros P; simpl; [done|]. intros [(_ & Hl & _) Hfs]%Forall_cons.
  split; [|by apply IH]. intros o Ho. rewrite Hl. apply (seq_nonneg s) in Ho; [lia|done].
Qed.

Lemma control_wire s nr w : conn_ok s → Forall (control nr) (frames w) → (nr ≤ next_ref s)%nat → wire_ok s w.
Proof.
  intros Hok Hw Hnr. pose proof (proj1 (seq_nonneg s Hok)) as Hseq. split.
  - eapply Forall_impl; [exact Hw|]. intros f (He & Hl & Hf). split; [|lia|lia]. rewrite He. by intros e ?%not_elem_of_nil.
  - intros _. eapply Forall_impl; [exact Hw|]. by intros f (? & _).
  - by apply (covered_control s _ nr).
Qed.

(** References may be skipped. *)
Definition skip_refs (nr : nat) (s : Conn) : Conn :=
  mkConn (inner s) (phase s) (flushers s) (heart s) (opened s) nr (wire s) (old_wires s) (replies s) (server s) (assigned s) (shed s).

Lemma ok_skip s nr : conn_ok s → (next_ref s ≤ nr)%nat → conn_ok (skip_refs nr s).
Proof.
  intros [] Hnr. set (s' := skip_refs nr s).
  assert (Hm : ∀ v, wire_ok s v → wire_ok s' v) by (intros v; apply wire_grows; simpl; auto; lia).
  assert (Hg : grows s s') by (split; simpl; auto; lia).
  constructor; try assumption.
  - apply (outbox_grows s); simpl; auto; lia.
  - by apply Hm.
  - intros v Hv. by apply Hm, ok_olds0.
  - intros r x Hx. specialize (ok_refs0 r x Hx). simpl. lia.
  - unfold phase_ok in *. simpl. destruct (phase s); try done. destruct ok_phase0 as (? & ? & ? & ?). split_and!; auto; lia.
  - intros HL. by apply (live_grows s); auto.
Qed.

(** A change of connection, before it is live. *)
Lemma ok_reconnect s p w olds : let s' := mkConn (inner s) p [] HIdle (opened s) (next_ref s) w olds (replies s) (server s) (assigned s) (shed s) in
  conn_ok s → p ≠ Live → phase_ok s' → wire_ok s w → (∀ v, v ∈ olds → wire_ok s v) → conn_ok s'.
Proof.
  intros s' [] Hp Hph Hw Holds.
  assert (Hm : ∀ v, wire_ok s v → wire_ok s' v) by (intros v; apply wire_grows; simpl; auto; lia).
  constructor; try assumption.
  - apply (outbox_grows s); simpl; auto; lia.
  - by apply Hm.
  - intros v Hv. by apply Hm, Holds.
  - done.
  - intros HL. by destruct Hp.
Qed.

Lemma wire_take s k w : wire_ok s w → wire_ok s (mkWire (take k (frames w)) (registered w)).
Proof.
  intros [Hf Hr Hc]. split; simpl; [by apply Forall_take| |by apply covered_take].
  intros Hreg. by apply Forall_take, Hr.
Qed.

Lemma ok_disconnect s kept : conn_ok s → conn_ok (disconnect kept s).
Proof.
  intros Hok. apply (ok_reconnect s); [done|done|done|by apply (control_wire s 0); [|constructor|lia]|].
  intros v [->|Hv]%elem_of_cons; [by apply wire_take, Hok|by apply Hok].
Qed.

Lemma ok_connect s : conn_ok s → conn_ok (connect s).
Proof.
  intros Hok. pose proof (ok_skip s (S (next_ref s)) Hok ltac:(lia)) as Hok'.
  apply (ok_reconnect (skip_refs (S (next_ref s)) s)); [done|done|done| |by apply Hok'].
  apply (control_wire _ (S (next_ref s))); [done| |done]. repeat constructor.
Qed.

Lemma ok_joined s r event payload : conn_ok s → phase s = Joining r →
  event = "session_register" ∨ event = "session_resume" →
  conn_ok (set_phase (Registering (next_ref s)) (send_frame event payload s)).
Proof.
  intros Hok Hp He. pose proof (ok_skip s (S (next_ref s)) Hok ltac:(lia)) as Hok1.
  set (f := mkFrame (next_ref s) event payload). set (s1 := skip_refs (S (next_ref s)) s) in *.
  assert (Hc : control (S (next_ref s)) f) by (unfold control, frame_entries, level; destruct He as [-> | ->]; simpl; auto).
  set (w := mkWire (frames (wire s) ++ [f]) (registered (wire s))).
  assert (Hw : wire_ok s1 w).
  { destruct (ok_wire _ Hok1) as [Hf Hr Hcov]. destruct Hc as (Hn & Hl & Hlt). split; simpl.
    - apply Forall_app. split; [done|]. apply Forall_singleton. split; [by rewrite Hn; intros e ?%not_elem_of_nil| |done].
      rewrite Hl. by apply (seq_nonneg s).
    - intros Hreg. apply Forall_app. split; [by apply Hr|]. by apply Forall_singleton.
    - apply covers_snoc; [done|]. intros o Ho. rewrite Hl. apply (seq_nonneg s) in Ho; [lia|done]. }
  destruct (ok_parked _ Hok ltac:(rewrite Hp; done)) as [Hfl Hhe].
  assert (Heq : set_phase (Registering (next_ref s)) (send_frame event payload s) =
    mkConn (inner s) (Registering (next_ref s)) [] HIdle (opened s) (S (next_ref s)) w (old_wires s) (replies s) (server s) (assigned s) (shed s)).
  { unfold set_phase, send_frame. simpl. by rewrite Hfl Hhe. }
  rewrite Heq. apply (ok_reconnect s1); [done|done| |done|by apply Hok1].
  unfold phase_ok. simpl. split_and!; [lia| | |].
  - intros g [Hg| ->%list_elem_of_singleton]%elem_of_app Hr; [|done].
    pose proof (wire_frames _ _ (ok_wire _ Hok)) as Hf. rewrite Forall_forall in Hf. destruct (Hf g Hg). lia.
  - intros v g Hv Hg. pose proof (wire_frames _ _ (ok_olds _ Hok v Hv)) as Hf. rewrite Forall_forall in Hf. destruct (Hf g Hg). lia.
  - intros v Hv. pose proof (ok_refs _ Hok _ _ Hv). lia.
Qed.

Lemma items_le A n n' : items_ok lcs0 A n → (n ≤ n')%Z → items_ok lcs0 A n'.
Proof. intros [Hs Hr Hn He] Hle. split; try done. intros o Ho. specialize (Hr o Ho). lia. Qed.

Lemma ok_registered s r v : conn_ok s → phase s = Registering r → (r, Ok v) ∈ replies s →
  let s' := set_opened (set_phase Live (set_inner (resume (default 0%Z (mark_of v)) (inner s)) s)) in
  conn_ok s' ∧ (seq (inner s') ≤ Z.max lcs0 (seq (inner s)))%Z.
Proof.
  intros Hok Hp Hin s'. pose proof (ok_phase _ Hok) as Hph. unfold phase_ok in Hph. rewrite Hp in Hph.
  destruct Hph as (_ & _ & _ & Hreply). destruct (Hreply v Hin) as [Hreg Hfirst].
  destruct (ok_parked _ Hok ltac:(by rewrite Hp)) as [Hfl Hhe]. pose proof (ok_mark _ Hok) as Hmark.
  set (m := default 0%Z (mark_of v)) in *. unfold is_u64 in lcs0_u64.
  assert (Hm : (m ≤ lcs (server s))%Z).
  { unfold m. destruct (mark_of v) as [n|] eqn:E; [by apply (ok_replies _ Hok r v)|]. simpl. destruct (opened s); lia. }
  assert (Hseq : seq (inner s') = Z.max (seq (inner s)) m).
  { unfold s', resume. simpl. destruct (trim_to _ _ _) as [l b]. simpl. apply settle_fields. }
  assert (Hle : (seq (inner s) ≤ seq (inner s') ≤ Z.max lcs0 (seq (inner s)))%Z ∧ (lcs0 ≤ lcs (server s) ≤ seq (inner s'))%Z).
  { rewrite Hseq. destruct (opened s); [lia|]. unfold m. rewrite (Hfirst eq_refl). simpl. lia. }
  assert (Hm' : ∀ w, wire_ok s w → wire_ok s' w) by (intros w; apply wire_grows; simpl; auto; apply Hle).
  split; [|lia]. split.
  - apply (items_le _ (seq (inner s))); [apply Hok|lia].
  - apply (outbox_grows s); [done|done|simpl; lia|]. unfold s', resume. simpl.
    destruct (trim_to m (outbox_bytes (inner s)) (outbox (inner s))) as [l b] eqn:Et.
    pose proof (out_acked _ _ (ok_outbox _ Hok)) as Hac.
    destruct (settle_ok s (mkInner (Z.max (seq (inner s)) m) (Z.max (last_acked (inner s)) m) (sent_upto (inner s)) l b (truncating (inner s)))) as [H1 H2 H3 H4]; [|by split].
    apply (outbox_trim s (mkInner (Z.max (seq (inner s)) m) (last_acked (inner s)) (sent_upto (inner s)) (outbox (inner s)) (outbox_bytes (inner s)) (truncating (inner s))) m (outbox_bytes (inner s))); [done| |done|lia|done].
    destruct (ok_outbox _ Hok). by split.
  - apply Hok.
  - apply Hle.
  - apply Hok.
  - apply Hok.
  - apply Hm', Hok.
  - intros w Hw. by apply Hm', Hok.
  - apply Hok.
  - apply Hok.
  - by split.
  - intros Hne. by destruct Hne.
  - intros _. change (flushers s') with (flushers s). change (heart s') with (heart s). rewrite Hfl Hhe.
    split_and!; [|done|done]. assert (Hu : sent_upto (inner s') = m) by (unfold s', resume; simpl; by destruct (trim_to _ _ _)).
    rewrite Hu. split; [lia|]. intros o Ho Hom. left. apply (ok_safe _ Hok o Ho). lia.
Qed.

(** Frames of a live connection. *)
Lemma foldl_max_bound l n m : (n ≤ m)%Z → (∀ x, x ∈ l → x ≤ m)%Z → (foldl Z.max n l ≤ m)%Z.
Proof.
  revert n. induction l as [|x l IH]; intros n Hn Hl; simpl; [done|]. apply IH; [|intros; apply Hl; by constructor].
  specialize (Hl x ltac:(constructor)). lia.
Qed.

Lemma last_seq_max run rest o : StronglySorted Z.lt (map o_seq (run ++ rest)) → o ∈ run →
  (o_seq o ≤ last_seq run)%Z ∧ ∀ j, j ∈ rest → (last_seq run < o_seq j)%Z.
Proof.
  intros Hs Ho. destruct (exists_last (l := run)) as (init & z & ->); [by intros ->; apply not_elem_of_nil in Ho|].
  unfold last_seq. rewrite last_snoc. rewrite -app_assoc map_app /= in Hs.
  apply StronglySorted_app in Hs as (Hcross & _ & [_ Hz]%StronglySorted_inv). rewrite Forall_forall in Hz. split.
  - apply elem_of_app in Ho as [Ho| ->%list_elem_of_singleton]; [|lia].
    specialize (Hcross (o_seq o) (o_seq z) (list_elem_of_fmap_2 o_seq init o Ho) ltac:(constructor)). lia.
  - intros j Hj. apply Hz. by apply list_elem_of_fmap_2.
Qed.

Lemma batch_frame r run : (∀ o, o ∈ run → is_pty o = true ∧ sequence_of (o_payload o) = o_seq o) →
  frame_entries (mkFrame r PTY_OUTPUT_BATCH (build_pty_batch run)) = map entry run ∧
  level (mkFrame r PTY_OUTPUT_BATCH (build_pty_batch run)) = foldl Z.max 0%Z (map o_seq run).
Proof.
  intros Hrun. unfold frame_entries, level. cbn [fr_event fr_payload]. repeat (rewrite decide_True; [done|]).
  change (v_get "events" (build_pty_batch run) ≫= as_array) with (Some (map o_payload run)). cbn [default]. rewrite !map_map.
  split; [|f_equal]; apply map_ext_in; intros o [Hp Hs]%list_elem_of_In%Hrun; [|done].
  unfold entry. rewrite Hs. unfold is_pty in Hp. apply bool_decide_eq_true in Hp. by rewrite Hp.
Qed.

Lemma pend_before s run rest o : pending s (run ++ rest) → run ≠ [] → o ∈ assigned s → (o_seq o ≤ last_seq run)%Z →
  base s o ∨ o ∈ run.
Proof.
  intros [Hs _ Hr] Hne Ho Hle. destruct (exists_last Hne) as (init & z & Hrun).
  assert (Hz : z ∈ run) by (rewrite Hrun; apply elem_of_app; right; constructor).
  destruct (last_seq_max run rest z Hs Hz) as [_ Hrest].
  destruct (Hr o Ho) as [?|[Hin|Hlt]]; [by left| |].
  - apply elem_of_app in Hin as [?|Hin]; [by right|]. specialize (Hrest o Hin). lia.
  - specialize (Hlt z ltac:(apply elem_of_app; by left)). assert (Hl : last_seq run = o_seq z) by (rewrite Hrun /last_seq last_snoc //).
    lia.
Qed.

Lemma pend_after s s' run rest : items_ok lcs0 (assigned s) (seq (inner s)) → grows s s' → (∀ o, o ∈ run → base s' o) →
  pending s (run ++ rest) → pending s' rest.
Proof.
  intros Hi Hg Hrun Hp. destruct (pending_grows s s' _ Hi Hg Hp) as [Hs Ha Hr]. rewrite map_app in Hs.
  split; [by apply StronglySorted_app in Hs as (_ & _ & ?)|intros o Ho; apply Ha, elem_of_app; by right|].
  intros o Ho. destruct (Hr o Ho) as [?|[[?|?]%elem_of_app|Hlt]]; [by left|by left; auto|by right; left|].
  right; right. intros j Hj. apply Hlt, elem_of_app. by right.
Qed.

Lemma level_bounds s r run rest : conn_ok s → pending s (run ++ rest) → Forall (λ o, is_pty o = true) run → run ≠ [] →
  let f := mkFrame r PTY_OUTPUT_BATCH (build_pty_batch run) in
  frame_entries f = map entry run ∧ (level f ≤ last_seq run ≤ seq (inner s))%Z.
Proof.
  intros Hok Hp Hpty Hne. rewrite Forall_forall in Hpty.
  assert (Ha : ∀ o, o ∈ run → o ∈ assigned s) by (intros o Ho; apply (pend_assigned _ _ Hp), elem_of_app; by left).
  destruct (batch_frame r run) as [He Hl].
  { intros o Ho. split; [auto|]. by apply (items_numbered _ _ _ (ok_items _ Hok)), Ha. }
  split; [done|]. rewrite Hl. destruct (exists_last Hne) as (init & z & Hrun).
  assert (Hz : z ∈ run) by (rewrite Hrun; apply elem_of_app; right; constructor).
  assert (Hlz : last_seq run = o_seq z) by (rewrite Hrun /last_seq last_snoc //).
  pose proof (items_range _ _ _ (ok_items _ Hok) z (Ha z Hz)) as Hrange. unfold is_u64 in lcs0_u64. split; [|lia].
  apply foldl_max_bound; [lia|]. intros x (o & -> & Ho)%list_elem_of_fmap. by apply (last_seq_max run rest o (pend_sorted _ _ Hp)).
Qed.

Lemma flusher_at s k f : conn_ok s → phase s = Live → flushers s !! k = Some f → flusher_ok s f.
Proof. intros Hok HL Hk. destruct (ok_live _ Hok HL) as (_ & Hf & _). by apply (Forall_lookup_1 (flusher_ok s) (flushers s) k f). Qed.

(** A batch is sent, or fails. *)
Lemma ok_batch s k run rest : conn_ok s → phase s = Live → flushers s !! k = Some (FLoop run rest) → run ≠ [] →
  let s' := send_frame PTY_OUTPUT_BATCH (build_pty_batch run) s in
  conn_ok s' ∧ grows s s' ∧ sent_ok s' (last_seq run) ∧ pending s' rest.
Proof.
  intros Hok HL Hfl Hne s'. destruct (flusher_at s k _ Hok HL Hfl) as [Hp Hpty].
  destruct (level_bounds s (next_ref s) run rest Hok Hp Hpty Hne) as [He Hl].
  destruct (ok_send s PTY_OUTPUT_BATCH (build_pty_batch run)) as (Hok' & Hg & Hnew); try done.
  - rewrite He. intros e (o & -> & Ho)%list_elem_of_fmap. exists o. split; [|done].
    apply (pend_assigned _ _ Hp), elem_of_app. by left.
  - lia.
  - intros o Ho Hle. destruct (pend_before s run rest o Hp Hne Ho) as [?|?]; [lia|by left|right].
    rewrite He. by apply list_elem_of_fmap_2.
  - rewrite He in Hnew.
    assert (Hrun : ∀ o, o ∈ run → base s' o) by (intros o Ho; apply Hnew; by apply list_elem_of_fmap_2).
    split_and!; [done|done| |by apply (pend_after s s' run rest (ok_items _ Hok))].
    split; [apply Hl|]. intros o Ho Hle.
    destruct (pend_before s run rest o Hp Hne Ho Hle) as [?|?]; [by apply Hg|by apply Hrun].
Qed.

Lemma single_frame r o : single o → o_event o ∈ REPLAYABLE_EVENTS → sequence_of (o_payload o) = o_seq o →
  frame_entries (mkFrame r (o_event o) (o_payload o)) = [entry o] ∧ level (mkFrame r (o_event o) (o_payload o)) = 0%Z.
Proof.
  intros Hs Hev Hseq. unfold single, is_pty in Hs. apply bool_decide_eq_false in Hs.
  assert (Hne : o_event o ≠ PTY_OUTPUT_BATCH ∧ o_event o ≠ "heartbeat").
  { split; intros He; rewrite He in Hev; vm_compute in Hev; set_solver. }
  unfold frame_entries, level. cbn [fr_event fr_payload]. rewrite Hseq.
  rewrite decide_False; [apply Hne|]. rewrite decide_True //. rewrite decide_False; [apply Hne|]. rewrite decide_False //. apply Hne.
Qed.

(** An event is sent. *)
Lemma ok_item s k item rest : conn_ok s → phase s = Live → flushers s !! k = Some (FSend item rest) →
  let s' := send_frame (o_event item) (o_payload item) s in
  conn_ok s' ∧ grows s s' ∧ sent_ok s' (o_seq item) ∧ pending s' rest.
Proof.
  intros Hok HL Hfl s'. destruct (flusher_at s k _ Hok HL Hfl) as [Hp Hsingle].
  assert (Ha : item ∈ assigned s) by (apply (pend_assigned _ _ Hp); constructor).
  pose proof (ok_items _ Hok) as Hi.
  destruct (single_frame (next_ref s) item Hsingle (items_replayable _ _ _ Hi _ Ha) (items_numbered _ _ _ Hi _ Ha)) as [He Hl].
  pose proof (seq_nonneg s Hok) as [Hn Hpos].
  destruct (ok_send s (o_event item) (o_payload item)) as (Hok' & Hg & Hnew); try done.
  - rewrite He. intros e ->%list_elem_of_singleton. by exists item.
  - by rewrite Hl.
  - rewrite Hl. intros o Ho. specialize (Hpos o Ho). lia.
  - assert (Hb : base s' item) by (apply Hnew; rewrite He; constructor).
    split_and!; [done|done| |].
    + split; [apply (items_range _ _ _ Hi _ Ha)|]. intros o Ho Hle.
      destruct (pend_before s [item] rest o Hp ltac:(done) Ho Hle) as [?| ->%list_elem_of_singleton]; [by apply Hg|done].
    + apply (pend_after s s' [item] rest Hi Hg); [|done]. by intros o ->%list_elem_of_singleton.
Qed.

Lemma ok_beat s h : conn_ok s → phase s = Live → heart s = HSend h → conn_ok (send_frame "heartbeat" (beat h) s).
Proof.
  intros Hok HL Hh. destruct (ok_live _ Hok HL) as (_ & _ & Hho). rewrite Hh in Hho. destruct Hho as [Hn Hs].
  assert (Hl : (level (mkFrame (next_ref s) "heartbeat" (beat h)) ≤ Z.max 0 h)%Z ∧
    frame_entries (mkFrame (next_ref s) "heartbeat" (beat h)) = []).
  { split; [|done]. change (level _) with (sequence_of (beat h)). unfold sequence_of. simpl. case_match; simpl; lia. }
  destruct Hl as [Hl He]. pose proof (seq_nonneg s Hok) as [Hseq Hpos].
  apply ok_send; try done.
  - rewrite He. by intros e ?%not_elem_of_nil.
  - lia.
  - intros o Ho Hle. left. apply Hs; [done|]. specialize (Hpos o Ho). lia.
Qed.

Lemma run_ends_rest rest next rest' : run_ends rest = Some (next, rest') →
  rest = (option_list next ++ rest')%list ∧ Forall single (option_list next).
Proof.
  destruct rest as [|o rest]; simpl; [by intros [= <- <-]|]. destruct (is_pty o) eqn:E; [done|]. intros [= <- <-].
  split; [done|by repeat constructor].
Qed.

Lemma after_ok s next rest : pending s (option_list next ++ rest) → Forall single (option_list next) → flusher_ok s (after next rest).
Proof. destruct next as [o|]; simpl; [|done]. intros Hp Hs. split; [done|]. exact (Forall_inv Hs). Qed.

Lemma ok_to_send s : conn_ok s → phase s = Live → pending s (to_send (inner s)).
Proof.
  intros Hok HL. destruct (ok_live _ Hok HL) as ((_ & Hsent) & _). destruct (ok_outbox _ Hok) as [Hso Ha Hk _].
  assert (Hin : ∀ o, o ∈ to_send (inner s) ↔ o ∈ outbox (inner s) ∧ (sent_upto (inner s) < o_seq o)%Z).
  { intros o. unfold to_send. rewrite list_elem_of_In filter_In list_elem_of_In Z.ltb_lt. done. }
  split.
  - revert Hso. unfold to_send. generalize (outbox (inner s)). intros l. induction l as [|o l IH]; simpl; [done|].
    intros [Hs Hf]%StronglySorted_inv. case_match; simpl; [|by apply IH]. constructor; [by apply IH|].
    rewrite Forall_forall in Hf. apply Forall_forall. intros x (y & -> & Hy)%list_elem_of_fmap. apply Hf.
    apply list_elem_of_fmap_2, list_elem_of_In. by apply list_elem_of_In, filter_In in Hy as [? _].
  - intros o [Ho _]%Hin. by apply Ha.
  - intros o Ho. destruct (Hk o Ho) as [Hout|?]; [|by left; left].
    destruct (decide (o_seq o ≤ sent_upto (inner s))%Z); [left; by apply Hsent|right; left]. apply Hin. split; [done|lia].
Qed.

(** The ghost of a failed write. *)
Lemma ok_send_failed (P : Conn → Prop) arrived event payload s :
  P s → P (send_frame event payload s) → P (send_failed arrived event payload s).
Proof. intros Hs Hf. by destruct arrived. Qed.

Ltac same_seq := simpl; unfold serve_current, serve_old, send_failed; repeat case_match; simpl; lia.

Lemma ack_seq n i : seq (apply_ack n i) = seq i.
Proof. unfold apply_ack. destruct (trim_to _ _ _) as [l z]. by destruct (settle_fields (mkInner (seq i) (Z.max (last_acked i) n) (sent_upto i) l z (truncating i))). Qed.

Lemma conn_ok_step s s' : conn_ok s → conn_step s s' → (seq (inner s) + 2 < 2 ^ 64)%Z →
  conn_ok s' ∧ (seq (inner s') ≤ Z.max lcs0 (seq (inner s)) + 2)%Z.
Proof.
  intros Hok Hstep Hb. pose proof (ok_live s Hok) as Hlive.
  destruct Hstep as [event fields s Hop Hev|s Hp|r v event payload s Hp Hin He|r v s Hp Hin|kept s Hp|f rest s Hf|i w f rest s Hw Hf
    |f rest s Hf He|s HL Hn|k s HL Hfl|k run item rest s HL Hfl Hpty|k rest next rest' s HL Hfl Hr|k run rest next rest' s HL Hfl Hne Hr
    |k arrived run rest next rest' s HL Hfl Hne Hr|k r v last next rest s HL Hfl Hin|k r last next rest s HL Hfl|k acked next rest s HL Hfl
    |k item rest s HL Hfl|k arrived item rest s HL Hfl|k item rest s HL Hfl|s HL Hh Hlt|h s HL Hh|arrived h s HL Hh|r v s HL Hh Hin|r s HL Hh];
    try (pose proof (flusher_at s k _ Hok HL Hfl) as Hf; simpl in Hf; destruct (Hlive HL) as (Hsent & _)).
  - destruct (ok_push s event fields Hok Hop Hev Hb). split; [done|lia].
  - split; [by apply ok_connect|same_seq].
  - split; [by apply (ok_joined s r)|same_seq].
  - destruct (ok_registered s r v Hok Hp Hin). split; [done|lia].
  - split; [by apply ok_disconnect|same_seq].
  - split; [by apply ok_serve_current|same_seq].
  - split; [by apply ok_serve_old|same_seq].
  - split; [by apply ok_refuse|same_seq].
  - split; [|same_seq]. apply ok_set_flushers; [done..|]. apply Forall_app. split; [by destruct (Hlive HL) as (_ & ? & _)|by apply Forall_singleton].
  - split; [|same_seq]. apply ok_set_flusher; [done..|]. split; [by apply ok_to_send|constructor].
  - split; [|same_seq]. apply ok_set_flusher; [done..|]. destruct Hf as [Hpend Hrun]. simpl. rewrite -app_assoc. split; [done|].
    apply Forall_app. split; [done|by apply Forall_singleton].
  - split; [|same_seq]. apply run_ends_rest in Hr as [-> Hs]. apply ok_set_flusher; [done..|]. destruct Hf as [Hf _]. by apply after_ok.
  - split; [|same_seq]. apply run_ends_rest in Hr as [-> Hs]. destruct (ok_batch s k run _ Hok HL Hfl Hne) as (Hok' & _ & Hsent' & Hp').
    by apply ok_set_flusher.
  - split; [|same_seq]. apply run_ends_rest in Hr as [-> Hs]. destruct (ok_batch s k run _ Hok HL Hfl Hne) as (Hok' & _).
    apply ok_set_flusher; [|by destruct arrived|done]. by apply ok_send_failed.
  - split; [|same_seq]. destruct Hf as (Hl & Hp & Hs).
    apply (ok_advance (set_flusher k (FAck (mark_of v) next rest) s)); [|done|done].
    apply ok_set_flusher; [done..|]. split_and!; [done|done|]. intros n Hn. by apply (ok_replies _ Hok r v).
  - split; [|same_seq]. by apply ok_set_flusher.
  - destruct Hf as (Hp & Hs & Hack). split; [|destruct acked; simpl; rewrite ?ack_seq; lia].
    apply (ok_ack_opt (set_flusher k (after next rest) s)); [|done]. apply ok_set_flusher; [done..|]. by apply after_ok.
  - split; [|same_seq]. destruct (ok_item s k item rest Hok HL Hfl) as (Hok' & _ & Hs & Hp). by apply ok_set_flusher.
  - split; [|same_seq]. destruct (ok_item s k item rest Hok HL Hfl) as (Hok' & _).
    apply ok_set_flusher; [|by destruct arrived|done]. by apply ok_send_failed.
  - split; [|same_seq]. destruct Hf as [Hs Hp].
    apply (ok_advance (set_flusher k (FLoop [] rest) s)); [|done|done]. apply ok_set_flusher; [done..|]. by split.
  - split; [|same_seq]. apply ok_set_heart; [done..|]. by destruct (Hlive HL).
  - split; [|same_seq]. apply ok_set_heart; [by apply ok_beat|done|done].
  - split; [|same_seq]. apply ok_set_heart; [|by destruct arrived|done]. apply ok_send_failed; [done|by apply ok_beat].
  - split; [|simpl; destruct (mark_of v); rewrite ?ack_seq; lia].
    apply (ok_ack_opt (set_heart HIdle s)); [by apply ok_set_heart|]. intros n Hn. by apply (ok_replies _ Hok r v).
  - split; [|same_seq]. by apply ok_set_heart.
Qed.
End invariant.

(** ** The properties *)

Section delivery.
Context `{!JsonPrint}.

Lemma conn_ok_init srv : (∀ e, e ∈ log srv → (e.1.2 ≤ lcs srv)%Z) → is_u64 (lcs srv) →
  conn_ok (log srv) (lcs srv) (conn_init srv).
Proof.
  intros Hset [Hpos _].
  assert (Hnil : ∀ o : Outgoing, o ∉ []) by apply not_elem_of_nil.
  assert (Hitems : items_ok (lcs srv) [] 0) by (split; [constructor|intros o Ho; by destruct (Hnil o)..]).
  split; simpl; try done; try (by intros ? ?%not_elem_of_nil); try (by intros ? ? ?%not_elem_of_nil);
    try (by intros ? ? ? ?%not_elem_of_nil).
  - split; simpl; [constructor|intros o Ho; by destruct (Hnil o)|intros o Ho; by destruct (Hnil o)|done].
  - exists []. split_and!; [by rewrite app_nil_r|by intros e ?%not_elem_of_nil|constructor].
Qed.

Lemma conn_ok_steps log0 lcs0 n s s' : (∀ e, e ∈ log0 → (e.1.2 ≤ lcs0)%Z) → is_u64 lcs0 →
  nsteps conn_step n s s' → conn_ok log0 lcs0 s → (Z.max lcs0 (seq (inner s)) + 2 * Z.of_nat n < 2 ^ 64)%Z →
  conn_ok log0 lcs0 s'.
Proof.
  intros Hset Hu. induction 1 as [s|n s1 s2 s3 H12 _ IH]; [done|]. intros Hok Hb.
  destruct (conn_ok_step log0 lcs0 Hset Hu s1 s2 Hok H12) as [Hok2 Hseq]; [lia|]. apply IH; [done|lia].
Qed.

End delivery.

(** ** Runs *)

Section runs.
Definition no_print : JsonPrint := {| json_length _ := 0%Z |}.
#[local] Existing Instance no_print.

Definition serve (s : Conn) : Conn := match frames (wire s) with f :: rest => serve_current f rest s | [] => s end.
Definition register_payload : Value := obj [("cwd", Str "/work")].

Definition open_session (srv : Server) : Conn :=
  let s := serve (connect (conn_init srv)) in
  let s := serve (set_phase (Registering (next_ref s)) (send_frame "session_register" register_payload s)) in
  let s := set_opened (set_phase Live (set_inner (resume 0 (inner s)) s)) in
  set_flushers [FPark] s.

Definition codex (text : string) : list (string * Value) := [("text", Str text)].

Definition codex_one (text : string) : Outgoing := mkOutgoing 1 "codex_item" (with_sequence 1 (Object (codex text))).

(** A session is opened and one event pushed; it is sent and kept. *)
Definition pushed (text : string) (s : Conn) : Conn := change (push_replayable "codex_item" (Object (codex text)) (inner s)) s.
Definition flushed (s : Conn) : Conn := set_flusher 0 (FLoop [] (to_send (inner s))) s.
Definition picked (text : string) (s : Conn) : Conn := set_flusher 0 (FSend (codex_one text) []) s.
Definition sent (text : string) (s : Conn) : Conn :=
  set_flusher 0 (FSent (codex_one text) []) (send_frame "codex_item" (with_sequence 1 (Object (codex text))) s).
Definition push_one (text : string) (s : Conn) : Conn := serve (sent text (picked text (flushed (pushed text s)))).

(** Then the heartbeat acknowledges it. *)
Definition noted (s : Conn) : Conn := set_flusher 0 (FLoop [] []) (set_inner (advance_sent_upto 1 (inner s)) s).
Definition due (s : Conn) : Conn := set_heart (HSend (sent_upto (inner s))) s.
Definition beaten (s : Conn) : Conn := set_heart (HWait (next_ref s)) (send_frame "heartbeat" (beat 1) s).
Definition trimmed (s : Conn) : Conn := set_heart HIdle (set_inner (apply_ack 1 (inner s)) s).
Definition acknowledge (s : Conn) : Conn := trimmed (serve (beaten (due (noted s)))).

Lemma serve_step s : frames (wire s) ≠ [] → conn_step s (serve s).
Proof. unfold serve. destruct (frames (wire s)) as [|f rest] eqn:E; [done|]. intros _. by apply StepServe. Qed.

Ltac one_step next := apply (nsteps_l conn_step _ _ next); [|].
Ltac computed := vm_compute; first [reflexivity | discriminate | constructor].

Lemma open_steps srv : lcs srv = 0%Z → nsteps conn_step 6 (conn_init srv) (open_session srv).
Proof.
  destruct srv as [l n]. simpl. intros ->. unfold open_session. cbv zeta.
  eapply nsteps_l; [by apply StepConnect|]. eapply nsteps_l; [apply serve_step; computed|].
  eapply nsteps_l; [apply (StepJoined 0 (obj []) "session_register" register_payload); [computed|computed|by left]|].
  eapply nsteps_l; [apply serve_step; computed|].
  eapply nsteps_l; [apply (StepRegistered 1 (obj [("last_client_sequence", num 0)])); [computed|]|].
  { vm_compute. repeat constructor. }
  eapply nsteps_l; [apply StepStart; [computed|vm_compute; lia]|]. apply nsteps_O.
Qed.

Lemma push_steps text srv : lcs srv = 0%Z →
  nsteps conn_step 5 (open_session srv) (push_one text (open_session srv)).
Proof.
  destruct srv as [l n]. simpl. intros ->. unfold push_one.
  eapply nsteps_l; [apply (StepPush "codex_item" (codex text)); [computed|apply list_elem_of_In; simpl; tauto]|].
  eapply nsteps_l; [apply (StepFlush 0); computed|].
  eapply nsteps_l; [apply (StepNoRun 0 [codex_one text] (Some (codex_one text)) []); computed|].
  eapply nsteps_l; [apply (StepSend 0 (codex_one text) []); computed|]. eapply nsteps_l; [apply serve_step; computed|].
  apply nsteps_O.
Qed.

Lemma acknowledge_steps text srv : lcs srv = 0%Z → nsteps conn_step 5 (push_one text (open_session srv))
  (acknowledge (push_one text (open_session srv))).
Proof.
  destruct srv as [l n]. simpl. intros ->. unfold acknowledge.
  eapply nsteps_l; [apply (StepSent 0 (codex_one text) []); computed|]. eapply nsteps_l; [apply StepBeat; computed|].
  eapply nsteps_l; [apply (StepBeatSend 1); computed|]. eapply nsteps_l; [apply serve_step; computed|].
  eapply nsteps_l; [apply (StepBeatReply 3 (obj [("last_client_sequence", num 1)])); [computed|computed|]|apply nsteps_O].
  apply list_elem_of_In. vm_compute. tauto.
Qed.

(** A session from an empty server to one acknowledged event. *)
Definition example_run : Conn := acknowledge (push_one "hi" (open_session (mkServer [] 0))).

Lemma example_steps : nsteps conn_step 16 (conn_init (mkServer [] 0)) example_run.
Proof.
  apply (nsteps_trans 6 10 _ (open_session (mkServer [] 0))); [by apply open_steps|].
  apply (nsteps_trans 5 5 _ (push_one "hi" (open_session (mkServer [] 0)))); [by apply push_steps|by apply acknowledge_steps].
Qed.


(** A client that starts anew takes its numbers from the mark of the server.  An
    event that was kept but not acknowledged yet has a number above it: the next
    event of that type gets the same, is dropped as a repetition, and then
    acknowledged. *)
Definition before_restart : Conn := push_one "first" (open_session (mkServer [] 0)).
Definition after_restart : Conn := acknowledge (push_one "second" (open_session (server before_restart))).

Example restart_loses_an_event :
  nsteps conn_step 11 (conn_init (mkServer [] 0)) before_restart ∧
  nsteps conn_step 16 (conn_init (server before_restart)) after_restart ∧
  assigned after_restart = [codex_one "second"] ∧ outbox (inner after_restart) = [] ∧
  log (server after_restart) = [entry (codex_one "first")].
Proof.
  split_and!; [| |vm_compute; reflexivity..].
  - apply (nsteps_trans 6 5 _ (open_session (mkServer [] 0))); [by apply open_steps|by apply push_steps].
  - apply (nsteps_trans 6 10 _ (open_session (server before_restart))); [by apply open_steps|].
    apply (nsteps_trans 5 5 _ (push_one "second" (open_session (server before_restart)))); [by apply push_steps|by apply acknowledge_steps].
Qed.

(** The marker of a gap is terminal output itself, and is shed with it while the
    backlog lasts; no second one is made. *)
Definition output (n : Z) : Outgoing := mkOutgoing n "pty_output" (obj [("data", Str "0123456789012345678901234567890123456789012345678901234567890123456789")]).

Definition add (n : Z) (i : ChannelInner) : ChannelInner :=
  now (shed_outbox 110 (mkInner n (last_acked i) (sent_upto i) (outbox i ++ [output n]) (outbox_bytes i + 70) (truncating i))).

Example marker_is_shed :
  map o_seq (outbox (add 2 (add 1 inner_default))) = [2; 3]%Z ∧
  outbox (add 5 (add 4 (add 2 (add 1 inner_default)))) = [output 5].
Proof. vm_compute. split; reflexivity. Qed.
End runs.
