(* ===== verification/Socket.v ===== *)
(** * One connection for all channels (crates/omniagent-cli/src/client/conn.rs)

    The channels a daemon has open, the supervisor that joins them on each
    connection, the flushers it starts for them, and the requests that wait for a
    reply.  A channel's own state of delivery is that of [Conn]; here the handles,
    the supervisor, the server and the clock take steps in any order.  The map of
    channels is a hash map: a snapshot of it is in any order. *)
From S2P Require Import Prelude Str Json Client.

(** ** Channels *)

(** What a channel is for: a session, with its id once the server gave one, or
    the commands of the daemon, with what it advertises. *)
Inductive ChannelKind : Type := SessionChannel (session_id : option string) | ControlChannel (metadata : Value).

(** The caller that opened the channel. *)
Inductive Opener : Type := Waiting | Told | GaveUp.

#[global] Instance Waiter_eq_dec : EqDecision Opener.
Proof. solve_decision. Defined.

Record ChannelState : Type := mkChannel { ch_kind : ChannelKind; ch_waiter : Opener }.

(** What a handshake asks, after the join. *)
Definition handshake_event (k : ChannelKind) : string :=
  match k with
  | SessionChannel (Some _) => "session_resume"
  | SessionChannel None => "session_register"
  | ControlChannel _ => "daemon_register"
  end.

Definition tell_waiter (w : Opener) : Opener := match w with Waiting => Told | w => w end.

(** The end of [handshake_session] and [handshake_control]: the id the server
    gave is kept, who waits is told. *)
Definition handshaken (id : string) (c : ChannelState) : ChannelState :=
  mkChannel match ch_kind c with SessionChannel _ => SessionChannel (Some id) | k => k end (tell_waiter (ch_waiter c)).

(** ** The supervisor *)

Inductive Supervisor : Type :=
| Connecting
| HandshakeAll (todo live : list string)
| Serving (live : list string)
| Reconciling (todo live started : list string).

(** What a handshake put on the wire, and whether its reply was read. *)
Record Handshake : Type := mkHandshake { hs_topic : string; hs_event : string; hs_answered : bool }.

(** The states live as long as someone holds them, [channels] are those in the
    map; [permit] is that of [reconcile], [flushers] has a topic per task, [asked]
    the requests of handshakes that were sent, the newest first, those whose reply
    never came too. *)
Record Shared : Type := mkShared {
  states : gmap string ChannelState; channels : gset string;
  permit : bool; supervisor : Supervisor; flushers : list string; asked : list Handshake;
}.

Definition Shared_new : Shared := mkShared ∅ ∅ false Connecting [] [].

Definition snapshot_of (s : Shared) (l : list string) : Prop := NoDup l ∧ ∀ t, t ∈ l ↔ t ∈ channels s.

(** [register_channel]. *)
Definition insert_channel (t : string) (k : ChannelKind) (s : Shared) : Shared :=
  mkShared (<[t := mkChannel k Waiting]> (states s)) ({[t]} ∪ channels s) true (supervisor s) (flushers s) (asked s).

Definition remove_channel (t : string) (s : Shared) : Shared :=
  mkShared (states s) (channels s ∖ {[t]}) (permit s) (supervisor s) (flushers s) (asked s).

Definition set_state (t : string) (c : ChannelState) (s : Shared) : Shared :=
  mkShared (<[t := c]> (states s)) (channels s) (permit s) (supervisor s) (flushers s) (asked s).

Definition set_supervisor (p : Supervisor) (s : Shared) : Shared :=
  mkShared (states s) (channels s) (permit s) p (flushers s) (asked s).

(** [reconcile]: the channels of the snapshot that are not live. *)
Definition to_join (live l : list string) : list string := filter (λ t, t ∉ live) l.

(** A handshake that ended well, and what the supervisor goes on with. *)
Definition joined (t id : string) (c : ChannelState) (p : Supervisor) (s : Shared) : Shared :=
  mkShared (<[t := handshaken id c]> (states s)) (channels s) (permit s) p (flushers s)
    (mkHandshake t (handshake_event (ch_kind c)) true :: asked s).

(** A handshake that did not: the join failed, or the request went out and its
    reply did not come or was an error. *)
Definition not_joined (t : string) (sent : bool) (c : ChannelState) (s : Shared) : Shared :=
  mkShared (states s) (channels s) (permit s) (supervisor s) (flushers s)
    (if sent then mkHandshake t (handshake_event (ch_kind c)) false :: asked s else asked s).

(** Flushers are aborted, the connection is dropped. *)
Definition connection_lost (s : Shared) : Shared := mkShared (states s) (channels s) (permit s) Connecting [] (asked s).

Section steps.
(** Which channels the server may accept. *)
Context (accepts : string → Prop).

Inductive socket_step (s : Shared) : Shared → Prop :=
(* the handles *)
| open_channel t k : states s !! t = None → socket_step s (insert_channel t k s)
| register_timeout t c : t ∈ channels s → states s !! t = Some c → ch_waiter c = Waiting →
    socket_step s (remove_channel t (set_state t (mkChannel (ch_kind c) GaveUp) s))
| close_session t : t ∈ channels s → socket_step s (remove_channel t s)
| refresh_metadata t m m' w : states s !! t = Some (mkChannel (ControlChannel m) w) →
    socket_step s (set_state t (mkChannel (ControlChannel m') w) s)
(* the supervisor *)
| connected l : supervisor s = Connecting → snapshot_of s l → socket_step s (set_supervisor (HandshakeAll l []) s)
| handshake_one t todo live c id : supervisor s = HandshakeAll (t :: todo) live → states s !! t = Some c → accepts t →
    socket_step s (joined t id c (HandshakeAll todo (live ++ [t])) s)
| handshake_failed t todo live c sent : supervisor s = HandshakeAll (t :: todo) live → states s !! t = Some c →
    socket_step s (connection_lost (not_joined t sent c s))
| start_flushers live l : supervisor s = HandshakeAll [] live → snapshot_of s l →
    socket_step s (mkShared (states s) (channels s) (permit s) (Serving live) l (asked s))
| reconcile live l : supervisor s = Serving live → permit s = true → snapshot_of s l →
    socket_step s (mkShared (states s) (channels s) false (Reconciling (to_join live l) live []) (flushers s) (asked s))
| reconcile_one t todo live started c id : supervisor s = Reconciling (t :: todo) live started → states s !! t = Some c → accepts t →
    socket_step s (joined t id c (Reconciling todo (live ++ [t]) (started ++ [t])) s)
| reconcile_failed t todo live started c sent : supervisor s = Reconciling (t :: todo) live started → states s !! t = Some c →
    socket_step s (connection_lost (not_joined t sent c s))
| reconciled live started : supervisor s = Reconciling [] live started →
    socket_step s (mkShared (states s) (channels s) (permit s) (Serving live) (flushers s ++ started) (asked s))
| disconnected live : supervisor s = Serving live → socket_step s (connection_lost s).

(** ** No channel is forgotten *)

(** Joined on this connection, to be joined, or the supervisor is to look again. *)
Definition live_of (p : Supervisor) : list string :=
  match p with Connecting => [] | HandshakeAll _ live | Serving live | Reconciling _ live _ => live end.

Definition todo_of (p : Supervisor) : list string :=
  match p with HandshakeAll todo _ | Reconciling todo _ _ => todo | _ => [] end.

Definition started_of (p : Supervisor) : list string := match p with Reconciling _ _ started => started | _ => [] end.

(** Once the flushers were started. *)
Definition is_serving (p : Supervisor) : bool := match p with Serving _ | Reconciling _ _ _ => true | _ => false end.

Definition count (t : string) (l : list string) : nat := length (filter (λ x, x = t) l).
#[local] Arguments count : simpl never.

(** A session is registered only while nothing was answered for it: all that was
    asked for it before are registrations without a reply. *)
Definition unanswered (t : string) (l : list Handshake) : Prop :=
  ∀ h, h ∈ l → hs_topic h = t → hs_event h = "session_register" ∧ hs_answered h = false.

Fixpoint registers_first (l : list Handshake) : Prop :=
  match l with
  | [] => True
  | h :: before => (hs_event h = "session_register" → unanswered (hs_topic h) before) ∧ registers_first before
  end.

Record socket_ok (s : Shared) : Prop := {
  known t : t ∈ channels s → is_Some (states s !! t);
  expected t : supervisor s ≠ Connecting → t ∈ channels s → t ∈ live_of (supervisor s) ∨ t ∈ todo_of (supervisor s) ∨ permit s = true;
  flushed t : is_serving (supervisor s) = true → t ∈ channels s → t ∈ live_of (supervisor s) →
    t ∈ flushers s ∨ t ∈ started_of (supervisor s);
  two_at_most t : (count t (flushers s) + count t (started_of (supervisor s)) ≤ 2)%nat;
  one_before t : t ∉ live_of (supervisor s) → (count t (flushers s) ≤ 1)%nat ∧ t ∉ started_of (supervisor s);
  once t : t ∈ todo_of (supervisor s) → t ∉ live_of (supervisor s);
  distinct : NoDup (todo_of (supervisor s));
  idle : is_serving (supervisor s) = false → flushers s = [];
  live_known t : t ∈ live_of (supervisor s) ∨ t ∈ todo_of (supervisor s) → is_Some (states s !! t);
  asked_known h : h ∈ asked s → is_Some (states s !! hs_topic h);
  accepted t : t ∈ live_of (supervisor s) → accepts t;
  unregistered t w : states s !! t = Some (mkChannel (SessionChannel None) w) → unanswered t (asked s);
  in_order : registers_first (asked s);
}.

Lemma count_app t l l' : count t (l ++ l') = (count t l + count t l')%nat.
Proof. unfold count. by rewrite filter_app length_app. Qed.

Lemma count_one t : count t [t] = 1%nat.
Proof. unfold count. by rewrite filter_cons_True. Qed.

Lemma count_none t l : t ∉ l → count t l = 0%nat.
Proof.
  intros Ht. unfold count. destruct (filter _ l) as [|x m] eqn:E; [done|].
  assert (x ∈ filter (λ x, x = t) l) as [-> Hx]%list_elem_of_filter by (rewrite E; left). done.
Qed.

Lemma count_nodup t l : NoDup l → (count t l ≤ 1)%nat.
Proof.
  intros Hl. induction Hl as [|x l Hx _ IH]; [unfold count; simpl; lia|]. unfold count. destruct (decide (x = t)) as [->|Hne].
  - rewrite filter_cons_True //. simpl. fold (count t l). rewrite count_none //.
  - by rewrite filter_cons_False.
Qed.

Lemma socket_init : socket_ok Shared_new.
Proof. split; cbn; try done; try set_solver; try by constructor. Qed.

(** Steps of the handles: the supervisor stays where it is. *)
Lemma ok_handles s states' channels' permit' :
  socket_ok s →
  (∀ t, t ∈ channels' → is_Some (states' !! t)) →
  (∀ t, is_Some (states s !! t) → is_Some (states' !! t)) →
  (∀ t, t ∈ channels' → t ∈ channels s ∨ permit' = true ∧ states s !! t = None) →
  (permit s = true → permit' = true) →
  (∀ t w, states' !! t = Some (mkChannel (SessionChannel None) w) → unanswered t (asked s)) →
  socket_ok (mkShared states' channels' permit' (supervisor s) (flushers s) (asked s)).
Proof.
  intros [] Hk Hd Hc Hp Hu. split; cbn; try done; try by eauto.
  - intros t Hs Ht. destruct (Hc t Ht) as [Ht'|[-> _]]; [|by auto]. destruct (expected0 t Hs Ht') as [?|[?|?]]; auto.
  - intros t Hs Ht Hl. destruct (Hc t Ht) as [Ht'|[_ Hn]]; [by apply flushed0|].
    destruct (live_known0 t (or_introl Hl)) as [? ?]. congruence.
Qed.

(** A handshake that ended well moves a channel from what is to do to what is live. *)
Lemma ok_handshaken s t todo id c p :
  socket_ok s → todo_of (supervisor s) = t :: todo → states s !! t = Some c → accepts t →
  p ≠ Connecting → todo_of p = todo → live_of p = (live_of (supervisor s) ++ [t])%list → is_serving p = is_serving (supervisor s) →
  (started_of p = if is_serving p then started_of (supervisor s) ++ [t] else [])%list →
  socket_ok (joined t id c p s).
Proof.
  intros [] Ht Hc Ha Hp Htodo Hlive Hsv Hst.
  assert (Htl : t ∉ live_of (supervisor s)) by (apply once0; rewrite Ht; left).
  assert (Hnd : NoDup (t :: todo)) by (rewrite -Ht; apply distinct0). apply NoDup_cons in Hnd as [Hn1 Hn2].
  assert (Hne : supervisor s ≠ Connecting) by (intros E; by rewrite E in Ht).
  assert (Hk : ∀ u, is_Some (states s !! u) → is_Some (<[t:=handshaken id c]> (states s) !! u)).
  { intros u Hu. destruct (decide (t = u)) as [<-|]; [by rewrite lookup_insert_eq|by rewrite lookup_insert_ne]. }
  assert (Hs1 : (count t (flushers s) + count t (started_of (supervisor s)) ≤ 1)%nat).
  { destruct (one_before0 t Htl) as [? ?]. by rewrite (count_none t (started_of _)) // Nat.add_0_r. }
  split; cbn [joined states channels permit supervisor flushers asked]; rewrite ?Htodo ?Hlive ?Hsv.
  - intros u Hu. by apply Hk, known0.
  - intros u _ Hu. rewrite elem_of_app list_elem_of_singleton. destruct (expected0 u Hne Hu) as [?|[Hin|?]]; [by auto| |by auto].
    rewrite Ht in Hin. apply elem_of_cons in Hin as [->|]; auto.
  - intros u Hs Hu Hin. rewrite Hst Hsv Hs elem_of_app list_elem_of_singleton. apply elem_of_app in Hin as [Hin|Hin].
    + destruct (flushed0 u Hs Hu Hin); auto.
    + apply list_elem_of_singleton in Hin. auto.
  - intros u. rewrite Hst Hsv. destruct (is_serving (supervisor s)) eqn:Es.
    + rewrite count_app. destruct (decide (u = t)) as [->|Hu]; [rewrite count_one; lia|].
      rewrite (count_none u [t]); [by rewrite list_elem_of_singleton|]. specialize (two_at_most0 u). lia.
    + rewrite (idle0 eq_refl). unfold count; simpl; lia.
  - intros u. rewrite elem_of_app list_elem_of_singleton. intros Hu. destruct (one_before0 u) as [H1 H2]; [by auto|]. split; [done|].
    rewrite Hst. destruct (is_serving p); [|set_solver]. rewrite elem_of_app list_elem_of_singleton. naive_solver.
  - intros u Hu. rewrite elem_of_app list_elem_of_singleton. intros [Hl| ->]; [|done]. apply (once0 u); [rewrite Ht; by right|done].
  - done.
  - apply idle0.
  - intros u. rewrite elem_of_app list_elem_of_singleton. intros Hu. apply Hk, live_known0. rewrite Ht elem_of_cons. naive_solver.
  - intros h Hh. apply elem_of_cons in Hh as [->|Hh]; [apply Hk; by exists c|by apply Hk, asked_known0].
  - intros u. rewrite elem_of_app list_elem_of_singleton. intros [Hu| ->]; [by apply accepted0|done].
  - intros u w' Hu. destruct (decide (t = u)) as [<-|Hu'].
    + rewrite lookup_insert_eq in Hu. unfold handshaken in Hu. by destruct (ch_kind c).
    + rewrite lookup_insert_ne // in Hu. intros h Hh Hhu. apply elem_of_cons in Hh as [->|Hh]; [done|]. by apply (unregistered0 u w').
  - split; [|done]. intros He. cbn in He. cbn [hs_topic]. apply (unregistered0 t (ch_waiter c)). destruct c as [[[i|]|m] w]; done.
Qed.

(** The request of a handshake that failed. *)
Lemma ok_not_joined s t sent c : socket_ok s → states s !! t = Some c → socket_ok (not_joined t sent c s).
Proof.
  intros [] Hc. destruct sent; [|by split]. split; try done; cbn.
  - intros h Hh. apply elem_of_cons in Hh as [->|Hh]; [by exists c|by apply asked_known0].
  - intros u w Hu h Hh Hhu. apply elem_of_cons in Hh as [->|Hh]; [|by apply (unregistered0 u w)].
    cbn in Hhu. subst u. by rewrite Hc in Hu; simplify_eq.
  - split; [|done]. intros He. apply (unregistered0 t (ch_waiter c)). destruct c as [[[i|]|m] w]; done.
Qed.

Lemma ok_lost s : socket_ok s → socket_ok (connection_lost s).
Proof.
  intros []. split; cbn; try done.
  - intros t. rewrite !count_none; [apply not_elem_of_nil..|]. lia.
  - intros t _. split; [|apply not_elem_of_nil]. rewrite count_none; [apply not_elem_of_nil|lia].
  - intros t Ht. by apply not_elem_of_nil in Ht.
  - constructor.
  - intros t [Ht|Ht]; by apply not_elem_of_nil in Ht.
  - intros t Ht. by apply not_elem_of_nil in Ht.
Qed.

(** A connection that begins, or looks again: the channels to join are those of
    a snapshot that are not live. *)
Lemma ok_look s todo live p permit' :
  socket_ok s → live = live_of (supervisor s) → live_of p = live → todo_of p = todo → started_of p = [] →
  is_serving p = is_serving (supervisor s) → started_of (supervisor s) = [] →
  NoDup todo → (∀ t, t ∈ todo → t ∈ channels s ∧ t ∉ live) → (∀ t, t ∈ channels s → t ∈ live ∨ t ∈ todo) →
  socket_ok (mkShared (states s) (channels s) permit' p (flushers s) (asked s)).
Proof.
  intros [] Hl Hpl Hpt Hps Hsv Hst Hnd Hin Hall. rewrite Hst in two_at_most0, flushed0, one_before0.
  split; cbn; rewrite ?Hpl ?Hpt ?Hps ?Hsv; try done.
  - intros t _ Ht. destruct (Hall t Ht); auto.
  - rewrite Hl. done.
  - rewrite Hl. done.
  - intros t Ht. by apply Hin.
  - intros t [Ht|Ht]; [apply live_known0; left; by rewrite -Hl|]. by apply known0, Hin.
  - rewrite Hl. done.
Qed.
(** The flushers of a connection are started from a second snapshot. *)
Lemma ok_start s live l : socket_ok s → supervisor s = HandshakeAll [] live → snapshot_of s l →
  socket_ok (mkShared (states s) (channels s) (permit s) (Serving live) l (asked s)).
Proof.
  intros [] Hs [Hnd Hl]. rewrite Hs in expected0, once0, live_known0, accepted0. cbn in *. split; cbn; try done.
  - intros t _ Ht. by apply expected0.
  - intros t _ Ht _. left. by apply Hl.
  - intros t. rewrite (count_none t []); [apply not_elem_of_nil|]. pose proof (count_nodup t l Hnd). lia.
  - intros t _. split; [by apply count_nodup|apply not_elem_of_nil].
  - constructor.
Qed.

Lemma ok_reconciled s live started : socket_ok s → supervisor s = Reconciling [] live started →
  socket_ok (mkShared (states s) (channels s) (permit s) (Serving live) (flushers s ++ started) (asked s)).
Proof.
  intros [] Hs. rewrite Hs in expected0, once0, live_known0, accepted0, flushed0, two_at_most0, one_before0. cbn in *. split; cbn; try done.
  - intros t _ Ht. by apply expected0.
  - intros t _ Ht Hl. left. rewrite elem_of_app. by apply flushed0.
  - intros t. rewrite count_app (count_none t []); [apply not_elem_of_nil|]. specialize (two_at_most0 t). lia.
  - intros t Ht. destruct (one_before0 t Ht) as [H1 H2]. split; [|apply not_elem_of_nil]. rewrite count_app (count_none t started H2). lia.
  - constructor.
Qed.

Lemma socket_step_ok s s' : socket_step s s' → socket_ok s → socket_ok s'.
Proof.
  intros Hs Hok. pose proof (known s Hok) as Hknown. destruct Hs as
    [t k Hn|t c Hin Hc Hw|t Hin|t m m' w Hc|l Hp Hl|t todo live c id Hp Hc Ha|t todo live c sent Hp Hc|live l Hp Hl|live l Hp Hpm Hl|
     t todo live started c id Hp Hc Ha|t todo live started c sent Hp Hc|live started Hp|live Hp].
  - apply (ok_handles s); [done| | | |done|].
    + intros u [->%elem_of_singleton|Hu]%elem_of_union; [by rewrite lookup_insert_eq|]. destruct (decide (t = u)) as [<-|]; [by rewrite lookup_insert_eq|].
      rewrite lookup_insert_ne //. by apply Hknown.
    + intros u [c Hu]. rewrite lookup_insert_ne; [|by exists c]. intros <-. congruence.
    + intros u [->%elem_of_singleton|Hu]%elem_of_union; auto.
    + intros u w Hu. destruct (decide (t = u)) as [<-|Hne]; [|rewrite lookup_insert_ne // in Hu; by apply (unregistered s Hok u w)].
      intros h [? Hh]%(asked_known s Hok) Hhu. rewrite Hhu in Hh. congruence.
  - apply (ok_handles s); [done| | | |done|].
    + intros u [Hu _]%elem_of_difference. cbn. destruct (decide (t = u)) as [<-|]; [by rewrite lookup_insert_eq|]. rewrite lookup_insert_ne //. by apply Hknown.
    + intros u Hu. cbn. destruct (decide (t = u)) as [<-|]; [by rewrite lookup_insert_eq|by rewrite lookup_insert_ne].
    + intros u [Hu _]%elem_of_difference. auto.
    + cbn. intros u w Hu. destruct (decide (t = u)) as [<-|Hne]; [|rewrite lookup_insert_ne // in Hu; by apply (unregistered s Hok u w)].
      rewrite lookup_insert_eq in Hu. injection Hu as Hk _. apply (unregistered s Hok t (ch_waiter c)). rewrite Hc -Hk. by destruct c.
  - apply (ok_handles s); [done| |done| |done|apply (unregistered s Hok)].
    + intros u [Hu _]%elem_of_difference. by apply Hknown.
    + intros u [Hu _]%elem_of_difference. auto.
  - apply (ok_handles s); [done| | |by auto|done|].
    + intros u Hu. cbn. destruct (decide (t = u)) as [<-|]; [by rewrite lookup_insert_eq|]. rewrite lookup_insert_ne //. by apply Hknown.
    + intros u Hu. cbn. destruct (decide (t = u)) as [<-|]; [by rewrite lookup_insert_eq|by rewrite lookup_insert_ne].
    + cbn. intros u w' Hu. destruct (decide (t = u)) as [<-|Hne]; [by rewrite lookup_insert_eq in Hu|]. rewrite lookup_insert_ne // in Hu. by apply (unregistered s Hok u w').
  - apply (ok_look s l [] (HandshakeAll l [])); try done; try (by rewrite Hp); [apply Hl| |].
    + intros t Ht. split; [by apply Hl|apply not_elem_of_nil].
    + intros t Ht. right. by apply Hl.
  - apply (ok_handshaken s t todo id c (HandshakeAll todo (live ++ [t])%list)); by rewrite ?Hp.
  - by apply ok_lost, ok_not_joined.
  - by apply ok_start.
  - apply (ok_look s (to_join live l) live (Reconciling (to_join live l) live [])); try done; try (by rewrite Hp).
    + apply NoDup_filter, Hl.
    + intros t [H1 H2]%list_elem_of_filter. split; [by apply Hl|done].
    + intros t Ht. destruct (decide (t ∈ live)); [by left|right]. apply list_elem_of_filter. split; [done|]. by apply Hl.
  - apply (ok_handshaken s t todo id c (Reconciling todo (live ++ [t]) (started ++ [t]))%list); by rewrite ?Hp.
  - by apply ok_lost, ok_not_joined.
  - by apply ok_reconciled.
  - by apply ok_lost.
Qed.
Lemma socket_reachable_ok s : rtc socket_step Shared_new s → socket_ok s.
Proof.
  intros Hs. pose proof socket_init as Hi. induction Hs as [s|s s1 s2 H1 _ IH]; [done|]. by apply IH, (socket_step_ok s s1).
Qed.

Lemma elements_snapshot s : snapshot_of s (elements (channels s)).
Proof. split; [apply NoDup_elements|]. intros t. by rewrite elem_of_elements. Qed.


(** A channel the server does not accept keeps every other from being served, for
    as long as it is open and on every connection. *)
Theorem refused_channel_stops_all (t : string) (s s' : Shared) : ¬ accepts t →
  rtc socket_step Shared_new s → supervisor s = Connecting → t ∈ channels s →
  rtc (λ a b, socket_step a b ∧ t ∈ channels b) s s' →
  flushers s' = [] ∧ ∀ live, supervisor s' ≠ Serving live.
Proof.
  intros Hna Hr Hs Ht Hsteps.
  assert (H' : socket_ok s' ∧ t ∈ channels s' ∧ (supervisor s' = Connecting ∨ ∃ todo live, supervisor s' = HandshakeAll todo live ∧ t ∈ todo)).
  { pose proof (socket_reachable_ok s Hr) as Hok. assert (Hsup : supervisor s = Connecting ∨ ∃ todo live, supervisor s = HandshakeAll todo live ∧ t ∈ todo) by auto.
    clear Hs Hr. induction Hsteps as [s|s s1 s2 [H1 Hin] _ IH]; [done|]. apply IH; [done|by apply (socket_step_ok s s1)|].
    clear IH Hok. destruct H1 as
      [? ? _|? ? _ _ _|? _|? ? ? ? _|l Hp Hl|u todo live c id Hp _ Ha|u todo live c sent _ _|live l Hp _|live l Hp _ _|
       u todo live ? c id Hp _ _|u todo live ? c sent _ _|live ? Hp|live _]; cbn in *; try done; try by left.
    - right. eexists _, _. split; [done|]. by apply Hl.
    - right. destruct Hsup as [Hc|(todo' & live' & Hc & Hin')]; [congruence|]. rewrite Hp in Hc. injection Hc as <- <-.
      apply elem_of_cons in Hin' as [->|Hin']; [done|]. eauto.
    - destruct Hsup as [Hc|(todo' & live' & Hc & Hin')]; [congruence|]. rewrite Hp in Hc. injection Hc as <- _. by apply not_elem_of_nil in Hin'.
    - destruct Hsup as [Hc|(todo' & live' & Hc & Hin')]; congruence.
    - destruct Hsup as [Hc|(todo' & live' & Hc & Hin')]; congruence.
    - destruct Hsup as [Hc|(todo' & live' & Hc & Hin')]; congruence. }
  destruct H' as (Hok & _ & Hp). assert (Hsv : is_serving (supervisor s') = false) by (destruct Hp as [->|(? & ? & -> & _)]; done).
  split; [by apply (idle s' Hok)|]. intros live E. by rewrite E in Hsv.
Qed.
End steps.

(** ** A session opened while a connection is made *)

Definition anyone (_ : string) : Prop := True.

Definition a_state : ChannelState := mkChannel (SessionChannel None) Waiting.
Definition b_opened : Shared := insert_channel "b" (SessionChannel None) (set_supervisor (HandshakeAll ["a"] []) (insert_channel "a" (SessionChannel None) Shared_new)).
Definition a_joined : Shared := joined "a" "A" a_state (HandshakeAll [] ["a"]) b_opened.
Definition both_flushed : Shared := mkShared (states a_joined) (channels a_joined) true (Serving ["a"]) ["a"; "b"] (asked a_joined).
Definition b_joined : Shared :=
  joined "b" "B" a_state (Reconciling [] ["a"; "b"] ["b"])
    (mkShared (states both_flushed) (channels both_flushed) false (Reconciling ["b"] ["a"] []) ["a"; "b"] (asked both_flushed)).
Definition b_twice : Shared := mkShared (states b_joined) (channels b_joined) false (Serving ["a"; "b"]) ["a"; "b"; "b"] (asked b_joined).

Lemma snapshot_a : snapshot_of (insert_channel "a" (SessionChannel None) Shared_new) ["a"].
Proof. split; [by repeat constructor; set_solver|]. intros t. cbn. set_solver. Qed.

Lemma snapshot_ab s : channels s = channels a_joined → snapshot_of s ["a"; "b"].
Proof. intros Hc. split; [by repeat constructor; set_solver|]. intros t. rewrite Hc. cbn. set_solver. Qed.

(** The channel opened meanwhile is in the second snapshot, and joined after it:
    two tasks flush it, each sending what the other has under way. *)
Lemma opened_meanwhile : rtc (socket_step anyone) Shared_new b_twice.
Proof.
  eapply rtc_l; [by apply (open_channel anyone Shared_new "a" (SessionChannel None))|].
  eapply rtc_l; [by apply connected, snapshot_a|].
  eapply rtc_l; [by apply (open_channel anyone _ "b" (SessionChannel None))|].
  eapply rtc_l; [by apply (handshake_one anyone b_opened "a" [] [] a_state "A")|].
  eapply rtc_l; [by apply (start_flushers anyone a_joined ["a"] ["a"; "b"]); [|apply snapshot_ab]|].
  eapply rtc_l; [by apply (reconcile anyone both_flushed ["a"] ["a"; "b"]); [..|apply snapshot_ab]|].
  eapply rtc_l; [by apply (reconcile_one anyone _ "b" [] ["a"] [] a_state "B")|].
  eapply rtc_l; [by apply (reconciled anyone b_joined ["a"; "b"] ["b"])|]. apply rtc_refl.
Qed.

Example two_flushers : count "b" (flushers b_twice) = 2%nat.
Proof. reflexivity. Qed.


(** The reply to a registration is lost with the connection: the client has no id
    for the session, and registers it once more on the next one. *)
Definition a_lost : Shared :=
  connection_lost (not_joined "a" true a_state (set_supervisor (HandshakeAll ["a"] []) (insert_channel "a" (SessionChannel None) Shared_new))).
Definition a_again : Shared := joined "a" "A" a_state (HandshakeAll [] ["a"]) (set_supervisor (HandshakeAll ["a"] []) a_lost).

Example registered_twice : rtc (socket_step anyone) Shared_new a_again ∧
  asked a_again = [mkHandshake "a" "session_register" true; mkHandshake "a" "session_register" false].
Proof.
  split; [|reflexivity]. eapply rtc_l; [by apply (open_channel anyone Shared_new "a" (SessionChannel None))|].
  eapply rtc_l; [by apply connected, snapshot_a|].
  eapply rtc_l; [by apply (handshake_failed anyone _ "a" [] [] a_state true)|].
  eapply rtc_l; [apply (connected anyone a_lost ["a"]); [done|exact snapshot_a]|].
  eapply rtc_l; [by apply (handshake_one anyone _ "a" [] [] a_state "A")|]. apply rtc_refl.
Qed.

(** ** Requests that wait for a reply *)

(** Being sent, awaiting the reply, given up but still in the table, over. *)
Inductive RequestStage : Type := Sending | Awaiting | Expired | Over (outcome : result string Value).

(** [rq_answer]: what was put in its channel. *)
Record PendingRequest : Type := mkRequest { rq_stage : RequestStage; rq_answer : option (result string Value) }.

Record Table : Type := mkTable { pending : gset string; requests : gmap string PendingRequest; heard : list Value }.

Definition Table_new : Table := mkTable ∅ ∅ [].

Section requests.
Context `{!JsonShow} (topics : gset string).

Definition rejected (r : result Value Value) : result string Value :=
  map_err (λ response, "server rejected request: " ++ json_to_string response) r.

Definition set_answer (a : result string Value) (q : PendingRequest) : PendingRequest :=
  mkRequest (rq_stage q) match rq_answer q with Some a => Some a | None => Some a end.

(** The waiters in the table are told the same. *)
Definition tell_all (waiters : gset string) (a : result string Value) (m : gmap string PendingRequest) : gmap string PendingRequest :=
  map_imap (λ r q, Some (if decide (r ∈ waiters) then set_answer a q else q)) m.

(** [phx_reply] under a reference, or anything else that comes in. *)
Definition heard_frame (value : Value) (t : Table) : Table :=
  let '(pending', to) := route_frame (pending t) topics value in
  mkTable pending' match to with ToWaiter r reply => tell_all {[r]} (rejected reply) (requests t) | _ => requests t end (value :: heard t).

Definition fail_pending (reason : string) (t : Table) : Table :=
  mkTable ∅ (tell_all (pending t) (Err reason) (requests t)) (heard t).

Definition finish_request (r : string) (outcome : result string Value) (q : PendingRequest) (t : Table) : Table :=
  mkTable (pending t) (<[r := mkRequest (Over outcome) (rq_answer q)]> (requests t)) (heard t).

Definition drop_pending (r : string) (t : Table) : Table := mkTable (pending t ∖ {[r]}) (requests t) (heard t).

Definition at_request_stage (r : string) (stage : RequestStage) (q : PendingRequest) (t : Table) : Table :=
  mkTable (pending t) (<[r := mkRequest stage (rq_answer q)]> (requests t)) (heard t).

Inductive table_step (t : Table) : Table → Prop :=
| asks r : requests t !! r = None → r ∉ pending t → table_step t (mkTable ({[r]} ∪ pending t) (<[r := mkRequest Sending None]> (requests t)) (heard t))
| not_sent r q e : requests t !! r = Some q → rq_stage q = Sending → table_step t (drop_pending r (finish_request r (Err e) q t))
| was_sent r q : requests t !! r = Some q → rq_stage q = Sending → table_step t (at_request_stage r Awaiting q t)
| hears value : table_step t (heard_frame value t)
| loses_connection : table_step t (fail_pending "connection lost" t)
| receives r q a : requests t !! r = Some q → rq_stage q = Awaiting → rq_answer q = Some a → table_step t (finish_request r a q t)
| expires r q : requests t !! r = Some q → rq_stage q = Awaiting → rq_answer q = None → table_step t (at_request_stage r Expired q t)
| gives_up r q event : requests t !! r = Some q → rq_stage q = Expired →
    table_step t (drop_pending r (finish_request r (Err ("request '" ++ event ++ "' timed out")) q t)).

Definition is_over (q : PendingRequest) : bool := match rq_stage q with Over _ => true | _ => false end.

(** The reply that an answer is of. *)
Definition replied (r : string) (v : Value) (frames : list Value) : Prop :=
  ∃ frame, frame ∈ frames ∧ get_str "ref" frame = Some r ∧ default Null (v_get "response" (default Null (v_get "payload" frame))) = v ∧
    default "ok" (get_str "status" (default Null (v_get "payload" frame))) = "ok".

Record table_ok (t : Table) : Prop := {
  waits r : r ∈ pending t ↔ ∃ q, requests t !! r = Some q ∧ rq_answer q = None ∧ is_over q = false;
  answers r q v : requests t !! r = Some q → rq_answer q = Some (Ok v) → replied r v (heard t);
  outcomes r q v : requests t !! r = Some q → rq_stage q = Over (Ok v) → rq_answer q = Some (Ok v);
}.
Lemma tell_all_lookup w a m r : tell_all w a m !! r = (λ q, if decide (r ∈ w) then set_answer a q else q) <$> m !! r.
Proof. unfold tell_all. rewrite map_lookup_imap. by destruct (m !! r). Qed.

Lemma heard_more r v frames f : replied r v frames → replied r v (f :: frames).
Proof. intros (g & Hg & Hr). exists g. split; [by right|done]. Qed.

(** The waiters of [w] are told and leave the table. *)
Lemma ok_tell t w a frames :
  table_ok t → w ⊆ pending t → (∀ r v, replied r v (heard t) → replied r v frames) → (∀ r v, r ∈ w → a = Ok v → replied r v frames) →
  table_ok (mkTable (pending t ∖ w) (tell_all w a (requests t)) frames).
Proof.
  intros [Hw Ha Ho] Hsub Hmono Hnew. split; cbn.
  - intros r. rewrite elem_of_difference Hw tell_all_lookup. split.
    + intros [(q & Hq & Hn & Hov) Hr]. exists q. rewrite Hq. cbn. by rewrite decide_False.
    + intros (q & Hq & Hn & Hov). destruct (requests t !! r) as [q0|] eqn:Eq; [|done]. cbn in Hq. case_decide as Hr; injection Hq as <-.
      * unfold set_answer in Hn. cbn in Hn. by destruct (rq_answer q0).
      * by split; [exists q0|].
  - intros r q v Hq Hv. rewrite tell_all_lookup in Hq. destruct (requests t !! r) as [q0|] eqn:Eq; [|done]. cbn in Hq.
    case_decide as Hr; injection Hq as <-; [|by apply Hmono, (Ha r q0)]. unfold set_answer in Hv. cbn in Hv.
    destruct (rq_answer q0) as [a0|] eqn:E0; injection Hv as ->; [by apply Hmono, (Ha r q0)|by apply Hnew].
  - intros r q v Hq Hv. rewrite tell_all_lookup in Hq. destruct (requests t !! r) as [q0|] eqn:Eq; [|done]. cbn in Hq.
    case_decide as Hr; injection Hq as <-; [|by apply (Ho r)]. cbn in *. by rewrite (Ho r q0 v Eq Hv).
Qed.

(** A request moves on. *)
Lemma ok_move t r q stage p :
  table_ok t → requests t !! r = Some q → is_over q = false →
  p ⊆ pending t → (∀ u, u ≠ r → u ∈ pending t → u ∈ p) →
  (r ∈ p ↔ rq_answer q = None ∧ is_over (mkRequest stage None) = false) → (∀ v, stage = Over (Ok v) → rq_answer q = Some (Ok v)) →
  table_ok (mkTable p (<[r := mkRequest stage (rq_answer q)]> (requests t)) (heard t)).
Proof.
  intros [Hw Ha Ho] Hq Hov Hsub Hkeep Hr Hs. split; cbn.
  - intros u. destruct (decide (r = u)) as [<-|Hne].
    + rewrite lookup_insert_eq Hr. split; [intros [? ?]; by eexists|]. intros (q' & [= <-] & ? & ?). done.
    + rewrite lookup_insert_ne // -Hw. split; [set_solver|intros Hu; apply Hkeep; congruence || done].
  - intros u q' v. destruct (decide (r = u)) as [<-|Hne]; [rewrite lookup_insert_eq|rewrite lookup_insert_ne //; apply Ha].
    intros [= <-]. cbn. by apply Ha.
  - intros u q' v. destruct (decide (r = u)) as [<-|Hne]; [rewrite lookup_insert_eq|rewrite lookup_insert_ne //; apply Ho].
    intros [= <-]. cbn. apply Hs.
Qed.

Lemma ok_hears t value : table_ok t → table_ok (heard_frame value t).
Proof.
  intros Hok. assert (Hsame : table_ok (mkTable (pending t) (requests t) (value :: heard t))).
  { destruct Hok as [Hw Ha Ho]. split; cbn; [done| |done]. intros r q v Hq Hv. by apply heard_more, (Ha r q). }
  unfold heard_frame, route_frame. destruct (decide (str_or_empty "event" value = "phx_reply")).
  - destruct (get_str "ref" value) as [r|] eqn:Er; [|done]. destruct (decide (r ∈ pending t)) as [Hr|]; [|done].
    apply ok_tell; [done|set_solver|intros; by apply heard_more|].
    intros u v ->%elem_of_singleton Hv. exists value. split; [left|]. split; [done|]. case_decide as Hs; [|done].
    unfold rejected in Hv. cbn in Hv. injection Hv as <-. by split.
  - destruct (decode_command _ _) as [c|]; [|done]. by case_decide.
Qed.

Lemma table_step_ok t t' : table_step t t' → table_ok t → table_ok t'.
Proof.
  intros Hs Hok. pose proof (waits t Hok) as Hw. destruct Hs as [r Hr Hp|r q e Hq Hst|r q Hq Hst|value| |r q a Hq Hst Ha|r q Hq Hst Ha|r q event Hq Hst].
  - destruct Hok as [_ Ha Ho]. split; cbn.
    + intros u. rewrite elem_of_union elem_of_singleton Hw. destruct (decide (r = u)) as [<-|Hne].
      * rewrite lookup_insert_eq. split; [by eexists|by left].
      * rewrite lookup_insert_ne //. split; [intros [?|?]; [congruence|done]|by right].
    + intros u q v. destruct (decide (r = u)) as [<-|Hne]; [rewrite lookup_insert_eq; by intros [= <-]|rewrite lookup_insert_ne //; apply Ha].
    + intros u q v. destruct (decide (r = u)) as [<-|Hne]; [rewrite lookup_insert_eq; by intros [= <-]|rewrite lookup_insert_ne //; apply Ho].
  - apply (ok_move t r q (Over (Err e)) (pending t ∖ {[r]})); try done; [unfold is_over; by rewrite Hst|set_solver|set_solver|].
    split; [set_solver|]. by intros [_ ?].
  - apply (ok_move t r q Awaiting (pending t)); try done; [unfold is_over; by rewrite Hst|].
    rewrite Hw. split; [intros (q' & Hq' & ? & ?); split; [congruence|done]|]. intros [? _]. exists q. unfold is_over. by rewrite Hst.
  - by apply ok_hears.
  - unfold fail_pending. replace (∅ : gset string) with (pending t ∖ pending t) by set_solver. by apply ok_tell.
  - apply (ok_move t r q (Over a) (pending t)); try done; [unfold is_over; by rewrite Hst| |by intros v [= ->]].
    rewrite Hw. split; [|by intros [? _]; congruence]. intros (q' & Hq' & ? & ?). congruence.
  - apply (ok_move t r q Expired (pending t)); try done; [unfold is_over; by rewrite Hst|].
    rewrite Hw. split; [by intros _|]. intros [? _]. exists q. unfold is_over. by rewrite Hst.
  - apply (ok_move t r q (Over (Err ("request '" ++ event ++ "' timed out"))) (pending t ∖ {[r]})); try done;
      [unfold is_over; by rewrite Hst|set_solver|set_solver|]. split; [set_solver|]. by intros [_ ?].
Qed.

(** However replies, losses of the connection and timeouts interleave, the table
    holds exactly the requests that were not answered and are not over, so none
    is left behind in it; a request succeeds only with the response of a reply
    under its own reference that says ok; and once over it stays as it is. *)
Theorem requests_answered (t : Table) : rtc table_step Table_new t →
  (∀ r, r ∈ pending t ↔ ∃ q, requests t !! r = Some q ∧ rq_answer q = None ∧ is_over q = false) ∧
  (∀ r q v, requests t !! r = Some q → rq_stage q = Over (Ok v) → replied r v (heard t)) ∧
  (∀ t' r q outcome, table_step t t' → requests t !! r = Some q → rq_stage q = Over outcome →
     ∃ q', requests t' !! r = Some q' ∧ rq_stage q' = Over outcome).
Proof.
  intros Hs. assert (Hok : table_ok t).
  { assert (H0 : table_ok Table_new) by (split; cbn; [|done|done]; intros r; split; [set_solver|by intros (? & ? & _)]).
    induction Hs as [t|t t1 t2 H1 _ IH]; [done|]. by apply IH, (table_step_ok t t1). }
  split_and!; [apply (waits t Hok)|intros r q v Hq Hst; apply (answers t Hok r q v Hq), (outcomes t Hok r q v Hq Hst)|].
  intros t' r q outcome Hst Hq Ho. destruct Hst as [u Hu _|u q' e Hu ?|u q' Hu ?|value| |u q' a Hu ? _|u q' Hu ? _|u q' event Hu ?];
    cbn; try (rewrite lookup_insert_ne; [intros <-; congruence|by exists q]).
  - unfold heard_frame. destruct (route_frame (pending t) topics value) as [p to]. destruct to as [u reply| |]; cbn; [|by exists q..].
    rewrite tell_all_lookup Hq. cbn. eexists. split; [done|]. by case_decide.
  - rewrite tell_all_lookup Hq. cbn. eexists. split; [done|]. by case_decide.
Qed.
End requests.
