(* ===== verification/Advertise.v ===== *)
(** * What the daemon tells of itself (crates/omniagent-cli/src/client/conn.rs)

    The control channel advertises the daemon's metadata, with the directories it
    may work in: the handshake of each connection reads what is stored and sends
    it, and a change is stored and sent at once.  Both are two critical sections
    with the socket between them; handshake, changes and the server
    (apps/omniagent_web, daemon_channel.ex, which keeps the last it was told for as
    long as the connection lasts) take steps in any order. *)
From S2P Require Import Prelude Str Json Client.

(** Where [handshake] of the channel is: not answered on its join, about to send
    what it has read, or past that. *)
Inductive Hello : Type := Joining | HasRead (metadata : Value) | Registered.

(** A connection: its handshake, the registrations on the wire, and what the
    channel of the server has been told. *)
Record Link : Type := mkLink { hello : Hello; wire : list Value; advertised : option Value }.

(** What is stored, the connection, and the changes that were stored and are yet
    to be sent. *)
Record Advert : Type := mkAdvert { stored : Value; link : option Link; changes : list Value }.

(** [open_control_channel], before a connection. *)
Definition open_control (metadata : Value) : Advert := mkAdvert metadata None [].

(** [connect_ws] and the join. *)
Definition link_up (s : Advert) : Advert := mkAdvert (stored s) (Some (mkLink Joining [] None)) (changes s).
Definition link_down (s : Advert) : Advert := mkAdvert (stored s) None (changes s).

(** [handshake_control]: what is stored is cloned; then it is sent. *)
Definition control_reads (l : Link) (s : Advert) : Advert :=
  mkAdvert (stored s) (Some (mkLink (HasRead (stored s)) (wire l) (advertised l))) (changes s).
Definition control_registers (m : Value) (l : Link) (s : Advert) : Advert :=
  mkAdvert (stored s) (Some (mkLink Registered (wire l ++ [m])%list (advertised l))) (changes s).

(** [refresh_metadata]: stored; then sent, an error without a connection.  A
    channel that was not joined does not hear it. *)
Definition refresh_stores (m : Value) (s : Advert) : Advert := mkAdvert m (link s) (changes s ++ [m])%list.
Definition refresh_sends (heard : bool) (m : Value) (rest : list Value) (s : Advert) : Advert :=
  mkAdvert (stored s)
    match link s with
    | Some l => Some (mkLink (hello l) (if heard then wire l ++ [m] else wire l)%list (advertised l))
    | None => None
    end rest.

(** [handle_in("daemon_register", ...)] of the server. *)
Definition server_hears (m : Value) (rest : list Value) (l : Link) (s : Advert) : Advert :=
  mkAdvert (stored s) (Some (mkLink (hello l) rest (Some m))) (changes s).

Section steps.
(** When a change may begin. *)
Context (may_change : Advert → Prop).

Inductive advert_step (s : Advert) : Advert → Prop :=
| advert_up : link s = None → advert_step s (link_up s)
| advert_down l : link s = Some l → advert_step s (link_down s)
| advert_read l : link s = Some l → hello l = Joining → advert_step s (control_reads l s)
| advert_register l m : link s = Some l → hello l = HasRead m → advert_step s (control_registers m l s)
| advert_change m : may_change s → advert_step s (refresh_stores m s)
| advert_send heard m l1 l2 : changes s = (l1 ++ m :: l2)%list →
    (heard = false → ∀ l, link s = Some l → hello l = Joining) →
    advert_step s (refresh_sends heard m (l1 ++ l2)%list s)
| advert_hear l m rest : link s = Some l → wire l = m :: rest → advert_step s (server_hears m rest l s).
End steps.

(** Nothing is under way: the handshake is past, nothing is to be sent or heard. *)
Definition settled (s : Advert) : Prop := ∃ l, link s = Some l ∧ hello l = Registered ∧ wire l = [] ∧ changes s = [].

(** A change keeps apart from others and from a handshake that has read. *)
Definition apart (s : Advert) : Prop := changes s = [] ∧ ∀ l m, link s = Some l → hello l ≠ HasRead m.

(** What the server will have been told last. *)
Definition finally (l : Link) : option Value := from_option Some (advertised l) (last (wire l)).

Record advert_ok (s : Advert) : Prop := {
  one_change : changes s = [] ∨ changes s = [stored s];
  reads_stored l m : link s = Some l → hello l = HasRead m → m = stored s;
  told_stored l : link s = Some l → hello l = Registered → changes s = [] → finally l = Some (stored s);
}.

Lemma finally_app l m h a : finally (mkLink h (l ++ [m])%list a) = Some m.
Proof. unfold finally. cbn. by rewrite last_snoc. Qed.

Lemma one_split {A} (x y : A) l1 l2 : [x] = (l1 ++ y :: l2)%list → y = x ∧ (l1 ++ l2 = [])%list.
Proof. destruct l1 as [|z [|w l1]]; cbn; [by intros [= -> <-]|done..]. Qed.

Lemma advert_step_ok may s s' : (∀ s, may s → apart s) → advert_step may s s' → advert_ok s → advert_ok s'.
Proof.
  intros Hmay Hs []. destruct Hs as [Hl|l Hl|l Hl Hh|l m Hl Hh|m Hm|heard m l1 l2 Hc Hq|l m rest Hl Hw].
  - split; cbn; [done|by intros ? ? [= <-]|by intros ? [= <-]].
  - split; cbn; done.
  - split; cbn; [done| |by intros ? [= <-]]. by intros ? ? [= <-] [= ->].
  - split; cbn; [done|by intros ? ? [= <-]|]. intros ? [= <-] _ _. rewrite finally_app. by rewrite (reads_stored0 l m Hl Hh).
  - destruct (Hmay s Hm) as [Hc Ha]. split; cbn; [right; by rewrite Hc| |rewrite Hc; by intros].
    intros l m' Hl Hh. by destruct (Ha l m' Hl).
  - destruct one_change0 as [Hn|Hn]; [by rewrite Hn in Hc; destruct l1|]. rewrite Hn in Hc. apply one_split in Hc as [-> Hrest].
    split; cbn; rewrite ?Hrest; [by left|destruct (link s) as [l|] eqn:Hl; try done..].
    + intros ? m' [= <-] Hh. by apply (reads_stored0 l).
    + intros ? [= <-] Hh _. destruct heard; [by rewrite finally_app|]. cbn in Hh. rewrite (Hq eq_refl l eq_refl) in Hh. done.
  - split; cbn; [done| |].
    + intros ? m' [= <-] Hh. by apply (reads_stored0 l).
    + intros ? [= <-] Hh Hc. rewrite -(told_stored0 l Hl Hh Hc). unfold finally. rewrite Hw. cbn [wire advertised].
      destruct rest as [|r rest]; [done|]. change (last (m :: r :: rest)) with (last (r :: rest)).
      destruct (last (r :: rest)) eqn:E; [done|]. by apply last_None in E.
Qed.

Lemma advert_steps_ok may s s' : (∀ s, may s → apart s) → rtc (advert_step may) s s' → advert_ok s → advert_ok s'.
Proof. intros Hmay Hs. induction Hs as [|s s1 s2 H1 _ IH]; [done|]. intros Ho. by apply IH, (advert_step_ok may s). Qed.

Lemma settled_current s : advert_ok s → settled s → ∃ l, link s = Some l ∧ advertised l = Some (stored s).
Proof.
  intros Ho (l & Hl & Hh & Hw & Hc). exists l. split; [done|]. rewrite -(told_stored s Ho l Hl Hh Hc). unfold finally. by rewrite Hw.
Qed.

(** Changes that keep apart: whenever all is settled, on whatever connection, the
    server has what is stored. *)
Theorem server_is_current m s : rtc (advert_step apart) (open_control m) s → settled s →
  ∃ l, link s = Some l ∧ advertised l = Some (stored s).
Proof.
  intros Hs. apply settled_current. apply (advert_steps_ok apart _ _ (λ _ H, H) Hs). split; cbn; [by left|done..].
Qed.

(** Whatever was confused before, a connection that is made while nothing changes
    sets it right. *)
Theorem reconnection_repairs s s' : link s = None → changes s = [] →
  rtc (advert_step (λ _, False)) s s' → settled s' → stored s' = stored s ∧ ∃ l, link s' = Some l ∧ advertised l = Some (stored s).
Proof.
  intros Hl Hc Hs Hset.
  assert (He : stored s' = stored s).
  { clear Hset Hl Hc. induction Hs as [|s s1 s2 H1 _ IH]; [done|]. rewrite IH. by destruct H1. }
  split; [done|]. rewrite -He. apply settled_current; [|done].
  apply (advert_steps_ok (λ _, False) s s' (λ _ H, match H with end) Hs). split; rewrite ?Hl ?Hc; [by left|done..].
Qed.

(** A connection that lasts settles, once what is to be sent is: the server hears
    the rest. *)
Lemma hears_all may s l : link s = Some l → hello l = Registered → changes s = [] → ∃ s', rtc (advert_step may) s s' ∧ settled s'.
Proof.
  remember (length (wire l)) as n eqn:Hn. revert s l Hn.
  induction n as [|n IH]; intros s l Hn Hl Hh Hc; destruct (wire l) as [|m rest] eqn:Hw; try done.
  - exists s. split; [apply rtc_refl|]. by exists l.
  - cbn in Hn. destruct (IH (server_hears m rest l s) (mkLink (hello l) rest (Some m))) as (s' & Hs & Hset); [cbn; lia|done..|].
    exists s'. split; [|done]. apply (rtc_l _ _ (server_hears m rest l s)); [by apply advert_hear|done].
Qed.

(** Two changes at once: the later is stored, the earlier is what the server has. *)
Example changes_cross : ∃ s l, rtc (advert_step (λ _, True)) (open_control (num 0)) s ∧ settled s ∧
  stored s = num 2 ∧ link s = Some l ∧ advertised l = Some (num 1).
Proof.
  eexists _, _. split.
  { eapply rtc_l; [by apply advert_up|]. eapply rtc_l; [eapply advert_read; reflexivity|]. eapply rtc_l; [eapply advert_register; reflexivity|].
    eapply rtc_l; [by apply (advert_change _ _ (num 1))|]. eapply rtc_l; [by apply (advert_change _ _ (num 2))|].
    eapply rtc_l; [apply (advert_send _ _ true (num 2) [num 1] []); done|].
    eapply rtc_l; [apply (advert_send _ _ true (num 1) [] []); done|].
    do 3 (eapply rtc_l; [eapply advert_hear; reflexivity|]). reflexivity. }
  split_and!; [by eexists|reflexivity..].
Qed.

(** A change that comes while the handshake has read and not yet sent is undone by
    it. *)
Example change_meets_handshake : ∃ s l, rtc (advert_step (λ s, changes s = [])) (open_control (num 0)) s ∧ settled s ∧
  stored s = num 1 ∧ link s = Some l ∧ advertised l = Some (num 0).
Proof.
  eexists _, _. split.
  { eapply rtc_l; [by apply advert_up|]. eapply rtc_l; [eapply advert_read; reflexivity|].
    eapply rtc_l; [by apply (advert_change _ _ (num 1))|].
    eapply rtc_l; [apply (advert_send _ _ true (num 1) [] []); done|].
    eapply rtc_l; [eapply advert_register; reflexivity|].
    do 2 (eapply rtc_l; [eapply advert_hear; reflexivity|]). reflexivity. }
  split_and!; [by eexists|reflexivity..].
Qed.
