(* ===== verification/App.v ===== *)
(** * Errors, authentication and request checks of the daemon (crates/oad/src/main.rs)

    What the handlers share: the error type and the HTTP response it becomes,
    the bearer-token check, the validation of container lists. *)
From Stdlib Require Import String.
From S2P Require Import Prelude Str Core Os Runtime Cidr Api OciBase.
#[local] Open Scope string_scope.

Definition show_validation_error (e : ValidationError) : string :=
  match e with
  | Empty => "value cannot be empty"
  | TooLong max => "value is too long; maximum length is " ++ show_dec (Z.of_nat max) ++ " bytes"
  | ReservedPathSegment s => quoted s ++ " is reserved and cannot be used as a path segment"
  | UnsupportedCharacter c => "value contains unsupported character '" ++ String (chr c) "'"
  | ReservedContainerName s => quoted s ++ " is a reserved container name"
  end.

Definition show_config_problem (p : ConfigProblem) : string :=
  match p with
  | InvalidCidr v => "invalid IPv4 CIDR " ++ quoted v
  | InvalidPrefix v => "invalid IPv4 CIDR prefix in " ++ quoted v
  | SandboxCidrTooSmall => "sandbox CIDR must be /30 or larger"
  | SubnetIndexExceeds index capacity =>
      "subnet index " ++ show_dec index ++ " exceeds CIDR capacity " ++ show_dec capacity
  | NoFreeSubnet cidr => "sandbox network CIDR " ++ quoted cidr ++ " has no free /30 subnets"
  | InvalidPortRange first last => "invalid port range " ++ show_dec first ++ "-" ++ show_dec last
  | ZeroLatency => "network.shaping.latency_ms must be greater than zero"
  | UnsupportedNftProtocol p => "unsupported nft protocol " ++ quoted p
  | NoStdin program => program ++ " did not provide stdin"
  end.

Definition show_network_error (e : NetworkError) : string :=
  match e with
  | InvalidConfig p => show_config_problem p
  | Command program args status =>
      "network command failed: " ++ program ++ " " ++ str_join " " args ++ "; status=" ++ status
  | AddrParse _ => "invalid socket address syntax"
  | NetJson => "invalid JSON"
  | NetIo e => e
  end.

Inductive AppError : Type :=
| Unauthorized
| BadRequest (message : string)
| NotFoundError (message : string)
| Conflict (message : string)
| TeardownFailed (message : string)
| AppOci (e : OciError)
| AppRuntime (e : RuntimeError)
| AppNetwork (e : NetworkError)
| AppIo (e : IoError).

(** The generic answer that hides what went wrong. *)
Definition internal_error : Z * ErrorBody := (500%Z, mkErrorBody "internal" "internal server error").

(** [IntoResponse]: status, code and message. *)
Definition into_response (e : AppError) : Z * ErrorBody :=
  match e with
  | Unauthorized => (401%Z, mkErrorBody "unauthorized" "missing or invalid bearer token")
  | BadRequest m => (400%Z, mkErrorBody "bad_request" m)
  | NotFoundError m => (404%Z, mkErrorBody "not_found" m)
  | Conflict m => (409%Z, mkErrorBody "conflict" m)
  | TeardownFailed m => (500%Z, mkErrorBody "delete_failed" m)
  | AppOci oci =>
      match oci with
      | InvalidReference _ | InvalidManifest _ | JsonBody _ _ _ _ | NoCommand _ | PlatformUnavailable _
      | UnsupportedDigest _ | UnsupportedTarEntry _ | UnsafeArchivePath _ =>
          (400%Z, mkErrorBody "bad_request" (show_oci_error oci))
      | BodyTooLarge _ _ => (413%Z, mkErrorBody "payload_too_large" (show_oci_error oci))
      | _ => internal_error
      end
  | AppNetwork (InvalidConfig p) => (400%Z, mkErrorBody "bad_request" (show_config_problem p))
  | AppRuntime _ | AppNetwork _ | AppIo _ => internal_error
  end.

(** ** The bearer token *)

Fixpoint fold_zip (diff : Z) (a b : list Z) : Z :=
  match a, b with
  | x :: a, y :: b => fold_zip (Z.lor diff (Z.lxor x y)) a b
  | _, _ => diff
  end.

(** On slices of [u8]. *)
Definition constant_time_eq (a b : list Z) : bool :=
  if negb (length a =? length b)%nat then false else (fold_zip 0 a b =? 0)%Z.

Definition as_bytes (s : string) : list Z := map code (list_ascii_of_string s).

(** The middleware: [authorization] is the header's value, when there is one
    that is text. *)
Definition require_auth {A} (config : DaemonConfig) (authorization : option string) (next : A) : result AppError A :=
  let expected := "Bearer " ++ bearer_token (http config) in
  match authorization with
  | Some provided =>
      if constant_time_eq (as_bytes provided) (as_bytes expected) then Ok next else Err Unauthorized
  | None => Err Unauthorized
  end.

(** ** Container lists *)

Fixpoint validate_container_list (names : gset string) (containers : list ContainerSpec) : result AppError unit :=
  match containers with
  | [] => Ok tt
  | c :: containers =>
      (map_err (λ e, BadRequest (show_validation_error e)) (validate_container_name (ct_name c)) ?;;
       if decide (ct_name c ∈ names) then
         Err (BadRequest ("container " ++ quoted (ct_name c) ++ " is duplicated"))
       else if decide (ct_image c = "") then
         Err (BadRequest ("container " ++ quoted (ct_name c) ++ " image must not be empty"))
       else validate_container_list ({[ ct_name c ]} ∪ names) containers)%rust
  end.

Definition validate_containers (containers : list ContainerSpec) : result AppError unit :=
  match containers with
  | [] => Err (BadRequest "containers must not be empty")
  | _ => validate_container_list ∅ containers
  end.

Definition parse_sandbox_id (id : string) : result AppError SandboxId :=
  map_err (λ e, BadRequest (show_validation_error e)) (SandboxId_new id).

Definition default_log_container (record : SandboxRecord) : option string :=
  match find_first (λ name, negb (is_pause name)) (rec_containers record) with
  | Some c => Some c
  | None => head (rec_containers record)
  end.

Definition render_env (env : list EnvVar) : list string :=
  map (λ var, env_name var ++ "=" ++ env_value var) env.

(** ** Properties *)

Lemma fold_zip_zero d a b :
  length a = length b → (fold_zip d a b = 0 ↔ d = 0 ∧ a = b)%Z.
Proof.
  revert d b. induction a as [|x a IH]; intros d [|y b] Hl; simpl in *; [naive_solver|done..|].
  rewrite IH; [lia|]. rewrite Z.lor_eq_0_iff Z.lxor_eq_0_iff. naive_solver.
Qed.

Lemma code_inj a b : code a = code b → a = b.
Proof. unfold code. intros H. apply N2Z.inj in H. by rewrite -(ascii_N_embedding a) -(ascii_N_embedding b) H. Qed.

(** The comparison that does not stop early is equality, and a request passes
    exactly when it carries the configured token. *)
Theorem require_auth_spec {A} (config : DaemonConfig) (authorization : option string) (next : A) :
  (∀ a b, constant_time_eq a b = true ↔ a = b) ∧
  (require_auth config authorization next = Ok next ↔
   authorization = Some ("Bearer " ++ bearer_token (http config))) ∧
  (require_auth config authorization next = Ok next ∨ require_auth config authorization next = Err Unauthorized).
Proof.
  assert (Heq : ∀ a b, constant_time_eq a b = true ↔ a = b).
  { intros a b. unfold constant_time_eq. destruct (Nat.eqb_spec (length a) (length b)) as [Hl|Hl]; simpl.
    - rewrite Z.eqb_eq fold_zip_zero //. naive_solver.
    - split; [done|]. by intros ->. }
  split; [exact Heq|]. unfold require_auth. destruct authorization as [p|]; [|naive_solver].
  assert (Hs : ∀ s t, as_bytes s = as_bytes t → s = t).
  { intros s t H. rewrite -(string_of_list_ascii_of_string s) -(string_of_list_ascii_of_string t).
    f_equal. revert H. unfold as_bytes. generalize (list_ascii_of_string s) (list_ascii_of_string t).
    intros l. induction l as [|x l IH]; intros [|y l'] H; try done. simpl in H. injection H as H1%code_inj H2.
    by rewrite H1 (IH _ H2). }
  pose proof (Heq (as_bytes p) (as_bytes ("Bearer " ++ bearer_token (http config)))) as Hp.
  destruct (constant_time_eq _ _); split; auto; split; try done.
  - intros _. f_equal. by apply Hs, Hp.
  - intros [= ->]. pose proof (proj2 Hp eq_refl) as H. discriminate H.
Qed.

Lemma validate_container_list_ok names containers :
  validate_container_list names containers = Ok tt ↔
  Forall (λ c, validate_container_name (ct_name c) = Ok tt ∧ ct_name c ∉ names ∧ ct_image c ≠ "") containers ∧
  NoDup (map ct_name containers).
Proof.
  revert names. induction containers as [|c cs IH]; intros names; simpl.
  { split; [by repeat constructor|done]. }
  rewrite Forall_cons NoDup_cons. destruct (validate_container_name (ct_name c)) as [[]|e]; simpl; [|naive_solver].
  repeat case_decide; [naive_solver..|]. rewrite IH. rewrite list_elem_of_fmap !Forall_forall. set_solver.
Qed.

(** A container list is accepted exactly when it is not empty, every name is
    a legal one other than [pause], no name occurs twice and every image is
    named; then the names the sandbox is started with, [pause] included, are
    distinct and can serve as path components. *)
Theorem validate_containers_spec (containers : list ContainerSpec) :
  (validate_containers containers = Ok tt ↔
     containers ≠ [] ∧
     Forall (λ c, validate_container_name (ct_name c) = Ok tt ∧ ct_image c ≠ "") containers ∧
     NoDup (map ct_name containers)) ∧
  (validate_containers containers = Ok tt →
     NoDup (container_names containers) ∧ Forall valid_segment (container_names containers)).
Proof.
  assert (Hiff : validate_containers containers = Ok tt ↔ containers ≠ [] ∧
     Forall (λ c, validate_container_name (ct_name c) = Ok tt ∧ ct_image c ≠ "") containers ∧
     NoDup (map ct_name containers)).
  { unfold validate_containers. destruct containers as [|c cs]; [naive_solver|].
    rewrite validate_container_list_ok !Forall_forall. set_solver. }
  split; [exact Hiff|]. intros (_ & Hall & Hnd)%Hiff. unfold container_names.
  rewrite Forall_forall in Hall. split.
  - apply NoDup_cons. split; [|done]. intros (c & Hc & Hin)%list_elem_of_fmap.
    destruct (Hall c Hin) as [Hv _]. rewrite -Hc in Hv. by vm_compute in Hv.
  - apply Forall_cons. split; [by apply valid_segment_literal|].
    apply Forall_forall. intros n (c & -> & Hin)%list_elem_of_fmap.
    destruct (Hall c Hin) as [Hv _]. apply validate_container_name_valid in Hv. apply Hv.
Qed.

Lemma validate_containers_spec_witness :
  let containers := [mkContainerSpec "web" "nginx" [] [] []; mkContainerSpec "db" "postgres" [] [] []] in
  validate_containers containers = Ok tt ∧ NoDup (container_names containers).
Proof.
  intros containers. assert (H : validate_containers containers = Ok tt) by (vm_compute; reflexivity).
  split; [exact H|]. exact (proj1 (proj2 (validate_containers_spec containers) H)).
Defined.
