(* ===== verification/ExecSession.v ===== *)
(** * Background exec sessions (crates/oad/src/background_exec.rs, and the event
      stream of crates/oad/src/main.rs)

    A session numbers the events of a process, keeps the last 4096 of them and
    broadcasts each; readers of its output, the waiter for its end and the
    clients' streams run concurrently.  Each critical section of the code is one
    step here. *)
From S2P Require Import Prelude Str Core Api.

Definition EVENT_BUFFER_CAPACITY : nat := 4096.

(** What [SessionControl] still holds. *)
Inductive SessionControl : Type :=
| Pipes (stdin kill_tx : bool)
| Pty (writer killer kill_tx : bool).

Record Session : Type := mkSession {
  s_info : BackgroundExecInfo;
  s_control : SessionControl;
  s_events : list BackgroundExecEvent;      (* the retained ones, oldest first *)
  s_next_sequence : Z;
  s_sent : list BackgroundExecEvent;        (* all that was broadcast *)
}.

Definition Session_new (info : BackgroundExecInfo) : Session := mkSession info (Pipes true true) [] 1 [].
Definition Session_new_pty (info : BackgroundExecInfo) : Session := mkSession info (Pty true true true) [] 1 [].

Definition set_info (i : BackgroundExecInfo) (s : Session) : Session :=
  mkSession i (s_control s) (s_events s) (s_next_sequence s) (s_sent s).
Definition set_control (c : SessionControl) (s : Session) : Session :=
  mkSession (s_info s) c (s_events s) (s_next_sequence s) (s_sent s).

(** ** Operations *)

(** Under the events lock: the sequence number is taken, the oldest event makes
    room, the new one is queued and broadcast. *)
Definition push_event (exec_id : string) (kind : BackgroundExecEventKind) (s : Session) : Session :=
  let event := mkEvent (s_next_sequence s) exec_id kind in
  let kept := if (length (s_events s) =? EVENT_BUFFER_CAPACITY)%nat then tail (s_events s) else s_events s in
  mkSession (s_info s) (s_control s) (kept ++ [event])%list (wrap64 (s_next_sequence s + 1)) (s_sent s ++ [event])%list.

Definition events_since (from_sequence : Z) (s : Session) : list BackgroundExecEvent :=
  List.filter (λ e, from_sequence <=? ev_sequence e)%Z (s_events s).

(** [write]: how the operating system takes the bytes; [Ok false]: stdin is closed. *)
Definition write_stdin {E} (data : string) (close : bool) (write : result E ()) (s : Session)
    : result E bool * Session :=
  let open := match s_control s with Pipes stdin _ => stdin | Pty writer _ _ => writer end in
  if negb open then (Ok false, s) else
  match (if decide (data = "") then Ok tt else write) with
  | Err e => (Err e, s)
  | Ok _ => (Ok true, if negb close then s else set_control match s_control s with
              | Pipes _ k => Pipes false k | Pty _ killer k => Pty false killer k end s)
  end.

Definition resize (resized : bool) (s : Session) : bool :=
  match s_control s with Pty _ _ _ => resized | Pipes _ _ => false end.

(** [sent]: the waiter still listens; [killed]: the killer succeeds. *)
Definition kill (sent killed : bool) (s : Session) : bool * Session :=
  match s_control s with
  | Pipes _ kill_tx => (kill_tx && sent, set_control (Pipes false false) s)
  | Pty _ killer kill_tx => ((kill_tx && sent) || (killer && killed), set_control (Pty false false false) s)
  end.

Definition is_running (s : Session) : bool := bool_decide (bi_status (s_info s) = ExecRunning).

(** [finish], first critical section: [None] when the session had finished. *)
Definition finish_info (status : BackgroundExecStatus) (exit_code : option Z) (last_error : option string)
    (s : Session) : option Session :=
  if negb (is_running s) then None else
  let i := s_info s in
  Some (set_info (mkExecInfo (bi_id i) (bi_sandbox_id i) (bi_container i) (bi_command i) (bi_pty i)
                    status exit_code last_error) s).

(** Second: the handles are dropped. *)
Definition finish_control (s : Session) : Session :=
  set_control match s_control s with Pipes _ _ => Pipes false false | Pty _ _ _ => Pty false false false end s.

(** How the process ended, and the state and event it becomes. *)
Inductive Ending : Type := EndExited (exit_code : Z) | EndFailed (message : string).

Definition ending_status (e : Ending) : BackgroundExecStatus :=
  match e with EndExited _ => ExecExited | EndFailed _ => ExecFailed end.
Definition ending_code (e : Ending) : option Z := match e with EndExited c => Some c | EndFailed _ => None end.
Definition ending_error (e : Ending) : option string := match e with EndExited _ => None | EndFailed m => Some m end.
Definition ending_event (e : Ending) : BackgroundExecEventKind :=
  match e with EndExited c => EvExited c | EndFailed m => EvFailed m end.

Definition finish_with (e : Ending) (s : Session) : option Session :=
  finish_info (ending_status e) (ending_code e) (ending_error e) s.

(** [finish_child]: what [wait] says. *)
Definition finish_child (status : result string (option Z)) : Ending :=
  match status with
  | Ok code => EndExited (default (-1)%Z code)
  | Err err => EndFailed ("failed to wait for background exec: " ++ err)
  end.

(** ** The tasks of a session *)

(** The waiter: for the process; past the readers, about to finish; between the
    critical sections of [finish]; done. *)
Inductive Waiter : Type :=
| AwaitingChild
| Draining (e : Ending)
| Finishing (e : Ending)
| Marked (e : Ending)
| Released (e : Ending)
| WaiterDone.

Record ExecWorld : Type := mkExecWorld {
  x_session : Session;
  x_stdout : bool; x_stderr : bool;     (* is the reader alive? A PTY has but one. *)
  x_waiter : Waiter;
}.

Definition exec_id (w : ExecWorld) : string := bi_id (s_info (x_session w)).

Definition with_session (s : Session) (w : ExecWorld) : ExecWorld :=
  mkExecWorld s (x_stdout w) (x_stderr w) (x_waiter w).

Definition is_pty (s : Session) : bool := match s_control s with Pty _ _ _ => true | Pipes _ _ => false end.

Inductive exec_step (w : ExecWorld) : ExecWorld → Prop :=
(* the readers: [read] returned some bytes *)
| read_stdout data : x_stdout w = true →
    exec_step w (with_session (push_event (exec_id w) (EvStdout data) (x_session w)) w)
| read_stderr data : x_stderr w = true → is_pty (x_session w) = false →
    exec_step w (with_session (push_event (exec_id w) (EvStderr data) (x_session w)) w)
(* ... or the end of the stream, or an error *)
| eof_stdout : exec_step w (mkExecWorld (x_session w) false (x_stderr w) (x_waiter w))
| eof_stderr : exec_step w (mkExecWorld (x_session w) (x_stdout w) false (x_waiter w))
(* the waiter *)
| child_ended e : x_waiter w = AwaitingChild →
    exec_step w (mkExecWorld (x_session w) (x_stdout w) (x_stderr w) (Draining e))
(* the readers have been joined, or aborted and joined; the reader of a PTY is
   a blocking task that cannot be aborted, so it may live on *)
| drained e : x_waiter w = Draining e →
    is_pty (x_session w) = true ∨ (x_stdout w = false ∧ x_stderr w = false) →
    exec_step w (mkExecWorld (x_session w) (x_stdout w) (x_stderr w) (Finishing e))
| finish_1 e s : x_waiter w = Finishing e → finish_with e (x_session w) = Some s →
    exec_step w (mkExecWorld s (x_stdout w) (x_stderr w) (Marked e))
| finish_again e : x_waiter w = Finishing e → finish_with e (x_session w) = None →
    exec_step w (mkExecWorld (x_session w) (x_stdout w) (x_stderr w) WaiterDone)
| finish_2 e : x_waiter w = Marked e →
    exec_step w (mkExecWorld (finish_control (x_session w)) (x_stdout w) (x_stderr w) (Released e))
| finish_3 e : x_waiter w = Released e →
    exec_step w (mkExecWorld (push_event (exec_id w) (ending_event e) (x_session w))
      (x_stdout w) (x_stderr w) WaiterDone)
(* requests of clients *)
| client_stdin E data close (write : result E ()) :
    exec_step w (with_session (write_stdin data close write (x_session w)).2 w)
| client_kill sent killed : exec_step w (with_session (kill sent killed (x_session w)).2 w).

Definition exec_init (info : BackgroundExecInfo) : ExecWorld :=
  mkExecWorld (if bi_pty info then Session_new_pty info else Session_new info) true (negb (bi_pty info)) AwaitingChild.

(** ** Invariant of the tasks *)

(** The [i]-th event has number [i+1], in the arithmetic of u64. *)
Definition numbered (sent : list BackgroundExecEvent) : Prop :=
  ∀ i e, sent !! i = Some e → ev_sequence e = wrap64 (Z.of_nat i + 1).

Definition terminal_in (sent : list BackgroundExecEvent) : list BackgroundExecEvent :=
  List.filter (λ e, is_terminal (ev_event e)) sent.

(** What is retained and broadcast. *)
Record session_ok (s : Session) : Prop := {
  ok_numbered : numbered (s_sent s);
  ok_next : s_next_sequence s = wrap64 (Z.of_nat (length (s_sent s)) + 1);
  ok_events : s_events s = drop (length (s_sent s) - EVENT_BUFFER_CAPACITY) (s_sent s);
}.

Lemma tail_drop {A} n (l : list A) : tail (drop n l) = drop (S n) l.
Proof. revert l. induction n as [|n IH]; intros [|x l]; try done. by rewrite !skipn_cons IH. Qed.

Lemma wrap64_succ a : wrap64 (wrap64 a + 1) = wrap64 (a + 1).
Proof. unfold wrap64. by rewrite Zplus_mod_idemp_l. Qed.

Lemma session_ok_push exec_id kind s : session_ok s → session_ok (push_event exec_id kind s).
Proof.
  intros [Hn Hx He]. split; simpl.
  - intros i e Hi. rewrite lookup_app_Some in Hi.
    destruct Hi as [Hi|[Hi Hl]]; [by apply Hn|]. rewrite list_lookup_singleton_Some in Hl.
    destruct Hl as [Hl <-]. simpl. rewrite Hx. f_equal. lia.
  - rewrite Hx wrap64_succ length_app /=. f_equal. lia.
  - assert (Hl : length (s_events s) = length (s_sent s) `min` EVENT_BUFFER_CAPACITY).
    { rewrite He length_drop. lia. }
    rewrite length_app /=. destruct (Nat.eqb_spec (length (s_events s)) EVENT_BUFFER_CAPACITY) as [Hf|Hf].
    + replace (length (s_sent s) + 1 - EVENT_BUFFER_CAPACITY)
        with (S (length (s_sent s) - EVENT_BUFFER_CAPACITY)) by lia.
      rewrite drop_app_le; [unfold EVENT_BUFFER_CAPACITY in *; lia|].
      by rewrite He tail_drop.
    + replace (length (s_sent s) + 1 - EVENT_BUFFER_CAPACITY) with 0 by lia.
      rewrite He. replace (length (s_sent s) - EVENT_BUFFER_CAPACITY) with 0 by lia. by rewrite !drop_0.
Qed.

(** The tasks: the state and the events tell the same story. *)
Record exec_inv (w : ExecWorld) : Prop := {
  inv_session : session_ok (x_session w);
  (* before the end: running, and no terminal event *)
  inv_running : (∃ e, x_waiter w = Draining e ∨ x_waiter w = Finishing e) ∨ x_waiter w = AwaitingChild →
    is_running (x_session w) = true ∧ terminal_in (s_sent (x_session w)) = [];
  (* in the middle of [finish]: the state is final, the event is to come *)
  inv_marked : ∀ e, x_waiter w = Marked e ∨ x_waiter w = Released e →
    bi_status (s_info (x_session w)) = ending_status e ∧ bi_exit_code (s_info (x_session w)) = ending_code e ∧
    bi_last_error (s_info (x_session w)) = ending_error e ∧ terminal_in (s_sent (x_session w)) = [];
  (* at the end: one terminal event, the one of the state *)
  inv_done : x_waiter w = WaiterDone →
    ∃ e ev, terminal_in (s_sent (x_session w)) = [ev] ∧ ev_event ev = ending_event e ∧
      bi_status (s_info (x_session w)) = ending_status e ∧ bi_exit_code (s_info (x_session w)) = ending_code e ∧
      bi_last_error (s_info (x_session w)) = ending_error e;
  (* the pipes of a process: past the readers there is no more output *)
  inv_pipes : is_pty (x_session w) = false →
    match x_waiter w with AwaitingChild | Draining _ => True | _ => x_stdout w = false ∧ x_stderr w = false end ∧
    (x_waiter w = WaiterDone → ∃ ev, last (s_sent (x_session w)) = Some ev ∧ is_terminal (ev_event ev) = true);
}.

Lemma terminal_in_app l ev :
  terminal_in (l ++ [ev]) = (terminal_in l ++ if is_terminal (ev_event ev) then [ev] else [])%list.
Proof. unfold terminal_in. rewrite List.filter_app /=. by destruct (is_terminal _). Qed.

(** A client's request changes nothing but the handles. *)
Lemma inv_control w c :
  is_pty (set_control c (x_session w)) = is_pty (x_session w) → exec_inv w →
  exec_inv (with_session (set_control c (x_session w)) w).
Proof.
  intros Hp [[? ? ?] ? ? ? H5]. split; [by split|done..|]. intros Hpty. cbn in Hp, Hpty |- *. apply H5. by rewrite -Hp.
Qed.

Lemma inv_output w kind :
  is_terminal kind = false →
  (is_pty (x_session w) = false → x_stdout w = true ∨ x_stderr w = true) →
  exec_inv w → exec_inv (with_session (push_event (exec_id w) kind (x_session w)) w).
Proof.
  intros Hk Hr [H1 H2 H3 H4 H5].
  assert (Ht : terminal_in (s_sent (push_event (exec_id w) kind (x_session w))) = terminal_in (s_sent (x_session w))).
  { simpl. by rewrite terminal_in_app /= Hk app_nil_r. }
  split; cbn [x_session x_waiter with_session x_stdout x_stderr]; rewrite ?Ht.
  - by apply session_ok_push.
  - intros Hw. by apply H2.
  - intros e Hw. by apply H3.
  - intros Hw. by apply H4.
  - intros Hp. specialize (Hr Hp). destruct (H5 Hp) as [Ha _].
    split; [done|]. intros Hw. rewrite Hw in Ha. destruct Ha as [Ha Hb]. rewrite Ha Hb in Hr. by destruct Hr.
Qed.

Lemma inv_eof w o e :
  (o = x_stdout w ∨ o = false) → (e = x_stderr w ∨ e = false) → exec_inv w →
  exec_inv (mkExecWorld (x_session w) o e (x_waiter w)).
Proof.
  intros Ho He [H1 H2 H3 H4 H5]. split; [done..|]. intros Hp. destruct (H5 Hp) as [Ha Hb]. split; [|done].
  cbn. destruct (x_waiter w); try done; destruct Ha as [Ha1 Ha2]; (split; [destruct Ho|destruct He]; congruence).
Qed.

Lemma inv_waiter w x :
  match x_waiter w, x with
  | AwaitingChild, Draining _ => True
  | Draining _, Finishing _ => is_pty (x_session w) = true ∨ (x_stdout w = false ∧ x_stderr w = false)
  | _, _ => False
  end → exec_inv w → exec_inv (mkExecWorld (x_session w) (x_stdout w) (x_stderr w) x).
Proof.
  intros Hx [H1 H2 H3 H4 H5].
  assert (Hrun : is_running (x_session w) = true ∧ terminal_in (s_sent (x_session w)) = []).
  { apply H2. destruct (x_waiter w); try done; eauto. }
  split; cbn [x_session x_waiter x_stdout x_stderr].
  - done.
  - done.
  - intros e. destruct (x_waiter w), x; try done; by intros [?|?].
  - destruct (x_waiter w), x; try done.
  - intros Hp. destruct (x_waiter w), x; try done. destruct Hx as [Hx|Hx]; [congruence|done].
Qed.

Lemma inv_finish_1 w e s :
  x_waiter w = Finishing e → finish_with e (x_session w) = Some s → exec_inv w →
  exec_inv (mkExecWorld s (x_stdout w) (x_stderr w) (Marked e)).
Proof.
  intros Hw Hs [[? ? ?] H2 H3 H4 H5]. destruct H2 as [Hr Ht]; [eauto|].
  unfold finish_with, finish_info in Hs. rewrite Hr /= in Hs. injection Hs as <-.
  split; cbn [x_session x_waiter x_stdout x_stderr].
  - by split.
  - intros [[e' [?|?]]|?]; done.
  - intros e' [[= <-]|?]; done.
  - done.
  - intros Hp. split; [|done]. rewrite Hw in H5. by apply H5.
Qed.

Lemma inv_finish_2 w e :
  x_waiter w = Marked e → exec_inv w →
  exec_inv (mkExecWorld (finish_control (x_session w)) (x_stdout w) (x_stderr w) (Released e)).
Proof.
  intros Hw [[? ? ?] H2 H3 H4 H5]. split; cbn [x_session x_waiter x_stdout x_stderr].
  - by split.
  - intros [[e' [?|?]]|?]; done.
  - intros e' [?|[= <-]]; [done|]. apply (H3 e). by left.
  - done.
  - intros Hp. split; [|done]. rewrite Hw in H5. apply H5.
    unfold finish_control, is_pty in *. simpl in Hp. by destruct (s_control (x_session w)).
Qed.

Lemma inv_finish_3 w e :
  x_waiter w = Released e → exec_inv w →
  exec_inv (mkExecWorld (push_event (exec_id w) (ending_event e) (x_session w)) (x_stdout w) (x_stderr w) WaiterDone).
Proof.
  intros Hw [H1 H2 H3 H4 H5]. destruct (H3 e) as (Hs & Hc & He & Ht); [by right|].
  assert (Hterm : is_terminal (ending_event e) = true) by by destruct e.
  split; cbn [x_session x_waiter x_stdout x_stderr].
  - by apply session_ok_push.
  - intros [[e' [?|?]]|?]; done.
  - intros e' [?|?]; done.
  - intros _. exists e. eexists. simpl. rewrite terminal_in_app Ht /= Hterm. by split_and!.
  - intros Hp. rewrite Hw in H5. split; [by apply H5|]. intros _. eexists. simpl. by rewrite last_snoc.
Qed.

Lemma exec_step_inv w w' : exec_step w w' → exec_inv w → exec_inv w'.
Proof.
  intros Hstep Hinv.
  destruct Hstep as [data Hr|data Hr _| | |e Hw|e Hw Hd|e s Hw Hs|e Hw Hs|e Hw|e Hw|E data close wr|sent killed].
  - apply inv_output; auto.
  - apply inv_output; auto.
  - apply inv_eof; auto.
  - apply inv_eof; auto.
  - apply inv_waiter; [by rewrite Hw|done].
  - apply inv_waiter; [by rewrite Hw|done].
  - by eapply inv_finish_1.
  - destruct (inv_running w Hinv) as [Hr _]; [left; eauto|].
    unfold finish_with, finish_info in Hs. by rewrite Hr in Hs.
  - by eapply inv_finish_2.
  - by eapply inv_finish_3.
  - unfold write_stdin. destruct (negb _); [by destruct w|]. case_match; [|by destruct w].
    destruct close; [|by destruct w]. apply inv_control; [|done]. unfold is_pty. simpl. by destruct (s_control _).
  - unfold kill. destruct (s_control (x_session w)) eqn:Ec; apply inv_control; try done; unfold is_pty; by rewrite Ec.
Qed.

Lemma exec_init_inv info : bi_status info = ExecRunning → exec_inv (exec_init info).
Proof.
  intros Hs. assert (Hr : is_running (x_session (exec_init info)) = true).
  { unfold is_running, exec_init. destruct (bi_pty info); by rewrite /= Hs. }
  assert (Hsent : s_sent (x_session (exec_init info)) = []) by (unfold exec_init; by destruct (bi_pty info)).
  split; rewrite ?Hsent.
  - split; unfold exec_init; destruct (bi_pty info); try done; intros i e; by rewrite lookup_nil.
  - done.
  - by intros e [].
  - done.
  - done.
Qed.

Lemma exec_step_pty w w' : exec_step w w' → is_pty (x_session w') = is_pty (x_session w).
Proof.
  intros Hstep.
  destruct Hstep as [data Hr|data Hr _| | |e Hw|e Hw Hd|e s Hw Hs|e Hw Hs|e Hw|e Hw|E data close wr|sent killed]; try done.
  - unfold finish_with, finish_info in Hs. destruct (negb _); [done|]. by injection Hs as <-.
  - unfold finish_control, is_pty. simpl. by destruct (s_control _).
  - unfold write_stdin. destruct (negb _); [done|]. case_match; [|done]. destruct close; [|done].
    unfold is_pty. simpl. by destruct (s_control _).
  - unfold kill, is_pty. simpl. by destruct (s_control (x_session w)).
Qed.

Lemma exec_reachable info w :
  bi_status info = ExecRunning → rtc exec_step (exec_init info) w →
  exec_inv w ∧ is_pty (x_session w) = bi_pty info.
Proof.
  intros Hs H. apply exec_init_inv in Hs as Hinit.
  assert (Hp : is_pty (x_session (exec_init info)) = bi_pty info) by (unfold exec_init; by destruct (bi_pty info)).
  revert Hinit Hp. generalize (exec_init info) H. clear H. intros u Hu.
  induction Hu as [|u v w Hstep _ IH]; [done|]. intros Hinv Hp. apply IH; [by apply (exec_step_inv u)|].
  by rewrite (exec_step_pty u v).
Qed.

Lemma terminal_in_nil l i ev : terminal_in l = [] → l !! i = Some ev → is_terminal (ev_event ev) = false.
Proof.
  intros Hl Hi. destruct (is_terminal (ev_event ev)) eqn:E; [|done].
  assert (H : ev ∈ terminal_in l).
  { apply list_elem_of_In, filter_In. split; [|done]. apply list_elem_of_In. exact (list_elem_of_lookup_2 _ _ _ Hi). }
  rewrite Hl in H. by apply elem_of_nil in H.
Qed.

(** C34. A session tells one story: events are numbered 1, 2, ... without gaps, and
    the last 4096 are retained; there is at most one terminal event, there is
    none while the session is running, and it says how the session ended, just
    as the state does; with pipes it is the last event of all. *)
Theorem session_events_consistent (info : BackgroundExecInfo) (w : ExecWorld) :
  bi_status info = ExecRunning → rtc exec_step (exec_init info) w →
  let s := x_session w in
  (s_events s = drop (length (s_sent s) - EVENT_BUFFER_CAPACITY) (s_sent s) ∧ numbered (s_sent s)) ∧
  (length (terminal_in (s_sent s)) ≤ 1)%nat ∧
  (is_running s = true → terminal_in (s_sent s) = []) ∧
  (∀ ev, ev ∈ terminal_in (s_sent s) → ∃ e, ev_event ev = ending_event e ∧
     bi_status (s_info s) = ending_status e ∧ bi_exit_code (s_info s) = ending_code e ∧
     bi_last_error (s_info s) = ending_error e) ∧
  (bi_pty info = false → ∀ i ev, s_sent s !! i = Some ev → is_terminal (ev_event ev) = true →
     S i = length (s_sent s)).
Proof.
  intros Hs Hw. destruct (exec_reachable info w Hs Hw) as [[[H0 H0' H0''] H2 H3 H4 H5] Hp].
  assert (Hcase : (terminal_in (s_sent (x_session w)) = [] ∨ x_waiter w = WaiterDone)).
  { destruct (x_waiter w) as [|e|e|e|e|]; [left..|by right].
    - apply H2. by right.
    - apply H2. left. eauto.
    - apply H2. left. eauto.
    - apply (H3 e). by left.
    - apply (H3 e). by right. }
  split; [by split|]. destruct Hcase as [Hn|Hd].
  - rewrite Hn. split_and!; [simpl; lia|done|by intros ev ?%elem_of_nil|].
    intros _ i ev Hi Ht. by rewrite (terminal_in_nil _ _ _ Hn Hi) in Ht.
  - destruct (H4 Hd) as (e & ev & Ht & He & Hst & Hc & Hle). rewrite Ht. split_and!.
    + done.
    + unfold is_running. rewrite Hst. by destruct e.
    + intros ev' Hev. apply list_elem_of_singleton in Hev as ->. exists e. by split_and!.
    + intros Hpipe. rewrite -Hp in Hpipe. destruct (H5 Hpipe) as [_ Hl].
      destruct (Hl Hd) as (ev' & Hlast & Hterm). apply last_Some in Hlast as [l Hsent].
      intros i ev'' Hi Ht''. rewrite Hsent in Hi, Ht |- *. rewrite terminal_in_app Hterm in Ht.
      assert (Hl0 : terminal_in l = []).
      { apply nil_length_inv. apply (f_equal length) in Ht. rewrite length_app /= in Ht. lia. }
      rewrite length_app /=. apply lookup_app_Some in Hi as [Hi|[Hle' Hi]].
      * by rewrite (terminal_in_nil _ _ _ Hl0 Hi) in Ht''.
      * apply list_lookup_singleton_Some in Hi as [Hi _]. lia.
Qed.

Definition demo_exec (pty : bool) : BackgroundExecInfo :=
  mkExecInfo "e1" "box" "main" ["make"] pty ExecRunning None None.

(** Output, end of the process, end of the streams, [finish]. *)
Definition demo_exec_end : ExecWorld :=
  mkExecWorld
    (mkSession (mkExecInfo "e1" "box" "main" ["make"] false ExecExited (Some 0%Z) None) (Pipes false false)
       [mkEvent 1 "e1" (EvStdout "ok"); mkEvent 2 "e1" (EvExited 0)] 3
       [mkEvent 1 "e1" (EvStdout "ok"); mkEvent 2 "e1" (EvExited 0)]) false false WaiterDone.

Lemma demo_exec_end_reachable : rtc exec_step (exec_init (demo_exec false)) demo_exec_end.
Proof.
  eapply rtc_l; [exact (read_stdout (exec_init (demo_exec false)) "ok" eq_refl)|].
  eapply rtc_l; [apply (child_ended _ (EndExited 0)); reflexivity|].
  eapply rtc_l; [apply eof_stdout|]. eapply rtc_l; [apply eof_stderr|].
  eapply rtc_l; [apply (drained _ (EndExited 0)); [reflexivity|by right]|].
  eapply rtc_l; [eapply (finish_1 _ (EndExited 0)); reflexivity|].
  eapply rtc_l; [eapply (finish_2 _ (EndExited 0)); reflexivity|].
  eapply rtc_l; [eapply (finish_3 _ (EndExited 0)); reflexivity|]. vm_compute. apply rtc_refl.
Qed.

Lemma session_events_consistent_witness :
  length (s_sent (x_session demo_exec_end)) = 2 ∧
  (length (terminal_in (s_sent (x_session demo_exec_end))) ≤ 1)%nat.
Proof.
  split; [reflexivity|].
  apply (session_events_consistent (demo_exec false) demo_exec_end eq_refl demo_exec_end_reachable).
Defined.

(** The reader of a PTY outlives the wait for it: output can follow the
    terminal event. *)
Example pty_output_after_exit :
  ∃ w, rtc exec_step (exec_init (demo_exec true)) w ∧
    map ev_event (s_sent (x_session w)) = [EvExited 0; EvStdout "late"].
Proof.
  eexists. split.
  - eapply rtc_l; [apply (child_ended _ (EndExited 0)); reflexivity|].
    eapply rtc_l; [apply (drained _ (EndExited 0)); [reflexivity|by left]|].
    eapply rtc_l; [eapply (finish_1 _ (EndExited 0)); reflexivity|].
    eapply rtc_l; [eapply (finish_2 _ (EndExited 0)); reflexivity|].
    eapply rtc_l; [eapply (finish_3 _ (EndExited 0)); reflexivity|].
    eapply rtc_l; [apply (read_stdout _ "late"); reflexivity|]. apply rtc_refl.
  - vm_compute. reflexivity.
Qed.
