(* ===== verification/ExecStream.v ===== *)
(** * The event stream of a background exec
      ([stream_background_exec_events], crates/oad/src/main.rs)

    A client asks for the events from a number on: it gets the retained ones,
    then the live ones; when it falls behind the broadcast channel the stream
    refills from the buffer of the session.  The stream, the tasks of the
    session and other clients take steps in any order. *)
From S2P Require Import Prelude Str Core Api ExecSession.
From Stdlib Require Import Sorted.

Local Open Scope list_scope.
Local Open Scope nat_scope.

Local Notation Event := BackgroundExecEvent.

(** What the receiver of a broadcast channel answers. *)
Inductive RecvResult : Type := Received (e : Event) | Lagged | Closed.

Definition saturating_succ (n : Z) : Z := Z.min (n + 1) (2 ^ 64 - 1).

Definition background_exec_event_name (event : BackgroundExecEventKind) : string :=
  match event with
  | EvStdout _ => "stdout" | EvStderr _ => "stderr" | EvExited _ => "exited" | EvFailed _ => "failed"
  end.

(** The state of the response: what is left of the replay, then the state of
    the [unfold]. *)
Record Stream : Type := mkStream {
  st_replay : list Event;
  st_replay_terminal : bool;
  st_receiver : nat;               (* how much of the channel was consumed *)
  st_next_sequence : Z;
  st_pending : list Event;
  st_refilling : bool;             (* between [Lagged] and the refill *)
  st_done : bool;
  st_ended : bool;
  st_out : list Event;             (* what the client was sent *)
}.

Definition replay_terminal (replay : list Event) : bool :=
  match last replay with Some e => is_terminal (ev_event e) | None => false end.

Definition next_live_sequence (from : Z) (replay : list Event) : Z :=
  match last replay with Some e => saturating_succ (ev_sequence e) | None => from end.

(** Subscribed when [receiver] events had been sent; the replay is read later. *)
Definition start_stream (from : Z) (receiver : nat) (s : Session) : Stream :=
  let replay := events_since from s in
  mkStream replay (replay_terminal replay) receiver (next_live_sequence from replay) [] false false false [].

(** An event at the head of the pending ones or of the channel. *)
Definition take_event (e : Event) (pending : list Event) (receiver : nat) (st : Stream) : Stream :=
  if (ev_sequence e <? st_next_sequence st)%Z then
    mkStream [] (st_replay_terminal st) receiver (st_next_sequence st) pending false (st_done st) false (st_out st)
  else
    mkStream [] (st_replay_terminal st) receiver (saturating_succ (ev_sequence e)) pending false
      (is_terminal (ev_event e)) false (st_out st ++ [e])%list.

Definition end_stream (st : Stream) : Stream :=
  mkStream (st_replay st) (st_replay_terminal st) (st_receiver st) (st_next_sequence st) (st_pending st)
    (st_refilling st) (st_done st) true (st_out st).

(** In the loop of the [unfold]. *)
Definition looping (st : Stream) : Prop :=
  st_replay st = [] ∧ st_replay_terminal st = false ∧ st_done st = false ∧ st_ended st = false.

Section stream.
(** The receiver of the channel, after [n] of the events [sent] were consumed. *)
Context (recv : list Event → nat → RecvResult → nat → Prop).

Inductive stream_step (s : Session) (st : Stream) : Stream → Prop :=
| replay_event e replay : st_replay st = e :: replay →
    stream_step s st (mkStream replay (st_replay_terminal st) (st_receiver st) (st_next_sequence st) (st_pending st)
      (st_refilling st) (st_done st) (st_ended st) (st_out st ++ [e])%list)
| after_replay : st_replay st = [] → st_ended st = false → st_replay_terminal st = true ∨ st_done st = true →
    stream_step s st (end_stream st)
| from_pending e pending : looping st → st_refilling st = false → st_pending st = e :: pending →
    stream_step s st (take_event e pending (st_receiver st) st)
| from_channel e n : looping st → st_refilling st = false → st_pending st = [] →
    recv (s_sent s) (st_receiver st) (Received e) n → stream_step s st (take_event e [] n st)
| lagged n : looping st → st_refilling st = false → st_pending st = [] →
    recv (s_sent s) (st_receiver st) Lagged n →
    stream_step s st (mkStream [] false n (st_next_sequence st) [] true false false (st_out st))
| refill : looping st → st_refilling st = true →
    stream_step s st (mkStream [] false (st_receiver st) (st_next_sequence st)
      (events_since (st_next_sequence st) s) false false false (st_out st))
| closed n : looping st → st_refilling st = false → st_pending st = [] →
    recv (s_sent s) (st_receiver st) Closed n → stream_step s st (end_stream st).

Inductive Stage : Type := Requested | Subscribed (receiver : nat) | Streaming (st : Stream).

(** The handler and the tasks of the session, interleaved. *)
Inductive stream_world (from : Z) : ExecWorld * Stage → ExecWorld * Stage → Prop :=
| tasks w w' g : exec_step w w' → stream_world from (w, g) (w', g)
| subscribe w : stream_world from (w, Requested) (w, Subscribed (length (s_sent (x_session w))))
| replay w n : stream_world from (w, Subscribed n) (w, Streaming (start_stream from n (x_session w)))
| stream w st st' : stream_step (x_session w) st st' → stream_world from (w, Streaming st) (w, Streaming st').

(** The channel (tokio's broadcast): what is received is the next event sent;
    after [Lagged] the receiver stands at a later event; the channel is not
    closed while the session, and so the sender, lives. *)
Hypothesis recv_received : ∀ sent n e n', recv sent n (Received e) n' → sent !! n = Some e ∧ n' = S n.
Hypothesis recv_lagged : ∀ sent n n', recv sent n Lagged n' → n < n' ≤ length sent.
Hypothesis recv_open : ∀ sent n n', ¬ recv sent n Closed n'.

(** ** The buffer, by position: event number [i+1] is at position [i] *)

Definition position (sequence : Z) : nat := Z.to_nat (sequence - 1).

Definition few (sent : list Event) : Prop := (Z.of_nat (length sent) < 2 ^ 64 - 1)%Z.

Lemma numbered_exact sent i e : few sent → numbered sent → sent !! i = Some e → ev_sequence e = (Z.of_nat i + 1)%Z.
Proof.
  intros Hf Hn Hi. rewrite (Hn i e Hi). apply lookup_lt_Some in Hi. unfold few, wrap64 in *.
  apply Z.mod_small. lia.
Qed.

Lemma filter_numbered from (l : list Event) k :
  (∀ i e, l !! i = Some e → ev_sequence e = (Z.of_nat (k + i) + 1)%Z) →
  List.filter (λ e, from <=? ev_sequence e)%Z l = drop (position from - k) l.
Proof.
  revert k. induction l as [|e l IH]; intros k Hl; [by rewrite drop_nil|]. simpl.
  assert (He : ev_sequence e = (Z.of_nat k + 1)%Z) by (rewrite (Hl 0 e eq_refl); lia).
  rewrite (IH (S k)).
  { intros i e' Hi. rewrite (Hl (S i) e' Hi). lia. }
  unfold position. rewrite He. destruct (Z.leb_spec from (Z.of_nat k + 1)).
  - replace (Z.to_nat (from - 1) - k) with 0 by lia. replace (Z.to_nat (from - 1) - S k) with 0 by lia.
    by rewrite !drop_0.
  - replace (Z.to_nat (from - 1) - k) with (S (Z.to_nat (from - 1) - S k)) by lia. by rewrite skipn_cons.
Qed.

(** How many events are no longer retained. *)
Definition evicted (sent : list Event) : nat := length sent - EVENT_BUFFER_CAPACITY.

Lemma events_since_drop from s :
  session_ok s → few (s_sent s) → events_since from s = drop (evicted (s_sent s) `max` position from) (s_sent s).
Proof.
  intros [Hn _ He] Hf. unfold events_since. rewrite He. rewrite (filter_numbered from _ (evicted (s_sent s))).
  { intros i e Hi. rewrite lookup_drop in Hi. by rewrite (numbered_exact _ _ _ Hf Hn Hi). }
  rewrite drop_drop. f_equal. unfold evicted. lia.
Qed.

(** [l] is what was sent from position [a] to [b]. *)
Definition segment (sent : list Event) (a b : nat) (l : list Event) : Prop :=
  a + length l = b ∧ b ≤ length sent ∧ ∀ k e, l !! k = Some e → sent !! (a + k) = Some e.

Lemma segment_drop sent a : a ≤ length sent → segment sent a (length sent) (drop a sent).
Proof.
  intros Ha. split_and!; [rewrite length_drop; lia|done|]. intros k e Hk. by rewrite lookup_drop in Hk.
Qed.

Lemma segment_nil sent a : a ≤ length sent → segment sent a a [].
Proof. intros Ha. split; [simpl; lia|split; [done|]]. intros k e Hk. by rewrite lookup_nil in Hk. Qed.

Lemma segment_app sent l' a b l : segment sent a b l → segment (sent ++ l') a b l.
Proof.
  intros (Hl & Hb & Hk). split_and!; [done|rewrite length_app; lia|].
  intros k e H. apply lookup_app_l_Some. by apply Hk.
Qed.

Lemma segment_cons sent a b e l : segment sent a b (e :: l) → sent !! a = Some e ∧ segment sent (S a) b l.
Proof.
  intros (Hl & Hb & Hk). simpl in Hl. split; [|split_and!; [lia|done|]].
  - specialize (Hk 0 e eq_refl). by rewrite Nat.add_0_r in Hk.
  - intros k e' H. specialize (Hk (S k) e' H). by rewrite Nat.add_succ_r in Hk.
Qed.

Lemma segment_last sent a b l : segment sent a b l → l ≠ [] → ∃ e, last l = Some e ∧ sent !! (b - 1) = Some e.
Proof.
  intros (Hl & Hb & Hk) Hne. destruct (last l) as [e|] eqn:E; [|by apply last_None in E].
  exists e. split; [done|]. rewrite last_lookup in E. rewrite -(Hk _ _ E). f_equal.
  destruct l; [done|]. simpl in *. lia.
Qed.

(** ** Invariant *)

Definition before (e e' : Event) : Prop := (ev_sequence e < ev_sequence e')%Z.

Lemma sorted_snoc (l : list Event) e :
  StronglySorted before l → (∀ d, d ∈ l → before d e) → StronglySorted before (l ++ [e]).
Proof.
  induction 1 as [|d l Hl IH Hd]; intros He; simpl; [repeat constructor|]. constructor.
  - apply IH. intros d' ?. apply He. by constructor.
  - apply Forall_app. split; [done|]. constructor; [apply He; by constructor|constructor].
Qed.

(** Up to position [q], every event asked for was delivered or is evicted. *)
Definition covered (from : Z) (sent out : list Event) (q : nat) : Prop :=
  ∀ i e, sent !! i = Some e → position from ≤ i < q → e ∈ out ∨ i < evicted sent.

Definition delivered (from : Z) (sent out : list Event) (q : nat) : Prop :=
  StronglySorted before out ∧ ∀ d, d ∈ out → ∃ i, sent !! i = Some d ∧ position from ≤ i < q.

(** [q]: the position wanted next; [a], [b]: the positions of the events that
    are at hand. *)
Record stream_inv (from : Z) (sent : list Event) (st : Stream) (q a b : nat) : Prop := {
  si_segment : segment sent a b (st_replay st ++ st_pending st)%list;
  si_from : position from ≤ q;
  si_bound : q ≤ length sent ∨ q = position from;
  si_delivered : delivered from sent (st_out st) q;
  si_covered : covered from sent (st_out st) (q `max` a);
  si_empty : (st_replay st ++ st_pending st = [])%list → b ≤ q;
  si_receiver : st_receiver st ≤ length sent ∧ (st_refilling st = false → st_receiver st ≤ q `max` b);
  si_replay : st_replay st ≠ [] →
    q = a ∧ st_pending st = [] ∧ st_next_sequence st = (Z.of_nat b + 1)%Z ∧ st_refilling st = false ∧
    st_done st = false ∧ st_ended st = false ∧ replay_terminal (st_replay st) = st_replay_terminal st;
  si_next : st_replay st = [] → q = position (st_next_sequence st);
  si_stopped : st_replay st = [] → st_replay_terminal st = true ∨ st_done st = true →
    ∃ e, last (st_out st) = Some e ∧ is_terminal (ev_event e) = true;
  si_ended : st_ended st = true → st_replay_terminal st = true ∨ st_done st = true;
}.

Lemma evicted_app sent l : evicted sent ≤ evicted (sent ++ l).
Proof. unfold evicted. rewrite length_app. lia. Qed.

Lemma delivered_app from sent l out q : delivered from sent out q → delivered from (sent ++ l) out q.
Proof.
  intros [H H']. split; [done|]. intros d Hd. destruct (H' d Hd) as (i & Hi & Hq).
  exists i. split; [by apply lookup_app_l_Some|done].
Qed.

Lemma covered_app from sent l out q :
  q ≤ length sent `max` position from → covered from sent out q → covered from (sent ++ l) out q.
Proof.
  intros Hb H i e Hi Hq. destruct (decide (i < length sent)) as [Hlt|Hge]; [|lia].
  rewrite lookup_app_l in Hi; [done|]. destruct (H i e Hi Hq) as [?|Hev]; [by left|right].
  pose proof (evicted_app sent l). lia.
Qed.

(** Events are only ever appended. *)
Lemma stream_inv_app from sent l st q a b : stream_inv from sent st q a b → stream_inv from (sent ++ l) st q a b.
Proof.
  intros [H1 H2 Hb H3 H4 H5 [H6 H6'] H7 H8 H9 H10]. split; try done.
  - by apply segment_app.
  - rewrite length_app. destruct Hb; [left; lia|by right].
  - by apply delivered_app.
  - apply covered_app; [|done]. destruct H1 as (? & ? & _). lia.
  - split; [rewrite length_app; lia|done].
Qed.

(** The event at position [i], the next wanted or a later one, is delivered. *)
Lemma delivered_snoc from sent out q i e :
  few sent → numbered sent → sent !! i = Some e → position from ≤ q → q ≤ i →
  delivered from sent out q → delivered from sent (out ++ [e]) (S i).
Proof.
  intros Hf Hn Hi Hp Hq [Hs Hd]. split.
  - apply sorted_snoc; [done|]. intros d Hd'. destruct (Hd d Hd') as (j & Hj & Hjq). unfold before.
    rewrite (numbered_exact _ _ _ Hf Hn Hj) (numbered_exact _ _ _ Hf Hn Hi). lia.
  - intros d [Hd'| ->%list_elem_of_singleton]%elem_of_app; [|exists i; split; [done|lia]].
    destruct (Hd d Hd') as (j & Hj & Hjq). exists j. split; [done|lia].
Qed.

Lemma covered_snoc from sent out q i e :
  sent !! i = Some e → i ≤ q → covered from sent out q → covered from sent (out ++ [e]) (q `max` S i).
Proof.
  intros Hi Hq H j d Hj Hr. destruct (decide (j = i)) as [->|Hne].
  - left. apply elem_of_app. right. apply list_elem_of_singleton. congruence.
  - destruct (H j d Hj) as [?|?]; [lia|left; apply elem_of_app; by left|by right].
Qed.

Lemma position_succ sent i e :
  few sent → numbered sent → sent !! i = Some e → position (saturating_succ (ev_sequence e)) = S i.
Proof.
  intros Hf Hn Hi. rewrite (numbered_exact _ _ _ Hf Hn Hi). apply lookup_lt_Some in Hi.
  unfold few, position, saturating_succ in *. lia.
Qed.

Lemma covered_le from sent out q q' : q' ≤ q → covered from sent out q → covered from sent out q'.
Proof. intros Hq H i e Hi Hr. apply (H i e Hi). lia. Qed.

(** The event at position [i] is taken, from the pending ones or the channel. *)
Lemma inv_take from sent st q a b i e pending receiver a' b' :
  few sent → numbered sent → stream_inv from sent st q a b → looping st → sent !! i = Some e → i ≤ q `max` a →
  segment sent a' b' pending → a' ≤ q `max` S i → (pending = [] → b' ≤ q `max` S i) →
  receiver ≤ length sent → receiver ≤ q `max` S i `max` b' →
  stream_inv from sent (take_event e pending receiver st) (q `max` S i) a' b'.
Proof.
  intros Hf Hn [H1 H2 Hb H3 H4 H5 H6 H7 H8 H9 H10] (Hl1 & Hl2 & Hl3 & Hl4) Hi Hiq Hseg Ha Hp Hr Hr'.
  specialize (H8 Hl1). pose proof (numbered_exact _ _ _ Hf Hn Hi) as Hnum.
  apply lookup_lt_Some in Hi as Hlt. unfold take_event.
  destruct (Z.ltb_spec (ev_sequence e) (st_next_sequence st)) as [Hlo|Hhi].
  - assert (Hiq' : S i ≤ q) by (unfold position in H8; lia).
    replace (q `max` S i) with q in * by lia. split; simpl; try done.
    + apply (covered_le _ _ _ (q `max` a)); [lia|done].
    + by intros _ [?|?]; [congruence|congruence].
  - assert (Hqi : q ≤ i) by (unfold position in H8; lia).
    replace (q `max` S i) with (S i) in * by lia. split; simpl; try done.
    + lia.
    + left. lia.
    + by apply (delivered_snoc _ _ _ q).
    + apply (covered_le _ _ _ (q `max` a `max` S i)); [lia|]. by apply covered_snoc.
    + intros _. by rewrite (position_succ _ _ _ Hf Hn Hi).
    + rewrite Hl2. intros _ [?|?]; [done|]. exists e. by rewrite last_snoc.
    
Qed.

Lemma inv_replay from sent st q a b e replay :
  few sent → numbered sent → stream_inv from sent st q a b → st_replay st = e :: replay →
  ∃ q' a' b', stream_inv from sent (mkStream replay (st_replay_terminal st) (st_receiver st) (st_next_sequence st)
    (st_pending st) (st_refilling st) (st_done st) (st_ended st) (st_out st ++ [e])) q' a' b'.
Proof.
  intros Hf Hn [H1 H2 Hb H3 H4 H5 H6 H7 H8 H9 H10] Hr.
  destruct H7 as (-> & Hp & Hnext & Href & Hdone & Hend & Hterm); [by rewrite Hr|].
  rewrite Hr in H1, Hterm |- *. rewrite Hp app_nil_r in H1. apply segment_cons in H1 as [Hi Hseg].
  rewrite Nat.max_id in H4. destruct H6 as [H6 H6']. specialize (H6' Href).
  destruct (Hseg) as (Hab & Hblen & _).
  exists (S a), (S a), b. split; simpl; rewrite ?Hp ?app_nil_r; try done.
  - lia.
  - left. lia.
  - by apply (delivered_snoc _ _ _ a).
  - apply (covered_le _ _ _ (a `max` S a)); [lia|]. by apply covered_snoc.
  - intros ->. simpl in Hab. lia.
  - split; [done|]. intros _. lia.
  - intros Hne. split_and!; try done. rewrite -Hterm. by destruct replay.
  - intros ->. simpl in Hab. rewrite Hnext. unfold position. lia.
  - intros -> [Ht|?]; [|congruence]. exists e. rewrite last_snoc. split; [done|].
    rewrite -Hterm in Ht. done.
Qed.

Lemma inv_start from s n :
  session_ok s → few (s_sent s) → n ≤ length (s_sent s) →
  ∃ q a b, stream_inv from (s_sent s) (start_stream from n s) q a b.
Proof.
  intros Hok Hf Hn. unfold start_stream. rewrite (events_since_drop _ _ Hok Hf).
  set (sent := s_sent s) in *. set (a := evicted sent `max` position from).
  assert (Hcov : covered from sent [] a) by (intros i e _ Hi; right; unfold a in Hi; lia).
  destruct (decide (a < length sent)) as [Ha|Ha].
  - exists a, a, (length sent). pose proof (segment_drop sent a ltac:(lia)) as Hseg.
    assert (Hne : drop a sent ≠ []) by (intros E%(f_equal length); rewrite length_drop /= in E; lia).
    destruct (segment_last _ _ _ _ Hseg Hne) as (e & Hlast & He). split; simpl; rewrite ?app_nil_r; try done.
    + unfold a. lia.
    + left. lia.
    + split; [constructor|]. by intros d ?%elem_of_nil.
    + by rewrite Nat.max_id.
    + split; [done|]. intros _. lia.
    + intros _. split_and!; try done. unfold next_live_sequence. rewrite Hlast.
      rewrite (numbered_exact _ _ _ Hf (ok_numbered _ Hok) He). unfold saturating_succ, few in *. lia.
  - rewrite drop_ge; [lia|]. exists (position from), (length sent), (length sent).
    assert (Hev : sent ≠ [] → evicted sent < length sent).
    { unfold evicted, EVENT_BUFFER_CAPACITY. destruct sent; [done|]. simpl. lia. }
    assert (Hp : length sent ≤ position from).
    { unfold a in Ha. destruct sent; [simpl; lia|]. specialize (Hev ltac:(done)). lia. }
    split; simpl; try done.
    + by right.
    + split; [constructor|]. by intros d ?%elem_of_nil.
    + intros i e _ Hi. lia.
    + split; [done|]. intros _. lia.
    + by intros _ [?|?].
Qed.

Lemma inv_refill from s st q a b :
  session_ok s → few (s_sent s) → stream_inv from (s_sent s) st q a b → looping st → st_refilling st = true →
  ∃ a' b', stream_inv from (s_sent s) (mkStream [] false (st_receiver st) (st_next_sequence st)
      (events_since (st_next_sequence st) s) false false false (st_out st)) q a' b'.
Proof.
  intros Hok Hf [H1 H2 Hb H3 H4 H5 H6 H7 H8 H9 H10] (Hl1 & Hl2 & Hl3 & Hl4) Href.
  rewrite (events_since_drop _ _ Hok Hf) -(H8 Hl1). set (sent := s_sent s) in *.
  destruct H6 as [H6 _].
  assert (Hcov : covered from sent (st_out st) (q `max` evicted sent)).
  { intros i e Hi Hr. destruct (decide (i < evicted sent)) as [?|?]; [by right|]. apply (H4 i e Hi). lia. }
  destruct (decide (q ≤ length sent)) as [Hq|Hq].
  - exists (evicted sent `max` q), (length sent). split; simpl; try done.
    + apply segment_drop. unfold evicted. lia.
    + apply (covered_le _ _ _ (q `max` evicted sent)); [lia|done].
    + intros E%(f_equal length). rewrite length_drop /= in E. unfold evicted, EVENT_BUFFER_CAPACITY in E. lia.
    + split; [done|]. intros _. lia.
    + auto.
    + by intros _ [?|?].
  - rewrite drop_ge; [lia|]. exists (length sent), (length sent). split; simpl; try done.
    + apply (covered_le _ _ _ (q `max` evicted sent)); [lia|done].
    + lia.
    + split; [done|]. intros _. lia.
    + auto.
    + by intros _ [?|?].
Qed.

Lemma inv_end from sent st q a b :
  stream_inv from sent st q a b → st_replay st = [] → st_replay_terminal st = true ∨ st_done st = true →
  stream_inv from sent (end_stream st) q a b.
Proof. intros [] Hr Ht. by split. Qed.

Lemma inv_lagged from sent st q a b n :
  stream_inv from sent st q a b → looping st → st_pending st = [] → n ≤ length sent →
  stream_inv from sent (mkStream [] false n (st_next_sequence st) [] true false false (st_out st)) q a b.
Proof.
  intros [H1 H2 Hb H3 H4 H5 H6 H7 H8 H9 H10] (Hl1 & Hl2 & Hl3 & Hl4) Hp Hn. rewrite Hl1 Hp in H1, H5.
  split; simpl; try done; [auto|by intros _ [?|?]].
Qed.

(** What the interleaving preserves. *)
Definition world_inv (from : Z) (x : ExecWorld * Stage) : Prop :=
  exec_inv x.1 ∧
  (few (s_sent (x_session x.1)) →
   match x.2 with
   | Requested => True
   | Subscribed n => n ≤ length (s_sent (x_session x.1))
   | Streaming st => ∃ q a b, stream_inv from (s_sent (x_session x.1)) st q a b
   end).

Lemma stream_step_inv from s st st' :
  session_ok s → few (s_sent s) → stream_step s st st' →
  (∃ q a b, stream_inv from (s_sent s) st q a b) → ∃ q a b, stream_inv from (s_sent s) st' q a b.
Proof.
  intros Hok Hf Hstep (q & a & b & Hinv). pose proof (ok_numbered _ Hok) as Hn.
  destruct Hstep as [e replay Hr|Hr He Ht|e pending Hl Hre Hp|e n Hl Hre Hp Hrecv|n Hl Hre Hp Hrecv|Hl Hre|n Hl Hre Hp Hrecv].
  - exact (inv_replay _ _ _ q a b e replay Hf Hn Hinv Hr).
  - exists q, a, b. exact (inv_end _ _ _ _ _ _ Hinv Hr Ht).
  - destruct (si_segment _ _ _ _ _ _ Hinv) as (Hseg1 & Hseg2 & Hseg3).
    assert (Hseg : segment (s_sent s) a b (e :: pending)).
    { destruct Hl as (Hl & _). rewrite -Hp. rewrite Hl in Hseg1, Hseg3. done. }
    apply segment_cons in Hseg as [Hi Hseg]. destruct (si_receiver _ _ _ _ _ _ Hinv) as [Hrec Hrec'].
    specialize (Hrec' Hre). exists (q `max` S a), (S a), b.
    apply (inv_take _ _ _ _ a b a); try done; try lia. intros ->. destruct Hseg as (Hab & _). simpl in Hab. lia.
  - apply recv_received in Hrecv as [Hi ->]. destruct (si_receiver _ _ _ _ _ _ Hinv) as [Hrec Hrec'].
    specialize (Hrec' Hre). pose proof (si_segment _ _ _ _ _ _ Hinv) as Hseg.
    pose proof (si_empty _ _ _ _ _ _ Hinv) as Hb. destruct Hl as (Hl & Hl'). rewrite Hl Hp /= in Hseg, Hb.
    specialize (Hb eq_refl). destruct (Hseg) as (Hab & _). simpl in Hab. apply lookup_lt_Some in Hi as Hlt.
    exists (q `max` S (st_receiver st)), a, b. apply (inv_take _ _ _ _ a b (st_receiver st)); try done; try lia.
  - apply recv_lagged in Hrecv. exists q, a, b. apply inv_lagged; try done. lia.
  - destruct (inv_refill from s st q a b) as (a' & b' & H); eauto.
  - by apply recv_open in Hrecv.
Qed.

Lemma exec_step_sent w w' : exec_step w w' → ∃ l, s_sent (x_session w') = s_sent (x_session w) ++ l.
Proof.
  intros Hstep.
  destruct Hstep as [data Hr|data Hr _| | |e Hw|e Hw Hd|e s Hw Hs|e Hw Hs|e Hw|e Hw|E data close wr|sent killed];
    try (exists []; by rewrite app_nil_r); try (by eexists).
  - exists []. unfold finish_with, finish_info in Hs. destruct (negb _); [done|]. injection Hs as <-.
    by rewrite app_nil_r.
  - exists []. unfold write_stdin. rewrite app_nil_r. destruct (negb _); [done|]. case_match; [|done]. by destruct close.
  - exists []. unfold kill. rewrite app_nil_r. by destruct (s_control (x_session w)).
Qed.

Lemma few_app sent l : few (sent ++ l) → few sent.
Proof. unfold few. rewrite length_app. lia. Qed.

Lemma stream_world_inv from x y : stream_world from x y → world_inv from x → world_inv from y.
Proof.
  intros [w w' g Hstep|w|w n|w st st' Hstep] [Hx Hg]; split; try done; cbn [fst snd] in *.
  - by apply (exec_step_inv w).
  - destruct (exec_step_sent _ _ Hstep) as [l Hl]. rewrite Hl. intros Hf. specialize (Hg (few_app _ _ Hf)).
    destruct g as [|n|st]; [done|rewrite length_app; lia|]. destruct Hg as (q & a & b & H).
    exists q, a, b. by apply stream_inv_app.
  - intros _. lia.
  - intros Hf. apply inv_start; auto. apply Hx.
  - intros Hf. apply (stream_step_inv _ _ st); auto. apply Hx.
Qed.

Lemma stream_reachable_inv from info w g :
  bi_status info = ExecRunning → rtc (stream_world from) (exec_init info, Requested) (w, g) → world_inv from (w, g).
Proof.
  intros Hi H. assert (Hinit : world_inv from (exec_init info, Requested)) by (split; [by apply exec_init_inv|done]).
  revert Hinit. induction H as [|x y z Hxy _ IH]; [done|]. intros Hx. apply IH. by apply (stream_world_inv _ x).
Qed.

Lemma reachable_stream from info w st :
  bi_status info = ExecRunning → rtc (stream_world from) (exec_init info, Requested) (w, Streaming st) →
  few (s_sent (x_session w)) →
  session_ok (x_session w) ∧ ∃ q a b, stream_inv from (s_sent (x_session w)) st q a b.
Proof.
  intros Hi Hr Hf. destruct (stream_reachable_inv _ _ _ _ Hi Hr) as [[Hok _ _ _ _] Hg]. split; [done|]. by apply Hg.
Qed.

Lemma evicted_absent s i e :
  session_ok s → few (s_sent s) → s_sent s !! i = Some e → i < evicted (s_sent s) → e ∉ s_events s.
Proof.
  intros Hok Hf Hi Hev. pose proof (λ i e, numbered_exact (s_sent s) i e Hf (ok_numbered _ Hok)) as Hnum.
  rewrite (ok_events _ Hok). intros [k Hk]%list_elem_of_lookup. rewrite lookup_drop in Hk.
  apply Hnum in Hk. rewrite (Hnum _ _ Hi) in Hk. unfold evicted in Hev. lia.
Qed.

(** C32. What a client is sent: events of the session from the number asked for,
    in order, each once; one left out between them is no longer retained; the
    stream ends only after a terminal event. *)
Theorem stream_in_order_without_gaps from info w st :
  bi_status info = ExecRunning → rtc (stream_world from) (exec_init info, Requested) (w, Streaming st) →
  let s := x_session w in
  (Z.of_nat (length (s_sent s)) < 2 ^ 64 - 1)%Z →
  StronglySorted before (st_out st) ∧
  (∀ d, d ∈ st_out st → d ∈ s_sent s ∧ (from ≤ ev_sequence d)%Z) ∧
  (∀ e d, e ∈ s_sent s → d ∈ st_out st → (from ≤ ev_sequence e < ev_sequence d)%Z → e ∈ st_out st ∨ e ∉ s_events s) ∧
  (st_ended st = true → ∃ e, last (st_out st) = Some e ∧ is_terminal (ev_event e) = true).
Proof.
  intros Hi Hr s Hf. destruct (reachable_stream _ _ _ _ Hi Hr Hf) as (Hok & q & a & b & Hinv). fold s in Hok, Hinv.
  pose proof (λ i e, numbered_exact (s_sent s) i e Hf (ok_numbered _ Hok)) as Hnum.
  destruct (si_delivered _ _ _ _ _ _ Hinv) as [Hs Hd]. split_and!; [done|..].
  - intros d Hdel. destruct (Hd d Hdel) as (i & Hlook & Hrange). split; [exact (list_elem_of_lookup_2 _ _ _ Hlook)|].
    rewrite (Hnum _ _ Hlook). unfold position in Hrange. lia.
  - intros e d He Hdel Hle. destruct (Hd d Hdel) as (j & Hj & Hjr). apply list_elem_of_lookup in He as [i Hie].
    rewrite (Hnum _ _ Hj) (Hnum _ _ Hie) in Hle.
    destruct (si_covered _ _ _ _ _ _ Hinv i e Hie) as [?|Hev]; [unfold position; lia|by left|right].
    by apply (evicted_absent s i).
  - intros He. apply (si_stopped _ _ _ _ _ _ Hinv); [|exact (si_ended _ _ _ _ _ _ Hinv He)].
    destruct (st_replay st) as [|e l] eqn:E; [done|].
    destruct (si_replay _ _ _ _ _ _ Hinv) as (_ & _ & _ & _ & _ & Hend & _); [by rewrite E|congruence].
Qed.

(** ** Progress *)

(** When there is something to receive, [recv] answers. *)
Hypothesis recv_ready : ∀ sent n, n < length sent → ∃ r n', recv sent n r n'.

Definition work (s : Session) (st : Stream) : nat :=
  (length (s_sent s) - st_receiver st) * (length (s_sent s) + 2) + length (st_pending st) + length (st_replay st) +
  (if st_refilling st then length (s_sent s) + 1 else 0) + (if st_ended st then 0 else 1).

Lemma filter_length_le {A} (f : A → bool) (l : list A) : length (List.filter f l) ≤ length l.
Proof. induction l as [|x l IH]; simpl; [done|]. destruct (f x); simpl; lia. Qed.

Lemma take_event_work s e pending receiver st :
  st_ended st = false →
  work s (take_event e pending receiver st) =
  (length (s_sent s) - receiver) * (length (s_sent s) + 2) + length pending + 1.
Proof. intros _. unfold work, take_event. destruct (_ <? _)%Z; simpl; lia. Qed.

Lemma stream_step_work s st st' : session_ok s → stream_step s st st' → work s st' < work s st.
Proof.
  intros Hok Hstep.
  destruct Hstep as [e replay Hr|Hr He Ht|e pending Hl Hre Hp|e n Hl Hre Hp Hrecv|n Hl Hre Hp Hrecv|Hl Hre|n Hl Hre Hp Hrecv].
  - unfold work. rewrite Hr /=. lia.
  - unfold work. rewrite /= Hr He /=. lia.
  - destruct Hl as (H1 & _ & _ & H4). rewrite take_event_work; [done|]. unfold work. rewrite H1 H4 Hp Hre /=. lia.
  - destruct Hl as (H1 & _ & _ & H4). rewrite take_event_work; [done|]. unfold work. rewrite H1 H4 Hp Hre /=.
    apply recv_received in Hrecv as [Hi ->]. apply lookup_lt_Some in Hi. nia.
  - destruct Hl as (H1 & _ & _ & H4). unfold work. rewrite H1 H4 Hp Hre /=. apply recv_lagged in Hrecv. nia.
  - destruct Hl as (H1 & _ & _ & H4). unfold work. rewrite H1 H4 Hre /=.
    pose proof (filter_length_le (λ e, st_next_sequence st <=? ev_sequence e)%Z (s_events s)) as Hle.
    fold (events_since (st_next_sequence st) s) in Hle. rewrite (ok_events _ Hok) length_drop in Hle. lia.
  - by apply recv_open in Hrecv.
Qed.

Lemma stuck_looping s st :
  (∀ st', ¬ stream_step s st st') → st_ended st = false →
  looping st ∧ st_refilling st = false ∧ st_pending st = [] ∧ length (s_sent s) ≤ st_receiver st.
Proof.
  intros Hstuck He.
  assert (Hr : st_replay st = []).
  { destruct (st_replay st) as [|e l] eqn:E; [done|]. by destruct (Hstuck _ (replay_event _ _ _ _ E)). }
  assert (Ht : st_replay_terminal st = false ∧ st_done st = false).
  { destruct (st_replay_terminal st) eqn:Et, (st_done st) eqn:Ed; try done;
      destruct (Hstuck (end_stream st)); apply after_replay; auto. }
  assert (Hl : looping st) by (destruct Ht; by split).
  assert (Href : st_refilling st = false).
  { destruct (st_refilling st) eqn:E; [|done]. by destruct (Hstuck _ (refill s st Hl E)). }
  assert (Hp : st_pending st = []).
  { destruct (st_pending st) as [|e p] eqn:E; [done|]. by destruct (Hstuck _ (from_pending s st e p Hl Href E)). }
  split_and!; try done. destruct (decide (length (s_sent s) ≤ st_receiver st)) as [|Hlt]; [done|].
  destruct (recv_ready (s_sent s) (st_receiver st)) as ([e| |] & n & Hrecv); [lia|..]; exfalso.
  - exact (Hstuck _ (from_channel s st e n Hl Href Hp Hrecv)).
  - exact (Hstuck _ (lagged s st n Hl Href Hp Hrecv)).
  - exact (Hstuck _ (closed s st n Hl Href Hp Hrecv)).
Qed.

(** C33. While the session is quiet, a stream takes finitely many steps, and when it
    can take no other it has ended or the client was sent every retained event
    from the number asked for. *)
Theorem stream_catches_up from info w st :
  bi_status info = ExecRunning → rtc (stream_world from) (exec_init info, Requested) (w, Streaming st) →
  let s := x_session w in
  (Z.of_nat (length (s_sent s)) < 2 ^ 64 - 1)%Z →
  Acc (λ st2 st1, stream_step s st1 st2) st ∧
  ((∀ st', ¬ stream_step s st st') → st_ended st = true ∨
   ∀ e, e ∈ s_sent s → (from ≤ ev_sequence e)%Z → e ∈ st_out st ∨ e ∉ s_events s).
Proof.
  intros Hi Hr s Hf. destruct (reachable_stream _ _ _ _ Hi Hr Hf) as (Hok & q & a & b & Hinv). fold s in Hok, Hinv.
  pose proof (λ i e, numbered_exact (s_sent s) i e Hf (ok_numbered _ Hok)) as Hnum. split.
  - clear -Hok recv_received recv_lagged recv_open. induction st as [st IH] using (induction_ltof1 _ (work s)).
    constructor. intros st' Hstep. apply IH. by apply stream_step_work.
  - intros Hstuck. destruct (st_ended st) eqn:He; [by left|right].
    destruct (stuck_looping _ _ Hstuck He) as ((Hl1 & _) & Href & Hp & Hrec).
    intros e [i Hie]%list_elem_of_lookup Hle. rewrite (Hnum _ _ Hie) in Hle.
    pose proof (lookup_lt_Some _ _ _ Hie) as Hlt. destruct (si_receiver _ _ _ _ _ _ Hinv) as [_ Hq].
    specialize (Hq Href). pose proof (si_empty _ _ _ _ _ _ Hinv) as Hb. rewrite Hl1 Hp in Hb. specialize (Hb eq_refl).
    destruct (si_covered _ _ _ _ _ _ Hinv i e Hie) as [?|Hev]; [unfold position; lia|by left|right].
    by apply (evicted_absent s i).
Qed.
End stream.

(** ** Instances *)

(** A channel that keeps the last 4096 events. *)
Definition demo_recv (sent : list Event) (n : nat) (r : RecvResult) (n' : nat) : Prop :=
  if n <? evicted sent then r = Lagged ∧ n' = evicted sent
  else ∃ e, sent !! n = Some e ∧ r = Received e ∧ n' = S n.

Lemma demo_recv_received sent n e n' : demo_recv sent n (Received e) n' → sent !! n = Some e ∧ n' = S n.
Proof. unfold demo_recv. destruct (Nat.ltb_spec n (evicted sent)); [by intros [? _]|]. intros (d & Hd & [= ->] & ->). done. Qed.

Lemma demo_recv_lagged sent n n' : demo_recv sent n Lagged n' → n < n' ≤ length sent.
Proof.
  unfold demo_recv. destruct (Nat.ltb_spec n (evicted sent)); [|by intros (d & _ & ? & _)].
  intros [_ ->]. unfold evicted in *. lia.
Qed.

Lemma demo_recv_open sent n n' : ¬ demo_recv sent n Closed n'.
Proof. unfold demo_recv. destruct (n <? evicted sent); [by intros [? _]|]. by intros (d & _ & ? & _). Qed.

Lemma demo_recv_ready sent n : n < length sent → ∃ r n', demo_recv sent n r n'.
Proof.
  intros Hn. unfold demo_recv. destruct (n <? evicted sent); [eauto|].
  apply lookup_lt_is_Some in Hn as [e He]. exists (Received e), (S n), e. done.
Qed.

Lemma rtc_tasks recv from w w' g : rtc exec_step w w' → rtc (stream_world recv from) (w, g) (w', g).
Proof. induction 1 as [|x y z Hxy _ IH]; [apply rtc_refl|]. eapply rtc_l; [exact (tasks recv from _ _ g Hxy)|exact IH]. Qed.

(** A stream opened after the end of [ExecSession.demo_exec_end]. *)
Lemma demo_stream from :
  rtc (stream_world demo_recv from) (exec_init (demo_exec false), Requested)
    (demo_exec_end, Streaming (start_stream from 2 (x_session demo_exec_end))).
Proof.
  etransitivity; [apply rtc_tasks, demo_exec_end_reachable|].
  eapply rtc_l; [apply subscribe|]. eapply rtc_l; [apply replay|]. apply rtc_refl.
Qed.

Definition demo_streamed : Stream :=
  mkStream [] true 2 3 [] false false true
    [mkEvent 1 "e1" (EvStdout "ok"); mkEvent 2 "e1" (EvExited 0)].

Lemma demo_streamed_reachable :
  rtc (stream_world demo_recv 1) (exec_init (demo_exec false), Requested) (demo_exec_end, Streaming demo_streamed).
Proof.
  etransitivity; [apply demo_stream|].
  eapply rtc_l; [apply stream; eapply replay_event; vm_compute; reflexivity|].
  eapply rtc_l; [apply stream; eapply replay_event; vm_compute; reflexivity|].
  eapply rtc_l; [apply stream, after_replay; [reflexivity..|by left]|]. vm_compute. apply rtc_refl.
Qed.

Lemma stream_in_order_without_gaps_witness :
  (Z.of_nat (length (s_sent (x_session demo_exec_end))) < 2 ^ 64 - 1)%Z ∧
  ∃ e, last (st_out demo_streamed) = Some e ∧ is_terminal (ev_event e) = true.
Proof.
  split; [done|].
  apply (stream_in_order_without_gaps demo_recv demo_recv_received demo_recv_lagged demo_recv_open 1
    (demo_exec false) demo_exec_end demo_streamed eq_refl demo_streamed_reachable); done.
Defined.

Lemma stream_catches_up_witness :
  Acc (λ st2 st1, stream_step demo_recv (x_session demo_exec_end) st1 st2)
    (start_stream 1 2 (x_session demo_exec_end)).
Proof.
  apply (stream_catches_up demo_recv demo_recv_received demo_recv_lagged demo_recv_open demo_recv_ready 1
    (demo_exec false) demo_exec_end (start_stream 1 2 (x_session demo_exec_end)) eq_refl (demo_stream 1)); done.
Defined.

(** A stream asked for events past the terminal one waits for ever: the process
    is gone, nothing is left to send, and it has not ended. *)
Example stream_past_the_end_never_ends :
  let st := start_stream 3 2 (x_session demo_exec_end) in
  rtc (stream_world demo_recv 3) (exec_init (demo_exec false), Requested) (demo_exec_end, Streaming st) ∧
  st_ended st = false ∧ ∀ st', ¬ stream_step demo_recv (x_session demo_exec_end) st st'.
Proof.
  split; [apply demo_stream|]. split; [reflexivity|].
  intros st' Hstep. inversion Hstep as [e l Hr|Hr He [Ht|Ht]|e p Hl Hre Hp|e n Hl Hre Hp Hrecv|n Hl Hre Hp Hrecv|Hl Hre|n Hl Hre Hp Hrecv];
    try done.
  - apply demo_recv_received in Hrecv as [Hi _]. done.
  - apply demo_recv_lagged in Hrecv. simpl in Hrecv. lia.
  - by apply demo_recv_open in Hrecv.
Qed.
