(* ===== verification/OadClient.v ===== *)
(** * The client of the daemon's HTTP interface (crates/oad-cli/src/client.rs)

    One request per operation, the error of an answer that is no success, and the
    frames of the stream of events.  HTTP is reqwest's, the other end's answers
    are a parameter; so are base64 and the deserializers serde derives for the
    types of crates/oad-api. *)
From S2P Require Import Prelude Str Json Core Effect Api Client.

(** ** Events as JSON (crates/oad-api/src/lib.rs)

    The fields of the kind and its tag are put beside those of the event; they are
    read from an object whose names are different, as it is written. *)
Class Base64 := { encode64 : string → string; decode64 : string → option string }.

Section events.
Context `{!Base64}.

Definition kind_fields (k : BackgroundExecEventKind) : list (string * Value) :=
  match k with
  | EvStdout data => [("type", Str "stdout"); ("data", Str (encode64 data))]
  | EvStderr data => [("type", Str "stderr"); ("data", Str (encode64 data))]
  | EvExited exit_code => [("type", Str "exited"); ("exit_code", num exit_code)]
  | EvFailed message => [("type", Str "failed"); ("message", Str message)]
  end.

Definition event_value (e : BackgroundExecEvent) : Value :=
  obj (("sequence", num (ev_sequence e)) :: ("exec_id", Str (ev_exec_id e)) :: kind_fields (ev_event e)).

Definition deserialize_base64 (v : option Value) : option string := (v ≫= as_string) ≫= decode64.

Definition read_i32 (v : option Value) : option Z :=
  n ← v ≫= as_i64; if (-2147483648 <=? n)%Z && (n <=? 2147483647)%Z then Some n else None.

Definition kind_of (v : Value) : option BackgroundExecEventKind :=
  t ← v_get "type" v ≫= as_string;
  if decide (t = "stdout") then EvStdout <$> deserialize_base64 (v_get "data" v)
  else if decide (t = "stderr") then EvStderr <$> deserialize_base64 (v_get "data" v)
  else if decide (t = "exited") then EvExited <$> read_i32 (v_get "exit_code" v)
  else if decide (t = "failed") then EvFailed <$> (v_get "message" v ≫= as_string)
  else None.

Definition exec_event_of (v : Value) : option BackgroundExecEvent :=
  _ ← as_object v;
  sequence ← v_get "sequence" v ≫= as_u64; exec_id ← v_get "exec_id" v ≫= as_string; kind ← kind_of v;
  Some (mkEvent sequence exec_id kind).
End events.

(** [ErrorResponse], of objects or of lists. *)
Definition error_body_of (v : Value) : option ErrorBody :=
  match v with
  | Object _ => code ← v_get "code" v ≫= as_string; message ← v_get "message" v ≫= as_string; Some (mkErrorBody code message)
  | Array [code; message] => code ← as_string code; message ← as_string message; Some (mkErrorBody code message)
  | _ => None
  end.

Definition error_response_of (v : Value) : option ErrorBody :=
  match v with
  | Object _ => v_get "error" v ≫= error_body_of
  | Array [error] => error_body_of error
  | _ => None
  end.

(** ** Requests and answers *)

Inductive Method : Type := GET | POST | DELETE.

Inductive Body : Type :=
| NoBody
| CreateBody (r : CreateSandboxRequest)
| ExecBody (r : ExecRequest)
| StartExecBody (r : StartBackgroundExecRequest)
| StdinBody (r : BackgroundExecStdinRequest)
| ResizeBody (r : BackgroundExecResizeRequest)
| SnapshotBody (r : CreateSnapshotRequest).

Record HttpRequest : Type := mkHttp {
  h_method : Method; h_url : string; h_query : list (string * string); h_bearer : string; h_body : Body;
}.

(** The body comes in chunks; the connection may fail in between. *)
Record HttpResponse : Type := mkResponse { r_status : Z; r_chunks : list (result string string) }.

Definition is_success (status : Z) : bool := (200 <=? status)%Z && (status <? 300)%Z.

(** [bytes()]. *)
Fixpoint all_bytes (chunks : list (result string string)) : result string string :=
  match chunks with
  | [] => Ok ""
  | Ok c :: chunks => result_map (String.append c) (all_bytes chunks)
  | Err e :: _ => Err ("failed to read response body: " ++ e)
  end.

(** [serde_json::from_slice] of the types that are answered. *)
Class Replies := {
  json_reply : string → option Value;
  sandbox_reply : string → option SandboxRecord;
  sandboxes_reply : string → option (list SandboxRecord);
  logs_reply : string → option LogsResponse;
  network_reply : string → option SandboxNetworkResponse;
  exec_reply : string → option ExecResponse;
  background_reply : string → option BackgroundExecInfo;
  backgrounds_reply : string → option (list BackgroundExecInfo);
  accepted_reply : string → option bool;
  snapshot_reply : string → option SnapshotInfo;
  snapshots_reply : string → option (list SnapshotInfo);
}.

(** ** The client *)

Record OadClient : Type := mkClient { base_url : string; client_token : string }.

(** [built]: whether reqwest makes a client. *)
Definition OadClient_new (built : result string ()) (base_url token : string) : result string OadClient :=
  match built with
  | Ok _ => Ok (mkClient (trim_end_char "/" base_url) token)
  | Err e => Err ("failed to build HTTP client: " ++ e)
  end.

Definition url (c : OadClient) (path : string) : string := base_url c ++ path.

Section client.
Context `{!JsonText, !Replies} {S : Type} (exchange : HttpRequest → S → result string HttpResponse * S) (c : OadClient).
Notation CM := (M S string).

Definition client_send (method : Method) (path : string) (query : list (string * string)) (body : Body) : CM HttpResponse := λ s,
  match exchange (mkHttp method (url c path) query (client_token c) body) s with
  | (Ok r, s) => (Ret r, s)
  | (Err e, s) => (Throw ("request to " ++ base_url c ++ " failed; is the daemon running?: " ++ e), s)
  end.

Definition decode_error (status : Z) (bytes : string) : string :=
  match json_from_str bytes ≫= error_response_of with
  | Some parsed => "oad returned " ++ show_dec status ++ " " ++ err_code parsed ++ ": " ++ err_message parsed
  | None => "oad returned " ++ show_dec status ++ ": " ++ trim (lossy bytes)
  end.

Definition read_json {A} (from_slice : string → option A) (r : HttpResponse) : CM A :=
  bytes ← lift_result (all_bytes (r_chunks r));
  if is_success (r_status r) then lift_result (ok_or (from_slice bytes) "failed to decode response from oad daemon")
  else throw (decode_error (r_status r) bytes).

Definition call {A} (from_slice : string → option A) method path query body : CM A :=
  r ← client_send method path query body; read_json from_slice r.

Definition client_health : CM Value := call json_reply GET "/healthz" [] NoBody.
Definition client_create (r : CreateSandboxRequest) : CM SandboxRecord := call sandbox_reply POST "/v1/sandboxes" [] (CreateBody r).
Definition client_list : CM (list SandboxRecord) := call sandboxes_reply GET "/v1/sandboxes" [] NoBody.
Definition client_get (id : string) : CM SandboxRecord := call sandbox_reply GET ("/v1/sandboxes/" ++ id) [] NoBody.
Definition client_delete (id : string) : CM SandboxRecord := call sandbox_reply DELETE ("/v1/sandboxes/" ++ id) [] NoBody.

Definition client_logs (id : string) (container : option string) (tail : option Z) : CM LogsResponse :=
  let query := (match container with Some x => [("container", x)] | None => [] end ++
                match tail with Some n => [("tail", show_dec n)] | None => [] end)%list in
  call logs_reply GET ("/v1/sandboxes/" ++ id ++ "/logs") query NoBody.

Definition client_network (id : string) : CM SandboxNetworkResponse := call network_reply GET ("/v1/sandboxes/" ++ id ++ "/network") [] NoBody.
Definition client_exec (id : string) (r : ExecRequest) : CM ExecResponse := call exec_reply POST ("/v1/sandboxes/" ++ id ++ "/exec") [] (ExecBody r).
Definition start_exec (id : string) (r : StartBackgroundExecRequest) : CM BackgroundExecInfo :=
  call background_reply POST ("/v1/sandboxes/" ++ id ++ "/execs") [] (StartExecBody r).
Definition list_execs (id : string) : CM (list BackgroundExecInfo) := call backgrounds_reply GET ("/v1/sandboxes/" ++ id ++ "/execs") [] NoBody.
Definition get_exec (id exec_id : string) : CM BackgroundExecInfo :=
  call background_reply GET ("/v1/sandboxes/" ++ id ++ "/execs/" ++ exec_id) [] NoBody.
Definition kill_exec (id exec_id : string) : CM BackgroundExecInfo :=
  call background_reply DELETE ("/v1/sandboxes/" ++ id ++ "/execs/" ++ exec_id) [] NoBody.
Definition write_exec_stdin (id exec_id : string) (r : BackgroundExecStdinRequest) : CM bool :=
  call accepted_reply POST ("/v1/sandboxes/" ++ id ++ "/execs/" ++ exec_id ++ "/stdin") [] (StdinBody r).
Definition resize_exec (id exec_id : string) (r : BackgroundExecResizeRequest) : CM bool :=
  call accepted_reply POST ("/v1/sandboxes/" ++ id ++ "/execs/" ++ exec_id ++ "/resize") [] (ResizeBody r).
Definition client_suspend (id : string) : CM SandboxRecord := call sandbox_reply POST ("/v1/sandboxes/" ++ id ++ "/suspend") [] NoBody.
Definition client_resume (id : string) : CM SandboxRecord := call sandbox_reply POST ("/v1/sandboxes/" ++ id ++ "/resume") [] NoBody.
Definition client_snapshot (id : string) (r : CreateSnapshotRequest) : CM SnapshotInfo :=
  call snapshot_reply POST ("/v1/sandboxes/" ++ id ++ "/snapshot") [] (SnapshotBody r).
Definition client_list_snapshots : CM (list SnapshotInfo) := call snapshots_reply GET "/v1/snapshots" [] NoBody.

(** An answer of which only the success counts. *)
Definition succeeded (r : HttpResponse) : CM () :=
  if is_success (r_status r) then mret tt
  else bytes ← lift_result (all_bytes (r_chunks r)); throw (decode_error (r_status r) bytes).

Definition client_delete_snapshot (name : string) : CM () := r ← client_send DELETE ("/v1/snapshots/" ++ name) [] NoBody; succeeded r.

Definition exec_events (id exec_id : string) (from : Z) : CM (list (result string string)) :=
  r ← client_send GET ("/v1/sandboxes/" ++ id ++ "/execs/" ++ exec_id ++ "/events") [("from", show_dec from)] NoBody;
  succeeded r ;; mret (r_chunks r).
End client.

(** ** Frames *)

Definition blank_line : string := nl ++ nl.

(** The first frame that is complete, and the rest of the buffer. *)
Definition take_sse_frame (buffer : string) : option (string * string) := split_once_str blank_line buffer.

Definition data_line (line : string) : option string :=
  if starts_with ":" line || bool_decide (line = "") then None
  else (λ rest, default rest (strip_prefix " " rest)) <$> strip_prefix "data:" line.

Section frames.
Context `{!JsonText, !Base64}.

Definition parse_sse_event (frame : string) : result string (option BackgroundExecEvent) :=
  match omap data_line (lines frame) with
  | [] => Ok None
  | data_lines =>
      let data := str_join nl data_lines in
      match json_from_str data ≫= exec_event_of with
      | Some e => Ok (Some e)
      | None => Err ("failed to parse SSE event payload: " ++ data)
      end
  end.
End frames.

(** ** Reading back *)

Class LawfulBase64 (b : Base64) := decode_encode (x : string) : decode64 (encode64 x) = Some x.

(** Numbers of the widths they are sent in. *)
Definition event_ok (e : BackgroundExecEvent) : Prop :=
  is_u64 (ev_sequence e) ∧ match ev_event e with EvExited n => (-2147483648 ≤ n ≤ 2147483647)%Z | _ => True end.

Lemma event_read_back `{b : !Base64, !LawfulBase64 b} e : event_ok e → exec_event_of (event_value e) = Some e.
Proof.
  destruct e as [n id k]. intros [Hs Hk]. cbn [ev_sequence ev_event] in *.
  transitivity (sequence ← as_u64 (num n); kind ← kind_of (event_value (mkEvent n id k)); Some (mkEvent sequence id kind)); [by destruct k|].
  rewrite (as_u64_num n Hs). cbn [mbind option_bind].
  assert (kind_of (event_value (mkEvent n id k)) = Some k) as ->; [|done].
  destruct k as [d|d|z|m]; [| | |reflexivity].
  - transitivity (EvStdout <$> decode64 (encode64 d)); [reflexivity|]. by rewrite decode_encode.
  - transitivity (EvStderr <$> decode64 (encode64 d)); [reflexivity|]. by rewrite decode_encode.
  - transitivity (EvExited <$> read_i32 (Some (num z))); [reflexivity|]. unfold read_i32. cbn [mbind option_bind].
    rewrite as_i64_num; [lia|]. cbn [mbind option_bind]. destruct Hk as [Hl%Z.leb_le Hu%Z.leb_le]. by rewrite Hl Hu.
Qed.

(** ** Text that arrives in pieces *)

Lemma decoded_all s : valid_utf8 s → decoded s = (s, "").
Proof. intros Hv. rewrite decoded_valid. unfold valid_utf8 in Hv. by destruct (from_utf8 s) as [v [[n|]|]]. Qed.

Definition is_ascii (a : ascii) : bool := (code a <? 128)%Z.

(** Text of ASCII characters can be cut anywhere. *)
Lemma ascii_valid s : str_forallb is_ascii s = true → valid_utf8 s.
Proof.
  unfold valid_utf8. induction s as [|a s IH]; [done|]. cbn [str_forallb]. intros [Ha Hs]%andb_true_iff.
  rewrite from_utf8_step //. unfold next_char. unfold is_ascii in Ha. rewrite Ha.
  change (str_drop 1 (String a s)) with s. specialize (IH Hs). by destruct (from_utf8 s).
Qed.

Lemma ascii_app s t : str_forallb is_ascii (s ++ t) = true → valid_utf8 s ∧ str_forallb is_ascii t = true.
Proof. rewrite str_forallb_app. intros [Hs Ht]%andb_true_iff. split; [by apply ascii_valid|done]. Qed.

(** *** The first of the frames *)

Lemma split_once_str_eq p s a b : split_once_str p s = Some (a, b) → s = a ++ p ++ b.
Proof.
  revert a b. induction s as [|c s IH]; intros a b; cbn [split_once_str].
  - destruct (strip_prefix p "") as [r|] eqn:E; [|done]. intros [= <- <-]. by apply strip_prefix_some in E.
  - destruct (strip_prefix p (String c s)) as [r|] eqn:E; [intros [= <- <-]; by apply strip_prefix_some in E|].
    destruct (split_once_str p s) as [[a' b']|]; [|done]. intros [= <- <-]. by rewrite (IH _ _ eq_refl).
Qed.

Lemma strip_prefix_long p s t r : (String.length p ≤ String.length s)%nat → strip_prefix p (s ++ t) = Some r → is_Some (strip_prefix p s).
Proof.
  revert s. induction p as [|a p IH]; intros [|c s] Hl; simpl in *; [done|done|lia|].
  destruct (ascii_dec a c); [|done]. apply IH. lia.
Qed.

(** What is found is found with more text behind it. *)
Lemma split_once_grows p s t a b : split_once_str p s = Some (a, b) → split_once_str p (s ++ t) = Some (a, b ++ t).
Proof.
  revert a b. induction s as [|c s IH]; intros a b Hs; pose proof (split_once_str_eq _ _ _ _ Hs) as Heq; cbn [split_once_str String.append] in *.
  - destruct p; [|by destruct a]. cbn in *. injection Hs as <- <-. by destruct t.
  - destruct (strip_prefix p (String c s)) as [r|] eqn:E.
    + injection Hs as <- <-. apply strip_prefix_some in E. change (String c (s ++ t)) with (String c s ++ t).
      by rewrite E app_assoc_s strip_prefix_app.
    + destruct (strip_prefix p (String c (s ++ t))) as [r|] eqn:E'.
      { apply (strip_prefix_long p (String c s) t) in E' as [? ?]; [congruence|]. rewrite Heq !length_app_s. lia. }
      destruct (split_once_str p s) as [[a' b']|]; [|done]. injection Hs as <- <-. by rewrite (IH _ _ eq_refl).
Qed.

(** A text is the lines it is made of. *)
Definition sse_line (l : string) : Prop := one_line l ∧ l ≠ "".

Definition frame_text (ls : list string) : string := str_join nl ls.

Lemma split_char_join ls : ls ≠ [] → Forall (λ l, str_forallb (not_char "010") l = true) ls → split_char "010" (str_join nl ls) = ls.
Proof.
  intros Hne Hls. induction Hls as [|l ls Hl Hls IH]; [done|]. destruct ls as [|m ls]; [by apply split_char_none|].
  change (str_join nl (l :: m :: ls)) with (l ++ String "010" (str_join nl (m :: ls))). rewrite split_char_app //. by rewrite IH.
Qed.

Lemma lines_frame ls : ls ≠ [] → Forall sse_line ls → lines (frame_text ls) = ls.
Proof.
  intros Hne Hls. unfold lines, frame_text. rewrite split_char_join //; [by eapply Forall_impl; [exact Hls|]; intros l [[] _]|].
  clear Hne. induction Hls as [|l ls [[_ Hcr] Hl] Hls IH]; [done|]. cbn [lines_go]. unfold drop_cr at 1. rewrite Hcr.
  destruct ls as [|m ls]; [by destruct l|]. by rewrite IH.
Qed.

Definition behind (l : string) (o : option (string * string)) : option (string * string) := '(a, b) ← o; Some (l ++ a, b).

Lemma behind_app l m o : behind l (behind m o) = behind (l ++ m) o.
Proof. destruct o as [[a b]|]; [|done]. cbn. by rewrite app_assoc_s. Qed.

Lemma no_blank_line c s : c ≠ "010"%char → split_once_str blank_line (String c s) = behind (String c "") (split_once_str blank_line s).
Proof.
  intros Hc. cbn [split_once_str]. unfold blank_line at 1. change (nl ++ nl) with (String "010" (String "010" "")). cbn [strip_prefix].
  by destruct (ascii_dec "010" c) as [Heq|]; [destruct Hc|].
Qed.

Lemma no_blank_in_line l s : str_forallb (not_char "010") l = true → split_once_str blank_line (l ++ s) = behind l (split_once_str blank_line s).
Proof.
  induction l as [|c l IH]; cbn [str_forallb String.append]; [by destruct (split_once_str blank_line s) as [[]|]|].
  intros [Hc%not_char_neq Hl]%andb_true_iff. by rewrite (no_blank_line c) // (IH Hl) behind_app.
Qed.

Lemma no_blank_at_end c s : c ≠ "010"%char → split_once_str blank_line (nl ++ String c s) = behind nl (split_once_str blank_line (String c s)).
Proof.
  intros Hc. change (nl ++ String c s) with (String "010" (String c s)). cbn [split_once_str]. unfold blank_line at 1.
  change (nl ++ nl) with (String "010" (String "010" "")). cbn [strip_prefix]. destruct (ascii_dec "010" "010"); [|done].
  by destruct (ascii_dec "010" c) as [Heq|]; [destruct Hc|].
Qed.

Lemma take_first_frame ls rest : ls ≠ [] → Forall sse_line ls → take_sse_frame (frame_text ls ++ blank_line ++ rest) = Some (frame_text ls, rest).
Proof.
  unfold take_sse_frame. intros Hne Hls. induction Hls as [|l ls [[Hl _] _] Hls IH]; [done|]. destruct ls as [|m ls].
  - unfold frame_text. cbn [str_join]. rewrite no_blank_in_line //. by rewrite -{2}(app_nil_r_s l).
  - change (frame_text (l :: m :: ls)) with (l ++ nl ++ frame_text (m :: ls)). rewrite !app_assoc_s no_blank_in_line //.
    assert (∃ c t, frame_text (m :: ls) ++ blank_line ++ rest = String c t ∧ c ≠ "010"%char) as (c & t & E & Hc).
    { inversion Hls as [|? ? [[Hm _] Hm0] _]; subst. destruct m as [|c m]; [done|]. cbn [str_forallb] in Hm.
      apply andb_true_iff in Hm as [Hc%not_char_neq _]. exists c. destruct ls; cbn; by eexists. }
    rewrite E no_blank_at_end // -E IH //.
Qed.

(** ** What the server sends of an event

    axum writes an event as lines, a blank line behind them; the keep-alive of a
    quiet stream is a comment. *)
Class EventLines := { event_lines : string → string → string → list string; keep_alive_lines : list string }.

Definition plain_line (s : string) : Prop := str_forallb (λ a, not_char "010" a && not_char "013" a) s = true.

(** A line that is no data. *)
Definition other_line (l : string) : Prop := sse_line l ∧ data_line l = None.

Class LawfulEvents (w : EventLines) := {
  event_data name id data : plain_line name → plain_line id → plain_line data →
    ∃ before after, event_lines name id data = (before ++ ("data: " ++ data)%string :: after)%list ∧ Forall other_line (before ++ after)%list;
  keep_alive_ok : keep_alive_lines ≠ [] ∧ Forall other_line keep_alive_lines;
}.

Lemma plain_line_no_nl s : plain_line s → str_forallb (not_char "010") s = true.
Proof. apply str_forallb_impl. by intros a [? _]%andb_true_iff. Qed.

Lemma plain_one_line s : plain_line s → one_line s.
Proof.
  intros Hs. split; [by apply plain_line_no_nl|]. destruct (strip_suffix (String "013" "") s) as [r|] eqn:E; [|done].
  assert (∃ q, s = q ++ String "013" "") as [q ->] by (apply ends_with_iff; unfold ends_with; by rewrite E).
  unfold plain_line in Hs. rewrite str_forallb_app in Hs. apply andb_true_iff in Hs as [_ Hs]. by vm_compute in Hs.
Qed.

Lemma data_lines_of before after data : Forall other_line (before ++ after)%list →
  omap data_line (before ++ ("data: " ++ data)%string :: after)%list = [data].
Proof.
  intros [Hb Ha]%Forall_app. assert (Ho : ∀ l, Forall other_line l → omap data_line l = []).
  { induction 1 as [|x l [_ Hx] _ IH]; [done|]. cbn. by rewrite Hx. }
  rewrite omap_app Ho //. cbn [omap list_omap app]. by rewrite Ho.
Qed.

Section wire.
Context `{j : !JsonText, t : !JsonShow, b : !Base64, !LawfulBase64 b, w : !EventLines, !LawfulEvents w}.

(** An event whose text is a line that is read back. *)
Definition event_travels (e : BackgroundExecEvent) : Prop :=
  let text := json_to_string (event_value e) in event_ok e ∧ plain_line text ∧ json_from_str text = Some (event_value e).

Lemma event_frame name id e : plain_line name → plain_line id → event_travels e →
  let ls := event_lines name id (json_to_string (event_value e)) in
  ls ≠ [] ∧ Forall sse_line ls ∧ parse_sse_event (frame_text ls) = Ok (Some e).
Proof.
  intros Hn Hi (Hok & Hp & Hj) ls. destruct (event_data name id _ Hn Hi Hp) as (before & after & Hls & Ho).
  assert (Hne : ls ≠ []) by (unfold ls; rewrite Hls; by destruct before).
  assert (Hs : Forall sse_line ls).
  { unfold ls. rewrite Hls. rewrite Forall_app in Ho. destruct Ho as [Hb Ha]. apply Forall_app. split; [|constructor].
    - by eapply Forall_impl; [exact Hb|]; intros l [].
    - split; [|done]. apply plain_one_line. unfold plain_line in *. by rewrite str_forallb_app Hp.
    - by eapply Forall_impl; [exact Ha|]; intros l []. }
  split; [done|]. split; [done|]. unfold parse_sse_event. rewrite lines_frame //. unfold ls. rewrite Hls data_lines_of //.
  cbn [str_join]. rewrite Hj. cbn [mbind option_bind]. by rewrite event_read_back.
Qed.

Lemma keep_alive_frame : Forall sse_line keep_alive_lines ∧ parse_sse_event (frame_text keep_alive_lines) = Ok None.
Proof.
  destruct keep_alive_ok as [Hne Ho].
  assert (Hs : Forall sse_line keep_alive_lines) by (by eapply Forall_impl; [exact Ho|]; intros l []).
  split; [done|]. unfold parse_sse_event. rewrite lines_frame //.
  assert (omap data_line keep_alive_lines = []) as ->; [|done].
  clear Hs Hne. induction Ho as [|x l [_ Hx] _ IH]; [done|]. cbn. by rewrite Hx.
Qed.
End wire.
