(* ===== verification/Oadctl.v ===== *)
(** * The command line of the daemon's client (crates/oad-cli/src/main.rs)

    What a command asks the daemon, what becomes of the streams of a process and
    of its exit code.  The parsing of arguments is clap's, the text of a time that
    of the crate time. *)
From S2P Require Import Prelude Str Json Core Effect OciBase Api Client ExecSession ExecStream OadClient.

(** ** Arguments *)

Record CreateArgs : Type := mkCreateArgs {
  ca_id : option string; ca_from_snapshot : option string; ca_file : option string; ca_image : option string;
  ca_name : string; ca_env : list string; ca_argv : list string;
}.
Record LogsArgs : Type := mkLogsArgs { la_id : string; la_container : option string; la_tail : option Z }.
Record ExecArgs : Type := mkExecArgs {
  xa_id : string; xa_container : option string; xa_env : list string; xa_cwd : option string; xa_argv : list string;
}.
Record ExecStartArgs : Type := mkExecStartArgs { xs_exec : ExecArgs; xs_attach : bool }.
Record ExecAttachArgs : Type := mkExecAttachArgs { at_id : string; at_exec_id : string; at_from : Z }.
Record ExecStdinArgs : Type := mkExecStdinArgs {
  xi_id : string; xi_exec_id : string; xi_text : option string; xi_file : option string; xi_close : bool;
}.

Inductive SnapshotCommand : Type :=
| SnapshotCreate (id : string) (name : option string)
| SnapshotList
| SnapshotDelete (name : string).

Inductive ExecsCommand : Type :=
| ExecsStart (args : ExecStartArgs)
| ExecsList (id : string)
| ExecsGet (id exec_id : string)
| ExecsAttach (args : ExecAttachArgs)
| ExecsStdin (args : ExecStdinArgs)
| ExecsKill (id exec_id : string).

Inductive Command : Type :=
| Health
| Create (args : CreateArgs)
| List
| Get (id : string)
| Delete (id : string)
| Logs (args : LogsArgs)
| Exec (args : ExecArgs)
| Execs (cmd : ExecsCommand)
| Suspend (id : string)
| Resume (id : string)
| Snapshot (cmd : SnapshotCommand).

Record Cli : Type := mkCli { cli_url : string; cli_token : option string; command : Command }.

Definition require_token (token : option string) : result string string :=
  match token with
  | Some t => if decide (t = "") then Err "missing bearer token; pass --token or set OAD_BEARER_TOKEN" else Ok t
  | None => Err "missing bearer token; pass --token or set OAD_BEARER_TOKEN"
  end.

Definition parse_env (entry : string) : result string EnvVar :=
  match split_once "=" entry with
  | None => Err ("invalid --env " ++ quoted entry ++ "; expected KEY=VALUE")
  | Some (name, value) =>
      if decide (name = "") then Err ("invalid --env " ++ quoted entry ++ "; key must not be empty") else Ok (mkEnvVar name value)
  end.

(** [iter().map(f).collect::<Result<Vec<_>>>()]. *)
Definition collect_results {A B} (f : A → result string B) (l : list A) : result string (list B) := flat_map_result (λ x, result_map (λ y, [y]) (f x)) l.

(** ** The process *)

(** What is left on its standard input, what it wrote, what it asked for, the
    newest first. *)
Record Ctl : Type := mkCtl { c_stdin : string; c_stdout : string; c_stderr : string; c_asked : list HttpRequest }.

Inductive OutStream : Type := Stdout | Stderr.

(** The daemon's answer to the last of the requests, the files, whether a stream
    can still be written to, and the formats of others. *)
Class CtlWorld := {
  answer : list HttpRequest → result string HttpResponse;
  file_bytes : string → result string string;
  sink_fails : OutStream → Ctl → option string;
  create_request_of : string → option CreateSandboxRequest;
  show_time : Z → string;
  client_built : result string ();
}.

Section run.
Context `{world : !CtlWorld, !JsonText, !Base64, !Replies}.
Notation CM := (M Ctl string).

Definition exchange (r : HttpRequest) (s : Ctl) : result string HttpResponse * Ctl :=
  let asked := r :: c_asked s in (answer asked, mkCtl (c_stdin s) (c_stdout s) (c_stderr s) asked).

Definition wrote (sink : OutStream) (data : string) (s : Ctl) : Ctl :=
  match sink with
  | Stdout => mkCtl (c_stdin s) (c_stdout s ++ data) (c_stderr s) (c_asked s)
  | Stderr => mkCtl (c_stdin s) (c_stdout s) (c_stderr s ++ data) (c_asked s)
  end.

Definition write_stream (sink : OutStream) (data : string) : CM () := λ s,
  match sink_fails sink s with Some e => (Throw e, s) | None => (Ret tt, wrote sink data s) end.

(** [println!] panics where it cannot write. *)
Definition println (line : string) : CM () := λ s,
  match sink_fails Stdout s with Some _ => (Crash, s) | None => (Ret tt, wrote Stdout (line ++ nl) s) end.

Definition read_stdin : CM string := λ s, (Ret (c_stdin s), mkCtl "" (c_stdout s) (c_stderr s) (c_asked s)).

Definition with_context {A} (context : string) (r : result string A) : result string A := map_err (λ e, context ++ ": " ++ e) r.

(** ** Streams *)

(** The frames the buffer holds: what is left of it, or the exit code. *)
Fixpoint drain_frames (fuel : nat) (buffer : string) : CM (string + Z) :=
  match fuel with
  | O => mret (inl buffer)
  | S fuel =>
      match take_sse_frame buffer with
      | None => mret (inl buffer)
      | Some (frame, rest) =>
          event ← lift_result (parse_sse_event frame);
          match ev_event <$> event with
          | None => drain_frames fuel rest
          | Some (EvStdout data) => write_stream Stdout data ;; drain_frames fuel rest
          | Some (EvStderr data) => write_stream Stderr data ;; drain_frames fuel rest
          | Some (EvExited exit_code) => mret (inr exit_code)
          | Some (EvFailed message) => throw ("background exec failed: " ++ message)
          end
      end
  end.

Fixpoint attach_chunks (buffer : string) (chunks : list (result string string)) : CM Z :=
  match chunks with
  | [] => mret 0%Z
  | Err e :: _ => throw ("failed to read exec event stream: " ++ e)
  | Ok chunk :: chunks =>
      let buffer := buffer ++ lossy chunk in
      r ← drain_frames (String.length buffer) buffer;
      match r with inl buffer => attach_chunks buffer chunks | inr exit_code => mret exit_code end
  end.

Definition attach_exec (c : OadClient) (id exec_id : string) (from : Z) : CM Z :=
  chunks ← exec_events exchange c id exec_id from; attach_chunks "" chunks.

Definition read_stdin_payload (text file : option string) : CM string :=
  match text, file with
  | Some text, _ => mret text
  | None, None => read_stdin
  | None, Some path => if decide (path = "-") then read_stdin else lift_result (with_context ("failed to read " ++ path) (file_bytes path))
  end.

(** ** Requests *)

Definition utf8_or (context bytes : string) : result string string :=
  match (from_utf8 bytes).2 with None => Ok bytes | Some _ => Err (context ++ ": stream did not contain valid UTF-8") end.

Definition read_file_or_stdin (source : string) : CM string :=
  if decide (source = "-") then body ← read_stdin; lift_result (utf8_or "failed to read request JSON from stdin" body)
  else let context := "failed to read " ++ source in
    body ← lift_result (with_context context (file_bytes source)); lift_result (utf8_or context body).

Definition build_create_request (args : CreateArgs) : CM CreateSandboxRequest :=
  match ca_file args, ca_from_snapshot args, ca_image args with
  | Some file, _, _ =>
      body ← read_file_or_stdin file;
      request ← lift_result (ok_or (create_request_of body) "failed to parse CreateSandboxRequest JSON");
      mret match ca_id args with
        | Some id => mkCreateRequest (Some id) (cr_containers request) (cr_from_snapshot request) (cr_network request)
        | None => request
        end
  | None, Some snapshot, _ => mret (mkCreateRequest (ca_id args) [] (Some snapshot) None)
  | None, None, None =>
      throw "provide --image (with optional `-- CMD ARGS`), --from-snapshot, or --file to create a sandbox"
  | None, None, Some image =>
      env ← lift_result (collect_results parse_env (ca_env args));
      mret (mkCreateRequest (ca_id args) [mkContainerSpec (ca_name args) image (ca_argv args) [] env] None None)
  end.

(** ** What is printed *)

Definition debug_status (s : SandboxStatus) : string :=
  match s with
  | Pending => "Pending" | Running => "Running" | Suspended => "Suspended" | Stopping => "Stopping" | Stopped => "Stopped"
  | Error => "Error" | Unknown => "Unknown"
  end.

Definition show_exec_status (s : BackgroundExecStatus) : string :=
  match s with ExecRunning => "Running" | ExecExited => "Exited" | ExecFailed => "Failed" end.

(** Padded to a number of characters. *)
Definition pad_to (width : nat) (s : string) : string := s ++ str_concat (replicate (width - length (chars s)) " ").

Definition show_i32 (n : Z) : string := if (n <? 0)%Z then "-" ++ show_dec (- n) else show_dec n.

Definition optional {A} (o : option A) (f : A → string) : list string := match o with Some x => [f x] | None => [] end.

Definition print_record (r : SandboxRecord) : list string :=
  app ["id:         " ++ as_str (rec_id r); "status:     " ++ debug_status (rec_status r);
    "containers: " ++ str_join ", " (rec_containers r); "created:    " ++ show_time (rec_created_at r);
    "updated:    " ++ show_time (rec_updated_at r)] (optional (rec_last_error r) (λ err, "last_error: " ++ err)).

Definition id_width {A} (id : A → string) (l : list A) : nat := foldl Nat.max 2 (map (λ x, String.length (id x)) l).

Definition print_record_table (l : list SandboxRecord) : list string :=
  let w := id_width (λ r, as_str (rec_id r)) l in
  match l with
  | [] => ["no sandboxes"]
  | _ => (pad_to w "ID" ++ "  " ++ pad_to 8 "STATUS" ++ "  CONTAINERS") ::
      map (λ r, pad_to w (as_str (rec_id r)) ++ "  " ++ pad_to 8 (debug_status (rec_status r)) ++ "  " ++ str_join ", " (rec_containers r)) l
  end.

Definition print_exec_info (x : BackgroundExecInfo) : list string :=
  app ["id:         " ++ bi_id x; "sandbox:    " ++ bi_sandbox_id x; "container:  " ++ bi_container x;
    "status:     " ++ show_exec_status (bi_status x); "command:    " ++ str_join " " (bi_command x)]
    (app (optional (bi_exit_code x) (λ code, "exit_code:  " ++ show_i32 code)) (optional (bi_last_error x) (λ err, "last_error: " ++ err))).

Definition print_exec_table (l : list BackgroundExecInfo) : list string :=
  let w := id_width bi_id l in
  match l with
  | [] => ["no background exec sessions"]
  | _ => (pad_to w "ID" ++ "  " ++ pad_to 8 "STATUS" ++ "  CONTAINER  COMMAND") ::
      map (λ x, pad_to w (bi_id x) ++ "  " ++ pad_to 8 (show_exec_status (bi_status x)) ++ "  " ++ pad_to 9 (bi_container x) ++ "  " ++
                str_join " " (bi_command x)) l
  end.

Definition print_lines (l : list string) : CM () := forM l println.

(** ** Commands

    Each ends with the exit code it leaves the process with. *)

Definition run_snapshot (c : OadClient) (cmd : SnapshotCommand) : CM Z :=
  match cmd with
  | SnapshotCreate id name =>
      s ← client_snapshot exchange c id (mkCreateSnapshotRequest name);
      println ("created snapshot " ++ si_name s ++ " from sandbox " ++ id ++ " (containers: " ++ str_join ", " (si_containers s) ++ ")")
  | SnapshotList =>
      l ← client_list_snapshots exchange c;
      print_lines match l with
        | [] => ["no snapshots"]
        | _ => map (λ s, si_name s ++ "  [" ++ str_join ", " (si_containers s) ++ "]  " ++ si_created_at s) l
        end
  | SnapshotDelete name => client_delete_snapshot exchange c name ;; println ("deleted snapshot " ++ name)
  end ;; mret 0%Z.

Definition run_execs (c : OadClient) (cmd : ExecsCommand) : CM Z :=
  match cmd with
  | ExecsStart args =>
      let x := xs_exec args in
      if decide (xa_argv x = []) then throw "provide a command to run, e.g. `oadctl execs start <id> -- codex exec '...'`"
      else
        env ← lift_result (collect_results parse_env (xa_env x));
        info ← start_exec exchange c (xa_id x) (mkStartExecRequest (xa_container x) (xa_argv x) env (xa_cwd x) false None None);
        print_lines (print_exec_info info) ;;
        if xs_attach args then attach_exec c (xa_id x) (bi_id info) 1 else mret 0%Z
  | ExecsList id => l ← list_execs exchange c id; print_lines (print_exec_table l) ;; mret 0%Z
  | ExecsGet id exec_id => x ← get_exec exchange c id exec_id; print_lines (print_exec_info x) ;; mret 0%Z
  | ExecsAttach args => attach_exec c (at_id args) (at_exec_id args) (at_from args)
  | ExecsStdin args =>
      data ← (if decide (xi_text args = None ∧ xi_file args = None ∧ xi_close args = true) then mret ""
              else read_stdin_payload (xi_text args) (xi_file args));
      if decide (data = "" ∧ xi_close args = false) then throw "provide --text, --file, or --close"
      else
        accepted ← write_exec_stdin exchange c (xi_id args) (xi_exec_id args) (mkStdinRequest data (xi_close args));
        println ("accepted: " ++ if (accepted : bool) then "true" else "false") ;; mret 0%Z
  | ExecsKill id exec_id => x ← kill_exec exchange c id exec_id; print_lines (print_exec_info x) ;; mret 0%Z
  end.

Definition run_exec (c : OadClient) (args : ExecArgs) : CM Z :=
  if decide (xa_argv args = []) then throw "provide a command to run, e.g. `oadctl exec <id> -- /bin/sh -c '...'`"
  else
    env ← lift_result (collect_results parse_env (xa_env args));
    resp ← client_exec exchange c (xa_id args) (mkExecRequest (xa_container args) (xa_argv args) env (xa_cwd args));
    write_stream Stdout (er_stdout resp) ;; write_stream Stderr (er_stderr resp) ;; mret (er_exit_code resp).

Definition run_cli (cli : Cli) : CM Z :=
  token ← lift_result (match command cli with Health => Ok (default "" (cli_token cli)) | _ => require_token (cli_token cli) end);
  c ← lift_result (OadClient_new client_built (cli_url cli) token);
  match command cli with
  | Health =>
      value ← client_health exchange c;
      println ("daemon at " ++ cli_url cli ++ " is healthy (status: " ++ default "?" (v_get "status" value ≫= as_string) ++ ")") ;; mret 0%Z
  | Create args => request ← build_create_request args; r ← client_create exchange c request; print_lines (print_record r) ;; mret 0%Z
  | List => l ← client_list exchange c; print_lines (print_record_table l) ;; mret 0%Z
  | Get id => r ← client_get exchange c id; print_lines (print_record r) ;; mret 0%Z
  | Delete id =>
      r ← client_delete exchange c id;
      println ("deleted sandbox " ++ as_str (rec_id r) ++ " (status: " ++ debug_status (rec_status r) ++ ")") ;; mret 0%Z
  | Logs args => r ← client_logs exchange c (la_id args) (la_container args) (la_tail args); print_lines (logs_lines r) ;; mret 0%Z
  | Exec args => run_exec c args
  | Execs cmd => run_execs c cmd
  | Suspend id => r ← client_suspend exchange c id; print_lines (print_record r) ;; mret 0%Z
  | Resume id => r ← client_resume exchange c id; print_lines (print_record r) ;; mret 0%Z
  | Snapshot cmd => run_snapshot c cmd
  end.

(** The exit status; an error goes to the standard error. *)
Definition main (cli : Cli) (s : Ctl) : Z * Ctl :=
  match run_cli cli s with
  | (Ret code, s) => (code, s)
  | (Throw e, s) => (1%Z, wrote Stderr ("error: " ++ e ++ nl) s)
  | (Crash, s) => (101%Z, s)
  end.
End run.

(** ** An attached process is mirrored *)

(** The stream of the handler: events, and comments while nothing happens. *)
Inductive Sent : Type := SentEvent (e : BackgroundExecEvent) | SentKeepAlive.

Section wire.
Context `{!JsonShow, !Base64, !EventLines}.

Definition sent_lines (x : Sent) : list string :=
  match x with
  | SentEvent e => event_lines (background_exec_event_name (ev_event e)) (show_dec (ev_sequence e)) (json_to_string (event_value e))
  | SentKeepAlive => keep_alive_lines
  end.

Definition wire_text (l : list Sent) : string := str_concat (map (λ x, frame_text (sent_lines x) ++ blank_line) l).
End wire.

Definition sent_event (x : Sent) : option BackgroundExecEvent := match x with SentEvent e => Some e | SentKeepAlive => None end.

(** What the events do to a terminal, and the exit code; [ending] where none of
    them is the last. *)
Fixpoint played (l : list BackgroundExecEvent) (ending : outcome string Z) (s : Ctl) : outcome string Z * Ctl :=
  match l with
  | [] => (ending, s)
  | e :: l =>
      match ev_event e with
      | EvStdout data => played l ending (wrote Stdout data s)
      | EvStderr data => played l ending (wrote Stderr data s)
      | EvExited exit_code => (Ret exit_code, s)
      | EvFailed message => (Throw ("background exec failed: " ++ message), s)
      end
  end.

Section attached.
Context `{world : !CtlWorld, j : !JsonText, t : !JsonShow, b : !Base64, !LawfulBase64 b, w : !EventLines, !LawfulEvents w}.
Hypothesis written : ∀ sink s, sink_fails sink s = None.

Definition sent_fits (x : Sent) : Prop := match x with SentEvent e => event_travels e | SentKeepAlive => True end.

Lemma name_plain k : plain_line (background_exec_event_name k).
Proof. by destruct k. Qed.

Lemma number_plain n : plain_line (show_dec n).
Proof.
  unfold plain_line. eapply str_forallb_impl; [|apply show_dec_digits]. intros a Ha.
  destruct (ascii_dec a "010") as [->|]; [by vm_compute in Ha|]. destruct (ascii_dec a "013") as [->|]; [by vm_compute in Ha|].
  apply andb_true_iff. by rewrite !not_char_neq.
Qed.

Lemma sent_frame x : sent_fits x →
  sent_lines x ≠ [] ∧ Forall sse_line (sent_lines x) ∧ parse_sse_event (frame_text (sent_lines x)) = Ok (sent_event x).
Proof.
  destruct x as [e|]; cbn [sent_fits sent_lines sent_event].
  - apply event_frame; [apply name_plain|apply number_plain].
  - intros _. split; [apply keep_alive_ok|apply keep_alive_frame].
Qed.

Lemma first_sent x l cut : sent_fits x → take_sse_frame (wire_text (x :: l) ++ cut) = Some (frame_text (sent_lines x), wire_text l ++ cut).
Proof.
  intros (Hne & Hls & _)%sent_frame. unfold wire_text. cbn [map str_concat]. rewrite !app_assoc_s. by apply take_first_frame.
Qed.

(** The buffer holds the beginning of what is still to come. *)
Lemma drain_plays (k : string + Z → M Ctl string Z) rest cut ending fuel buffer l s :
  take_sse_frame cut = None → Forall sent_fits l → (String.length buffer ≤ fuel)%nat → buffer ++ rest = wire_text l ++ cut →
  (∀ buffer l s, Forall sent_fits l → take_sse_frame buffer = None → buffer ++ rest = wire_text l ++ cut →
     k (inl buffer) s = played (omap sent_event l) ending s) →
  (∀ code s, k (inr code) s = (Ret code, s)) →
  (drain_frames fuel buffer ≫= k) s = played (omap sent_event l) ending s.
Proof.
  intros Hcut. revert buffer l s. induction fuel as [|fuel IH]; intros buffer l s Hl Hf Heq Hk Hx; cbn [drain_frames].
  - destruct buffer; [|simpl in Hf; lia]. by apply Hk.
  - destruct (take_sse_frame buffer) as [[frame r]|] eqn:E; [|by apply Hk].
    pose proof (split_once_str_eq _ _ _ _ E) as Hb. pose proof (split_once_grows _ _ rest _ _ E) as Hg.
    change (take_sse_frame (buffer ++ rest) = Some (frame, r ++ rest)) in Hg. rewrite Heq in Hg.
    destruct Hl as [|x l Hxo Hl]; [by rewrite Hcut in Hg|]. rewrite (first_sent x l cut Hxo) in Hg. injection Hg as <- Hr.
    destruct (sent_frame x Hxo) as (_ & _ & ->).
    assert (Hgo : ∀ s, (drain_frames fuel r ≫= k) s = played (omap sent_event l) ending s).
    { intros s'. apply IH; try done. rewrite Hb !length_app_s in Hf. simpl in Hf. lia. }
    destruct x as [e|]; cbn [sent_event omap list_omap]; [|by apply Hgo]. cbn [played].
    unfold lift_result, mbind, M_bind in *. cbn [option_fmap option_map fmap]. 
    destruct (ev_event e) as [d|d|z|m]; [| |by apply Hx|done].
    + unfold write_stream. rewrite written. by apply Hgo.
    + unfold write_stream. rewrite written. by apply Hgo.
Qed.

(** How the connection ended: it was closed, or it broke. *)
Definition ending_of (broken : option string) : outcome string Z :=
  match broken with Some e => Throw ("failed to read exec event stream: " ++ e) | None => Ret 0%Z end.

Definition chunks_of (pieces : list string) (broken : option string) : list (result string string) :=
  (map Ok pieces ++ match broken with Some e => [Err e] | None => [] end)%list.

Lemma attach_plays pieces broken cut : take_sse_frame cut = None → ∀ buffer l s,
  Forall valid_utf8 pieces → Forall sent_fits l → take_sse_frame buffer = None → buffer ++ str_concat pieces = wire_text l ++ cut →
  attach_chunks buffer (chunks_of pieces broken) s = played (omap sent_event l) (ending_of broken) s.
Proof.
  intros Hcut. unfold chunks_of. induction pieces as [|p pieces IH]; intros buffer l s Hp Hl Hb Heq; cbn [map app].
  - cbn [str_concat] in Heq. rewrite app_nil_r_s in Heq. subst buffer. destruct Hl as [|x l Hx Hl]; [by destruct broken|].
    by rewrite (first_sent x l cut Hx) in Hb.
  - inversion Hp as [|? ? Hp0 Hps]; subst. cbn [attach_chunks]. rewrite (lossy_valid p Hp0).
    apply (drain_plays _ (str_concat pieces) cut); [done|done|done|by rewrite app_assoc_s| |done].
    intros buffer' l' s' Hl' Hb' Heq'. by apply IH.
Qed.

(** C18. Whatever pieces the stream of the daemon arrives in, as long as no piece
    breaks off inside a character, an attached client writes the output of the
    events in their order to the streams they are of, and nothing else; it ends
    with the exit code of the event that carries one, fails with the message of a
    failed process, and what came after either is not looked at; comments and a
    frame that was cut off change nothing. *)
Theorem attach_mirrors (c : OadClient) (id exec_id : string) (from : Z) (s : Ctl)
    (status : Z) (pieces : list string) (broken : option string) (l : list Sent) (cut : string) :
  let request := mkHttp GET (url c ("/v1/sandboxes/" ++ id ++ "/execs/" ++ exec_id ++ "/events")) [("from", show_dec from)]
    (client_token c) NoBody in
  answer (request :: c_asked s) = Ok (mkResponse status (chunks_of pieces broken)) → is_success status = true →
  Forall valid_utf8 pieces → Forall sent_fits l → str_concat pieces = wire_text l ++ cut → take_sse_frame cut = None →
  attach_exec c id exec_id from s =
    played (omap sent_event l) (ending_of broken) (mkCtl (c_stdin s) (c_stdout s) (c_stderr s) (request :: c_asked s)).
Proof.
  intros request Ha Hst Hp Hl Heq Hcut. unfold attach_exec, exec_events, client_send, exchange.
  fold request. unfold mbind, M_bind. rewrite Ha. cbn [r_status r_chunks]. unfold succeeded. cbn [r_status]. rewrite Hst.
  by apply (attach_plays pieces broken cut).
Qed.

(** Output alone, whatever the kinds of the events. *)
Lemma played_streams es ending s : Forall (λ e, is_terminal (ev_event e) = false) es →
  ∃ out err, played es ending s = (ending, mkCtl (c_stdin s) (c_stdout s ++ out) (c_stderr s ++ err) (c_asked s)) ∧
    out = str_concat (omap (λ e, match ev_event e with EvStdout d => Some d | _ => None end) es) ∧
    err = str_concat (omap (λ e, match ev_event e with EvStderr d => Some d | _ => None end) es).
Proof.
  intros Hes. revert s. induction Hes as [|e es He _ IH]; intros s.
  - exists "", "". rewrite !app_nil_r_s. by destruct s.
  - cbn [played omap list_omap]. destruct (ev_event e) as [d|d| |]; [| |done|done].
    + destruct (IH (wrote Stdout d s)) as (out & err & -> & -> & ->). eexists _, _. split; [|done]. cbn. by rewrite app_assoc_s.
    + destruct (IH (wrote Stderr d s)) as (out & err & -> & -> & ->). eexists _, _. split; [|done]. cbn. by rewrite app_assoc_s.
Qed.
End attached.

(** ** A session *)

Definition three_lines (name id data : string) : list string := ["event: " ++ name; "id: " ++ id; "data: " ++ data].

#[local] Instance sse_lines : EventLines := {| event_lines := three_lines; keep_alive_lines := [":"] |}.

Lemma prefixed_other p x : plain_line p → p ≠ "" → (∀ x, data_line (p ++ x) = None) → plain_line x → other_line (p ++ x).
Proof.
  intros Hp Hne Hd Hx. split; [|done]. split; [|by destruct p]. apply plain_one_line. unfold plain_line in *. by rewrite str_forallb_app Hp.
Qed.

#[local] Instance sse_lines_lawful : LawfulEvents sse_lines.
Proof.
  split.
  - intros name id data Hn Hi Hd. exists ["event: " ++ name; "id: " ++ id], []. split; [done|]. repeat constructor.
    all: by apply prefixed_other.
  - split; [done|]. by repeat constructor.
Qed.

#[local] Instance as_it_is : Base64 := {| encode64 x := x; decode64 x := Some x |}.
#[local] Instance as_it_is_lawful : LawfulBase64 as_it_is.
Proof. done. Qed.

Definition hello : BackgroundExecEvent := mkEvent 1 "e" (EvStdout "hello").
Definition alas : BackgroundExecEvent := mkEvent 2 "e" (EvStderr "alas").
Definition over : BackgroundExecEvent := mkEvent 3 "e" (EvExited 7).
Definition naught : BackgroundExecEvent := mkEvent 3 "e" (EvFailed (bytes_str [195; 169]%Z)).

Definition event_texts : list (string * BackgroundExecEvent) :=
  [("H", hello); ("A", alas); ("O", over); (bytes_str [195; 169]%Z, naught)].

#[local] Instance few_texts : JsonText :=
  {| json_from_str s := event_value ∘ snd <$> find_first (λ x, String.eqb x.1 s) event_texts |}.
#[local] Instance few_shown : JsonShow :=
  {| json_to_string v := default "" (fst <$> find_first (λ x, value_eqb (event_value x.2) v) event_texts) |}.

Definition first_request : HttpRequest :=
  mkHttp GET "http://d/v1/sandboxes/s/execs/e/events" [("from", "1")] "t" NoBody.

(** A daemon that answers everything with these chunks. *)
Definition served_chunks (chunks : list (result string string)) : CtlWorld := {|
  answer _ := Ok (mkResponse 200 chunks); file_bytes _ := Err "none"; sink_fails _ _ := None;
  create_request_of _ := None; show_time _ := ""; client_built := Ok tt |}.

Definition hello_wire : string := wire_text [SentEvent hello; SentKeepAlive; SentEvent alas; SentEvent over; SentEvent hello].
Definition cut_at (n : nat) (s : string) : list string := [str_take n s; str_drop n s].
Definition fresh_ctl : Ctl := mkCtl "" "" "" [].

Lemma attach_mirrors_witness :
  is_success 200 = true ∧ attach_exec (world := served_chunks (chunks_of (cut_at 20 (hello_wire ++ "event: st")) None)) (mkClient "http://d" "t") "s" "e" 1 fresh_ctl =
    (Ret 7%Z, mkCtl "" "hello" "alas" [first_request]).
Proof.
  split; [done|]. rewrite (attach_mirrors (world := served_chunks (chunks_of (cut_at 20 (hello_wire ++ "event: st")) None)) ltac:(done)
    (mkClient "http://d" "t") "s" "e" 1 fresh_ctl 200 (cut_at 20 (hello_wire ++ "event: st")) None
    [SentEvent hello; SentKeepAlive; SentEvent alas; SentEvent over; SentEvent hello] "event: st").
  - reflexivity.
  - reflexivity.
  - by repeat constructor; apply ascii_valid.
  - by repeat constructor.
  - vm_compute. reflexivity.
  - vm_compute. reflexivity.
  - vm_compute. reflexivity.
Defined.

(** The stream ends before the process has: success is reported. *)
Example exit_code_lost :
  let w := served_chunks (chunks_of [wire_text [SentEvent hello]] None) in
  (attach_exec (world := w) (mkClient "http://d" "t") "s" "e" 1 fresh_ctl).1 = Ret 0%Z.
Proof. vm_compute. reflexivity. Qed.

(** A character that arrives in two pieces is not the same when it is whole. *)
Example character_split :
  let text := wire_text [SentEvent naught] in
  let failed chunks := (attach_exec (world := served_chunks (chunks_of chunks None)) (mkClient "http://d" "t") "s" "e" 1 fresh_ctl).1 in
  failed [text] = Throw ("background exec failed: " ++ bytes_str [195; 169]%Z) ∧
  failed (cut_at 27 text) = Throw ("failed to parse SSE event payload: " ++ REPLACEMENT ++ REPLACEMENT).
Proof. vm_compute. split; reflexivity. Qed.

(** With a snapshot named, image, environment and command are dropped. *)
Example image_dropped :
  let args := mkCreateArgs (Some "s") (Some "snap") None (Some "img") "main" ["no-equals"] ["sh"] in
  build_create_request (world := served_chunks []) args fresh_ctl = (Ret (mkCreateRequest (Some "s") [] (Some "snap") None), fresh_ctl).
Proof. reflexivity. Qed.

Example variables : map parse_env ["A=b=c"; "A="; "=b"; "A"] =
  [Ok (mkEnvVar "A" "b=c"); Ok (mkEnvVar "A" ""); Err ("invalid --env " ++ quoted "=b" ++ "; key must not be empty");
   Err ("invalid --env " ++ quoted "A" ++ "; expected KEY=VALUE")].
Proof. vm_compute. reflexivity. Qed.

Example without_token : require_token None = require_token (Some "").
Proof. reflexivity. Qed.
