(* ===== verification/LogTail.v ===== *)
(** * The last lines of a container's log ([read_log_tail], crates/oad/src/main.rs)

    At most [LOG_TAIL_READ_BYTES] are read, from the end of the file; a line cut
    by the start of that window is dropped, empty lines are skipped. *)
From S2P Require Import Prelude Str.

Definition LOG_TAIL_READ_BYTES : Z := 8 * 1024 * 1024.

Definition size (s : string) : Z := Z.of_nat (String.length s).

Fixpoint str_drop (n : nat) (s : string) : string :=
  match n, s with S n, String _ s => str_drop n s | _, _ => s end.

(** Into the queue of the last [tail] lines. *)
Definition push_line (tail : nat) (lines : list string) (line : string) : list string :=
  if decide (line = "") then lines else
  ((if length lines =? tail then List.tl lines else lines) ++ [line])%nat%list.

Definition log_window (content : string) : string :=
  let start := Z.max 0 (size content - LOG_TAIL_READ_BYTES) in
  let buf := str_drop (Z.to_nat start) content in
  if (0 <? start)%Z then match split_once "010" buf with Some (_, rest) => rest | None => buf end else buf.

(** [lossy] is [String::from_utf8_lossy]. *)
Definition log_tail (lossy : string → string) (content : string) (tail : nat) : list string :=
  if (tail =? 0)%nat then [] else
  map lossy (fold_left (push_line tail) (split_char "010" (log_window content)) []).

(** ** What it returns *)

Definition nonempty (line : string) : bool := bool_decide (line ≠ "").

(** The lines of a log, in order, without the empty ones. *)
Definition log_lines (content : string) : list string := List.filter nonempty (split_char "010" content).

Definition last_n {A} (n : nat) (l : list A) : list A := drop (length l - n) l.

Lemma str_drop_split n s : ∃ p, s = p ++ str_drop n s ∧ String.length p = Nat.min n (String.length s).
Proof.
  revert s. induction n as [|n IH]; intros [|a s]; simpl; try by exists "".
  destruct (IH s) as (p & Hs & Hp). exists (String a p). simpl. by rewrite -Hs Hp.
Qed.

Lemma push_line_last tail (lines : list string) line :
  (0 < tail)%nat → push_line tail (last_n tail lines) line = last_n tail (lines ++ List.filter nonempty [line])%list.
Proof.
  intros Ht. unfold push_line, nonempty, last_n. simpl. case_decide as Hl.
  - rewrite bool_decide_eq_false_2; [naive_solver|]. by rewrite app_nil_r.
  - rewrite bool_decide_eq_true_2; [done|]. rewrite length_app length_drop /=.
    destruct (Nat.eqb_spec (length lines - (length lines - tail)) tail) as [Hf|Hf].
    + replace (length lines + 1 - tail)%nat with (S (length lines - tail)) by lia.
      rewrite drop_app_le; [lia|]. f_equal. clear. generalize (length lines - tail)%nat as n.
      induction lines as [|x lines IH]; intros [|n]; try done. apply IH.
    + replace (length lines - tail)%nat with 0%nat by lia. replace (length lines + 1 - tail)%nat with 0%nat by lia. done.
Qed.

Lemma push_lines tail pieces (lines : list string) :
  (0 < tail)%nat →
  fold_left (push_line tail) pieces (last_n tail lines) = last_n tail (lines ++ List.filter nonempty pieces)%list.
Proof.
  intros Ht. revert lines. induction pieces as [|p pieces IH]; intros lines; simpl; [by rewrite app_nil_r|].
  rewrite push_line_last // IH /=. f_equal. rewrite -app_assoc. by destruct (nonempty p).
Qed.

(** The lines after a line feed are the last of all lines. *)
Lemma log_lines_app (before rest : string) :
  log_lines (before ++ String "010" rest) = (log_lines before ++ log_lines rest)%list.
Proof. unfold log_lines. rewrite split_char_sep. apply List.filter_app. Qed.

(** The tail of a log is the last lines of it, at most as many as asked for:
    of the whole log when it fits in the window; else of what follows the first
    line feed in the window (whole lines, the last of the log); and when the
    window holds no line feed, the window itself. *)
Theorem log_tail_spec (lossy : string → string) (content : string) (tail : nat) :
  ((size content ≤ LOG_TAIL_READ_BYTES)%Z →
   log_tail lossy content tail = map lossy (last_n tail (log_lines content))) ∧
  ((LOG_TAIL_READ_BYTES < size content)%Z →
   ∃ before window, content = before ++ window ∧ size window = LOG_TAIL_READ_BYTES ∧
     match split_once "010" window with
     | Some (cut, rest) => log_lines content = (log_lines (before ++ cut) ++ log_lines rest)%list ∧
         log_tail lossy content tail = map lossy (last_n tail (log_lines rest))
     | None => log_tail lossy content tail = map lossy (last_n tail [window])
     end).
Proof.
  assert (Htail : ∀ c, log_window content = c → log_tail lossy content tail = map lossy (last_n tail (log_lines c))).
  { intros c Hc. unfold log_tail. rewrite Hc. destruct (Nat.eqb_spec tail 0) as [->|Ht].
    - unfold last_n. by rewrite Nat.sub_0_r drop_ge.
    - f_equal. by apply (push_lines tail _ [] ltac:(lia)). }
  split; intros Hlen.
  - apply Htail. unfold log_window. rewrite Z.max_l; [lia|done].
  - unfold log_window in Htail. rewrite Z.max_r in Htail; [lia|].
    rewrite (proj2 (Z.ltb_lt 0 _)) in Htail; [lia|]. set (n := Z.to_nat _) in Htail.
    destruct (str_drop_split n content) as (before & Hcontent & Hbefore).
    exists before, (str_drop n content). split; [done|].
    assert (Hsize : size (str_drop n content) = LOG_TAIL_READ_BYTES).
    { apply (f_equal String.length) in Hcontent. rewrite length_app_s in Hcontent.
      unfold n, size, LOG_TAIL_READ_BYTES in *. lia. }
    split; [done|]. destruct (split_once "010" (str_drop n content)) as [[cut rest]|] eqn:E.
    + apply split_once_some in E as [Hw _]. split; [|by apply Htail].
      rewrite {1}Hcontent Hw -app_assoc_s. apply log_lines_app.
    + rewrite (Htail _ eq_refl). unfold log_lines. rewrite split_char_none; [by apply split_once_none|].
      unfold nonempty. simpl. rewrite bool_decide_eq_true_2; [|done]. by intros Hw; rewrite Hw in Hsize.
Qed.

Example log_tail_two :
  log_tail (λ s, s) ("a" ++ nl ++ nl ++ "b" ++ nl ++ "c" ++ nl) 2 = ["b"; "c"].
Proof. vm_compute. reflexivity. Qed.

Lemma log_tail_spec_witness :
  log_tail (λ s, s) ("a" ++ nl ++ "b" ++ nl) 1 = map (λ s, s) (last_n 1 (log_lines ("a" ++ nl ++ "b" ++ nl))).
Proof. apply (log_tail_spec (λ s, s) ("a" ++ nl ++ "b" ++ nl) 1). vm_compute. discriminate. Defined.
