(* ===== verification/Envoy.v ===== *)
(** * What the network manager gives to Envoy, and the DNS proxy
    ([render_envoy_config] and below, crates/oad/src/network.rs)

    The configuration is a value of JSON; its text is serde's.  The proxy sends a
    query on and the answer back, each datagram in a task of its own. *)
From S2P Require Import Prelude Str Json Core Cidr.

(** ** Addresses *)

(** [Ipv6Addr::to_string]: the longest run of zeros left out, the first of them. *)
Fixpoint longest_zeros (groups : list Z) (i : nat) (current longest : nat * nat) : nat * nat :=
  match groups with
  | [] => longest
  | g :: groups =>
      if (g =? 0)%Z then
        let current := ((if decide (current.2 = 0%nat) then i else current.1), S current.2) in
        longest_zeros groups (S i) current (if (longest.2 <? current.2)%nat then current else longest)
      else longest_zeros groups (S i) (0, 0)%nat longest
  end.

Definition show_group (g : Z) : string := let h := trim_start_char "0" (show_hex_pad 4 g) in if decide (h = "") then "0" else h.

Definition show_ipv6 (groups : list Z) : string :=
  match groups with
  | [0; 0; 0; 0; 0; 65535; hi; lo]%Z => "::ffff:" ++ show_ipv4 (hi * 65536 + lo)
  | _ =>
      let '(start, len) := longest_zeros groups 0 (0, 0)%nat (0, 0)%nat in
      let show l := str_join ":" (map show_group l) in
      if (1 <? len)%nat then show (take start groups) ++ "::" ++ show (drop (start + len) groups) else show groups
  end.

Definition show_ip (a : SocketAddr) : string :=
  match a with SocketAddrV4 ip _ => show_ipv4 ip | SocketAddrV6 groups _ _ => show_ipv6 groups end.

Example addresses : map show_ipv6 [[0; 0; 0; 0; 0; 0; 0; 0]; [0; 0; 0; 0; 0; 0; 0; 1]; [65152; 0; 0; 0; 1; 0; 0; 10]; [1; 0; 2; 3; 4; 5; 6; 7]; [0; 0; 0; 0; 0; 65535; 49320; 257]]%Z =
  ["::"; "::1"; "fe80::1:0:0:a"; "1:0:2:3:4:5:6:7"; "::ffff:192.168.1.1"].
Proof. vm_compute. reflexivity. Qed.

(** ** The configuration *)

Definition str_array (l : list string) : Value := Array (map Str l).
Definition type_url (t : string) : Value := Str ("type.googleapis.com/" ++ t).

(** [value[key] = v] of an object. *)
Definition put (key : string) (v : Value) (o : Value) : Value :=
  match o with Object l => Object (obj_insert key v l) | o => o end.

Definition listener_inspector (name message : string) : Value :=
  obj [("name", Str ("envoy.filters.listener." ++ name));
       ("typed_config", obj [("@type", type_url ("envoy.extensions.filters.listener." ++ name ++ ".v3." ++ message))])].

Definition grpc_access_log (logger_name type log_name : string) : Value :=
  Array [obj [("name", Str logger_name);
    ("typed_config", obj [("@type", Str type);
      ("common_config", obj [("log_name", Str log_name);
        ("grpc_service", obj [("envoy_grpc", obj [("cluster_name", Str "oad_accesslog")]); ("timeout", Str "5s")])])])]].

Definition accesslog_cluster (socket_path : string) : Value :=
  obj [("name", Str "oad_accesslog"); ("type", Str "STATIC"); ("connect_timeout", Str "1s"); ("lb_policy", Str "ROUND_ROBIN");
       ("typed_extension_protocol_options",
         obj [("envoy.extensions.upstreams.http.v3.HttpProtocolOptions",
           obj [("@type", type_url "envoy.extensions.upstreams.http.v3.HttpProtocolOptions");
                ("explicit_http_config", obj [("http2_protocol_options", obj [])])])]);
       ("load_assignment", obj [("cluster_name", Str "oad_accesslog");
         ("endpoints", Array [obj [("lb_endpoints", Array [obj [("endpoint", obj [("address", obj [("pipe", obj [("path", Str socket_path)])])])]])]])])].

Definition http_connection_manager : Value :=
  obj [("@type", type_url "envoy.extensions.filters.network.http_connection_manager.v3.HttpConnectionManager");
       ("stat_prefix", Str "oad_http"); ("codec_type", Str "AUTO"); ("stream_idle_timeout", Str "0s");
       ("upgrade_configs", Array [obj [("upgrade_type", Str "websocket")]; obj [("upgrade_type", Str "CONNECT")]]);
       ("route_config", obj [("name", Str "oad_http_routes");
         ("virtual_hosts", Array [obj [("name", Str "all"); ("domains", str_array ["*"]);
           ("routes", Array [obj [("match", obj [("prefix", Str "/")]);
             ("route", obj [("cluster", Str "original_dst"); ("timeout", Str "0s")])]])]])]);
       ("http_filters", Array [obj [("name", Str "envoy.filters.http.router");
         ("typed_config", obj [("@type", type_url "envoy.extensions.filters.http.router.v3.Router")])]])].

Definition envoy_http_filter_chain (access_log : Value) : Value :=
  obj [("filter_chain_match", obj [("transport_protocol", Str "raw_buffer"); ("application_protocols", str_array ["http/1.1"; "h2c"])]);
       ("filters", Array [obj [("name", Str "envoy.filters.network.http_connection_manager");
         ("typed_config", put "access_log" access_log http_connection_manager)]])].

Definition original_dst_filter : Value :=
  obj [("name", Str "envoy.filters.listener.original_dst");
       ("typed_config", obj [("@type", type_url "envoy.extensions.filters.listener.original_dst.v3.OriginalDst")])].

Definition tcp_proxy : Value :=
  obj [("@type", type_url "envoy.extensions.filters.network.tcp_proxy.v3.TcpProxy"); ("stat_prefix", Str "oad_tcp"); ("cluster", Str "original_dst")].

Definition original_dst_cluster : Value :=
  obj [("name", Str "original_dst"); ("type", Str "ORIGINAL_DST"); ("connect_timeout", Str "5s"); ("lb_policy", Str "CLUSTER_PROVIDED")].

Definition bare_listener (ip : string) (port : Z) : Value :=
  obj [("name", Str "oad_transparent_tcp"); ("address", obj [("socket_address", obj [("address", Str ip); ("port_value", num port)])])].

Definition http_grpc_log : Value :=
  grpc_access_log "envoy.access_loggers.http_grpc"
    "type.googleapis.com/envoy.extensions.access_loggers.grpc.v3.HttpGrpcAccessLogConfig" "oad_http".
Definition tcp_grpc_log : Value :=
  grpc_access_log "envoy.access_loggers.tcp_grpc"
    "type.googleapis.com/envoy.extensions.access_loggers.grpc.v3.TcpGrpcAccessLogConfig" "oad_tcp".

(** With [audit] the connections are looked into, and logged to the socket. *)
Definition envoy_value (audit : bool) (socket_path ip : string) (port : Z) : Value :=
  let listener := bare_listener ip port in
  let listener := if audit then put "listener_filters_timeout" (Str "1s") (put "continue_on_listener_filters_timeout" (Bool true) listener) else listener in
  let filters := original_dst_filter :: if audit then [listener_inspector "tls_inspector" "TlsInspector"; listener_inspector "http_inspector" "HttpInspector"] else [] in
  let tcp := if audit then put "access_log" tcp_grpc_log tcp_proxy else tcp_proxy in
  let chains := app (if audit then [envoy_http_filter_chain http_grpc_log] else [])
    [obj [("filters", Array [obj [("name", Str "envoy.filters.network.tcp_proxy"); ("typed_config", tcp)]])]] in
  let clusters := original_dst_cluster :: if audit then [accesslog_cluster socket_path] else [] in
  let listener := put "filter_chains" (Array chains) (put "listener_filters" (Array filters) listener) in
  obj [("static_resources", obj [("listeners", Array [listener]); ("clusters", Array clusters)])].

(** [pretty] is [serde_json::to_string_pretty]. *)
Definition render_envoy_config (pretty : Value → result NetworkError string) (audit : bool) (envoy_listener socket_path : string) : result NetworkError string :=
  match parse_socket_addr envoy_listener with
  | None => Err (AddrParse envoy_listener)
  | Some a => pretty (envoy_value audit socket_path (show_ip a) (port_of a))
  end.

(** ** What it promises *)

(** Every cluster an access log, a route or a proxy names, wherever it is. *)
Fixpoint cluster_refs (v : Value) : list string :=
  match v with
  | Array l => (fix go l := match l with [] => [] | v :: l => app (cluster_refs v) (go l) end) l
  | Object l =>
      (fix go (l : list (string * Value)) := match l with
        | [] => []
        | (k, v) :: l =>
            app (match v with Str c => if decide (k = "cluster" ∨ k = "cluster_name") then [c] else [] | _ => cluster_refs v end) (go l)
        end) l
  | _ => []
  end.

Definition items (v : option Value) : list Value := default [] (v ≫= as_array).
Definition listeners (config : Value) : list Value := items (v_get "static_resources" config ≫= v_get "listeners").
Definition clusters (config : Value) : list string :=
  omap (λ c, v_get "name" c ≫= as_string) (items (v_get "static_resources" config ≫= v_get "clusters")).
Definition chains (listener : Value) : list Value := items (v_get "filter_chains" listener).
Definition matches_all (chain : Value) : Prop := v_get "filter_chain_match" chain = None.

(** Every cluster the listener of Envoy refers to is defined, and once; the last
    of its chains takes what none before it takes, and none before it takes
    everything; it listens where it was told to; and when connections are looked
    into, one that says nothing goes on to the last chain. *)
Theorem envoy_config_closed (audit : bool) (socket_path ip : string) (port : Z) :
  let config := envoy_value audit socket_path ip port in
  ∃ l, listeners config = [l] ∧
    NoDup (clusters config) ∧ (∀ c, c ∈ cluster_refs l → c ∈ clusters config) ∧
    (∃ before last, chains l = (before ++ [last])%list ∧ matches_all last ∧ Forall (λ c, ¬ matches_all c) before ∧
       length before = if audit then 1%nat else 0%nat) ∧
    (v_get "address" l ≫= v_get "socket_address") = Some (obj [("address", Str ip); ("port_value", num port)]) ∧
    ((1 < length (items (v_get "listener_filters" l)))%nat → v_get "continue_on_listener_filters_timeout" l = Some (Bool true)).
Proof.
  destruct audit; eexists; (split; [reflexivity|]); split_and!.
  all: try reflexivity.
  - change (NoDup ["original_dst"; "oad_accesslog"]). by repeat constructor; set_solver.
  - intros c. change (c ∈ ["oad_accesslog"; "original_dst"; "oad_accesslog"; "original_dst"] → c ∈ ["original_dst"; "oad_accesslog"]). set_solver.
  - eexists [_], _. split; [reflexivity|]. split; [reflexivity|]. split; [|done]. by repeat constructor.
  - change (NoDup ["original_dst"]). by repeat constructor; set_solver.
  - intros c. change (c ∈ ["original_dst"] → c ∈ ["original_dst"]). done.
  - eexists [], _. split; [reflexivity|]. split; [reflexivity|]. by split.
  - intros Hl. change (1 < 1)%nat in Hl. lia.
Qed.

(** The text is that of such a configuration, or the address is none. *)
Lemma render_envoy_spec pretty audit envoy_listener socket_path :
  match parse_socket_addr envoy_listener with
  | Some a => render_envoy_config pretty audit envoy_listener socket_path = pretty (envoy_value audit socket_path (show_ip a) (port_of a))
  | None => render_envoy_config pretty audit envoy_listener socket_path = Err (AddrParse envoy_listener)
  end.
Proof. unfold render_envoy_config. by destruct (parse_socket_addr envoy_listener). Qed.

(** ** The DNS proxy *)

Definition DNS_BUF : nat := Z.to_nat 4096.

(** What the upstream does with a query, in the five seconds it is given. *)
Inductive UpstreamAnswer : Type := Answered (response : string) | ReadFailed | Silent.

Record UpstreamHost : Type := mkUpstream { up_addr : SocketAddr; up_binds : bool; up_connects : bool; up_sends : bool; up_answer : string → UpstreamAnswer }.

Inductive DnsAct (P : Type) : Type :=
| BindLocal (addr : string)
| ConnectUpstream
| SendQuery (query : string)
| SendAnswer (peer : P) (response : string).
Arguments BindLocal {P}. Arguments ConnectUpstream {P}. Arguments SendQuery {P}. Arguments SendAnswer {P}.

Definition is_ipv6 (a : SocketAddr) : bool := match a with SocketAddrV6 _ _ _ => true | _ => false end.

(** The task of a datagram: the socket is connected, so the kernel takes no
    answer of another. *)
Definition udp_query {P} (u : UpstreamHost) (query : string) (peer : P) : list (DnsAct P) :=
  let bind_addr := if is_ipv6 (up_addr u) then "[::]:0" else "0.0.0.0:0" in
  BindLocal bind_addr :: if negb (up_binds u) then [] else
  ConnectUpstream :: if negb (up_connects u) then [] else
  SendQuery query :: if negb (up_sends u) then [] else
  match up_answer u query with
  | Answered response => [SendAnswer peer (str_take DNS_BUF response)]
  | ReadFailed | Silent => []
  end.

(** Datagrams that came in, errors passed over; a task each. *)
Definition run_udp_dns_proxy {P} (u : UpstreamHost) (received : list (option (string * P))) : list (list (DnsAct P)) :=
  omap (λ d, '(datagram, peer) ← d; Some (udp_query u (str_take DNS_BUF datagram) peer)) received.

#[local] Opaque DNS_BUF.

Lemma query_answers {P} (u : UpstreamHost) q (p peer : P) response :
  SendAnswer peer response ∈ udp_query u q p →
  p = peer ∧ ∃ full, up_answer u q = Answered full ∧ response = str_take DNS_BUF full ∧
    udp_query u q p = [BindLocal (if is_ipv6 (up_addr u) then "[::]:0" else "0.0.0.0:0"); ConnectUpstream; SendQuery q; SendAnswer p response].
Proof.
  intros Hr. unfold udp_query in *. destruct (up_binds u), (up_connects u), (up_sends u); cbn [negb] in *;
    repeat (apply elem_of_cons in Hr as [Hr|Hr]; [discriminate|]); try by apply not_elem_of_nil in Hr.
  destruct (up_answer u q) as [full| |] eqn:E; [|by apply not_elem_of_nil in Hr..].
  apply list_elem_of_singleton in Hr as [= -> ->]. split; [done|]. by exists full.
Qed.

(** An answer goes to who asked, and is the upstream's to that question, as far as
    both fit the buffer; a question is asked once. *)
Lemma dns_answers {P} (u : UpstreamHost) (received : list (option (string * P))) task peer response :
  task ∈ run_udp_dns_proxy u received → SendAnswer peer response ∈ task →
  ∃ datagram full, Some (datagram, peer) ∈ received ∧ up_answer u (str_take DNS_BUF datagram) = Answered full ∧ response = str_take DNS_BUF full ∧
    task = [BindLocal (if is_ipv6 (up_addr u) then "[::]:0" else "0.0.0.0:0"); ConnectUpstream; SendQuery (str_take DNS_BUF datagram); SendAnswer peer response].
Proof.
  unfold run_udp_dns_proxy. rewrite list_elem_of_omap. intros ([[datagram p]|] & Hin & Ht) Hr; [|done].
  cbn [mbind option_bind] in Ht. injection Ht as <-. destruct (query_answers _ _ _ _ _ Hr) as (-> & full & Ha & Hf & Hq).
  exists datagram, full. by rewrite Hq.
Qed.
