(* ===== verification/Network.v ===== *)
(** * The network manager (crates/oad/src/network.rs)

    Allocation of subnets and interface names, and the state machine that
    reconciles and deletes the network of a sandbox: state files, the index
    from addresses to sandboxes, and the [ip], [tc], [nft] and [iptables]
    commands. *)
From S2P Require Import Prelude Str Core Effect Os Registry Cidr Nft.

Definition NETNS_DIR : Path := ["run"; "netns"].
Definition HOST_VETH_PREFIX : string := "oadh".
Definition PEER_VETH_PREFIX : string := "oadp".
Definition IP : string := "ip".
Definition TC : string := "tc".
Definition NFT : string := "nft".
Definition ENVOY : string := "envoy".
Definition IPTABLES : string := "iptables".
Definition IPTABLES_NFT : string := "iptables-nft".
Definition DEFAULT_SHAPING_BURST_BYTES : Z := 262144.
Definition DEFAULT_SHAPING_LATENCY_MS : Z := 50.

(** ** Names *)

(** FNV-1a on 64 bits. *)
Fixpoint fnv1a (hash : Z) (value : string) : Z :=
  match value with
  | EmptyString => hash
  | String byte value => fnv1a (wrap64 (Z.lxor hash (code byte) * 1099511628211)) value
  end.

Definition stable_hash (value : string) : Z := fnv1a 14695981039346656037 value.

Definition TOKEN_MASK : Z := 1099511627775.

Definition salted_token (id : SandboxId) (attempt : Z) : string :=
  let value := if (attempt =? 0)%Z then stable_hash (as_str id)
               else stable_hash (as_str id ++ "#" ++ show_dec attempt) in
  show_hex_pad 10 (Z.land value TOKEN_MASK).

Definition netns_path (state : SandboxNetworkState) : Path := join NETNS_DIR (netns_name state).

Definition peer_veth (token : string) : string := PEER_VETH_PREFIX ++ token.

(** ** Allocation *)

(** [(0..n).map(candidate).find(|c| !used.contains(c))]. *)
Definition first_unused {A} `{Countable A} (candidate : Z → A) (used : gset A) (n : Z) : option A :=
  find_range (λ i, if decide (candidate i ∈ used) then None else Some (candidate i)) 0 n.

Definition choose_index (start block_count : Z) (used : gset Z) : option Z :=
  first_unused (λ offset, wrap32 (start + offset) mod block_count)%Z used block_count.

Definition choose_token (id : SandboxId) (used_tokens : gset string) : option string :=
  first_unused (salted_token id) used_tokens u32_max.

Definition used_indices (existing : list SandboxNetworkState) : gset Z :=
  list_to_set (map subnet_index existing).
Definition used_tokens (existing : list SandboxNetworkState) : gset string :=
  list_to_set (map token existing).

Definition new_state (id : SandboxId) (spec : SandboxNetworkSpec) (tok : string)
    (index host_ip sandbox_ip : Z) : SandboxNetworkState :=
  mkNetState id tok ("oad-" ++ tok) (HOST_VETH_PREFIX ++ tok) sandbox_ip host_ip 30 index spec.

(** [allocate_state] once the states on disk are read; [None] where it panics. *)
Definition allocate (config : NetworkRuntimeConfig) (existing : list SandboxNetworkState)
    (id : SandboxId) (spec : SandboxNetworkSpec) : result NetworkError (option SandboxNetworkState) :=
  (cidr <-? parse_ipv4_cidr (sandbox_cidr config) ;;
   block_count <-? block_count_30 cidr ;;
   let start := (stable_hash (as_str id) mod block_count)%Z in
   subnet_index <-? ok_or (choose_index start block_count (used_indices existing))
                      (InvalidConfig (NoFreeSubnet (sandbox_cidr config))) ;;
   pair <-? nth_30_pair cidr subnet_index ;;
   let '(host_ip, sandbox_ip) := pair in
   match choose_token id (used_tokens existing) with
   | None => Ok None
   | Some tok => Ok (Some (new_state id spec tok subnet_index host_ip sandbox_ip))
   end)%rust.

(** ** The manager *)

Record NetWorld (B : Type) : Type := mkNetWorld {
  n_os : Os B;
  ip_map : gmap Z SandboxId;
  dns_started : bool;
  envoy_child : bool;      (* has an Envoy been spawned? *)
}.
Arguments mkNetWorld {B}. Arguments n_os {B}. Arguments ip_map {B}.
Arguments dns_started {B}. Arguments envoy_child {B}.

Record SandboxNetworkInfo : Type := mkNetInfo { host_gateway_ip : Z; info_sandbox_ip : Z }.

Section manager.
Context {B : Type} `{!Bytes B, !Env B, !Codec B SandboxNetworkState}.
Notation NetM := (M (NetWorld B) NetworkError).
Context (config : NetworkRuntimeConfig) (paths : OadPaths).
(** The text of the Envoy configuration (Envoy.v). *)
Context (envoy_text : result NetworkError B).

Definition on_os {A} (m : M (Os B) IoError A) : M (NetWorld B) IoError A :=
  zoom n_os (λ o w, mkNetWorld o (ip_map w) (dns_started w) (envoy_child w)) m.

Definition net_io {A} (m : M (Os B) IoError A) : NetM A := mapE (λ e, NetIo (show_io_error e)) (on_os m).

Definition upd_ip_map (f : gmap Z SandboxId → gmap Z SandboxId) : NetM () :=
  modify (λ w, mkNetWorld (n_os w) (f (ip_map w)) (dns_started w) (envoy_child w)).
Definition set_dns_started : NetM () :=
  modify (λ w, mkNetWorld (n_os w) (ip_map w) true (envoy_child w)).
Definition set_envoy_child : NetM () :=
  modify (λ w, mkNetWorld (n_os w) (ip_map w) (dns_started w) true).

(** *** Commands *)

Definition net_run (program : string) (args : list string) : NetM () :=
  st ← net_io (run_command program args None);
  let '(success, code, _, _) := st in
  if (success : bool) then mret tt else throw (Command program args (show_status code)).

Definition run_with_stdin (program : string) (args : list string) (stdin : string) : NetM () :=
  st ← net_io (run_command program args (Some stdin));
  let '(success, code, _, _) := st in
  if (success : bool) then mret tt else throw (Command program args (show_status code)).

Definition command_succeeds (program : string) (args : list string) : NetM bool :=
  st ← attempt (net_io (run_command program args None));
  mret match st with Ok (success, _, _, _) => success | Err _ => false end.

Definition iptables_program : NetM (option string) :=
  nft ← command_succeeds IPTABLES_NFT ["--version"];
  if (nft : bool) then mret (Some IPTABLES_NFT) else
  legacy ← command_succeeds IPTABLES ["--version"];
  mret (if (legacy : bool) then Some IPTABLES else None).

(** *** State files *)

Definition decode_state (body : B) : NetM SandboxNetworkState :=
  lift_result (ok_or (from_json body) NetJson).

Definition read_state (id : SandboxId) : NetM (option SandboxNetworkState) :=
  r ← attempt (on_os (read_file (sandbox_network_state paths id)));
  match r with
  | Ok body => state ← decode_state body; mret (Some state)
  | Err err => if decide (err = NotFound) then mret None else throw (NetIo (show_io_error err))
  end.

(** One entry of the sandboxes directory. *)
Definition read_entry_state (name : string) : NetM (list SandboxNetworkState) :=
  r ← attempt (on_os (read_file (join (sandboxes_dir paths ++ [name])%list "network.json")));
  match r with
  | Ok body => state ← decode_state body; mret [state]
  | Err err => if decide (err = NotFound) then mret [] else throw (NetIo (show_io_error err))
  end.

Definition read_states : NetM (list SandboxNetworkState) :=
  sandboxes ← attempt (net_io (read_dir (sandboxes_dir paths)));
  match sandboxes with
  | Err _ => mret []
  | Ok names => out ← mapM_ read_entry_state names; mret (concat out)
  end.

Definition write_state (state : SandboxNetworkState) : NetM () :=
  net_io (write_json_atomic (sandbox_network_state paths (ns_sandbox_id state)) state).

Definition resolv_conf (state : SandboxNetworkState) : string :=
  "nameserver " ++ show_ipv4 (host_ip state) ++ nl ++ "options edns0 trust-ad" ++ nl.

Definition write_resolv_conf (state : SandboxNetworkState) : NetM () :=
  net_io (write_atomic_file (sandbox_resolv_conf paths (ns_sandbox_id state)) (text (resolv_conf state))).

Definition allocate_state (id : SandboxId) (spec : SandboxNetworkSpec) : NetM SandboxNetworkState :=
  lift_result (result_bind (parse_ipv4_cidr (sandbox_cidr config)) block_count_30) ;;
  existing ← read_states;
  r ← lift_result (allocate config existing id spec);
  match r with Some state => mret state | None => panic end.

(** *** Namespaces and interfaces *)

Definition ensure_netns (state : SandboxNetworkState) : NetM () :=
  net_io (create_dir_all NETNS_DIR) ;;
  there ← net_io (try_exists (netns_path state));
  if (there : bool) then mret tt else net_run IP ["netns"; "add"; netns_name state].

Definition ensure_veth (state : SandboxNetworkState) : NetM () :=
  there ← command_succeeds IP ["link"; "show"; host_veth state];
  if (there : bool) then mret tt else
  let peer := peer_veth (token state) in
  net_run IP ["link"; "add"; host_veth state; "type"; "veth"; "peer"; "name"; peer] ;;
  net_run IP ["link"; "set"; peer; "netns"; netns_name state].

Definition with_prefix (ip : Z) (state : SandboxNetworkState) : string :=
  show_ipv4 ip ++ "/" ++ show_dec (prefix_len state).

Definition configure_host_interface (state : SandboxNetworkState) : NetM () :=
  net_run IP ["addr"; "replace"; with_prefix (host_ip state) state; "dev"; host_veth state] ;;
  net_run IP ["link"; "set"; host_veth state; "up"].

Definition configure_sandbox_interface (state : SandboxNetworkState) : NetM () :=
  let ns := netns_name state in
  there ← command_succeeds IP ["-n"; ns; "link"; "show"; "eth0"];
  (if (there : bool) then mret tt else
     net_run IP ["-n"; ns; "link"; "set"; peer_veth (token state); "name"; "eth0"]) ;;
  net_run IP ["-n"; ns; "link"; "set"; "lo"; "up"] ;;
  net_run IP ["-n"; ns; "addr"; "replace"; with_prefix (sandbox_ip state) state; "dev"; "eth0"] ;;
  net_run IP ["-n"; ns; "link"; "set"; "eth0"; "up"] ;;
  net_run IP ["-n"; ns; "route"; "replace"; "default"; "via"; show_ipv4 (host_ip state); "dev"; "eth0"].

Definition ip_forward : Path := ["proc"; "sys"; "net"; "ipv4"; "ip_forward"].

Definition ensure_namespace (state : SandboxNetworkState) : NetM () :=
  ensure_netns state ;;
  ensure_veth state ;;
  configure_host_interface state ;;
  configure_sandbox_interface state ;;
  ignore (net_io (write_all ip_forward (text ("1" ++ nl)))).

(** *** Shaping *)

Definition tbf_args (rate : Z) (shaping : TrafficShapingPolicy) : list string :=
  ["root"; "tbf"; "rate"; show_dec rate ++ "bit";
   "burst"; show_dec (default DEFAULT_SHAPING_BURST_BYTES (burst_bytes shaping)) ++ "b";
   "latency"; show_dec (default DEFAULT_SHAPING_LATENCY_MS (latency_ms shaping)) ++ "ms"].

Definition apply_qdisc_sandbox (state : SandboxNetworkState) (shaping : TrafficShapingPolicy) : NetM () :=
  match upload_bps shaping with
  | None => mret tt
  | Some rate => net_run IP (["netns"; "exec"; netns_name state; TC; "qdisc"; "replace"; "dev"; "eth0"]
                             ++ tbf_args rate shaping)%list
  end.

Definition apply_qdisc_host (state : SandboxNetworkState) (shaping : TrafficShapingPolicy) : NetM () :=
  match download_bps shaping with
  | None => mret tt
  | Some rate => net_run TC (["qdisc"; "replace"; "dev"; host_veth state] ++ tbf_args rate shaping)%list
  end.

Definition delete_qdisc_sandbox (state : SandboxNetworkState) : NetM () :=
  net_run IP ["netns"; "exec"; netns_name state; TC; "qdisc"; "del"; "dev"; "eth0"; "root"].
Definition delete_qdisc_host (state : SandboxNetworkState) : NetM () :=
  net_run TC ["qdisc"; "del"; "dev"; host_veth state; "root"].

Definition apply_shaping (state : SandboxNetworkState) : NetM () :=
  let sh := shaping (ns_spec state) in
  (match upload_bps sh with
   | Some _ => apply_qdisc_sandbox state sh
   | None => ignore (delete_qdisc_sandbox state)
   end) ;;
  match download_bps sh with
  | Some _ => apply_qdisc_host state sh
  | None => ignore (delete_qdisc_host state)
  end.

(** *** Firewalls *)

Definition apply_nft_states (states : list SandboxNetworkState) : NetM () :=
  ruleset ← lift_result (render_nft_ruleset config states);
  run_with_stdin NFT ["-f"; "-"] (ruleset_text ruleset).

Definition apply_nft_ruleset : NetM () := states ← read_states; apply_nft_states states.

Definition ensure_host_firewall_rule (program : string) (rule : HostFirewallRule) : NetM () :=
  there ← command_succeeds program (invocation rule "-C" []);
  if (there : bool) then mret tt else net_run program (invocation rule "-I" ["1"]).

Definition ensure_host_firewall_rules (state : SandboxNetworkState) : NetM () :=
  program ← iptables_program;
  match program with
  | None => mret tt
  | Some program =>
      rules ← lift_result (host_firewall_rules config state);
      forM rules (ensure_host_firewall_rule program)
  end.

Definition delete_host_firewall_rules (state : SandboxNetworkState) : NetM () :=
  program ← iptables_program;
  match program with
  | None => mret tt
  | Some program =>
      rules ← lift_result (host_firewall_rules config state);
      forM rules (λ rule, ignore (net_run program (invocation rule "-D" [])))
  end.

(** *** Services *)

Definition check_addr (addr : string) : NetM () :=
  lift_result (result_map (λ _, tt) (ok_or (parse_socket_addr addr) (AddrParse addr))).

Definition ensure_dns_proxy : NetM () :=
  started ← gets dns_started;
  if (started : bool) then mret tt else
  check_addr (dns_listener config) ;;
  check_addr (dns_upstream config) ;;
  net_io (bind_socket "udp" (dns_listener config)) ;;
  net_io (bind_socket "tcp" (dns_listener config)) ;;
  set_dns_started.

Definition ensure_envoy : NetM () :=
  child ← gets envoy_child;
  alive ← gets (λ w, env_alive (calls (n_os w)));
  if (child && alive : bool) then mret tt else
  net_io (create_dir_all (network_dir paths)) ;;
  body ← lift_result envoy_text;
  net_io (write_atomic_file (envoy_config paths) body) ;;
  net_io (open_append (envoy_log paths)) ;;
  net_io (look (CRun ENVOY ["--config-path"; display (envoy_config paths)] None) (λ _, Ok tt)) ;;
  set_envoy_child.

Definition ensure_services : NetM () := ensure_dns_proxy ;; ensure_envoy.

(** *** The operations, each under the manager's lock *)

Definition sandbox_info (id : SandboxId) : NetM (option SandboxNetworkInfo) :=
  if negb (net_enabled config) then mret None else
  state ← read_state id;
  mret ((λ st, mkNetInfo (host_ip st) (sandbox_ip st)) <$> state).

Definition with_spec (spec : SandboxNetworkSpec) (st : SandboxNetworkState) : SandboxNetworkState :=
  mkNetState (ns_sandbox_id st) (token st) (netns_name st) (host_veth st) (sandbox_ip st) (host_ip st)
    (prefix_len st) (subnet_index st) spec.

Definition reconcile_sandbox (id : SandboxId) (spec : SandboxNetworkSpec) : NetM (option Path) :=
  if negb (net_enabled config) then mret None else
  lift_result (validate_spec spec) ;;
  ensure_services ;;
  found ← read_state id;
  state ← match found with
          | Some state => mret (with_spec spec state)
          | None => allocate_state id spec
          end;
  let state := with_spec spec state in
  write_state state ;;
  upd_ip_map (<[sandbox_ip state := ns_sandbox_id state]>) ;;
  write_resolv_conf state ;;
  ensure_namespace state ;;
  apply_shaping state ;;
  apply_nft_ruleset ;;
  ensure_host_firewall_rules state ;;
  mret (Some (netns_path state)).

Definition reconcile_state (state : SandboxNetworkState) : NetM () :=
  there ← attempt (net_io (try_exists (netns_path state)));
  (match there with
   | Ok true => ignore (apply_shaping state)
   | _ => mret tt
   end) ;;
  ensure_host_firewall_rules state.

Definition reconcile_all : NetM () :=
  if negb (net_enabled config) then mret tt else
  ensure_services ;;
  states ← read_states;
  upd_ip_map (λ _, foldl (λ m s, <[sandbox_ip s := ns_sandbox_id s]> m) ∅ states) ;;
  forM states reconcile_state ;;
  apply_nft_states states.

Definition delete_sandbox (id : SandboxId) : NetM () :=
  if negb (net_enabled config) then mret tt else
  found ← read_state id;
  match found with
  | None => apply_nft_ruleset
  | Some state =>
      ignore (delete_host_firewall_rules state) ;;
      ignore (delete_qdisc_host state) ;;
      ignore (delete_qdisc_sandbox state) ;;
      ignore (net_run IP ["link"; "delete"; host_veth state]) ;;
      ignore (net_run IP ["netns"; "delete"; netns_name state]) ;;
      upd_ip_map (delete (sandbox_ip state)) ;;
      r ← attempt (on_os (remove_file (sandbox_network_state paths id)));
      match r with
      | Ok _ => apply_nft_ruleset
      | Err err => if decide (err = NotFound) then apply_nft_ruleset
                   else throw (NetIo (show_io_error err))
      end
  end.
End manager.
