(* ===== verification/NetworkInv.v ===== *)
(** * Sandboxes never share a network (crates/oad/src/network.rs)

    Properties of Network.v: what allocation returns, and the invariant of the
    state files under the manager's operations. *)
From S2P Require Import Prelude Str Core Effect Os Entries Registry Cidr Nft Network.

(** ** Allocation *)

Lemma hex_pad_length w n acc : String.length (hex_pad_go w n acc) = (w + String.length acc)%nat.
Proof.
  revert n acc. induction w as [|w IH]; intros n acc; [done|]. simpl. rewrite IH. simpl. lia.
Qed.

Lemma salted_token_length id attempt : String.length (salted_token id attempt) = 10%nat.
Proof. unfold salted_token, show_hex_pad. by rewrite hex_pad_length. Qed.

(** Linear probing visits every index. *)
Lemma probe_offset (start n i : Z) :
  (0 < n ≤ 1073741824)%Z → (0 ≤ start < n)%Z → (0 ≤ i < n)%Z →
  ∃ offset, (0 ≤ offset < n)%Z ∧ (wrap32 (start + offset) mod n = i)%Z.
Proof.
  intros Hn Hs Hi. unfold wrap32. destruct (decide (start ≤ i)%Z).
  - exists (i - start)%Z. split; [lia|]. rewrite (Z.mod_small (start + (i - start))); [lia|].
    replace (start + (i - start))%Z with i by lia. by apply Z.mod_small.
  - exists (i - start + n)%Z. split; [lia|]. rewrite (Z.mod_small (start + (i - start + n))); [lia|].
    replace (start + (i - start + n))%Z with (i + 1 * n)%Z by lia.
    rewrite Z.mod_add; [lia|]. by apply Z.mod_small.
Qed.

Lemma first_unused_some {A} `{Countable A} (c : Z → A) used n x :
  first_unused c used n = Some x → ∃ i, (0 ≤ i < n)%Z ∧ x = c i ∧ x ∉ used.
Proof.
  unfold first_unused. intros (i & Hi & H' & _)%find_range_some.
  case_decide as Hu; [done|]. apply (inj Some) in H' as <-. eauto.
Qed.

Lemma first_unused_none {A} `{Countable A} (c : Z → A) used n :
  first_unused c used n = None → ∀ i, (0 ≤ i < n)%Z → c i ∈ used.
Proof.
  unfold first_unused. intros H' i Hi. apply (find_range_none _ _ _ H' i) in Hi. by case_decide.
Qed.

Lemma choose_token_some id used t :
  choose_token id used = Some t → ∃ a, t = salted_token id a ∧ t ∉ used.
Proof. unfold choose_token. generalize u32_max. intros n (a & _ & H)%first_unused_some. eauto. Qed.

Lemma choose_token_none id used :
  choose_token id used = None → ∀ a, (0 ≤ a < u32_max)%Z → salted_token id a ∈ used.
Proof. unfold choose_token. generalize u32_max. apply first_unused_none. Qed.

Lemma choose_index_some start n used i :
  (0 < n)%Z → choose_index start n used = Some i → (0 ≤ i < n)%Z ∧ i ∉ used.
Proof.
  intros Hn (off & _ & -> & Hu)%first_unused_some. split; [apply Z.mod_pos_bound; lia|done].
Qed.

Lemma choose_index_none start n used :
  (0 < n ≤ 1073741824)%Z → (0 ≤ start < n)%Z → choose_index start n used = None →
  ∀ i, (0 ≤ i < n)%Z → i ∈ used.
Proof.
  intros Hn Hs H i Hi. destruct (probe_offset start n i Hn Hs Hi) as (off & Hoff & <-).
  exact (first_unused_none _ _ _ H off Hoff).
Qed.

(** What the fields of a state are, given where it was allocated. *)
Record state_ok (cidr : Ipv4Cidr) (k : string) (st : SandboxNetworkState) : Prop := {
  st_id : as_str (ns_sandbox_id st) = k;
  st_veth : host_veth st = HOST_VETH_PREFIX ++ token st;
  st_netns : netns_name st = "oad-" ++ token st;
  st_token : String.length (token st) = 10%nat;
  st_addr : nth_30_pair cidr (subnet_index st) = Ok (host_ip st, sandbox_ip st);
  st_index : (0 ≤ subnet_index st)%Z;
}.

Lemma capacity_bounds cidr n : wf_cidr cidr → block_count_30 cidr = Ok n → (0 < n ≤ 1073741824)%Z.
Proof.
  intros Hwf Hn. pose proof (wf_prefix _ Hwf) as Hp.
  apply block_count_30_inv in Hn as [Hle ->]; [|done].
  split; [apply Z.pow_pos_nonneg; lia|].
  change 1073741824%Z with (2 ^ 30)%Z. apply Z.pow_le_mono_r; lia.
Qed.

(** Allocation.  With a configured CIDR of capacity [n], allocation picks
    the first free subnet index from the hash of the id on, and fails exactly
    when all [n] are taken; the addresses are the pair of that index, the token
    is one no other sandbox has, and the interface names fit the kernel's 15
    characters. *)
Theorem allocate_spec (config : NetworkRuntimeConfig) (existing : list SandboxNetworkState)
    (id : SandboxId) (spec : SandboxNetworkSpec) (cidr : Ipv4Cidr) (n : Z) :
  parse_ipv4_cidr (sandbox_cidr config) = Ok cidr → block_count_30 cidr = Ok n →
  match allocate config existing id spec with
  | Ok (Some st) =>
      state_ok cidr (as_str id) st ∧ ns_spec st = spec ∧ prefix_len st = 30%Z ∧
      (subnet_index st < n)%Z ∧
      (∀ s, s ∈ existing → subnet_index s ≠ subnet_index st ∧ token s ≠ token st) ∧
      (String.length (host_veth st) ≤ 15)%nat ∧ (String.length (peer_veth (token st)) ≤ 15)%nat
  | Ok None => ∀ attempt, (0 ≤ attempt < u32_max)%Z →
      ∃ s, s ∈ existing ∧ token s = salted_token id attempt
  | Err e => e = InvalidConfig (NoFreeSubnet (sandbox_cidr config)) ∧
      ∀ i, (0 ≤ i < n)%Z → ∃ s, s ∈ existing ∧ subnet_index s = i
  end.
Proof.
  intros Hc Hn. apply parse_ipv4_cidr_wf in Hc as Hwf. pose proof (capacity_bounds _ _ Hwf Hn) as Hcap.
  unfold allocate. rewrite Hc. cbn [result_bind]. rewrite Hn. cbn [result_bind].
  assert (Hstart : (0 ≤ stable_hash (as_str id) mod n < n)%Z) by (apply Z.mod_pos_bound; lia).
  assert (Hin : ∀ (X : Type) `{Countable X} (g : SandboxNetworkState → X) x,
            x ∈ (list_to_set (map g existing) : gset X) ↔ ∃ s, s ∈ existing ∧ g s = x).
  { intros X ?? g x. rewrite elem_of_list_to_set list_elem_of_fmap. naive_solver. }
  destruct (choose_index _ n _) as [i|] eqn:Ei; cbn [ok_or result_bind].
  2:{ split; [done|]. intros i Hi. apply (Hin Z _ _ subnet_index). exact (choose_index_none _ _ _ Hcap Hstart Ei i Hi). }
  apply choose_index_some in Ei as [Hi Hfree]; [|lia].
  destruct (nth_30_pair_ok cidr n i Hwf Hn Hi) as [Ep _]. rewrite Ep. cbn [result_bind].
  destruct (choose_token _ _) as [t|] eqn:Et.
  2:{ intros a Ha. apply (Hin string _ _ token). exact (choose_token_none _ _ Et a Ha). }
  apply choose_token_some in Et as (a & Ha & Ht).
  assert (Hlen : String.length t = 10%nat) by (rewrite Ha; apply salted_token_length).
  split_and!; [split|..]; simpl; try done; try lia.
  - intros s Hs. split; intros E.
    + apply Hfree, (Hin Z _ _ subnet_index). eauto.
    + apply Ht, (Hin string _ _ token). eauto.
Qed.

Lemma allocate_spec_witness :
  ∃ st, allocate network_runtime_default [] (mkSandboxId "box") network_default = Ok (Some st) ∧
    (String.length (host_veth st) ≤ 15)%nat.
Proof.
  pose proof (allocate_spec network_runtime_default [] (mkSandboxId "box") network_default
    (mkCidr 173670400 16) 16384) as H.
  destruct (allocate _ _ _ _) as [[st|]|e].
  - exists st. split; [done|]. apply H; vm_compute; reflexivity.
  - destruct (H ltac:(vm_compute; reflexivity) ltac:(vm_compute; reflexivity) 0%Z) as (s & Hs & _); [done|].
    by apply not_elem_of_nil in Hs.
  - destruct H as [_ H]; [vm_compute; reflexivity..|]. destruct (H 0%Z) as (s & Hs & _); [done|].
    by apply not_elem_of_nil in Hs.
Defined.

(** ** The invariant of the state files *)

Section invariant.
Context {B : Type} `{!Bytes B, !Env B, !Codec B SandboxNetworkState}.
Implicit Types fs : gmap Path (node B).
Implicit Types w : NetWorld B.
Context (config : NetworkRuntimeConfig) (paths : OadPaths) (envoy_text : result NetworkError B).

Definition net_key (st : SandboxNetworkState) : string := as_str (ns_sandbox_id st).

Notation entry_file := (entry_file paths "network.json").
Notation disk_net := (disk_value paths "network.json").
Notation net_disk_ok := (disk_ok paths "network.json" net_key).
Notation keeps := (keeps_entries (B := B) paths "network.json").

(** Every sandbox has a subnet, addresses, a token and interfaces of its own. *)
Record fleet_ok (cidr : Ipv4Cidr) fs : Prop := {
  fleet_disk : net_disk_ok fs;
  fleet_state k st : disk_net fs k = Some st → state_ok cidr k st;
  fleet_distinct k1 k2 s1 s2 : k1 ≠ k2 → disk_net fs k1 = Some s1 → disk_net fs k2 = Some s2 →
    subnet_index s1 ≠ subnet_index s2 ∧ token s1 ≠ token s2;
}.

Lemma network_json_name : path_name "network.json".
Proof using Type. by split. Qed.

Lemma resolv_conf_name : path_name "resolv.conf".
Proof using Type. by split. Qed.

Lemma envoy_json_name : path_name "envoy.json".
Proof using Type. by split. Qed.

Lemma net_state_entry id : valid_segment (as_str id) → sandbox_network_state paths id = entry_file (as_str id).
Proof using Type. intros H. unfold Entries.entry_file. destruct id as [v]. simpl in *. by simpl_paths. Qed.

Lemma net_resolv_entry id :
  valid_segment (as_str id) →
  sandbox_resolv_conf paths id = (entry_dir paths (as_str id) ++ ["resolv.conf"])%list.
Proof using Type. intros H. unfold Entries.entry_dir. destruct id as [v]. simpl in *. by simpl_paths. Qed.

Lemma network_dir_eq : network_dir paths = (base_dir paths ++ ["network"])%list.
Proof using Type. apply join_valid. solve_segment. Qed.

Lemma network_diverges : diverge (network_dir paths) (sandboxes_dir paths).
Proof using Type.
  rewrite network_dir_eq sandboxes_dir_eq. split; intros [x Hx]; rewrite -app_assoc in Hx;
    apply app_inv_head in Hx; by simplify_eq/=.
Qed.

Lemma fleet_keeps cidr fs fs' : keeps fs fs' → fleet_ok cidr fs → fleet_ok cidr fs'.
Proof using Type.
  intros Hk [H1 H2 H3]. split.
  - eapply keeps_disk_ok; eassumption.
  - intros k st. rewrite (keeps_disk_value _ _ _ _ _ Hk). apply H2.
  - intros k1 k2 s1 s2 Hne. rewrite !(keeps_disk_value _ _ _ _ _ Hk). by apply H3.
Qed.

(** What the manager relies on: the commands it runs leave the state files
    alone, and the directory of the sandboxes can be listed. *)
Context (Heffect : ∀ h c fs, keeps fs (env_effect h c fs)).

(** *** Calls that keep the state files *)

Definition okeeps {E A : Type} (m : M (Os B) E A) : Prop :=
  steps (λ s s', keeps (files s) (files s')) m.
Definition nkeeps {E A : Type} (m : M (NetWorld B) E A) : Prop :=
  steps (λ w w', keeps (files (n_os w)) (files (n_os w'))) m.

#[local] Instance okeeps_preorder : PreOrder (λ s s' : Os B, keeps (files s) (files s')).
Proof using Type. split; [intros s; reflexivity|]. intros s1 s2 s3 H1 H2. etrans; eassumption. Qed.
#[local] Instance nkeeps_preorder :
  PreOrder (λ w w' : NetWorld B, keeps (files (n_os w)) (files (n_os w'))).
Proof using Type. split; [intros s; reflexivity|]. intros s1 s2 s3 H1 H2. etrans; eassumption. Qed.

Lemma triple_okeeps {E A : Type} (m : M (Os B) E A) :
  (∀ fs0, triple (λ fs, fs = fs0) m (λ _ fs, keeps fs0 fs)) → okeeps m.
Proof using Type.
  intros H s. specialize (H (files s) s eq_refl). unfold wp in H. by destruct (m s).
Qed.

Lemma look_okeeps {A : Type} (c : Call B) f : okeeps (look (A := A) c f).
Proof using Type.
  intros s. pose proof (look_readonly c f s) as H. unfold same_files in H. rewrite H. reflexivity.
Qed.

Lemma create_dir_all_okeeps p : (∀ k, ¬ entry_file k `prefix_of` p) → okeeps (create_dir_all p).
Proof using Type.
  intros Hp. apply triple_okeeps. intros fs0. eapply triple_weaken; [apply (create_dir_all_adds fs0 p)|done|].
  intros o fs H. eapply adds_dirs_keeps; [exact H|exact Hp].
Qed.

Lemma run_okeeps program args stdin : okeeps (run_command program args stdin).
Proof using Heffect.
  intros s. unfold run_command. destruct (env_run _ _); simpl; [reflexivity|apply Heffect..].
Qed.

Lemma write_all_okeeps p b : ¬ sandboxes_dir paths `prefix_of` p → okeeps (write_all p b).
Proof using Type.
  intros Hp. apply triple_okeeps. intros fs0. apply triple_sys.
  - intros fs a fs' -> [= _ <-]. by apply insert_keeps.
  - intros fs e ->. reflexivity.
  - intros fs h e ->. by apply insert_keeps.
  - intros fs h ->. by apply insert_keeps.
Qed.

Lemma open_append_okeeps p : ¬ sandboxes_dir paths `prefix_of` p → okeeps (open_append p).
Proof using Type.
  intros Hp. apply triple_okeeps. intros fs0. apply triple_atomic.
  - intros fs a fs' -> E. repeat case_match; simplify_eq; [reflexivity|]. by apply insert_keeps.
  - intros fs e ->. reflexivity.
  - intros fs ->. reflexivity.
Qed.

Lemma on_os_nkeeps {A : Type} (m : M (Os B) IoError A) : okeeps m → nkeeps (on_os m).
Proof using Type. intros H w. unfold on_os, zoom. specialize (H (n_os w)). by destruct (m (n_os w)). Qed.

Lemma net_io_nkeeps {A : Type} (m : M (Os B) IoError A) : okeeps m → nkeeps (net_io m).
Proof using Type. intros H. apply steps_mapE; [apply _|]. by apply on_os_nkeeps. Qed.

Lemma modify_nkeeps {E : Type} (g : NetWorld B → NetWorld B) :
  (∀ w, n_os (g w) = n_os w) → nkeeps (modify g : M _ E ()).
Proof using Type. intros H w. simpl. rewrite H. reflexivity. Qed.

(** One construct of the monad at a time. *)
Ltac keep_step :=
  first
    [ apply steps_ret; apply _ | apply steps_throw; apply _ | apply steps_panic; apply _
    | apply steps_gets; apply _ | apply steps_lift; apply _
    | apply steps_ignore; [apply _|] | apply steps_attempt; [apply _|]
    | apply net_io_nkeeps | apply on_os_nkeeps | apply look_okeeps | apply run_okeeps
    | apply modify_nkeeps; reflexivity
    | apply steps_forM; [apply _|intros] | apply steps_mapM; [apply _|intros]
    | apply steps_bind; [apply _| |intros]
    | case_match ].
Ltac solve_keeps := repeat keep_step.

Lemma net_run_nkeeps program args : nkeeps (net_run program args).
Proof using Heffect. unfold net_run. solve_keeps. Qed.

Lemma run_with_stdin_nkeeps program args stdin : nkeeps (run_with_stdin program args stdin).
Proof using Heffect. unfold run_with_stdin. solve_keeps. Qed.

Lemma command_succeeds_nkeeps program args : nkeeps (command_succeeds program args).
Proof using Heffect. unfold command_succeeds. solve_keeps. Qed.

Lemma iptables_program_nkeeps : nkeeps iptables_program.
Proof using Heffect. unfold iptables_program. repeat first [apply command_succeeds_nkeeps | keep_step]. Qed.

Lemma read_states_nkeeps : nkeeps (read_states paths).
Proof using Type. unfold read_states, read_entry_state, decode_state, read_file, read_dir. solve_keeps. Qed.

Lemma read_state_nkeeps id : nkeeps (read_state paths id).
Proof using Type. unfold read_state, decode_state, read_file. solve_keeps. Qed.

Lemma allocate_state_nkeeps id spec : nkeeps (allocate_state config paths id spec).
Proof using Type. unfold allocate_state. repeat first [apply read_states_nkeeps | keep_step]. Qed.

Ltac run_step := first [ apply net_run_nkeeps | apply command_succeeds_nkeeps | keep_step ].

Lemma netns_dir_okeeps : okeeps (create_dir_all NETNS_DIR).
Proof using Type.
  apply create_dir_all_okeeps. intros k H%prefix_length. rewrite entry_file_length /= in H. lia.
Qed.

Lemma ip_forward_outside : ¬ sandboxes_dir paths `prefix_of` ip_forward.
Proof using Type.
  rewrite sandboxes_dir_eq. intros [x Hx]. rewrite -app_assoc in Hx.
  assert (H : "sandboxes" ∈ ip_forward).
  { rewrite Hx. apply elem_of_app. right. left. }
  revert H. apply (bool_decide_unpack (¬ _)). vm_compute. exact I.
Qed.

Lemma ensure_namespace_nkeeps st : nkeeps (ensure_namespace st).
Proof using Heffect.
  unfold ensure_namespace, ensure_netns, ensure_veth, configure_host_interface,
    configure_sandbox_interface, try_exists.
  repeat first [ apply netns_dir_okeeps | apply write_all_okeeps, ip_forward_outside | run_step ].
Qed.

Lemma apply_shaping_nkeeps st : nkeeps (apply_shaping st).
Proof using Heffect.
  unfold apply_shaping, apply_qdisc_sandbox, apply_qdisc_host, delete_qdisc_sandbox, delete_qdisc_host.
  repeat run_step.
Qed.

Lemma apply_nft_states_nkeeps states : nkeeps (apply_nft_states config states).
Proof using Heffect. unfold apply_nft_states. repeat first [apply run_with_stdin_nkeeps | keep_step]. Qed.

Lemma apply_nft_ruleset_nkeeps : nkeeps (apply_nft_ruleset config paths).
Proof using Heffect.
  unfold apply_nft_ruleset. apply steps_bind; [apply _|apply read_states_nkeeps|].
  intros states. apply apply_nft_states_nkeeps.
Qed.

Lemma ensure_host_firewall_rules_nkeeps st : nkeeps (ensure_host_firewall_rules config st).
Proof using Heffect.
  unfold ensure_host_firewall_rules, ensure_host_firewall_rule.
  repeat first [apply iptables_program_nkeeps | run_step].
Qed.

Lemma delete_host_firewall_rules_nkeeps st : nkeeps (delete_host_firewall_rules config st).
Proof using Heffect.
  unfold delete_host_firewall_rules. repeat first [apply iptables_program_nkeeps | run_step].
Qed.

Lemma network_dir_okeeps : okeeps (create_dir_all (network_dir paths)).
Proof using Type.
  apply create_dir_all_okeeps. intros k H%prefix_length.
  rewrite entry_file_length network_dir_eq length_app /= in H. lia.
Qed.

Lemma in_network_dir (n : string) : ¬ sandboxes_dir paths `prefix_of` (network_dir paths ++ [n])%list.
Proof using Type.
  pose proof (diverge_app (sandboxes_dir paths) (network_dir paths) [] [n]) as H.
  rewrite app_nil_r in H. apply H. destruct network_diverges. by split.
Qed.

Lemma ensure_services_nkeeps : nkeeps (ensure_services config paths envoy_text).
Proof using Heffect.
  unfold ensure_services, ensure_dns_proxy, ensure_envoy, check_addr, bind_socket.
  assert (He : envoy_config paths = (network_dir paths ++ ["envoy.json"])%list).
  { apply join_name, envoy_json_name. }
  assert (Hl : envoy_log paths = (network_dir paths ++ ["envoy.log"])%list).
  { apply join_name. by split. }
  assert (Hw : ∀ body, okeeps (write_atomic_file (envoy_config paths) body)).
  { intros body. rewrite He. apply triple_okeeps. intros fs0.
    apply write_outside_keeps; [apply envoy_json_name|apply network_diverges]. }
  repeat first [ apply network_dir_okeeps | apply Hw
               | apply open_append_okeeps; rewrite Hl; apply in_network_dir | keep_step ].
Qed.

Lemma reconcile_state_nkeeps st : nkeeps (reconcile_state config st).
Proof using Heffect.
  unfold reconcile_state, try_exists.
  repeat first [apply apply_shaping_nkeeps | apply ensure_host_firewall_rules_nkeeps | keep_step].
Qed.

Lemma write_resolv_conf_nkeeps st :
  valid_segment (as_str (ns_sandbox_id st)) → nkeeps (write_resolv_conf paths st).
Proof using Type.
  intros Hid. unfold write_resolv_conf. apply net_io_nkeeps. rewrite net_resolv_entry //.
  apply triple_okeeps. intros fs0. by apply write_sibling_keeps; [..|apply resolv_conf_name|].
Qed.

(** *** What the reads return *)

(** A directory can be listed, and a file that is there is not reported missing. *)
Context (Hlist : ∀ h, env_reply h (CReadDir (sandboxes_dir paths)) = Go).
Context (Hread : ∀ h p, env_reply h (CRead p) ≠ Fail NotFound).

Lemma entry_node fs k : node_at fs (entry_file k) = fs !! entry_file k.
Proof using Type. rewrite entry_file_app. apply node_at_child. Qed.

Lemma read_entry_wp w k :
  wp (on_os (read_file (entry_file k))) (λ o w', files (n_os w') = files (n_os w) ∧
    (∀ b, o = Ret b → files (n_os w) !! entry_file k = Some (File b)) ∧
    (o = Throw NotFound → ∀ b, files (n_os w) !! entry_file k ≠ Some (File b))) w.
Proof using Hread.
  unfold on_os. rewrite wp_zoom. unfold wp, read_file, look, atomic, sys. rewrite entry_node.
  destruct (env_reply _ _) eqn:Er; simpl; [|by split_and!; try done; intros [= ->]; destruct (Hread _ _ Er)|done].
  destruct (files (n_os w) !! entry_file k) as [[b|]|]; simpl; split_and!; naive_solver.
Qed.

Lemma read_state_wp w id :
  valid_segment (as_str id) →
  wp (read_state paths id) (λ o w', files (n_os w') = files (n_os w) ∧
    (∀ st, o = Ret (Some st) → disk_net (files (n_os w)) (as_str id) = Some st)) w.
Proof using Hread.
  intros Hid. unfold read_state. rewrite net_state_entry // wp_bind wp_attempt.
  eapply wp_mono; [apply read_entry_wp|]. intros o w' (Hf & Hb & _).
  destruct o as [b|e|]; simpl; [|case_decide; by split|by split].
  rewrite wp_bind. unfold wp, decode_state, lift_result, disk_value. rewrite (Hb b eq_refl).
  destruct (from_json b) as [st|]; simpl; split; naive_solver.
Qed.

Lemma read_entry_state_wp w name :
  wp (read_entry_state paths name) (λ o w', files (n_os w') = files (n_os w) ∧
    (∀ l st, o = Ret l → disk_net (files (n_os w)) name = Some st → st ∈ l)) w.
Proof using Hread.
  unfold read_entry_state. rewrite entry_join; [apply network_json_name|]. rewrite wp_bind wp_attempt.
  eapply wp_mono; [apply read_entry_wp|]. intros o w' (Hf & Hb & Hnf).
  destruct o as [b|e|]; simpl; [| |by split].
  - rewrite wp_bind. unfold wp, decode_state, lift_result, disk_value. rewrite (Hb b eq_refl).
    destruct (from_json b) as [st|]; simpl; split; try done.
    intros l st' [= <-] [= ->]. by left.
  - case_decide as He; [|by split]. subst e. split; [done|]. intros l st _ Hd. exfalso.
    unfold disk_value in Hd. destruct (_ !! _) as [[b|]|] eqn:E; try done. by apply (Hnf eq_refl b).
Qed.

Lemma read_entries_wp names w :
  wp (mapM_ (read_entry_state paths) names) (λ o w', files (n_os w') = files (n_os w) ∧
    (∀ out name st, o = Ret out → name ∈ names →
       disk_net (files (n_os w)) name = Some st → st ∈ concat out)) w.
Proof using Hread.
  revert w. induction names as [|n names IH]; intros w; simpl.
  { split; [done|]. intros out name st _ H. by apply not_elem_of_nil in H. }
  rewrite wp_bind. eapply wp_mono; [apply read_entry_state_wp|]. intros o w1 [F1 H1].
  destruct o as [l|e|]; simpl; [|by split..].
  rewrite wp_bind. eapply wp_mono; [apply IH|]. intros o w2 [F2 H2].
  destruct o as [ls|e|]; simpl; [|split; [congruence|done]..].
  split; [simpl; congruence|]. intros out name st [= <-] Hin Hd. simpl. apply elem_of_app.
  apply elem_of_cons in Hin as [->|Hin]; [left; by eapply H1|right].
  eapply H2; [done|exact Hin|by rewrite F1].
Qed.

Lemma read_states_wp w :
  net_disk_ok (files (n_os w)) →
  wp (read_states paths) (λ o w', files (n_os w') = files (n_os w) ∧
    (∀ out k st, o = Ret out → disk_net (files (n_os w)) k = Some st → st ∈ out)) w.
Proof using Hread Hlist.
  intros Hok. unfold read_states. rewrite wp_bind wp_attempt.
  unfold net_io at 1. rewrite wp_mapE. unfold on_os at 1. rewrite wp_zoom.
  unfold wp at 1, read_dir, look, atomic, sys. rewrite Hlist (disk_root _ _ _ _ Hok). simpl.
  rewrite wp_bind. eapply wp_mono; [apply read_entries_wp|]. intros o w' [Hf H]. simpl in *.
  destruct o as [outs|e|]; simpl; [|by split..].
  split; [done|]. intros out k st [= <-] Hd. eapply H; [done| |exact Hd].
  apply children_elem, (disk_dirs _ _ _ _ Hok). unfold disk_value in Hd. by destruct (_ !! _).
Qed.

(** *** The operations keep the invariant *)

(** A state that [id] may be given. *)
Definition candidate (cidr : Ipv4Cidr) fs (k : string) (st : SandboxNetworkState) : Prop :=
  state_ok cidr k st ∧
  ∀ k' s, k' ≠ k → disk_net fs k' = Some s → subnet_index s ≠ subnet_index st ∧ token s ≠ token st.

Lemma allocate_state_wp w id spec cidr n :
  parse_ipv4_cidr (sandbox_cidr config) = Ok cidr → block_count_30 cidr = Ok n →
  net_disk_ok (files (n_os w)) →
  wp (allocate_state config paths id spec) (λ o w', files (n_os w') = files (n_os w) ∧
    ∀ st, o = Ret st → candidate cidr (files (n_os w)) (as_str id) st) w.
Proof using Hread Hlist.
  intros Hc Hn Hok. unfold allocate_state. rewrite wp_bind. unfold wp at 1, lift_result at 1.
  rewrite Hc /= Hn wp_bind. eapply wp_mono; [by apply read_states_wp|]. intros o w1 [F1 H1].
  destruct o as [existing|e|]; simpl; [|by split..].
  rewrite wp_bind. unfold wp at 1, lift_result at 1.
  pose proof (allocate_spec config existing id spec cidr n Hc Hn) as Hspec.
  destruct (allocate config existing id spec) as [[st|]|e]; simpl; [|by split..].
  split; [done|]. intros st' [= <-]. destruct Hspec as (Hst & _ & _ & _ & Hd & _).
  split; [done|]. intros k' s _ Hs. apply Hd. eapply H1; [reflexivity|exact Hs].
Qed.

Lemma candidate_on_disk cidr fs k st :
  fleet_ok cidr fs → disk_net fs k = Some st → candidate cidr fs k st.
Proof using Type.
  intros [_ H1 H2] Hd. split; [by apply H1|]. intros k' s Hne Hs. by apply (H2 k' k).
Qed.

Lemma candidate_spec cidr fs k st spec : candidate cidr fs k st → candidate cidr fs k (with_spec spec st).
Proof using Type. by intros [[] H]. Qed.

Lemma write_state_fleet w cidr st :
  valid_segment (net_key st) → fleet_ok cidr (files (n_os w)) →
  candidate cidr (files (n_os w)) (net_key st) st →
  wp (write_state paths st) (λ _ w', fleet_ok cidr (files (n_os w'))) w.
Proof using Type.
  intros Hid [H1 H2 H3] [Hst Hc]. unfold write_state, net_io, on_os. rewrite wp_mapE wp_zoom.
  rewrite net_state_entry //. unfold write_json_atomic.
  eapply wp_mono; [apply (write_entry_disk paths "network.json" net_key network_json_name eq_refl st
    (files (n_os w)) H1); done|].
  intros o t (Hok & Hoth & Hself).
  assert (Hself' : ∀ s, disk_net (files t) (net_key st) = Some s →
             s = st ∨ disk_net (files (n_os w)) (net_key st) = Some s).
  { destruct Hself as [[-> _]| ->]; [by right|]. intros s [= <-]. by left. }
  assert (fleet_ok cidr (files t)) as Hfl; [|by destruct o].
  split; [done|..].
  - intros k s. destruct (decide (k = net_key st)) as [->|Hne]; [|rewrite Hoth //; by apply H2].
    intros [->|Hs]%Hself'; [done|by apply H2].
  - intros k1 k2 s1 s2 Hne.
    destruct (decide (k1 = net_key st)) as [->|Hn1], (decide (k2 = net_key st)) as [->|Hn2]; [done|..].
    + rewrite (Hoth k2) //. intros [->|Hs1]%Hself' Hs2; [|by apply (H3 (net_key st) k2)].
      destruct (Hc k2 s2); [done..|]. split; by apply not_eq_sym.
    + rewrite (Hoth k1) //. intros Hs1 [->|Hs2]%Hself'; [by apply (Hc k1)|by apply (H3 k1 (net_key st))].
    + rewrite (Hoth k1) // (Hoth k2) //. by apply H3.
Qed.

Lemma fleet_bind {E A A' : Type} (m : M (NetWorld B) E A) (k : A → M (NetWorld B) E A') cidr w :
  nkeeps m → fleet_ok cidr (files (n_os w)) →
  (∀ a w', fleet_ok cidr (files (n_os w')) → wp (k a) (λ _ w', fleet_ok cidr (files (n_os w'))) w') →
  wp (m ≫= k) (λ _ w', fleet_ok cidr (files (n_os w'))) w.
Proof using Type.
  intros Hm Hw Hk. rewrite wp_bind. eapply wp_mono; [exact (steps_wp _ _ w Hm)|].
  intros o w' H. pose proof (fleet_keeps cidr _ _ H Hw). destruct o; auto.
Qed.

Lemma fleet_steps {E A : Type} (m : M (NetWorld B) E A) cidr w :
  nkeeps m → fleet_ok cidr (files (n_os w)) → wp m (λ _ w', fleet_ok cidr (files (n_os w'))) w.
Proof using Type.
  intros Hm Hw. eapply wp_mono; [exact (steps_wp _ _ w Hm)|]. intros o w' H. exact (fleet_keeps cidr _ _ H Hw).
Qed.

Context (cidr : Ipv4Cidr) (n : Z).
Context (Hcidr : parse_ipv4_cidr (sandbox_cidr config) = Ok cidr).
Context (Hcap : block_count_30 cidr = Ok n).

Lemma reconcile_sandbox_fleet w id spec :
  valid_segment (as_str id) → fleet_ok cidr (files (n_os w)) →
  wp (reconcile_sandbox config paths envoy_text id spec) (λ _ w', fleet_ok cidr (files (n_os w'))) w.
Proof using All.
  intros Hid Hw. unfold reconcile_sandbox. destruct (negb _); [done|].
  apply fleet_bind; [apply steps_lift, _|done|]. intros _ w1 Hw1.
  apply fleet_bind; [apply ensure_services_nkeeps|done|]. intros _ w2 Hw2.
  rewrite wp_bind. eapply wp_mono; [by apply read_state_wp|]. intros o w3 [F3 H3].
  assert (Hw3 : fleet_ok cidr (files (n_os w3))) by by rewrite F3.
  destruct o as [found|e|]; [|done..].
  rewrite wp_bind.
  assert (Hcand : wp (match found with
      | Some state => mret (with_spec spec state) | None => allocate_state config paths id spec end)
    (λ o w', fleet_ok cidr (files (n_os w')) ∧
      ∀ st, o = Ret st → candidate cidr (files (n_os w')) (as_str id) st) w3).
  { destruct found as [st|].
    - apply wp_ret. split; [done|]. intros st' [= <-]. apply candidate_spec, candidate_on_disk; [done|].
      rewrite F3. by apply H3.
    - eapply wp_mono; [apply (allocate_state_wp w3 id spec cidr n Hcidr Hcap), Hw3|].
      intros o w4 [F4 H4]. rewrite F4. by split. }
  eapply wp_mono; [exact Hcand|]. intros o w4 [Hw4 H4].
  destruct o as [st|e|]; [|done..].
  pose proof (candidate_spec _ _ _ _ spec (H4 st eq_refl)) as Hst.
  assert (Hkey : net_key (with_spec spec st) = as_str id) by apply (st_id _ _ _ (proj1 Hst)).
  assert (Hvid : valid_segment (as_str (ns_sandbox_id (with_spec spec st)))).
  { change (valid_segment (net_key (with_spec spec st))). by rewrite Hkey. }
  rewrite wp_bind. eapply wp_mono; [apply (write_state_fleet w4 cidr (with_spec spec st))|]; [done..| |].
  { by rewrite Hkey. }
  intros o w5 Hw5. destruct o as [[]|e|]; [|done..].
  apply fleet_bind; [by apply modify_nkeeps|done|]. intros _ w6 Hw6.
  apply fleet_bind; [by apply write_resolv_conf_nkeeps|done|]. intros _ w7 Hw7.
  apply fleet_bind; [apply ensure_namespace_nkeeps|done|]. intros _ w8 Hw8.
  apply fleet_bind; [apply apply_shaping_nkeeps|done|]. intros _ w9 Hw9.
  apply fleet_bind; [apply apply_nft_ruleset_nkeeps|done|]. intros _ w10 Hw10.
  apply fleet_bind; [apply ensure_host_firewall_rules_nkeeps|done|]. intros _ w11 Hw11. done.
Qed.

Lemma reconcile_all_fleet w :
  fleet_ok cidr (files (n_os w)) →
  wp (reconcile_all config paths envoy_text) (λ _ w', fleet_ok cidr (files (n_os w'))) w.
Proof using Heffect.
  intros Hw. apply fleet_steps; [|done]. unfold reconcile_all.
  repeat first [ apply ensure_services_nkeeps | apply read_states_nkeeps | apply reconcile_state_nkeeps
               | apply apply_nft_states_nkeeps | keep_step ].
Qed.

Lemma delete_key_fleet fs k :
  fleet_ok cidr fs → fleet_ok cidr (delete (entry_file k) fs).
Proof using Type.
  intros [[R D I] H2 H3].
  assert (Hv : ∀ k', disk_net (delete (entry_file k) fs) k' = if decide (k' = k) then None else disk_net fs k').
  { intros k'. unfold disk_value. case_decide as E; [subst; by rewrite lookup_delete_eq|].
    rewrite lookup_delete_ne //. intros Heq. unfold Entries.entry_file in Heq.
    apply app_inv_head in Heq. by simplify_eq/=. }
  assert (Hlen : ∀ p : Path, length p < length (entry_file k) → delete (entry_file k) fs !! p = fs !! p).
  { intros p Hl. rewrite lookup_delete_ne //. intros <-. lia. }
  split; [split|..].
  - rewrite root_node in R. rewrite root_node Hlen; [|done].
    rewrite entry_file_length sandboxes_dir_eq length_app /=. lia.
  - intros k'. rewrite (Hlen (entry_dir paths k')).
    { rewrite entry_file_length. unfold entry_dir. rewrite sandboxes_dir_eq !length_app /=. lia. }
    intros [x Hx]. apply D. apply lookup_delete_Some in Hx as [_ Hx]. eauto.
  - intros k' v. rewrite Hv. case_decide; [done|apply I].
  - intros k' st. rewrite Hv. case_decide; [done|apply H2].
  - intros k1 k2 s1 s2 Hne. rewrite !Hv. do 2 case_decide; try done. by apply H3.
Qed.

Lemma remove_state_fleet w k :
  fleet_ok cidr (files (n_os w)) →
  wp (on_os (remove_file (entry_file k))) (λ _ w', fleet_ok cidr (files (n_os w'))) w.
Proof using Type.
  intros Hw. unfold on_os. rewrite wp_zoom. apply wp_sys; [|done..].
  intros a fs E. simpl. rewrite entry_node in E. destruct (_ !! _) as [[|]|]; simplify_eq.
  by apply delete_key_fleet.
Qed.

Lemma delete_sandbox_fleet w id :
  valid_segment (as_str id) → fleet_ok cidr (files (n_os w)) →
  wp (Network.delete_sandbox config paths id) (λ _ w', fleet_ok cidr (files (n_os w'))) w.
Proof using Heffect.
  intros Hid Hw. unfold Network.delete_sandbox. destruct (negb _); [done|].
  apply fleet_bind; [apply read_state_nkeeps|done|]. intros found w1 Hw1.
  destruct found as [st|]; [|apply fleet_steps; [apply apply_nft_ruleset_nkeeps|done]].
  unfold delete_qdisc_host, delete_qdisc_sandbox.
  apply fleet_bind; [apply steps_ignore, delete_host_firewall_rules_nkeeps; apply _|done|]. intros _ w2 Hw2.
  do 4 (apply fleet_bind; [apply steps_ignore, net_run_nkeeps; apply _|done|];
        let w' := fresh "w" in let H := fresh "Hw" in intros _ w' H).
  apply fleet_bind; [by apply modify_nkeeps|done|]. intros _ w7 Hw7.
  rewrite net_state_entry // wp_bind wp_attempt.
  eapply wp_mono; [by apply remove_state_fleet|]. intros o w8 Hw8.
  destruct o as [[]|e|]; [by apply fleet_steps; [apply apply_nft_ruleset_nkeeps|]| |done].
  case_decide; [by apply fleet_steps; [apply apply_nft_ruleset_nkeeps|]|done].
Qed.
End invariant.

(** ** Every reachable state *)

Inductive NetOp : Type :=
| OpReconcile (id : SandboxId) (spec : SandboxNetworkSpec)
| OpReconcileAll
| OpDelete (id : SandboxId).

Definition op_valid (op : NetOp) : Prop :=
  match op with
  | OpReconcile id _ | OpDelete id => valid_segment (as_str id)
  | OpReconcileAll => True
  end.

Section reachable.
Context {B : Type} `{!Bytes B, !Env B, !Codec B SandboxNetworkState}.
Context (config : NetworkRuntimeConfig) (paths : OadPaths) (envoy_text : result NetworkError B).

Definition run_op (op : NetOp) : M (NetWorld B) NetworkError () :=
  match op with
  | OpReconcile id spec => reconcile_sandbox config paths envoy_text id spec ;; mret tt
  | OpReconcileAll => reconcile_all config paths envoy_text
  | OpDelete id => Network.delete_sandbox config paths id
  end.

(** An operation runs to whatever end, or the daemon restarts with its memory
    lost. *)
Inductive net_step (w : NetWorld B) : NetWorld B → Prop :=
| step_op op : op_valid op → net_step w (run_op op w).2
| step_restart : net_step w (mkNetWorld (n_os w) ∅ false false).
End reachable.

Lemma state_pairs_apart cidr n k1 k2 s1 s2 :
  wf_cidr cidr → block_count_30 cidr = Ok n →
  state_ok cidr k1 s1 → state_ok cidr k2 s2 → subnet_index s1 ≠ subnet_index s2 →
  ∀ a, ¬ ((host_ip s1 - 1 ≤ a ≤ sandbox_ip s1 + 1)%Z ∧ (host_ip s2 - 1 ≤ a ≤ sandbox_ip s2 + 1)%Z).
Proof.
  intros Hwf Hn [_ _ _ _ A1 I1] [_ _ _ _ A2 I2] Hne a.
  assert (Hpair : ∀ s, nth_30_pair cidr (subnet_index s) = Ok (host_ip s, sandbox_ip s) →
            (0 ≤ subnet_index s)%Z →
            host_ip s = (network cidr + 4 * subnet_index s + 1)%Z ∧ sandbox_ip s = (host_ip s + 1)%Z).
  { intros s As Is. assert (Hlt : (subnet_index s < n)%Z).
    { unfold nth_30_pair in As. rewrite Hn /= in As. destruct (Z.leb_spec n (subnet_index s)); [done|lia]. }
    destruct (nth_30_pair_ok cidr n (subnet_index s) Hwf Hn) as [E _]; [lia|].
    rewrite E in As. injection As as <- <-. lia. }
  destruct (Hpair s1 A1 I1) as [-> ->], (Hpair s2 A2 I2) as [-> ->]. lia.
Qed.

(** C29. No two sandboxes share a network as long as the state files can be listed
    and those that are there found.  Whatever sequence of operations and restarts
    the daemon goes through, with commands and all other file operations failing
    or the daemon dying anywhere: the state files of two sandboxes name different
    interfaces and namespaces and disjoint address blocks.  (What is relied on:
    the commands do not touch the state files, the directory of the sandboxes can
    be listed, and an existing file is not reported missing; where the listing
    fails two sandboxes can share a block, [unlisted_directory_shares_subnet].) *)
Theorem networks_stay_apart {B} `{!Bytes B, !Env B, !Codec B SandboxNetworkState}
    (config : NetworkRuntimeConfig) (paths : OadPaths) (envoy_text : result NetworkError B)
    (cidr : Ipv4Cidr) (n : Z) (w w' : NetWorld B) :
  (∀ h c fs, keeps_entries paths "network.json" fs (env_effect h c fs)) →
  (∀ h, env_reply h (CReadDir (sandboxes_dir paths)) = Go) →
  (∀ h p, env_reply h (CRead p) ≠ Fail NotFound) →
  parse_ipv4_cidr (sandbox_cidr config) = Ok cidr → block_count_30 cidr = Ok n →
  fleet_ok paths cidr (files (n_os w)) →
  rtc (net_step config paths envoy_text) w w' →
  ∀ k1 k2 s1 s2, k1 ≠ k2 →
    disk_value paths "network.json" (files (n_os w')) k1 = Some s1 →
    disk_value paths "network.json" (files (n_os w')) k2 = Some s2 →
    host_veth s1 ≠ host_veth s2 ∧ netns_name s1 ≠ netns_name s2 ∧
    ∀ a, ¬ ((host_ip s1 - 1 ≤ a ≤ sandbox_ip s1 + 1)%Z ∧ (host_ip s2 - 1 ≤ a ≤ sandbox_ip s2 + 1)%Z).
Proof.
  intros Heff Hlist Hread Hc Hn Hw Hrtc.
  assert (Hw' : fleet_ok paths cidr (files (n_os w'))).
  { revert Hw. induction Hrtc as [w|w1 w2 w3 Hstep _ IH]; [done|]. intros Hw. apply IH.
    destruct Hstep as [[id spec| |id] Hop|]; [..|done].
    - pose proof (reconcile_sandbox_fleet config paths envoy_text Heff Hlist Hread cidr n Hc Hn w1 id spec Hop Hw) as H.
      unfold wp in H. simpl. unfold mbind, M_bind.
      by destruct (reconcile_sandbox _ _ _ _ _ w1) as [[]].
    - pose proof (reconcile_all_fleet config paths envoy_text Heff cidr w1 Hw) as H.
      unfold wp in H. simpl. by destruct (reconcile_all _ _ _ w1).
    - pose proof (delete_sandbox_fleet config paths Heff cidr w1 id Hop Hw) as H.
      unfold wp in H. simpl. by destruct (Network.delete_sandbox _ _ _ w1). }
  intros k1 k2 s1 s2 Hne H1 H2. destruct Hw' as [_ Hst Hd].
  destruct (Hd k1 k2 s1 s2 Hne H1 H2) as [Hi Ht].
  pose proof (Hst k1 s1 H1) as O1. pose proof (Hst k2 s2 H2) as O2. split_and!.
  - rewrite (st_veth _ _ _ O1) (st_veth _ _ _ O2). by intros E%app_inj_l_s.
  - rewrite (st_netns _ _ _ O1) (st_netns _ _ _ O2). by intros E%app_inj_l_s.
  - exact (state_pairs_apart cidr n k1 k2 s1 s2 (parse_ipv4_cidr_wf _ _ Hc) Hn O1 O2 Hi).
Qed.

(** ** A run *)

Definition demo_net_world : NetWorld (string + SandboxNetworkState) :=
  mkNetWorld (mkOs {[ ["srv"] := Dir; ["srv"; "sandboxes"] := Dir ]} [] 0) ∅ false false.

Lemma demo_fleet cidr : fleet_ok (B := string + SandboxNetworkState) demo_paths cidr (files (n_os demo_net_world)).
Proof.
  assert (H : ∀ k, files (n_os demo_net_world) !! entry_file demo_paths "network.json" k = None).
  { intros k. unfold entry_file. change (sandboxes_dir demo_paths) with ["srv"; "sandboxes"].
    simpl. rewrite !lookup_insert !lookup_empty. by repeat case_decide. }
  split; [split|..].
  - reflexivity.
  - intros k. rewrite H. by intros [? ?].
  - intros k v. unfold disk_value. by rewrite H.
  - intros k v. unfold disk_value. by rewrite H.
  - intros k1 k2 s1 s2 _. unfold disk_value. by rewrite H.
Qed.

(** Reconciles sandboxes one after the other. *)
Definition run_ops (Env0 : Env (string + SandboxNetworkState)) (config : NetworkRuntimeConfig)
    (ids : list string) (w : NetWorld (string + SandboxNetworkState)) : NetWorld (string + SandboxNetworkState) :=
  foldl (λ w v, (run_op config demo_paths (Ok (text "")) (OpReconcile (mkSandboxId v) network_default) w).2) w ids.

Lemma networks_stay_apart_witness :
  let w' := run_ops quiet_env network_runtime_default ["a"; "b"] demo_net_world in
  ∃ s1 s2, disk_value demo_paths "network.json" (files (n_os w')) "a" = Some s1 ∧
    disk_value demo_paths "network.json" (files (n_os w')) "b" = Some s2 ∧ host_veth s1 ≠ host_veth s2.
Proof.
  intros w'.
  assert (E1 : ∃ s, disk_value demo_paths "network.json" (files (n_os w')) "a" = Some s)
    by (vm_compute; eexists; reflexivity).
  assert (E2 : ∃ s, disk_value demo_paths "network.json" (files (n_os w')) "b" = Some s)
    by (vm_compute; eexists; reflexivity).
  destruct E1 as [s1 E1], E2 as [s2 E2]. exists s1, s2. split; [exact E1|]. split; [exact E2|].
  refine (proj1 (networks_stay_apart (Env0 := quiet_env) network_runtime_default demo_paths (Ok (text ""))
    (mkCidr 173670400 16) 16384 demo_net_world w' _ _ _ _ _ _ _ "a" "b" s1 s2 _ E1 E2)).
  - intros h c fs. reflexivity.
  - reflexivity.
  - discriminate.
  - vm_compute. reflexivity.
  - vm_compute. reflexivity.
  - apply demo_fleet.
  - eapply rtc_l; [exact (step_op _ _ _ demo_net_world (OpReconcile (mkSandboxId "a") network_default)
      (valid_segment_literal "a" eq_refl))|].
    eapply rtc_l; [exact (step_op _ _ _ _ (OpReconcile (mkSandboxId "b") network_default)
      (valid_segment_literal "b" eq_refl))|]. apply rtc_refl.
  - intros E. discriminate E.
Defined.

(** When the directory cannot be listed, [read_states] answers that there are no
    sandboxes, and a /30 with room for one sandbox is given to two. *)
Example unlisted_directory_shares_subnet :
  let config := mkNetworkRuntimeConfig true Netstack "10.0.0.0/30" "0.0.0.0:15001" "0.0.0.0:15053" "1.1.1.1:53" in
  let unlisted : Env (string + SandboxNetworkState) := {|
    env_reply _ c := match c with CReadDir _ => Fail (IoOther "too many open files") | _ => Go end;
    env_partial _ := inl ""; env_survives _ _ := true; env_run _ _ := Exited true (Some 0%Z) "" "";
    env_alive _ := true; env_effect _ _ fs := fs; env_pid := 1%Z; env_nanos _ := 1%Z; env_tempfile _ := "t" |} in
  let addresses w := map (λ k, sandbox_ip <$> disk_value demo_paths "network.json" (files (n_os w)) k) ["a"; "b"] in
  addresses (run_ops quiet_env config ["a"; "b"] demo_net_world) = [Some 167772162%Z; None] ∧
  addresses (run_ops unlisted config ["a"; "b"] demo_net_world) = [Some 167772162%Z; Some 167772162%Z].
Proof. vm_compute. split; reflexivity. Qed.
