(* ===== verification/Observability.v ===== *)
(** * Egress observability (crates/oad/src/observability.rs)

    Envoy streams an entry for each connection of a sandbox that ended; each
    becomes a span of the sandbox and one of the connection below it. The messages
    are those of proto/envoy/service/accesslog/v3/als.proto, decoded by tonic; the
    exporter is that of OpenTelemetry. *)
From S2P Require Import Prelude Str Core Effect Os.

(** ** Messages *)

(** A timestamp or a duration: 64-bit seconds and 32-bit nanoseconds, as sent. *)
Record ProtoTime : Type := mkProtoTime { pt_seconds : Z; pt_nanos : Z }.

Record SocketAddress : Type := mkSocketAddress { sa_address : string; sa_port : option Z }.

Record ResponseFlags : Type := mkFlags {
  failed_local_healthcheck : bool; no_healthy_upstream : bool; upstream_request_timeout : bool; local_reset : bool;
  upstream_remote_reset : bool; upstream_connection_failure : bool; upstream_connection_termination : bool; upstream_overflow : bool;
  no_route_found : bool; delay_injected : bool; fault_injected : bool; rate_limited : bool; rate_limit_service_error : bool;
  downstream_connection_termination : bool; upstream_retry_limit_exceeded : bool; stream_idle_timeout : bool;
  invalid_envoy_request_headers : bool; downstream_protocol_error : bool; upstream_max_stream_duration_reached : bool;
  response_from_cache_filter : bool; no_filter_config_found : bool; duration_timeout : bool; upstream_protocol_error : bool;
  no_cluster_found : bool; overload_manager : bool; dns_resolution_failure : bool; downstream_remote_reset : bool;
}.

(** An address is absent, of another kind, or that of a socket. *)
Record AccessLogCommon : Type := mkCommon {
  downstream_remote_address : option (option SocketAddress);
  tls_sni_hostname : option string;
  start_time : option ProtoTime;
  time_to_last_downstream_tx_byte : option ProtoTime;
  upstream_remote_address : option (option SocketAddress);
  response_flags : option ResponseFlags;
  upstream_transport_failure_reason : string;
  duration : option ProtoTime;
}.

Record ConnectionProperties : Type := mkConnection { received_bytes : Z; sent_bytes : Z }.
Record HttpRequestProperties : Type := mkHttpRequest { request_method : Z; scheme : string; path : string; user_agent : string }.

Record TcpAccessLogEntry : Type := mkTcp { tcp_common : option AccessLogCommon; connection_properties : option ConnectionProperties }.
Record HttpAccessLogEntry : Type := mkHttp {
  http_common : option AccessLogCommon; request : option HttpRequestProperties; response_code : option (option Z);
}.

Inductive LogEntries : Type := HttpLogs (l : list HttpAccessLogEntry) | TcpLogs (l : list TcpAccessLogEntry).

(** ** Time

    A [SystemTime] is its nanoseconds since the epoch, of which the whole seconds
    are a signed 64-bit integer; a [Duration] is not negative. *)
Definition NANOS : Z := 1000000000.
Definition in_time (t : Z) : bool := (- 2 ^ 63 <=? t / NANOS)%Z && (t / NANOS <? 2 ^ 63)%Z.
Definition checked_time (t : Z) : option Z := if in_time t then Some t else None.

Inductive TimeField : Type := Valid (t : Z) | Missing | Invalid.

Definition proto_ok (p : ProtoTime) : bool := negb ((pt_seconds p <? 0)%Z || negb ((0 <=? pt_nanos p)%Z && (pt_nanos p <=? 999999999)%Z)).
Definition proto_nanos (p : ProtoTime) : Z := (pt_seconds p * NANOS + pt_nanos p)%Z.

Definition start_time_from_proto (timestamp : option ProtoTime) : TimeField :=
  match timestamp with
  | None => Missing
  | Some p =>
      if (pt_seconds p =? 0)%Z && (pt_nanos p =? 0)%Z then Missing
      else if negb (proto_ok p) then Invalid
      else match checked_time (proto_nanos p) with Some t => Valid t | None => Invalid end
  end.

Definition duration_from_proto (d : option ProtoTime) : TimeField :=
  match d with None => Missing | Some p => if proto_ok p then Valid (proto_nanos p) else Invalid end.

Definition span_duration_from_proto (common : AccessLogCommon) : TimeField :=
  match duration_from_proto (duration common), duration_from_proto (time_to_last_downstream_tx_byte common) with
  | Valid d, _ => Valid d
  | _, Valid d => Valid d
  | Invalid, _ | _, Invalid => Invalid
  | Missing, Missing => Missing
  end.

Definition end_at_or_after_start (start_time observed_at : Z) : Z := if (start_time <=? observed_at)%Z then observed_at else start_time.

Definition resolve_span_timing_at (common : AccessLogCommon) (observed_at : Z) : Z * Z :=
  match start_time_from_proto (start_time common), span_duration_from_proto common with
  | Valid start, Valid d => (start, default (end_at_or_after_start start observed_at) (checked_time (start + d)))
  | Valid start, _ => (start, end_at_or_after_start start observed_at)
  | _, Valid d => (default observed_at (checked_time (observed_at - d)), observed_at)
  | _, _ => (observed_at, observed_at)
  end.

(** ** Text *)

Definition clean_envoy_value (value : string) : option string :=
  let value := trim value in if decide (value = "" ∨ value = "-") then None else Some value.

Definition to_u16 (n : Z) : option Z := if (n <=? u16_max)%Z then Some n else None.

Definition socket_endpoint (a : SocketAddress) : option string * option Z := (clean_envoy_value (sa_address a), sa_port a ≫= to_u16).

Definition address_endpoint (address : option (option SocketAddress)) : option string * option Z :=
  match address with Some (Some a) => socket_endpoint a | _ => (None, None) end.

Definition FLAGS : list ((ResponseFlags → bool) * string) :=
  [(failed_local_healthcheck, "failed_local_healthcheck"); (no_healthy_upstream, "no_healthy_upstream");
   (upstream_request_timeout, "upstream_request_timeout"); (local_reset, "local_reset"); (upstream_remote_reset, "upstream_remote_reset");
   (upstream_connection_failure, "upstream_connection_failure"); (upstream_connection_termination, "upstream_connection_termination");
   (upstream_overflow, "upstream_overflow"); (no_route_found, "no_route_found"); (delay_injected, "delay_injected");
   (fault_injected, "fault_injected"); (rate_limited, "rate_limited"); (rate_limit_service_error, "rate_limit_service_error");
   (downstream_connection_termination, "downstream_connection_termination"); (upstream_retry_limit_exceeded, "upstream_retry_limit_exceeded");
   (stream_idle_timeout, "stream_idle_timeout"); (invalid_envoy_request_headers, "invalid_envoy_request_headers");
   (downstream_protocol_error, "downstream_protocol_error"); (upstream_max_stream_duration_reached, "upstream_max_stream_duration_reached");
   (response_from_cache_filter, "response_from_cache_filter"); (no_filter_config_found, "no_filter_config_found");
   (duration_timeout, "duration_timeout"); (upstream_protocol_error, "upstream_protocol_error"); (no_cluster_found, "no_cluster_found");
   (overload_manager, "overload_manager"); (dns_resolution_failure, "dns_resolution_failure"); (downstream_remote_reset, "downstream_remote_reset")].

Definition response_flag_names (flags : ResponseFlags) : list string := map snd (filter (λ p, p.1 flags = true) FLAGS).

Definition envoy_reason_suffix (common : AccessLogCommon) : string :=
  let flags := match response_flags common with Some f => response_flag_names f | None => [] end in
  match flags with [] => "" | _ => " flags=" ++ str_join "," flags end ++
  match clean_envoy_value (upstream_transport_failure_reason common) with Some failure => " failure=" ++ failure | None => "" end.

Inductive SpanStatus : Type := Unset | StatusError (description : string).

Definition envoy_reason_and_status (prefix : string) (common : AccessLogCommon) : string * SpanStatus :=
  let suffix := envoy_reason_suffix common in
  let trimmed := trim suffix in
  (prefix ++ suffix, if decide (trimmed = "") then Unset else StatusError trimmed).

Definition envoy_tls_sni (common : AccessLogCommon) : option string := tls_sni_hostname common ≫= clean_envoy_value.

Definition http_method (r : HttpRequestProperties) : option string :=
  match request_method r with
  | 1 => Some "GET" | 2 => Some "HEAD" | 3 => Some "POST" | 4 => Some "PUT" | 5 => Some "DELETE"
  | 6 => Some "CONNECT" | 7 => Some "OPTIONS" | 8 => Some "TRACE" | 9 => Some "PATCH" | _ => None
  end%Z.

Definition http_status (code : option Z) : option Z := code ≫= to_u16.

(** ** Spans *)

Inductive AttrValue : Type := AText (s : string) | AInt (n : Z).
Notation KeyValue := (string * AttrValue)%type.

Record EgressSpan : Type := mkSpan { es_name : string; es_start : Z; es_end : Z; es_attributes : list KeyValue; es_status : SpanStatus }.
Record EgressTrace : Type := mkTrace { sandbox : EgressSpan; egress : EgressSpan }.

Record EgressBase : Type := mkBase {
  sandbox_id : string; src_ip : string; dst_ip : option string; dst_port : option Z; eb_start : Z; eb_end : Z; tls_sni : option string;
}.

(** The addresses of sandboxes, as the network manager keeps them. *)
Definition resolve_egress_base (ip_map : gmap Z SandboxId) (observed_at : Z) (common : AccessLogCommon) : option EgressBase :=
  src ← (address_endpoint (downstream_remote_address common)).1;
  let '(dst, port) := address_endpoint (upstream_remote_address common) in
  let id := match parse_ipv4 src with Some ip => match ip_map !! ip with Some id => as_str id | None => src end | None => src end in
  let '(start, stop) := resolve_span_timing_at common observed_at in
  Some (mkBase id src dst port start stop (envoy_tls_sni common)).

Definition field_text (k : string) (v : option string) : list KeyValue := match v with Some s => [(k, AText s)] | None => [] end.
Definition field_int (k : string) (v : option Z) : list KeyValue := match v with Some n => [(k, AInt n)] | None => [] end.

Definition sandbox_span_attributes (b : EgressBase) : list KeyValue := [("sandbox.id", AText (sandbox_id b)); ("client.address", AText (src_ip b))].

Definition push_base_attributes (b : EgressBase) : list KeyValue :=
  (sandbox_span_attributes b ++ [("network.transport", AText "tcp")] ++ field_text "server.address" (dst_ip b) ++
   field_int "server.port" (dst_port b) ++ field_text "tls.server.name" (tls_sni b))%list.

(** Counts of bytes are cut to what an attribute holds. *)
Definition i64_max : Z := 2 ^ 63 - 1.
Definition to_i64 (n : Z) : Z := Z.min n i64_max.

Definition tcp_attributes (e : TcpAccessLogEntry) : list KeyValue :=
  match connection_properties e with
  | Some c => [("egress.sent_bytes", AInt (to_i64 (received_bytes c))); ("egress.received_bytes", AInt (to_i64 (sent_bytes c)))]
  | None => []
  end.

Definition http_attributes (e : HttpAccessLogEntry) : list KeyValue :=
  (field_text "http.request.method" (request e ≫= http_method) ++
   field_text "url.scheme" (r ← request e; clean_envoy_value (scheme r)) ++
   field_text "url.path" (r ← request e; clean_envoy_value (path r)) ++
   field_text "user_agent.original" (r ← request e; clean_envoy_value (user_agent r)) ++
   field_int "http.response.status_code" (response_code e ≫= http_status))%list.

Definition ingest_egress_entry (ip_map : gmap Z SandboxId) (observed_at : Z) (common : option AccessLogCommon)
    (span_name reason_prefix : string) (protocol_attrs : list KeyValue) : option EgressTrace :=
  common ← common;
  b ← resolve_egress_base ip_map observed_at common;
  let '(reason, status) := envoy_reason_and_status reason_prefix common in
  Some (mkTrace
    (mkSpan "sandbox" (eb_start b) (eb_end b) (sandbox_span_attributes b) status)
    (mkSpan span_name (eb_start b) (eb_end b) (push_base_attributes b ++ [("egress.reason", AText reason)] ++ protocol_attrs) status)).

Definition ingest_envoy_tcp_access_log_entry (ip_map : gmap Z SandboxId) (observed_at : Z) (e : TcpAccessLogEntry) : option EgressTrace :=
  ingest_egress_entry ip_map observed_at (tcp_common e) "egress.tcp" "envoy_tcp_proxy" (tcp_attributes e).

Definition ingest_envoy_http_access_log_entry (ip_map : gmap Z SandboxId) (observed_at : Z) (e : HttpAccessLogEntry) : option EgressTrace :=
  ingest_egress_entry ip_map observed_at (http_common e) "egress.http" "envoy_http_proxy" (http_attributes e).

(** ** The stream

    Entries are ingested one after the other, each with the addresses as they are
    then and the time then; an error of the stream ends it. *)
Record Seen : Type := mkSeen { s_ip_map : gmap Z SandboxId; s_now : Z }.

Definition message_entries (m : option LogEntries) : list (TcpAccessLogEntry + HttpAccessLogEntry) :=
  match m with None => [] | Some (TcpLogs l) => map inl l | Some (HttpLogs l) => map inr l end.

Definition ingest (s : Seen) (e : TcpAccessLogEntry + HttpAccessLogEntry) : option EgressTrace :=
  match e with
  | inl e => ingest_envoy_tcp_access_log_entry (s_ip_map s) (s_now s) e
  | inr e => ingest_envoy_http_access_log_entry (s_ip_map s) (s_now s) e
  end.

(** The handle of the daemon: what it was given, if it is enabled. *)
Record EgressTelemetry : Type := mkTelemetry { enabled : bool; emitted : list EgressTrace }.

Definition disabled : EgressTelemetry := mkTelemetry false [].
Definition EgressTelemetry_new (config : ObservabilityConfig) (exporter : result string ()) : result string EgressTelemetry :=
  if negb (obs_enabled config) then Ok disabled
  else match exporter with Ok _ => Ok (mkTelemetry true []) | Err e => Err ("failed to build OTLP span exporter: " ++ e) end.

Definition emit (trace : EgressTrace) (t : EgressTelemetry) : EgressTelemetry :=
  if enabled t then mkTelemetry true (emitted t ++ [trace]) else t.

Fixpoint ingest_all (seen : nat → Seen) (n : nat) (l : list (TcpAccessLogEntry + HttpAccessLogEntry)) (t : EgressTelemetry) : nat * EgressTelemetry :=
  match l with
  | [] => (n, t)
  | e :: l => ingest_all seen (S n) l (match ingest (seen n) e with Some trace => emit trace t | None => t end)
  end.

Fixpoint stream_access_logs (seen : nat → Seen) (n : nat) (l : list (result string (option LogEntries))) (t : EgressTelemetry) : result string () * EgressTelemetry :=
  match l with
  | [] => (Ok tt, t)
  | Err e :: _ => (Err e, t)
  | Ok m :: l => let '(n, t) := ingest_all seen n (message_entries m) t in stream_access_logs seen n l t
  end.

(** What the tracer makes of a trace: the root and its child, in the order they end. *)
Inductive SpanKind : Type := Internal | Client.
Record OtlpSpan : Type := mkOtlp { os_span : EgressSpan; os_kind : SpanKind; os_child : bool }.

Definition otlp_emit (t : EgressTrace) : list OtlpSpan := [mkOtlp (egress t) Client true; mkOtlp (sandbox t) Internal false].

(** ** The environment *)

Definition otlp_uses_http_from_env (env : string → option string) : bool :=
  (fix go (vars : list string) : bool :=
    match vars with
    | [] => false
    | var :: vars =>
        match env var with
        | Some value =>
            let v := trim value in
            if bool_decide (v = "http/protobuf" ∨ v = "http/json") then true else if bool_decide (v = "grpc") then false else go vars
        | None => go vars
        end
    end) ["OTEL_EXPORTER_OTLP_TRACES_PROTOCOL"; "OTEL_EXPORTER_OTLP_PROTOCOL"].

(** [split_terminator]: an empty last piece is none. *)
Definition split_terminator (c : ascii) (s : string) : list string :=
  let l := split_char c s in if bool_decide (last l = Some "") then removelast l else l.

Definition env_sets_service_name (env : string → option string) : bool :=
  match env "OTEL_SERVICE_NAME" with Some v => negb (bool_decide (v = "")) | None => false end ||
  match env "OTEL_RESOURCE_ATTRIBUTES" with
  | Some attrs => existsb (λ entry, match split_once "=" entry with Some (key, _) => bool_decide (trim key = "service.name") | None => false end) (split_terminator "," attrs)
  | None => false
  end.

(** The default name, where the environment has none. *)
Definition build_resource (env : string → option string) : option string := if env_sets_service_name env then None else Some "oad".

(** ** The socket *)

Section server.
Context {B : Type} `{!Bytes B, !Env B} (bind : Path → M (Os B) IoError ()) (serve_with_incoming : M (Os B) IoError ()).
Notation IO := (M (Os B) IoError).

Definition remove_stale_socket (p : Path) : IO () :=
  r ← attempt (remove_file p);
  match r with Ok _ => mret tt | Err e => if decide (e = NotFound) then mret tt else throw e end.

Definition cleanup_socket (p : Path) : IO () := ignore (remove_file p).

Definition serve_envoy_access_log_server (paths : OadPaths) : IO () :=
  let socket := envoy_access_log_socket paths in
  match parent socket with Some p => create_dir_all p | None => mret tt end ;;
  remove_stale_socket socket ;;
  bind socket ;;
  result ← attempt serve_with_incoming;
  cleanup_socket socket ;;
  lift_result result.

(** A disabled handle starts no server. *)
Definition spawn_envoy_access_log_server (t : EgressTelemetry) (paths : OadPaths) : IO () :=
  if enabled t then ignore (serve_envoy_access_log_server paths) else mret tt.
End server.

(** ** Spans run forward *)

Lemma duration_not_negative d t : duration_from_proto d = Valid t → (0 ≤ t)%Z.
Proof.
  unfold duration_from_proto, proto_ok, proto_nanos, NANOS. destruct d as [[s n]|]; [|done]. cbn.
  destruct (Z.ltb_spec s 0); [done|]. destruct (Z.leb_spec 0 n); [|done]. destruct (n <=? 999999999)%Z; [|done]. intros [= <-]. lia.
Qed.

Lemma span_duration_not_negative c t : span_duration_from_proto c = Valid t → (0 ≤ t)%Z.
Proof.
  unfold span_duration_from_proto. destruct (duration_from_proto (duration c)) eqn:E1, (duration_from_proto (time_to_last_downstream_tx_byte c)) eqn:E2;
    intros [= <-]; first [exact (duration_not_negative _ _ E1)|exact (duration_not_negative _ _ E2)].
Qed.

Lemma start_in_time p t : start_time_from_proto p = Valid t → in_time t = true.
Proof.
  unfold start_time_from_proto, checked_time. destruct p as [p|]; [|done]. destruct (_ && _); [done|]. destruct (proto_ok p); [|done].
  cbn. destruct (in_time (proto_nanos p)) eqn:E; [|done]. by intros [= <-].
Qed.

(** When a span is and what it is told: from the entry where it says so, and from
    the time it is read where not. *)
Lemma resolve_span_timing_ok c now : in_time now = true → let '(s, e) := resolve_span_timing_at c now in
  (s ≤ e)%Z ∧ in_time s = true ∧ in_time e = true ∧
  (∀ t, start_time_from_proto (start_time c) = Valid t → s = t) ∧
  (∀ d, span_duration_from_proto c = Valid d → in_time (s + d) = true → in_time (now - d) = true → e = (s + d)%Z).
Proof.
  intros Hnow. unfold resolve_span_timing_at, checked_time, end_at_or_after_start.
  destruct (start_time_from_proto (start_time c)) as [t| |] eqn:Es; [pose proof (start_in_time _ _ Es)|..];
    (destruct (span_duration_from_proto c) as [d| |] eqn:Ed; [pose proof (span_duration_not_negative _ _ Ed)|..]).
  - destruct (in_time (t + d)) eqn:Et; cbn.
    + split_and!; [lia|done|done|by intros ? [= <-]|by intros ? [= <-]].
    + destruct (Z.leb_spec t now); (split_and!; [lia|done|done|by intros ? [= <-]|intros ? [= <-]; congruence]).
  - destruct (Z.leb_spec t now); (split_and!; [lia|done|done|by intros ? [= <-]|done]).
  - destruct (Z.leb_spec t now); (split_and!; [lia|done|done|by intros ? [= <-]|done]).
  - destruct (in_time (now - d)) eqn:Et; cbn; (split_and!; [lia|done|done|done|intros ? [= <-]; first [congruence|lia]]).
  - split_and!; [lia|done..].
  - split_and!; [lia|done..].
  - destruct (in_time (now - d)) eqn:Et; cbn; (split_and!; [lia|done|done|done|intros ? [= <-]; first [congruence|lia]]).
  - split_and!; [lia|done..].
  - split_and!; [lia|done..].
Qed.

(** ** The status says whether the connection failed *)

(** Envoy reports a flag when some field of the message is set, whether the table
    has it or not. *)
Definition no_flags : ResponseFlags :=
  mkFlags false false false false false false false false false false false false false false
    false false false false false false false false false false false false false.

Definition failed (common : AccessLogCommon) : Prop :=
  (∃ f, response_flags common = Some f ∧ f ≠ no_flags) ∨ clean_envoy_value (upstream_transport_failure_reason common) ≠ None.

(** The table has every field. *)
Lemma flag_names_nil f : response_flag_names f = [] ↔ f = no_flags.
Proof.
  unfold response_flag_names. split; [|by intros ->; vm_compute]. intros Hn%map_eq_nil.
  assert (Hall : Forall (λ p : (ResponseFlags → bool) * string, p.1 f = false) FLAGS).
  { apply Forall_forall. intros p Hp. destruct (p.1 f) eqn:E; [|done]. exfalso.
    assert (p ∈ filter (λ p, p.1 f = true) FLAGS) as Hin by (by apply list_elem_of_filter). rewrite Hn in Hin. by apply elem_of_nil in Hin. }
  destruct f. unfold FLAGS in Hall. rewrite !Forall_cons in Hall. cbn in Hall. decompose [and] Hall. by subst.
Qed.

(** Trimming leaves the letters there are. *)
Lemma trimmed_start_keeps c ws fuel s : Forall (λ w, str_forallb (not_char c) w = true) ws →
  str_forallb (not_char c) (trim_start_with ws fuel s) = true → str_forallb (not_char c) s = true.
Proof.
  intros Hws. revert s. induction fuel as [|fuel IH]; intros s; [done|]. cbn [trim_start_with].
  destruct (find_map _ ws) as [s'|] eqn:Ef; [|done]. intros Hs'%IH.
  assert (∃ w, w ∈ ws ∧ s = w ++ s') as (w & Hw & ->).
  { clear -Ef. induction ws as [|w ws IHws]; [done|]. cbn in Ef. destruct (strip_prefix w s) as [r|] eqn:Ep.
    - injection Ef as ->. apply strip_prefix_some in Ep. exists w. split; [by left|done].
    - destruct (IHws Ef) as (v & Hv & He). exists v. split; [by right|done]. }
  rewrite str_forallb_app Hs'. rewrite Forall_forall in Hws. by rewrite (Hws w Hw).
Qed.

Lemma trim_keeps c s : str_forallb (not_char c) (trim s) = true →
  Forall (λ w, str_forallb (not_char c) w = true) whitespace → Forall (λ w, str_forallb (not_char c) w = true) (map str_rev whitespace) →
  str_forallb (not_char c) s = true.
Proof.
  intros Ht Hw Hr. unfold trim, trim_end in Ht. rewrite forallb_rev in Ht. apply trimmed_start_keeps in Ht; [|done].
  rewrite forallb_rev in Ht. by apply trimmed_start_keeps in Ht.
Qed.

Lemma trim_not_empty s : str_forallb (not_char "f") s = false → trim s ≠ "".
Proof.
  intros Hs He. assert (str_forallb (not_char "f") s = true); [|congruence].
  apply trim_keeps; [by rewrite He|..]; apply Forall_forall; intros w Hw; vm_compute in Hw;
    repeat (apply elem_of_cons in Hw as [->|Hw]; [reflexivity|]); by apply elem_of_nil in Hw.
Qed.

Lemma status_spec prefix common : let '(reason, status) := envoy_reason_and_status prefix common in
  (status = Unset ↔ ¬ failed common) ∧ (status = Unset → reason = prefix).
Proof.
  unfold envoy_reason_and_status, failed. set (names := match response_flags common with Some f => response_flag_names f | None => [] end).
  assert (Hnames : names = [] ↔ ¬ ∃ f, response_flags common = Some f ∧ f ≠ no_flags).
  { unfold names. destruct (response_flags common) as [f|]; [|split; [by intros _ (f & [=] & _)|done]]. rewrite flag_names_nil. split.
    - by intros -> (f' & [= <-] & Hne).
    - intros Hno. destruct (decide (response_flag_names f = [])) as [Hn|Hn]; [by apply flag_names_nil|].
      destruct Hno. exists f. split; [done|]. intros E. by apply Hn, flag_names_nil. }
  destruct names as [|n l] eqn:En; [destruct (clean_envoy_value (upstream_transport_failure_reason common)) as [failure|] eqn:Ec|].
  - assert (envoy_reason_suffix common = " failure=" ++ failure) as -> by (unfold envoy_reason_suffix; fold names; by rewrite En Ec).
    rewrite decide_False; [|split; [split; [done|intros Hn; destruct Hn; by right]|done]]. by apply trim_not_empty.
  - assert (envoy_reason_suffix common = "") as -> by (unfold envoy_reason_suffix; fold names; by rewrite En Ec).
    destruct (decide (trim "" = "")) as [_|Hne]; [|by destruct Hne]. rewrite app_nil_r_s. split; [|done]. split; [|done]. intros _ [Hf|Hc]; [by apply Hnames|done].
  - assert (∃ rest, envoy_reason_suffix common = " flags=" ++ rest) as [rest ->].
    { unfold envoy_reason_suffix. fold names. rewrite En. cbn [app]. eexists. by rewrite app_assoc_s. }
    rewrite decide_False; [by apply trim_not_empty|]. split; [|done]. split; [done|]. intros Hno. exfalso. destruct (decide (n :: l = [])) as [|Hne]; [done|].
    apply Hne, Hnames. intros Hf. apply Hno. by left.
Qed.

(** ** Every connection is traced once *)

Fixpoint arrived (l : list (result string (option LogEntries))) : list (option LogEntries) :=
  match l with Ok m :: l => m :: arrived l | _ => [] end.

Definition common_of (e : TcpAccessLogEntry + HttpAccessLogEntry) : option AccessLogCommon :=
  match e with inl e => tcp_common e | inr e => http_common e end.

Definition source_of (e : TcpAccessLogEntry + HttpAccessLogEntry) : option string :=
  c ← common_of e; (address_endpoint (downstream_remote_address c)).1.

(** The sandbox that has the address; an address no sandbox has stands for itself. *)
Inductive names (m : gmap Z SandboxId) (src : string) : string → Prop :=
| NamesSandbox ip id : parse_ipv4 src = Some ip → m !! ip = Some id → names m src (as_str id)
| NamesAddress : (∀ ip, parse_ipv4 src = Some ip → m !! ip = None) → names m src src.

Record traced (s : Seen) (e : TcpAccessLogEntry + HttpAccessLogEntry) (c : AccessLogCommon) (src : string) (t : EgressTrace) : Prop := {
  tr_forward : (es_start (egress t) ≤ es_end (egress t))%Z;
  tr_same : es_start (sandbox t) = es_start (egress t) ∧ es_end (sandbox t) = es_end (egress t) ∧ es_status (sandbox t) = es_status (egress t);
  tr_start : ∀ x, start_time_from_proto (start_time c) = Valid x → es_start (egress t) = x;
  tr_status : es_status (egress t) = Unset ↔ ¬ failed c;
  tr_sandbox : ∃ id, names (s_ip_map s) src id ∧ ("sandbox.id", AText id) ∈ es_attributes (egress t) ∧
    es_attributes (sandbox t) = [("sandbox.id", AText id); ("client.address", AText src)];
  tr_bytes : ∀ tcp conn, e = inl tcp → connection_properties tcp = Some conn →
    ("egress.sent_bytes", AInt (Z.min (received_bytes conn) i64_max)) ∈ es_attributes (egress t) ∧
    ("egress.received_bytes", AInt (Z.min (sent_bytes conn) i64_max)) ∈ es_attributes (egress t);
}.

Lemma base_spec m now c : in_time now = true → match resolve_egress_base m now c with
  | None => (address_endpoint (downstream_remote_address c)).1 = None
  | Some b => (address_endpoint (downstream_remote_address c)).1 = Some (src_ip b) ∧ names m (src_ip b) (sandbox_id b) ∧
      (eb_start b ≤ eb_end b)%Z ∧ (∀ x, start_time_from_proto (start_time c) = Valid x → eb_start b = x)
  end.
Proof.
  intros Hnow. unfold resolve_egress_base. destruct (address_endpoint (downstream_remote_address c)).1 as [src|]; [|done]. cbn [mbind option_bind].
  destruct (address_endpoint (upstream_remote_address c)) as [dst port].
  pose proof (resolve_span_timing_ok c now Hnow) as Ht. destruct (resolve_span_timing_at c now) as [start stop].
  destruct Ht as (Hle & _ & _ & Hs & _). cbn. split_and!; [done| |done|done].
  destruct (parse_ipv4 src) as [ip|] eqn:Ep; [|apply NamesAddress; intros ip Hip; congruence].
  destruct (m !! ip) as [id|] eqn:Em; [exact (NamesSandbox _ _ _ _ Ep Em)|]. apply NamesAddress. intros ip' Hip. congruence.
Qed.

Lemma ingest_spec s e : in_time (s_now s) = true → match ingest s e with
  | None => source_of e = None
  | Some t => ∃ c src, common_of e = Some c ∧ source_of e = Some src ∧ traced s e c src t
  end.
Proof.
  intros Hnow. unfold ingest, source_of, common_of.
  assert (Hin : ∀ common name prefix attrs, match ingest_egress_entry (s_ip_map s) (s_now s) common name prefix attrs with
    | None => (c ← common; (address_endpoint (downstream_remote_address c)).1) = None
    | Some t => ∃ c src, common = Some c ∧ (address_endpoint (downstream_remote_address c)).1 = Some src ∧
        (∀ p, p ∈ attrs → p ∈ es_attributes (egress t)) ∧
        ((∀ tcp conn, e = inl tcp → connection_properties tcp = Some conn →
          ("egress.sent_bytes", AInt (Z.min (received_bytes conn) i64_max)) ∈ attrs ∧
          ("egress.received_bytes", AInt (Z.min (sent_bytes conn) i64_max)) ∈ attrs) → traced s e c src t)
    end).
  { intros common name prefix attrs. unfold ingest_egress_entry. destruct common as [c|]; [|done]. cbn [mbind option_bind].
    pose proof (base_spec (s_ip_map s) (s_now s) c Hnow) as Hb.
    destruct (resolve_egress_base (s_ip_map s) (s_now s) c) as [b|]; [|done]. destruct Hb as (Hsrc & Hnames & Hle & Hstart).
    pose proof (status_spec prefix c) as Hst. destruct (envoy_reason_and_status prefix c) as [reason status]. destruct Hst as [Hst _].
    exists c, (src_ip b). split_and!; [done|done|intros p Hp; cbn; set_solver|]. intros Hattrs. split; cbn; try done.
    - exists (sandbox_id b). split_and!; [done|by left|done].
    - intros tcp conn He Hc. destruct (Hattrs tcp conn He Hc). set_solver. }
  destruct e as [e|e]; unfold ingest_envoy_tcp_access_log_entry, ingest_envoy_http_access_log_entry.
  - specialize (Hin (tcp_common e) "egress.tcp" "envoy_tcp_proxy" (tcp_attributes e)). destruct (ingest_egress_entry _ _ _ _ _ _) as [t|]; [|done].
    destruct Hin as (c & src & -> & Hsrc & _ & Ht). exists c, src. split_and!; [done|done|]. apply Ht.
    intros tcp conn [= <-] Hc. unfold tcp_attributes, to_i64. rewrite Hc. split; [by left|by right; left].
  - specialize (Hin (http_common e) "egress.http" "envoy_http_proxy" (http_attributes e)). destruct (ingest_egress_entry _ _ _ _ _ _) as [t|]; [|done].
    destruct Hin as (c & src & -> & Hsrc & _ & Ht). exists c, src. split_and!; [done|done|]. by apply Ht.
Qed.

Lemma ingest_all_spec seen l n t : enabled t = true → ingest_all seen n l t =
  ((n + length l)%nat, mkTelemetry true (emitted t ++ omap id (imap (λ k e, ingest (seen (n + k)%nat) e) l))).
Proof.
  revert n t. induction l as [|e l IH]; intros n t Ht; cbn [ingest_all imap omap list_omap length].
  - rewrite Nat.add_0_r app_nil_r. by destruct t; cbn in *; subst.
  - rewrite IH; [by destruct (ingest _ e); unfold emit; rewrite ?Ht|]. rewrite Nat.add_succ_r. f_equal. f_equal.
    rewrite Nat.add_0_r. assert (Hi : imap ((λ k e, ingest (seen (n + k)%nat) e) ∘ S) l = imap (λ k e, ingest (seen (S n + k)%nat) e) l).
    { apply imap_ext. intros i x _. cbn. by rewrite Nat.add_succ_r. }
    rewrite Hi. destruct (ingest (seen n) e) as [trace|]; [|done]. unfold emit. rewrite Ht. cbn. by rewrite -app_assoc.
Qed.

Lemma stream_spec seen l n t : enabled t = true → let '(r, t') := stream_access_logs seen n l t in
  emitted t' = (emitted t ++ omap id (imap (λ k e, ingest (seen (n + k)%nat) e) (concat (map message_entries (arrived l)))))%list ∧
  (r = Ok tt ↔ length (arrived l) = length l).
Proof.
  revert n t. induction l as [|[m|e] l IH]; intros n t Ht; cbn [stream_access_logs arrived map concat length].
  - cbn. by rewrite app_nil_r.
  - rewrite ingest_all_spec //. specialize (IH (n + length (message_entries m))%nat
      (mkTelemetry true (emitted t ++ omap id (imap (λ k e, ingest (seen (n + k)%nat) e) (message_entries m)))) eq_refl).
    destruct (stream_access_logs _ _ _ _) as [r t']. destruct IH as [-> Hr]. split; [|rewrite Hr; lia].
    cbn [emitted]. rewrite imap_app omap_app app_assoc. do 2 f_equal. apply imap_ext. intros i x _. cbn. by rewrite Nat.add_assoc.
  - cbn. rewrite app_nil_r. split; [done|]. split; [done|lia].
Qed.

(** C28. The entries of Envoy: in a stream, up to where it breaks off, every entry
    with a usable source address becomes one trace, in order, and no other does. A
    trace is named after the sandbox that has the address, or after the address
    where none has it; its two spans run forward over the same time, from the start
    Envoy gives where it is one; they are errors exactly where Envoy reports a flag
    or a failure; and the counts of bytes are the sandbox's, not the proxy's. *)
Theorem connections_traced (seen : nat → Seen) (l : list (result string (option LogEntries))) :
  (∀ n, in_time (s_now (seen n)) = true) →
  let entries := concat (map message_entries (arrived l)) in
  let '(r, t) := stream_access_logs seen 0 l (mkTelemetry true []) in
  emitted t = omap id (imap (λ n e, ingest (seen n) e) entries) ∧
  (r = Ok tt ↔ length (arrived l) = length l) ∧
  ∀ n e, entries !! n = Some e → match ingest (seen n) e with
    | None => source_of e = None
    | Some t => ∃ c src, common_of e = Some c ∧ source_of e = Some src ∧ traced (seen n) e c src t
    end.
Proof.
  intros Hnow entries. pose proof (stream_spec seen l 0 (mkTelemetry true []) eq_refl) as Hs.
  destruct (stream_access_logs _ _ _ _) as [r t]. destruct Hs as [-> Hr]. split_and!; [done|done|].
  intros n e _. apply ingest_spec, Hnow.
Qed.

(** ** Examples *)

Definition plain_common (src : string) (start : option ProtoTime) (d : option ProtoTime) : AccessLogCommon :=
  mkCommon (Some (Some (mkSocketAddress src (Some 50000%Z)))) (Some "api.example.com") start None (Some (Some (mkSocketAddress "203.0.113.7" (Some 443%Z)))) None "-" d.

Definition one_entry : list (result string (option LogEntries)) :=
  [Ok (Some (TcpLogs [mkTcp (Some (plain_common "10.0.0.2" (Some (mkProtoTime 100 0)) (Some (mkProtoTime 2 500000000)))) (Some (mkConnection 10 20))])); Err "reset"].

Definition at_200 (_ : nat) : Seen := mkSeen ∅ (200 * NANOS).

Lemma connections_traced_witness : (∀ n, in_time (s_now (at_200 n)) = true) ∧
  length (emitted (stream_access_logs at_200 0 one_entry (mkTelemetry true [])).2) = 1%nat ∧
  (∃ c src t, ingest (at_200 0) (inl (mkTcp (Some (plain_common "10.0.0.2" (Some (mkProtoTime 100 0)) (Some (mkProtoTime 2 500000000)))) (Some (mkConnection 10 20)))) = Some t ∧
    traced (at_200 0) (inl (mkTcp (Some (plain_common "10.0.0.2" (Some (mkProtoTime 100 0)) (Some (mkProtoTime 2 500000000)))) (Some (mkConnection 10 20)))) c src t).
Proof.
  assert (Hnow : ∀ n, in_time (s_now (at_200 n)) = true) by (intros n; reflexivity).
  pose proof (connections_traced at_200 one_entry Hnow) as H. split; [exact Hnow|]. split; [vm_compute; reflexivity|].
  cbv zeta in H. destruct (stream_access_logs at_200 0 one_entry (mkTelemetry true [])) as [r t]. destruct H as (_ & _ & H).
  specialize (H 0%nat _ eq_refl). destruct (ingest _ _) as [t'|] eqn:Ei; [|vm_compute in Ei; discriminate Ei].
  destruct H as (c & src & _ & _ & Ht). exists c, src, t'. split; [reflexivity|exact Ht].
Defined.

(** Of a duration that is there but not set the other one is not looked at. *)
Example zero_duration_wins : resolve_span_timing_at
    (mkCommon None None (Some (mkProtoTime 100 0)) (Some (mkProtoTime 7 0)) None None "" (Some (mkProtoTime 0 0))) (200 * NANOS) =
  (100 * NANOS, 100 * NANOS)%Z.
Proof. reflexivity. Qed.

Example flag_count : length FLAGS = 27%nat.
Proof. reflexivity. Qed.

Example service_names : (env_sets_service_name (λ v, if decide (v = "OTEL_RESOURCE_ATTRIBUTES") then Some "a=b, service.name =x," else None),
  env_sets_service_name (λ v, if decide (v = "OTEL_SERVICE_NAME") then Some "" else None)) = (true, false).
Proof. vm_compute. reflexivity. Qed.
