(* ===== verification/Lifecycle.v ===== *)
(** * Lifecycle of sandboxes (crates/oad/src/main.rs)

    The handlers that create, fork, suspend, resume, snapshot and delete
    sandboxes, the reconciliation at startup and the checkpoints at shutdown.
    They run one at a time per sandbox, under its lock (Locks.v); the state is
    that of the registry, of the network manager and of the system together. *)
From S2P Require Import Prelude Str Core Cidr Nft Effect Os Entries Registry Json Snapshots Runtime Api OciBase App ExecSession Network.

Record World (B : Type) : Type := mkWorld {
  w_net : NetWorld B;                          (* the network manager and the system *)
  w_records : gmap string SandboxRecord;       (* the registry *)
  w_execs : gmap string Session;               (* the background exec sessions *)
}.
Arguments mkWorld {B}. Arguments w_net {B}. Arguments w_records {B}. Arguments w_execs {B}.

Section lifecycle.
Context {B : Type} `{!Bytes B, !Env B, !JsonText}.
Context `{!Codec B SandboxRecord, !Codec B SandboxNetworkState, !Codec B SandboxSpec, !Codec B SnapshotManifest}.
Notation AppM := (M (World B) AppError).
Implicit Types w : World B.

Context (config : DaemonConfig) (paths : OadPaths) (envoy_text : result NetworkError B).

(** oad-oci's preparation of the bundles: pulling images, building rootfs and
    config.json (GvisorManager). *)
Context (prepare_pause_bundle : SandboxId → string → option Path → option Path → M (Os B) OciError ()).
Context (prepare_container_bundle : SandboxId → ContainerSpec → option Path → option Path → M (Os B) OciError ()).

(** ** Parts of the state *)

Definition w_os w : Os B := n_os (w_net w).

Definition set_os (o : Os B) w : World B :=
  let n := w_net w in
  mkWorld (mkNetWorld o (ip_map n) (dns_started n) (envoy_child n)) (w_records w) (w_execs w).

Definition on_sys {E A} (m : M (Os B) E A) : M (World B) E A := zoom w_os set_os m.

Definition on_net {E A} (m : M (NetWorld B) E A) : M (World B) E A :=
  zoom w_net (λ n w, mkWorld n (w_records w) (w_execs w)) m.

Definition on_reg {E A} (m : M (RegWorld B) E A) : M (World B) E A :=
  zoom (λ w, mkRegWorld (w_os w) (w_records w))
    (λ r w, let w := set_os (reg_os r) w in mkWorld (w_net w) (reg_records r) (w_execs w)) m.

(** The conversions of [?]. *)
Definition app_io {A} (m : M (World B) IoError A) : AppM A := mapE AppIo m.
Definition app_runtime {A} (m : M (Os B) RuntimeError A) : AppM A := mapE AppRuntime (on_sys m).
Definition app_network {A} (m : M (NetWorld B) NetworkError A) : AppM A := mapE AppNetwork (on_net m).

Definition now {E} : M (World B) E Z := gets (λ w, env_nanos (calls (w_os w))).

(** [registry.get(id).ok_or_else(not found)] *)
Definition not_found (id : SandboxId) : AppError := NotFoundError ("sandbox " ++ as_str id ++ " not found").

Definition get_record (id : SandboxId) : AppM SandboxRecord :=
  found ← app_io (on_reg (registry_get id));
  lift_result (ok_or found (not_found id)).

(** [registry.update(paths, id, |r| ...)]: the closure stamps the time. *)
Definition update (id : SandboxId) (f : Z → SandboxRecord → SandboxRecord)
    : M (World B) IoError (option SandboxRecord) :=
  t ← now; on_reg (registry_update paths id (f t)).

(** An update whose failure is only logged. *)
Definition try_update (id : SandboxId) (f : Z → SandboxRecord → SandboxRecord) : AppM () :=
  ignore (update id f).

Definition mark (status : SandboxStatus) (error : option string) (t : Z) (r : SandboxRecord) : SandboxRecord :=
  with_last_error error (set_status t status r).

(** Kills the sandbox's background execs and forgets them; waiting for them to
    stop is bounded by a timeout. *)
Definition kill_for_sandbox (sandbox_id : string) : AppM () :=
  modify (λ w, mkWorld (w_net w) (w_records w)
    (filter (λ es : string * Session, bi_sandbox_id (s_info es.2) ≠ sandbox_id) (w_execs w))).

(** ** Configuration *)

Definition net_config : NetworkRuntimeConfig := rt_network (runtime config).
Definition network_enabled : bool := net_enabled net_config.

Definition validate_network_available (network : SandboxNetworkSpec) : result AppError () :=
  if negb network_enabled && negb (bool_decide (network = network_default))
  then Err (BadRequest "per-sandbox network policy requires managed networking; remove runtime.network_namespace or enable runtime.network.enabled")
  else Ok tt.

Definition effective_network (network : SandboxNetworkSpec) : result AppError SandboxNetworkSpec :=
  (validate_network_available network ?;;
   map_err AppNetwork (validate_spec network) ?;; Ok network)%rust.

Definition effective_fresh_network (request : CreateSandboxRequest) : result AppError SandboxNetworkSpec :=
  effective_network (default network_default (cr_network request)).

Definition effective_fork_network (requested : option SandboxNetworkSpec) (inherited : SandboxNetworkSpec)
    : result AppError SandboxNetworkSpec :=
  effective_network (default inherited requested).

Definition daemon_network_mode (network_namespace : option Path) : RunscNetworkMode :=
  if network_enabled then
    match net_backend net_config with Hostinet => RunscHost | Netstack => RunscSandbox end
  else match network_namespace with Some _ => RunscHost | None => RunscSandbox end.

Definition runtime_supports_checkpoints : bool :=
  if network_enabled then match net_backend net_config with Netstack => true | Hostinet => false end
  else match rt_network_namespace (runtime config) with None => true | Some _ => false end.

Definition hostinet_checkpoint_unsupported_message : string :=
  "checkpoint, suspend, and live snapshot require managed network backend " ++ quoted "netstack" ++
  " or default runsc sandbox networking".

Definition prepare_sandbox_network (id : SandboxId) (network : SandboxNetworkSpec) : AppM (option Path) :=
  if network_enabled then app_network (Network.reconcile_sandbox net_config paths envoy_text id network)
  else mret (rt_network_namespace (runtime config)).

Definition prepare_bundles (id : SandboxId) (pause_image : string) (containers : list ContainerSpec)
    (network_namespace : option Path) : AppM () :=
  let resolv_conf := if network_enabled then Some (sandbox_resolv_conf paths id) else None in
  mapE AppOci (on_sys (prepare_pause_bundle id pause_image network_namespace resolv_conf)) ;;
  forM containers (λ container,
    mapE AppOci (on_sys (prepare_container_bundle id container network_namespace resolv_conf))).

(** ** Records and specs *)

Definition running_record (id : SandboxId) : AppM SandboxRecord :=
  updated ← app_io (update id (mark Running None));
  lift_result (ok_or updated (not_found id)).

Definition persist_sandbox_spec (id : SandboxId) (spec : SandboxSpec) : AppM () :=
  app_io (on_sys (write_json_atomic (sandbox_spec paths id) spec)).

Definition read_sandbox_spec (id : SandboxId) : AppM SandboxSpec :=
  body ← app_io (on_sys (read_file (sandbox_spec paths id)));
  lift_result (ok_or (from_json body) (AppIo (IoOther "invalid sandbox spec"))).

(** ** Creating *)

Definition show_failures (failures : list (string * string)) : string :=
  str_join "; " (map (λ f : string * string, f.1 ++ ": " ++ f.2) failures).

Definition cleanup_failed_sandbox (id : SandboxId) (names : list string) (delete_containers : bool) : AppM () :=
  failures ← (if delete_containers then
      r ← attempt (on_sys (delete_visible_container_sequence paths id names));
      mret match r with
           | Ok failures => map (λ f : string * string, f.1 ++ ": " ++ f.2) failures
           | Err err => [show_runtime_error err]
           end
    else mret []);
  match failures with
  | _ :: _ =>
      try_update id (λ t, set_error t
        ("cleanup failed after create error; sandbox retained: " ++ str_join "; " failures))
  | [] =>
      ignore (app_network (Network.delete_sandbox net_config paths id)) ;;
      ignore (app_io (on_sys (remove_dir_all (sandbox_dir paths id)))) ;;
      app_io (on_reg (registry_remove id)) ;; mret tt
  end.

(** A step of creation under the guard: if it fails, [cleanup_now] runs. *)
Definition guarded {A} (id : SandboxId) (names : list string) (delete_containers : bool) (m : AppM A) : AppM A :=
  on_error (cleanup_failed_sandbox id names delete_containers) m.

(** What a fresh boot and a fork share once their record is in: network, spec,
    bundles, then the containers by [bring_up]. *)
Definition build_sandbox (id : SandboxId) (names : list string) (pause_image : string)
    (containers : list ContainerSpec) (network : SandboxNetworkSpec)
    (bring_up : RunscNetworkMode → M (Os B) RuntimeError ()) : AppM SandboxRecord :=
  network_namespace ← guarded id names false (prepare_sandbox_network id network);
  let mode := daemon_network_mode network_namespace in
  let spec := mkSandboxSpec pause_image containers network (Some (core_network_mode mode)) in
  guarded id names false (persist_sandbox_spec id spec) ;;
  guarded id names false (prepare_bundles id pause_image containers network_namespace) ;;
  guarded id names true (app_runtime (bring_up mode)) ;;
  guarded id names true (running_record id).

Definition insert_record (record : SandboxRecord) : AppM () :=
  app_io (on_reg (registry_insert paths record)).

Definition boot_fresh_sandbox (id : SandboxId) (request : CreateSandboxRequest) : AppM SandboxRecord :=
  let names := container_names (cr_containers request) in
  network ← lift_result (effective_fresh_network request);
  t ← now;
  insert_record (new_pending t id names) ;;
  build_sandbox id names (rt_pause_image (runtime config)) (cr_containers request) network
    (λ mode, start_container_sequence paths id names mode).

Definition fork_from_snapshot (id : SandboxId) (request_network : option SandboxNetworkSpec)
    (snapshot : string) : AppM SandboxRecord :=
  lift_result (map_err (λ e, BadRequest (show_validation_error e)) (validate_snapshot_name snapshot)) ;;
  there ← app_io (on_sys (snapshot_exists paths snapshot));
  if negb there then throw (NotFoundError ("snapshot " ++ snapshot ++ " not found")) else
  manifest ← app_io (on_sys (read_manifest paths snapshot));
  let names := manifest_container_names manifest in
  network ← lift_result (effective_fork_network request_network (man_network manifest));
  t ← now;
  insert_record (with_origin_snapshot (Some snapshot) (new_pending t id names)) ;;
  build_sandbox id names (man_pause_image manifest) (man_containers manifest) network
    (λ mode, restore_sandbox paths id names (snapshot_checkpoint_dir paths snapshot) Warning mode).

(** [generated] is the id made when the request names none. *)
Definition request_id (generated : SandboxId) (request : CreateSandboxRequest) : result AppError SandboxId :=
  match cr_id request with
  | Some value => map_err (λ e, BadRequest (show_validation_error e)) (SandboxId_new value)
  | None => Ok generated
  end.

Definition create_sandbox (generated : SandboxId) (request : CreateSandboxRequest) : AppM SandboxRecord :=
  lift_result (match cr_from_snapshot request with
    | None => validate_containers (cr_containers request) | Some _ => Ok tt end) ;;
  id ← lift_result (request_id generated request);
  known ← app_io (on_reg (registry_contains id));
  if (known : bool) then throw (Conflict ("sandbox " ++ as_str id ++ " already exists")) else
  there ← app_io (on_sys (try_exists (sandbox_dir paths id)));
  if (there : bool) then
    throw (Conflict ("sandbox directory for " ++ as_str id ++ " already exists")) else
  match cr_from_snapshot request with
  | Some snapshot => fork_from_snapshot id (cr_network request) snapshot
  | None => boot_fresh_sandbox id request
  end.

(** ** Deleting *)

(** The handlers from here on have parsed the id (App.v, [parse_sandbox_id]) and
    hold the sandbox's lock. *)
Definition delete_sandbox (id : SandboxId) : AppM SandboxRecord :=
  current ← get_record id;
  kill_for_sandbox (as_str id) ;;
  app_io (update id (λ t, set_status t Stopping)) ;;
  failures ← (if decide (rec_status current = Suspended) then mret []
              else app_runtime (delete_visible_container_sequence paths id (rec_containers current)));
  match failures with
  | _ :: _ =>
      let message := "delete failures: " ++ show_failures failures in
      app_io (update id (λ t, set_error t message)) ;;
      throw (TeardownFailed message)
  | [] =>
      r ← attempt (on_net (Network.delete_sandbox net_config paths id));
      match r with
      | Err err =>
          app_io (update id (λ t, set_error t ("failed to delete sandbox network: " ++ show_network_error err))) ;;
          throw (AppNetwork err)
      | Ok _ =>
          d ← attempt (on_sys (remove_dir_all (sandbox_dir paths id)));
          match d with
          | Err err =>
              if decide (err = NotFound) then mret tt else
              app_io (update id (λ t, set_error t ("failed to remove sandbox directory: " ++ show_io_error err))) ;;
              throw (AppIo err)
          | Ok _ => mret tt
          end ;;
          removed ← app_io (on_reg (registry_remove id));
          t ← now;
          mret (mark Stopped None t (default current removed))
      end
  end.

(** ** Suspending and resuming *)

Definition suspend_locked (id : SandboxId) (record : SandboxRecord) : AppM SandboxRecord :=
  let image_dir := checkpoint_dir paths id in
  r ← attempt (on_sys (checkpoint_sandbox paths id (rec_containers record) image_dir));
  match r with
  | Err err =>
      checkpoint_available ← app_runtime (checkpoint_image_complete_for_containers image_dir (rec_containers record));
      status ← (if (checkpoint_available : bool) then mret Suspended else
                 alive ← app_runtime (container_running paths id PAUSE_CONTAINER);
                 mret (if (alive : bool) then Running else Unknown));
      try_update id (mark status (Some ("checkpoint failed: " ++ show_runtime_error err))) ;;
      throw (AppRuntime err)
  | Ok _ =>
      updated ← app_io (update id (mark Suspended None));
      lift_result (ok_or updated (not_found id))
  end.

Definition show_sandbox_status (s : SandboxStatus) : string :=
  match s with
  | Pending => "Pending" | Running => "Running" | Stopping => "Stopping" | Stopped => "Stopped"
  | Suspended => "Suspended" | Error => "Error" | Unknown => "Unknown"
  end.

Definition status_conflict (id : SandboxId) (record : SandboxRecord) (needed : string) : AppError :=
  Conflict ("sandbox " ++ as_str id ++ " is " ++ show_sandbox_status (rec_status record) ++ needed).

Definition suspend_sandbox (id : SandboxId) : AppM SandboxRecord :=
  record ← get_record id;
  if negb (bool_decide (rec_status record = Running)) then throw (status_conflict id record ", not running") else
  if negb runtime_supports_checkpoints then throw (Conflict hostinet_checkpoint_unsupported_message) else
  kill_for_sandbox (as_str id) ;;
  suspend_locked id record.

Definition cleanup_partial_resume (id : SandboxId) (record : SandboxRecord) (restore_error : RuntimeError) : AppM () :=
  r ← attempt (on_sys (delete_visible_container_sequence paths id (rec_containers record)));
  match r with
  | Ok [] => mret tt
  | Ok failures => try_update id (λ t, set_error t
      ("resume failed and partial restore cleanup failed: restore=" ++ show_runtime_error restore_error ++
       "; cleanup=" ++ show_failures failures))
  | Err cleanup_error => try_update id (λ t, set_error t
      ("resume failed and partial restore cleanup failed: restore=" ++ show_runtime_error restore_error ++
       "; cleanup=" ++ show_runtime_error cleanup_error))
  end.

Definition resume_locked (id : SandboxId) (record : SandboxRecord) : AppM SandboxRecord :=
  spec ← read_sandbox_spec id;
  network_namespace ← prepare_sandbox_network id (spec_network spec);
  let image_dir := checkpoint_dir paths id in
  let mode := match spec_network_mode spec with
              | Some mode => runsc_network_mode mode
              | None => daemon_network_mode network_namespace
              end in
  r ← attempt (on_sys (restore_sandbox paths id (rec_containers record) image_dir Enforce mode));
  match r with
  | Err err => cleanup_partial_resume id record err ;; throw (AppRuntime err)
  | Ok _ =>
      record ← running_record id;
      ignore (app_io (on_sys (remove_dir_all image_dir))) ;;
      mret record
  end.

Definition resume_sandbox (id : SandboxId) : AppM SandboxRecord :=
  record ← get_record id;
  if negb (bool_decide (rec_status record = Suspended)) then throw (status_conflict id record ", not suspended") else
  resume_locked id record.

(** Before an exec: a suspended sandbox is resumed first. *)
Definition ensure_running (id : SandboxId) (record : SandboxRecord) : AppM SandboxRecord :=
  if bool_decide (rec_status record = Suspended) then resume_locked id record else mret record.

(** ** Snapshots *)

(** Once the name is reserved a failure gives it back. *)
Definition reserving {A} (name : string) (m : AppM A) : AppM A :=
  on_error (ignore (app_io (on_sys (snapshot_delete paths name)))) m.

Definition capture (id : SandboxId) (record : SandboxRecord) (image_dir : Path) : AppM () :=
  match rec_status record with
  | Running =>
      if runtime_supports_checkpoints
      then app_runtime (snapshot_sandbox paths id (rec_containers record) image_dir)
      else throw (Conflict hostinet_checkpoint_unsupported_message)
  | _ => app_runtime (copy_checkpoint_image (checkpoint_dir paths id) image_dir (rec_containers record))
  end.

(** [fresh_name] is the name made when the request gives none. *)
Definition snapshot_sandbox_handler (id : SandboxId) (fresh_name : string) (request : CreateSnapshotRequest)
    : AppM SnapshotManifest :=
  name ← lift_result match cs_name request with
    | Some name => (map_err (λ e, BadRequest (show_validation_error e)) (validate_snapshot_name name) ?;; Ok name)%rust
    | None => Ok fresh_name
    end;
  record ← get_record id;
  if negb (bool_decide (rec_status record = Running ∨ rec_status record = Suspended)) then
    throw (status_conflict id record "; must be running or suspended to snapshot") else
  spec ← read_sandbox_spec id;
  reserved ← app_io (on_sys (reserve paths name));
  if negb reserved then throw (Conflict ("snapshot " ++ name ++ " already exists")) else
  reserving name (capture id record (snapshot_checkpoint_dir paths name)) ;;
  t ← now;
  let manifest := SnapshotManifest_new t name (spec_pause_image spec) (spec_containers spec) (spec_network spec) in
  reserving name (app_io (on_sys (write_manifest paths manifest))) ;;
  mret manifest.

Definition delete_snapshot (name : string) : AppM () :=
  lift_result (map_err (λ e, BadRequest (show_validation_error e)) (validate_snapshot_name name)) ;;
  deleted ← app_io (on_sys (snapshot_delete paths name));
  if (deleted : bool) then mret tt else throw (NotFoundError ("snapshot " ++ name ++ " not found")).

(** ** Startup and shutdown *)

Definition delete_reconciled_non_running_containers (record : SandboxRecord)
    (judged : SandboxStatus * option string) : AppM (SandboxStatus * option string) :=
  if bool_decide (judged.1 = Running) then mret judged else
  r ← attempt (on_sys (delete_visible_container_sequence paths (rec_id record) (rec_containers record)));
  mret match r with
  | Ok [] => judged
  | Ok failures => (Unknown, Some ("failed to delete stale containers during startup reconciliation: " ++ show_failures failures))
  | Err err => (Unknown, Some ("failed to clean up stale containers during startup reconciliation: " ++ show_runtime_error err))
  end.

Definition judge_status (checkpoint_available : bool) (running : result RuntimeError bool)
    : SandboxStatus * option string :=
  match running with
  | Ok true => (Running, None)
  | Ok false => (if checkpoint_available then Suspended else Stopped, None)
  | Err _ => if checkpoint_available then (Suspended, None)
             else (Unknown, Some "failed to query runtime state during startup reconciliation")
  end.

Definition needs_reconciling (s : SandboxStatus) : bool :=
  match s with Pending | Running | Stopping | Unknown => true | _ => false end.

Definition reconcile_record (record : SandboxRecord) : AppM () :=
  if negb (needs_reconciling (rec_status record)) then mret tt else
  let id := rec_id record in
  checkpoint_available ← app_runtime
    (checkpoint_image_complete_for_containers (checkpoint_dir paths id) (rec_containers record));
  running ← attempt (on_sys (container_running_result paths id PAUSE_CONTAINER));
  judged ← delete_reconciled_non_running_containers record (judge_status checkpoint_available running);
  try_update id (mark judged.1 judged.2).

Definition reconcile_sandboxes : AppM () :=
  records ← app_io (on_reg registry_list);
  forM records reconcile_record.

(** One sandbox at shutdown: its record is read again under its lock. *)
Definition shutdown_record (recovered : SandboxRecord) : AppM () :=
  if negb (bool_decide (rec_status recovered = Running)) then mret tt else
  let id := rec_id recovered in
  found ← app_io (on_reg (registry_get id));
  match found with
  | Some record =>
      if bool_decide (rec_status record = Running) then ignore (suspend_locked id record) else mret tt
  | None => mret tt
  end.

Definition checkpoint_running_sandboxes_for_shutdown : AppM () :=
  if negb runtime_supports_checkpoints then mret tt else
  records ← app_io (on_reg registry_list);
  forM records shutdown_record.

(** The state the daemon starts to serve from. *)
Definition startup : AppM () :=
  app_io (on_sys (create_dir_all (sandboxes_dir paths))) ;;
  app_io (on_reg (recover paths)) ;;
  reconcile_sandboxes ;;
  ignore (on_net (Network.reconcile_all net_config paths envoy_text)).

(** ** Running containers *)

Definition resolve_running_container (record : SandboxRecord) (id : SandboxId) (requested : option string)
    : AppM string :=
  if negb (bool_decide (rec_status record = Running)) then throw (status_conflict id record ", not running") else
  container ← lift_result (ok_or
    match requested with Some c => Some c | None => default_log_container record end
    (NotFoundError ("sandbox " ++ as_str id ++ " has no containers")));
  if negb (bool_decide (container ∈ rec_containers record)) then
    throw (NotFoundError ("container " ++ quoted container ++ " not found in sandbox " ++ as_str id)) else
  running ← app_runtime (container_running paths id container);
  if (running : bool) then mret container else
  throw (Conflict ("container " ++ quoted container ++ " in sandbox " ++ as_str id ++ " is not running")).

Definition get_sandbox (id : SandboxId) : AppM SandboxRecord := get_record id.

Definition get_sandbox_network (id : SandboxId) : AppM SandboxNetworkResponse :=
  known ← app_io (on_reg (registry_contains id));
  if negb known then throw (not_found id) else
  if negb network_enabled then throw (Conflict "managed networking is disabled") else
  info ← app_network (Network.sandbox_info net_config paths id);
  info ← lift_result (ok_or info (NotFoundError ("network state for sandbox " ++ as_str id ++ " not found")));
  mret (mkSandboxNetworkResponse (as_str id) (show_ipv4 (host_gateway_ip info)) (show_ipv4 (info_sandbox_ip info))).
End lifecycle.
