(* ===== verification/LifecycleInv.v ===== *)
(** * The life of a sandbox

    The handlers of Lifecycle.v refine a small state machine on the status of
    one sandbox, and leave every other sandbox's record alone. *)
From S2P Require Import Prelude Str Core Cidr Nft Effect Os Entries Registry Json Snapshots Runtime Api OciBase App Network Lifecycle.

(** ** The abstract machine *)

Inductive Request : Type :=
| RqCreate (generated : SandboxId) (request : CreateSandboxRequest)
| RqDelete (id : SandboxId)
| RqSuspend (id : SandboxId)
| RqResume (id : SandboxId)
| RqSnapshot (id : SandboxId) (fresh_name : string) (request : CreateSnapshotRequest).

Inductive Verdict : Type := Done | Failed | Died.

(** What may become of the status of the sandbox a request is about; [None] is
    no sandbox of that id. [Died]: the daemon stopped in the middle. *)
Inductive lifecycle : Request → option SandboxStatus → Verdict → option SandboxStatus → Prop :=
| create_done g r : lifecycle (RqCreate g r) None Done (Some Running)
| create_refused g r s : lifecycle (RqCreate g r) s Failed s
| create_retained g r s : s ∈ [Pending; Error] → lifecycle (RqCreate g r) None Failed (Some s)
| create_died g r s : s ∈ [Pending; Error] → lifecycle (RqCreate g r) None Died (Some s)
| delete_done i s : lifecycle (RqDelete i) (Some s) Done None
| delete_failed i s s' : s' ∈ [s; Stopping; Error] → lifecycle (RqDelete i) (Some s) Failed (Some s')
| delete_unknown i : lifecycle (RqDelete i) None Failed None
| delete_died i s s' : s' ∈ [s; Stopping; Error] → lifecycle (RqDelete i) (Some s) Died (Some s')
| suspend_done i : lifecycle (RqSuspend i) (Some Running) Done (Some Suspended)
| suspend_refused i s : lifecycle (RqSuspend i) s Failed s
| suspend_failed i s : s ∈ [Suspended; Unknown] → lifecycle (RqSuspend i) (Some Running) Failed (Some s)
| suspend_died i s : s ∈ [Suspended; Unknown] → lifecycle (RqSuspend i) (Some Running) Died (Some s)
| resume_done i : lifecycle (RqResume i) (Some Suspended) Done (Some Running)
| resume_refused i s : lifecycle (RqResume i) s Failed s
| resume_failed i : lifecycle (RqResume i) (Some Suspended) Failed (Some Error)
| resume_died i s : s ∈ [Running; Error] → lifecycle (RqResume i) (Some Suspended) Died (Some s)
| snapshot_done i f r s : s ∈ [Running; Suspended] → lifecycle (RqSnapshot i f r) (Some s) Done (Some s)
| snapshot_failed i f r s : lifecycle (RqSnapshot i f r) s Failed s
| died rq s : lifecycle rq s Died s.

Definition verdict {E A} (o : outcome E A) : Verdict :=
  match o with Ret _ => Done | Throw _ => Failed | Crash => Died end.

(** The sandbox a request is about. *)
Definition subject (rq : Request) : option SandboxId :=
  match rq with
  | RqCreate g r => match request_id g r with Ok id => Some id | Err _ => None end
  | RqDelete id | RqSuspend id | RqResume id | RqSnapshot id _ _ => Some id
  end.

Section protocol.
Context {B : Type} `{!Bytes B, !Env B, !JsonText}.
Context `{!Codec B SandboxRecord, !Codec B SandboxNetworkState, !Codec B SandboxSpec, !Codec B SnapshotManifest}.
Notation records := (gmap string SandboxRecord).
Notation wtriple := (triple_on (@w_records B)).

Context (config : DaemonConfig) (paths : OadPaths) (envoy_text : result NetworkError B).
Context (prepare_pause_bundle : SandboxId → string → option Path → option Path → M (Os B) OciError ()).
Context (prepare_container_bundle : SandboxId → ContainerSpec → option Path → option Path → M (Os B) OciError ()).

Definition status_of (k : string) (r : records) : option SandboxStatus := rec_status <$> r !! k.

Section sandbox.
Context (id : SandboxId) (r0 : records).
Notation k := (as_str id).

(** The others are as they were, and the status of this one is in [S]. *)
Definition at_status (S : option SandboxStatus → Prop) (r : records) : Prop :=
  (∀ k', k' ≠ k → r !! k' = r0 !! k') ∧ S (status_of k r).

Notation only s := (λ x : option SandboxStatus, x = s).

Lemma at_mono S S' r : at_status S r → (∀ s, S s → S' s) → at_status S' r.
Proof. intros [H1 H2] HS. split; auto. Qed.

(** *** Code that does not touch the registry *)

Lemma sys_kept {E A} S (m : M (Os B) E A) : wtriple (at_status S) (on_sys m) (λ _, at_status S).
Proof. apply triple_on_steps. intros w. unfold on_sys, zoom. by destruct (m _). Qed.

Lemma net_kept {E A} S (m : M (NetWorld B) E A) : wtriple (at_status S) (on_net m) (λ _, at_status S).
Proof. apply triple_on_steps. intros w. unfold on_net, zoom. by destruct (m _). Qed.

Lemma mapE_kept {E F A} S (f : E → F) (m : M (World B) E A) :
  wtriple (at_status S) m (λ _, at_status S) → wtriple (at_status S) (mapE f m) (λ _, at_status S).
Proof. intros Hm. apply triple_on_mapE. eapply triple_on_weaken; [exact Hm|done|]. by intros []. Qed.

Lemma attempt_kept {E F A} S (m : M (World B) E A) :
  wtriple (at_status S) m (λ _, at_status S) →
  wtriple (at_status S) (attempt m : M (World B) F (result E A)) (λ _, at_status S).
Proof. intros Hm. apply triple_on_attempt. eapply triple_on_weaken; [exact Hm|done|]. by intros []. Qed.

Lemma ignore_kept {E F A} S (m : M (World B) E A) :
  wtriple (at_status S) m (λ _, at_status S) →
  wtriple (at_status S) (ignore m : M (World B) F ()) (λ _, at_status S).
Proof. intros Hm. apply triple_on_ignore. eapply triple_on_weaken; [exact Hm|done|]. by intros []. Qed.

(** [let _ = m.await] cannot fail. *)
Lemma ignore_done {E F A} (P : records → Prop) (m : M (World B) E A) :
  wtriple P m (λ _, P) →
  wtriple P (ignore m : M (World B) F ()) (λ o r, match o with Throw _ => False | _ => P r end).
Proof. intros Hm. apply triple_on_ignore. eapply triple_on_weaken; [exact Hm|done|]. by intros []. Qed.

Lemma ret_kept {E A} S (a : A) : wtriple (at_status S) (mret a : M (World B) E A) (λ _, at_status S).
Proof. by apply triple_on_ret. Qed.

Lemma throw_kept {E A} S (e : E) : wtriple (at_status S) (throw e : M (World B) E A) (λ _, at_status S).
Proof. by apply triple_on_throw. Qed.

Lemma lift_kept {E A} S (r : result E A) : wtriple (at_status S) (lift_result r) (λ _, at_status S).
Proof. by apply triple_on_lift. Qed.

Lemma now_kept {E} S : wtriple (at_status S) (now : M (World B) E Z) (λ _, at_status S).
Proof. by apply triple_on_steps. Qed.

Lemma bind_kept {E A A'} S (m : M (World B) E A) (f : A → M (World B) E A') :
  wtriple (at_status S) m (λ _, at_status S) → (∀ a, wtriple (at_status S) (f a) (λ _, at_status S)) →
  wtriple (at_status S) (m ≫= f) (λ _, at_status S).
Proof. intros Hm Hf. eapply triple_on_bind; [exact Hm|exact Hf|done|done]. Qed.

Lemma forM_kept {E A} S (l : list A) (f : A → M (World B) E ()) :
  (∀ x, wtriple (at_status S) (f x) (λ _, at_status S)) → wtriple (at_status S) (forM l f) (λ _, at_status S).
Proof. intros Hf. induction l as [|x l IH]; cbn [forM]; [apply ret_kept|by apply bind_kept]. Qed.

(** *** Code that does *)

Lemma on_reg_kept {E A} S (m : M (Os B) E A) : wtriple (at_status S) (on_reg (os m)) (λ _, at_status S).
Proof. apply triple_on_steps. intros w. unfold on_reg, os, zoom. simpl. by destruct (m _). Qed.

Lemma update_at S f x :
  (∀ t r, rec_status (f t r) = x) →
  wtriple (at_status S) (update paths id f) (λ o, at_status match o with
    | Ret (Some _) => only (Some x) | Ret None => λ s, s = None ∧ S None | _ => S end).
Proof.
  intros Hx w [Hf HS]. unfold wp, update, now, gets, on_reg, zoom, mbind, M_bind. simpl.
  unfold registry_update, registry_get, gets, mbind, M_bind. cbn [reg_records].
  set (t := env_nanos _). unfold status_of in HS.
  destruct (w_records w !! k) as [rec|] eqn:E; [|by split; [|rewrite /status_of /= E]].
  unfold persist, os, zoom. cbn [reg_os reg_records].
  destruct (write_json_atomic _ _ _) as [[[]|e|] o']; cbn; [|by split; [|rewrite /status_of E]..].
  rewrite E. cbn. split.
  - intros k' Hk. rewrite lookup_insert_ne; [by apply not_eq_sym|by apply Hf].
  - unfold status_of. by rewrite lookup_insert_eq /= Hx.
Qed.

Lemma try_update_at S f x :
  (∀ t r, rec_status (f t r) = x) →
  wtriple (at_status S) (try_update paths id f) (λ o, at_status (λ s, S s ∨ s = Some x)).
Proof.
  intros Hx. apply triple_on_ignore. eapply triple_on_weaken; [apply (update_at S f x Hx)|done|].
  intros [[a|]|e|] r Hr; (eapply at_mono; [exact Hr|]); intros s; naive_solver.
Qed.

Lemma remove_at S :
  wtriple (at_status S) (app_io (on_reg (registry_remove id)))
    (λ o r, match o with Ret _ => at_status (only None) r | _ => False end).
Proof.
  intros w [Hf _]. unfold wp. simpl. split.
  - intros k' Hk. simpl. rewrite lookup_delete_ne; [by apply not_eq_sym|by apply Hf].
  - unfold status_of. simpl. by rewrite lookup_delete_eq.
Qed.

Lemma insert_at S record :
  rec_id record = id →
  wtriple (at_status S) (insert_record paths record) (λ o, at_status match o with
    | Ret _ => only (Some (rec_status record)) | _ => S end).
Proof.
  intros Hid w [Hf HS]. unfold wp, insert_record, app_io, mapE, on_reg, zoom, registry_insert, mbind, M_bind.
  unfold persist, os, zoom. cbn [reg_os reg_records].
  destruct (write_json_atomic _ _ _) as [[[]|e|] o']; cbn; [|by split..].
  rewrite Hid. split.
  - intros k' Hk. rewrite lookup_insert_ne; [by apply not_eq_sym|by apply Hf].
  - unfold status_of. by rewrite lookup_insert_eq.
Qed.

(** A record that is read has the status there is; none is an error. *)
Lemma get_record_at S :
  wtriple (at_status S) (get_record id) (λ o, at_status match o with
    | Ret record => λ s, S s ∧ s = Some (rec_status record) | Throw _ => λ s, S s ∧ s = None | _ => S end).
Proof.
  intros w [Hf HS]. unfold wp. simpl. unfold status_of in HS.
  destruct (w_records w !! k) eqn:E; (split; [done|]); rewrite /status_of /= E //.
Qed.

(** *** Creating *)

Lemma app_kept {A} S (m : M (Os B) RuntimeError A) : wtriple (at_status S) (app_runtime m) (λ _, at_status S).
Proof. apply mapE_kept, sys_kept. Qed.

Lemma io_kept {A} S (m : M (Os B) IoError A) : wtriple (at_status S) (app_io (on_sys m)) (λ _, at_status S).
Proof. apply mapE_kept, sys_kept. Qed.

Lemma network_kept {A} S (m : M (NetWorld B) NetworkError A) :
  wtriple (at_status S) (app_network m) (λ _, at_status S).
Proof. apply mapE_kept, net_kept. Qed.

(** After code that keeps the record. *)
Lemma after_kept {E A A'} S (m : M (World B) E A) (f : A → M (World B) E A') Q :
  wtriple (at_status S) m (λ _, at_status S) → (∀ a, wtriple (at_status S) (f a) Q) →
  (∀ e r, at_status S r → Q (Throw e) r) → (∀ r, at_status S r → Q Crash r) →
  wtriple (at_status S) (m ≫= f) Q.
Proof. intros Hm Hf He Hc. eapply triple_on_bind; [exact Hm|exact Hf|exact He|exact Hc]. Qed.

Definition left_over : list (option SandboxStatus) := [None; Some Pending; Some Error].

Lemma cleanup_at names delete :
  wtriple (at_status (only (Some Pending)))
    (cleanup_failed_sandbox config paths id names delete) (λ _, at_status (λ s, s ∈ left_over)).
Proof.
  assert (Hw : ∀ (o : outcome AppError ()) r, at_status (only (Some Pending)) r → at_status (λ s, s ∈ left_over) r).
  { intros _ r Hr. eapply at_mono; [exact Hr|]. intros s ->. set_solver. }
  unfold cleanup_failed_sandbox. apply after_kept; [|intros failures| |].
  - destruct delete; [|apply ret_kept]. apply bind_kept; [apply attempt_kept, sys_kept|].
    intros a. apply ret_kept.
  - destruct failures as [|f fs].
    + apply after_kept; [apply ignore_kept, network_kept|intros _|apply (λ e r, Hw (Throw e) r)|apply (Hw Crash)].
      apply after_kept; [apply ignore_kept, io_kept|intros _|apply (λ e r, Hw (Throw e) r)|apply (Hw Crash)].
      assert (Hn : ∀ r, at_status (only None) r → at_status (λ s, s ∈ left_over) r).
      { intros r Hr. eapply at_mono; [exact Hr|]. intros s ->. set_solver. }
      eapply triple_on_bind; [apply remove_at|intros a; apply triple_on_ret, Hn|by intros|by intros].
    + eapply triple_on_weaken; [by eapply (try_update_at (only (Some Pending)) _ Error)|done|].
      intros o r Hr. eapply at_mono; [exact Hr|]. intros s [->| ->]; set_solver.
  - apply (λ e r, Hw (Throw e) r).
  - apply (Hw Crash).
Qed.

(** A guarded step that fails leaves no record, or one in [Pending] or [Error]. *)
Lemma guarded_at {A} names delete (m : M (World B) AppError A) s1 :
  wtriple (at_status (only (Some Pending))) m (λ o, at_status match o with Ret _ => only (Some s1) | _ => only (Some Pending) end) →
  wtriple (at_status (only (Some Pending))) (guarded config paths id names delete m)
    (λ o, at_status match o with Ret _ => only (Some s1) | _ => λ s, s ∈ left_over end).
Proof.
  intros Hm. eapply triple_on_on_error; [exact Hm|done| |].
  - intros r Hr. eapply at_mono; [exact Hr|]. intros s ->. set_solver.
  - intros e. eapply triple_on_weaken; [apply cleanup_at|done|]. by intros [].
Qed.

Lemma guarded_kept {A A'} names delete (m : M (World B) AppError A) (f : A → M (World B) AppError A') :
  wtriple (at_status (only (Some Pending))) m (λ _, at_status (only (Some Pending))) →
  (∀ a, wtriple (at_status (only (Some Pending))) (f a)
     (λ o, at_status match o with Ret _ => only (Some Running) | _ => λ s, s ∈ left_over end)) →
  wtriple (at_status (only (Some Pending))) (guarded config paths id names delete m ≫= f)
     (λ o, at_status match o with Ret _ => only (Some Running) | _ => λ s, s ∈ left_over end).
Proof.
  intros Hm Hf. eapply triple_on_bind; [apply (guarded_at names delete m Pending)|exact Hf|done|done].
  eapply triple_on_weaken; [exact Hm|done|]. by intros [].
Qed.

Lemma running_record_at s :
  wtriple (at_status (only (Some s))) (running_record paths id)
    (λ o, at_status match o with Ret _ => only (Some Running) | _ => only (Some s) end).
Proof.
  eapply triple_on_bind with (R := λ o, at_status match o with Ret (Some _) => only (Some Running)
    | Ret None => λ s', s' = None ∧ None = Some s | _ => only (Some s) end).
  - apply triple_on_mapE. eapply triple_on_weaken;
      [apply (update_at (only (Some s)) (mark Running None) Running); done|done|].
    by intros [[]| |].
  - intros [rec|].
    + apply triple_on_lift. done.
    + by intros w [_ [_ Hs]].
  - done.
  - done.
Qed.

Lemma build_sandbox_at names pause_image containers network bring_up :
  wtriple (at_status (only (Some Pending)))
    (build_sandbox config paths envoy_text prepare_pause_bundle prepare_container_bundle
       id names pause_image containers network bring_up)
    (λ o, at_status match o with Ret _ => only (Some Running) | _ => λ s, s ∈ left_over end).
Proof.
  unfold build_sandbox. apply guarded_kept.
  { unfold prepare_sandbox_network. destruct (network_enabled config); [apply network_kept|apply ret_kept]. }
  intros namespace. apply guarded_kept; [apply io_kept|intros _]. apply guarded_kept.
  { apply bind_kept; [apply mapE_kept, sys_kept|intros _]. apply forM_kept. intros c. apply mapE_kept, sys_kept. }
  intros _. apply guarded_kept; [apply app_kept|intros _]. apply guarded_at, running_record_at.
Qed.

(** Creation, once it is known that there is no such sandbox. *)
Definition created {A} (o : outcome AppError A) : records → Prop :=
  at_status match o with Ret _ => only (Some Running) | _ => λ s, s ∈ left_over end.

Lemma not_created {A} (o : outcome AppError A) r : (∀ a, o ≠ Ret a) → at_status (only None) r → created o r.
Proof.
  intros Ho Hr. eapply at_mono; [exact Hr|]. intros s ->. destruct o; [by destruct (Ho a)|set_solver..].
Qed.

Lemma insert_then_at {A} record (m : M (World B) AppError A) :
  rec_id record = id → rec_status record = Pending →
  wtriple (at_status (only (Some Pending))) m created →
  wtriple (at_status (only None)) (insert_record paths record ;; m) created.
Proof.
  intros Hid Hs Hm. eapply triple_on_bind; [by apply (insert_at (only None))|intros []; by rewrite Hs|..].
  - intros e r Hr. by apply not_created.
  - intros r Hr. by apply not_created.
Qed.

Ltac after_kept_created := apply after_kept; [|intros ?|intros; by apply not_created|intros; by apply not_created].

Lemma boot_fresh_sandbox_at request :
  wtriple (at_status (only None))
    (boot_fresh_sandbox config paths envoy_text prepare_pause_bundle prepare_container_bundle id request) created.
Proof.
  unfold boot_fresh_sandbox. after_kept_created; [apply lift_kept|].
  after_kept_created; [apply now_kept|]. apply insert_then_at; [done..|]. apply build_sandbox_at.
Qed.

Lemma fork_from_snapshot_at network snapshot :
  wtriple (at_status (only None))
    (fork_from_snapshot config paths envoy_text prepare_pause_bundle prepare_container_bundle id network snapshot)
    created.
Proof.
  unfold fork_from_snapshot. after_kept_created; [apply lift_kept|].
  after_kept_created; [apply io_kept|]. destruct (negb _).
  { apply triple_on_throw. intros r Hr. by apply not_created. }
  after_kept_created; [apply io_kept|]. after_kept_created; [apply lift_kept|].
  after_kept_created; [apply now_kept|]. apply insert_then_at; [done..|]. apply build_sandbox_at.
Qed.

Lemma lift_ok_bind {E A A'} (a : A) (f : A → M (World B) E A') : lift_result (Ok a) ≫= f = f a.
Proof. reflexivity. Qed.

(** *** Every handler against the machine *)

(** From status [s0], outcome and status after are as the machine says. *)
Definition follows {A} (rq : Request) (s0 : option SandboxStatus) (o : outcome AppError A) : records → Prop :=
  at_status (lifecycle rq s0 (verdict o)).

Lemma follows_failed {A} rq s0 (e : AppError) r :
  at_status (only s0) r → (∀ s, lifecycle rq s Failed s) → follows (A := A) rq s0 (Throw e) r.
Proof. intros Hr Hf. eapply at_mono; [exact Hr|]. intros s ->. apply Hf. Qed.

Lemma follows_died {A} rq s0 r : at_status (only s0) r → follows (A := A) rq s0 Crash r.
Proof. intros Hr. eapply at_mono; [exact Hr|]. intros s ->. apply died. Qed.

Lemma follows_sub {A} rq s0 (m : M (World B) AppError A) (P : records → Prop) (Q : outcome AppError A → option SandboxStatus → Prop) :
  wtriple P m (λ o, at_status (Q o)) → (∀ o s, Q o s → lifecycle rq s0 (verdict o) s) →
  wtriple P m (follows rq s0).
Proof. intros Hm HQ. eapply triple_on_weaken; [exact Hm|done|]. intros o r Hr. eapply at_mono; [exact Hr|]. apply HQ. Qed.

Lemma contains_at s0 :
  wtriple (at_status (only s0)) (app_io (on_reg (registry_contains id)))
    (λ o r, at_status (only s0) r ∧ ∀ b, o = Ret b → b = bool_decide (is_Some s0)).
Proof.
  intros w Hw. unfold wp. simpl. split; [done|]. intros b [= <-]. destruct Hw as [_ <-].
  apply bool_decide_ext. unfold status_of. by rewrite fmap_is_Some.
Qed.

Lemma create_at g request s0 :
  request_id g request = Ok id →
  wtriple (at_status (only s0))
    (create_sandbox config paths envoy_text prepare_pause_bundle prepare_container_bundle g request)
    (follows (RqCreate g request) s0).
Proof.
  intros Hid. set (rq := RqCreate g request).
  assert (Hf : ∀ e r, at_status (only s0) r → follows (A := SandboxRecord) rq s0 (Throw e) r).
  { intros e r Hr. apply follows_failed; [done|]. intros s. constructor. }
  assert (Hc : ∀ r, at_status (only s0) r → follows (A := SandboxRecord) rq s0 Crash r) by apply follows_died.
  unfold create_sandbox. apply after_kept; [apply lift_kept|intros []|exact Hf|exact Hc].
  rewrite Hid lift_ok_bind.
  eapply triple_on_bind; [apply contains_at| |intros e r []; by apply Hf|intros r []; by apply Hc].
  intros known. destruct known.
  { apply triple_on_throw. intros r [Hr _]. by apply Hf. }
  destruct s0 as [s0|]; [intros w [_ Hk]; by specialize (Hk _ eq_refl)|].
  apply triple_on_weaken with (P := at_status (only None)) (Q := follows rq None); [|by intros r []|done].
  apply after_kept; [apply io_kept|intros there|exact Hf|exact Hc]. destruct there.
  { apply triple_on_throw, Hf. }
  apply follows_sub with (Q := λ o, match o with Ret _ => only (Some Running) | _ => λ s, s ∈ left_over end).
  - destruct (cr_from_snapshot request); [apply fork_from_snapshot_at|apply boot_fresh_sandbox_at].
  - unfold rq, left_over. intros [rec|e|] s; [intros ->; apply create_done|..];
      intros Hs; repeat (apply elem_of_cons in Hs as [->|Hs]); try (by apply elem_of_nil in Hs).
    + apply create_refused.
    + apply create_retained. set_solver.
    + apply create_retained. set_solver.
    + apply died.
    + apply create_died. set_solver.
    + apply create_died. set_solver.
Qed.

(** The rest of a handler once the record has been read. *)
Lemma with_record {A} rq s0 (m : SandboxRecord → M (World B) AppError A) :
  (∀ s, lifecycle rq s Failed s) →
  (∀ record, s0 = Some (rec_status record) → wtriple (at_status (only s0)) (m record) (follows rq s0)) →
  wtriple (at_status (only s0)) (get_record id ≫= m) (follows rq s0).
Proof.
  intros Hf Hm. eapply triple_on_bind; [apply get_record_at|..].
  - intros record w [Hw [Hs Hr]]. apply Hm; [by rewrite -Hs|by split].
  - intros e r Hr. eapply at_mono; [exact Hr|]. intros s [-> _]. apply Hf.
  - intros r Hr. eapply at_mono; [exact Hr|]. intros s ->. apply died.
Qed.

(** Before the first change of the record. *)
Lemma before_change {A A'} rq s0 (m : M (World B) AppError A) (f : A → M (World B) AppError A') :
  (∀ s, lifecycle rq s Failed s) →
  wtriple (at_status (only s0)) m (λ _, at_status (only s0)) →
  (∀ a, wtriple (at_status (only s0)) (f a) (follows rq s0)) →
  wtriple (at_status (only s0)) (m ≫= f) (follows rq s0).
Proof.
  intros Hf Hm Hk. apply after_kept; [done|done|..].
  - intros e r Hr. by apply follows_failed.
  - intros r Hr. by apply follows_died.
Qed.

Lemma refused {A} rq s0 e :
  (∀ s, lifecycle rq s Failed s) →
  wtriple (at_status (only s0)) (throw e : M (World B) AppError A) (follows rq s0).
Proof. intros Hf. apply triple_on_throw. intros r Hr. by apply follows_failed. Qed.

Lemma snapshot_at fresh request s0 :
  wtriple (at_status (only s0)) (snapshot_sandbox_handler config paths id fresh request)
    (follows (RqSnapshot id fresh request) s0).
Proof.
  set (rq := RqSnapshot id fresh request).
  assert (Hf : ∀ s, lifecycle rq s Failed s) by (intros s; apply snapshot_failed).
  assert (Hres : ∀ A name (m : M (World B) AppError A), wtriple (at_status (only s0)) m (λ _, at_status (only s0)) →
            wtriple (at_status (only s0)) (reserving paths name m) (λ _, at_status (only s0))).
  { intros A name m Hm. eapply triple_on_on_error; [exact Hm|done|done|]. intros e.
    eapply triple_on_weaken; [apply (ignore_kept (only s0)), io_kept|done|]. by intros []. }
  unfold snapshot_sandbox_handler. apply before_change; [done|apply lift_kept|intros name].
  apply with_record; [done|]. intros record Hs0. case_bool_decide as Es; cbn [negb]; [|by apply refused].
  apply before_change; [done|..|intros spec].
  { apply bind_kept; [apply io_kept|intros body; apply lift_kept]. }
  apply before_change; [done|apply io_kept|intros reserved]. destruct reserved; cbn [negb]; [|by apply refused].
  apply before_change; [done|..|intros []].
  { apply Hres. unfold capture. destruct (rec_status record); try apply app_kept.
    destruct (runtime_supports_checkpoints config); [apply app_kept|apply throw_kept]. }
  apply before_change; [done|apply now_kept|intros t].
  apply before_change; [done|apply Hres, io_kept|intros []].
  apply triple_on_ret. intros r Hr. eapply at_mono; [exact Hr|]. intros s ->. subst s0.
  apply snapshot_done. set_solver.
Qed.

Lemma killed_kept S name : wtriple (at_status S) (kill_for_sandbox name) (λ _, at_status S).
Proof. by apply triple_on_steps. Qed.

(** An update that ends the handler: its result is the record's, its failure
    leaves the status. *)
Lemma final_update_at s f x :
  (∀ t r, rec_status (f t r) = x) →
  wtriple (at_status (only (Some s)))
    (updated ← app_io (update paths id f); lift_result (ok_or updated (not_found id)))
    (λ o, at_status match o with Ret _ => only (Some x) | _ => only (Some s) end).
Proof.
  intros Hx. eapply triple_on_bind with (R := λ o, at_status match o with Ret (Some _) => only (Some x)
    | Ret None => λ s', s' = None ∧ None = Some s | _ => only (Some s) end).
  - apply triple_on_mapE. eapply triple_on_weaken; [by apply (update_at (only (Some s)) f x)|done|].
    by intros [[]| |].
  - intros [rec|]; [by apply triple_on_lift|by intros w [_ [_ Hs]]].
  - done.
  - done.
Qed.

Lemma suspend_locked_at record :
  wtriple (at_status (only (Some Running))) (suspend_locked paths id record)
    (follows (RqSuspend id) (Some Running)).
Proof.
  set (rq := RqSuspend id).
  assert (Hf : ∀ s, lifecycle rq s Failed s) by (intros s; apply suspend_refused).
  unfold suspend_locked. apply before_change; [done|apply attempt_kept, sys_kept|intros [[]|err]].
  { eapply follows_sub; [by apply (final_update_at Running _ Suspended)|].
    intros [rec|e|] s ->; [apply suspend_done|apply suspend_refused|apply died]. }
  apply before_change; [done|apply app_kept|intros available].
  assert (Hend : ∀ status, status ∈ [Running; Suspended; Unknown] →
            wtriple (at_status (only (Some Running)))
              (try_update paths id (mark status (Some ("checkpoint failed: " ++ show_runtime_error err))) ;;
               throw (AppRuntime err) : M (World B) AppError SandboxRecord) (follows rq (Some Running))).
  { intros status Hst.
    assert (Hv : ∀ s, s = Some Running ∨ s = Some status → lifecycle rq (Some Running) Failed s).
    { intros s [->| ->]; [apply suspend_refused|].
      apply elem_of_cons in Hst as [->|Hst]; [apply suspend_refused|by apply suspend_failed]. }
    eapply triple_on_bind; [by apply (try_update_at (only (Some Running)) _ status)|intros []; apply triple_on_throw|..].
    - intros r Hr. eapply at_mono; [exact Hr|]. exact Hv.
    - intros e r Hr. eapply at_mono; [exact Hr|]. exact Hv.
    - intros r Hr. eapply at_mono; [exact Hr|]. intros s [->| ->]; [apply died|].
      apply elem_of_cons in Hst as [->|Hst]; [apply died|by apply suspend_died]. }
  eapply triple_on_bind with (R := λ o r, at_status (only (Some Running)) r ∧
      (∀ st, o = Ret st → st ∈ [Running; Suspended; Unknown])).
  - destruct available; [apply triple_on_ret; intros r Hr; split; [done|]; intros st [= <-]; set_solver|].
    eapply triple_on_bind; [apply (app_kept (only (Some Running)))|intros alive; apply triple_on_ret|by intros|by intros].
    intros r Hr. split; [done|]. intros st [= <-]. destruct alive; set_solver.
  - intros status w [Hw Hst]. apply (Hend status); [by apply Hst|done].
  - intros e r [Hr _]. by apply follows_failed.
  - intros r [Hr _]. by apply follows_died.
Qed.

Lemma suspend_at s0 :
  wtriple (at_status (only s0)) (suspend_sandbox config paths id) (follows (RqSuspend id) s0).
Proof.
  assert (Hf : ∀ s, lifecycle (RqSuspend id) s Failed s) by (intros s; apply suspend_refused).
  unfold suspend_sandbox. apply with_record; [done|]. intros record ->.
  case_bool_decide as Es; cbn [negb]; [|by apply refused].
  destruct (runtime_supports_checkpoints config); cbn [negb]; [|by apply refused].
  apply before_change; [done|apply killed_kept|intros []]. rewrite Es. apply suspend_locked_at.
Qed.

Lemma resume_at s0 :
  wtriple (at_status (only s0)) (resume_sandbox config paths envoy_text id) (follows (RqResume id) s0).
Proof.
  set (rq := RqResume id).
  assert (Hf : ∀ s, lifecycle rq s Failed s) by (intros s; apply resume_refused).
  unfold resume_sandbox. apply with_record; [done|]. intros record ->.
  case_bool_decide as Es; cbn [negb]; [|by apply refused]. rewrite Es. unfold resume_locked.
  apply before_change; [done|..|intros spec].
  { apply bind_kept; [apply io_kept|intros body; apply lift_kept]. }
  apply before_change; [done|..|intros namespace].
  { unfold prepare_sandbox_network. destruct (network_enabled config); [apply network_kept|apply ret_kept]. }
  apply before_change; [done|apply attempt_kept, sys_kept|intros [[]|err]].
  - eapply triple_on_bind; [apply running_record_at|intros rec|..].
    + eapply triple_on_bind; [apply (ignore_done (at_status (only (Some Running)))), io_kept|intros []|by intros|].
      * apply triple_on_ret. intros r Hr. eapply at_mono; [exact Hr|]. intros s ->. apply resume_done.
      * intros r Hr. eapply at_mono; [exact Hr|]. intros s ->. apply resume_died. set_solver.
    + intros e r Hr. by apply follows_failed.
    + intros r Hr. by apply follows_died.
  - eapply triple_on_bind with (R := λ o, at_status (λ s, s = Some Suspended ∨ s = Some Error));
      [|intros []; apply triple_on_throw|..].
    + unfold cleanup_partial_resume. set (S0 := λ s, s = Some Suspended ∨ s = Some Error).
      assert (Hw : ∀ r, at_status (only (Some Suspended)) r → at_status S0 r).
      { intros r Hr. eapply at_mono; [exact Hr|]. intros s ->. by left. }
      apply after_kept; [apply attempt_kept, sys_kept|intros [[|f fs]|e]|by intros e|done].
      * by apply triple_on_ret.
      * eapply triple_on_weaken; [by eapply (try_update_at (only (Some Suspended)) _ Error)|done|done].
      * eapply triple_on_weaken; [by eapply (try_update_at (only (Some Suspended)) _ Error)|done|done].
    + intros r Hr. eapply at_mono; [exact Hr|]. intros s [->| ->]; [apply resume_refused|apply resume_failed].
    + intros e r Hr. eapply at_mono; [exact Hr|]. intros s [->| ->]; [apply resume_refused|apply resume_failed].
    + intros r Hr. eapply at_mono; [exact Hr|]. intros s [->| ->]; [apply died|apply resume_died; set_solver].
Qed.

(** Deletion that fails half way keeps the record. *)
Definition half_deleted (st : SandboxStatus) : list (option SandboxStatus) := [Some st; Some Stopping; Some Error].

Lemma half_deleted_follows {A} st (o : outcome AppError A) r :
  (∀ a, o ≠ Ret a) → at_status (λ s, s ∈ half_deleted st) r → follows (RqDelete id) (Some st) o r.
Proof.
  intros Ho Hr. eapply at_mono; [exact Hr|]. intros s Hs.
  assert (∃ s', s = Some s' ∧ s' ∈ [st; Stopping; Error]) as (s' & -> & Hs').
  { repeat (apply elem_of_cons in Hs as [->|Hs]; [eexists; split; [done|set_solver]|]). by apply elem_of_nil in Hs. }
  destruct o; [by destruct (Ho a)|by apply delete_failed|by apply delete_died].
Qed.

Lemma delete_error_at {A} st f e :
  (∀ t r, rec_status (f t r) = Error) →
  wtriple (at_status (λ s, s ∈ half_deleted st)) (app_io (update paths id f) ;; throw e : M (World B) AppError A)
    (λ o r, match o with Ret _ => False | _ => at_status (λ s, s ∈ half_deleted st) r end).
Proof.
  intros Hx. eapply triple_on_bind with (R := λ _, at_status (λ s, s ∈ half_deleted st)).
  - apply triple_on_mapE. eapply triple_on_weaken; [by apply (update_at (λ s, s ∈ half_deleted st) f Error)|done|].
    intros [[rec|]|e'|] r Hr; (eapply at_mono; [exact Hr|]); intros s; set_solver.
  - intros _. by apply triple_on_throw.
  - done.
  - done.
Qed.

Lemma delete_refused_at {A} st f e :
  (∀ t r, rec_status (f t r) = Error) →
  wtriple (at_status (λ s, s ∈ half_deleted st)) (app_io (update paths id f) ;; throw e : M (World B) AppError A)
    (follows (RqDelete id) (Some st)).
Proof.
  intros Hx. eapply triple_on_weaken; [by apply (delete_error_at st)|done|].
  intros [] r Hr; [done|by apply half_deleted_follows..].
Qed.

Lemma delete_rest_at st current :
  wtriple (at_status (λ s, s ∈ half_deleted st))
    (removed ← app_io (on_reg (registry_remove id)); t ← now; mret (mark Stopped None t (default current removed)))
    (follows (RqDelete id) (Some st)).
Proof.
  eapply triple_on_bind; [apply remove_at|intros removed|by intros|by intros].
  intros w Hw. unfold wp. simpl. eapply at_mono; [exact Hw|]. intros s ->. apply delete_done.
Qed.

Lemma delete_at s0 :
  wtriple (at_status (only s0)) (Lifecycle.delete_sandbox config paths id) (follows (RqDelete id) s0).
Proof.
  assert (Hf : ∀ s, lifecycle (RqDelete id) s Failed s).
  { intros [s|]; [apply delete_failed; set_solver|apply delete_unknown]. }
  unfold Lifecycle.delete_sandbox. apply with_record; [done|]. intros current ->. set (st := rec_status current).
  apply before_change; [done|apply killed_kept|intros []].
  set (S1 := λ s, s ∈ half_deleted st).
  assert (Hh : ∀ A (o : outcome AppError A) r, (∀ a, o ≠ Ret a) → at_status S1 r → follows (RqDelete id) (Some st) o r)
    by (intros; by apply half_deleted_follows).
  eapply triple_on_bind with (R := λ _, at_status S1).
  { apply triple_on_mapE. eapply triple_on_weaken; [by eapply (update_at (only (Some st)) _ Stopping)|done|].
    intros [[rec|]|e|] r Hr; (eapply at_mono; [exact Hr|]); intros s; unfold S1, half_deleted; set_solver. }
  2: { intros e r Hr. by apply Hh. }
  2: { intros r Hr. by apply Hh. }
  intros _. apply after_kept; [|intros failures|intros e r Hr; by apply Hh|intros r Hr; by apply Hh].
  { destruct (decide (st = Suspended)); [apply ret_kept|apply app_kept]. }
  destruct failures as [|f fs]; [|by apply delete_refused_at].
  apply after_kept; [apply attempt_kept, net_kept|intros r|intros e r Hr; by apply Hh|intros r Hr; by apply Hh].
  destruct r as [[]|err]; [|by apply delete_refused_at].
  apply after_kept; [apply attempt_kept, sys_kept|intros r|intros e r Hr; by apply Hh|intros r Hr; by apply Hh].
  destruct r as [[]|err]; [apply delete_rest_at|].
  destruct (decide (err = NotFound)); [apply delete_rest_at|].
  eapply triple_on_bind; [by apply delete_error_at|by intros|..].
  - intros e r Hr. by apply Hh.
  - intros r Hr. by apply Hh.
Qed.
End sandbox.

(** ** The handlers refine the machine *)

Definition handle (rq : Request) : M (World B) AppError () :=
  match rq with
  | RqCreate g r => create_sandbox config paths envoy_text prepare_pause_bundle prepare_container_bundle g r ;; mret tt
  | RqDelete id => Lifecycle.delete_sandbox config paths id ;; mret tt
  | RqSuspend id => suspend_sandbox config paths id ;; mret tt
  | RqResume id => resume_sandbox config paths envoy_text id ;; mret tt
  | RqSnapshot id f r => snapshot_sandbox_handler config paths id f r ;; mret tt
  end.

Lemma handler_follows {A} id rq (m : M (World B) AppError A) (w : World B) :
  wtriple (at_status id (w_records w) (λ s, s = status_of (as_str id) (w_records w))) m
    (follows id (w_records w) rq (status_of (as_str id) (w_records w))) →
  let '(o, w') := (m ;; mret tt : M (World B) AppError ()) w in
  lifecycle rq (status_of (as_str id) (w_records w)) (verdict o) (status_of (as_str id) (w_records w')) ∧
  ∀ k, k ≠ as_str id → w_records w' !! k = w_records w !! k.
Proof.
  intros Hm. specialize (Hm w ltac:(by split)). unfold wp, mbind, M_bind in *.
  destruct (m w) as [[a|e|] w'] eqn:E; simpl in *; destruct Hm as [H1 H2]; by split.
Qed.

(** C2. Every request is a step of the machine for the sandbox it is about, and
    none for any other.  Whatever files, commands and the network do, and
    wherever the daemon is stopped, the record of the sandbox goes from its
    status to one that the machine allows with the verdict the client gets, and
    the records of all other sandboxes stay what they were. *)
Theorem handlers_refine_lifecycle (rq : Request) (w : World B) :
  match subject rq with
  | Some id =>
      let '(o, w') := handle rq w in
      lifecycle rq (status_of (as_str id) (w_records w)) (verdict o) (status_of (as_str id) (w_records w')) ∧
      ∀ k, k ≠ as_str id → w_records w' !! k = w_records w !! k
  | None => ∃ e, handle rq w = (Throw e, w)
  end.
Proof.
  destruct rq as [g r|id|id|id|id f r]; simpl.
  - destruct (request_id g r) as [id|e] eqn:Eid; [by apply handler_follows, create_at|].
    unfold handle, create_sandbox, mbind, M_bind, lift_result.
    destruct (match cr_from_snapshot r with None => _ | Some _ => _ end); [|by eexists].
    rewrite Eid. by eexists.
  - apply handler_follows, delete_at.
  - apply handler_follows, suspend_at.
  - apply handler_follows, resume_at.
  - apply handler_follows, snapshot_at.
Qed.
End protocol.
