(* ===== verification/Handlers.v ===== *)
(** * The HTTP interface (crates/oad/src/main.rs)

    The handlers that are not about the life of a sandbox (logs, execs,
    listings), and all of them behind the routes they are served from. *)
From S2P Require Import Prelude Str Core Cidr Nft Effect Os Entries Registry Json Snapshots Runtime Api OciBase App ExecSession ExecStream LogTail Network Lifecycle.

Section handlers.
Context {B : Type} `{!Bytes B, !Env B, !JsonText}.
Context `{!Codec B SandboxRecord, !Codec B SandboxNetworkState, !Codec B SandboxSpec, !Codec B SnapshotManifest}.
Notation AppM := (M (World B) AppError).
Implicit Types w : World B.

Context (config : DaemonConfig) (paths : OadPaths) (envoy_text : result NetworkError B).
Context (prepare_pause_bundle : SandboxId → string → option Path → option Path → M (Os B) OciError ()).
Context (prepare_container_bundle : SandboxId → ContainerSpec → option Path → option Path → M (Os B) OciError ()).

(** The bytes of a file, [String::from_utf8_lossy] on them, and the text of a time. *)
Context (raw : B → string) (lossy : string → string) (rfc3339 : Z → string).

(** What other tasks do to the state while a handler waits. *)
Context (others : World B → World B).

Notation ensure_running := (ensure_running config paths envoy_text).

(** ** Sandboxes and snapshots *)

Definition list_sandboxes : AppM (list SandboxRecord) := app_io (on_reg registry_list).

Definition snapshot_info (manifest : SnapshotManifest) : SnapshotInfo :=
  mkSnapshotInfo (man_name manifest) (manifest_container_names manifest) (rfc3339 (man_created_at manifest)).

Definition list_snapshots : AppM (list SnapshotInfo) :=
  snapshots ← app_io (on_sys (snapshot_list paths)); mret (map snapshot_info snapshots).

(** ** Logs *)

Definition read_log_tail (path : Path) (tail : nat) : AppM (list string) :=
  if (tail =? 0)%nat then mret [] else
  r ← attempt (on_sys (read_file path));
  match r with
  | Ok content => mret (log_tail lossy (raw content) tail)
  | Err err => if decide (err = NotFound) then mret [] else throw (AppIo err)
  end.

Definition get_logs (id : SandboxId) (query : LogsQuery) : AppM LogsResponse :=
  record ← get_record id;
  container ← resolve_running_container paths record id (lq_container query);
  let tail := Z.min (default 200%Z (lq_tail query)) 5000 in
  lines ← read_log_tail (container_log paths id container) (Z.to_nat tail);
  mret (mkLogsResponse (as_str id) container lines).

(** ** Execs *)

Definition check (b : bool) (e : AppError) : AppM () := if b then mret tt else throw e.

Definition exec_in_sandbox (id : SandboxId) (request : ExecRequest) : AppM ExecResponse :=
  check (negb (bool_decide (ex_command request = []))) (BadRequest "command must not be empty") ;;
  record ← get_record id;
  record ← ensure_running id record;
  container ← resolve_running_container paths record id (ex_container request);
  let env := render_env (ex_env request) in
  output ← app_runtime (exec_in_container paths id container (ex_command request) env (ex_cwd request));
  mret (mkExecResponse (as_str id) container (exit_code output) (exec_stdout output) (exec_stderr output)).

Definition set_execs (f : gmap string Session → gmap string Session) : AppM () :=
  modify (λ w, mkWorld (w_net w) (w_records w) (f (w_execs w))).

(** [exec_id] is the fresh uuid of the session. *)
Definition start_background_exec (id : SandboxId) (exec_id : string) (request : StartBackgroundExecRequest)
    : AppM BackgroundExecInfo :=
  check (negb (bool_decide (bx_command request = []))) (BadRequest "command must not be empty") ;;
  check (negb (bx_pty request && (bool_decide (bx_rows request = Some 0%Z) || bool_decide (bx_cols request = Some 0%Z))))
    (BadRequest "PTY rows and cols must be greater than zero") ;;
  record ← get_record id;
  record ← ensure_running id record;
  container ← resolve_running_container paths record id (bx_container request);
  let env := render_env (bx_env request) in
  let log_path := (logs_dir paths id ++ [("exec-" ++ exec_id ++ ".jsonl")%string])%list in
  let info := mkExecInfo exec_id (as_str id) container (bx_command request) (bx_pty request) ExecRunning None None in
  (if bx_pty request then
     app_runtime (spawn_pty_exec_in_container paths id
       (mkPtyExec container (bx_command request) env (bx_cwd request) (Some log_path)
          (mkPtySize (default DEFAULT_PTY_ROWS (bx_rows request)) (default DEFAULT_PTY_COLS (bx_cols request))))) ;;
     set_execs <[exec_id := Session_new_pty info]>
   else
     app_runtime (spawn_exec_in_container paths id container (bx_command request) env (bx_cwd request) (Some log_path)) ;;
     set_execs <[exec_id := Session_new info]>) ;;
  mret info.

Definition list_for_sandbox (sandbox_id : string) (execs : gmap string Session) : list BackgroundExecInfo :=
  btree_values (filter (λ ei : string * BackgroundExecInfo, bi_sandbox_id ei.2 = sandbox_id) (s_info <$> execs)).

Definition require_sandbox (id : SandboxId) : AppM () :=
  known ← app_io (on_reg (registry_contains id)); check known (not_found id).

Definition list_background_execs (id : SandboxId) : AppM (list BackgroundExecInfo) :=
  require_sandbox id ;; gets (λ w, list_for_sandbox (as_str id) (w_execs w)).

Definition background_exec_session (id : SandboxId) (exec_id : string) : AppM Session :=
  require_sandbox id ;;
  found ← gets (λ w, w_execs w !! exec_id);
  session ← lift_result (ok_or found (NotFoundError ("background exec " ++ exec_id ++ " not found")));
  check (bool_decide (bi_sandbox_id (s_info session) = as_str id))
    (NotFoundError ("background exec " ++ exec_id ++ " not found in sandbox " ++ as_str id)) ;;
  mret session.

Definition set_session (exec_id : string) (s : Session) : AppM () := set_execs <[exec_id := s]>.

Definition get_background_exec (id : SandboxId) (exec_id : string) : AppM BackgroundExecInfo :=
  session ← background_exec_session id exec_id; mret (s_info session).

(** The session is asked to stop and given a second to do so. *)
Definition kill_background_exec (id : SandboxId) (exec_id : string) (sent killed : bool) : AppM BackgroundExecInfo :=
  session ← background_exec_session id exec_id;
  let '(asked, session') := kill sent killed session in
  set_session exec_id session' ;;
  (if (asked : bool) then modify others else mret tt) ;;
  gets (λ w, match w_execs w !! exec_id with Some s => s_info s | None => s_info session' end).

Definition write_background_exec_stdin (id : SandboxId) (exec_id : string) (request : BackgroundExecStdinRequest)
    (write : result IoError ()) : AppM () :=
  check (negb (bool_decide (stdin_data request = "") && negb (stdin_close request)))
    (BadRequest "stdin request must include data or close=true") ;;
  session ← background_exec_session id exec_id;
  let '(answer, session') := write_stdin (stdin_data request) (stdin_close request) write session in
  set_session exec_id session' ;;
  accepted ← lift_result (map_err AppIo answer);
  check accepted (Conflict ("stdin for background exec " ++ exec_id ++ " is closed")).

Definition resize_background_exec (id : SandboxId) (exec_id : string) (request : BackgroundExecResizeRequest)
    (resized : bool) : AppM () :=
  check (negb (bool_decide (resize_rows request = 0%Z) || bool_decide (resize_cols request = 0%Z)))
    (BadRequest "PTY rows and cols must be greater than zero") ;;
  session ← background_exec_session id exec_id;
  check (resize resized session) (Conflict ("background exec " ++ exec_id ++ " is not PTY-backed")).

(** What is decided before the stream starts (ExecStream.v). *)
Definition stream_background_exec_events (id : SandboxId) (exec_id : string) (from : option Z) : AppM (Z * Session) :=
  session ← background_exec_session id exec_id; mret (default 1%Z from, session).

(** ** The routes *)

Inductive ApiRequest : Type :=
| CreateSandbox (generated : SandboxId) (request : CreateSandboxRequest)
| ListSandboxes
| GetSandbox (id : string)
| DeleteSandbox (id : string)
| GetLogs (id : string) (query : LogsQuery)
| GetSandboxNetwork (id : string)
| ExecInSandbox (id : string) (request : ExecRequest)
| StartBackgroundExec (id exec_id : string) (request : StartBackgroundExecRequest)
| ListBackgroundExecs (id : string)
| GetBackgroundExec (id exec_id : string)
| KillBackgroundExec (id exec_id : string) (sent killed : bool)
| WriteBackgroundExecStdin (id exec_id : string) (request : BackgroundExecStdinRequest) (write : result IoError ())
| ResizeBackgroundExec (id exec_id : string) (request : BackgroundExecResizeRequest) (resized : bool)
| StreamBackgroundExecEvents (id exec_id : string) (from : option Z)
| SuspendSandbox (id : string)
| ResumeSandbox (id : string)
| SnapshotSandbox (id fresh_name : string) (request : CreateSnapshotRequest)
| ListSnapshots
| DeleteSnapshot (name : string).

Definition at_id {A} (id : string) (handler : SandboxId → AppM A) : AppM A :=
  id ← lift_result (parse_sandbox_id id); handler id.

(** What the body of a good answer is made of; of a stream, where it starts and the
    session it is of. *)
Definition ApiAnswer (request : ApiRequest) : Type :=
  match request with
  | CreateSandbox _ _ | GetSandbox _ | DeleteSandbox _ | SuspendSandbox _ | ResumeSandbox _ => SandboxRecord
  | ListSandboxes => list SandboxRecord
  | GetLogs _ _ => LogsResponse
  | GetSandboxNetwork _ => SandboxNetworkResponse
  | ExecInSandbox _ _ => ExecResponse
  | StartBackgroundExec _ _ _ | GetBackgroundExec _ _ | KillBackgroundExec _ _ _ _ => BackgroundExecInfo
  | ListBackgroundExecs _ => list BackgroundExecInfo
  | WriteBackgroundExecStdin _ _ _ _ | ResizeBackgroundExec _ _ _ _ | DeleteSnapshot _ => ()
  | StreamBackgroundExecEvents _ _ _ => (Z * Session)
  | SnapshotSandbox _ _ _ => SnapshotManifest
  | ListSnapshots => list SnapshotInfo
  end.

(** The handler a request is routed to. *)
Definition serve (request : ApiRequest) : AppM (ApiAnswer request) :=
  match request return AppM (ApiAnswer request) with
  | CreateSandbox g r => create_sandbox config paths envoy_text prepare_pause_bundle prepare_container_bundle g r
  | ListSandboxes => list_sandboxes
  | GetSandbox id => at_id id get_sandbox
  | DeleteSandbox id => at_id id (Lifecycle.delete_sandbox config paths)
  | GetLogs id q => at_id id (λ id, get_logs id q)
  | GetSandboxNetwork id => at_id id (get_sandbox_network config paths)
  | ExecInSandbox id r => at_id id (λ id, exec_in_sandbox id r)
  | StartBackgroundExec id e r => at_id id (λ id, start_background_exec id e r)
  | ListBackgroundExecs id => at_id id list_background_execs
  | GetBackgroundExec id e => at_id id (λ id, get_background_exec id e)
  | KillBackgroundExec id e s k => at_id id (λ id, kill_background_exec id e s k)
  | WriteBackgroundExecStdin id e r w => at_id id (λ id, write_background_exec_stdin id e r w)
  | ResizeBackgroundExec id e r ok => at_id id (λ id, resize_background_exec id e r ok)
  | StreamBackgroundExecEvents id e from => at_id id (λ id, stream_background_exec_events id e from)
  | SuspendSandbox id => at_id id (suspend_sandbox config paths)
  | ResumeSandbox id => at_id id (resume_sandbox config paths envoy_text)
  | SnapshotSandbox id n r => at_id id (λ id, snapshot_sandbox_handler config paths id n r)
  | ListSnapshots => list_snapshots
  | DeleteSnapshot n => delete_snapshot paths n
  end.

(** ** Which errors are answered *)

(** The statuses of errors in the documentation of each route (401 apart). *)
Definition documented (request : ApiRequest) : list Z :=
  match request with
  | CreateSandbox _ _ => [400; 409; 500]
  | ListSandboxes | ListSnapshots => []
  | GetSandbox _ | ListBackgroundExecs _ | GetBackgroundExec _ _ | KillBackgroundExec _ _ _ _
  | StreamBackgroundExecEvents _ _ _ => [400; 404]
  | DeleteSandbox _ | GetLogs _ _ | ExecInSandbox _ _ | DeleteSnapshot _ => [400; 404; 500]
  | GetSandboxNetwork _ | ResizeBackgroundExec _ _ _ _ => [400; 404; 409]
  | StartBackgroundExec _ _ _ | WriteBackgroundExecStdin _ _ _ _ | SuspendSandbox _ | ResumeSandbox _
  | SnapshotSandbox _ _ _ => [400; 404; 409; 500]
  end%Z.

(** Those the code can also answer. *)
Definition undocumented (request : ApiRequest) : list Z :=
  match request with
  | CreateSandbox _ _ => [404; 413]       (* an unknown snapshot; a layer that is too large *)
  | GetLogs _ _ | ExecInSandbox _ _ => [409]                        (* not running *)
  | GetSandboxNetwork _ => [500]
  | _ => []
  end%Z.

Definition answers (statuses : list Z) (e : AppError) : Prop := (into_response e).1 ∈ statuses.

(** ** Errors of the checks of a request *)

Notation bad_request := (errs (λ e, (into_response e).1 = 400%Z)).

Definition is_config (e : NetworkError) : Prop := match e with InvalidConfig _ => True | _ => False end.

Lemma parse_ipv4_cidr_config s : errs is_config (parse_ipv4_cidr s).
Proof.
  unfold parse_ipv4_cidr. apply errs_bind; [by apply errs_ok_or|]. intros [ip prefix].
  apply errs_bind; [by apply errs_ok_or|]. intros a. apply errs_bind; [by apply errs_ok_or|]. intros b. by case_match.
Qed.

Lemma validate_rules_config rules : errs is_config (validate_rules rules).
Proof.
  apply errs_for_each. intros r. apply errs_bind; [apply parse_ipv4_cidr_config|]. intros _.
  apply errs_for_each. intros p. unfold validate_port. by case_match.
Qed.

Lemma validate_spec_config spec : errs is_config (validate_spec spec).
Proof.
  unfold validate_spec. apply errs_bind; [case_match; try done; apply validate_rules_config|]. intros _.
  apply errs_bind; [apply validate_rules_config|]. intros _. by repeat case_match.
Qed.

Lemma effective_network_bad n : bad_request (effective_network config n).
Proof.
  unfold effective_network. apply errs_bind; [unfold validate_network_available; by case_match|]. intros _.
  apply errs_bind; [|done]. apply errs_map_err. pose proof (validate_spec_config n) as Hc.
  destruct (validate_spec n) as [|[]]; done.
Qed.

Lemma bad_map_err {E A} (f : E → string) (r : result E A) : bad_request (map_err (λ e, BadRequest (f e)) r).
Proof. by destruct r. Qed.

Lemma validate_containers_bad l : bad_request (validate_containers l).
Proof.
  assert (Hl : ∀ names, bad_request (validate_container_list names l)).
  { induction l as [|c l IH]; intros names; simpl; [done|]. apply errs_bind; [apply bad_map_err|].
    intros _. case_decide; [done|]. case_decide; [done|apply IH]. }
  unfold validate_containers. destruct l; [done|apply Hl].
Qed.

Lemma request_id_bad g r : bad_request (request_id g r).
Proof. unfold request_id. case_match; [|done]. apply bad_map_err. Qed.

(** ** Errors of each handler *)

Section answers.
Context (S : list Z).
Notation may := (throws (answers S)).

Lemma may_io {A} (m : M (World B) IoError A) : 500%Z ∈ S → may (app_io m).
Proof. intros HS. by apply throws_mapE. Qed.

Lemma may_runtime {A} (m : M (Os B) RuntimeError A) : 500%Z ∈ S → may (app_runtime m).
Proof. intros HS. by apply throws_mapE. Qed.

Lemma may_network {A} (m : M (NetWorld B) NetworkError A) : 400%Z ∈ S → 500%Z ∈ S → may (app_network m).
Proof. intros H4 H5. apply throws_mapE. by intros []. Qed.

Lemma may_oci {A} (m : M (World B) OciError A) : 400%Z ∈ S → 413%Z ∈ S → 500%Z ∈ S → may (mapE AppOci m).
Proof. intros H4 H13 H5. apply throws_mapE. by intros []. Qed.

(** Reading the registry does not fail. *)
Lemma may_gets {A} (f : RegWorld B → A) : may (app_io (on_reg (gets f))).
Proof. done. Qed.

Lemma may_found (id : SandboxId) : 404%Z ∈ S → answers S (not_found id).
Proof. done. Qed.

Lemma may_get_record id : 404%Z ∈ S → may (get_record id : AppM _).
Proof.
  intros HS. apply throws_bind; [apply may_gets|]. intros found. apply throws_lift.
  by apply errs_ok_or.
Qed.

Lemma may_check b e : answers S e → may (check b e : AppM _).
Proof. destruct b; [intros _; apply throws_ret|apply throws_throw]. Qed.

Lemma may_require_sandbox id : 404%Z ∈ S → may (require_sandbox id : AppM _).
Proof. intros HS. apply throws_bind; [apply may_gets|]. intros known. by apply may_check. Qed.

Lemma may_parse_id id : 400%Z ∈ S → may (lift_result (parse_sandbox_id id) : AppM _).
Proof.
  intros HS. apply throws_lift, errs_map_err. by destruct (SandboxId_new id).
Qed.

Lemma may_at_id {A} id (h : SandboxId → AppM A) : 400%Z ∈ S → (∀ id, may (h id)) → may (at_id id h).
Proof.
  intros HS Hh. apply throws_bind; [by apply may_parse_id|]. intros id'. apply Hh.
Qed.

Lemma may_session id e : 404%Z ∈ S → may (background_exec_session id e : AppM _).
Proof.
  intros HS. apply throws_bind; [by apply may_require_sandbox|]. intros _. apply throws_bind; [apply throws_gets|].
  intros found. apply throws_bind.
  - by apply throws_lift, errs_ok_or.
  - intros s. apply throws_bind; [by apply may_check|]. intros _. apply throws_ret.
Qed.

Lemma may_resolve record id requested :
  404%Z ∈ S → 409%Z ∈ S → 500%Z ∈ S → may (resolve_running_container paths record id requested : AppM _).
Proof.
  intros H4 H9 H5. unfold resolve_running_container. destruct (negb _); [by apply throws_throw|].
  apply throws_bind; [by apply throws_lift, errs_ok_or|].
  intros c. destruct (negb _); [by apply throws_throw|].
  apply throws_bind; [by apply may_runtime|]. intros []; [apply throws_ret|by apply throws_throw].
Qed.
Lemma may_lift_bad {A} (r : result AppError A) :
  400%Z ∈ S → errs (λ e, (into_response e).1 = 400%Z) r → may (lift_result r : AppM A).
Proof. intros HS Hr. apply throws_lift. destruct r as [|e]; [done|]. unfold answers. simpl in *. by rewrite Hr. Qed.

Ltac status := first [assumption | apply (bool_decide_unpack _); vm_compute; exact I].

(** One step through the code of a handler. *)
Ltac may_step :=
  first
  [ apply throws_ret | apply throws_gets | apply throws_modify | apply throws_attempt | apply throws_ignore
  | apply throws_on_error | apply throws_forM; intros ?
  | apply may_gets | apply may_io; status | apply may_runtime; status | apply may_network; status
  | apply may_oci; status | apply may_get_record; status | apply may_session; status | apply may_resolve; status
  | apply may_require_sandbox; status | apply may_check; status | apply throws_throw; status
  | apply throws_lift, errs_ok_or; status
  | apply may_lift_bad; [status|];
      first [apply bad_map_err | apply request_id_bad | apply effective_network_bad | apply validate_containers_bad]
  | apply throws_bind; [|intros ?] ].
Ltac may_go := repeat first [may_step | case_match].

Lemma may_running_record id : 404%Z ∈ S → 500%Z ∈ S → may (running_record paths id : AppM _).
Proof.
  intros H4 H5. unfold running_record. may_go.
Qed.

Lemma may_read_spec id : 500%Z ∈ S → may (read_sandbox_spec paths id : AppM _).
Proof.
  intros H5. unfold read_sandbox_spec. may_go.
Qed.

Lemma may_prepare_network id n : 400%Z ∈ S → 500%Z ∈ S → may (prepare_sandbox_network config paths envoy_text id n : AppM _).
Proof. intros H4 H5. unfold prepare_sandbox_network. may_go. Qed.

Lemma may_suspend_locked id r : 404%Z ∈ S → 500%Z ∈ S → may (suspend_locked paths id r : AppM _).
Proof.
  intros H4 H5. unfold suspend_locked. may_go.
Qed.

Lemma may_resume_locked id r :
  400%Z ∈ S → 404%Z ∈ S → 500%Z ∈ S → may (resume_locked config paths envoy_text id r : AppM _).
Proof.
  intros H0 H4 H5. unfold resume_locked.
  apply throws_bind; [by apply may_read_spec|]. intros spec.
  apply throws_bind; [by apply may_prepare_network|]. intros ns.
  apply throws_bind; [apply throws_attempt|]. intros [[]|err].
  - apply throws_bind; [by apply may_running_record|]. intros record. may_go.
  - apply throws_bind; [|intros _; by apply throws_throw]. unfold cleanup_partial_resume, try_update. may_go.
Qed.

Lemma may_ensure_running id r :
  400%Z ∈ S → 404%Z ∈ S → 500%Z ∈ S → may (ensure_running id r : AppM _).
Proof. intros H0 H4 H5. unfold Lifecycle.ensure_running. case_match; [by apply may_resume_locked|apply throws_ret]. Qed.


Lemma may_create g r :
  400%Z ∈ S → 404%Z ∈ S → 409%Z ∈ S → 413%Z ∈ S → 500%Z ∈ S →
  may (create_sandbox config paths envoy_text prepare_pause_bundle prepare_container_bundle g r : AppM _).
Proof.
  intros H0 H4 H9 H13 H5. unfold create_sandbox, fork_from_snapshot, boot_fresh_sandbox. may_go.
  all: by apply may_prepare_network.
Qed.

Lemma may_delete id : 400%Z ∈ S → 404%Z ∈ S → 500%Z ∈ S → may (Lifecycle.delete_sandbox config paths id : AppM _).
Proof.
  intros H0 H4 H5.  unfold Lifecycle.delete_sandbox, kill_for_sandbox. may_go.
  apply throws_throw. match goal with |- answers _ (AppNetwork ?e) => by destruct e end.
Qed.

Lemma may_snapshot id n r :
  400%Z ∈ S → 404%Z ∈ S → 409%Z ∈ S → 500%Z ∈ S → may (snapshot_sandbox_handler config paths id n r : AppM _).
Proof.
  intros H0 H4 H9 H5. unfold snapshot_sandbox_handler, capture, reserving. may_go.
  apply may_lift_bad; [done|]. by apply errs_bind; [apply bad_map_err|].
Qed.
Lemma may_list_snapshots : may (list_snapshots : AppM _).
Proof.
  unfold list_snapshots. apply throws_bind; [|intros; apply throws_ret].
  apply throws_mapE_only, throws_zoom, (throws_weaken _ (λ _, False)); [|done].
  apply throws_bind; [apply throws_attempt|]. intros [names|]; [|apply throws_ret].
  apply throws_bind; [|intros; apply throws_ret]. apply throws_mapM. intros n.
  apply throws_bind; [apply throws_attempt|]. intros [m|]; apply throws_ret.
Qed.

Lemma may_serve request :
  (∀ z, z ∈ (documented request ++ undocumented request)%list → z ∈ S) → may (serve request).
Proof.
  intros HS. destruct request; cbn [serve documented undocumented app] in HS |- *.
  all: match type of HS with ∀ z, z ∈ ?l → _ =>
    assert (HS' : Forall (λ z, z ∈ S) l) by (apply Forall_forall; exact HS); clear HS end.
  all: repeat match goal with H : Forall _ (_ :: _) |- _ => apply Forall_cons in H as [? H] end; clear HS'.
  all: try (apply may_at_id; [status|intros ?]); try done.

  - by apply may_create.
  - unfold get_sandbox. may_go.
  - by apply may_delete.
  - unfold get_logs, read_log_tail. may_go.
  - unfold get_sandbox_network. may_go.
  - unfold exec_in_sandbox. may_go; by apply may_ensure_running.
  - unfold start_background_exec. may_go; by apply may_ensure_running.
  - unfold list_background_execs. may_go.
  - unfold get_background_exec. may_go.
  - unfold kill_background_exec. may_go.
  - unfold write_background_exec_stdin. may_go. apply throws_lift, errs_map_err.
    match goal with |- errs _ ?r => by destruct r end.
  - unfold resize_background_exec. may_go.
  - unfold stream_background_exec_events. may_go.
  - unfold suspend_sandbox, kill_for_sandbox. may_go.
  - unfold resume_sandbox. may_go; by apply may_prepare_network.
  - by apply may_snapshot.
  - apply may_list_snapshots.
  - unfold delete_snapshot. may_go.
Qed.
End answers.

(** C35. The error a handler answers, of a request whose path, query and body axum's
    extractors accepted (what they reject they answer themselves), has a status the
    documentation of the route lists, on all routes but five; on those it may
    also be the one or two that [undocumented] lists, which the documentation
    leaves out and the code does answer ([HandlersInv.undocumented_answered]). *)
Theorem serve_answers (request : ApiRequest) :
  throws (answers (documented request ++ undocumented request)%list) (serve request).
Proof. by apply may_serve. Qed.
End handlers.
