(* ===== verification/Demo.v ===== *)
(** * An instance of the daemon's world

    Documents of every kind in one store, and two sandboxes, each with a
    background exec: the concrete inputs of the development's examples. *)
From S2P Require Import Prelude Str Core Cidr Nft Effect Os Json Snapshots Api OciBase App ExecSession Network Lifecycle.

(** What a file holds: text, or one of the daemon's documents. *)
Inductive Doc : Type :=
| DocRecord (r : SandboxRecord)
| DocNetwork (s : SandboxNetworkState)
| DocSpec (s : SandboxSpec)
| DocManifest (m : SnapshotManifest).

Notation blob := (string + Doc)%type.

#[global] Instance codec_record : Codec blob SandboxRecord :=
  {| to_json r := inr (DocRecord r); from_json b := match b with inr (DocRecord r) => Some r | _ => None end;
     from_to_json _ := eq_refl |}.

#[global] Instance codec_network : Codec blob SandboxNetworkState :=
  {| to_json r := inr (DocNetwork r); from_json b := match b with inr (DocNetwork r) => Some r | _ => None end;
     from_to_json _ := eq_refl |}.

#[global] Instance codec_spec : Codec blob SandboxSpec :=
  {| to_json r := inr (DocSpec r); from_json b := match b with inr (DocSpec r) => Some r | _ => None end;
     from_to_json _ := eq_refl |}.

#[global] Instance codec_manifest : Codec blob SnapshotManifest :=
  {| to_json r := inr (DocManifest r); from_json b := match b with inr (DocManifest r) => Some r | _ => None end;
     from_to_json _ := eq_refl |}.

(** No document is read back from runsc here. *)
#[global] Instance no_json : JsonText := {| json_from_str _ := None |}.

Definition demo_record (id : string) (status : SandboxStatus) : SandboxRecord :=
  set_status 0 status (new_pending 0 (mkSandboxId id) [PAUSE_CONTAINER; "main"]).

Definition demo_session (exec_id id : string) : Session :=
  Session_new (mkExecInfo exec_id id "main" ["sleep"] false ExecRunning None None).

Definition demo_world : World blob :=
  mkWorld (mkNetWorld (mkOs ∅ [] 0) ∅ false false)
    {[ "a" := demo_record "a" Running; "b" := demo_record "b" Running ]}
    {[ "e1" := demo_session "e1" "a"; "e2" := demo_session "e2" "b" ]}.

Definition demo_config : DaemonConfig :=
  mkDaemonConfig (mkHttpConfig "127.0.0.1:8080" "secret")
    (mkRuntimeConfig ["srv"] "pause:3" None network_runtime_default (mkObservability false)).
