(* ===== verification/Startup.v ===== *)
(** * From the arguments to serving, and to the end ([main], crates/oad/src/main.rs)

    The settings, the recovery of what an earlier daemon left, the network, the
    address that is listened on; then requests; then checkpoints.  The server of
    HTTP, axum's, is a parameter. *)
From S2P Require Import Prelude Str Json Core Cidr Nft Effect Os Entries Registry Snapshots Runtime Api OciBase Config DaemonConfig App ExecSession Envoy Network Observability Lifecycle Demo.

(** What requests are served with. *)
Record AppState : Type := mkAppState { st_config : DaemonConfig; st_paths : OadPaths; st_telemetry : EgressTelemetry; st_audit_socket : bool }.

Section startup.
Context {B : Type} `{!Bytes B, !Env B, !JsonText, !TomlText}.
Context `{!Codec B SandboxRecord, !Codec B SandboxNetworkState, !Codec B SandboxSpec, !Codec B SnapshotManifest}.
Notation MainM := (M (World B) string).

(** The user, the arguments, the environment, the files of settings, the exporter
    of traces, serde's text of a value. *)
Context (is_root : bool) (args : list string) (env : string → option string) (read : string → result ReadError string) (cwd : Path).
Context (exporter : result string ()) (pretty : Value → result NetworkError string) (show_app_error : AppError → string).

Definition ensure_started_as_root : result string () :=
  if is_root then Ok tt else Err "oad must be started as root; try running it with sudo".

Definition context {E A} (c : string) (m : M (World B) E A) : MainM A := mapE (λ _, c) m.

(** What Envoy is given, of these settings. *)
Definition envoy_text_of (config : DaemonConfig) (paths : OadPaths) : result NetworkError B :=
  result_map text (render_envoy_config pretty (obs_enabled (rt_observability (runtime config)))
    (envoy_listener (rt_network (runtime config))) (display (envoy_access_log_socket paths))).

Definition boot_with (config : DaemonConfig) : MainM AppState :=
  let paths := mkOadPaths (rt_base_dir (runtime config)) in
  let network := rt_network (runtime config) in
  let observability := rt_observability (runtime config) in
  context ("failed to create " ++ display (sandboxes_dir paths)) (on_sys (create_dir_all (sandboxes_dir paths))) ;;
  mapE show_io_error (on_reg (recover paths)) ;;
  mapE show_app_error (reconcile_sandboxes paths) ;;
  lift_result (map_err (λ _, "failed to initialize network manager") (NetworkManager_new network)) ;;
  telemetry ← lift_result (map_err (λ e, "failed to initialize egress telemetry: " ++ e) (EgressTelemetry_new observability exporter));
  ignore (on_net (Network.reconcile_all network paths (envoy_text_of config paths))) ;;
  addr ← lift_result (ok_or (parse_socket_addr (bind (http config))) ("invalid bind address " ++ quoted (bind (http config))));
  context ("failed to bind " ++ bind (http config)) (on_sys (bind_socket "tcp" (bind (http config)))) ;;
  mret (mkAppState config paths telemetry (net_enabled network && obs_enabled observability)).

(** Nothing to serve: the usage was asked for. *)
Definition boot : MainM (option AppState) :=
  lift_result ensure_started_as_root ;;
  started ← lift_result (config_path_from_args args);
  match started with
  | Usage => mret None
  | RunWith path => config ← lift_result (load_config env read cwd path); st ← boot_with config; mret (Some st)
  end.

Definition main_daemon (serve : AppState → MainM ()) : MainM () :=
  st ← boot;
  match st with
  | None => mret tt
  | Some st =>
      served ← attempt (serve st);
      mapE show_app_error (checkpoint_running_sandboxes_for_shutdown (st_config st) (st_paths st)) ;;
      lift_result (map_err (λ _, "http server failed") served)
  end.
(** *** What a daemon serves with *)

Lemma bind_returned {S A C} (m : M S string A) (k : A → M S string C) s c s' :
  (m ≫= k) s = (Ret c, s') → ∃ a s1, m s = (Ret a, s1) ∧ k a s1 = (Ret c, s').
Proof. unfold mbind, M_bind. destruct (m s) as [[a| |] s1] eqn:E; [|done|done]. intros H'. by exists a, s1. Qed.

Lemma lifted {S A} (r : result string A) (s : S) a s' : lift_result r s = (Ret a, s') → r = Ok a ∧ s' = s.
Proof. unfold lift_result. destruct r; intros [= ? ?]; by subst. Qed.

(** Settings that a daemon can serve with. *)
Definition servable (config : DaemonConfig) : Prop :=
  NetworkManager_new (rt_network (runtime config)) = Ok tt ∧ is_Some (parse_socket_addr (bind (http config))) ∧
  bearer_token (http config) ≠ "" ∧ (net_enabled (rt_network (runtime config)) = true → rt_network_namespace (runtime config) = None).

Lemma boot_with_state config w st w' : boot_with config w = (Ret st, w') →
  st_config st = config ∧ st_paths st = mkOadPaths (rt_base_dir (runtime config)) ∧
  NetworkManager_new (rt_network (runtime config)) = Ok tt ∧ is_Some (parse_socket_addr (bind (http config))) ∧
  (st_audit_socket st = true → enabled (st_telemetry st) = true ∧ net_enabled (rt_network (runtime config)) = true).
Proof.
  intros Hb. unfold boot_with in Hb.
  apply bind_returned in Hb as (? & w1 & _ & Hb). apply bind_returned in Hb as (? & w2 & _ & Hb). apply bind_returned in Hb as (? & w3 & _ & Hb).
  apply bind_returned in Hb as ([] & w4 & [Hn ->]%lifted & Hb). apply bind_returned in Hb as (t & w5 & [Ht ->]%lifted & Hb).
  apply bind_returned in Hb as (? & w6 & _ & Hb). apply bind_returned in Hb as (a & w7 & [Ha ->]%lifted & Hb).
  apply bind_returned in Hb as (? & w8 & _ & Hb). injection Hb as <- _. cbn. split_and!; [done|done|by apply map_err_ok in Hn| |].
  - destruct (parse_socket_addr _); [done|]. by apply map_err_ok in Ha || discriminate.
  - intros [Hnet Hobs]%andb_true_iff. split; [|done]. apply map_err_ok in Ht. unfold EgressTelemetry_new in Ht. rewrite Hobs in Ht. cbn in Ht.
    destruct exporter; [|done]. by injection Ht as <-.
Qed.

Lemma boot_unfold (w : World B) : boot w =
  if negb is_root then (Throw "oad must be started as root; try running it with sudo", w) else
  match config_path_from_args args with
  | Err e => (Throw e, w)
  | Ok Usage => (Ret None, w)
  | Ok (RunWith path) =>
      match load_config env read cwd path with
      | Err e => (Throw e, w)
      | Ok config => match boot_with config w with (Ret st, w') => (Ret (Some st), w') | (Throw e, w') => (Throw e, w') | (Crash, w') => (Crash, w') end
      end
  end.
Proof.
  unfold boot, ensure_started_as_root, lift_result, mbind, M_bind. destruct is_root; [|done].
  destruct (config_path_from_args args) as [[|path]|e]; [done| |done]. cbn [negb]. by destruct (load_config env read cwd path).
Qed.

(** A daemon that comes to serve was started as root, with settings put together
    from a file it read and the environment: a token, no managed network inside a
    namespace of the host, a network and an address that can be used.  One that
    was not, or whose arguments or settings are refused, leaves the system as it
    found it. *)
Theorem boot_servable (w : World B) :
  match boot w with
  | (Ret (Some st), _) =>
      is_root = true ∧ servable (st_config st) ∧ st_paths st = mkOadPaths (rt_base_dir (runtime (st_config st))) ∧
      ∃ path file, config_path_from_args args = Ok (RunWith path) ∧ read_file_config read path = Ok file ∧ startable env file ∧
        st_config st = daemon_settings env read cwd file
  | (Ret None, w') => config_path_from_args args = Ok Usage ∧ w' = w
  | (_, w') =>
      (is_root = false ∨ (∃ e, config_path_from_args args = Err e) ∨
       (∃ path e, config_path_from_args args = Ok (RunWith path) ∧ load_config env read cwd path = Err e)) → w' = w
  end.
Proof.
  rewrite boot_unfold. destruct is_root; [|done]. destruct (config_path_from_args args) as [[|path]|e] eqn:Ea; [done| |done]. cbn [negb].
  destruct (load_config env read cwd path) as [config|e] eqn:El; [|done].
  assert (Hno : (true = false ∨ (∃ e, Ok (RunWith path) = @Err string Started e) ∨
     (∃ path' e, @Ok string _ (RunWith path) = Ok (RunWith path') ∧ load_config env read cwd path' = Err e)) → False).
  { intros [?|[[e ?]|(path' & e & [= <-] & He)]]; [done|done|]. congruence. }
  destruct (boot_with config w) as [[st| |] w'] eqn:Eb; [|by intros ?%Hno|by intros ?%Hno].
  destruct (boot_with_state config w st w' Eb) as (Hc & Hp & Hn & Ha & _). apply load_config_spec in El as (file & Hf & Hs & Hd).
  rewrite Hc. split; [done|]. split; [|split; [done|by exists path, file]]. destruct Hs as (_ & _ & _ & Hm & Ht).
  split_and!; [done|done|by rewrite Hd|]. rewrite Hd. cbn. intros Hon. by rewrite (Hm Hon).
Qed.
End startup.

(** ** A second daemon *)

#[local] Instance no_toml : TomlText := {| toml_from_str _ := None |}.

(** The address is in use; runsc knows of no container yet. *)
#[local] Instance taken : Env blob := {|
  env_reply _ c := match c with CBind _ _ => Fail (IoOther "address in use") | _ => Go end;
  env_partial _ := inl ""; env_survives _ _ := false;
  env_run _ _ := Exited true (Some 0%Z) "[]" ""; env_alive _ := false; env_effect _ _ fs := fs;
  env_pid := 1; env_nanos _ := 0%Z; env_tempfile _ := "" |}.

Definition sandbox_path : Path := ["run"; "omniagent"; "sandboxes"; "a"].
Definition first_daemon : World blob :=
  mkWorld (mkNetWorld (mkOs (list_to_map (map (λ n, (take n sandbox_path, Os.Dir)) [0; 1; 2; 3; 4]%nat) ∪
    {[ (sandbox_path ++ ["state.json"])%list := Os.File (inr (DocRecord (demo_record "a" Pending))) ]}) [] 0) ∅ false false) ∅ ∅.

Definition second_daemon : outcome string (option AppState) * World blob :=
  boot true [] (λ v, if decide (v = "OAD_BEARER_TOKEN") then Some "t" else if decide (v = "OAD_NETWORK_ENABLED") then Some "off" else None)
    (λ _, Err DaemonConfig.NotFound) [] (Ok tt) (λ _, Err NetJson) (λ _, "") first_daemon.

(** Its address is taken, but by then the sandbox the first is making was judged
    and its record written. *)
Example judged_before_bound :
  second_daemon.1 = Throw "failed to bind 127.0.0.1:8080" ∧
  files (w_os second_daemon.2) !! (sandbox_path ++ ["state.json"])%list = Some (Os.File (inr (DocRecord (demo_record "a" Stopped)))).
Proof. split; vm_compute; reflexivity. Qed.
