(* ===== verification/HandlersInv.v ===== *)
(** * Exec sessions of different sandboxes stay apart

    Every request names the sandbox it is about; the exec sessions of the others
    are out of its reach: they are neither changed nor do they make a difference
    to the answer, which is shown by running a request in two states that differ
    in them. *)
From S2P Require Import Prelude Str Core Cidr Nft Effect Os Entries Registry Json Snapshots Runtime Api OciBase App ExecSession ExecStream LogTail Network Lifecycle Handlers Demo.

Notation sessions := (gmap string Session).

(** The sessions of other sandboxes than [id]. *)
Definition foreign (id : string) (execs : sessions) : sessions :=
  filter (λ es : string * Session, bi_sandbox_id (s_info es.2) ≠ id) execs.

(** The sandbox a request names, and the name of the exec it starts. *)
Definition named_sandbox (request : ApiRequest) : option string :=
  match request with
  | GetSandbox id | DeleteSandbox id | GetLogs id _ | GetSandboxNetwork id | ExecInSandbox id _
  | StartBackgroundExec id _ _ | ListBackgroundExecs id | GetBackgroundExec id _ | KillBackgroundExec id _ _ _
  | WriteBackgroundExecStdin id _ _ _ | ResizeBackgroundExec id _ _ _ | StreamBackgroundExecEvents id _ _
  | SuspendSandbox id | ResumeSandbox id | SnapshotSandbox id _ _ => Some id
  | CreateSandbox _ _ | ListSandboxes | ListSnapshots | DeleteSnapshot _ => None
  end.

Definition started (request : ApiRequest) : option string :=
  match request with StartBackgroundExec _ e _ => Some e | _ => None end.

Lemma foreign_insert id (execs : sessions) e s :
  bi_sandbox_id (s_info s) = id → foreign id execs !! e = None → foreign id (<[e := s]> execs) = foreign id execs.
Proof.
  intros Hs He. unfold foreign in *. apply map_eq. intros k. apply option_eq. intros x.
  rewrite !map_lookup_filter_Some. destruct (decide (k = e)) as [->|Hne].
  - rewrite lookup_insert_eq. split; [intros [[= <-] Hn]; by destruct Hn|]. intros [Hx1 Hx2]. exfalso.
    assert (Hf : foreign id execs !! e = Some x) by (apply map_lookup_filter_Some; done). unfold foreign in Hf. congruence.
  - rewrite lookup_insert_ne; [congruence|done].
Qed.

Lemma foreign_own id (execs : sessions) e s :
  execs !! e = Some s → bi_sandbox_id (s_info s) = id → foreign id execs !! e = None.
Proof. intros He Hs. apply map_lookup_filter_None. right. intros s' Hs'. simpl. rewrite He in Hs'. by injection Hs' as <-. Qed.

Lemma foreign_filter id (execs : sessions) : foreign id (foreign id execs) = foreign id execs.
Proof.
  unfold foreign. apply map_eq. intros k. apply option_eq. intros x. rewrite !map_lookup_filter_Some. tauto.
Qed.

Section apart.
Context {B : Type} `{!Bytes B, !Env B, !JsonText}.
Context `{!Codec B SandboxRecord, !Codec B SandboxNetworkState, !Codec B SandboxSpec, !Codec B SnapshotManifest}.
Notation AppM := (M (World B) AppError).
Context (config : DaemonConfig) (paths : OadPaths) (envoy_text : result NetworkError B).
Context (prepare_pause_bundle : SandboxId → string → option Path → option Path → M (Os B) OciError ()).
Context (prepare_container_bundle : SandboxId → ContainerSpec → option Path → option Path → M (Os B) OciError ()).
Context (raw : B → string) (lossy : string → string) (rfc3339 : Z → string).
Context (others : World B → World B).
Notation serve := (serve config paths envoy_text prepare_pause_bundle prepare_container_bundle raw lossy rfc3339 others).

(** ** Code that has nothing to do with the sessions *)

Definition put_execs (execs : sessions) (w : World B) : World B := mkWorld (w_net w) (w_records w) execs.

(** It does the same whatever they are, and leaves them. *)
Definition quiet {E A} (m : M (World B) E A) : Prop := ∀ w execs, m (put_execs execs w) = ((m w).1, put_execs execs (m w).2).

Lemma put_own w : put_execs (w_execs w) w = w.
Proof. by destruct w. Qed.

Lemma quiet_keeps {E A} (m : M (World B) E A) : quiet m → ∀ w, w_execs (m w).2 = w_execs w.
Proof. intros Hm w. pose proof (Hm w (w_execs w)) as Hw. rewrite put_own in Hw. by rewrite Hw. Qed.

Lemma quiet_zoom {S E A} (get : World B → S) (set : S → World B → World B) (m : M S E A) :
  (∀ w e, get (put_execs e w) = get w) → (∀ w e s, set s (put_execs e w) = put_execs e (set s w)) → quiet (zoom get set m).
Proof. intros Hg Hs w e. unfold zoom. rewrite Hg. destruct (m (get w)). by rewrite Hs. Qed.

Lemma quiet_sys {E A} (m : M (Os B) E A) : quiet (on_sys m).
Proof. by apply quiet_zoom. Qed.

Lemma quiet_net {E A} (m : M (NetWorld B) E A) : quiet (on_net m).
Proof. by apply quiet_zoom. Qed.

Lemma quiet_reg {E A} (m : M (RegWorld B) E A) : quiet (on_reg m).
Proof. by apply quiet_zoom. Qed.

Lemma quiet_ret {E A} (a : A) : quiet (mret a : M (World B) E A).
Proof. done. Qed.

Lemma quiet_throw {E A} (e : E) : quiet (throw e : M (World B) E A).
Proof. done. Qed.

Lemma quiet_lift {E A} (r : result E A) : quiet (lift_result r).
Proof. done. Qed.

Lemma quiet_now {E} : quiet (now : M (World B) E Z).
Proof. done. Qed.

Lemma quiet_then {E A A'} (m : M (World B) E A) (k : A → M (World B) E A') : quiet m → (∀ a, quiet (k a)) → quiet (m ≫= k).
Proof. intros Hm Hk w e. unfold mbind, M_bind. rewrite Hm. destruct (m w) as [[a|x|] w']; cbn [fst snd]; [by rewrite Hk|done..]. Qed.

Lemma quiet_attempt {E F A} (m : M (World B) E A) : quiet m → quiet (attempt m : M (World B) F _).
Proof. intros Hm w e. unfold attempt. rewrite Hm. by destruct (m w) as [[a|x|] w']. Qed.

Lemma quiet_ignore {E F A} (m : M (World B) E A) : quiet m → quiet (ignore m : M (World B) F ()).
Proof. intros Hm. apply quiet_then; [by apply quiet_attempt|intros r; apply quiet_ret]. Qed.

Lemma quiet_mapE {E F A} (f : E → F) (m : M (World B) E A) : quiet m → quiet (mapE f m).
Proof. intros Hm w e. unfold mapE. rewrite Hm. by destruct (m w) as [[a|x|] w']. Qed.

Lemma quiet_on_error {E A} (c : M (World B) E ()) (m : M (World B) E A) : quiet c → quiet m → quiet (on_error c m).
Proof.
  intros Hc Hm w e. unfold on_error. rewrite Hm. destruct (m w) as [[a|x|] w']; cbn [fst snd]; [done| |done].
  rewrite Hc. by destruct (c w') as [[u|y|] w'']; cbn.
Qed.

Lemma quiet_forM {E X} (l : list X) (f : X → M (World B) E ()) : (∀ x, quiet (f x)) → quiet (forM l f).
Proof. intros Hf. induction l as [|x l IH]; [apply quiet_ret|]. by apply quiet_then. Qed.

Ltac quiet_step :=
  first
  [ apply quiet_sys | apply quiet_net | apply quiet_reg | apply quiet_now | apply quiet_ret | apply quiet_throw | apply quiet_lift
  | apply quiet_attempt | apply quiet_ignore | apply quiet_mapE | apply quiet_on_error | apply quiet_forM; intros ?
  | apply quiet_then; [|intros ?] ].
Ltac quiet_go := repeat first [quiet_step | case_match].

Lemma quiet_check b e : quiet (check b e : AppM ()).
Proof. unfold check. quiet_go. Qed.

Lemma quiet_get_record id : quiet (get_record id : AppM _).
Proof. unfold get_record. quiet_go. Qed.

Lemma quiet_resolve record id c : quiet (resolve_running_container paths record id c : AppM _).
Proof. unfold resolve_running_container. quiet_go. Qed.

Lemma quiet_resume_locked id r : quiet (resume_locked config paths envoy_text id r : AppM _).
Proof. unfold resume_locked, prepare_sandbox_network. quiet_go. Qed.

Lemma quiet_ensure_running id r : quiet (ensure_running config paths envoy_text id r : AppM _).
Proof. unfold ensure_running. case_match; [apply quiet_resume_locked|apply quiet_ret]. Qed.

Lemma quiet_suspend_locked id r : quiet (suspend_locked paths id r : AppM _).
Proof. unfold suspend_locked. quiet_go. Qed.

Lemma quiet_snapshot id n r : quiet (snapshot_sandbox_handler config paths id n r : AppM _).
Proof. unfold snapshot_sandbox_handler, capture, reserving. quiet_go. Qed.

Lemma quiet_logs id q : quiet (get_logs paths raw lossy id q : AppM _).
Proof. unfold get_logs, read_log_tail. quiet_go. apply quiet_resolve. Qed.

Lemma quiet_network id : quiet (get_sandbox_network config paths id : AppM _).
Proof. unfold get_sandbox_network. quiet_go. Qed.

Lemma quiet_exec id r : quiet (exec_in_sandbox config paths envoy_text id r : AppM _).
Proof.
  unfold exec_in_sandbox. apply quiet_then; [apply quiet_check|intros _].
  apply quiet_then; [apply quiet_get_record|intros record].
  apply quiet_then; [apply quiet_ensure_running|intros record'].
  apply quiet_then; [apply quiet_resolve|intros c]. quiet_go.
Qed.

Lemma quiet_resume id : quiet (resume_sandbox config paths envoy_text id : AppM _).
Proof.
  unfold resume_sandbox. apply quiet_then; [apply quiet_get_record|intros record].
  case_match; [apply quiet_throw|apply quiet_resume_locked].
Qed.

(** ** Code that does *)

Section keeps.
Context (id : SandboxId) (F : sessions).
Hypothesis others_apart : ∀ w, foreign (as_str id) (w_execs (others w)) = foreign (as_str id) (w_execs w).

Notation apart := (λ v : sessions, foreign (as_str id) v = F).
Notation wtriple := (triple_on (@w_execs B)).
Notation keeps m := (wtriple apart m (λ _, apart)).

Lemma keeps_quiet {E A} (m : M (World B) E A) : quiet m → keeps m.
Proof.
  intros Hm w Hw. pose proof (quiet_keeps m Hm w) as Hs. unfold wp. destruct (m w) as [o w']. cbn in Hs. by rewrite Hs.
Qed.

Lemma keeps_bind {A A'} (m : AppM A) (k : A → AppM A') : keeps m → (∀ a, keeps (k a)) → keeps (m ≫= k).
Proof. intros Hm Hk. eapply triple_on_bind; [exact Hm|exact Hk|done|done]. Qed.

Lemma keeps_set_execs (f : sessions → sessions) :
  wtriple (λ v, apart v ∧ apart (f v)) (set_execs f : AppM ()) (λ _, apart).
Proof. by intros w [_ H2]. Qed.

Lemma keeps_others : keeps (modify others : AppM ()).
Proof using others_apart. intros w Hw. unfold wp, modify. by rewrite others_apart. Qed.

Lemma keeps_kill : keeps (kill_for_sandbox (as_str id) : AppM ()).
Proof. intros w Hw. unfold wp, kill_for_sandbox, modify. simpl. by rewrite -/(foreign _ _) foreign_filter. Qed.

(** The session a request reaches is one of its own sandbox. *)
Lemma session_own e :
  wtriple apart (background_exec_session id e : AppM Session)
    (λ o v, apart v ∧ match o with Ret s => v !! e = Some s ∧ bi_sandbox_id (s_info s) = as_str id | _ => True end).
Proof.
  eapply triple_on_bind with (R := λ _, apart); [|intros []|done..].
  { apply (keeps_quiet (require_sandbox id)). unfold require_sandbox, check. quiet_go. }
  intros w Hw. unfold wp, gets, lift_result, check, mbind, M_bind. destruct (w_execs w !! e) as [s|] eqn:He; [|done].
  cbn [ok_or]. case_bool_decide; [|done]. done.
Qed.

Lemma keeps_session {A} e (k : Session → AppM A) :
  (∀ s, wtriple (λ v, apart v ∧ v !! e = Some s ∧ bi_sandbox_id (s_info s) = as_str id) (k s) (λ _, apart)) →
  keeps (background_exec_session id e ≫= k).
Proof. intros Hk. eapply triple_on_bind; [apply session_own|exact Hk|by intros ? ? [? _]|by intros ? [? _]]. Qed.

(** An update of such a session, followed by code that keeps the others. *)
Lemma keeps_update {A} e s s' (m : AppM A) :
  bi_sandbox_id (s_info s') = bi_sandbox_id (s_info s) → keeps m →
  wtriple (λ v, apart v ∧ v !! e = Some s ∧ bi_sandbox_id (s_info s) = as_str id) (set_session e s' ;; m) (λ _, apart).
Proof.
  intros Hs Hm. eapply triple_on_bind with (R := λ _, apart); [|intros []; exact Hm|done|done].
  eapply triple_on_weaken; [apply keeps_set_execs| |by intros o v].
  intros v (Hv & He & Hid). split; [done|]. rewrite foreign_insert; [congruence| |done].
  by apply (foreign_own _ _ _ s).
Qed.

Lemma keeps_write_stdin {X} data close (wr : result X ()) s : s_info (write_stdin data close wr s).2 = s_info s.
Proof. unfold write_stdin. destruct (negb _); [done|]. case_match; [|done]. by destruct close. Qed.

Lemma keeps_killed sent killed s : s_info (kill sent killed s).2 = s_info s.
Proof. unfold kill. by destruct (s_control s). Qed.

Lemma keeps_start e r : F !! e = None → keeps (start_background_exec config paths envoy_text id e r : AppM _).
Proof.
  intros He. unfold start_background_exec.
  apply keeps_bind; [apply keeps_quiet, quiet_check|]. intros _.
  apply keeps_bind; [apply keeps_quiet, quiet_check|]. intros _.
  apply keeps_bind; [apply keeps_quiet, quiet_get_record|]. intros record.
  apply keeps_bind; [apply keeps_quiet, quiet_ensure_running|]. intros record'.
  apply keeps_bind; [apply keeps_quiet, quiet_resolve|]. intros c.
  assert (Hset : ∀ s, bi_sandbox_id (s_info s) = as_str id → keeps (set_execs <[e := s]> : AppM ())).
  { intros s Hs. eapply triple_on_weaken; [apply keeps_set_execs| |by intros o v].
    intros v Hv. split; [done|]. rewrite foreign_insert; congruence. }
  apply keeps_bind; [|intros _; apply keeps_quiet; quiet_go]. destruct (bx_pty r).
  - apply keeps_bind; [apply keeps_quiet; quiet_go|]. intros _. by apply Hset.
  - apply keeps_bind; [apply keeps_quiet; quiet_go|]. intros _. by apply Hset.
Qed.

Lemma keeps_kill_exec e sent killed : keeps (kill_background_exec others id e sent killed : AppM _).
Proof using others_apart.
  unfold kill_background_exec. apply keeps_session. intros s. destruct (kill sent killed s) as [asked s'] eqn:Ek.
  apply keeps_update; [by rewrite -(keeps_killed sent killed s) Ek|].
  apply keeps_bind; [destruct asked; [apply keeps_others|apply keeps_quiet; quiet_go]|]. intros _. by intros w Hw.
Qed.

Lemma keeps_stdin e r wr : keeps (write_background_exec_stdin id e r wr : AppM _).
Proof.
  unfold write_background_exec_stdin. apply keeps_bind; [apply keeps_quiet, quiet_check|]. intros _.
  apply keeps_session. intros s. destruct (write_stdin _ _ wr s) as [answer s'] eqn:Ew.
  apply keeps_update; [by rewrite -(keeps_write_stdin (stdin_data r) (stdin_close r) wr s) Ew|].
  apply keeps_quiet. unfold check. quiet_go.
Qed.

Lemma keeps_list : keeps (list_background_execs id : AppM _).
Proof.
  apply keeps_bind; [apply keeps_quiet; unfold require_sandbox, check; quiet_go|]. by intros _ w Hw.
Qed.

Lemma keeps_lookup_exec {A} e (f : Session → A) : keeps (s ← background_exec_session id e; mret (f s) : AppM A).
Proof. apply keeps_session. by intros s w [Hw _]. Qed.

Lemma keeps_resize e r ok : keeps (resize_background_exec id e r ok : AppM _).
Proof.
  unfold resize_background_exec. apply keeps_bind; [apply keeps_quiet, quiet_check|]. intros _.
  apply keeps_session. intros s w [Hw _]. unfold wp, check. by destruct (resize ok s).
Qed.

Lemma keeps_delete : keeps (Lifecycle.delete_sandbox config paths id : AppM _).
Proof.
  unfold Lifecycle.delete_sandbox. apply keeps_bind; [apply keeps_quiet, quiet_get_record|]. intros current.
  apply keeps_bind; [apply keeps_kill|]. intros _. apply keeps_quiet. quiet_go.
Qed.

Lemma keeps_suspend : keeps (suspend_sandbox config paths id : AppM _).
Proof.
  unfold suspend_sandbox. apply keeps_bind; [apply keeps_quiet, quiet_get_record|]. intros record.
  case_match; [apply keeps_quiet; quiet_go|]. case_match; [apply keeps_quiet; quiet_go|].
  apply keeps_bind; [apply keeps_kill|]. intros _. apply keeps_quiet, quiet_suspend_locked.
Qed.
End keeps.

(** ** States that differ in the sessions of others *)

Definition own (id : string) (execs : sessions) : sessions :=
  filter (λ es : string * Session, bi_sandbox_id (s_info es.2) = id) execs.

Definition alike (id : string) (w w' : World B) : Prop :=
  w_net w = w_net w' ∧ w_records w = w_records w' ∧ own id (w_execs w) = own id (w_execs w').

(** The same answer; of an exec that is not found the text of the error may say
    that another sandbox has it. *)
Definition same_answer {A} (o o' : outcome AppError A) : Prop :=
  o = o' ∨ ∃ m m', o = Throw (NotFoundError m) ∧ o' = Throw (NotFoundError m').

Section agrees.
Context (id : SandboxId).
Hypothesis others_alike : ∀ w w', alike (as_str id) w w' → alike (as_str id) (others w) (others w').
Hypothesis others_apart : ∀ w, foreign (as_str id) (w_execs (others w)) = foreign (as_str id) (w_execs w).

(** From states [alike] in which [P] holds. *)
Definition agrees {A} (P : World B → Prop) (m : AppM A) : Prop := ∀ w w', alike (as_str id) w w' → P w → P w' →
  same_answer (m w).1 (m w').1 ∧ alike (as_str id) (m w).2 (m w').2.

Notation always := (λ _ : World B, True).

Lemma alike_put w w' : alike (as_str id) w w' → w' = put_execs (w_execs w') w.
Proof. intros (Hn & Hr & _). destruct w, w'. cbn in *. by subst. Qed.

Lemma agrees_quiet {A} P (m : AppM A) : quiet m → agrees P m.
Proof.
  intros Hm w w' Ha _ _. pose proof (quiet_keeps m Hm w) as Hk. pose proof (alike_put _ _ Ha) as Hw. destruct Ha as (Hn & Hr & He).
  rewrite Hw Hm. cbn [fst snd]. split; [by left|]. destruct (m w) as [o w1]. cbn in *. split_and!; [done..|]. cbn. by rewrite Hk.
Qed.

Lemma agrees_bind {A A'} P Q (m : AppM A) (k : A → AppM A') : agrees P m →
  (∀ w a w1, P w → m w = (Ret a, w1) → Q a w1) → (∀ a, agrees (Q a) (k a)) → agrees P (m ≫= k).
Proof.
  intros Hm Hq Hk w w' Ha Hp Hp'. destruct (Hm w w' Ha Hp Hp') as [Ho Hs]. pose proof (Hq w) as Hw. pose proof (Hq w') as Hw'.
  unfold mbind, M_bind. destruct (m w) as [o w1], (m w') as [o' w1']. cbn [fst snd] in *.
  destruct Ho as [<-|(x & x' & -> & ->)]; [|split; [right; by exists x, x'|done]].
  destruct o as [a|x|]; [|split; [by left|done]..]. apply Hk; [done|by apply Hw|by apply Hw'].
Qed.

(** The way most handlers go: what is read first does not matter to what is known. *)
Lemma agrees_then {A A'} (m : AppM A) (k : A → AppM A') : agrees always m → (∀ a, agrees always (k a)) → agrees always (m ≫= k).
Proof. intros Hm Hk. by apply (agrees_bind _ (λ _, always)). Qed.

Lemma own_lookup execs e s : own (as_str id) execs !! e = Some s ↔ execs !! e = Some s ∧ bi_sandbox_id (s_info s) = as_str id.
Proof. unfold own. by rewrite map_lookup_filter_Some. Qed.

(** The session that is found is one of its own, the same in both. *)
Definition find_own (e : string) (execs : sessions) : outcome AppError Session :=
  match own (as_str id) execs !! e with
  | Some s => Ret s
  | None => Throw (NotFoundError ("background exec " ++ e ++ " not found" ++
      match execs !! e with Some _ => " in sandbox " ++ as_str id | None => "" end))
  end.

Lemma session_run e w : (background_exec_session id e : AppM Session) w =
  match (require_sandbox id : AppM ()) w with
  | (Ret _, w1) => (find_own e (w_execs w1), w1)
  | (Throw x, w1) => (Throw x, w1)
  | (Crash, w1) => (Crash, w1)
  end.
Proof.
  unfold background_exec_session, find_own, check, gets, lift_result, throw, mret, M_ret, mbind, M_bind.
  destruct ((require_sandbox id : AppM ()) w) as [[u|x|] w1]; [|done..]. destruct (w_execs w1 !! e) as [s|] eqn:He; cbn [ok_or].
  - case_bool_decide as Hid.
    + by rewrite (proj2 (own_lookup _ _ _) (conj He Hid)).
    + destruct (own _ _ !! e) as [s'|] eqn:Eo; [apply own_lookup in Eo as [H1 H2]; congruence|]. done.
  - destruct (own _ _ !! e) as [s'|] eqn:Eo; [|done]. apply own_lookup in Eo as [H1 H2]. congruence.
Qed.

Lemma quiet_require : quiet (require_sandbox id : AppM ()).
Proof. unfold require_sandbox, check. quiet_go. Qed.

Lemma agrees_session e : agrees always (background_exec_session id e : AppM Session).
Proof.
  intros w w' Ha _ _. destruct (agrees_quiet always (require_sandbox id : AppM ()) quiet_require w w' Ha I I) as [Ho Hs].
  rewrite !session_run. destruct ((require_sandbox id : AppM ()) w) as [o w1], ((require_sandbox id : AppM ()) w') as [o' w1']. cbn [fst snd] in *.
  destruct Ho as [<-|(x & x' & -> & ->)]; [|split; [right; by exists x, x'|done]].
  destruct o as [u|x|]; [|split; [by left|done]..]. split; [|done]. destruct Hs as (_ & _ & He). unfold find_own. cbn [fst]. rewrite He.
  destruct (own _ _ !! e) as [s|]; [by left|]. right. by eexists _, _.
Qed.

(** What is known when it was found. *)
Definition has_own (e : string) (s : Session) (w : World B) : Prop := own (as_str id) (w_execs w) !! e = Some s.

Lemma agrees_found {A} e (k : Session → AppM A) : (∀ s, agrees (has_own e s) (k s)) → agrees always (background_exec_session id e ≫= k).
Proof.
  intros Hk. eapply agrees_bind; [apply agrees_session| |exact Hk]. intros w s w1 _ Hs. rewrite session_run in Hs.
  unfold has_own, find_own in *. destruct ((require_sandbox id : AppM ()) w) as [[u|x|] w0]; [|done..].
  destruct (own _ (w_execs w0) !! e) as [s'|] eqn:Eo; [by injection Hs as -> ->|done].
Qed.

Lemma own_insert execs e s : bi_sandbox_id (s_info s) = as_str id → own (as_str id) (<[e := s]> execs) = <[e := s]> (own (as_str id) execs).
Proof. intros Hs. unfold own. by rewrite map_filter_insert_True. Qed.

Lemma agrees_insert P e s : bi_sandbox_id (s_info s) = as_str id → agrees P (set_execs <[e := s]> : AppM ()).
Proof. intros Hs w w' (Hn & Hr & He) _ _. split; [by left|]. split_and!; [done..|]. cbn. by rewrite !own_insert // He. Qed.

Lemma agrees_weaken {A} (P Q : World B → Prop) (m : AppM A) : (∀ w, Q w → P w) → agrees P m → agrees Q m.
Proof. intros Hpq Hm w w' Ha Hq Hq'. apply Hm; auto. Qed.

(** A session that was found, changed and put back. *)
Lemma agrees_update {A} e s s' (m : AppM A) : s_info s' = s_info s → agrees (has_own e s') m →
  agrees (has_own e s) (set_session e s' ;; m).
Proof.
  intros Hs Hm w w' Ha Hp Hp'. assert (Hid : bi_sandbox_id (s_info s') = as_str id) by (apply own_lookup in Hp as [_ <-]; by rewrite Hs).
  revert w w' Ha Hp Hp'. apply (agrees_bind _ (λ _, has_own e s')); [by apply agrees_insert| |done].
  intros w u w1 _ [= _ <-]. unfold has_own. cbn. rewrite own_insert //. apply lookup_insert_eq.
Qed.

Lemma agrees_others e s : agrees (has_own e s) (modify others : AppM ()).
Proof using others_alike. intros w w' Ha _ _. split; [by left|]. by apply others_alike. Qed.

(** A session read again is its own still, or gone. *)
Definition at_most_own (e : string) (w : World B) : Prop := foreign (as_str id) (w_execs w) !! e = None.

Lemma has_at_most e s w : has_own e s w → at_most_own e w.
Proof. intros [He Hs]%own_lookup. by apply (foreign_own _ _ _ s). Qed.

Lemma own_read e w : at_most_own e w → w_execs w !! e = own (as_str id) (w_execs w) !! e.
Proof.
  intros Hf. destruct (w_execs w !! e) as [s|] eqn:He.
  - symmetry. apply own_lookup. split; [done|]. destruct (decide (bi_sandbox_id (s_info s) = as_str id)) as [|Hne]; [done|].
    assert (Hin : foreign (as_str id) (w_execs w) !! e = Some s) by by apply map_lookup_filter_Some. unfold at_most_own in Hf. congruence.
  - symmetry. destruct (own _ _ !! e) as [s|] eqn:Eo; [|done]. apply own_lookup in Eo as [? _]. congruence.
Qed.

Lemma agrees_reread {A} e (f : option Session → A) : agrees (at_most_own e) (gets (λ w, f (w_execs w !! e)) : AppM A).
Proof.
  intros w w' Ha Hp Hp'. split; [|done]. left. unfold gets. cbn. rewrite !own_read //. by destruct Ha as (_ & _ & ->).
Qed.

(** ** The handlers *)

Lemma agrees_kill_exec e sent killed : agrees always (kill_background_exec others id e sent killed : AppM _).
Proof using others_alike others_apart.
  unfold kill_background_exec. apply agrees_found. intros s. destruct (kill sent killed s) as [asked s'] eqn:Ek.
  apply agrees_update; [by rewrite -(keeps_killed sent killed s) Ek|].
  apply (agrees_bind _ (λ _, at_most_own e)).
  - destruct asked; [apply agrees_others|by apply agrees_quiet].
  - intros w u w1 Hp%has_at_most Hm. destruct asked; injection Hm as _ <-; [|done]. unfold at_most_own. by rewrite others_apart.
  - intros _. apply (agrees_reread e (λ o, match o with Some s => s_info s | None => s_info s' end)).
Qed.

Lemma agrees_stdin e r wr : agrees always (write_background_exec_stdin id e r wr : AppM _).
Proof.
  unfold write_background_exec_stdin. apply agrees_then; [apply agrees_quiet, quiet_check|]. intros _.
  apply agrees_found. intros s. destruct (write_stdin _ _ wr s) as [answer s'] eqn:Ew.
  apply agrees_update; [by rewrite -(keeps_write_stdin (stdin_data r) (stdin_close r) wr s) Ew|].
  apply agrees_quiet. unfold check. quiet_go.
Qed.

Lemma agrees_resize e r ok : agrees always (resize_background_exec id e r ok : AppM _).
Proof.
  unfold resize_background_exec. apply agrees_then; [apply agrees_quiet, quiet_check|]. intros _.
  apply agrees_found. intros s. apply agrees_quiet, quiet_check.
Qed.

Lemma agrees_read {A} e (f : Session → A) : agrees always (s ← background_exec_session id e; mret (f s) : AppM A).
Proof. apply agrees_found. intros s. apply agrees_quiet, quiet_ret. Qed.

Lemma list_own execs : list_for_sandbox (as_str id) execs = btree_values (s_info <$> own (as_str id) execs).
Proof. unfold list_for_sandbox, own. by rewrite map_filter_fmap. Qed.

Lemma agrees_list : agrees always (list_background_execs id : AppM _).
Proof.
  apply agrees_then; [apply agrees_quiet, quiet_require|]. intros _ w w' Ha _ _. split; [|done]. left. unfold gets. cbn.
  rewrite !list_own. by destruct Ha as (_ & _ & ->).
Qed.

Lemma agrees_kill : agrees always (kill_for_sandbox (as_str id) : AppM ()).
Proof.
  intros w w' (Hn & Hr & _) _ _. split; [by left|]. split_and!; [done..|]. cbn.
  assert (Hnone : ∀ execs : sessions, own (as_str id) (filter (λ es : string * Session, bi_sandbox_id (s_info es.2) ≠ as_str id) execs) = ∅).
  { intros execs. apply map_empty. intros k. apply map_lookup_filter_None. right. by intros s [_ Hs]%map_lookup_filter_Some. }
  by rewrite !Hnone.
Qed.

Lemma agrees_delete : agrees always (Lifecycle.delete_sandbox config paths id : AppM _).
Proof.
  unfold Lifecycle.delete_sandbox. apply agrees_then; [apply agrees_quiet, quiet_get_record|]. intros current.
  apply agrees_then; [apply agrees_kill|]. intros _. apply agrees_quiet. quiet_go.
Qed.

Lemma agrees_suspend : agrees always (suspend_sandbox config paths id : AppM _).
Proof.
  unfold suspend_sandbox. apply agrees_then; [apply agrees_quiet, quiet_get_record|]. intros record.
  case_match; [apply agrees_quiet; quiet_go|]. case_match; [apply agrees_quiet; quiet_go|].
  apply agrees_then; [apply agrees_kill|]. intros _. apply agrees_quiet, quiet_suspend_locked.
Qed.

Lemma agrees_start e r : agrees always (start_background_exec config paths envoy_text id e r : AppM _).
Proof.
  unfold start_background_exec.
  apply agrees_then; [apply agrees_quiet, quiet_check|]. intros _.
  apply agrees_then; [apply agrees_quiet, quiet_check|]. intros _.
  apply agrees_then; [apply agrees_quiet, quiet_get_record|]. intros record.
  apply agrees_then; [apply agrees_quiet, quiet_ensure_running|]. intros record'.
  apply agrees_then; [apply agrees_quiet, quiet_resolve|]. intros c.
  apply agrees_then; [|intros _; apply agrees_quiet, quiet_ret]. destruct (bx_pty r).
  - apply agrees_then; [apply agrees_quiet; unfold app_runtime; quiet_go|]. intros _. by apply agrees_insert.
  - apply agrees_then; [apply agrees_quiet; unfold app_runtime; quiet_go|]. intros _. by apply agrees_insert.
Qed.
End agrees.

Lemma at_id_run {A} id (h : SandboxId → AppM A) w : at_id id h w =
  match SandboxId_new id with Ok i => h i w | Err e => (match parse_sandbox_id id with Ok _ => Crash | Err e => Throw e end, w) end.
Proof. unfold at_id, parse_sandbox_id, lift_result, mbind, M_bind. by destruct (SandboxId_new id). Qed.

Lemma at_id_keeps {A} id (h : SandboxId → AppM A) w :
  (∀ i, as_str i = id → triple_on w_execs (λ v, foreign (as_str i) v = foreign id (w_execs w)) (h i)
     (λ _ v, foreign (as_str i) v = foreign id (w_execs w))) →
  foreign id (w_execs (at_id id h w).2) = foreign id (w_execs w).
Proof.
  intros Hh. rewrite at_id_run. destruct (SandboxId_new id) as [i|] eqn:E; [|done].
  apply SandboxId_new_valid in E as [-> _]. specialize (Hh (mkSandboxId id) eq_refl w eq_refl).
  unfold wp in Hh. by destruct (h (mkSandboxId id) w) as [o wx].
Qed.

Lemma at_id_agrees {A} id (h : SandboxId → AppM A) w w' :
  (∀ i, as_str i = id → agrees i (λ _, True) (h i)) → alike id w w' →
  same_answer (at_id id h w).1 (at_id id h w').1 ∧ alike id (at_id id h w).2 (at_id id h w').2.
Proof.
  intros Hh Ha. rewrite !at_id_run. destruct (SandboxId_new id) as [i|] eqn:E; [|split; [by left|done]].
  apply SandboxId_new_valid in E as [-> _]. by apply (Hh (mkSandboxId id) eq_refl).
Qed.

(** C36. A request about a sandbox neither changes nor reaches the exec sessions of the
    others.  It leaves them as they are, when the id of an exec it starts is not
    one of theirs.  And they make no difference to it: in two states that differ
    in them alone it gives the same answer and leaves states that differ in them
    alone; only the text of an error that says that an exec is not found may
    tell that there is one with this id elsewhere.  The tasks that run while a
    kill waits are taken to keep to this. *)
Theorem exec_sessions_apart (request : ApiRequest) (id : string) (w w' : World B) :
  named_sandbox request = Some id →
  (∀ e, started request = Some e → foreign id (w_execs w) !! e = None) →
  (∀ w, foreign id (w_execs (others w)) = foreign id (w_execs w)) →
  (∀ w w', alike id w w' → alike id (others w) (others w')) →
  foreign id (w_execs (serve request w).2) = foreign id (w_execs w) ∧
  (alike id w w' → same_answer (serve request w).1 (serve request w').1 ∧ alike id (serve request w).2 (serve request w').2).
Proof.
  intros Hid Hstart Hothers Halike. split.
  - destruct request; try discriminate Hid; injection Hid as ->; cbn [serve]; apply at_id_keeps; intros i Hi; subst id.
    + apply keeps_quiet, quiet_get_record.
    + apply keeps_delete.
    + apply keeps_quiet, quiet_logs.
    + apply keeps_quiet, quiet_network.
    + apply keeps_quiet, quiet_exec.
    + by apply keeps_start, Hstart.
    + apply keeps_list.
    + apply keeps_lookup_exec.
    + by apply keeps_kill_exec.
    + apply keeps_stdin.
    + apply keeps_resize.
    + apply (keeps_lookup_exec _ _ _ (λ s, (default 1%Z _, s))).
    + apply keeps_suspend.
    + apply keeps_quiet, quiet_resume.
    + apply keeps_quiet, quiet_snapshot.
  - intros Ha. destruct request; try discriminate Hid; injection Hid as ->; cbn [serve]; (apply at_id_agrees; [|exact Ha]); intros i Hi; subst id.
    + apply agrees_quiet, quiet_get_record.
    + apply agrees_delete.
    + apply agrees_quiet, quiet_logs.
    + apply agrees_quiet, quiet_network.
    + apply agrees_quiet, quiet_exec.
    + apply agrees_start.
    + apply agrees_list.
    + apply agrees_read.
    + by apply agrees_kill_exec.
    + apply agrees_stdin.
    + apply agrees_resize.
    + apply (agrees_read _ _ (λ s, (default 1%Z _, s))).
    + apply agrees_suspend.
    + apply agrees_quiet, quiet_resume.
    + apply agrees_quiet, quiet_snapshot.
Qed.
End apart.

(** Killing the exec of one sandbox, with and without one of another. *)
Definition demo_serve (request : ApiRequest) : M (World blob) AppError (ApiAnswer request) :=
  Handlers.serve (Env0 := quiet_env) demo_config demo_paths (Ok (inl EmptyString)) (λ _ _ _ _, mret tt) (λ _ _ _ _, mret tt)
     (λ _, EmptyString) (λ s, s) (λ _, EmptyString) (λ w, w) request.

Definition demo_kill : ApiRequest := KillBackgroundExec "a" "e1" true true.

Definition demo_alone : World blob := put_execs {[ "e1" := demo_session "e1" "a" ]} demo_world.

Lemma demo_differ : alike "a" demo_world demo_alone.
Proof. split_and!; [reflexivity..|]. apply map_eq. intros k. vm_compute. reflexivity. Qed.

Lemma exec_sessions_apart_witness :
  s_control <$> w_execs (demo_serve demo_kill demo_world).2 !! "e1" = Some (Pipes false false) ∧
  foreign "a" (w_execs (demo_serve demo_kill demo_world).2) = foreign "a" (w_execs demo_world) ∧
  same_answer (demo_serve demo_kill demo_world).1 (demo_serve demo_kill demo_alone).1.
Proof.
  split; [vm_compute; reflexivity|].
  pose proof (exec_sessions_apart (Env0 := quiet_env) demo_config demo_paths (Ok (inl EmptyString)) (λ _ _ _ _, mret tt) (λ _ _ _ _, mret tt)
    (λ _, EmptyString) (λ s, s) (λ _, EmptyString) (λ w, w) demo_kill "a" demo_world demo_alone
    eq_refl (λ e (H : None = Some e), ltac:(discriminate H)) (λ w, eq_refl) (λ w w' H, H)) as [H1 H2].
  split; [exact H1|exact (proj1 (H2 demo_differ))].
Defined.

(** Through the wrong sandbox the exec is not found. *)
Example foreign_exec_not_found :
  (Handlers.get_background_exec (mkSandboxId "a") "e2" demo_world).1 =
  Throw (NotFoundError "background exec e2 not found in sandbox a").
Proof. vm_compute. reflexivity. Qed.

(** ** Statuses the documentation leaves out

    Each of those [undocumented] lists is answered in some state. *)
Definition status_of (bundle : outcome OciError ()) (request : ApiRequest) (w : World blob) : option Z :=
  match (Handlers.serve (Env0 := quiet_env) demo_config demo_paths (Ok (inl EmptyString)) (λ _ _ _ _ s, (bundle, s)) (λ _ _ _ _ s, (bundle, s))
     (λ _, EmptyString) (λ s, s) (λ _, EmptyString) (λ w, w) request w).1 with
  | Throw e => Some (into_response e).1
  | _ => None
  end.

Definition stopped_world : World blob :=
  mkWorld (mkNetWorld (mkOs {[ sandbox_network_state demo_paths (mkSandboxId "a") := File (inl "no document") ]} [] 0) ∅ false false)
    {[ "a" := demo_record "a" Stopped ]} ∅.

Definition one_container : ContainerSpec := mkContainerSpec "main" "alpine" [] [] [].

Example undocumented_answered :
  status_of (Ret tt) (CreateSandbox (mkSandboxId "c") (mkCreateRequest None [] (Some "absent") None)) stopped_world = Some 404%Z ∧
  status_of (Throw (BodyTooLarge "layer" 1)) (CreateSandbox (mkSandboxId "c") (mkCreateRequest None [one_container] None None)) stopped_world = Some 413%Z ∧
  status_of (Ret tt) (GetLogs "a" (mkLogsQuery None None)) stopped_world = Some 409%Z ∧
  status_of (Ret tt) (ExecInSandbox "a" (mkExecRequest None ["true"] [] None)) stopped_world = Some 409%Z ∧
  status_of (Ret tt) (GetSandboxNetwork "a") stopped_world = Some 500%Z.
Proof. vm_compute. split_and!; reflexivity. Qed.
